(* ===== verification/_CoqProject ===== *)
-Q . S2P
Prelude.v
BTreeMap.v
Types.v
Diagnostics.v
Syntax.v
Bound.v
Budget.v
Contract.v
Catalog.v
CatalogFacts.v
Features.v
Cost.v
Suggest.v
Scope.v
Bind.v
Render.v
SqlText.v
RenderText.v
Validate.v
BindLogic.v
Elab.v
BindSound.v
PlanFacts.v
BindComplete.v
RenderFacts.v
FeatureFacts.v
ParameterFacts.v
ValidateFacts.v
JoinFacts.v
Behaviours.v
Emission.v
JobRunner.v
JobQueue.v
Rewrite.v
Adapters.v
Optimizer.v
Federation.v
OptimizerExamples.v
Cluster.v
SchemaSync.v
Hub.v
HubExamples.v
Provenance.v
Access.v
Tenancy.v
ClickHouseScope.v
ClickHouseRewrite.v
ClickHouse.v
ClickHouseFacts.v
ClickHouseAdapterFacts.v
ClickHouseCost.v
SourceMap.v
SqlDialect.v
Syql.v
Json.v
Inspect.v
Facade.v
Numerals.v
Csv.v
Canonical.v
Citation.v
Bundle.v
Import.v
ImportExamples.v
Names.v
Tokens.v
Runtime.v
Burst.v
ClickHouseDriver.v
HostDb.v
HostConfig.v
Doi.v
Host.v
HostFacts.v
HostExamples.v
Web.v
Tools.v
Metrics.v
TestRig.v
Bindings.v
