(* ===== verification/Prelude.v ===== *)
(** * QueryFabric: a verification library

    QueryFabric compiles portable SQL for several backends and runs it in a
    federation of clusters.  A frontend lowers a text to a dialect-neutral
    syntax tree; a budget bounds the tree; the binder resolves names, infers
    types and parameters and yields a typed plan or an error; passes may rewrite
    the plan; an adapter analyses it, estimates its cost and writes it as SQL
    for one backend.  Around the compiler, a queue runs jobs, a federation
    plans queries over several shards, routes them to healthy clusters and
    keeps their schemas in step, and an access layer decides who sees what and
    records it.  Workers answer queries over Flight, or are started as jobs of a
    Kubernetes cluster; bundles carry a resource with its table from one host to
    another; and a demonstrator host puts the parts together behind HTTP
    handlers.  Around them stand clients of ClickHouse and of the web, metrics,
    and the tools of a release.  This library models these parts from the crates
    under src/crates/.

    ** Files, in dependency order

    Foundations
    - [Prelude]: results and the [?] operator, a state monad for methods that
      take [&mut self], strings as UTF-8 bytes, machine integers, iterators,
      the stable sort.
    - [BTreeMap]: Rust's ordered maps over a class [RustOrd] of total orders.

    Data, crate [queryfabric-ir]
    - [Types] (types.rs): types, values, parameters, requirements.
    - [Diagnostics] (diagnostics.rs, error.rs): spans, diagnostics, receipts,
      errors.
    - [Syntax] (syntax.rs): the syntax tree, with its induction principle.
    - [Bound] (bound.rs): parsed queries, the plan, bound queries.
    - [Budget] (budget.rs): the measurement of a query and the check.

    Catalogs and binding, crate [queryfabric-catalog]
    - [Contract] (crate [queryfabric-contract]): identities and resources shared
      by the crates of the federation.
    - [Catalog], [CatalogFacts] (model.rs, builtins.rs, stats_source.rs):
      schemas, signatures, the builtins, the in-memory catalog, its document,
      statistics.  A catalog is the record [Catalog] of the methods of the
      source's trait: the binder and the renderer are proved for every catalog,
      and [memory_catalog] is one.
    - [Features] (features.rs): what a query or a plan uses.
    - [Cost] (model.rs): capabilities, limits, cost estimates, artifacts.
    - [Suggest] (bind/suggest.rs): edit distance and suggestions.
    - [Scope] (bind/scope.rs): name resolution.
    - [Bind] (the rest of bind/): the binder.  Its three mutable fields are the
      state of the monad; the catalog and the supplied parameters are section
      variables.
    - [Validate] (bind/mod.rs, bind/query.rs): [bind_and_validate] and the
      capability requirements.
    - [Render] (render/): the renderer and the backend analysis.

    Specifications and proofs of the compiler
    - [Elab]: the elaboration judgements, inference rules that say what plan a
      query means, without state, diagnostics or errors.
    - [BindLogic]: the program logic.  A run only extends the state, and
      [yields] states a property of a result under the assumption that no
      error is reported in the end.
    - [BindSound], [BindComplete]: the binder refines the judgements, and binds
      every query without anonymous parameters that they elaborate.
    - [PlanFacts], [FeatureFacts], [ParameterFacts], [JoinFacts]: consequences
      for plans, features, parameters and joins.
    - [ValidateFacts]: the promises of [bind_and_validate].
    - [SqlText]: how a backend reads SQL text: a scanner for strings, quoted
      names, comments and brackets, and readers of single tokens.
    - [RenderText], [RenderFacts]: the renderer against that specification, and
      the analysis.
    - [Behaviours], [Emission]: whole queries on a small catalog, the witnesses
      of the theorems above, and surprising behaviours.

    Rewriting, planning and adapters
    - [Rewrite] (crate [queryfabric-opt], syntax.rs): the trait of tree
      transformers.  A transformer calls back into itself through its trait
      object; [tie] unrolls these calls to a depth, and the height of the tree
      is shown to be depth enough.
    - [Adapters] (crate [queryfabric-adapter-postgres], the trait of the catalog
      crate): backend adapters and the PostgreSQL one.
    - [Optimizer] (lib.rs, jobs.rs): the pipeline of passes, sizes of jobs.
    - [Federation], [OptimizerExamples] (federation/): the
      plan that splits an aggregate over shards and merges the parts.
    - [ClickHouseScope], [ClickHouseRewrite], [ClickHouse], [ClickHouseFacts],
      [ClickHouseAdapterFacts] (crate [queryfabric-adapter-clickhouse], rewrite/,
      lib.rs, arrow.rs, types.rs): merge functions on materialized views, UUIDs
      as text, the adapter and the casts for Arrow.
    - [ClickHouseCost] (cost.rs): the cost estimate.
    - [ClickHouseDriver] (driver.rs, runtime.rs): the client with its fallback
      hosts, names of tables, inserts, the stream of batches and the runtime.

    Frontends and facade
    - [SourceMap] (crate [queryfabric-dialect-sql], source_map.rs): from the
      lines and columns of rewritten text back to the user's bytes.
    - [SqlDialect] (lib.rs, lower.rs, helpers.rs): the SQL frontend up to the
      third-party parser, a class [SqlParser].
    - [Syql] (crate [queryfabric-dialect-syql]): the SyQL frontend.
    - [Json]: the values of the third-party JSON crate, with its maps a class.
    - [Inspect] (crate [queryfabric], inspect.rs): summaries of queries and
      parameters from JSON.
    - [Facade] (lib.rs): [QueryCompiler].

    Jobs, crate [queryfabric-job-queue]
    - [JobRunner] (priority.rs): the heap of pending jobs.
    - [JobQueue] (actor.rs, lib.rs): the actor as a
      step relation.  Its handlers are atomic, except cancellation, which is
      split at its first await.

    Clusters, crates [queryfabric-cluster] and [queryfabric-federation]
    - [Cluster]: the registry, circuit breakers, probes,
      routing by locality, the health sweep.
    - [SchemaSync], [Hub], [HubExamples]: the hub, the nodes, and
      the protocol that brings a node's schema up to date.

    Access, crates [queryfabric-access], [queryfabric-provenance],
    [queryfabric-tenancy]
    - [Provenance]: the log, kept in order of time.
    - [Access]: policies, decisions, rights and their record.
    - [Tenancy]: tenants, and the owner of a resource.

    Portability, crate [queryfabric-portability]
    - [Numerals]: decimal numerals, and which bytes are a text.
    - [Csv] (import.rs, the tabular profile): the reader and the writer.
    - [Canonical] (canonical.rs): JSON with sorted keys.
    - [Citation] (citation.rs): BibTeX, RIS, CFF and JSON-LD.
    - [Bundle] (bundle.rs, manifest.rs): what is exported, and its seal.
    - [Import], [ImportExamples] (import.rs): the strict reader of documents,
      the limits, the validation of a bundle and the plan of a table.
    - [Doi] (doi.rs, datacite.rs): metadata for a registrar, and its answer.

    Identities, crates [queryfabric-types], [queryfabric-namespace-uuid],
    [queryfabric-content-hash], [queryfabric-paseto], [queryfabric-session],
    [queryfabric-problem-details]
    - [Names]: validated names, identifiers of version 5, hashes of files.
    - [Tokens]: bearer tokens, delegation, cookies, problem documents.

    Workers, crates [queryfabric-runtime], [queryfabric-worker],
    [queryfabric-flight-pool], [queryfabric-flight-cache],
    [queryfabric-runtime-k8s]
    - [Runtime]: runtime modes, Flight services, pools and caches.
    - [Burst]: storage, manifests, the wait for a pod, the clean-up of jobs.

    The demonstrator host, crates [queryfabric-demo] and [queryfabric-store]
    - [HostDb] (dataset.rs, db.rs): the tables with their constraints, the
      import transaction as a function of what fails, several of them as a step
      relation, seeding, and bounded queries.
    - [HostConfig] (config.rs): variables, secret files, what is logged.
    - [Host] (http.rs, sovereignty.rs, main.rs, dataset.rs, the store): the
      start, the routes and the handlers, over the state [HostWorld] of objects,
      tables and the log.
    - [HostFacts], [HostExamples]: what the host promises, and witnesses.

    Clients and tools
    - [Web] (crates [queryfabric-web], [queryfabric-fetch]): queries, redirects
      and settings of web front ends, the client of the API, downloads.
    - [Tools] (crates [queryfabric-release], [queryfabric-cli-toolbelt],
      [queryfabric-cmd-runner], [queryfabric-changelog]): the order and the
      steps of a release, subprocesses, kubectl, credentials, the changelog.
    - [Metrics] (crate [queryfabric-prom]; router.rs of the job queue; fernet.rs
      and swarm.rs of [queryfabric-cluster]; [queryfabric-tcp-tuned]): families
      of metrics and what records in them, routes, keys, sockets.
    - [TestRig] (crate [queryfabric-test-rig]): containers and networks of
      Docker, the services of a rig with their roll-back, waits and probes,
      credentials of registries, helpers for ClickHouse.
    - [Bindings] (crates [queryfabric-python], [queryfabric-leptos],
      [queryfabric-dioxus], [queryfabric-seaorm-ext]): the Python module, the
      editor as a web component, the shared connection of an ORM.

    ** What the theorems show

    The compiler
    - Binding without errors is elaboration ([BindComplete]): an accepted query
      is bound as the judgements say, it has no unsupported node,
      it reads only tables that the catalog resolves or its CTEs, and its
      parameters are complete, typed and carry fitting values; every rejection
      carries an error diagnostic ([ValidateFacts]).
    - The facade accepts within its budget what the judgements elaborate, and
      rejects for one of four reasons ([Facade]).
    - The features of the plan are those of the syntax tree, and requirements
      follow from them exactly ([FeatureFacts], [ValidateFacts]).
    - Outer joins make the right columns nullable, and conditions are resolved
      in the scope of the table they are in ([JoinFacts]); resolution is unique
      ([Scope]).
    - The text emitted for PostgreSQL of a plan whose float literals are numbers
      and in which no minus stands before another is whole code, whatever names
      and strings it holds; string literals read back as what they stand for,
      and identifiers too, up to case where they are bare and except the listed
      words that PostgreSQL reserves and the renderer does not know;
      placeholders are the positions of the parameters ([RenderFacts],
      [RenderText], [Emission]).
    - The analysis supports exactly the queries whose functions the backend has
      ([RenderFacts]).
    - The in-memory catalog resolves what was registered, case-insensitively,
      and survives a round trip through its document ([CatalogFacts]).
    - Edit distance is the least number of edits, and suggestions are the best
      names ([Suggest]).
    - Budgets bound the expressions of a query, their nesting, its joins and its
      CTEs, counted on the tree ([Budget]); estimates
      stay within their integer widths and limits decide rejection ([Cost]).
    - Type unification is symmetric and absorbs its operands ([Types]).
    - The spans of SyQL point at the text the user wrote, its directives are
      read, and its loop over them ends because none is left ([Syql]).
    - The parameters of a query are summarised exactly, and those built from
      JSON are those supplied ([Inspect]).
    - Rewriting selections is a map over the tree ([Rewrite]); the
      ClickHouse rewriting merges every aggregate state exactly once by its merge
      function and changes nothing else, and no UUID is projected uncast
      ([ClickHouseFacts]); its artifact fits what was analysed, its wrapper for
      Arrow is sealed ([ClickHouseAdapterFacts]), its cost fits its integers
      ([ClickHouseCost]).
    - A plan over shards computes the aggregate of the whole ([Federation]).

    The services
    - The runner refines a stable priority queue ([JobRunner]); the queue never
      runs more jobs than it may, every run comes to rest, and prompt runs leave
      no job behind ([JobQueue]).
    - A circuit follows the history of its cluster, a sweep updates every
      cluster, locality partitions the routes ([Cluster]); a swept cluster
      is reachable whatever its storage says, schema sync resumes after a failure, a broadcast brings the
      nodes up to date ([Hub]).
    - Access is granted exactly by the policy, every success is recorded, and an
      erasure leaves the log auditable ([Access]); histories come in order of
      time ([Provenance]).
    - A delegation token is read until it expires, and is accepted as a token of
      its user as well ([Tokens]).
    - With a clock that advances, the start of a burst worker returns ([Burst]).

    Portability and the host
    - What the CSV writer writes, the reader reads ([Csv]); canonical texts are
      equal exactly for equal values ([Canonical]); a bundle that validates was
      read strictly, is within the limits and is the one its digest names, a plan
      describes the table, and what is exported can be imported ([Import]).
    - Imports are exactly once, whatever runs side by side and fails ([HostDb]).
    - What the host commits was validated and staged, a dry run can be applied,
      every row that is imported says what the artifact says, whatever request a
      stranger sends changes nothing, only the operator
      erases, query answers are bounded, what is served was exported, every path
      has one route, the wait for the database ends, and a host that starts is
      seeded and may be started again ([HostFacts]).
    - What the configuration logs does not depend on its secrets ([HostConfig]);
      the relation types of DataCite read back, and a mint answers as the
      registrar did ([Doi]).

    Clients and tools
    - A select asks the hosts in order and returns the answer of one of them; a
      stream ends, with an error at most at its end; the name of a table stays
      one name; batches are inserted without views; a runtime gives items until
      it is cancelled ([ClickHouseDriver]).
    - A redirect stays on its host, the address to return to survives the query,
      an upload arrives as it was sent, retries are bounded, and a manifest that
      is downloaded is complete ([Web]).
    - The release order is topological or there is a cycle, a release stops at
      its first failure, the nearest root is found, credentials are loaded as
      they were saved, and no changelog is ever made ([Tools]).
    - Metrics agree with what was recorded, the names of families are distinct,
      tokens survive the rotation of keys, every request to the queue is
      answered ([Metrics]).
    - A rig that is built has what was asked for, a build that fails leaves
      nothing running, the waits of a build end; scripts are split into their
      statements, and queries arrive percent-encoded ([TestRig]).
    - Python values arrive as the JSON they stand for, the names of types are
      understood, and the two web components are the same editor ([Bindings]).

    The theorems of [Behaviours], [Emission], [OptimizerExamples] and
    [HubExamples] about fixed inputs, and the examples next to the components
    they are about, record where the code does not do what it seems to mean:
    lost groupings, comments made of two minus signs, escapes in ClickHouse
    strings, CTE scoping, hidden type conflicts, lines hidden by a comment,
    partial downloads, texts that leave their header.

    ** Conventions

    Definitions are structurally recursive where the code is; the trees are
    mutual inductive types with records in between, as in the source, and
    recursion through lists goes through combinators ([straverse], [rcollect],
    ...) that keep it structural.  Where the code is not, a definition takes
    fuel and a theorem says how much is enough: the depth of [tie] ([Rewrite]),
    the directives of SyQL ([Syql]), the rounds of the wait for a pod, which
    the timeout bounds ([wait_fuel] of [Burst]), the pings of the database, one
    for each second of the wait ([Host]), the rounds of a release, one for
    each package ([Tools]), the rounds of the waits of a test rig, 61 for
    thirty seconds ([build_ends] of [TestRig]), the depth of a Python object
    ([python_values_arrive] of [Bindings]), and the loop over a buffer of a stream, for which a
    decoder that makes progress has a fuel that is enough ([stream_ends] of
    [ClickHouseDriver]).

    Integers: [u32] positions and [u64] row counts are [N] with wrapping or
    saturating arithmetic written out, as in a release build; counts of things
    in memory ([usize]) are unbounded.  Strings are their UTF-8 bytes; [chars]
    decodes them.  A [Uuid] is a number.  Clock readings are inputs of the
    operations that take them.  Concurrent maps are [gmap]s, whose order of
    iteration nothing may depend on.  Actors and hosts, their storage and the
    ownership of resources are classes over an abstract world, which the
    operations thread as a state.

    Parameters are classes that stand for third-party crates, the standard
    library's tables and the outside: [Blake3] and [RawBlake3] the hash,
    [UuidV5] identifiers by name, [Unicode] lower case, [SqlParser] the parser
    with the lowering of its tree, [SerdeJson], [JsonMap], [BundleFormat] and
    [ImportFormat] JSON and the derived conversions, [Lexicon] which texts are
    UUIDs and timestamps, [Paseto] the tokens, [FlightHost], [BurstCluster] and
    [MonotoneClock] the peers and the clock, [Postgres] and [PgServer] the
    values and the answers of the database, [Opendal] the operator of the object
    store and [OpendalServices] its construction, [HostPlatform], [HostFormat]
    and [Extractors] addresses, conversions and what axum makes of a request,
    [ClickHouseHttp], [UrlCrate], [ArrowCrate], [ApiHttp], [FetchHttp],
    [DiskFaults] and [JsonHttp] the network, URLs, record batches and the disk,
    [UrlEncoding] percent-encoding, [Commands] subprocesses, [RegexCrate]
    regular expressions, [Floats] floats, [FernetCrate], [SwarmCrate] and
    [FlightCrate] keys and peers, [JobApi] the application behind the queue,
    [DockerApi], [RigNetwork] and [AuthCrates] Docker, sockets and JSON of the
    test rig, [PyO3] what is extracted from a Python object, [ConnectionTrait]
    the connection of the ORM.
    What is assumed of one is a class [Lawful...] of documented behaviour, with
    an instance next to the witnesses.

    ** Not modelled

    The lowering of SQL (dialect-sql/src/lower/) matches on the tree of the
    third-party parser [sqlparser], whose definition is not part of this
    repository.  The conversions of results to Python dictionaries are made
    by PyO3 and its companions, and the macros of the web frameworks make
    HTML of an editor.  Which socket of Docker a rig connects to is left
    out, and logging, which configures a third-party subscriber.  Of the
    demonstrator host, the page and the signals that end it are left out, of
    the metrics the text format, which the third-party crate writes.  So are
    serde attributes, and the error texts of derive macros where nothing but
    a reader sees them. *)
From stdpp Require Export base option list strings gmap pretty.
From Stdlib Require Export NArith ZArith Lia.
From Stdlib Require Import Sorted.

(** Nested induction: these make the induction principles of the syntax trees
    reach the elements of their lists and options. *)
Scheme All for list.
Scheme All for option.

Lemma list_all_Forall {A} (P : A → Prop) (l : list A) : list_all A P l → Forall P l.
Proof. induction 1; by constructor. Qed.

Lemma list_all_impl {A} (PA : A → Type) (P : A → Prop) (l : list A) :
  list_all A PA l → (∀ x, PA x → P x) → Forall P l.
Proof. intros H HP. induction H; constructor; auto. Qed.

(** A property of the content of an option, if any. *)
Definition opt_all {A} (P : A → Prop) (o : option A) : Prop := ∀ x, o = Some x → P x.

Lemma option_all_opt {A} (P : A → Prop) (o : option A) : option_all A P o → opt_all P o.
Proof. destruct 1; intros y [= <-]; done. Qed.

Lemma option_all_impl {A} (PA : A → Type) (P : A → Prop) (o : option A) :
  option_all A PA o → (∀ x, PA x → P x) → opt_all P o.
Proof. intros [|] HP y [=]; subst; auto. Qed.

Lemma opt_all_impl {A} (P Q : A → Prop) (o : option A) :
  opt_all P o → (∀ x, P x → Q x) → opt_all Q o.
Proof. unfold opt_all. auto. Qed.

Lemma opt_all_Some {A} (P : A → Prop) (x : A) : opt_all P (Some x) → P x.
Proof. intros H. by apply H. Qed.

Lemma filter_ext_in {A} (P Q : A → Prop) `{∀ x, Decision (P x), ∀ x, Decision (Q x)} (l : list A) :
  (∀ x, x ∈ l → (P x ↔ Q x)) → filter P l = filter Q l.
Proof.
  induction l as [|x l IH]; intros HPQ; [done|]. rewrite !filter_cons, IH by set_solver.
  assert (P x ↔ Q x) by set_solver. repeat case_decide; tauto.
Qed.

(** ** Results, as Rust's [Result] *)

Inductive result (T E : Type) : Type :=
| Ok (value : T)
| Err (error : E).
Arguments Ok {T E} value.
Arguments Err {T E} error.

Definition is_ok {T E} (r : result T E) : bool :=
  match r with Ok _ => true | Err _ => false end.

(** The [?] operator. *)
Definition rbind {T U E} (r : result T E) (k : T → result U E) : result U E :=
  match r with Ok value => k value | Err error => Err error end.

(** [iter().map(f).collect::<Result<Vec<_>>>()]: stops at the first error. *)
Definition rcollect {A B E} (f : A → result B E) : list A → result (list B) E :=
  fix go l :=
    match l with
    | [] => Ok []
    | x :: l => rbind (f x) (λ y, rbind (go l) (λ ys, Ok (y :: ys)))
    end.

Definition map_err {A E F} (f : E → F) (r : result A E) : result A F :=
  match r with Ok a => Ok a | Err e => Err (f e) end.

(** [option.ok_or_else]. *)
Definition ok_or {T E} (o : option T) (error : E) : result T E :=
  match o with Some value => Ok value | None => Err error end.

Lemma rbind_Ok {T U E} (r : result T E) (k : T → result U E) u :
  rbind r k = Ok u ↔ ∃ t, r = Ok t ∧ k t = Ok u.
Proof. destruct r; simpl; naive_solver. Qed.

Lemma ok_or_Ok {T E} (o : option T) (e : E) t : ok_or o e = Ok t ↔ o = Some t.
Proof. destruct o; simpl; naive_solver. Qed.

Lemma rcollect_Ok {A B E} (f : A → result B E) l ys :
  rcollect f l = Ok ys ↔ Forall2 (λ x y, f x = Ok y) l ys.
Proof.
  revert ys. induction l as [|x l IH]; intros ys; simpl.
  { split; [intros [= <-]; constructor|by inversion 1]. }
  rewrite rbind_Ok. setoid_rewrite rbind_Ok. setoid_rewrite IH. split.
  - intros (y & Hy & ys' & Hys & [= <-]). by constructor.
  - inversion 1; subst. eauto.
Qed.

Declare Scope result_scope.
Delimit Scope result_scope with result.
Notation "'let?' x ':=' m 'in' k" := (rbind m (λ x, k))
  (at level 10, x binder, m at level 100, k at level 200,
   format "'[v' 'let?'  x  ':='  m  'in' '/' k ']'") : result_scope.

(** ** A state monad

    Operations of the source that take [&mut self] are computations of this
    monad over the record of the mutable fields. *)

Definition state (S A : Type) : Type := S → A * S.

Section StateMonad.
Context {S : Type}.

Definition sret {A} (a : A) : state S A := λ s, (a, s).

Definition sbind {A B} (m : state S A) (k : A → state S B) : state S B :=
  λ s, let '(a, s') := m s in k a s'.

Definition sget : state S S := λ s, (s, s).

Definition smodify (f : S → S) : state S unit := λ s, (tt, f s).

(** [iter().map(f).collect()] with an effectful [f]. *)
Definition straverse {A B} (f : A → state S B) : list A → state S (list B) :=
  fix go l :=
    match l with
    | [] => sret []
    | x :: l => sbind (f x) (λ y, sbind (go l) (λ ys, sret (y :: ys)))
    end.

(** [option.map(f)] with an effectful [f]. *)
Definition soption {A B} (f : A → state S B) (o : option A) : state S (option B) :=
  match o with
  | None => sret None
  | Some x => sbind (f x) (λ y, sret (Some y))
  end.

(** A [for] loop over [l] that threads a local accumulator. *)
Definition sfold {A B} (f : B → A → state S B) : list A → B → state S B :=
  fix go l acc :=
    match l with
    | [] => sret acc
    | x :: l => sbind (f acc x) (λ acc', go l acc')
    end.
End StateMonad.

Declare Scope state_scope.
Delimit Scope state_scope with state.
Notation "'let!' x ':=' m 'in' k" := (sbind m (λ x, k))
  (at level 10, x binder, m at level 100, k at level 200,
   format "'[v' 'let!'  x  ':='  m  'in' '/' k ']'") : state_scope.
Notation "m ';;' k" := (sbind m (λ _, k))
  (at level 100, right associativity) : state_scope.

(** ** Strings

    A Rust [String] is its sequence of UTF-8 bytes, one [ascii] per byte. *)

Definition ascii_to_lower (c : Ascii.ascii) : Ascii.ascii :=
  let n := Ascii.N_of_ascii c in
  if (65 <=? n)%N && (n <=? 90)%N then Ascii.ascii_of_N (n + 32) else c.

Fixpoint to_ascii_lowercase (s : string) : string :=
  match s with
  | EmptyString => EmptyString
  | String c s => String (ascii_to_lower c) (to_ascii_lowercase s)
  end.

Definition eq_ignore_ascii_case (a b : string) : bool :=
  String.eqb (to_ascii_lowercase a) (to_ascii_lowercase b).

(** [str::replace] with one-character pattern and replacement. *)
Fixpoint replace_char (from to : Ascii.ascii) (s : string) : string :=
  match s with
  | EmptyString => EmptyString
  | String c s => String (if Ascii.eqb c from then to else c) (replace_char from to s)
  end.

(** [str::replace] of one character by a text. *)
Fixpoint replace_with (from : Ascii.ascii) (to : string) (s : string) : string :=
  match s with
  | EmptyString => EmptyString
  | String c s => if Ascii.eqb c from then to +:+ replace_with from to s
                  else String c (replace_with from to s)
  end.

(** [str::split] at a character: one segment more than there are separators. *)
Fixpoint split_char (sep : Ascii.ascii) (s : string) : list string :=
  match s with
  | EmptyString => [EmptyString]
  | String c s =>
      if Ascii.eqb c sep then EmptyString :: split_char sep s
      else match split_char sep s with
           | segment :: segments => String c segment :: segments
           | [] => [String c EmptyString]
           end
  end.

(** [str::find] of a character, as a byte index. *)
Fixpoint find_char (c : Ascii.ascii) (s : string) : option nat :=
  match s with
  | EmptyString => None
  | String d s => if Ascii.eqb d c then Some 0 else S <$> find_char c s
  end.

(** [str::ends_with] of a character. *)
Fixpoint ends_with_char (c : Ascii.ascii) (s : string) : bool :=
  match s with
  | EmptyString => false
  | String d EmptyString => Ascii.eqb d c
  | String _ s => ends_with_char c s
  end.

Fixpoint string_join (sep : string) (l : list string) : string :=
  match l with
  | [] => ""
  | [s] => s
  | s :: l => s +:+ sep +:+ string_join sep l
  end.

Lemma string_app_assoc (a b c : string) : (a +:+ b) +:+ c = a +:+ b +:+ c.
Proof. induction a as [|x a IH]; [done|]. change (String x ((a +:+ b) +:+ c) = String x (a +:+ b +:+ c)). by rewrite IH. Qed.

Lemma string_app_nil_r (a : string) : a +:+ "" = a.
Proof. induction a as [|x a IH]; [done|]. change (String x (a +:+ "") = String x a). by rewrite IH. Qed.

Lemma string_app_nil_l (a : string) : "" +:+ a = a. Proof. done. Qed.
Lemma string_app_cons c (a b : string) : String c a +:+ b = String c (a +:+ b). Proof. done. Qed.

(** [str::strip_prefix]. *)
Fixpoint strip_prefix (p s : string) : option string :=
  match p, s with
  | EmptyString, _ => Some s
  | String c p, String d s => if Ascii.eqb c d then strip_prefix p s else None
  | String _ _, EmptyString => None
  end.

Definition str_starts_with (p s : string) : bool :=
  match strip_prefix p s with Some _ => true | None => false end.

Lemma strip_prefix_app p s : strip_prefix p (p +:+ s) = Some s.
Proof. induction p as [|c p IH]; simpl; [done|]. by rewrite Ascii.eqb_refl. Qed.

Lemma strip_prefix_Some p s rest : strip_prefix p s = Some rest → s = p +:+ rest.
Proof.
  revert s. induction p as [|c p IH]; intros s; [by intros [= ->]|]. destruct s as [|d s]; [done|]. simpl.
  destruct (Ascii.eqb_spec c d) as [->|]; [|done]. intros H. by rewrite (IH _ H).
Qed.

Definition ascii_to_upper (c : Ascii.ascii) : Ascii.ascii :=
  let n := Ascii.N_of_ascii c in
  if ((97 <=? n) && (n <=? 122))%N then Ascii.ascii_of_N (n - 32) else c.

Fixpoint to_ascii_uppercase (s : string) : string :=
  match s with EmptyString => EmptyString | String c s => String (ascii_to_upper c) (to_ascii_uppercase s) end.

(** [char::is_whitespace] on the UTF-8 encodings of one, two and three bytes. *)
Definition white_1 (a : Ascii.ascii) : bool :=
  let a := Ascii.N_of_ascii a in ((9 <=? a) && (a <=? 13) || (a =? 32))%N.
Definition white_2 (a b : Ascii.ascii) : bool :=
  let a := Ascii.N_of_ascii a in let b := Ascii.N_of_ascii b in
  ((a =? 194) && ((b =? 133) || (b =? 160)))%N.
Definition white_3 (a b c : Ascii.ascii) : bool :=
  let a := Ascii.N_of_ascii a in let b := Ascii.N_of_ascii b in let c := Ascii.N_of_ascii c in
  ((a =? 225) && (b =? 154) && (c =? 128)
   || (a =? 226) && (b =? 128) && ((128 <=? c) && (c <=? 138) || (c =? 168) || (c =? 169) || (c =? 175))
   || (a =? 226) && (b =? 129) && (c =? 159)
   || (a =? 227) && (b =? 128) && (c =? 128))%N.

(** [str::trim_start]. *)
Fixpoint trim_start (s : string) : string :=
  match s with
  | String a s1 =>
      if white_1 a then trim_start s1
      else
        match s1 with
        | String b s2 =>
            if white_2 a b then trim_start s2
            else
              match s2 with
              | String c s3 => if white_3 a b c then trim_start s3 else s
              | EmptyString => s
              end
        | EmptyString => s
        end
  | EmptyString => EmptyString
  end.

(** [str::trim_end]: a suffix of white space never starts inside a character. *)
Definition trim_end : string → string :=
  fix go s :=
    match s with
    | String a s' => if String.eqb (trim_start s) "" then EmptyString else String a (go s')
    | EmptyString => EmptyString
    end.

(** [str::trim]. *)
Definition trim (s : string) : string := trim_end (trim_start s).

(** The text before and after the first occurrence. *)
Fixpoint split_first (p s : string) : option (string * string) :=
  match strip_prefix p s with
  | Some rest => Some ("", rest)
  | None =>
      match s with
      | EmptyString => None
      | String c s =>
          match split_first p s with
          | Some (before, after) => Some (String c before, after)
          | None => None
          end
      end
  end.

Definition str_contains (s p : string) : bool :=
  match split_first p s with Some _ => true | None => false end.

Lemma split_first_Some p s before after :
  split_first p s = Some (before, after) → s = before +:+ p +:+ after.
Proof.
  revert before. induction s as [|c s IH]; intros before; cbn [split_first].
  - destruct (strip_prefix p "") as [rest|] eqn:E; [|done]. intros [= <- <-]. exact (strip_prefix_Some _ _ _ E).
  - destruct (strip_prefix p (String c s)) as [rest|] eqn:E.
    + intros [= <- <-]. exact (strip_prefix_Some _ _ _ E).
    + destruct (split_first p s) as [[b a]|]; [|done]. intros [= <- <-]. by rewrite (IH b).
Qed.

Lemma split_first_None p s before after : split_first p s = None → s ≠ before +:+ p +:+ after.
Proof.
  revert before. induction s as [|c s IH]; intros before; cbn [split_first].
  - destruct (strip_prefix p "") as [rest|] eqn:E; [done|]. intros _ Heq.
    destruct before; [|done]. change ("" = p +:+ after) in Heq.
    by rewrite Heq, strip_prefix_app in E.
  - destruct (strip_prefix p (String c s)) as [rest|] eqn:E; [done|].
    destruct (split_first p s) as [[b a]|] eqn:E2; [done|]. intros _ Heq.
    destruct before as [|d before].
    + change (String c s = p +:+ after) in Heq. by rewrite Heq, strip_prefix_app in E.
    + injection Heq as -> Heq. by eapply (IH before).
Qed.

(** [u8::is_ascii_hexdigit]. *)
Definition is_ascii_hexdigit (c : Ascii.ascii) : bool :=
  let n := Ascii.N_of_ascii c in
  ((48 <=? n) && (n <=? 57) || (65 <=? n) && (n <=? 70) || (97 <=? n) && (n <=? 102))%N.

(** The decimal text of an integer. *)
Definition show_N (n : N) : string := pretty n.
Definition show_Z (z : Z) : string := pretty z.

Definition string_len (s : string) : N := N.of_nat (String.length s).
Definition vec_len {A} (l : list A) : N := N.of_nat (length l).
Definition is_some {A} (o : option A) : bool := match o with Some _ => true | None => false end.
Definition is_empty {A} (l : list A) : bool := match l with [] => true | _ => false end.

(** ** Machine integers *)

Definition u32_modulus : N := (2 ^ 32)%N.
Definition u64_max : N := (2 ^ 64 - 1)%N.
Definition u32_max : N := (2 ^ 32 - 1)%N.
Definition u32_wrapping_add (a b : N) : N := ((a + b) mod u32_modulus)%N.
Definition u32_saturating_add (a b : N) : N := N.min (a + b) u32_max.
Definition u64_wrapping_add (a b : N) : N := ((a + b) mod (2 ^ 64))%N.
Definition u64_saturating_mul (a b : N) : N := N.min (a * b) u64_max.

(** ** Iterators *)

(** [Iterator::reduce]. *)
Definition reduce {A} (f : A → A → A) (l : list A) : option A :=
  match l with
  | [] => None
  | x :: l => Some (foldl f x l)
  end.

Definition option_or_else {A} (o : option A) (k : option A) : option A :=
  match o with Some x => Some x | None => k end.

(** ** The stable sort

    [slice::sort_by_key] by a signed key, and its specification: the one sorted
    list in which the elements of every key are those of the input, in the same
    order. *)
Section StableSort.
Context {A : Type} (key : A → Z).

Fixpoint insert_by_key (x : A) (l : list A) : list A :=
  match l with
  | [] => [x]
  | y :: l => if (key x <=? key y)%Z then x :: y :: l else y :: insert_by_key x l
  end.

Definition sort_by_key (l : list A) : list A := foldr insert_by_key [] l.

Definition key_le (x y : A) : Prop := (key x ≤ key y)%Z.

Lemma insert_by_key_perm x l : insert_by_key x l ≡ₚ x :: l.
Proof.
  induction l as [|y l IH]; simpl; [done|]. destruct (key x <=? key y)%Z; [done|].
  rewrite IH. by constructor.
Qed.

Lemma sort_by_key_perm l : sort_by_key l ≡ₚ l.
Proof. induction l as [|x l IH]; simpl; [done|]. by rewrite insert_by_key_perm, IH. Qed.

Lemma insert_by_key_sorted x l : StronglySorted key_le l → StronglySorted key_le (insert_by_key x l).
Proof.
  induction 1 as [|y l Hl IH Hy]; simpl; [by repeat constructor|].
  destruct (Z.leb_spec (key x) (key y)) as [Hle|Hgt].
  - constructor; [by constructor|]. constructor; [done|].
    eapply Forall_impl; [exact Hy|]. unfold key_le. intros z Hz. simpl in Hz. lia.
  - constructor; [done|]. rewrite insert_by_key_perm. constructor; [unfold key_le; lia|done].
Qed.

Lemma sort_by_key_sorted l : StronglySorted key_le (sort_by_key l).
Proof. induction l as [|x l IH]; simpl; [constructor|]. by apply insert_by_key_sorted. Qed.

(** The elements with a key. *)
Definition at_key (k : Z) (l : list A) : list A := filter (λ x, key x = k) l.

Lemma insert_by_key_at k x l : at_key k (insert_by_key x l) = at_key k (x :: l).
Proof.
  unfold at_key. induction l as [|y l IH]; [done|]. simpl.
  destruct (Z.leb_spec (key x) (key y)) as [Hle|Hgt]; [done|].
  rewrite filter_cons, IH, !filter_cons. repeat case_decide; try done. lia.
Qed.

Lemma sort_by_key_at k l : at_key k (sort_by_key l) = at_key k l.
Proof.
  induction l as [|x l IH]; [done|]. simpl. rewrite insert_by_key_at. unfold at_key in *.
  by rewrite !filter_cons, IH.
Qed.

(** A sorted list is determined by its elements of every key. *)
Lemma sorted_at_key_unique l1 l2 :
  StronglySorted key_le l1 → StronglySorted key_le l2 → (∀ k, at_key k l1 = at_key k l2) → l1 = l2.
Proof.
  assert (Hnil : ∀ x l, (∀ k, at_key k [] = at_key k (x :: l)) → False).
  { intros x l Hk. specialize (Hk (key x)). unfold at_key in Hk. rewrite filter_cons in Hk. by case_decide. }
  intros Hs1. revert l2. induction Hs1 as [|x l1 Hs1 IH Hx]; intros l2 Hs2 Hk.
  - destruct l2 as [|y l2]; [done|]. by destruct (Hnil y l2 Hk).
  - destruct Hs2 as [|y l2 Hs2 Hy]; [by destruct (Hnil x l1 (λ k, eq_sym (Hk k)))|].
    assert (Hmem : ∀ z, z ∈ x :: l1 ↔ z ∈ y :: l2).
    { intros z. specialize (Hk (key z)). unfold at_key in Hk.
      transitivity (z ∈ filter (λ w, key w = key z) (x :: l1)); [rewrite list_elem_of_filter; tauto|].
      rewrite Hk, list_elem_of_filter. tauto. }
    assert (Hkey : key x = key y).
    { rewrite Forall_forall in Hx, Hy. unfold key_le in *.
      assert (y ∈ x :: l1) as Hyx by (apply Hmem; left). assert (x ∈ y :: l2) as Hxy by (apply Hmem; left).
      apply elem_of_cons in Hyx as [->|Hyx]; [done|]. apply elem_of_cons in Hxy as [->|Hxy]; [done|].
      specialize (Hx y Hyx). specialize (Hy x Hxy). lia. }
    assert (x = y) as <-.
    { specialize (Hk (key x)). unfold at_key in Hk. rewrite !filter_cons in Hk.
      rewrite !decide_True in Hk by done. by injection Hk. }
    f_equal. apply IH; [done|]. intros k. specialize (Hk k). unfold at_key in *. rewrite !filter_cons in Hk.
    case_decide; [by injection Hk|done].
Qed.

Lemma sort_by_key_spec l s :
  s = sort_by_key l ↔ StronglySorted key_le s ∧ ∀ k, at_key k s = at_key k l.
Proof.
  split.
  - intros ->. split; [apply sort_by_key_sorted|]. intros k. apply sort_by_key_at.
  - intros [Hs Hk]. apply sorted_at_key_unique; [done|apply sort_by_key_sorted|].
    intros k. by rewrite sort_by_key_at.
Qed.
End StableSort.
