(* ===== verification/BTreeMap.v ===== *)
(** Ordered maps and ordered keys.

    [BTreeMap] of the Rust standard library as the strictly increasing
    association list of its entries, over a class [RustOrd] of total orders
    (Rust's [Ord]).  Iteration order is the list order, so operations that
    iterate ([values().find], [into_values().collect]) are modelled exactly. *)
From S2P Require Import Prelude.
From Stdlib Require Import OrderedTypeEx Sorted.

Create HintDb btree.

(** ** Total orders *)

Class RustOrd (K : Type) := {
  cmp : K → K → comparison;
  cmp_eq_iff : ∀ a b, cmp a b = Eq ↔ a = b;
  cmp_antisym : ∀ a b, cmp b a = CompOpp (cmp a b);
  cmp_lt_trans : ∀ a b c, cmp a b = Lt → cmp b c = Lt → cmp a c = Lt
}.

Section RustOrdFacts.
Context {K} `{RustOrd K}.

Lemma cmp_refl (a : K) : cmp a a = Eq.
Proof. by apply cmp_eq_iff. Qed.

Lemma cmp_gt_lt (a b : K) : cmp a b = Gt ↔ cmp b a = Lt.
Proof. rewrite (cmp_antisym a b). by destruct (cmp a b). Qed.

Lemma cmp_lt_neq (a b : K) : cmp a b = Lt → a ≠ b.
Proof. intros Hlt ->. by rewrite cmp_refl in Hlt. Qed.

#[export] Instance rust_ord_eq_dec : EqDecision K.
Proof.
  intros a b. destruct (cmp a b) eqn:E; [left; by apply cmp_eq_iff | |];
    right; intros ->; by rewrite cmp_refl in E.
Defined.
End RustOrdFacts.

#[export] Program Instance N_ord : RustOrd N := {| cmp := N.compare |}.
Next Obligation. intros. apply N.compare_eq_iff. Qed.
Next Obligation. intros. by rewrite N.compare_antisym. Qed.
Next Obligation. simpl. intros a b c. rewrite !N.compare_lt_iff. lia. Qed.

#[export] Program Instance string_ord : RustOrd string := {| cmp := String.compare |}.
Next Obligation. apply String_as_OT.cmp_eq. Qed.
Next Obligation. intros. apply String.compare_antisym. Qed.
Next Obligation. simpl. intros a b c Hab%String_as_OT.cmp_lt Hbc%String_as_OT.cmp_lt.
  apply String_as_OT.cmp_lt. by eapply String_as_OT.lt_trans. Qed.

(** [None < Some _], as Rust derives it. *)
Definition option_cmp {K} `{RustOrd K} (o1 o2 : option K) : comparison :=
  match o1, o2 with
  | None, None => Eq
  | None, Some _ => Lt
  | Some _, None => Gt
  | Some a, Some b => cmp a b
  end.

#[export] Program Instance option_ord {K} `{RustOrd K} : RustOrd (option K) :=
  {| cmp := option_cmp |}.
Next Obligation. intros K ? [a|] [b|]; simpl; [rewrite cmp_eq_iff; naive_solver|done..]. Qed.
Next Obligation. intros K ? [a|] [b|]; simpl; [apply cmp_antisym|done..]. Qed.
Next Obligation. intros K ? [a|] [b|] [c|]; simpl; try done. apply cmp_lt_trans. Qed.

(** Lexicographic order on pairs. *)
Definition prod_cmp {K1 K2} `{RustOrd K1, RustOrd K2} (p1 p2 : K1 * K2) : comparison :=
  match cmp p1.1 p2.1 with Eq => cmp p1.2 p2.2 | c => c end.

#[export] Program Instance prod_ord {K1 K2} `{RustOrd K1, RustOrd K2} : RustOrd (K1 * K2) :=
  {| cmp := prod_cmp |}.
Next Obligation. intros K1 K2 ?? [a1 a2] [b1 b2]; unfold prod_cmp; simpl.
  destruct (cmp a1 b1) eqn:E; [apply cmp_eq_iff in E as ->; rewrite cmp_eq_iff; naive_solver | |].
  all: split; [done|]; intros [= -> ->]; by rewrite cmp_refl in E. Qed.
Next Obligation. intros K1 K2 ?? [a1 a2] [b1 b2]; unfold prod_cmp; simpl.
  rewrite (cmp_antisym a1 b1). destruct (cmp a1 b1); simpl; [apply cmp_antisym|done..]. Qed.
Next Obligation. intros K1 K2 ?? [a1 a2] [b1 b2] [c1 c2]; unfold prod_cmp; simpl.
  destruct (cmp a1 b1) eqn:E1; [apply cmp_eq_iff in E1 as ->| |done].
  - destruct (cmp b1 c1) eqn:E2; [by apply cmp_lt_trans|done..].
  - intros _. destruct (cmp b1 c1) eqn:E2; [apply cmp_eq_iff in E2 as <-; by rewrite E1| |done].
    by rewrite (cmp_lt_trans _ _ _ E1 E2). Qed.

(** ** Maps *)

Abbreviation BTreeMap K V := (list (K * V)) (only parsing).

Section BTreeMap.
Context {K : Type} `{RustOrd K} {V : Type}.
Implicit Types (m : BTreeMap K V) (k : K) (v : V).

(** [BTreeMap::get]. *)
Fixpoint bt_get k m : option V :=
  match m with
  | [] => None
  | (k', v') :: m => match cmp k k' with Eq => Some v' | _ => bt_get k m end
  end.

(** [BTreeMap::insert]; the replaced value is not used by the program. *)
Fixpoint bt_insert k v m : BTreeMap K V :=
  match m with
  | [] => [(k, v)]
  | (k', v') :: m' =>
      match cmp k k' with
      | Lt => (k, v) :: m
      | Eq => (k, v) :: m'
      | Gt => (k', v') :: bt_insert k v m'
      end
  end.

Lemma bt_get_cons k k' v m :
  bt_get k ((k', v) :: m) = if decide (k = k') then Some v else bt_get k m.
Proof.
  simpl. case_decide as E; [subst; by rewrite cmp_refl|].
  destruct (cmp k k') eqn:Ec; [by apply cmp_eq_iff in Ec|done..].
Qed.

Definition bt_keys m : list K := m.*1.
Definition bt_values m : list V := m.*2.

(** [iter().collect()] into a map: later entries replace earlier ones. *)
Definition bt_from_list (l : list (K * V)) : BTreeMap K V :=
  foldl (λ m kv, bt_insert kv.1 kv.2 m) [] l.

(** The representation invariant. *)
Definition klt (a b : K) : Prop := cmp a b = Lt.
Definition bt_wf m : Prop := StronglySorted klt (bt_keys m).

Lemma bt_wf_nil : bt_wf [].
Proof. constructor. Qed.

Lemma bt_wf_cons_inv k v m : bt_wf ((k, v) :: m) → bt_wf m ∧ Forall (klt k) (bt_keys m).
Proof. intros Hwf. by inversion Hwf. Qed.

Lemma bt_keys_insert k v m x : x ∈ bt_keys (bt_insert k v m) ↔ x = k ∨ x ∈ bt_keys m.
Proof.
  unfold bt_keys. induction m as [|[k' v'] m IH]; simpl; [set_solver|].
  destruct (cmp k k') eqn:E; simpl.
  - apply cmp_eq_iff in E as ->. set_solver.
  - set_solver.
  - rewrite !elem_of_cons, IH. tauto.
Qed.

Lemma bt_wf_insert k v m : bt_wf m → bt_wf (bt_insert k v m).
Proof.
  unfold bt_wf. induction m as [|[k' v'] m IH]; simpl; intros Hwf.
  { repeat constructor. }
  inversion Hwf as [|?? Hs Hf]; subst. destruct (cmp k k') eqn:E; simpl.
  - apply cmp_eq_iff in E as ->. by constructor.
  - constructor; [done|]. constructor; [done|].
    eapply Forall_impl; [exact Hf|]. intros x Hx. by eapply cmp_lt_trans.
  - constructor; [by apply IH|]. apply Forall_forall. intros x Hx.
    apply (bt_keys_insert k v m) in Hx as [->|Hx]; [by apply cmp_gt_lt|].
    rewrite Forall_forall in Hf. by apply Hf.
Qed.

Lemma bt_get_insert_eq k v m : bt_get k (bt_insert k v m) = Some v.
Proof.
  induction m as [|[k' v'] m IH]; simpl; [by rewrite cmp_refl|].
  destruct (cmp k k') eqn:E; simpl; rewrite ?cmp_refl, ?E; done.
Qed.

Lemma bt_get_insert_ne k k2 v m : k ≠ k2 → bt_get k2 (bt_insert k v m) = bt_get k2 m.
Proof.
  intros Hne. assert (Hc : cmp k2 k ≠ Eq) by (rewrite cmp_eq_iff; congruence).
  induction m as [|[k' v'] m IH]; simpl; [by destruct (cmp k2 k)|].
  destruct (cmp k k') eqn:E; simpl.
  - apply cmp_eq_iff in E as ->. by destruct (cmp k2 k').
  - by destruct (cmp k2 k).
  - by destruct (cmp k2 k').
Qed.

Lemma bt_get_Some_elem k v m : bt_get k m = Some v → (k, v) ∈ m.
Proof.
  induction m as [|[k' v'] m IH]; simpl; [done|].
  destruct (cmp k k') eqn:E; [|set_solver..].
  apply cmp_eq_iff in E as ->. intros [= ->]. set_solver.
Qed.

Lemma bt_get_elem k v m : bt_wf m → (k, v) ∈ m → bt_get k m = Some v.
Proof.
  induction m as [|[k' v'] m IH]; simpl; [set_solver|].
  intros [Hwf Hf]%bt_wf_cons_inv [[= -> ->]|Hin]%elem_of_cons; [by rewrite cmp_refl|].
  assert (Hlt : klt k' k).
  { rewrite Forall_forall in Hf. apply Hf. apply list_elem_of_fmap. by exists (k, v). }
  rewrite (cmp_antisym k' k), Hlt. simpl. auto.
Qed.

Lemma bt_get_is_Some k m : is_Some (bt_get k m) ↔ k ∈ bt_keys m.
Proof.
  unfold bt_keys. induction m as [|[k' v'] m IH]; simpl.
  { split; [intros [? [=]]|set_solver]. }
  destruct (cmp k k') eqn:E.
  - apply cmp_eq_iff in E as ->. split; [set_solver|by eexists].
  - rewrite IH, elem_of_cons. apply cmp_lt_neq in E. naive_solver.
  - rewrite IH, elem_of_cons. apply cmp_gt_lt, cmp_lt_neq in E. naive_solver.
Qed.

Lemma bt_get_None k m : bt_get k m = None ↔ k ∉ bt_keys m.
Proof. rewrite <- bt_get_is_Some, <- eq_None_not_Some. done. Qed.

Lemma bt_from_list_snoc l k v : bt_from_list (l ++ [(k, v)]) = bt_insert k v (bt_from_list l).
Proof. unfold bt_from_list. by rewrite foldl_app. Qed.

Lemma bt_wf_from_list l : bt_wf (bt_from_list l).
Proof.
  induction l as [|[k v] l IH] using rev_ind; [constructor|].
  rewrite bt_from_list_snoc. by apply bt_wf_insert.
Qed.

Lemma bt_get_below k m : Forall (klt k) (bt_keys m) → bt_get k m = None.
Proof.
  intros Hf. apply bt_get_None. intros Hin. rewrite Forall_forall in Hf.
  apply Hf in Hin. unfold klt in Hin. by rewrite cmp_refl in Hin.
Qed.

(** Two maps with the same lookups are equal. *)
Lemma bt_ext m1 m2 : bt_wf m1 → bt_wf m2 → (∀ k, bt_get k m1 = bt_get k m2) → m1 = m2.
Proof.
  revert m2. induction m1 as [|[k1 v1] m1 IH]; intros [|[k2 v2] m2] Hw1 Hw2 Heq; [done|..].
  - specialize (Heq k2). simpl in Heq. by rewrite cmp_refl in Heq.
  - specialize (Heq k1). simpl in Heq. by rewrite cmp_refl in Heq.
  - apply bt_wf_cons_inv in Hw1 as [Hw1 Hf1], Hw2 as [Hw2 Hf2].
    assert (Hk : cmp k1 k2 = Eq).
    { destruct (cmp k1 k2) eqn:E; [done|exfalso..].
      - specialize (Heq k1). simpl in Heq. rewrite cmp_refl, E, bt_get_below in Heq; [done|].
        eapply Forall_impl; [exact Hf2|]. intros x. by apply cmp_lt_trans.
      - apply cmp_gt_lt in E. specialize (Heq k2). simpl in Heq.
        rewrite cmp_refl, E, bt_get_below in Heq; [done|].
        eapply Forall_impl; [exact Hf1|]. intros x. by apply cmp_lt_trans. }
    apply cmp_eq_iff in Hk as ->. pose proof (Heq k2) as Hv. simpl in Hv.
    rewrite cmp_refl in Hv. injection Hv as ->. f_equal. apply IH; [done..|].
    intros k. specialize (Heq k). simpl in Heq. destruct (cmp k k2) eqn:E; [|done..].
    apply cmp_eq_iff in E as ->. by rewrite !bt_get_below.
Qed.

(** Inserting a binding that is already there changes nothing. *)
Lemma bt_insert_id k v m : bt_wf m → bt_get k m = Some v → bt_insert k v m = m.
Proof.
  intros Hwf Hg. apply bt_ext; [by apply bt_wf_insert|done|]. intros k'.
  destruct (decide (k = k')) as [<-|]; [by rewrite bt_get_insert_eq|by apply bt_get_insert_ne].
Qed.
End BTreeMap.

#[export] Hint Resolve bt_wf_nil bt_wf_insert bt_wf_from_list : btree.
