(* ===== verification/Types.v ===== *)
(** Logical types, fields, schemas and parameters: [queryfabric-ir/src/types.rs].

    [DataType] and [ResultField] refer to each other; the record of a field is
    therefore parameterised by the type of its [data_type]
    ([FieldOf]), and [ResultField] is its instance at [DataType]. *)
From S2P Require Import Prelude BTreeMap.

(** ** Data types and fields *)

Record FieldMetadata := {
  unit_ : option string;
  coordinate_reference_system : option string;
  ontology_id : option string;
  modality : option string;
  provenance_ : option string;
  measurement_scale : option string;
  shape : list N;
  extensions : BTreeMap string string
}.

Definition FieldMetadata_default : FieldMetadata :=
  {| unit_ := None; coordinate_reference_system := None; ontology_id := None;
     modality := None; provenance_ := None; measurement_scale := None;
     shape := []; extensions := [] |}.

Definition FieldMetadata_is_empty (m : FieldMetadata) : bool :=
  bool_decide (unit_ m = None) && bool_decide (coordinate_reference_system m = None)
  && bool_decide (ontology_id m = None) && bool_decide (modality m = None)
  && bool_decide (provenance_ m = None) && bool_decide (measurement_scale m = None)
  && bool_decide (shape m = []) && bool_decide (extensions m = []).

Record FieldOf (T : Type) := MkField {
  field_name : string;
  field_type : T;
  field_nullable : bool;
  field_metadata : FieldMetadata
}.
Arguments MkField {T}.
Arguments field_name {T}.
Arguments field_type {T}.
Arguments field_nullable {T}.
Arguments field_metadata {T}.

Scheme All for FieldOf.

Inductive DataType :=
| TBoolean
| TInt32
| TInt64
| TFloat64
| TUtf8
| TUuid
| TJson
| TDate
| TDecimal (precision : N) (scale : Z)
| TTimestamp (timezone : option string)
| TList (inner : DataType)
| TStruct (fields : list (FieldOf DataType))
| TUnknown.

Abbreviation ResultField := (FieldOf DataType).

Definition ResultField_new (name : string) (data_type : DataType) (nullable : bool) : ResultField :=
  MkField name data_type nullable FieldMetadata_default.

#[export] Instance FieldMetadata_eq_dec : EqDecision FieldMetadata.
Proof. solve_decision. Defined.

(** The derived [PartialEq] of [DataType], by structural recursion through
    the fields of [Struct]. *)
Fixpoint DataType_eqb (a b : DataType) {struct a} : bool :=
  match a, b with
  | TBoolean, TBoolean | TInt32, TInt32 | TInt64, TInt64 | TFloat64, TFloat64
  | TUtf8, TUtf8 | TUuid, TUuid | TJson, TJson | TDate, TDate | TUnknown, TUnknown => true
  | TDecimal p s, TDecimal p' s' => N.eqb p p' && Z.eqb s s'
  | TTimestamp z, TTimestamp z' => bool_decide (z = z')
  | TList x, TList y => DataType_eqb x y
  | TStruct fs, TStruct gs =>
      (fix go (l1 l2 : list (FieldOf DataType)) : bool :=
         match l1, l2 with
         | [], [] => true
         | MkField n t nl m :: l1, MkField n' t' nl' m' :: l2 =>
             String.eqb n n' && DataType_eqb t t' && Bool.eqb nl nl'
             && bool_decide (m = m') && go l1 l2
         | _, _ => false
         end) fs gs
  | _, _ => false
  end.

(** Induction that reaches the element types of lists and the field types of
    structs. *)
Section DataTypeInd.
Variable P : DataType → Prop.
Hypothesis Hscalar : ∀ t, (∀ i, t ≠ TList i) → (∀ fs, t ≠ TStruct fs) → P t.
Hypothesis Hlist : ∀ i, P i → P (TList i).
Hypothesis Hstruct : ∀ fs, Forall (λ f, P (field_type f)) fs → P (TStruct fs).

Fixpoint DataType_nested_ind (t : DataType) : P t.
Proof.
  destruct t; try (apply Hscalar; congruence).
  - apply Hlist, DataType_nested_ind.
  - apply Hstruct. induction fields as [|[n t nl m] l IH]; constructor; [|exact IH].
    apply DataType_nested_ind.
Defined.
End DataTypeInd.

Lemma DataType_eqb_spec (a b : DataType) : reflect (a = b) (DataType_eqb a b).
Proof.
  apply iff_reflect. revert b.
  induction a as [a Hl Hs|i IH|fs IH] using DataType_nested_ind; intros b.
  - destruct a, b; simpl; try (split; congruence); try (exfalso; naive_solver).
    + rewrite andb_true_iff, N.eqb_eq, Z.eqb_eq. naive_solver.
    + rewrite bool_decide_eq_true. naive_solver.
  - destruct b; simpl; try (split; congruence). rewrite <- IH. naive_solver.
  - destruct b as [| | | | | | | | | | |gs|]; simpl; try (split; congruence).
    transitivity (fs = gs); [naive_solver|]. revert gs.
    induction IH as [|[n t nl m] fs Ht _ IH]; intros [|[n' t' nl' m'] gs]; simpl;
      try (split; congruence).
    rewrite !andb_true_iff, <- IH, String.eqb_eq, Bool.eqb_true_iff, bool_decide_eq_true.
    simpl in Ht. rewrite <- Ht. naive_solver.
Qed.

#[export] Instance DataType_eq_dec : EqDecision DataType.
Proof.
  intros a b. destruct (DataType_eqb a b) eqn:E; [left|right];
    destruct (DataType_eqb_spec a b); congruence.
Defined.

Definition is_unknown (t : DataType) : bool :=
  match t with TUnknown => true | _ => false end.

Definition is_numeric (t : DataType) : bool :=
  match t with TInt32 | TInt64 | TFloat64 | TDecimal _ _ => true | _ => false end.

(** [DataType::common_type]. *)
Fixpoint common_type (left right : DataType) : option DataType :=
  if DataType_eqb left right then Some left else
  match left, right with
  | TUnknown, other | other, TUnknown => Some other
  | TInt32, TInt64 | TInt64, TInt32 => Some TInt64
  | TInt32, TFloat64 | TFloat64, TInt32
  | TInt64, TFloat64 | TFloat64, TInt64 => Some TFloat64
  | TList l, TList r => TList <$> common_type l r
  | _, _ => None
  end.

(** The closure the binder folds types with:
    [common_type(l, r).unwrap_or(Unknown)]. *)
Definition common_or_unknown (l r : DataType) : DataType := default TUnknown (common_type l r).

Record ResultSchema := {
  fields : list ResultField;
  schema_metadata : BTreeMap string string
}.

Definition ResultSchema_default : ResultSchema := {| fields := []; schema_metadata := [] |}.
Definition ResultSchema_new (fs : list ResultField) : ResultSchema :=
  {| fields := fs; schema_metadata := [] |}.
Definition ResultSchema_is_empty (s : ResultSchema) : bool := bool_decide (fields s = []).

(** ** Parameters *)

Inductive ParameterRef :=
| Positional (position : N)
| Named (name : string).

Definition ParameterRef_to_string (r : ParameterRef) : string :=
  match r with
  | Positional position => "$" +:+ show_N position
  | Named name => ":" +:+ name
  end.

(** The derived [Ord]: positional references first, then by payload. *)
Definition ParameterRef_cmp (a b : ParameterRef) : comparison :=
  match a, b with
  | Positional p, Positional q => cmp p q
  | Positional _, Named _ => Lt
  | Named _, Positional _ => Gt
  | Named x, Named y => cmp x y
  end.

#[export] Program Instance ParameterRef_ord : RustOrd ParameterRef := {| cmp := ParameterRef_cmp |}.
Next Obligation.
  intros [p|x] [q|y]; unfold ParameterRef_cmp; [|done..|]; rewrite cmp_eq_iff; naive_solver.
Qed.
Next Obligation. intros [p|x] [q|y]; unfold ParameterRef_cmp; [|done..|]; apply cmp_antisym. Qed.
Next Obligation.
  intros [p|x] [q|y] [r|z]; unfold ParameterRef_cmp; try done; apply cmp_lt_trans.
Qed.

Inductive ParameterValue :=
| VNull
| VBoolean (b : bool)
| VInt64 (i : Z)
| VFloat64 (text : string)
| VUtf8 (text : string)
| VUuid (text : string)
| VJson (text : string)
| VList (values : list ParameterValue).

(** [ParameterValue::inferred_type]. *)
Fixpoint inferred_type (v : ParameterValue) : DataType :=
  match v with
  | VNull => TUnknown
  | VBoolean _ => TBoolean
  | VInt64 _ => TInt64
  | VFloat64 _ => TFloat64
  | VUtf8 _ => TUtf8
  | VUuid _ => TUuid
  | VJson _ => TJson
  | VList values =>
      TList (default TUnknown
        (reduce common_or_unknown
           (List.filter (λ ty, negb (is_unknown ty)) (List.map inferred_type values))))
  end.

Record ParameterSchema := {
  ps_reference : ParameterRef;
  ps_data_type : DataType;
  ps_nullable : bool;
  ps_metadata : FieldMetadata
}.

Record ParameterBinding := {
  pb_schema : ParameterSchema;
  pb_value : option ParameterValue
}.

Record QueryParameters := {
  positional : BTreeMap N ParameterValue;
  named : BTreeMap string ParameterValue
}.

Definition QueryParameters_default : QueryParameters := {| positional := []; named := [] |}.

Definition insert_positional (p : QueryParameters) (position : N) (v : ParameterValue) : QueryParameters :=
  {| positional := bt_insert position v (positional p); named := named p |}.

Definition insert_named (p : QueryParameters) (name : string) (v : ParameterValue) : QueryParameters :=
  {| positional := positional p; named := bt_insert name v (named p) |}.

Definition lookup_parameter (p : QueryParameters) (r : ParameterRef) : option ParameterValue :=
  match r with
  | Positional position => bt_get position (positional p)
  | Named name => bt_get name (named p)
  end.

(** ** Functions and capability requirements *)

Record FunctionRef := {
  fn_namespace : option string;
  fn_name : string
}.

Definition FunctionRef_display_name (f : FunctionRef) : string :=
  match fn_namespace f with
  | Some namespace => namespace +:+ "." +:+ fn_name f
  | None => fn_name f
  end.

#[export] Instance FunctionRef_eq_dec : EqDecision FunctionRef.
Proof. solve_decision. Defined.
#[export] Program Instance FunctionRef_countable : Countable FunctionRef :=
  inj_countable' (λ f, (fn_namespace f, fn_name f))
                 (λ p, {| fn_namespace := p.1; fn_name := p.2 |}) _.
Next Obligation. by intros []. Qed.

Inductive CapabilityRequirement :=
| CommonTableExpressions
| DerivedTables
| Joins
| Windows
| SetOperations
| Aggregates
| DistinctAggregates
| ScalarSubqueries
| InSubqueries
| Explain
| LimitOffset
| NamespacedFunctions
| ApproximateAggregates
| BackendSpecific (name : string).

#[export] Instance CapabilityRequirement_eq_dec : EqDecision CapabilityRequirement.
Proof. solve_decision. Defined.

Definition CapabilityRequirement_code (r : CapabilityRequirement) : nat + string :=
  match r with
  | CommonTableExpressions => inl 0 | DerivedTables => inl 1 | Joins => inl 2
  | Windows => inl 3 | SetOperations => inl 4 | Aggregates => inl 5
  | DistinctAggregates => inl 6 | ScalarSubqueries => inl 7 | InSubqueries => inl 8
  | Explain => inl 9 | LimitOffset => inl 10 | NamespacedFunctions => inl 11
  | ApproximateAggregates => inl 12 | BackendSpecific s => inr s
  end.

Definition CapabilityRequirement_decode (c : nat + string) : CapabilityRequirement :=
  match c with
  | inl 0 => CommonTableExpressions | inl 1 => DerivedTables | inl 2 => Joins
  | inl 3 => Windows | inl 4 => SetOperations | inl 5 => Aggregates
  | inl 6 => DistinctAggregates | inl 7 => ScalarSubqueries | inl 8 => InSubqueries
  | inl 9 => Explain | inl 10 => LimitOffset | inl 11 => NamespacedFunctions
  | inl _ => ApproximateAggregates | inr s => BackendSpecific s
  end.

#[export] Program Instance CapabilityRequirement_countable : Countable CapabilityRequirement :=
  inj_countable' CapabilityRequirement_code CapabilityRequirement_decode _.
Next Obligation. by intros []. Qed.

Record CapabilityRequirements := {
  required : gset CapabilityRequirement;
  referenced_functions : gset FunctionRef
}.

Definition CapabilityRequirements_default : CapabilityRequirements :=
  {| required := ∅; referenced_functions := ∅ |}.

Definition require (c : CapabilityRequirements) (r : CapabilityRequirement) : CapabilityRequirements :=
  {| required := {[r]} ∪ required c; referenced_functions := referenced_functions c |}.

Definition record_function (c : CapabilityRequirements) (f : FunctionRef) : CapabilityRequirements :=
  {| required := required c; referenced_functions := {[f]} ∪ referenced_functions c |}.

Definition CapabilityRequirements_is_empty (c : CapabilityRequirements) : bool :=
  bool_decide (required c = ∅) && bool_decide (referenced_functions c = ∅).

Record CatalogSnapshotId := { snapshot_text : string }.

(** ** Dialect metadata *)

Record DialectMetadata := { entries : BTreeMap string string }.

Definition DialectMetadata_default : DialectMetadata := {| entries := [] |}.
Definition DialectMetadata_get (m : DialectMetadata) (key : string) : option string :=
  bt_get key (entries m).
Definition DialectMetadata_insert (m : DialectMetadata) (key value : string) : DialectMetadata :=
  {| entries := bt_insert key value (entries m) |}.

(** Properties of type unification ([DataType::common_type]) and of inferred
    types. *)

(** ** Facts *)

Lemma DataType_eqb_refl a : DataType_eqb a a = true.
Proof. by destruct (DataType_eqb_spec a a). Qed.

Lemma DataType_eqb_eq a b : DataType_eqb a b = true ↔ a = b.
Proof. destruct (DataType_eqb_spec a b); split; congruence. Qed.

Lemma DataType_eqb_sym a b : DataType_eqb a b = DataType_eqb b a.
Proof. apply eq_true_iff_eq. rewrite !DataType_eqb_eq. by split. Qed.

(** The equation of [common_type]. *)
Lemma common_type_eq left right :
  common_type left right
  = if DataType_eqb left right then Some left else
    match left, right with
    | TUnknown, other | other, TUnknown => Some other
    | TInt32, TInt64 | TInt64, TInt32 => Some TInt64
    | TInt32, TFloat64 | TFloat64, TInt32
    | TInt64, TFloat64 | TFloat64, TInt64 => Some TFloat64
    | TList l, TList r => TList <$> common_type l r
    | _, _ => None
    end.
Proof. by destruct left. Qed.

Lemma common_type_refl a : common_type a a = Some a.
Proof. by rewrite common_type_eq, DataType_eqb_refl. Qed.

Lemma common_type_unknown_l a : common_type TUnknown a = Some a.
Proof. rewrite common_type_eq. by destruct a. Qed.

Lemma common_type_comm a b : common_type a b = common_type b a.
Proof.
  revert b. induction a as [a Hl Hs|i IH|fs _] using DataType_nested_ind; intros b;
    rewrite (common_type_eq _ b), (common_type_eq b), (DataType_eqb_sym b);
    match goal with |- context [DataType_eqb ?x b] => destruct (DataType_eqb_spec x b) as [<-|Hne] end;
    try done.
  - destruct a, b; try done; try naive_solver.
  - destruct b; try done. by rewrite IH.
Qed.

(** The common type is above both types. *)
Lemma common_type_above a b c : common_type a b = Some c → common_type a c = Some c.
Proof.
  revert b c. induction a as [a Hl Hs|i IH|fs _] using DataType_nested_ind; intros b c.
  - rewrite (common_type_eq a b). destruct (DataType_eqb_spec a b) as [->|Hne].
    { intros [= <-]. apply common_type_refl. }
    destruct a; try (exfalso; by eapply Hl); try (exfalso; by eapply Hs); destruct b; try done;
      intros [= <-]; (done || apply common_type_unknown_l || apply common_type_refl).
  - rewrite (common_type_eq _ b). destruct (DataType_eqb_spec (TList i) b) as [<-|Hne].
    { intros [= <-]. apply common_type_refl. }
    destruct b; try done.
    + destruct (common_type i b) as [d|] eqn:E; [|done]. intros [= <-].
      rewrite common_type_eq. destruct (DataType_eqb_spec (TList i) (TList d)) as [[= ->]|]; [done|].
      by rewrite (IH _ _ E).
    + intros [= <-]. apply common_type_refl.
  - rewrite (common_type_eq _ b). destruct (DataType_eqb_spec (TStruct fs) b) as [<-|Hne].
    { intros [= <-]. apply common_type_refl. }
    destruct b; try done. intros [= <-]. apply common_type_refl.
Qed.

(** ** Properties *)

(** Unification of types is symmetric, gives equal types themselves, treats
    the unknown type as no information, and its result is an upper bound:
    either operand unified with it gives it back. *)
Theorem common_type_is_an_upper_bound (a b : DataType) :
  common_type a b = common_type b a
  ∧ common_type a a = Some a
  ∧ common_type TUnknown a = Some a
  ∧ (∀ c, common_type a b = Some c → common_type a c = Some c ∧ common_type b c = Some c).
Proof.
  split_and!.
  - apply common_type_comm.
  - apply common_type_refl.
  - apply common_type_unknown_l.
  - intros c H. split; [by eapply common_type_above|].
    rewrite common_type_comm in H. by eapply common_type_above.
Qed.

(** The type found for several alternatives depends on their order: a
    conflict is recorded as the unknown type, which the next alternative
    overwrites, so a text among two integers goes unnoticed when it comes
    first and makes the type unknown when it comes last. *)
Theorem reduced_type_depends_on_order :
  reduce common_or_unknown [TUtf8; TInt64; TInt64] = Some TInt64
  ∧ reduce common_or_unknown [TInt64; TInt64; TUtf8] = Some TUnknown
  ∧ inferred_type (VList [VUtf8 "a"; VInt64 1; VInt64 2]) = TList TInt64
  ∧ (∀ t u, common_type t u = None → reduce common_or_unknown [t; u; u] = Some u).
Proof.
  split_and!; [reflexivity..|]. intros t u H. unfold common_or_unknown. cbn [reduce foldl]. rewrite H. cbn [default from_option id].
  by rewrite common_type_unknown_l.
Qed.
