(* ===== verification/Diagnostics.v ===== *)
(** Source spans, structured diagnostics, provenance receipts and errors:
    [queryfabric-ir/src/diagnostics.rs] and [error.rs].

    The BLAKE3 hash of a third-party crate is the parameter [Blake3]. *)
From S2P Require Import Prelude BTreeMap Types.

Record QuerySourceSpan := { offset : N; len : N }.

Definition span_whole (input : string) : QuerySourceSpan :=
  {| offset := 0; len := string_len input |}.

Definition span_end (s : QuerySourceSpan) : N := (offset s + len s)%N.

Definition span_union (a b : QuerySourceSpan) : QuerySourceSpan :=
  let start := N.min (offset a) (offset b) in
  let end_ := N.max (span_end a) (span_end b) in
  {| offset := start; len := (end_ - start)%N |}.

Inductive DiagnosticSeverity := SevError | SevWarning | SevNote.

#[export] Instance DiagnosticSeverity_eq_dec : EqDecision DiagnosticSeverity.
Proof. solve_decision. Defined.

Record QueryDiagnostic := {
  code : string;
  severity : DiagnosticSeverity;
  message : string;
  remediation : option string;
  diag_backend : option string;
  diag_span : option QuerySourceSpan;
  diag_node_id : option string
}.

Definition diagnostic (sev : DiagnosticSeverity) (c m : string) : QueryDiagnostic :=
  {| code := c; severity := sev; message := m; remediation := None;
     diag_backend := None; diag_span := None; diag_node_id := None |}.
Definition diagnostic_error : string → string → QueryDiagnostic := diagnostic SevError.
Definition diagnostic_warning : string → string → QueryDiagnostic := diagnostic SevWarning.
Definition diagnostic_note : string → string → QueryDiagnostic := diagnostic SevNote.

Definition is_error (d : QueryDiagnostic) : bool := bool_decide (severity d = SevError).

Definition with_remediation (d : QueryDiagnostic) (r : string) : QueryDiagnostic :=
  {| code := code d; severity := severity d; message := message d; remediation := Some r;
     diag_backend := diag_backend d; diag_span := diag_span d; diag_node_id := diag_node_id d |}.
Definition with_backend (d : QueryDiagnostic) (b : string) : QueryDiagnostic :=
  {| code := code d; severity := severity d; message := message d; remediation := remediation d;
     diag_backend := Some b; diag_span := diag_span d; diag_node_id := diag_node_id d |}.
Definition with_span (d : QueryDiagnostic) (s : QuerySourceSpan) : QueryDiagnostic :=
  {| code := code d; severity := severity d; message := message d; remediation := remediation d;
     diag_backend := diag_backend d; diag_span := Some s; diag_node_id := diag_node_id d |}.
Definition with_node_id (d : QueryDiagnostic) (n : string) : QueryDiagnostic :=
  {| code := code d; severity := severity d; message := message d; remediation := remediation d;
     diag_backend := diag_backend d; diag_span := diag_span d; diag_node_id := Some n |}.

Definition has_error (ds : list QueryDiagnostic) : bool := existsb is_error ds.

(** ** Provenance *)

Class Blake3 := { blake3_hex : string → string }.

Record ProvenanceReceipt := {
  pr_query_hash : string;
  compiler_version : string;
  pr_catalog_snapshot : option CatalogSnapshotId;
  pr_dialect : string;
  pr_backend : option string;
  capability_decision : option string;
  artifact_identity : option string
}.

Definition query_hash `{Blake3} (sql : string) : string := blake3_hex sql.

Definition ProvenanceReceipt_for_query `{Blake3} (canonical_sql dialect : string) : ProvenanceReceipt :=
  {| pr_query_hash := query_hash canonical_sql; compiler_version := "unknown";
     pr_catalog_snapshot := None; pr_dialect := dialect; pr_backend := None;
     capability_decision := None; artifact_identity := None |}.

Definition receipt_with_compiler_version (r : ProvenanceReceipt) (v : string) : ProvenanceReceipt :=
  {| pr_query_hash := pr_query_hash r; compiler_version := v;
     pr_catalog_snapshot := pr_catalog_snapshot r; pr_dialect := pr_dialect r;
     pr_backend := pr_backend r; capability_decision := capability_decision r;
     artifact_identity := artifact_identity r |}.
Definition receipt_with_catalog_snapshot (r : ProvenanceReceipt) (s : CatalogSnapshotId) : ProvenanceReceipt :=
  {| pr_query_hash := pr_query_hash r; compiler_version := compiler_version r;
     pr_catalog_snapshot := Some s; pr_dialect := pr_dialect r;
     pr_backend := pr_backend r; capability_decision := capability_decision r;
     artifact_identity := artifact_identity r |}.
Definition receipt_with_backend (r : ProvenanceReceipt) (b : string) : ProvenanceReceipt :=
  {| pr_query_hash := pr_query_hash r; compiler_version := compiler_version r;
     pr_catalog_snapshot := pr_catalog_snapshot r; pr_dialect := pr_dialect r;
     pr_backend := Some b; capability_decision := capability_decision r;
     artifact_identity := artifact_identity r |}.
Definition receipt_with_capability_decision (r : ProvenanceReceipt) (d : string) : ProvenanceReceipt :=
  {| pr_query_hash := pr_query_hash r; compiler_version := compiler_version r;
     pr_catalog_snapshot := pr_catalog_snapshot r; pr_dialect := pr_dialect r;
     pr_backend := pr_backend r; capability_decision := Some d;
     artifact_identity := artifact_identity r |}.
Definition receipt_with_artifact_identity (r : ProvenanceReceipt) (i : string) : ProvenanceReceipt :=
  {| pr_query_hash := pr_query_hash r; compiler_version := compiler_version r;
     pr_catalog_snapshot := pr_catalog_snapshot r; pr_dialect := pr_dialect r;
     pr_backend := pr_backend r; capability_decision := capability_decision r;
     artifact_identity := Some i |}.

(** ** Errors *)

Inductive QueryBudgetDimension :=
| InputBytes | Parameters | SyntaxNodes | NestingDepth | JoinsDimension | Ctes.

#[export] Instance QueryBudgetDimension_eq_dec : EqDecision QueryBudgetDimension.
Proof. solve_decision. Defined.

Record BindErrorDetails := {
  be_message : string;
  be_source_sql : option string;
  be_dialect : option string;
  be_diagnostics : list QueryDiagnostic;
  be_provenance : option ProvenanceReceipt
}.

Definition details_with_compiler_version (d : BindErrorDetails) (v : string) : BindErrorDetails :=
  {| be_message := be_message d; be_source_sql := be_source_sql d; be_dialect := be_dialect d;
     be_diagnostics := be_diagnostics d;
     be_provenance := (λ r, receipt_with_compiler_version r v) <$> be_provenance d |}.

Inductive QueryFabricError :=
| EParse (message : string)
| EBind (details : BindErrorDetails)
| EUnsupportedFeature (feature detail : string)
| ECatalog (text : string)
| EEmission (text : string)
| EBudgetExceeded (dimension : QueryBudgetDimension) (limit actual : N).

(** [Display]. *)
Definition dimension_text (d : QueryBudgetDimension) : string :=
  match d with
  | InputBytes => "input bytes" | Parameters => "parameters" | SyntaxNodes => "syntax nodes"
  | NestingDepth => "nesting depth" | JoinsDimension => "joins" | Ctes => "CTEs"
  end.

Definition query_error_text (e : QueryFabricError) : string :=
  match e with
  | EParse m => "Parse error: " +:+ m
  | EBind d => "Bind error: " +:+ be_message d
  | EUnsupportedFeature feature _ => "Unsupported feature: " +:+ feature
  | ECatalog m => "Catalog error: " +:+ m
  | EEmission m => "Emission failed: " +:+ m
  | EBudgetExceeded d limit actual =>
      "Query budget exceeded for " +:+ dimension_text d +:+ ": limit " +:+ show_N limit +:+ ", actual " +:+ show_N actual
  end.

Abbreviation Result T := (result T QueryFabricError).

Definition as_bind (e : QueryFabricError) : option BindErrorDetails :=
  match e with EBind d => Some d | _ => None end.

Definition error_with_compiler_version (e : QueryFabricError) (v : string) : QueryFabricError :=
  match e with
  | EBind d => EBind (details_with_compiler_version d v)
  | other => other
  end.

(** [bind::unsupported] of the catalog crate. *)
Definition unsupported (feature detail : string) : QueryFabricError :=
  EUnsupportedFeature feature detail.

(** The message of the first error of a list, with a fallback text. *)
Definition first_error_message (fallback : string) (ds : list QueryDiagnostic) : string :=
  match List.find is_error ds with Some d => message d | None => fallback end.

(** ** Facts *)

Lemma has_error_app ds1 ds2 : has_error (ds1 ++ ds2) = has_error ds1 || has_error ds2.
Proof. apply existsb_app. Qed.

Lemma has_error_false ds : has_error ds = false ↔ Forall (λ d, is_error d = false) ds.
Proof.
  unfold has_error. induction ds as [|d ds IH]; simpl; [split; auto|].
  rewrite orb_false_iff, IH. split; [intros []; by constructor|by inversion 1].
Qed.

Lemma has_error_find ds : has_error ds = true → ∃ d, List.find is_error ds = Some d ∧ is_error d = true.
Proof.
  unfold has_error. induction ds as [|d ds IH]; simpl; [done|].
  destruct (is_error d) eqn:E; [by exists d|]. done.
Qed.
