(* ===== verification/Syntax.v ===== *)
(** The dialect-neutral syntax tree: [queryfabric-ir/src/syntax.rs].

    Five types of the source refer to each other (queries, set expressions,
    tables with joins, relations, expressions with their kinds).  The structs
    between them are records parameterised by the types they hold, so that
    they keep their fields, and the five types are one mutual inductive
    definition over instances of them. *)
From S2P Require Import Prelude BTreeMap Types Diagnostics.

Record SyntaxNode := { span : option QuerySourceSpan; node_id : string }.

Definition SyntaxNode_new (s : option QuerySourceSpan) (id : string) : SyntaxNode :=
  {| span := s; node_id := id |}.

Record NameRef := { nr_namespace : option string; nr_name : string }.

Definition NameRef_display_name (n : NameRef) : string :=
  match nr_namespace n with
  | Some namespace => namespace +:+ "." +:+ nr_name n
  | None => nr_name n
  end.

Inductive BackendClause :=
| ClickHouseSettings (text : string) (node : SyntaxNode)
| ClickHouseFormat (text : string) (node : SyntaxNode).

Inductive JoinKind := JInner | JLeft | JRight | JFull | JCross.

Inductive UnaryOperator := UPlus | UMinus | UNot.

Inductive BinaryOperator :=
| Add | Subtract | Multiply | Divide | Eq_ | NotEq | Lt_ | LtEq | Gt_ | GtEq | And | Or.

Inductive LiteralValue :=
| LNull
| LBoolean (b : bool)
| LInt64 (i : Z)
| LFloat64 (text : string)
| LUtf8 (text : string).

(** ** The structs of the tree *)

Record SyntaxCteOf (Q : Type) := MkSyntaxCte {
  cte_name : string;
  cte_columns : list string;
  cte_query : Q;
  cte_node : SyntaxNode
}.
Arguments MkSyntaxCte {Q}. Arguments cte_name {Q}. Arguments cte_columns {Q}.
Arguments cte_query {Q}. Arguments cte_node {Q}.

Record SyntaxOrderByExprOf (E : Type) := MkSyntaxOrderByExpr {
  ob_expr : E;
  ob_asc : option bool;
  ob_nulls_first : option bool;
  ob_node : SyntaxNode
}.
Arguments MkSyntaxOrderByExpr {E}. Arguments ob_expr {E}. Arguments ob_asc {E}.
Arguments ob_nulls_first {E}. Arguments ob_node {E}.

Record SyntaxProjectionExprOf (E : Type) := MkSyntaxProjectionExpr {
  pe_expr : E;
  pe_alias : option string;
  pe_node : SyntaxNode
}.
Arguments MkSyntaxProjectionExpr {E}. Arguments pe_expr {E}. Arguments pe_alias {E}.
Arguments pe_node {E}.

Scheme All for SyntaxCteOf.
Scheme All for SyntaxOrderByExprOf.
Scheme All for SyntaxProjectionExprOf.

Inductive SyntaxProjectionItemOf (E : Type) :=
| PWildcard (qualifier : option string) (node : SyntaxNode)
| PExpr (details : SyntaxProjectionExprOf E)
| PUnsupported (description : string) (node : SyntaxNode).
Arguments PWildcard {E}. Arguments PExpr {E}. Arguments PUnsupported {E}.

Scheme All for SyntaxProjectionItemOf.

Definition projection_as_expr {E} (i : SyntaxProjectionItemOf E) : option (SyntaxProjectionExprOf E) :=
  match i with PExpr details => Some details | _ => None end.

Record SyntaxSelectOf (E T : Type) := MkSyntaxSelect {
  sel_distinct : bool;
  sel_projection : list (SyntaxProjectionItemOf E);
  sel_from : list T;
  sel_selection : option E;
  sel_group_by : list E;
  sel_having : option E;
  sel_node : SyntaxNode
}.
Arguments MkSyntaxSelect {E T}. Arguments sel_distinct {E T}. Arguments sel_projection {E T}.
Arguments sel_from {E T}. Arguments sel_selection {E T}. Arguments sel_group_by {E T}.
Arguments sel_having {E T}. Arguments sel_node {E T}.

Record SyntaxJoinOf (R E : Type) := MkSyntaxJoin {
  join_kind : JoinKind;
  join_relation : R;
  join_on : option E;
  join_node : SyntaxNode
}.
Arguments MkSyntaxJoin {R E}. Arguments join_kind {R E}. Arguments join_relation {R E}.
Arguments join_on {R E}. Arguments join_node {R E}.

Record WindowSpecOf (E : Type) := MkWindowSpec {
  win_partition_by : list E;
  win_order_by : list (SyntaxOrderByExprOf E);
  win_node : SyntaxNode
}.
Arguments MkWindowSpec {E}. Arguments win_partition_by {E}. Arguments win_order_by {E}.
Arguments win_node {E}.

Scheme All for SyntaxSelectOf.
Scheme All for SyntaxJoinOf.
Scheme All for WindowSpecOf.

Record SyntaxFunctionCallOf (E : Type) := MkSyntaxFunctionCall {
  fc_function : FunctionRef;
  fc_args : list E;
  fc_distinct : bool;
  fc_filter : option E;
  fc_over : option (WindowSpecOf E)
}.
Arguments MkSyntaxFunctionCall {E}. Arguments fc_function {E}. Arguments fc_args {E}.
Arguments fc_distinct {E}. Arguments fc_filter {E}. Arguments fc_over {E}.

Record SyntaxWhenThenOf (E : Type) := MkSyntaxWhenThen { wt_condition : E; wt_result : E }.
Arguments MkSyntaxWhenThen {E}. Arguments wt_condition {E}. Arguments wt_result {E}.

Scheme All for SyntaxFunctionCallOf.
Scheme All for SyntaxWhenThenOf.

(** ** The tree *)

Inductive SyntaxQuery : Type :=
| MkSyntaxQuery
    (node : SyntaxNode)
    (ctes : list (SyntaxCteOf SyntaxQuery))
    (with_recursive : bool)
    (body : SyntaxSetExpr)
    (order_by : list (SyntaxOrderByExprOf SyntaxExpr))
    (limit : option SyntaxExpr)
    (offset : option SyntaxExpr)
    (backend_clauses : list BackendClause)
with SyntaxSetExpr : Type :=
| SSelect (select : SyntaxSelectOf SyntaxExpr SyntaxTableWithJoins)
| SUnionAll (left right : SyntaxSetExpr) (node : SyntaxNode)
| SSetUnsupported (description : string) (node : SyntaxNode)
with SyntaxTableWithJoins : Type :=
| MkSyntaxTableWithJoins
    (relation : SyntaxRelation)
    (joins : list (SyntaxJoinOf SyntaxRelation SyntaxExpr))
    (node : SyntaxNode)
with SyntaxRelation : Type :=
| STable (name : NameRef) (alias : option string) (node : SyntaxNode)
| SDerived (query : SyntaxQuery) (alias : option string) (node : SyntaxNode)
| SNestedJoin (table_with_joins : SyntaxTableWithJoins) (alias : option string) (node : SyntaxNode)
| SRelUnsupported (description : string) (node : SyntaxNode)
with SyntaxExpr : Type :=
| MkSyntaxExpr (kind : SyntaxExprKind) (node : SyntaxNode)
with SyntaxExprKind : Type :=
| SColumn (relation : option string) (name : string)
| SLiteral (value : LiteralValue)
| SParameter (reference : ParameterRef)
| SUnary (op : UnaryOperator) (expr : SyntaxExpr)
| SBinary (op : BinaryOperator) (left right : SyntaxExpr)
| SFunction (function : SyntaxFunctionCallOf SyntaxExpr)
| SCase (operand : option SyntaxExpr) (when_then : list (SyntaxWhenThenOf SyntaxExpr))
        (else_result : option SyntaxExpr)
| SCast (expr : SyntaxExpr) (data_type : DataType)
| SBetween (expr low high : SyntaxExpr) (negated : bool)
| SInList (expr : SyntaxExpr) (list_ : list SyntaxExpr) (negated : bool)
| SInSubquery (expr : SyntaxExpr) (subquery : SyntaxQuery) (negated : bool)
| SScalarSubquery (subquery : SyntaxQuery)
| SExists (subquery : SyntaxQuery)
| SLike (expr pattern : SyntaxExpr) (negated case_insensitive : bool)
| SIsNull (expr : SyntaxExpr) (negated : bool)
| STuple (items : list SyntaxExpr)
| SArray (items : list SyntaxExpr)
| SUnsupported (description : string).

Abbreviation SyntaxCte := (SyntaxCteOf SyntaxQuery).
Abbreviation SyntaxOrderByExpr := (SyntaxOrderByExprOf SyntaxExpr).
Abbreviation SyntaxProjectionItem := (SyntaxProjectionItemOf SyntaxExpr).
Abbreviation SyntaxSelect := (SyntaxSelectOf SyntaxExpr SyntaxTableWithJoins).
Abbreviation SyntaxJoin := (SyntaxJoinOf SyntaxRelation SyntaxExpr).
Abbreviation WindowSpec := (WindowSpecOf SyntaxExpr).
Abbreviation SyntaxFunctionCall := (SyntaxFunctionCallOf SyntaxExpr).
Abbreviation SyntaxWhenThen := (SyntaxWhenThenOf SyntaxExpr).

Definition sq_node '(MkSyntaxQuery n _ _ _ _ _ _ _) := n.
Definition sq_ctes '(MkSyntaxQuery _ c _ _ _ _ _ _) := c.
Definition sq_with_recursive '(MkSyntaxQuery _ _ r _ _ _ _ _) := r.
Definition sq_body '(MkSyntaxQuery _ _ _ b _ _ _ _) := b.
Definition sq_order_by '(MkSyntaxQuery _ _ _ _ o _ _ _) := o.
Definition sq_limit '(MkSyntaxQuery _ _ _ _ _ l _ _) := l.
Definition sq_offset '(MkSyntaxQuery _ _ _ _ _ _ o _) := o.
Definition sq_backend_clauses '(MkSyntaxQuery _ _ _ _ _ _ _ b) := b.
Definition se_kind '(MkSyntaxExpr k _) := k.
Definition se_node '(MkSyntaxExpr _ n) := n.

Scheme SyntaxQuery_mind := Induction for SyntaxQuery Sort Prop
  with SyntaxSetExpr_mind := Induction for SyntaxSetExpr Sort Prop
  with SyntaxTableWithJoins_mind := Induction for SyntaxTableWithJoins Sort Prop
  with SyntaxRelation_mind := Induction for SyntaxRelation Sort Prop
  with SyntaxExpr_mind := Induction for SyntaxExpr Sort Prop
  with SyntaxExprKind_mind := Induction for SyntaxExprKind Sort Prop.
Combined Scheme Syntax_mutind from SyntaxQuery_mind, SyntaxSetExpr_mind,
  SyntaxTableWithJoins_mind, SyntaxRelation_mind, SyntaxExpr_mind, SyntaxExprKind_mind.

(** [SyntaxQuery::unsupported]. *)
Definition SyntaxQuery_unsupported (s : option QuerySourceSpan) (id description : string) : SyntaxQuery :=
  MkSyntaxQuery (SyntaxNode_new s id) [] false
    (SSetUnsupported description (SyntaxNode_new s "unsupported")) [] None None [].

Definition set_expr_as_select (e : SyntaxSetExpr) : option SyntaxSelect :=
  match e with SSelect select => Some select | _ => None end.

(** ** Induction

    The mutual induction principle with the hypotheses on nested lists,
    options and records read through their projections.  The kinds of
    expressions are absorbed into the predicate on expressions. *)
Definition select_all (PT : SyntaxTableWithJoins → Prop) (PE : SyntaxExpr → Prop)
    (s : SyntaxSelect) : Prop :=
  Forall (λ i, ∀ d, i = PExpr d → PE (pe_expr d)) (sel_projection s)
  ∧ Forall PT (sel_from s) ∧ opt_all PE (sel_selection s)
  ∧ Forall PE (sel_group_by s) ∧ opt_all PE (sel_having s).

Definition window_all (PE : SyntaxExpr → Prop) (w : WindowSpec) : Prop :=
  Forall PE (win_partition_by w) ∧ Forall (λ o, PE (ob_expr o)) (win_order_by w).

Definition call_all (PE : SyntaxExpr → Prop) (f : SyntaxFunctionCall) : Prop :=
  Forall PE (fc_args f) ∧ opt_all PE (fc_filter f) ∧ opt_all (window_all PE) (fc_over f).

Definition kind_all (PQ : SyntaxQuery → Prop) (PE : SyntaxExpr → Prop) (k : SyntaxExprKind) : Prop :=
  match k with
  | SUnary _ e | SIsNull e _ | SCast e _ => PE e
  | SBinary _ l r => PE l ∧ PE r
  | SFunction f => call_all PE f
  | SCase operand when_then else_result =>
      opt_all PE operand ∧ Forall (λ p, PE (wt_condition p) ∧ PE (wt_result p)) when_then
      ∧ opt_all PE else_result
  | SBetween e low high _ => PE e ∧ PE low ∧ PE high
  | SInList e items _ => PE e ∧ Forall PE items
  | SInSubquery e q _ => PE e ∧ PQ q
  | SScalarSubquery q | SExists q => PQ q
  | SLike e pattern _ _ => PE e ∧ PE pattern
  | STuple items | SArray items => Forall PE items
  | SColumn _ _ | SLiteral _ | SParameter _ | SUnsupported _ => True
  end.

Section SyntaxInduction.
Variables (PQ : SyntaxQuery → Prop) (PS : SyntaxSetExpr → Prop)
  (PT : SyntaxTableWithJoins → Prop) (PR : SyntaxRelation → Prop) (PE : SyntaxExpr → Prop).

Hypothesis HQ : ∀ node cs r body ob lim off bc,
  Forall (λ c, PQ (cte_query c)) cs → PS body → Forall (λ o, PE (ob_expr o)) ob →
  opt_all PE lim → opt_all PE off → PQ (MkSyntaxQuery node cs r body ob lim off bc).
Hypothesis HSelect : ∀ s, select_all PT PE s → PS (SSelect s).
Hypothesis HUnion : ∀ l r node, PS l → PS r → PS (SUnionAll l r node).
Hypothesis HSetUnsupported : ∀ d node, PS (SSetUnsupported d node).
Hypothesis HTable : ∀ r js node,
  PR r → Forall (λ j, PR (join_relation j) ∧ opt_all PE (join_on j)) js →
  PT (MkSyntaxTableWithJoins r js node).
Hypothesis HRelTable : ∀ n a node, PR (STable n a node).
Hypothesis HRelDerived : ∀ q a node, PQ q → PR (SDerived q a node).
Hypothesis HRelNested : ∀ t a node, PT t → PR (SNestedJoin t a node).
Hypothesis HRelUnsupported : ∀ d node, PR (SRelUnsupported d node).
Hypothesis HExpr : ∀ k node, kind_all PQ PE k → PE (MkSyntaxExpr k node).

Local Ltac nested :=
  repeat match goal with
  | H : list_all _ _ _ |- _ => apply list_all_Forall in H
  | H : option_all _ _ _ |- _ => apply option_all_opt in H
  end.

Theorem Syntax_induction :
  (∀ q, PQ q) ∧ (∀ s, PS s) ∧ (∀ t, PT t) ∧ (∀ r, PR r) ∧ (∀ e, PE e).
Proof.
  cut ((∀ q, PQ q) ∧ (∀ s, PS s) ∧ (∀ t, PT t) ∧ (∀ r, PR r) ∧ (∀ e, PE e) ∧
       (∀ k, kind_all PQ PE k)); [tauto|].
  apply Syntax_mutind; simpl; intros; nested; auto.
  - apply HQ; auto; eapply list_all_impl; try eassumption; by intros ? [].
  - apply HSelect. match goal with H : SyntaxSelectOf_all _ _ _ _ _ |- _ => destruct H end. nested. split_and!; simpl; auto.
    eapply list_all_impl; [eassumption|]. intros ? [| ? []|] ? [=]; by subst.
  - apply HTable; [done|]. eapply list_all_impl; [eassumption|].
    intros ? []. nested. auto.
  - match goal with H : SyntaxFunctionCallOf_all _ _ _ |- _ => destruct H end. nested. split_and!; simpl; auto.
    eapply option_all_impl; [eassumption|]. intros ? []. nested. split; [done|].
    eapply list_all_impl; [eassumption|]. by intros ? [].
  - split_and!; auto. eapply list_all_impl; [eassumption|]. by intros ? [].
Qed.
End SyntaxInduction.
