(* ===== verification/Bound.v ===== *)
(** Parsed queries, the bound plan and bound queries:
    [queryfabric-ir/src/bound.rs].

    The plan mirrors the syntax tree of [Syntax.v], with types, nullability and
    schemas; it is built the same way, parameterised records for the structs
    and one mutual inductive definition. *)
From S2P Require Import Prelude BTreeMap Types Diagnostics Syntax.

(** ** Parsed queries *)

Record ParsedQuery := {
  pq_dialect : string;
  pq_source_sql : string;
  pq_canonical_sql : string;
  pq_explain : bool;
  pq_dialect_metadata : DialectMetadata;
  pq_query_span : QuerySourceSpan;
  pq_syntax : SyntaxQuery;
  pq_lowering_diagnostics : list QueryDiagnostic
}.

Definition ParsedQuery_new (dialect source_sql canonical_sql : string) : ParsedQuery :=
  let query_span := span_whole source_sql in
  {| pq_dialect := dialect; pq_source_sql := source_sql; pq_canonical_sql := canonical_sql;
     pq_explain := false; pq_dialect_metadata := DialectMetadata_default;
     pq_query_span := query_span;
     pq_syntax := SyntaxQuery_unsupported (Some query_span) "syntax.unsupported" "query syntax missing";
     pq_lowering_diagnostics := [] |}.

Definition with_explain (p : ParsedQuery) (explain : bool) : ParsedQuery :=
  {| pq_dialect := pq_dialect p; pq_source_sql := pq_source_sql p;
     pq_canonical_sql := pq_canonical_sql p; pq_explain := explain;
     pq_dialect_metadata := pq_dialect_metadata p; pq_query_span := pq_query_span p;
     pq_syntax := pq_syntax p; pq_lowering_diagnostics := pq_lowering_diagnostics p |}.
Definition with_dialect_metadata (p : ParsedQuery) (m : DialectMetadata) : ParsedQuery :=
  {| pq_dialect := pq_dialect p; pq_source_sql := pq_source_sql p;
     pq_canonical_sql := pq_canonical_sql p; pq_explain := pq_explain p;
     pq_dialect_metadata := m; pq_query_span := pq_query_span p;
     pq_syntax := pq_syntax p; pq_lowering_diagnostics := pq_lowering_diagnostics p |}.
Definition with_syntax (p : ParsedQuery) (s : SyntaxQuery) : ParsedQuery :=
  {| pq_dialect := pq_dialect p; pq_source_sql := pq_source_sql p;
     pq_canonical_sql := pq_canonical_sql p; pq_explain := pq_explain p;
     pq_dialect_metadata := pq_dialect_metadata p; pq_query_span := pq_query_span p;
     pq_syntax := s; pq_lowering_diagnostics := pq_lowering_diagnostics p |}.
Definition with_lowering_diagnostics (p : ParsedQuery) (ds : list QueryDiagnostic) : ParsedQuery :=
  {| pq_dialect := pq_dialect p; pq_source_sql := pq_source_sql p;
     pq_canonical_sql := pq_canonical_sql p; pq_explain := pq_explain p;
     pq_dialect_metadata := pq_dialect_metadata p; pq_query_span := pq_query_span p;
     pq_syntax := pq_syntax p; pq_lowering_diagnostics := ds |}.

(** ** The structs of the plan *)

Record BoundRelationBinding := {
  binding_name : string;
  relation_name : option NameRef;
  binding_schema : ResultSchema
}.

Record BoundColumnRef := { col_relation : option string; col_name : string }.

Record BoundCteOf (Q : Type) := MkBoundCte {
  bcte_name : string;
  bcte_columns : list string;
  bcte_query : Q;
  bcte_result_schema : ResultSchema;
  bcte_node : SyntaxNode
}.
Arguments MkBoundCte {Q}. Arguments bcte_name {Q}. Arguments bcte_columns {Q}.
Arguments bcte_query {Q}. Arguments bcte_result_schema {Q}. Arguments bcte_node {Q}.

Record BoundOrderByExprOf (E : Type) := MkBoundOrderByExpr {
  bob_expr : E;
  bob_asc : option bool;
  bob_nulls_first : option bool;
  bob_node : SyntaxNode
}.
Arguments MkBoundOrderByExpr {E}. Arguments bob_expr {E}. Arguments bob_asc {E}.
Arguments bob_nulls_first {E}. Arguments bob_node {E}.

Record BoundProjectionExprOf (E : Type) := MkBoundProjectionExpr {
  bpe_expr : E;
  bpe_alias : option string;
  bpe_field : ResultField;
  bpe_node : SyntaxNode
}.
Arguments MkBoundProjectionExpr {E}. Arguments bpe_expr {E}. Arguments bpe_alias {E}.
Arguments bpe_field {E}. Arguments bpe_node {E}.

Scheme All for BoundCteOf.
Scheme All for BoundOrderByExprOf.
Scheme All for BoundProjectionExprOf.

Inductive BoundProjectionItemOf (E : Type) :=
| BPWildcard (qualifier : option string) (wild_fields : list ResultField) (node : SyntaxNode)
| BPExpr (details : BoundProjectionExprOf E)
| BPUnsupported (description : string) (node : SyntaxNode).
Arguments BPWildcard {E}. Arguments BPExpr {E}. Arguments BPUnsupported {E}.

Scheme All for BoundProjectionItemOf.

Definition bound_projection_as_expr {E} (i : BoundProjectionItemOf E) : option (BoundProjectionExprOf E) :=
  match i with BPExpr details => Some details | _ => None end.

Record BoundSelectOf (E T : Type) := MkBoundSelect {
  bsel_distinct : bool;
  bsel_projection : list (BoundProjectionItemOf E);
  bsel_from : list T;
  bsel_selection : option E;
  bsel_group_by : list E;
  bsel_having : option E;
  bsel_result_schema : ResultSchema;
  bsel_node : SyntaxNode
}.
Arguments MkBoundSelect {E T}. Arguments bsel_distinct {E T}. Arguments bsel_projection {E T}.
Arguments bsel_from {E T}. Arguments bsel_selection {E T}. Arguments bsel_group_by {E T}.
Arguments bsel_having {E T}. Arguments bsel_result_schema {E T}. Arguments bsel_node {E T}.

Record BoundJoinOf (R E : Type) := MkBoundJoin {
  bjoin_kind : JoinKind;
  bjoin_relation : R;
  bjoin_on : option E;
  bjoin_node : SyntaxNode
}.
Arguments MkBoundJoin {R E}. Arguments bjoin_kind {R E}. Arguments bjoin_relation {R E}.
Arguments bjoin_on {R E}. Arguments bjoin_node {R E}.

Record BoundWindowSpecOf (E : Type) := MkBoundWindowSpec {
  bwin_partition_by : list E;
  bwin_order_by : list (BoundOrderByExprOf E);
  bwin_node : SyntaxNode
}.
Arguments MkBoundWindowSpec {E}. Arguments bwin_partition_by {E}. Arguments bwin_order_by {E}.
Arguments bwin_node {E}.

Scheme All for BoundSelectOf.
Scheme All for BoundJoinOf.
Scheme All for BoundWindowSpecOf.

Record BoundFunctionCallOf (E : Type) := MkBoundFunctionCall {
  bfc_function : FunctionRef;
  bfc_resolved_backend_name : option FunctionRef;
  bfc_args : list E;
  bfc_distinct : bool;
  bfc_filter : option E;
  bfc_over : option (BoundWindowSpecOf E);
  bfc_resolved_signature_name : option string
}.
Arguments MkBoundFunctionCall {E}. Arguments bfc_function {E}.
Arguments bfc_resolved_backend_name {E}. Arguments bfc_args {E}. Arguments bfc_distinct {E}.
Arguments bfc_filter {E}. Arguments bfc_over {E}. Arguments bfc_resolved_signature_name {E}.

Record BoundWhenThenOf (E : Type) := MkBoundWhenThen { bwt_condition : E; bwt_result : E }.
Arguments MkBoundWhenThen {E}. Arguments bwt_condition {E}. Arguments bwt_result {E}.

Scheme All for BoundFunctionCallOf.
Scheme All for BoundWhenThenOf.

(** ** The plan *)

Inductive BoundQueryPlan : Type :=
| MkBoundQueryPlan
    (node : SyntaxNode)
    (ctes : list (BoundCteOf BoundQueryPlan))
    (body : BoundSetExpr)
    (order_by : list (BoundOrderByExprOf BoundExpr))
    (limit : option BoundExpr)
    (offset : option BoundExpr)
    (backend_clauses : list BackendClause)
    (result_schema : ResultSchema)
with BoundSetExpr : Type :=
| BSelect (select : BoundSelectOf BoundExpr BoundTableWithJoins)
| BUnionAll (left right : BoundSetExpr) (node : SyntaxNode) (result_schema : ResultSchema)
| BSetUnsupported (description : string) (node : SyntaxNode) (result_schema : ResultSchema)
with BoundTableWithJoins : Type :=
| MkBoundTableWithJoins
    (relation : BoundRelation)
    (joins : list (BoundJoinOf BoundRelation BoundExpr))
    (node : SyntaxNode)
with BoundRelation : Type :=
| BTable (binding : BoundRelationBinding) (node : SyntaxNode)
| BDerived (binding : BoundRelationBinding) (query : BoundQueryPlan) (node : SyntaxNode)
| BNestedJoin (binding : BoundRelationBinding) (table_with_joins : BoundTableWithJoins)
              (node : SyntaxNode)
| BRelUnsupported (description binding_name : string) (node : SyntaxNode)
with BoundExpr : Type :=
| MkBoundExpr (kind : BoundExprKind) (data_type : DataType) (nullable : bool) (node : SyntaxNode)
with BoundExprKind : Type :=
| BColumn (column : BoundColumnRef)
| BLiteral (value : LiteralValue)
| BParameter (reference : ParameterRef)
| BUnary (op : UnaryOperator) (expr : BoundExpr)
| BBinary (op : BinaryOperator) (left right : BoundExpr)
| BFunction (function : BoundFunctionCallOf BoundExpr)
| BCase (operand : option BoundExpr) (when_then : list (BoundWhenThenOf BoundExpr))
        (else_result : option BoundExpr)
| BCast (expr : BoundExpr) (data_type : DataType)
| BBetween (expr low high : BoundExpr) (negated : bool)
| BInList (expr : BoundExpr) (list_ : list BoundExpr) (negated : bool)
| BInSubquery (expr : BoundExpr) (subquery : BoundQueryPlan) (negated : bool)
| BScalarSubquery (subquery : BoundQueryPlan)
| BExists (subquery : BoundQueryPlan)
| BLike (expr pattern : BoundExpr) (negated case_insensitive : bool)
| BIsNull (expr : BoundExpr) (negated : bool)
| BTuple (items : list BoundExpr)
| BArray (items : list BoundExpr)
| BUnsupported (description : string).

Abbreviation BoundCte := (BoundCteOf BoundQueryPlan).
Abbreviation BoundOrderByExpr := (BoundOrderByExprOf BoundExpr).
Abbreviation BoundProjectionItem := (BoundProjectionItemOf BoundExpr).
Abbreviation BoundSelect := (BoundSelectOf BoundExpr BoundTableWithJoins).
Abbreviation BoundJoin := (BoundJoinOf BoundRelation BoundExpr).
Abbreviation BoundWindowSpec := (BoundWindowSpecOf BoundExpr).
Abbreviation BoundFunctionCall := (BoundFunctionCallOf BoundExpr).
Abbreviation BoundWhenThen := (BoundWhenThenOf BoundExpr).

Definition bq_node '(MkBoundQueryPlan n _ _ _ _ _ _ _) := n.
Definition bq_ctes '(MkBoundQueryPlan _ c _ _ _ _ _ _) := c.
Definition bq_body '(MkBoundQueryPlan _ _ b _ _ _ _ _) := b.
Definition bq_order_by '(MkBoundQueryPlan _ _ _ o _ _ _ _) := o.
Definition bq_limit '(MkBoundQueryPlan _ _ _ _ l _ _ _) := l.
Definition bq_offset '(MkBoundQueryPlan _ _ _ _ _ o _ _) := o.
Definition bq_backend_clauses '(MkBoundQueryPlan _ _ _ _ _ _ b _) := b.
Definition bq_result_schema '(MkBoundQueryPlan _ _ _ _ _ _ _ s) := s.
Definition bt_relation '(MkBoundTableWithJoins r _ _) := r.
Definition bt_joins '(MkBoundTableWithJoins _ j _) := j.
Definition be_kind '(MkBoundExpr k _ _ _) := k.
Definition be_data_type '(MkBoundExpr _ t _ _) := t.
Definition be_nullable '(MkBoundExpr _ _ n _) := n.
Definition be_node '(MkBoundExpr _ _ _ n) := n.

Scheme BoundQueryPlan_mind := Induction for BoundQueryPlan Sort Prop
  with BoundSetExpr_mind := Induction for BoundSetExpr Sort Prop
  with BoundTableWithJoins_mind := Induction for BoundTableWithJoins Sort Prop
  with BoundRelation_mind := Induction for BoundRelation Sort Prop
  with BoundExpr_mind := Induction for BoundExpr Sort Prop
  with BoundExprKind_mind := Induction for BoundExprKind Sort Prop.
Combined Scheme Bound_mutind from BoundQueryPlan_mind, BoundSetExpr_mind,
  BoundTableWithJoins_mind, BoundRelation_mind, BoundExpr_mind, BoundExprKind_mind.

(** ** Induction

    As for the syntax tree: hypotheses on nested lists, options and records
    read through their projections, kinds absorbed into expressions. *)
Definition bound_select_all (PT : BoundTableWithJoins → Prop) (PE : BoundExpr → Prop)
    (s : BoundSelect) : Prop :=
  Forall (λ i, ∀ d, i = BPExpr d → PE (bpe_expr d)) (bsel_projection s)
  ∧ Forall PT (bsel_from s) ∧ opt_all PE (bsel_selection s)
  ∧ Forall PE (bsel_group_by s) ∧ opt_all PE (bsel_having s).

Definition bound_window_all (PE : BoundExpr → Prop) (w : BoundWindowSpec) : Prop :=
  Forall PE (bwin_partition_by w) ∧ Forall (λ o, PE (bob_expr o)) (bwin_order_by w).

Definition bound_call_all (PE : BoundExpr → Prop) (f : BoundFunctionCall) : Prop :=
  Forall PE (bfc_args f) ∧ opt_all PE (bfc_filter f) ∧ opt_all (bound_window_all PE) (bfc_over f).

Definition bound_kind_all (PQ : BoundQueryPlan → Prop) (PE : BoundExpr → Prop) (k : BoundExprKind) : Prop :=
  match k with
  | BUnary _ e | BIsNull e _ | BCast e _ => PE e
  | BBinary _ l r => PE l ∧ PE r
  | BFunction f => bound_call_all PE f
  | BCase operand when_then else_result =>
      opt_all PE operand ∧ Forall (λ p, PE (bwt_condition p) ∧ PE (bwt_result p)) when_then
      ∧ opt_all PE else_result
  | BBetween e low high _ => PE e ∧ PE low ∧ PE high
  | BInList e items _ => PE e ∧ Forall PE items
  | BInSubquery e q _ => PE e ∧ PQ q
  | BScalarSubquery q | BExists q => PQ q
  | BLike e pattern _ _ => PE e ∧ PE pattern
  | BTuple items | BArray items => Forall PE items
  | BColumn _ | BLiteral _ | BParameter _ | BUnsupported _ => True
  end.

Section BoundInduction.
Variables (PQ : BoundQueryPlan → Prop) (PS : BoundSetExpr → Prop)
  (PT : BoundTableWithJoins → Prop) (PR : BoundRelation → Prop) (PE : BoundExpr → Prop).

Hypothesis HQ : ∀ node cs body ob lim off bc schema,
  Forall (λ c, PQ (bcte_query c)) cs → PS body → Forall (λ o, PE (bob_expr o)) ob →
  opt_all PE lim → opt_all PE off → PQ (MkBoundQueryPlan node cs body ob lim off bc schema).
Hypothesis HSelect : ∀ s, bound_select_all PT PE s → PS (BSelect s).
Hypothesis HUnion : ∀ l r node schema, PS l → PS r → PS (BUnionAll l r node schema).
Hypothesis HSetUnsupported : ∀ d node schema, PS (BSetUnsupported d node schema).
Hypothesis HTable : ∀ r js node,
  PR r → Forall (λ j, PR (bjoin_relation j) ∧ opt_all PE (bjoin_on j)) js →
  PT (MkBoundTableWithJoins r js node).
Hypothesis HRelTable : ∀ b node, PR (BTable b node).
Hypothesis HRelDerived : ∀ b q node, PQ q → PR (BDerived b q node).
Hypothesis HRelNested : ∀ b t node, PT t → PR (BNestedJoin b t node).
Hypothesis HRelUnsupported : ∀ d b node, PR (BRelUnsupported d b node).
Hypothesis HExpr : ∀ k t n node, bound_kind_all PQ PE k → PE (MkBoundExpr k t n node).

Local Ltac nested :=
  repeat match goal with
  | H : list_all _ _ _ |- _ => apply list_all_Forall in H
  | H : option_all _ _ _ |- _ => apply option_all_opt in H
  end.

Theorem Bound_induction :
  (∀ q, PQ q) ∧ (∀ s, PS s) ∧ (∀ t, PT t) ∧ (∀ r, PR r) ∧ (∀ e, PE e).
Proof.
  cut ((∀ q, PQ q) ∧ (∀ s, PS s) ∧ (∀ t, PT t) ∧ (∀ r, PR r) ∧ (∀ e, PE e) ∧
       (∀ k, bound_kind_all PQ PE k)); [tauto|].
  apply Bound_mutind; simpl; intros; nested; auto.
  - apply HQ; auto; eapply list_all_impl; try eassumption; by intros ? [].
  - apply HSelect. match goal with H : BoundSelectOf_all _ _ _ _ _ |- _ => destruct H end. nested.
    split_and!; simpl; auto. eapply list_all_impl; [eassumption|]. intros ? [| ? []|] ? [=]; by subst.
  - apply HTable; [done|]. eapply list_all_impl; [eassumption|]. intros ? []. nested. auto.
  - match goal with H : BoundFunctionCallOf_all _ _ _ |- _ => destruct H end. nested. split_and!; simpl; auto.
    eapply option_all_impl; [eassumption|]. intros ? []. nested. split; [done|].
    eapply list_all_impl; [eassumption|]. by intros ? [].
  - split_and!; auto. eapply list_all_impl; [eassumption|]. by intros ? [].
Qed.
End BoundInduction.

(** [BoundSetExpr::result_schema]. *)
Definition set_expr_result_schema (e : BoundSetExpr) : ResultSchema :=
  match e with
  | BSelect select => bsel_result_schema select
  | BUnionAll _ _ _ result_schema | BSetUnsupported _ _ result_schema => result_schema
  end.

Definition bound_set_expr_as_select (e : BoundSetExpr) : option BoundSelect :=
  match e with BSelect select => Some select | _ => None end.

(** [BoundRelation::binding]. *)
Definition relation_binding (r : BoundRelation) : option BoundRelationBinding :=
  match r with
  | BTable binding _ | BDerived binding _ _ | BNestedJoin binding _ _ => Some binding
  | BRelUnsupported _ _ _ => None
  end.

Definition as_function (k : BoundExprKind) : option BoundFunctionCall :=
  match k with BFunction function => Some function | _ => None end.

(** [BoundQueryPlan::unsupported]. *)
Definition BoundQueryPlan_unsupported (p : ParsedQuery) : BoundQueryPlan :=
  MkBoundQueryPlan (SyntaxNode_new (Some (pq_query_span p)) "bound.unsupported") []
    (BSetUnsupported "query has not been bound"
       (SyntaxNode_new (Some (pq_query_span p)) "bound.unsupported.body") ResultSchema_default)
    [] None None [] ResultSchema_default.

(** ** Bound queries *)

Record BoundQuery := {
  bound_parsed : ParsedQuery;
  bound_catalog_snapshot : option CatalogSnapshotId;
  bound_parameters : list ParameterBinding;
  bound_diagnostics : list QueryDiagnostic;
  bound_capability_requirements : CapabilityRequirements;
  bound_result_schema : ResultSchema;
  bound_provenance : ProvenanceReceipt;
  bound_plan : BoundQueryPlan
}.

Definition BoundQuery_new `{Blake3} (parsed : ParsedQuery) : BoundQuery :=
  {| bound_parsed := parsed; bound_catalog_snapshot := None; bound_parameters := [];
     bound_diagnostics := []; bound_capability_requirements := CapabilityRequirements_default;
     bound_result_schema := ResultSchema_default;
     bound_provenance := ProvenanceReceipt_for_query (pq_canonical_sql parsed) (pq_dialect parsed);
     bound_plan := BoundQueryPlan_unsupported parsed |}.

Section BoundQueryBuilders.
Variable b : BoundQuery.

Definition bound_with_catalog_snapshot (s : CatalogSnapshotId) : BoundQuery :=
  {| bound_parsed := bound_parsed b; bound_catalog_snapshot := Some s;
     bound_parameters := bound_parameters b; bound_diagnostics := bound_diagnostics b;
     bound_capability_requirements := bound_capability_requirements b;
     bound_result_schema := bound_result_schema b;
     bound_provenance := receipt_with_catalog_snapshot (bound_provenance b) s;
     bound_plan := bound_plan b |}.
Definition bound_with_parameters (ps : list ParameterBinding) : BoundQuery :=
  {| bound_parsed := bound_parsed b; bound_catalog_snapshot := bound_catalog_snapshot b;
     bound_parameters := ps; bound_diagnostics := bound_diagnostics b;
     bound_capability_requirements := bound_capability_requirements b;
     bound_result_schema := bound_result_schema b; bound_provenance := bound_provenance b;
     bound_plan := bound_plan b |}.
Definition bound_with_diagnostics (ds : list QueryDiagnostic) : BoundQuery :=
  {| bound_parsed := bound_parsed b; bound_catalog_snapshot := bound_catalog_snapshot b;
     bound_parameters := bound_parameters b; bound_diagnostics := ds;
     bound_capability_requirements := bound_capability_requirements b;
     bound_result_schema := bound_result_schema b; bound_provenance := bound_provenance b;
     bound_plan := bound_plan b |}.
Definition bound_with_capability_requirements (c : CapabilityRequirements) : BoundQuery :=
  {| bound_parsed := bound_parsed b; bound_catalog_snapshot := bound_catalog_snapshot b;
     bound_parameters := bound_parameters b; bound_diagnostics := bound_diagnostics b;
     bound_capability_requirements := c;
     bound_result_schema := bound_result_schema b; bound_provenance := bound_provenance b;
     bound_plan := bound_plan b |}.
Definition bound_with_result_schema (s : ResultSchema) : BoundQuery :=
  {| bound_parsed := bound_parsed b; bound_catalog_snapshot := bound_catalog_snapshot b;
     bound_parameters := bound_parameters b; bound_diagnostics := bound_diagnostics b;
     bound_capability_requirements := bound_capability_requirements b;
     bound_result_schema := s; bound_provenance := bound_provenance b;
     bound_plan := bound_plan b |}.
Definition bound_with_provenance (r : ProvenanceReceipt) : BoundQuery :=
  {| bound_parsed := bound_parsed b; bound_catalog_snapshot := bound_catalog_snapshot b;
     bound_parameters := bound_parameters b; bound_diagnostics := bound_diagnostics b;
     bound_capability_requirements := bound_capability_requirements b;
     bound_result_schema := bound_result_schema b; bound_provenance := r;
     bound_plan := bound_plan b |}.
Definition bound_with_plan (p : BoundQueryPlan) : BoundQuery :=
  {| bound_parsed := bound_parsed b; bound_catalog_snapshot := bound_catalog_snapshot b;
     bound_parameters := bound_parameters b; bound_diagnostics := bound_diagnostics b;
     bound_capability_requirements := bound_capability_requirements b;
     bound_result_schema := bq_result_schema p; bound_provenance := bound_provenance b;
     bound_plan := p |}.
End BoundQueryBuilders.
