(* ===== verification/Budget.v ===== *)
(** Compilation budgets: [queryfabric-ir/src/budget.rs].

    The measurements are [usize] counts of tree nodes that fit in memory, so
    they are unbounded [N] here. *)
From S2P Require Import Prelude BTreeMap Types Diagnostics Syntax Bound.
Local Open Scope N_scope.

(** ** Definitions *)

Definition dimension_to_string (d : QueryBudgetDimension) : string :=
  match d with
  | InputBytes => "input bytes"
  | Parameters => "parameters"
  | SyntaxNodes => "syntax nodes"
  | NestingDepth => "nesting depth"
  | JoinsDimension => "joins"
  | Ctes => "CTEs"
  end.

Record QueryBudget := {
  max_input_bytes : N;
  max_parameters : N;
  max_syntax_nodes : N;
  max_nesting_depth : N;
  max_joins : N;
  max_ctes : N
}.

Definition QueryBudget_default : QueryBudget :=
  {| max_input_bytes := 1024 * 1024; max_parameters := 256; max_syntax_nodes := 10000;
     max_nesting_depth := 64; max_joins := 256; max_ctes := 256 |}.

Record QueryBudgetUsage := {
  input_bytes : N;
  parameters : N;
  syntax_nodes : N;
  nesting_depth : N;
  joins : N;
  ctes : N
}.

Definition usage_default : QueryBudgetUsage :=
  {| input_bytes := 0; parameters := 0; syntax_nodes := 0; nesting_depth := 0; joins := 0; ctes := 0 |}.

(** The literal [QueryBudgetUsage { syntax_nodes: 1, nesting_depth: depth, ..default() }]. *)
Definition one_node (depth : N) : QueryBudgetUsage :=
  {| input_bytes := 0; parameters := 0; syntax_nodes := 1; nesting_depth := depth; joins := 0; ctes := 0 |}.

Definition merge (target source : QueryBudgetUsage) (extra_depth : N) : QueryBudgetUsage :=
  {| input_bytes := input_bytes target; parameters := parameters target;
     syntax_nodes := syntax_nodes target + syntax_nodes source;
     nesting_depth := N.max (nesting_depth target) (nesting_depth source + extra_depth);
     joins := joins target + joins source;
     ctes := ctes target + ctes source |}.

Definition add_syntax_node (u : QueryBudgetUsage) : QueryBudgetUsage :=
  {| input_bytes := input_bytes u; parameters := parameters u; syntax_nodes := syntax_nodes u + 1;
     nesting_depth := nesting_depth u; joins := joins u; ctes := ctes u |}.

Definition add_join (u : QueryBudgetUsage) : QueryBudgetUsage :=
  {| input_bytes := input_bytes u; parameters := parameters u; syntax_nodes := syntax_nodes u;
     nesting_depth := nesting_depth u; joins := joins u + 1; ctes := ctes u |}.

(** [for x in l { merge(&mut usage, f(x), 0) }] and its [if let Some] form. *)
Definition merge_each {A} (f : A → QueryBudgetUsage) (l : list A) (u : QueryBudgetUsage) : QueryBudgetUsage :=
  List.fold_left (λ u x, merge u (f x) 0) l u.

Definition merge_opt {A} (f : A → QueryBudgetUsage) (o : option A) (u : QueryBudgetUsage) : QueryBudgetUsage :=
  match o with Some x => merge u (f x) 0 | None => u end.

(** [measure_cte], over the recursive measure of its query. *)
Definition measure_cte (measure_query : SyntaxQuery → QueryBudgetUsage) (cte : SyntaxCte) : QueryBudgetUsage :=
  merge {| input_bytes := 0; parameters := 0; syntax_nodes := 1; nesting_depth := 0; joins := 0;
           ctes := vec_len (sq_ctes (cte_query cte)) |}
        (measure_query (cte_query cte)) 1.

Fixpoint measure_query (query : SyntaxQuery) : QueryBudgetUsage :=
  match query with
  | MkSyntaxQuery _ cs _ body order_by limit offset _ =>
      let usage := {| input_bytes := 0; parameters := 0; syntax_nodes := 1; nesting_depth := 0;
                      joins := 0; ctes := vec_len cs |} in
      let usage := List.fold_left (λ u cte, merge u (measure_cte measure_query cte) 1) cs usage in
      let usage := merge usage (measure_set_expr body 1) 0 in
      let usage := List.fold_left
        (λ u order, merge (add_syntax_node u) (measure_expr (ob_expr order) 1) 0) order_by usage in
      let usage := merge_opt (λ e, measure_expr e 1) limit usage in
      merge_opt (λ e, measure_expr e 1) offset usage
  end
with measure_set_expr (expr : SyntaxSetExpr) (depth : N) : QueryBudgetUsage :=
  match expr with
  | SSelect select =>
      let usage := one_node depth in
      let usage := List.fold_left
        (λ u item, let u := add_syntax_node u in
           match item with
           | PExpr details => merge u (measure_expr (pe_expr details) depth) 0
           | _ => u
           end) (sel_projection select) usage in
      let usage := merge_each (λ t, measure_table t depth) (sel_from select) usage in
      let usage := merge_opt (λ e, measure_expr e depth) (sel_selection select) usage in
      let usage := merge_each (λ e, measure_expr e depth) (sel_group_by select) usage in
      merge_opt (λ e, measure_expr e depth) (sel_having select) usage
  | SUnionAll lhs rhs _ =>
      let usage := merge (one_node depth) (measure_set_expr lhs (depth + 1)) 0 in
      merge usage (measure_set_expr rhs (depth + 1)) 0
  | SSetUnsupported _ _ => one_node depth
  end
with measure_table (table : SyntaxTableWithJoins) (depth : N) : QueryBudgetUsage :=
  match table with
  | MkSyntaxTableWithJoins relation js _ =>
      List.fold_left
        (λ u join, let u := add_syntax_node (add_join u) in
           let u := merge u (measure_relation (join_relation join) depth) 0 in
           merge_opt (λ e, measure_expr e depth) (join_on join) u)
        js (measure_relation relation depth)
  end
with measure_relation (relation : SyntaxRelation) (depth : N) : QueryBudgetUsage :=
  match relation with
  | STable _ _ _ | SRelUnsupported _ _ => one_node depth
  | SDerived query _ _ => merge (one_node depth) (measure_query query) (depth + 1)
  | SNestedJoin table_with_joins _ _ =>
      merge (one_node depth) (measure_table table_with_joins (depth + 1)) 0
  end
with measure_expr (expr : SyntaxExpr) (depth : N) : QueryBudgetUsage :=
  match expr with
  | MkSyntaxExpr kind _ => measure_expr_kind kind depth
  end
with measure_expr_kind (kind : SyntaxExprKind) (depth : N) : QueryBudgetUsage :=
  let usage := one_node depth in
  let sub e := measure_expr e (depth + 1) in
  match kind with
  | SUnary _ e | SIsNull e _ | SCast e _ => merge usage (sub e) 0
  | SBinary _ lhs rhs => merge (merge usage (sub lhs) 0) (sub rhs) 0
  | SFunction function =>
      let usage := merge_each sub (fc_args function) usage in
      let usage := merge_opt sub (fc_filter function) usage in
      match fc_over function with
      | Some window =>
          merge_each (λ o, sub (ob_expr o)) (win_order_by window)
            (merge_each sub (win_partition_by window) usage)
      | None => usage
      end
  | SCase operand when_then else_result =>
      let usage := merge_opt sub operand usage in
      let usage := List.fold_left
        (λ u pair, merge (merge u (sub (wt_condition pair)) 0) (sub (wt_result pair)) 0)
        when_then usage in
      merge_opt sub else_result usage
  | SBetween e low high _ => merge (merge (merge usage (sub e) 0) (sub low) 0) (sub high) 0
  | SInList e items _ => merge_each sub items (merge usage (sub e) 0)
  | SInSubquery e subquery _ => merge (merge usage (sub e) 0) (measure_query subquery) (depth + 1)
  | SScalarSubquery query | SExists query => merge usage (measure_query query) (depth + 1)
  | SLike e pattern _ _ => merge (merge usage (sub e) 0) (sub pattern) 0
  | STuple items | SArray items => merge_each sub items usage
  | SColumn _ _ | SLiteral _ | SParameter _ | SUnsupported _ => usage
  end.

Definition usage_for_parsed (parsed : ParsedQuery) : QueryBudgetUsage :=
  let usage := measure_query (pq_syntax parsed) in
  {| input_bytes := string_len (pq_source_sql parsed); parameters := parameters usage;
     syntax_nodes := syntax_nodes usage; nesting_depth := nesting_depth usage;
     joins := joins usage; ctes := ctes usage |}.

Definition usage_with_parameters (u : QueryBudgetUsage) (n : N) : QueryBudgetUsage :=
  {| input_bytes := input_bytes u; parameters := n; syntax_nodes := syntax_nodes u;
     nesting_depth := nesting_depth u; joins := joins u; ctes := ctes u |}.

(** The array of [check]: each dimension with its limit and its usage. *)
Definition limits (b : QueryBudget) (u : QueryBudgetUsage) : list (QueryBudgetDimension * N * N) :=
  [(InputBytes, max_input_bytes b, input_bytes u);
   (Parameters, max_parameters b, parameters u);
   (SyntaxNodes, max_syntax_nodes b, syntax_nodes u);
   (NestingDepth, max_nesting_depth b, nesting_depth u);
   (JoinsDimension, max_joins b, joins u);
   (Ctes, max_ctes b, ctes u)].

Fixpoint check_limits (l : list (QueryBudgetDimension * N * N)) : Result unit :=
  match l with
  | [] => Ok tt
  | (dimension, limit, actual) :: l =>
      if limit <? actual then Err (EBudgetExceeded dimension limit actual) else check_limits l
  end.

Definition check (b : QueryBudget) (u : QueryBudgetUsage) : Result unit := check_limits (limits b u).

(** ** Reference counts

    What a budget limits, counted on the tree without the accumulators of the
    code: [query_size] the expressions, [query_height] the expressions nested in
    one another, [query_joins] the joins and [query_ctes] the CTEs, each in all
    clauses, tables, CTEs and subqueries.  They are one fold over the tree, with
    the operation that combines the parts of a node and the weight of an
    expression, a join and a CTE. *)

Section Counts.
Variables (op : N → N → N) (expr_weight join_weight cte_weight : N).

Definition total_of {A} (f : A → N) (l : list A) : N := List.fold_right (λ x n, op (f x) n) 0 l.
Definition opt_of {A} (f : A → N) (o : option A) : N :=
  match o with Some x => f x | None => 0 end.

Fixpoint count_query (query : SyntaxQuery) : N :=
  match query with
  | MkSyntaxQuery _ cs _ body order_by limit offset _ =>
      op (total_of (λ c, cte_weight + count_query (cte_query c)) cs)
        (op (count_set_expr body)
          (op (total_of (λ o, count_expr (ob_expr o)) order_by)
            (op (opt_of count_expr limit) (opt_of count_expr offset))))
  end
with count_set_expr (expr : SyntaxSetExpr) : N :=
  match expr with
  | SSelect s =>
      op (total_of (λ i, match i with PExpr d => count_expr (pe_expr d) | _ => 0 end) (sel_projection s))
        (op (total_of count_table (sel_from s))
          (op (opt_of count_expr (sel_selection s))
            (op (total_of count_expr (sel_group_by s)) (opt_of count_expr (sel_having s)))))
  | SUnionAll lhs rhs _ => op (count_set_expr lhs) (count_set_expr rhs)
  | SSetUnsupported _ _ => 0
  end
with count_table (table : SyntaxTableWithJoins) : N :=
  match table with
  | MkSyntaxTableWithJoins relation js _ =>
      op (count_relation relation)
        (total_of (λ j, join_weight + op (count_relation (join_relation j)) (opt_of count_expr (join_on j))) js)
  end
with count_relation (relation : SyntaxRelation) : N :=
  match relation with
  | STable _ _ _ | SRelUnsupported _ _ => 0
  | SDerived query _ _ => count_query query
  | SNestedJoin t _ _ => count_table t
  end
with count_expr (expr : SyntaxExpr) : N :=
  match expr with MkSyntaxExpr kind _ => expr_weight + count_kind kind end
with count_kind (kind : SyntaxExprKind) : N :=
  match kind with
  | SUnary _ e | SIsNull e _ | SCast e _ => count_expr e
  | SBinary _ lhs rhs => op (count_expr lhs) (count_expr rhs)
  | SFunction f =>
      op (total_of count_expr (fc_args f))
        (op (opt_of count_expr (fc_filter f))
          (opt_of (λ w, op (total_of count_expr (win_partition_by w))
                          (total_of (λ o, count_expr (ob_expr o)) (win_order_by w))) (fc_over f)))
  | SCase operand when_then else_result =>
      op (opt_of count_expr operand)
        (op (total_of (λ p, op (count_expr (wt_condition p)) (count_expr (wt_result p))) when_then)
          (opt_of count_expr else_result))
  | SBetween e low high _ => op (count_expr e) (op (count_expr low) (count_expr high))
  | SInList e items _ => op (count_expr e) (total_of count_expr items)
  | SInSubquery e q _ => op (count_expr e) (count_query q)
  | SScalarSubquery q | SExists q => count_query q
  | SLike e pattern _ _ => op (count_expr e) (count_expr pattern)
  | STuple items | SArray items => total_of count_expr items
  | SColumn _ _ | SLiteral _ | SParameter _ | SUnsupported _ => 0
  end.
End Counts.

Definition query_size : SyntaxQuery → N := count_query N.add 1 0 0.
Definition query_joins : SyntaxQuery → N := count_query N.add 0 1 0.
Definition query_ctes : SyntaxQuery → N := count_query N.add 0 0 1.
Definition query_height : SyntaxQuery → N := count_query N.max 1 0 0.

(** ** The measurement bounds the counts

    A count is bounded by a relation [covers d u n] between a usage, measured
    at depth [d], and a number, if merging usages covers the combined numbers.
    There are two such relations: one for what is summed up, and one for what is
    nested.  The parts of an expression are merged into a usage that covers the
    expression itself, and lie a level deeper. *)

Inductive place := InExpr | InClause.
Definition level (i : place) : N := match i with InExpr => 1 | InClause => 0 end.
Definition base (expr_weight : N) (i : place) : N := match i with InExpr => expr_weight | InClause => 0 end.

Class Covering (op : N → N → N) (expr_weight join_weight cte_weight : N)
    (covers : N → QueryBudgetUsage → N → Prop) : Prop := {
  op_assoc : ∀ x y z, op (op x y) z = op x (op y z);
  op_0_l : ∀ x, op 0 x = x;
  op_0_r : ∀ x, op x 0 = x;
  op_join : ∀ x y, op y (join_weight + x) = op (op y join_weight) x;
  op_ctes : ∀ {A} (f : A → N) l,
    op (cte_weight * vec_len l) (total_of op f l) = total_of op (λ x, cte_weight + f x) l;
  covers_expr : ∀ d, covers d (one_node d) expr_weight;
  covers_clause : ∀ d, covers d (one_node d) 0;
  covers_ctes : ∀ u, covers 1 u (cte_weight * ctes u);
  covers_nothing : ∀ u, covers 1 u 0;
  covers_node : ∀ d u n, covers d u n → covers d (add_syntax_node u) n;
  covers_join : ∀ d u n, covers d u n → covers d (add_join u) (op n join_weight);
  covers_merge : ∀ i d u n d' s m k,
    covers d u (base expr_weight i + n) → covers d' s m → d + level i ≤ d' + k →
    covers d (merge u s k) (base expr_weight i + op n m)
}.

Section Covered.
Context {op : N → N → N} {we wj wc : N} {covers : N → QueryBudgetUsage → N → Prop}
  `{Laws : !Covering op we wj wc covers}.

Lemma covers_fold {A} i (step : QueryBudgetUsage → A → QueryBudgetUsage) (g : A → N) d l :
  Forall (λ x, ∀ u n, covers d u (base we i + n) → covers d (step u x) (base we i + op n (g x))) l →
  ∀ u n, covers d u (base we i + n) → covers d (List.fold_left step l u) (base we i + op n (total_of op g l)).
Proof.
  induction 1 as [|x l Hx _ IH]; intros u n Hu; simpl; [by rewrite op_0_r|].
  rewrite <- op_assoc. apply IH. by apply Hx.
Qed.

Lemma covers_each {A} i (f : A → QueryBudgetUsage) (g : A → N) d d' l u n :
  covers d u (base we i + n) → Forall (λ x, covers d' (f x) (g x)) l → d + level i ≤ d' →
  covers d (merge_each f l u) (base we i + op n (total_of op g l)).
Proof.
  intros Hu Hl Hd. apply covers_fold; [|done]. eapply Forall_impl; [exact Hl|]. intros x Hx v m Hv.
  eapply covers_merge; [done|exact Hx|lia].
Qed.

Lemma covers_opt {A} i (f : A → QueryBudgetUsage) (g : A → N) d d' o u n :
  covers d u (base we i + n) → opt_all (λ x, covers d' (f x) (g x)) o → d + level i ≤ d' →
  covers d (merge_opt f o u) (base we i + op n (opt_of g o)).
Proof.
  intros Hu Ho Hd. destruct o as [x|]; simpl; [|by rewrite op_0_r].
  eapply covers_merge; [done|by apply Ho|lia].
Qed.

Lemma covers_start i d : covers d (one_node d) (base we i + 0).
Proof. rewrite N.add_0_r. destruct i; [apply covers_expr|apply covers_clause]. Qed.

(** Read the parts of a node off the merges of its measure, from the last. *)
Ltac parts i :=
  lazymatch goal with
  | |- covers ?d ?u (we + ?n) => change (covers d u (base we i + n))
  | |- covers ?d ?u ?n => change (covers d u (base we i + n))
  end;
  match goal with |- covers _ _ (_ + ?n) => rewrite <- (op_0_l n) end;
  rewrite <- ?op_assoc;
  repeat first
    [ apply covers_start
    | eapply covers_each; [|eapply Forall_impl; [eassumption|by eauto]|simpl; lia]
    | eapply covers_opt; [|eapply opt_all_impl; [eassumption|by eauto]|simpl; lia]
    | eapply covers_merge; [|by eauto|simpl; lia] ].

Lemma counts_covered :
  (∀ q, covers 1 (measure_query q) (count_query op we wj wc q))
  ∧ (∀ s d, covers d (measure_set_expr s d) (count_set_expr op we wj wc s))
  ∧ (∀ t d, covers d (measure_table t d) (count_table op we wj wc t))
  ∧ (∀ r d, covers d (measure_relation r d) (count_relation op we wj wc r))
  ∧ (∀ e d, covers d (measure_expr e d) (count_expr op we wj wc e)).
Proof.
  apply Syntax_induction.
  - intros node cs r body ob lim off bc Hcs Hb Hob Hlim Hoff. cbn [measure_query count_query].
    rewrite <- op_ctes. parts InClause. apply covers_fold.
    { eapply Forall_impl; [exact Hob|]. intros o Ho u n Hu. eapply covers_merge; [|by eauto|simpl; lia]. by apply covers_node. }
    eapply covers_merge; [|by eauto|simpl; lia]. apply covers_fold.
    2: match goal with |- covers _ ?u _ => rewrite (op_0_l (op := op)); exact (covers_ctes u) end.
    eapply Forall_impl; [exact Hcs|]. intros c Hc u n Hu. eapply covers_merge with (d' := 1); [done| |simpl; lia].
    unfold measure_cte. rewrite <- (op_0_l (count_query _ _ _ _ _)).
    eapply (covers_merge InClause); [apply covers_nothing|exact Hc|simpl; lia].
  - intros s (Hp & Hf & Hs & Hg & Hh) d. cbn [measure_set_expr count_set_expr]. parts InClause.
    apply covers_fold; [|apply covers_start]. eapply Forall_impl; [exact Hp|]. intros i Hi u n Hu.
    destruct i as [|e|]; [rewrite op_0_r; by apply covers_node| |rewrite op_0_r; by apply covers_node].
    eapply covers_merge; [by apply covers_node|by apply Hi|simpl; lia].
  - intros lhs rhs node Hl Hr d. cbn [measure_set_expr count_set_expr]. parts InClause.
  - intros. apply covers_clause.
  - intros r js node Hr Hjs d. cbn [measure_table count_table]. apply (covers_fold InClause); [|apply Hr].
    eapply Forall_impl; [exact Hjs|]. intros j [Hj Hon] u n Hu. rewrite (op_join (op := op)), <- (op_assoc (op := op)).
    eapply covers_opt; [|eapply opt_all_impl; [exact Hon|by eauto]|simpl; lia].
    eapply covers_merge; [|by eauto|simpl; lia]. apply covers_node. exact (covers_join d u n Hu).
  - intros. apply covers_clause.
  - intros q a node Hq d. simpl. parts InClause.
  - intros t a node Ht d. simpl. parts InClause.
  - intros. apply covers_clause.
  - intros k node Hk d. cbn [measure_expr count_expr].
    destruct k; cbn [measure_expr_kind count_kind]; simpl in Hk; destruct_and?;
      first [exact (covers_start InExpr d) | solve [parts InExpr] | idtac].
    + destruct Hk as (Ha & Hf & Ho). destruct (fc_over function) as [w|]; cbn [opt_of]; rewrite ?op_0_r.
      * apply opt_all_Some in Ho as [Hp Hob]. parts InExpr.
      * parts InExpr.
    + match goal with H : Forall _ when_then |- _ => rename H into Hw end.
      parts InExpr.
      apply covers_fold; [|eapply covers_opt; [apply covers_start|eapply opt_all_impl; [eassumption|by eauto]|simpl; lia]].
      eapply Forall_impl; [exact Hw|]. intros p [Hc Hr] u n Hu.
      rewrite <- (op_assoc (op := op)). repeat (eapply covers_merge; [|by eauto|simpl; lia]). done.
Qed.
End Covered.

(** What is summed up. *)
Definition sums (expr_weight join_weight cte_weight d : N) (u : QueryBudgetUsage) (n : N) : Prop :=
  n ≤ expr_weight * syntax_nodes u + join_weight * joins u + cte_weight * ctes u.

#[export] Instance sums_cover we wj wc : Covering N.add we wj wc (sums we wj wc).
Proof.
  constructor; unfold sums; intros; simpl in *; try lia.
  - unfold vec_len. induction l as [|x l IH]; [cbn; lia|]. cbn [total_of List.fold_right length].
    unfold total_of in IH. rewrite <- IH. lia.
Qed.

(** What is nested: a usage measured at a depth reaches below it. *)
Definition reaches (d : N) (u : QueryBudgetUsage) (n : N) : Prop := n + d ≤ nesting_depth u + 1.

#[export] Instance heights_cover : Covering N.max 1 0 0 reaches.
Proof.
  constructor; unfold reaches; intros; simpl in *; try lia.
  - rewrite N.max_0_l. induction l as [|x l IH]; simpl; [done|]. by rewrite <- IH.
  - destruct i; simpl in *; lia.
Qed.

Lemma check_limits_ok l :
  check_limits l = Ok tt ↔ Forall (λ '(_, limit, actual), actual ≤ limit) l.
Proof.
  induction l as [|[[d lim] act] l IH]; simpl; [split; auto|].
  destruct (N.ltb_spec lim act); rewrite Forall_cons, <- IH; simpl; [|tauto].
  split; [done|]. lia.
Qed.

(** ** Properties *)

Lemma check_within b u :
  check b u = Ok tt ↔
  input_bytes u ≤ max_input_bytes b ∧ parameters u ≤ max_parameters b
  ∧ syntax_nodes u ≤ max_syntax_nodes b ∧ nesting_depth u ≤ max_nesting_depth b
  ∧ joins u ≤ max_joins b ∧ ctes u ≤ max_ctes b.
Proof. unfold check, limits. rewrite check_limits_ok, !Forall_cons, Forall_nil. tauto. Qed.

(** [QueryBudget::check] accepts exactly the usages that are within the
    limit in all six dimensions. *)
Theorem check_accepts_iff_within_limits (b : QueryBudget) (u : QueryBudgetUsage) :
  check b u = Ok tt ↔
  input_bytes u ≤ max_input_bytes b ∧ parameters u ≤ max_parameters b
  ∧ syntax_nodes u ≤ max_syntax_nodes b ∧ nesting_depth u ≤ max_nesting_depth b
  ∧ joins u ≤ max_joins b ∧ ctes u ≤ max_ctes b.
Proof. exact (check_within b u). Qed.

(** A rejection names the first dimension, in the order of the source,
    whose usage exceeds its limit, with that limit and that usage. *)
Theorem check_reports_first_exceeded (b : QueryBudget) (u : QueryBudgetUsage) e :
  check b u = Err e →
  ∃ before dimension limit actual after,
    limits b u = before ++ (dimension, limit, actual) :: after
    ∧ e = EBudgetExceeded dimension limit actual ∧ limit < actual
    ∧ Forall (λ '(_, l, a), a ≤ l) before.
Proof.
  unfold check. generalize (limits b u). intros l.
  induction l as [|[[d lim] act] l IH]; simpl; [done|].
  destruct (N.ltb_spec lim act) as [Hlt|Hge].
  - intros [= <-]. exists [], d, lim, act, l. auto.
  - intros (bf & d' & l' & a' & af & -> & -> & Hlt & Hf)%IH.
    exists ((d, lim, act) :: bf), d', l', a', af. auto.
Qed.

Example check_reports_first_exceeded_witness :
  let u := usage_with_parameters usage_default 300 in
  check QueryBudget_default u = Err (EBudgetExceeded Parameters 256 300) ∧
  ∃ before dimension limit actual after,
    limits QueryBudget_default u = before ++ (dimension, limit, actual) :: after
    ∧ EBudgetExceeded Parameters 256 300 = EBudgetExceeded dimension limit actual ∧ limit < actual
    ∧ Forall (λ '(_, l, a), a ≤ l) before.
Proof.
  split; [reflexivity|]. apply check_reports_first_exceeded. reflexivity.
Defined.

Lemma query_within b p n :
  check b (usage_with_parameters (usage_for_parsed p) n) = Ok tt →
  string_len (pq_source_sql p) ≤ max_input_bytes b ∧ n ≤ max_parameters b
  ∧ query_size (pq_syntax p) ≤ max_syntax_nodes b ∧ query_height (pq_syntax p) ≤ max_nesting_depth b
  ∧ query_joins (pq_syntax p) ≤ max_joins b ∧ query_ctes (pq_syntax p) ≤ max_ctes b.
Proof.
  intros (Hi & Hp & Hn & Hd & Hj & Hc)%check_within. simpl in *.
  pose proof (proj1 (counts_covered (Laws := sums_cover 1 0 0)) (pq_syntax p)) as H1.
  pose proof (proj1 (counts_covered (Laws := sums_cover 0 1 0)) (pq_syntax p)) as H2.
  pose proof (proj1 (counts_covered (Laws := sums_cover 0 0 1)) (pq_syntax p)) as H3.
  pose proof (proj1 (counts_covered (Laws := heights_cover)) (pq_syntax p)) as H4.
  unfold sums, reaches, query_size, query_height, query_joins, query_ctes in *. split_and!; lia.
Qed.

(** A query whose measured usage passes the check is within the budget by the
    reference counts: its text, its parameters, its expressions and how deep
    they are nested, its joins and its CTEs. *)
Theorem accepted_query_is_bounded (b : QueryBudget) (p : ParsedQuery) (n : N) :
  check b (usage_with_parameters (usage_for_parsed p) n) = Ok tt →
  string_len (pq_source_sql p) ≤ max_input_bytes b ∧ n ≤ max_parameters b
  ∧ query_size (pq_syntax p) ≤ max_syntax_nodes b ∧ query_height (pq_syntax p) ≤ max_nesting_depth b
  ∧ query_joins (pq_syntax p) ≤ max_joins b ∧ query_ctes (pq_syntax p) ≤ max_ctes b.
Proof. apply query_within. Qed.

(** Small queries for the witnesses: [SELECT 1], and a query over a CTE that
    itself declares a CTE. *)
Definition node0 : SyntaxNode := SyntaxNode_new None "n".
Definition lit (i : Z) : SyntaxExpr := MkSyntaxExpr (SLiteral (LInt64 i)) node0.
Definition select_of (items : list SyntaxExpr) : SyntaxSetExpr :=
  SSelect (MkSyntaxSelect false
    (List.map (λ e, PExpr (MkSyntaxProjectionExpr e None node0)) items) [] None [] None node0).
Definition query_of (cs : list SyntaxCte) (items : list SyntaxExpr) : SyntaxQuery :=
  MkSyntaxQuery node0 cs false (select_of items) [] None None [].
Definition nested_ctes : SyntaxQuery :=
  query_of [MkSyntaxCte "outer" []
              (query_of [MkSyntaxCte "inner" [] (query_of [] [lit 1]) node0] [lit 2]) node0]
           [lit 3].

Definition tuple_query : ParsedQuery :=
  with_syntax (ParsedQuery_new "sql" "SELECT (1, 2)" "SELECT (1, 2)")
    (query_of [] [MkSyntaxExpr (STuple [lit 1; lit 2]) node0]).

Example accepted_query_is_bounded_witness :
  check QueryBudget_default (usage_with_parameters (usage_for_parsed tuple_query) 0) = Ok tt
  ∧ query_size (pq_syntax tuple_query) = 3
  ∧ query_height (pq_syntax tuple_query) = 2
  ∧ query_ctes nested_ctes = 2
  ∧ string_len (pq_source_sql tuple_query) ≤ 1048576
  ∧ query_height (pq_syntax tuple_query) ≤ 64.
Proof.
  assert (check QueryBudget_default (usage_with_parameters (usage_for_parsed tuple_query) 0) = Ok tt) as H
    by (vm_compute; reflexivity).
  split; [exact H|]. split; [vm_compute; reflexivity|]. split; [vm_compute; reflexivity|]. split; [vm_compute; reflexivity|].
  destruct (accepted_query_is_bounded QueryBudget_default tuple_query 0 H) as (Hi & _ & _ & Hh & _).
  split; [exact Hi|exact Hh].
Defined.

Lemma ctes_fold {A} (step : QueryBudgetUsage → A → QueryBudgetUsage) l u :
  (∀ u x, ctes u ≤ ctes (step u x)) → ctes u ≤ ctes (List.fold_left step l u).
Proof.
  intros Hs. revert u. induction l as [|x l IH]; intros u; simpl; [lia|].
  etransitivity; [apply (Hs u x)|apply IH].
Qed.

Lemma ctes_merge_opt {A} (f : A → QueryBudgetUsage) o u : ctes u ≤ ctes (merge_opt f o u).
Proof. destruct o; simpl; lia. Qed.

Lemma own_ctes_counted q : vec_len (sq_ctes q) ≤ ctes (measure_query q).
Proof.
  destruct q as [node cs r body ob lim off bc]. cbn [sq_ctes measure_query].
  etransitivity; [|apply ctes_merge_opt]. etransitivity; [|apply ctes_merge_opt].
  etransitivity; [|apply ctes_fold; intros; simpl; lia].
  cbn [merge ctes]. etransitivity; [|apply N.le_add_r].
  etransitivity; [|apply ctes_fold; intros; simpl; lia]. simpl. lia.
Qed.

(** The CTEs declared inside a CTE are counted twice, once by
    [measure_cte] and once by the measure of its query: a query with two CTEs
    in all measures three, and the check refuses it under a limit of two. *)
Theorem nested_ctes_are_counted_twice :
  (∀ c, 2 * vec_len (sq_ctes (cte_query c)) ≤ ctes (measure_cte measure_query c))
  ∧ ctes (measure_query nested_ctes) = 3
  ∧ check {| max_input_bytes := 100; max_parameters := 10; max_syntax_nodes := 100;
             max_nesting_depth := 64; max_joins := 10; max_ctes := 2 |}
          (measure_query nested_ctes) = Err (EBudgetExceeded Ctes 2 3).
Proof.
  split; [|split; vm_compute; reflexivity].
  intros c. pose proof (own_ctes_counted (cte_query c)). simpl. lia.
Qed.
