(* ===== verification/Contract.v ===== *)
(** The shared vocabulary of the federation and access crates:
    [queryfabric-contract/src/] (identity.rs, stats.rs, cluster.rs, access.rs,
    provenance.rs). *)
From S2P Require Import Prelude BTreeMap.

(** ** [identity.rs] *)

(** 128 bits; the crates compare them, and use the all-zero one. *)
Definition Uuid : Type := N.
Definition Uuid_nil : Uuid := 0%N.

Record ResourceRef := { resource_namespace : Uuid; resource_uuid : Uuid }.

Definition ResourceRef_new (namespace id : Uuid) : ResourceRef :=
  {| resource_namespace := namespace; resource_uuid := id |}.

#[export] Instance ResourceRef_eq_dec : EqDecision ResourceRef.
Proof. solve_decision. Defined.
#[export] Program Instance ResourceRef_countable : Countable ResourceRef :=
  inj_countable' (λ r, (resource_namespace r, resource_uuid r)) (λ p, ResourceRef_new p.1 p.2) _.
Next Obligation. by intros []. Qed.

(** A newtype over [Uuid]. *)
Record NodeId := { node_uuid : Uuid }.

#[export] Instance NodeId_eq_dec : EqDecision NodeId.
Proof. solve_decision. Defined.
#[export] Program Instance NodeId_countable : Countable NodeId :=
  inj_countable' node_uuid (λ u, {| node_uuid := u |}) _.
Next Obligation. by intros []. Qed.

(** ** [stats.rs] *)

Record RelationStats := { rs_estimated_rows : N; rs_average_row_bytes : N }.

Definition StatisticsSource : Type := ResourceRef → option RelationStats.

(** ** [cluster.rs] *)

Inductive Health := Healthy | Degraded | Unreachable | Unknown.

#[export] Instance Health_eq_dec : EqDecision Health.
Proof. solve_decision. Defined.

Definition health_is_delegatable (h : Health) : bool :=
  match h with Healthy | Degraded => true | _ => false end.

Definition show_health (h : Health) : string :=
  match h with
  | Healthy => "healthy" | Degraded => "degraded" | Unreachable => "unreachable" | Unknown => "unknown"
  end.

Record ProbeResult (T : Type) := MkProbeResult { probe_health : Health; probe_output : T }.
Arguments MkProbeResult {T}. Arguments probe_health {T}. Arguments probe_output {T}.

(** ** [access.rs] *)

Record Subject := {
  subject_id : Uuid;
  registered : bool;
  attributes : BTreeMap string string
}.

Inductive AccessPolicy :=
| Open_
| Registered
| Restricted (data_use_restrictions : list string).

Inductive AccessOutcome :=
| Allow
| Deny (reason : string).

Definition is_allowed (o : AccessOutcome) : bool :=
  match o with Allow => true | Deny _ => false end.

(** ** [provenance.rs] *)

Inductive Activity :=
| ACreated
| ADeleted (reason : string)
| ARestored
| AAccessed (rows : N)
| AModified (field : string)
| AOwnershipTransferred (from to : Uuid)
| AContentHashRecorded (algo hash : string)
| AFederationFlow (nodes : list NodeId) (latencies_ms : list N)
| ABackupAnchor (location content_hash : string).

Definition activity_tag (a : Activity) : string :=
  match a with
  | ACreated => "created"
  | ADeleted _ => "deleted"
  | ARestored => "restored"
  | AAccessed _ => "accessed"
  | AModified _ => "modified"
  | AOwnershipTransferred _ _ => "ownership_transferred"
  | AContentHashRecorded _ _ => "content_hash_recorded"
  | AFederationFlow _ _ => "federation_flow"
  | ABackupAnchor _ _ => "backup_anchor"
  end.
