(* ===== verification/Catalog.v ===== *)
(** Catalogs: relation schemas, function signatures, the portable builtins, the
    [Catalog] interface, the in-memory catalog and the statistics overlay.

    Sources: [queryfabric-catalog/src/model.rs] (up to the cost model, which is
    in [Cost.v]), [builtins.rs] and [stats_source.rs]. *)
From S2P Require Import Prelude BTreeMap Types Diagnostics Contract.

(** ** Schemas and signatures *)

Inductive RelationKind := RTable | RView | RMaterializedView.

Record ColumnSchema := {
  column_name : string;
  column_type : DataType;
  column_nullable : bool;
  column_metadata : FieldMetadata
}.

Definition to_result_field (c : ColumnSchema) : ResultField :=
  MkField (column_name c) (column_type c) (column_nullable c) (column_metadata c).

Record RelationSchema := {
  rel_namespace : option string;
  rel_name : string;
  rel_aliases : list string;
  rel_kind : RelationKind;
  rel_columns : list ColumnSchema;
  rel_metadata : BTreeMap string string
}.

Definition to_result_schema (r : RelationSchema) : ResultSchema :=
  ResultSchema_new (List.map to_result_field (rel_columns r)).

Inductive FunctionKind := FScalar | FAggregate | FWindow.

#[export] Instance FunctionKind_eq_dec : EqDecision FunctionKind.
Proof. solve_decision. Defined.

Inductive FunctionVolatility := Immutable | Stable | Volatile.

Record TypeCoercionRule := { coerce_from : DataType; coerce_to : DataType; implicit : bool }.

Record BackendFunctionMapping := {
  map_backend : string;
  map_namespace : option string;
  map_name : string
}.

Definition as_function_ref (m : BackendFunctionMapping) : FunctionRef :=
  {| fn_namespace := map_namespace m; fn_name := map_name m |}.

Record FunctionSignature := {
  sig_namespace : option string;
  sig_name : string;
  sig_kind : FunctionKind;
  sig_volatility : FunctionVolatility;
  sig_arg_types : list DataType;
  sig_return_type : DataType;
  sig_variadic : bool;
  sig_coercions : list TypeCoercionRule;
  sig_backend_mappings : list BackendFunctionMapping;
  sig_metadata : BTreeMap string string
}.

Definition function_ref (s : FunctionSignature) : FunctionRef :=
  {| fn_namespace := sig_namespace s; fn_name := sig_name s |}.

Definition backend_mapping (s : FunctionSignature) (backend : string) : option FunctionRef :=
  as_function_ref <$> List.find (λ m, String.eqb (map_backend m) backend) (sig_backend_mappings s).

Definition metadata_flag (s : FunctionSignature) (key : string) : bool :=
  match bt_get key (sig_metadata s) with Some value => String.eqb value "true" | None => false end.

(** ** Builtins *)

Definition mapping (backend name : string) : BackendFunctionMapping :=
  {| map_backend := backend; map_namespace := None; map_name := name |}.

Definition builtin_scalar (name : string) (return_type : DataType) (variadic : bool) : FunctionSignature :=
  {| sig_namespace := None; sig_name := name; sig_kind := FScalar; sig_volatility := Immutable;
     sig_arg_types := []; sig_return_type := return_type; sig_variadic := variadic;
     sig_coercions := [];
     sig_backend_mappings := [mapping "clickhouse" name; mapping "postgres" name];
     sig_metadata := [] |}.

Definition builtin_aggregate (name : string) (return_type : DataType) : FunctionSignature :=
  {| sig_namespace := None; sig_name := name; sig_kind := FAggregate; sig_volatility := Immutable;
     sig_arg_types := []; sig_return_type := return_type; sig_variadic := true;
     sig_coercions := [];
     sig_backend_mappings := [mapping "clickhouse" name; mapping "postgres" name];
     sig_metadata := [] |}.

Definition builtin_clickhouse_aggregate (name : string) (return_type : DataType) : FunctionSignature :=
  {| sig_namespace := None; sig_name := name; sig_kind := FAggregate; sig_volatility := Immutable;
     sig_arg_types := []; sig_return_type := return_type; sig_variadic := true;
     sig_coercions := []; sig_backend_mappings := [mapping "clickhouse" name];
     sig_metadata := [] |}.

Definition builtin_clickhouse_scalar (name : string) (return_type : DataType) (variadic : bool) : FunctionSignature :=
  {| sig_namespace := None; sig_name := name; sig_kind := FScalar; sig_volatility := Immutable;
     sig_arg_types := []; sig_return_type := return_type; sig_variadic := variadic;
     sig_coercions := []; sig_backend_mappings := [mapping "clickhouse" name];
     sig_metadata := [] |}.

Definition builtin_clickhouse_extension (namespace name clickhouse_name : string)
    (return_type : DataType) : FunctionSignature :=
  {| sig_namespace := Some namespace; sig_name := name; sig_kind := FAggregate;
     sig_volatility := Immutable; sig_arg_types := []; sig_return_type := return_type;
     sig_variadic := true; sig_coercions := [];
     sig_backend_mappings := [mapping "clickhouse" clickhouse_name]; sig_metadata := [] |}.

Definition builtin_window (name : string) (return_type : DataType) : FunctionSignature :=
  {| sig_namespace := None; sig_name := name; sig_kind := FWindow; sig_volatility := Immutable;
     sig_arg_types := []; sig_return_type := return_type; sig_variadic := true;
     sig_coercions := [];
     sig_backend_mappings := [mapping "clickhouse" name; mapping "postgres" name];
     sig_metadata := [] |}.

Definition with_args (s : FunctionSignature) (arg_types : list DataType) : FunctionSignature :=
  {| sig_namespace := sig_namespace s; sig_name := sig_name s; sig_kind := sig_kind s;
     sig_volatility := sig_volatility s; sig_arg_types := arg_types;
     sig_return_type := sig_return_type s; sig_variadic := sig_variadic s;
     sig_coercions := sig_coercions s; sig_backend_mappings := sig_backend_mappings s;
     sig_metadata := sig_metadata s |}.

Definition with_metadata_flag (s : FunctionSignature) (key : string) : FunctionSignature :=
  {| sig_namespace := sig_namespace s; sig_name := sig_name s; sig_kind := sig_kind s;
     sig_volatility := sig_volatility s; sig_arg_types := sig_arg_types s;
     sig_return_type := sig_return_type s; sig_variadic := sig_variadic s;
     sig_coercions := sig_coercions s; sig_backend_mappings := sig_backend_mappings s;
     sig_metadata := bt_insert key "true" (sig_metadata s) |}.

Definition portable_builtin_functions : list FunctionSignature :=
  [ builtin_scalar "coalesce" TUnknown true;
    with_args (builtin_scalar "sqrt" TFloat64 false) [TFloat64];
    builtin_clickhouse_scalar "toString" TUtf8 false;
    builtin_scalar "greatest" TUnknown true;
    builtin_scalar "least" TUnknown true;
    builtin_aggregate "count" TInt64;
    builtin_aggregate "sum" TFloat64;
    builtin_aggregate "avg" TFloat64;
    builtin_aggregate "min" TUnknown;
    builtin_aggregate "max" TUnknown;
    builtin_window "rank" TInt64;
    builtin_window "dense_rank" TInt64;
    builtin_window "row_number" TInt64;
    builtin_window "lag" TUnknown;
    builtin_window "lead" TUnknown;
    builtin_window "first_value" TUnknown;
    builtin_window "last_value" TUnknown;
    with_metadata_flag (builtin_clickhouse_aggregate "quantile" TFloat64) "approximate";
    with_metadata_flag (builtin_clickhouse_extension "ch" "quantile_25" "quantile(0.25)" TFloat64) "approximate";
    with_metadata_flag (builtin_clickhouse_extension "ch" "quantile_50" "quantile(0.5)" TFloat64) "approximate";
    with_metadata_flag (builtin_clickhouse_extension "ch" "quantile_75" "quantile(0.75)" TFloat64) "approximate";
    with_metadata_flag (builtin_clickhouse_extension "ch" "avg_merge" "avgMerge" TFloat64) "state";
    with_metadata_flag (builtin_clickhouse_extension "ch" "count_merge" "countMerge" TInt64) "state";
    with_metadata_flag (builtin_clickhouse_extension "ch" "min_merge" "minMerge" TUnknown) "state";
    with_metadata_flag (builtin_clickhouse_extension "ch" "max_merge" "maxMerge" TUnknown) "state";
    with_metadata_flag (builtin_clickhouse_extension "ch" "stddevpop_merge" "stddevPopMerge" TFloat64) "state";
    with_metadata_flag (builtin_clickhouse_extension "ch" "sum_merge" "sumMerge" TFloat64) "state";
    with_metadata_flag (builtin_clickhouse_extension "ch" "varpop_merge" "varPopMerge" TFloat64) "state" ].

Definition builtin_function_signature (namespace : option string) (name : string) : option FunctionSignature :=
  List.find (λ s, bool_decide (sig_namespace s = namespace) && eq_ignore_ascii_case (sig_name s) name)
    portable_builtin_functions.

(** ** Relation statistics *)

Record RelationStatistics := {
  st_relation : string;
  estimated_rows : N;
  average_row_bytes : N;
  shard_count : option N
}.

(** [str::parse] into an unsigned integer of maximum [max]: an optional sign,
    then at least one digit and only digits, without overflow. *)
Fixpoint parse_digits (s : string) (acc : N) : option N :=
  match s with
  | EmptyString => Some acc
  | String c s =>
      let n := Ascii.N_of_ascii c in
      if (48 <=? n)%N && (n <=? 57)%N then parse_digits s (acc * 10 + (n - 48))%N else None
  end.

Definition parse_unsigned (max : N) (s : string) : option N :=
  let digits := match s with
                | String c rest => if Ascii.eqb c (Ascii.ascii_of_N 43) then rest else s
                | EmptyString => s
                end in
  match digits with
  | EmptyString => None
  | _ => match parse_digits digits 0 with
         | Some n => if (n <=? max)%N then Some n else None
         | None => None
         end
  end.

Fixpoint find_map {A B} (f : A → option B) (l : list A) : option B :=
  match l with
  | [] => None
  | x :: l => match f x with Some y => Some y | None => find_map f l end
  end.

Definition metadata_u64 (metadata : BTreeMap string string) (keys : list string) : option N :=
  match find_map (λ key, bt_get key metadata) keys with
  | Some value => parse_unsigned u64_max value
  | None => None
  end.

Definition metadata_u32 (metadata : BTreeMap string string) (keys : list string) : option N :=
  match find_map (λ key, bt_get key metadata) keys with
  | Some value => parse_unsigned u32_max value
  | None => None
  end.

Definition relation_statistics_from_schema (relation : RelationSchema) : option RelationStatistics :=
  match metadata_u64 (rel_metadata relation) ["estimated_rows"; "row_count"; "rows"] with
  | None => None
  | Some rows =>
      Some {| st_relation := rel_name relation;
              estimated_rows := rows;
              average_row_bytes :=
                default 64%N (metadata_u64 (rel_metadata relation)
                                ["average_row_bytes"; "avg_row_bytes"; "row_bytes"]);
              shard_count := metadata_u32 (rel_metadata relation) ["shard_count"; "shards"] |}
  end.

(** ** The catalog interface

    The traits [FunctionRegistry] and [Catalog], as the record of their
    operations; a [&dyn Catalog] is a value of it. *)
Record Catalog := {
  resolve_function : option string → string → option FunctionSignature;
  functions : list FunctionSignature;
  cat_snapshot_id : CatalogSnapshotId;
  resolve_relation : option string → string → option RelationSchema;
  relations : list RelationSchema;
  relation_statistics : option string → string → option RelationStatistics
}.

(** The provided method of the trait. *)
Definition default_relation_statistics
    (resolve : option string → string → option RelationSchema)
    (namespace : option string) (name : string) : option RelationStatistics :=
  match resolve namespace name with
  | Some relation => relation_statistics_from_schema relation
  | None => None
  end.

Record CatalogDocument := {
  doc_snapshot_id : CatalogSnapshotId;
  doc_relations : list RelationSchema;
  doc_functions : list FunctionSignature
}.

(** ** The in-memory catalog *)

Abbreviation CatalogKey := (option string * string)%type.

Record MemoryCatalog := {
  mc_snapshot_id : CatalogSnapshotId;
  mc_relations : BTreeMap CatalogKey RelationSchema;
  mc_functions : BTreeMap CatalogKey FunctionSignature;
  mc_statistics : BTreeMap CatalogKey RelationStatistics
}.

Definition MemoryCatalog_default : MemoryCatalog :=
  {| mc_snapshot_id := {| snapshot_text := "memory-catalog" |};
     mc_relations := []; mc_functions := []; mc_statistics := [] |}.

Definition set_snapshot_id (c : MemoryCatalog) (id : string) : MemoryCatalog :=
  {| mc_snapshot_id := {| snapshot_text := id |}; mc_relations := mc_relations c;
     mc_functions := mc_functions c; mc_statistics := mc_statistics c |}.

Definition relation_key (r : RelationSchema) : CatalogKey :=
  (rel_namespace r, to_ascii_lowercase (rel_name r)).
Definition function_key (s : FunctionSignature) : CatalogKey :=
  (sig_namespace s, to_ascii_lowercase (sig_name s)).

Definition register_relation (c : MemoryCatalog) (r : RelationSchema) : MemoryCatalog :=
  {| mc_snapshot_id := mc_snapshot_id c;
     mc_relations := bt_insert (relation_key r) r (mc_relations c);
     mc_functions := mc_functions c; mc_statistics := mc_statistics c |}.

Definition register_function (c : MemoryCatalog) (s : FunctionSignature) : MemoryCatalog :=
  {| mc_snapshot_id := mc_snapshot_id c; mc_relations := mc_relations c;
     mc_functions := bt_insert (function_key s) s (mc_functions c);
     mc_statistics := mc_statistics c |}.

Definition mc_resolve_function (c : MemoryCatalog) (namespace : option string) (name : string)
    : option FunctionSignature :=
  option_or_else (bt_get (namespace, to_ascii_lowercase name) (mc_functions c))
                 (builtin_function_signature namespace name).

(** The map of [functions()] before [into_values]. *)
Definition mc_all_functions (c : MemoryCatalog) : BTreeMap CatalogKey FunctionSignature :=
  foldl (λ m kv, bt_insert kv.1 kv.2 m)
    (bt_from_list (List.map (λ s, (function_key s, s)) portable_builtin_functions))
    (mc_functions c).

Definition mc_function_list (c : MemoryCatalog) : list FunctionSignature :=
  bt_values (mc_all_functions c).

Definition mc_resolve_relation (c : MemoryCatalog) (namespace : option string) (name : string)
    : option RelationSchema :=
  match bt_get (namespace, to_ascii_lowercase name) (mc_relations c) with
  | Some relation => Some relation
  | None =>
      List.find (λ r, eq_ignore_ascii_case (rel_name r) name
                      || existsb (λ a, eq_ignore_ascii_case a name) (rel_aliases r))
        (bt_values (mc_relations c))
  end.

Definition mc_relation_list (c : MemoryCatalog) : list RelationSchema := bt_values (mc_relations c).

Definition set_relation_statistics (c : MemoryCatalog) (namespace : option string) (name : string)
    (statistics : RelationStatistics) : MemoryCatalog :=
  let key := match mc_resolve_relation c namespace name with
             | Some relation => relation_key relation
             | None => (namespace, to_ascii_lowercase name)
             end in
  {| mc_snapshot_id := mc_snapshot_id c; mc_relations := mc_relations c;
     mc_functions := mc_functions c; mc_statistics := bt_insert key statistics (mc_statistics c) |}.

Definition mc_relation_statistics (c : MemoryCatalog) (namespace : option string) (name : string)
    : option RelationStatistics :=
  match mc_resolve_relation c namespace name with
  | None => None
  | Some relation =>
      match bt_get (relation_key relation) (mc_statistics c) with
      | Some statistics => Some statistics
      | None => relation_statistics_from_schema relation
      end
  end.

(** The implementation of the interface. *)
Definition memory_catalog (c : MemoryCatalog) : Catalog :=
  {| resolve_function := mc_resolve_function c;
     functions := mc_function_list c;
     cat_snapshot_id := mc_snapshot_id c;
     resolve_relation := mc_resolve_relation c;
     relations := mc_relation_list c;
     relation_statistics := mc_relation_statistics c |}.

Definition to_document (c : MemoryCatalog) : CatalogDocument :=
  {| doc_snapshot_id := mc_snapshot_id c; doc_relations := mc_relation_list c;
     doc_functions := mc_function_list c |}.

Definition from_document (d : CatalogDocument) : MemoryCatalog :=
  let catalog := {| mc_snapshot_id := doc_snapshot_id d; mc_relations := []; mc_functions := [];
                    mc_statistics := [] |} in
  let catalog := foldl register_relation catalog (doc_relations d) in
  foldl register_function catalog (doc_functions d).

(** ** The statistics overlay

    The statistics of resources come from the host, through the contract. *)

Definition relation_statistics_from_source (source : StatisticsSource) (resource : ResourceRef)
    (relation : string) : option RelationStatistics :=
  match source resource with
  | None => None
  | Some stats =>
      Some {| st_relation := relation; estimated_rows := rs_estimated_rows stats;
              average_row_bytes := rs_average_row_bytes stats; shard_count := None |}
  end.

Record StatisticsOverlayCatalog := {
  ov_inner : Catalog;
  ov_source : StatisticsSource;
  ov_bindings : BTreeMap CatalogKey ResourceRef
}.

Definition overlay_new (inner : Catalog) (source : StatisticsSource) : StatisticsOverlayCatalog :=
  {| ov_inner := inner; ov_source := source; ov_bindings := [] |}.

Definition bind_resource (o : StatisticsOverlayCatalog) (namespace : option string) (name : string)
    (resource : ResourceRef) : StatisticsOverlayCatalog :=
  {| ov_inner := ov_inner o; ov_source := ov_source o;
     ov_bindings := bt_insert (namespace, to_ascii_lowercase name) resource (ov_bindings o) |}.

Definition ov_relation_statistics (o : StatisticsOverlayCatalog) (namespace : option string)
    (name : string) : option RelationStatistics :=
  option_or_else
    (match bt_get (namespace, to_ascii_lowercase name) (ov_bindings o) with
     | Some resource => relation_statistics_from_source (ov_source o) resource name
     | None => None
     end)
    (relation_statistics (ov_inner o) namespace name).

Definition overlay_catalog (o : StatisticsOverlayCatalog) : Catalog :=
  {| resolve_function := resolve_function (ov_inner o);
     functions := functions (ov_inner o);
     cat_snapshot_id := cat_snapshot_id (ov_inner o);
     resolve_relation := resolve_relation (ov_inner o);
     relations := relations (ov_inner o);
     relation_statistics := ov_relation_statistics o |}.
