(* ===== verification/CatalogFacts.v ===== *)
(** Properties of the in-memory catalog and of the statistics overlay. *)
From S2P Require Import Prelude BTreeMap Types Diagnostics Catalog.

(** ** Case-insensitive names *)

Lemma eq_ignore_ascii_case_true a b :
  eq_ignore_ascii_case a b = true ↔ to_ascii_lowercase a = to_ascii_lowercase b.
Proof. apply String.eqb_eq. Qed.

Lemma eq_ignore_ascii_case_refl a : eq_ignore_ascii_case a a = true.
Proof. by apply eq_ignore_ascii_case_true. Qed.

Lemma eq_ignore_ascii_case_sym a b : eq_ignore_ascii_case a b = eq_ignore_ascii_case b a.
Proof. apply String.eqb_sym. Qed.

(** ** The representation invariant of the in-memory catalog

    Maps are ordered, and every entry is stored under its own key. *)
Definition keyed {K V} `{RustOrd K} (key : V → K) (m : BTreeMap K V) : Prop :=
  bt_wf m ∧ ∀ k v, (k, v) ∈ m → k = key v.

Definition mc_wf (c : MemoryCatalog) : Prop :=
  keyed relation_key (mc_relations c) ∧ keyed function_key (mc_functions c).

Section Keyed.
Context {K V : Type} `{RustOrd K} (key : V → K).
Implicit Types (m : BTreeMap K V).

Lemma keyed_nil : keyed key [].
Proof. split; [constructor|]. intros ?? []%not_elem_of_nil. Qed.

Lemma elem_of_bt_insert k v m k' v' :
  bt_wf m → (k', v') ∈ bt_insert k v m → (k', v') = (k, v) ∨ (k', v') ∈ m.
Proof.
  intros Hwf Hin. destruct (decide (k' = k)) as [->|Hne].
  - apply bt_get_elem in Hin; [|by apply bt_wf_insert].
    rewrite bt_get_insert_eq in Hin. left. congruence.
  - right. apply bt_get_Some_elem. rewrite <- (bt_get_insert_ne k k' v m) by congruence.
    apply bt_get_elem; [by apply bt_wf_insert|done].
Qed.

Lemma keyed_insert v m : keyed key m → keyed key (bt_insert (key v) v m).
Proof.
  intros [Hwf Hk]. split; [by apply bt_wf_insert|]. intros k' v' Hin.
  apply elem_of_bt_insert in Hin as [[= -> ->]|Hin]; auto.
Qed.

Lemma keyed_insert_all l m :
  keyed key m → keyed key (foldl (λ m v, bt_insert (key v) v m) m l).
Proof. revert m. induction l as [|v l IH]; intros m Hm; simpl; [done|]. by apply IH, keyed_insert. Qed.

(** Lookups after registering a list: the last value with the key wins. *)
Lemma get_insert_all l m k :
  bt_get k (foldl (λ m v, bt_insert (key v) v m) m l)
  = option_or_else (last (List.filter (λ v, bool_decide (key v = k)) l)) (bt_get k m).
Proof.
  induction l as [|v l IH] using rev_ind; [done|].
  rewrite foldl_app, List.filter_app. simpl.
  case_bool_decide as E; simpl.
  - rewrite last_snoc, <- E. apply bt_get_insert_eq.
  - rewrite app_nil_r, bt_get_insert_ne by done. apply IH.
Qed.

(** Registering the values of a keyed map over a map gives the union, the
    registered entries first. *)
Lemma get_insert_values m1 m2 k :
  keyed key m2 →
  bt_get k (foldl (λ m v, bt_insert (key v) v m) m1 (bt_values m2))
  = option_or_else (bt_get k m2) (bt_get k m1).
Proof.
  intros [Hwf Hk]. rewrite get_insert_all. f_equal. unfold bt_values.
  induction m2 as [|[k2 v2] m2 IH]; [done|].
  apply bt_wf_cons_inv in Hwf as [Hwf Hlt].
  assert (Hv : k2 = key v2) by (apply Hk; apply elem_of_cons; by left).
  assert (IH' := IH Hwf ltac:(intros; apply Hk; apply elem_of_cons; by right)).
  rewrite bt_get_cons, fmap_cons. cbn [List.filter snd]. rewrite <- Hv. case_decide as E.
  - subst k. rewrite bool_decide_true by done. rewrite (bt_get_below k2 m2 Hlt) in IH'.
    rewrite last_cons. by rewrite IH'.
  - by rewrite bool_decide_false by congruence.
Qed.

Lemma insert_all_id m1 m2 :
  keyed key m2 → bt_wf m1 → (∀ k, is_Some (bt_get k m1) → is_Some (bt_get k m2)) →
  foldl (λ m v, bt_insert (key v) v m) m1 (bt_values m2) = m2.
Proof.
  intros Hk Hw Hsub. apply bt_ext; [|apply Hk|].
  - clear -Hw. generalize (bt_values m2). intros l. revert m1 Hw.
    induction l; simpl; auto with btree.
  - intros k. rewrite get_insert_values by done. specialize (Hsub k).
    destruct (bt_get k m2); [done|]. simpl. destruct (bt_get k m1); [|done].
    destruct Hsub as [? [=]]. by eexists.
Qed.
End Keyed.

(** ** The builtins as a keyed map *)

Definition builtin_map : BTreeMap CatalogKey FunctionSignature :=
  bt_from_list (List.map (λ s, (function_key s, s)) portable_builtin_functions).

Lemma foldl_map_key {V} (key : V → CatalogKey) (l : list V) m :
  foldl (λ m kv, bt_insert kv.1 kv.2 m) m (List.map (λ v, (key v, v)) l)
  = foldl (λ m v, bt_insert (key v) v m) m l.
Proof. revert m. induction l as [|v l IH]; intros m; simpl; [done|apply IH]. Qed.

Lemma foldl_keyed {V} (key : V → CatalogKey) (m2 : BTreeMap CatalogKey V) m :
  (∀ k v, (k, v) ∈ m2 → k = key v) →
  foldl (λ m kv, bt_insert kv.1 kv.2 m) m m2
  = foldl (λ m v, bt_insert (key v) v m) m (bt_values m2).
Proof.
  revert m. induction m2 as [|[k v] m2 IH]; intros m Hk; [done|].
  unfold bt_values. rewrite fmap_cons. cbn [foldl fst snd].
  rewrite <- (Hk k v) by (apply elem_of_cons; by left). apply IH.
  intros. apply Hk. apply elem_of_cons. by right.
Qed.

Lemma builtin_map_keyed : keyed function_key builtin_map.
Proof.
  unfold builtin_map, bt_from_list. rewrite foldl_map_key. apply keyed_insert_all, keyed_nil.
Qed.

(** No two builtins share a key, so the lookup by name and the map agree. *)
Lemma builtin_lookup ns name :
  builtin_function_signature ns name = bt_get (ns, to_ascii_lowercase name) builtin_map.
Proof.
  unfold builtin_map, bt_from_list. rewrite foldl_map_key, get_insert_all. simpl (bt_get _ []).
  unfold builtin_function_signature.
  assert (Hd : NoDup (List.map function_key portable_builtin_functions)).
  { apply (bool_decide_eq_true_1 (NoDup (List.map function_key portable_builtin_functions))).
    vm_compute. reflexivity. }
  induction portable_builtin_functions as [|s l IH]; [done|].
  cbn [List.find List.filter List.map] in *. apply NoDup_cons in Hd as [Hni Hd].
  specialize (IH Hd). unfold eq_ignore_ascii_case.
  case_bool_decide as E1; simpl.
  - destruct (String.eqb_spec (to_ascii_lowercase (sig_name s)) (to_ascii_lowercase name)) as [E2|E2].
    + rewrite bool_decide_true by (unfold function_key; congruence).
      assert (Hn : List.filter (λ v, bool_decide (function_key v = (ns, to_ascii_lowercase name))) l = []).
      { destruct (List.filter _ l) as [|v l'] eqn:Ef; [done|].
        assert (Hv : In v (v :: l')) by (by left). rewrite <- Ef in Hv.
        apply filter_In in Hv as [Hv Hk%bool_decide_eq_true]. destruct Hni.
        apply list_elem_of_In, in_map_iff. exists v. split; [|done].
        rewrite Hk. unfold function_key. congruence. }
      by rewrite Hn.
    + rewrite bool_decide_false by (unfold function_key; congruence). exact IH.
  - rewrite bool_decide_false by (unfold function_key; congruence). exact IH.
Qed.

Lemma all_functions_get c k :
  mc_wf c → bt_get k (mc_all_functions c) = option_or_else (bt_get k (mc_functions c)) (bt_get k builtin_map).
Proof.
  intros [_ Hf]. unfold mc_all_functions.
  rewrite (foldl_keyed function_key) by apply Hf. by apply get_insert_values.
Qed.

Lemma all_functions_keyed c : mc_wf c → keyed function_key (mc_all_functions c).
Proof.
  intros [_ Hf]. unfold mc_all_functions. rewrite (foldl_keyed function_key) by apply Hf.
  apply keyed_insert_all, builtin_map_keyed.
Qed.

Lemma resolve_function_get c ns name :
  mc_wf c → mc_resolve_function c ns name = bt_get (ns, to_ascii_lowercase name) (mc_all_functions c).
Proof. intros Hwf. by rewrite all_functions_get, <- builtin_lookup. Qed.

(** ** The invariant is established and preserved *)

Lemma mc_wf_default : mc_wf MemoryCatalog_default.
Proof. split; apply keyed_nil. Qed.

Lemma mc_wf_register_relation c r : mc_wf c → mc_wf (register_relation c r).
Proof. intros []. split; [by apply keyed_insert|done]. Qed.

Lemma mc_wf_register_function c s : mc_wf c → mc_wf (register_function c s).
Proof. intros []. split; [done|by apply keyed_insert]. Qed.

Lemma from_document_relations c l :
  mc_relations (foldl register_relation c l)
  = foldl (λ m r, bt_insert (relation_key r) r m) (mc_relations c) l.
Proof. revert c. induction l as [|r l IH]; intros c; simpl; [done|apply IH]. Qed.

Lemma from_document_functions c l :
  mc_functions (foldl register_function c l)
  = foldl (λ m s, bt_insert (function_key s) s m) (mc_functions c) l.
Proof. revert c. induction l as [|s l IH]; intros c; simpl; [done|apply IH]. Qed.

Lemma register_functions_frame c l :
  mc_relations (foldl register_function c l) = mc_relations c
  ∧ mc_snapshot_id (foldl register_function c l) = mc_snapshot_id c
  ∧ mc_statistics (foldl register_function c l) = mc_statistics c.
Proof. revert c. induction l as [|s l IH]; intros c; simpl; [done|]. by destruct (IH (register_function c s)). Qed.

Lemma register_relations_frame c l :
  mc_functions (foldl register_relation c l) = mc_functions c
  ∧ mc_snapshot_id (foldl register_relation c l) = mc_snapshot_id c
  ∧ mc_statistics (foldl register_relation c l) = mc_statistics c.
Proof. revert c. induction l as [|s l IH]; intros c; simpl; [done|]. by destruct (IH (register_relation c s)). Qed.

(** The catalog read back from a document. *)
Lemma from_document_eq c :
  mc_wf c →
  from_document (to_document c)
  = {| mc_snapshot_id := mc_snapshot_id c; mc_relations := mc_relations c;
       mc_functions := mc_all_functions c; mc_statistics := [] |}.
Proof.
  intros Hwf. unfold from_document, to_document. simpl.
  set (c0 := {| mc_snapshot_id := mc_snapshot_id c; mc_relations := []; mc_functions := [];
                mc_statistics := [] |}).
  destruct (register_relations_frame c0 (mc_relation_list c)) as (Hf & Hs & Ht).
  set (c1 := foldl register_relation c0 _) in *.
  destruct (register_functions_frame c1 (mc_function_list c)) as (Hr2 & Hs2 & Ht2).
  pose proof (from_document_functions c1 (mc_function_list c)) as Hf2.
  set (c2 := foldl register_function c1 _) in *. destruct c2 as [s r f t]; simpl in *. f_equal.
  - congruence.
  - rewrite Hr2. unfold c1. rewrite from_document_relations.
    apply (insert_all_id relation_key); [apply Hwf|constructor|]. intros k [? [=]].
  - rewrite Hf2, Hf. apply (insert_all_id function_key); [by apply all_functions_keyed|constructor|].
    intros k [? [=]].
  - congruence.
Qed.

(** A catalog whose functions are those of another one lists the same. *)
Lemma all_functions_again c c' :
  mc_wf c → mc_wf c' → mc_functions c' = mc_all_functions c → mc_all_functions c' = mc_all_functions c.
Proof.
  intros Hwf Hwf' Hf. apply bt_ext.
  - apply (all_functions_keyed c' Hwf').
  - apply (all_functions_keyed c Hwf).
  - intros k. rewrite (all_functions_get c' k Hwf'), Hf, (all_functions_get c k Hwf).
    generalize (bt_get k builtin_map). intros o. by destruct (bt_get k (mc_functions c)), o.
Qed.

(** ** Properties *)

(** A registered relation is resolved by its namespace and its name in any
    letter case, and replaces an earlier relation of that name; relations with
    another key keep their exact lookup. *)
Theorem register_relation_resolves (c : MemoryCatalog) (r : RelationSchema) (name : string) :
  eq_ignore_ascii_case name (rel_name r) = true →
  mc_resolve_relation (register_relation c r) (rel_namespace r) name = Some r
  ∧ ∀ k, k ≠ relation_key r →
      bt_get k (mc_relations (register_relation c r)) = bt_get k (mc_relations c).
Proof.
  intros Hn%eq_ignore_ascii_case_true. split.
  - unfold mc_resolve_relation, register_relation. simpl. rewrite Hn.
    change (rel_namespace r, to_ascii_lowercase (rel_name r)) with (relation_key r).
    by rewrite bt_get_insert_eq.
  - intros k Hk. by apply bt_get_insert_ne.
Qed.

(** A relation for the witnesses. *)
Definition sample_relation (ns : option string) (name : string) : RelationSchema :=
  {| rel_namespace := ns; rel_name := name; rel_aliases := []; rel_kind := RTable;
     rel_columns := [{| column_name := "id"; column_type := TUuid; column_nullable := false;
                        column_metadata := FieldMetadata_default |}];
     rel_metadata := [] |}.

Example register_relation_resolves_witness :
  eq_ignore_ascii_case "RECORDS" "Records" = true
  ∧ mc_resolve_relation (register_relation MemoryCatalog_default (sample_relation None "Records")) None "RECORDS"
    = Some (sample_relation None "Records")
  ∧ ∀ k, k ≠ relation_key (sample_relation None "Records") →
      bt_get k (mc_relations (register_relation MemoryCatalog_default (sample_relation None "Records")))
      = bt_get k (mc_relations MemoryCatalog_default).
Proof.
  split; [reflexivity|].
  apply (register_relation_resolves MemoryCatalog_default (sample_relation None "Records") "RECORDS").
  reflexivity.
Defined.

(** What [resolve_relation] returns is registered in the catalog, and its
    name or one of its aliases is the name asked for, up to letter case. *)
Theorem resolve_relation_sound (c : MemoryCatalog) ns name r :
  mc_wf c → mc_resolve_relation c ns name = Some r →
  r ∈ mc_relation_list c
  ∧ (eq_ignore_ascii_case (rel_name r) name = true
     ∨ ∃ a, a ∈ rel_aliases r ∧ eq_ignore_ascii_case a name = true).
Proof.
  intros [[Hw Hk] _] Hres. unfold mc_resolve_relation in Hres.
  destruct (bt_get _ _) as [r'|] eqn:E.
  - injection Hres as ->. apply bt_get_Some_elem in E. split.
    + apply list_elem_of_fmap. by exists ((ns, to_ascii_lowercase name), r).
    + left. apply Hk in E. injection E as _ E. by apply eq_ignore_ascii_case_true.
  - apply List.find_some in Hres as [Hin%list_elem_of_In Hn]. split; [done|].
    apply orb_true_iff in Hn as [Hn|Hn]; [by left|]. right.
    apply existsb_exists in Hn as (a & Ha%list_elem_of_In & Hn). by exists a.
Qed.

Example resolve_relation_sound_witness :
  let c := register_relation MemoryCatalog_default (sample_relation None "Records") in
  mc_wf c ∧ mc_resolve_relation c (Some "x") "records" = Some (sample_relation None "Records")
  ∧ (sample_relation None "Records" ∈ mc_relation_list c
     ∧ (eq_ignore_ascii_case "Records" "records" = true
        ∨ ∃ a, a ∈ rel_aliases (sample_relation None "Records") ∧ eq_ignore_ascii_case a "records" = true)).
Proof.
  intros c. assert (Hwf : mc_wf c) by apply mc_wf_register_relation, mc_wf_default.
  split; [exact Hwf|]. split; [reflexivity|].
  apply (resolve_relation_sound c (Some "x") "records"); [exact Hwf|reflexivity].
Defined.

(** The namespace of a reference does not restrict the result: a qualified
    name whose namespace holds no such relation resolves to a relation of the
    same name in another namespace. *)
Theorem resolve_relation_ignores_namespace (c : MemoryCatalog) ns name :
  bt_get (ns, to_ascii_lowercase name) (mc_relations c) = None →
  mc_resolve_relation c ns name
  = List.find (λ r, eq_ignore_ascii_case (rel_name r) name
                    || existsb (λ a, eq_ignore_ascii_case a name) (rel_aliases r))
      (mc_relation_list c)
  ∧ mc_resolve_relation (register_relation MemoryCatalog_default (sample_relation (Some "tenant_a") "t"))
      (Some "tenant_b") "t" = Some (sample_relation (Some "tenant_a") "t").
Proof. intros H. unfold mc_resolve_relation at 1. rewrite H. split; reflexivity. Qed.

Example resolve_relation_ignores_namespace_witness :
  let c := register_relation MemoryCatalog_default (sample_relation (Some "tenant_a") "t") in
  bt_get (Some "tenant_b", to_ascii_lowercase "T") (mc_relations c) = None
  ∧ mc_resolve_relation c (Some "tenant_b") "T"
    = List.find (λ r, eq_ignore_ascii_case (rel_name r) "T"
                      || existsb (λ a, eq_ignore_ascii_case a "T") (rel_aliases r))
        (mc_relation_list c).
Proof.
  intros c. split; [reflexivity|].
  apply (resolve_relation_ignores_namespace c (Some "tenant_b") "T"). reflexivity.
Defined.

(** [functions()] and [resolve_function] agree: the list holds exactly the
    signatures that resolving their own namespace and name returns. *)
Theorem functions_agree_with_resolve (c : MemoryCatalog) (s : FunctionSignature) :
  mc_wf c →
  s ∈ mc_function_list c ↔ mc_resolve_function c (sig_namespace s) (sig_name s) = Some s.
Proof.
  intros Hwf. rewrite resolve_function_get by done.
  destruct (all_functions_keyed c Hwf) as [Hw Hk]. unfold mc_function_list, bt_values.
  rewrite list_elem_of_fmap. split.
  - intros ([k s'] & -> & Hin). apply bt_get_elem; [done|]. simpl.
    pose proof (Hk _ _ Hin) as ->. exact Hin.
  - intros Hg%bt_get_Some_elem. by exists ((sig_namespace s, to_ascii_lowercase (sig_name s)), s).
Qed.

Definition sample_catalog : MemoryCatalog :=
  register_function
    (register_relation MemoryCatalog_default (sample_relation None "records"))
    (builtin_aggregate "COUNT" TFloat64).

Lemma sample_catalog_wf : mc_wf sample_catalog.
Proof. apply mc_wf_register_function, mc_wf_register_relation, mc_wf_default. Qed.

Example functions_agree_with_resolve_witness :
  mc_wf sample_catalog
  ∧ (builtin_aggregate "COUNT" TFloat64 ∈ mc_function_list sample_catalog
     ↔ mc_resolve_function sample_catalog None "COUNT" = Some (builtin_aggregate "COUNT" TFloat64))
  ∧ mc_resolve_function sample_catalog None "count" = Some (builtin_aggregate "COUNT" TFloat64).
Proof.
  split; [apply sample_catalog_wf|]. split; [|reflexivity].
  apply (functions_agree_with_resolve sample_catalog (builtin_aggregate "COUNT" TFloat64)).
  apply sample_catalog_wf.
Defined.

(** C28: a catalog written to a document and read back resolves every relation
    and every function as before, keeps the snapshot identity, and writes the
    same document again. *)
Theorem document_roundtrip (c : MemoryCatalog) :
  mc_wf c →
  let c' := from_document (to_document c) in
  to_document c' = to_document c
  ∧ mc_snapshot_id c' = mc_snapshot_id c
  ∧ (∀ ns name, mc_resolve_relation c' ns name = mc_resolve_relation c ns name)
  ∧ (∀ ns name, mc_resolve_function c' ns name = mc_resolve_function c ns name).
Proof.
  intros Hwf. cbv zeta. rewrite (from_document_eq c Hwf). set (c' := Build_MemoryCatalog _ _ _ _).
  assert (Hwf' : mc_wf c') by (split; [apply Hwf|exact (all_functions_keyed c Hwf)]).
  assert (Hf : mc_all_functions c' = mc_all_functions c) by exact (all_functions_again c c' Hwf Hwf' eq_refl).
  split_and!.
  - unfold to_document, mc_function_list. rewrite Hf. reflexivity.
  - reflexivity.
  - reflexivity.
  - intros ns name. rewrite (resolve_function_get c' ns name Hwf'), (resolve_function_get c ns name Hwf).
    by rewrite Hf.
Qed.

Example document_roundtrip_witness :
  mc_wf sample_catalog ∧
  let c' := from_document (to_document sample_catalog) in
  to_document c' = to_document sample_catalog
  ∧ mc_snapshot_id c' = mc_snapshot_id sample_catalog
  ∧ (∀ ns name, mc_resolve_relation c' ns name = mc_resolve_relation sample_catalog ns name)
  ∧ (∀ ns name, mc_resolve_function c' ns name = mc_resolve_function sample_catalog ns name).
Proof. split; [apply sample_catalog_wf|]. apply (document_roundtrip sample_catalog), sample_catalog_wf. Defined.

(** Statistics set for a relation under any of its names are what every
    reference to the relation gets, in any letter case and through an alias;
    other relations keep theirs. *)
Theorem statistics_follow_the_relation (c : MemoryCatalog) ns name st r :
  mc_resolve_relation c ns name = Some r →
  let c' := set_relation_statistics c ns name st in
  (∀ ns' name', mc_resolve_relation c' ns' name' = mc_resolve_relation c ns' name')
  ∧ (∀ ns' name' r', mc_resolve_relation c ns' name' = Some r' →
       mc_relation_statistics c' ns' name'
       = if decide (relation_key r' = relation_key r) then Some st else mc_relation_statistics c ns' name').
Proof.
  intros Hr. split; [done|]. intros ns' name' r' Hr'.
  unfold mc_relation_statistics, set_relation_statistics. rewrite Hr.
  unfold mc_resolve_relation at 1. simpl. fold (mc_resolve_relation c ns' name'). rewrite Hr'.
  case_decide as E; [by rewrite E, bt_get_insert_eq|]. by rewrite bt_get_insert_ne by congruence.
Qed.

Example statistics_follow_the_relation_witness :
  let st := {| st_relation := "records"; estimated_rows := 5; average_row_bytes := 8; shard_count := None |} in
  let c' := set_relation_statistics sample_catalog (Some "x") "RECORDS" st in
  mc_resolve_relation sample_catalog (Some "x") "RECORDS" = Some (sample_relation None "records")
  ∧ ((∀ ns' name', mc_resolve_relation c' ns' name' = mc_resolve_relation sample_catalog ns' name')
     ∧ (∀ ns' name' r', mc_resolve_relation sample_catalog ns' name' = Some r' →
          mc_relation_statistics c' ns' name'
          = if decide (relation_key r' = relation_key (sample_relation None "records")) then Some st
            else mc_relation_statistics sample_catalog ns' name'))
  ∧ mc_relation_statistics c' None "records" = Some st.
Proof.
  intros st c'. split; [reflexivity|]. split; [|vm_compute; reflexivity].
  apply (statistics_follow_the_relation sample_catalog (Some "x") "RECORDS" st). reflexivity.
Defined.
