(* ===== verification/Features.v ===== *)
(** What a query or a plan uses: [queryfabric-catalog/src/features.rs].

    The source passes the features as a mutable reference; here every visitor
    takes the features so far and returns the extended ones.  The set of
    functions is a [gset]: its iteration order is not observable. *)
From S2P Require Import Prelude BTreeMap Types Diagnostics Syntax Bound Catalog.

Record PlanFeatures := {
  has_ctes : bool;
  has_recursive_ctes : bool;
  has_derived_tables : bool;
  has_joins : bool;
  has_windows : bool;
  has_set_operations : bool;
  has_aggregates : bool;
  has_distinct_aggregates : bool;
  has_scalar_subqueries : bool;
  has_in_subqueries : bool;
  has_clickhouse_settings : bool;
  has_clickhouse_format : bool;
  has_limit_offset : bool;
  unsupported_set_ops : list string;
  feature_functions : gset FunctionRef
}.

Definition PlanFeatures_default : PlanFeatures :=
  {| has_ctes := false; has_recursive_ctes := false; has_derived_tables := false;
     has_joins := false; has_windows := false; has_set_operations := false;
     has_aggregates := false; has_distinct_aggregates := false; has_scalar_subqueries := false;
     has_in_subqueries := false; has_clickhouse_settings := false; has_clickhouse_format := false;
     has_limit_offset := false; unsupported_set_ops := []; feature_functions := ∅ |}.

(** [merge_plan_features]: every flag by disjunction, the two collections
    extended. *)
Definition merge_plan_features (target other : PlanFeatures) : PlanFeatures :=
  {| has_ctes := has_ctes target || has_ctes other;
     has_recursive_ctes := has_recursive_ctes target || has_recursive_ctes other;
     has_derived_tables := has_derived_tables target || has_derived_tables other;
     has_joins := has_joins target || has_joins other;
     has_windows := has_windows target || has_windows other;
     has_set_operations := has_set_operations target || has_set_operations other;
     has_aggregates := has_aggregates target || has_aggregates other;
     has_distinct_aggregates := has_distinct_aggregates target || has_distinct_aggregates other;
     has_scalar_subqueries := has_scalar_subqueries target || has_scalar_subqueries other;
     has_in_subqueries := has_in_subqueries target || has_in_subqueries other;
     has_clickhouse_settings := has_clickhouse_settings target || has_clickhouse_settings other;
     has_clickhouse_format := has_clickhouse_format target || has_clickhouse_format other;
     has_limit_offset := has_limit_offset target || has_limit_offset other;
     unsupported_set_ops := unsupported_set_ops target ++ unsupported_set_ops other;
     feature_functions := feature_functions target ∪ feature_functions other |}.

(** The assignments [features.has_... = true], and the two insertions. *)
Inductive Mark :=
| MDerived | MJoins | MWindows | MSetOps | MAggregates | MDistinct | MScalar | MIn
| MUnsupportedSetOp (description : string)
| MFunction (f : FunctionRef).

Definition mark_features (k : Mark) : PlanFeatures :=
  {| has_ctes := false; has_recursive_ctes := false;
     has_derived_tables := match k with MDerived => true | _ => false end;
     has_joins := match k with MJoins => true | _ => false end;
     has_windows := match k with MWindows => true | _ => false end;
     has_set_operations := match k with MSetOps => true | _ => false end;
     has_aggregates := match k with MAggregates => true | _ => false end;
     has_distinct_aggregates := match k with MDistinct => true | _ => false end;
     has_scalar_subqueries := match k with MScalar => true | _ => false end;
     has_in_subqueries := match k with MIn => true | _ => false end;
     has_clickhouse_settings := false; has_clickhouse_format := false; has_limit_offset := false;
     unsupported_set_ops := match k with MUnsupportedSetOp d => [d] | _ => [] end;
     feature_functions := match k with MFunction f => {[f]} | _ => ∅ end |}.

Definition mark (k : Mark) (f : PlanFeatures) : PlanFeatures := merge_plan_features f (mark_features k).
Definition mark_if (b : bool) (k : Mark) (f : PlanFeatures) : PlanFeatures := if b then mark k f else f.

(** The [for] loops and the [if let Some]. *)
Definition visit_each {A} (visit : A → PlanFeatures → PlanFeatures) (l : list A) (f : PlanFeatures) : PlanFeatures :=
  List.fold_left (λ f x, visit x f) l f.
Definition visit_opt {A} (visit : A → PlanFeatures → PlanFeatures) (o : option A) (f : PlanFeatures) : PlanFeatures :=
  match o with Some x => visit x f | None => f end.

Definition is_settings (c : BackendClause) : bool :=
  match c with ClickHouseSettings _ _ => true | _ => false end.
Definition is_format (c : BackendClause) : bool :=
  match c with ClickHouseFormat _ _ => true | _ => false end.

(** The struct literal both entry points start from. *)
Definition query_features (ctes_empty recursive : bool) (clauses : list BackendClause)
    (limit_or_offset : bool) : PlanFeatures :=
  {| has_ctes := negb ctes_empty; has_recursive_ctes := recursive; has_derived_tables := false;
     has_joins := false; has_windows := false; has_set_operations := false;
     has_aggregates := false; has_distinct_aggregates := false; has_scalar_subqueries := false;
     has_in_subqueries := false;
     has_clickhouse_settings := existsb is_settings clauses;
     has_clickhouse_format := existsb is_format clauses;
     has_limit_offset := limit_or_offset; unsupported_set_ops := []; feature_functions := ∅ |}.

(** ** Features of the syntax tree *)

Definition is_aggregate_name (name : string) : bool :=
  existsb (String.eqb name)
    ["count"; "sum"; "avg"; "min"; "max"; "quantile"; "avg_merge"; "count_merge"; "sum_merge"].

Definition visit_syntax_select
    (visit_syntax_expr : SyntaxExpr → PlanFeatures → PlanFeatures)
    (visit_from : SyntaxTableWithJoins → PlanFeatures → PlanFeatures)
    (select : SyntaxSelect) (features : PlanFeatures) : PlanFeatures :=
  let features := visit_each (λ item f,
    match item with PExpr details => visit_syntax_expr (pe_expr details) f | _ => f end)
    (sel_projection select) features in
  let features := visit_each visit_from (sel_from select) features in
  let features := visit_opt visit_syntax_expr (sel_selection select) features in
  let features := visit_each visit_syntax_expr (sel_group_by select) features in
  visit_opt visit_syntax_expr (sel_having select) features.

Definition visit_syntax_function
    (visit_syntax_expr : SyntaxExpr → PlanFeatures → PlanFeatures)
    (function : SyntaxFunctionCall) (features : PlanFeatures) : PlanFeatures :=
  let features := mark (MFunction (fc_function function)) features in
  let features := mark_if (fc_distinct function) MDistinct features in
  let features := mark_if (is_some (fc_over function)) MWindows features in
  let features := mark_if (is_aggregate_name (fn_name (fc_function function))) MAggregates features in
  visit_each visit_syntax_expr (fc_args function) features.

Fixpoint plan_features_from_syntax (query : SyntaxQuery) : PlanFeatures :=
  match query with
  | MkSyntaxQuery _ cs with_recursive body _ limit offset clauses =>
      let features := query_features (is_empty cs) with_recursive clauses
                        (is_some limit || is_some offset) in
      let features := visit_syntax_set_expr body features in
      visit_each (λ cte f, merge_plan_features f (plan_features_from_syntax (cte_query cte))) cs features
  end
with visit_syntax_set_expr (expr : SyntaxSetExpr) (features : PlanFeatures) : PlanFeatures :=
  match expr with
  | SSelect select => visit_syntax_select visit_syntax_expr visit_syntax_from select features
  | SUnionAll lhs rhs _ =>
      visit_syntax_set_expr rhs (visit_syntax_set_expr lhs (mark MSetOps features))
  | SSetUnsupported description _ => mark (MUnsupportedSetOp description) features
  end
with visit_syntax_from (table : SyntaxTableWithJoins) (features : PlanFeatures) : PlanFeatures :=
  match table with
  | MkSyntaxTableWithJoins relation js _ =>
      let features := mark_if (negb (is_empty js)) MJoins features in
      let features := visit_syntax_relation relation features in
      visit_each (λ join f, visit_opt visit_syntax_expr (join_on join)
                              (visit_syntax_relation (join_relation join) f)) js features
  end
with visit_syntax_relation (relation : SyntaxRelation) (features : PlanFeatures) : PlanFeatures :=
  match relation with
  | SDerived query _ _ =>
      merge_plan_features (mark MDerived features) (plan_features_from_syntax query)
  | SNestedJoin (MkSyntaxTableWithJoins relation js _) _ _ =>
      visit_each (λ join f, visit_syntax_relation (join_relation join) f) js
        (visit_syntax_relation relation (mark MDerived features))
  | STable _ _ _ | SRelUnsupported _ _ => features
  end
with visit_syntax_expr (expr : SyntaxExpr) (features : PlanFeatures) : PlanFeatures :=
  match expr with
  | MkSyntaxExpr kind _ =>
      match kind with
      | SBinary _ lhs rhs => visit_syntax_expr rhs (visit_syntax_expr lhs features)
      | SUnary _ e | SCast e _ | SIsNull e _ => visit_syntax_expr e features
      | SFunction function => visit_syntax_function visit_syntax_expr function features
      | SCase operand when_then else_result =>
          let features := visit_opt visit_syntax_expr operand features in
          let features := visit_each (λ pair f,
            visit_syntax_expr (wt_result pair) (visit_syntax_expr (wt_condition pair) f))
            when_then features in
          visit_opt visit_syntax_expr else_result features
      | SBetween e low high _ =>
          visit_syntax_expr high (visit_syntax_expr low (visit_syntax_expr e features))
      | SInList e items _ => visit_each visit_syntax_expr items (visit_syntax_expr e features)
      | SInSubquery e subquery _ =>
          merge_plan_features (visit_syntax_expr e (mark MIn features))
            (plan_features_from_syntax subquery)
      | SScalarSubquery subquery | SExists subquery =>
          merge_plan_features (mark MScalar features) (plan_features_from_syntax subquery)
      | SLike e pattern _ _ => visit_syntax_expr pattern (visit_syntax_expr e features)
      | STuple items | SArray items => visit_each visit_syntax_expr items features
      | SColumn _ _ | SLiteral _ | SParameter _ | SUnsupported _ => features
      end
  end.

Definition inspect_plan (parsed : ParsedQuery) : Result PlanFeatures :=
  Ok (plan_features_from_syntax (pq_syntax parsed)).

(** ** Features of the bound plan *)

Section BoundFeatures.
Variable catalog : Catalog.

Definition visit_bound_select
    (visit_bound_expr : BoundExpr → PlanFeatures → PlanFeatures)
    (visit_from : BoundTableWithJoins → PlanFeatures → PlanFeatures)
    (select : BoundSelect) (features : PlanFeatures) : PlanFeatures :=
  let features := visit_each (λ item f,
    match item with BPExpr details => visit_bound_expr (bpe_expr details) f | _ => f end)
    (bsel_projection select) features in
  let features := visit_each visit_from (bsel_from select) features in
  let features := visit_opt visit_bound_expr (bsel_selection select) features in
  let features := visit_each visit_bound_expr (bsel_group_by select) features in
  visit_opt visit_bound_expr (bsel_having select) features.

Definition visit_bound_function
    (visit_bound_expr : BoundExpr → PlanFeatures → PlanFeatures)
    (function : BoundFunctionCall) (features : PlanFeatures) : PlanFeatures :=
  let features := mark (MFunction (bfc_function function)) features in
  let features :=
    match resolve_function catalog (fn_namespace (bfc_function function)) (fn_name (bfc_function function)) with
    | Some signature =>
        let features := match sig_kind signature with
                        | FAggregate => mark MAggregates features
                        | FWindow => mark MWindows features
                        | FScalar => features
                        end in
        mark_if (metadata_flag signature "approximate") MAggregates features
    | None => features
    end in
  let features := mark_if (bfc_distinct function) MDistinct features in
  let features := mark_if (is_some (bfc_over function)) MWindows features in
  visit_each visit_bound_expr (bfc_args function) features.

Fixpoint plan_features_from_bound (query : BoundQueryPlan) : PlanFeatures :=
  match query with
  | MkBoundQueryPlan _ cs body _ limit offset clauses _ =>
      let features := query_features (is_empty cs) false clauses (is_some limit || is_some offset) in
      let features := visit_bound_set_expr body features in
      visit_each (λ cte f, merge_plan_features f (plan_features_from_bound (bcte_query cte))) cs features
  end
with visit_bound_set_expr (expr : BoundSetExpr) (features : PlanFeatures) : PlanFeatures :=
  match expr with
  | BSelect select => visit_bound_select visit_bound_expr visit_bound_from select features
  | BUnionAll lhs rhs _ _ =>
      visit_bound_set_expr rhs (visit_bound_set_expr lhs (mark MSetOps features))
  | BSetUnsupported _ _ _ => features
  end
with visit_bound_from (table : BoundTableWithJoins) (features : PlanFeatures) : PlanFeatures :=
  match table with
  | MkBoundTableWithJoins relation js _ =>
      let features := mark_if (negb (is_empty js)) MJoins features in
      let features := visit_bound_relation relation features in
      visit_each (λ join f, visit_opt visit_bound_expr (bjoin_on join)
                              (visit_bound_relation (bjoin_relation join) f)) js features
  end
with visit_bound_relation (relation : BoundRelation) (features : PlanFeatures) : PlanFeatures :=
  match relation with
  | BDerived _ query _ =>
      merge_plan_features (mark MDerived features) (plan_features_from_bound query)
  | BNestedJoin _ (MkBoundTableWithJoins relation js _) _ =>
      visit_each (λ join f, visit_bound_relation (bjoin_relation join) f) js
        (visit_bound_relation relation (mark MDerived features))
  | BTable _ _ | BRelUnsupported _ _ _ => features
  end
with visit_bound_expr (expr : BoundExpr) (features : PlanFeatures) : PlanFeatures :=
  match expr with
  | MkBoundExpr kind _ _ _ =>
      match kind with
      | BBinary _ lhs rhs => visit_bound_expr rhs (visit_bound_expr lhs features)
      | BUnary _ e | BCast e _ | BIsNull e _ => visit_bound_expr e features
      | BFunction function => visit_bound_function visit_bound_expr function features
      | BCase operand when_then else_result =>
          let features := visit_opt visit_bound_expr operand features in
          let features := visit_each (λ pair f,
            visit_bound_expr (bwt_result pair) (visit_bound_expr (bwt_condition pair) f))
            when_then features in
          visit_opt visit_bound_expr else_result features
      | BBetween e low high _ =>
          visit_bound_expr high (visit_bound_expr low (visit_bound_expr e features))
      | BInList e items _ => visit_each visit_bound_expr items (visit_bound_expr e features)
      | BInSubquery e subquery _ =>
          merge_plan_features (visit_bound_expr e (mark MIn features))
            (plan_features_from_bound subquery)
      | BScalarSubquery subquery | BExists subquery =>
          merge_plan_features (mark MScalar features) (plan_features_from_bound subquery)
      | BLike e pattern _ _ => visit_bound_expr pattern (visit_bound_expr e features)
      | BTuple items | BArray items => visit_each visit_bound_expr items features
      | BColumn _ | BLiteral _ | BParameter _ | BUnsupported _ => features
      end
  end.
End BoundFeatures.
