(* ===== verification/Cost.v ===== *)
(** Backend capabilities, artifacts and the query cost model:
    [queryfabric-catalog/src/model.rs], after the catalogs.

    Row and byte counts are [u64] and shard counts [u32], as [N] with the
    arithmetic of the source written out.  [Iterator::sum] wraps around in the
    release profile the workspace builds with (no overflow checks). *)
From S2P Require Import Prelude BTreeMap Types Diagnostics Bound Catalog Features.
Local Open Scope N_scope.

(** ** Capabilities *)

Inductive BackendFeature :=
| BFCommonTableExpressions | BFDerivedTables | BFJoins | BFWindows | BFSetOperations
| BFAggregates | BFDistinctAggregates | BFScalarSubqueries | BFInSubqueries
| BFNamespacedFunctions | BFApproximateAggregates | BFExplain | BFLimitOffset
| BFIsolatedExecution | BFUuidToStringInArrowOutput.

#[export] Instance BackendFeature_eq_dec : EqDecision BackendFeature.
Proof. solve_decision. Defined.

Definition BackendFeature_index (f : BackendFeature) : nat :=
  match f with
  | BFCommonTableExpressions => 0 | BFDerivedTables => 1 | BFJoins => 2 | BFWindows => 3
  | BFSetOperations => 4 | BFAggregates => 5 | BFDistinctAggregates => 6
  | BFScalarSubqueries => 7 | BFInSubqueries => 8 | BFNamespacedFunctions => 9
  | BFApproximateAggregates => 10 | BFExplain => 11 | BFLimitOffset => 12
  | BFIsolatedExecution => 13 | BFUuidToStringInArrowOutput => 14
  end%nat.

Definition all_backend_features : list BackendFeature :=
  [BFCommonTableExpressions; BFDerivedTables; BFJoins; BFWindows; BFSetOperations; BFAggregates;
   BFDistinctAggregates; BFScalarSubqueries; BFInSubqueries; BFNamespacedFunctions;
   BFApproximateAggregates; BFExplain; BFLimitOffset; BFIsolatedExecution;
   BFUuidToStringInArrowOutput].

#[export] Program Instance BackendFeature_countable : Countable BackendFeature :=
  inj_countable BackendFeature_index (λ n, nth_error all_backend_features n) _.
Next Obligation. by intros []. Qed.

Record EstimatedCost := {
  ec_memory_bytes : N;
  ec_rows_scanned : N;
  ec_partitions_touched : N;
  ec_wallclock_estimate_ms : N
}.

Inductive ResultDeliveryFormat := ArrowIpc | Parquet | Csv | JsonFormat.

#[export] Instance ResultDeliveryFormat_eq_dec : EqDecision ResultDeliveryFormat.
Proof. solve_decision. Defined.

#[export] Program Instance ResultDeliveryFormat_countable : Countable ResultDeliveryFormat :=
  inj_countable (λ f, match f with ArrowIpc => 0 | Parquet => 1 | Csv => 2 | JsonFormat => 3 end)%nat
                (λ n, nth_error [ArrowIpc; Parquet; Csv; JsonFormat] n) _.
Next Obligation. by intros []. Qed.

Record BackendExecutionLimits := {
  max_rows : option N;
  max_bytes_scanned : option N;
  max_result_bytes : option N;
  max_concurrent_queries : option N;
  interactive_byte_limit : N;
  batch_byte_limit : N
}.

Definition BackendExecutionLimits_default : BackendExecutionLimits :=
  {| max_rows := None; max_bytes_scanned := None; max_result_bytes := None;
     max_concurrent_queries := None; interactive_byte_limit := 512 * 1024 * 1024;
     batch_byte_limit := 16 * 1024 * 1024 * 1024 |}.

Record CapabilitySet := {
  cap_features : gset BackendFeature;
  cap_limits : option BackendExecutionLimits;
  result_formats : gset ResultDeliveryFormat;
  async_export : bool;
  federated_execution : bool
}.

Definition CapabilitySet_default : CapabilitySet :=
  {| cap_features := ∅; cap_limits := None; result_formats := ∅; async_export := false;
     federated_execution := false |}.

Definition from_features (features : list BackendFeature) : CapabilitySet :=
  {| cap_features := list_to_set features; cap_limits := None; result_formats := ∅;
     async_export := false; federated_execution := false |}.

Definition supports (c : CapabilitySet) (f : BackendFeature) : bool := bool_decide (f ∈ cap_features c).

Definition with_limits (c : CapabilitySet) (limits : BackendExecutionLimits) : CapabilitySet :=
  {| cap_features := cap_features c; cap_limits := Some limits; result_formats := result_formats c;
     async_export := async_export c; federated_execution := federated_execution c |}.
Definition with_result_formats (c : CapabilitySet) (formats : list ResultDeliveryFormat) : CapabilitySet :=
  {| cap_features := cap_features c; cap_limits := cap_limits c; result_formats := list_to_set formats;
     async_export := async_export c; federated_execution := federated_execution c |}.
Definition with_async_export (c : CapabilitySet) (enabled : bool) : CapabilitySet :=
  {| cap_features := cap_features c; cap_limits := cap_limits c; result_formats := result_formats c;
     async_export := enabled; federated_execution := federated_execution c |}.
Definition with_federated_execution (c : CapabilitySet) (enabled : bool) : CapabilitySet :=
  {| cap_features := cap_features c; cap_limits := cap_limits c; result_formats := result_formats c;
     async_export := async_export c; federated_execution := enabled |}.

Inductive ResultDeliveryMode :=
| InteractiveStream | PagedResult | AsyncMaterializedExport | RejectedOverBudget.

#[export] Instance ResultDeliveryMode_eq_dec : EqDecision ResultDeliveryMode.
Proof. solve_decision. Defined.

(** ** The cost model *)

Record QueryCostInput := {
  in_plan_features : PlanFeatures;
  in_relations : list RelationStatistics;
  selected_columns : N;
  row_limit : option N;
  estimated_filter_selectivity_ppm : N;
  default_row_bytes : N;
  default_shards : N;
  backend_capabilities : CapabilitySet
}.

Definition QueryCostInput_default : QueryCostInput :=
  {| in_plan_features := PlanFeatures_default; in_relations := []; selected_columns := 16;
     row_limit := None; estimated_filter_selectivity_ppm := 1000000; default_row_bytes := 64;
     default_shards := 1; backend_capabilities := CapabilitySet_default |}.

Inductive QueryTimeoutClass := Interactive | Batch | Export.

Definition is_interactive (c : QueryTimeoutClass) : bool :=
  match c with Interactive => true | _ => false end.

Record QueryCostEstimate := {
  est_rows : N;
  est_bytes : N;
  est_shards : N;
  timeout_class : QueryTimeoutClass;
  execution_mode : ResultDeliveryMode;
  async_required : bool;
  est_diagnostics : list string
}.

(** [QueryCostEstimate::classify]. *)
Definition classify (rows bytes shards interactive_byte_limit export_byte_limit : N) : QueryCostEstimate :=
  let timeout_class :=
    if bytes <=? interactive_byte_limit then Interactive
    else if bytes <=? export_byte_limit then Batch else Export in
  let execution_mode :=
    match timeout_class with
    | Interactive => InteractiveStream
    | Batch => PagedResult
    | Export => AsyncMaterializedExport
    end in
  {| est_rows := rows; est_bytes := bytes; est_shards := shards; timeout_class := timeout_class;
     execution_mode := execution_mode;
     async_required := negb (is_interactive timeout_class); est_diagnostics := [] |}.

(** [Iterator::sum] on [u64] and [Iterator::max]. *)
Definition sum_u64 (l : list N) : N := foldl u64_wrapping_add 0 l.
Definition max_opt (l : list N) : option N := reduce N.max l.

Definition clamp (x lo hi : N) : N := N.min (N.max x lo) hi.

Definition estimate_rows (input : QueryCostInput) : N :=
  let relation_rows := N.max (sum_u64 (List.map estimated_rows (in_relations input)))
                             (default 1000000 (row_limit input)) in
  let selectivity_ppm := clamp (estimated_filter_selectivity_ppm input) 1 1000000 in
  let rows := u64_saturating_mul relation_rows selectivity_ppm / 1000000 in
  let rows := match row_limit input with Some limit => N.min rows limit | None => rows end in
  N.max rows 1.

Definition estimate_bytes (input : QueryCostInput) : N :=
  let columns := N.max (selected_columns input) 1 in
  let row_bytes := N.max (default (default_row_bytes input)
                            (max_opt (List.map average_row_bytes (in_relations input)))) 1 in
  u64_saturating_mul (u64_saturating_mul (estimate_rows input) columns) row_bytes.

Definition estimate_shards (input : QueryCostInput) : N :=
  N.max (default (default_shards input) (max_opt (omap shard_count (in_relations input)))) 1.

Definition conservative_text : string :=
  "plan contains joins/windows; interactive execution should be treated conservatively".
Definition over_limits_text : string := "estimated query exceeds backend execution limits".

(** The adjustment for joins and windows. *)
Definition adjust_for_features (features : PlanFeatures) (e : QueryCostEstimate) : QueryCostEstimate :=
  if has_joins features || has_windows features then
    let interactive := is_interactive (timeout_class e) in
    {| est_rows := est_rows e; est_bytes := est_bytes e; est_shards := est_shards e;
       timeout_class := if interactive then Batch else timeout_class e;
       execution_mode := if interactive then PagedResult else execution_mode e;
       async_required := if interactive then true else async_required e;
       est_diagnostics := est_diagnostics e ++ [conservative_text] |}
  else e.

Definition exceeds (limit : option N) (actual : N) : bool :=
  match limit with Some limit => limit <? actual | None => false end.

(** The adjustment for the limits of the backend. *)
Definition adjust_for_limits (limits : BackendExecutionLimits) (e : QueryCostEstimate) : QueryCostEstimate :=
  if exceeds (max_bytes_scanned limits) (est_bytes e) || exceeds (max_rows limits) (est_rows e) then
    {| est_rows := est_rows e; est_bytes := est_bytes e; est_shards := est_shards e;
       timeout_class := timeout_class e; execution_mode := RejectedOverBudget;
       async_required := true; est_diagnostics := est_diagnostics e ++ [over_limits_text] |}
  else e.

(** [DefaultQueryCostModel::estimate]. *)
Definition estimate (input : QueryCostInput) : QueryCostEstimate :=
  let limits := default BackendExecutionLimits_default (cap_limits (backend_capabilities input)) in
  let e := classify (estimate_rows input) (estimate_bytes input) (estimate_shards input)
             (interactive_byte_limit limits) (batch_byte_limit limits) in
  adjust_for_limits limits (adjust_for_features (in_plan_features input) e).

(** ** Analyses and artifacts *)

Inductive EstimatedCostClass := CostLow | CostMedium | CostHigh | CostUnknown.

Record BackendAnalysis := {
  an_supported : bool;
  an_diagnostics : list QueryDiagnostic;
  an_estimated_cost_class : EstimatedCostClass;
  an_result_schema : ResultSchema;
  an_provenance : ProvenanceReceipt
}.

Definition analysis_errors (a : BackendAnalysis) : list QueryDiagnostic :=
  List.filter (λ d, bool_decide (severity d = SevError)) (an_diagnostics a).
Definition analysis_warnings (a : BackendAnalysis) : list QueryDiagnostic :=
  List.filter (λ d, bool_decide (severity d = SevWarning)) (an_diagnostics a).

Record SqlArtifact := {
  sql_dialect : string;
  sql_text : string;
  sql_parameters : list ParameterSchema;
  sql_result_schema : ResultSchema;
  sql_metadata : BTreeMap string string;
  sql_provenance : ProvenanceReceipt
}.

Record OpaqueArtifact := {
  opaque_kind : string;
  opaque_description : string;
  opaque_provenance : ProvenanceReceipt
}.

Inductive EmitArtifact :=
| ASql (sql : SqlArtifact)
| AOpaque (opaque : OpaqueArtifact).

Definition as_sql (a : EmitArtifact) : option SqlArtifact :=
  match a with ASql sql => Some sql | AOpaque _ => None end.

(** ** Facts *)

Lemma saturating_mul_le a b : u64_saturating_mul a b ≤ u64_max.
Proof. unfold u64_saturating_mul. lia. Qed.

Lemma saturating_mul_mono a b c d : a ≤ c → b ≤ d → u64_saturating_mul a b ≤ u64_saturating_mul c d.
Proof. unfold u64_saturating_mul. intros. pose proof (N.mul_le_mono a c b d). lia. Qed.

Lemma saturating_mul_ge a b : 1 ≤ b → a ≤ u64_max → a ≤ u64_saturating_mul a b.
Proof. unfold u64_saturating_mul. intros. nia. Qed.

Lemma exceeds_false limit n : exceeds limit n = false ↔ ∀ l, limit = Some l → n ≤ l.
Proof.
  destruct limit as [l|]; simpl; [|split; [done|]; done].
  rewrite N.ltb_ge. split; [intros ? ? [= <-]; done|auto].
Qed.

Lemma estimate_rows_bounds input :
  1 ≤ estimate_rows input ≤ u64_max
  ∧ (∀ limit, row_limit input = Some limit → estimate_rows input ≤ N.max limit 1).
Proof.
  unfold estimate_rows. set (m := u64_saturating_mul _ _).
  assert (Hm : m / 1000000 ≤ m) by (apply N.Div0.div_le_upper_bound; lia).
  assert (m ≤ u64_max) by apply saturating_mul_le.
  assert (1 ≤ u64_max) by (vm_compute; discriminate).
  destruct (row_limit input); split; try lia; intros ? [= ->]; lia.
Qed.

Lemma estimate_rows_limited input limit :
  row_limit input = Some limit → 1 ≤ limit → 1000000 ≤ estimated_filter_selectivity_ppm input →
  limit * 1000000 ≤ u64_max → estimate_rows input = limit.
Proof.
  intros Hl Hone Hs Hmax. unfold estimate_rows. rewrite Hl. cbn [default from_option id].
  assert (Hc : clamp (estimated_filter_selectivity_ppm input) 1 1000000 = 1000000) by (unfold clamp; lia).
  rewrite Hc. set (r := N.max _ limit).
  assert (Hr : limit ≤ u64_saturating_mul r 1000000 / 1000000).
  { apply N.div_le_lower_bound; [done|]. unfold u64_saturating_mul. subst r. lia. }
  lia.
Qed.

(** ** Properties *)

(** An estimate is interactive exactly when its bytes are within the
    interactive limit, the plan has neither joins nor windows and no execution
    limit of the backend is exceeded; these are also exactly the estimates
    that need no asynchronous execution. *)
Theorem estimate_interactive_iff (input : QueryCostInput) :
  let limits := default BackendExecutionLimits_default (cap_limits (backend_capabilities input)) in
  (execution_mode (estimate input) = InteractiveStream ↔
     estimate_bytes input ≤ interactive_byte_limit limits
     ∧ has_joins (in_plan_features input) = false ∧ has_windows (in_plan_features input) = false
     ∧ (∀ l, max_bytes_scanned limits = Some l → estimate_bytes input ≤ l)
     ∧ (∀ l, max_rows limits = Some l → estimate_rows input ≤ l))
  ∧ (async_required (estimate input) = false ↔ execution_mode (estimate input) = InteractiveStream).
Proof.
  intros limits. rewrite <- !exceeds_false. unfold estimate. fold limits. unfold adjust_for_limits, adjust_for_features, classify.
  destruct (has_joins _), (has_windows _), (N.leb_spec (estimate_bytes input) (interactive_byte_limit limits)),
    (N.leb_spec (estimate_bytes input) (batch_byte_limit limits)); cbn;
    destruct (exceeds (max_bytes_scanned limits) _), (exceeds (max_rows limits) _); cbn;
    (split; split; [intros; split_and?|intros (? & ? & ? & ? & ?)|intros|intros];
       try congruence; try lia).
Qed.

(** The query is rejected exactly when the estimated bytes or rows exceed
    a limit of the backend, and the numbers of the estimate stay within [u64]
    and above zero, with the rows no higher than the row limit. *)
Theorem estimate_rejects_iff_over_limits (input : QueryCostInput) :
  let limits := default BackendExecutionLimits_default (cap_limits (backend_capabilities input)) in
  let e := estimate input in
  (execution_mode e = RejectedOverBudget ↔
     (∃ l, max_bytes_scanned limits = Some l ∧ l < est_bytes e)
     ∨ (∃ l, max_rows limits = Some l ∧ l < est_rows e))
  ∧ 1 ≤ est_rows e ≤ u64_max
  ∧ est_rows e ≤ est_bytes e ≤ u64_max
  ∧ (∀ limit, row_limit input = Some limit → est_rows e ≤ N.max limit 1).
Proof.
  intros limits e.
  assert (Hr : est_rows e = estimate_rows input ∧ est_bytes e = estimate_bytes input).
  { subst e. unfold estimate, adjust_for_limits, adjust_for_features, classify.
    by destruct (_ || _), (_ || _). }
  destruct Hr as [-> ->]. destruct (estimate_rows_bounds input) as [Hb Hl]. split_and!; try lia.
  - assert (Hm : ∀ o n, exceeds o n = true ↔ ∃ l, o = Some l ∧ l < n).
    { intros [l|] n; simpl; [rewrite N.ltb_lt; naive_solver|naive_solver]. }
    rewrite <- !Hm. subst e. unfold estimate. fold limits. unfold adjust_for_limits, adjust_for_features, classify.
    destruct (has_joins _ || _), (estimate_bytes input <=? interactive_byte_limit limits),
      (estimate_bytes input <=? batch_byte_limit limits); cbn;
      destruct (exceeds (max_bytes_scanned limits) _), (exceeds (max_rows limits) _); cbn; intuition congruence.
  - unfold estimate_bytes. etransitivity; [|apply saturating_mul_ge; [lia|apply saturating_mul_le]].
    apply saturating_mul_ge; lia.
  - apply saturating_mul_le.
  - done.
Qed.

(** With a row limit and no selective filter the row estimate is the
    limit, whatever the statistics of the relations say, also when they report
    fewer rows. *)
Theorem row_limit_overrides_statistics (input : QueryCostInput) (limit : N) :
  row_limit input = Some limit → 1 ≤ limit → limit * 1000000 ≤ u64_max →
  1000000 ≤ estimated_filter_selectivity_ppm input →
  estimate_rows input = limit.
Proof. intros. by apply estimate_rows_limited. Qed.

(** An input over the given relations. *)
Definition cost_input (rows : list N) (limit : option N) : QueryCostInput :=
  {| in_plan_features := PlanFeatures_default;
     in_relations := List.map (λ n, {| st_relation := "r"; estimated_rows := n;
                                       average_row_bytes := 8; shard_count := None |}) rows;
     selected_columns := 1; row_limit := limit; estimated_filter_selectivity_ppm := 1000000;
     default_row_bytes := 64; default_shards := 1; backend_capabilities := CapabilitySet_default |}.

Example row_limit_overrides_statistics_witness :
  row_limit (cost_input [10] (Some 50000)) = Some 50000
  ∧ estimate_rows (cost_input [10] (Some 50000)) = 50000.
Proof.
  split; [reflexivity|].
  apply (row_limit_overrides_statistics (cost_input [10] (Some 50000)) 50000);
    vm_compute; (reflexivity || discriminate).
Defined.

(** The sum over the relations wraps around: two relations of [2^63] rows
    each are estimated as one million rows and run interactively, while one of
    them alone is not. *)
Theorem relation_rows_wrap_around :
  estimate_rows (cost_input [2 ^ 63; 2 ^ 63] None) = 1000000
  ∧ execution_mode (estimate (cost_input [2 ^ 63; 2 ^ 63] None)) = InteractiveStream
  ∧ execution_mode (estimate (cost_input [2 ^ 63] None)) = AsyncMaterializedExport.
Proof. split_and!; vm_compute; reflexivity. Qed.
