(* ===== verification/Suggest.v ===== *)
(** Suggestions for misspelt names: [queryfabric-catalog/src/bind/suggest.rs].

    Text is decoded from UTF-8 as [str::chars] does; the Unicode lower-case
    table of the standard library is the parameter [Unicode].  Lengths and
    distances are [usize] values bounded by the texts in memory. *)
From S2P Require Import Prelude.
From Stdlib Require Import Sorted.

(** [char::to_lowercase]. *)
Class Unicode := { char_to_lowercase : N → list N }.

(** ** Characters *)

Definition byte_of (c : Ascii.ascii) : N := Ascii.N_of_ascii c.
(** The six payload bits of a continuation byte. *)
Definition payload (c : Ascii.ascii) : N := N.land (byte_of c) 63.

(** [str::chars], on the UTF-8 bytes of the string. *)
Fixpoint chars (s : string) : list N :=
  match s with
  | EmptyString => []
  | String a s1 =>
      let lead := byte_of a in
      if (lead <? 128)%N then lead :: chars s1
      else if (lead <? 224)%N then
        match s1 with
        | String b s2 => (N.land lead 31 * 64 + payload b)%N :: chars s2
        | _ => []
        end
      else if (lead <? 240)%N then
        match s1 with
        | String b (String c s3) =>
            (N.land lead 15 * 4096 + payload b * 64 + payload c)%N :: chars s3
        | _ => []
        end
      else
        match s1 with
        | String b (String c (String d s4)) =>
            (N.land lead 7 * 262144 + payload b * 4096 + payload c * 64 + payload d)%N :: chars s4
        | _ => []
        end
  end.

(** ** The distance *)

(** The cells [curr[1..]] of a row for the character [x]: [prev] holds the row
    above from [prev[j - 1]] on, [left_cell] is [curr[j - 1]]. *)
Fixpoint lev_cells (x : N) (b : list N) (prev : list nat) (left_cell : nat) : list nat :=
  match b, prev with
  | y :: b, diagonal :: (above :: _) as prev_tail =>
      let cost := if N.eqb x y then 0 else 1 in
      let cell := Nat.min (Nat.min (above + 1) (left_cell + 1)) (diagonal + cost) in
      cell :: lev_cells x b (List.tl prev) cell
  | _, _ => []
  end.

Definition lev_row (x : N) (i : nat) (b : list N) (prev : list nat) : list nat :=
  i :: lev_cells x b prev i.

(** The loop over [i], from row [i + 1]. *)
Fixpoint lev_rows (a : list N) (i : nat) (b : list N) (prev : list nat) : list nat :=
  match a with
  | [] => prev
  | x :: a => lev_rows a (S i) b (lev_row x (S i) b prev)
  end.

Definition lev_chars (a b : list N) : nat :=
  match a, b with
  | [], _ => length b
  | _, [] => length a
  | _, _ => List.nth (length b) (lev_rows a 0 b (List.seq 0 (S (length b)))) 0
  end.

Section Suggest.
Context `{Unicode}.

Definition lowercase_chars (s : string) : list N := flat_map char_to_lowercase (chars s).

Definition levenshtein (a b : string) : nat := lev_chars (lowercase_chars a) (lowercase_chars b).

(** ** Ranking *)

Definition threshold (query : string) : nat := Nat.max (length (chars query) / 3) 2.

Definition score_le (p q : nat * string) : bool :=
  (p.1 <? q.1) || ((p.1 =? q.1) && (String.length p.2 <=? String.length q.2)).

(** The stable [sort_by_key] on the distance and then the byte length. *)
Fixpoint insert_scored (p : nat * string) (l : list (nat * string)) : list (nat * string) :=
  match l with
  | [] => [p]
  | q :: l => if score_le p q then p :: q :: l else q :: insert_scored p l
  end.

Definition sort_scored (l : list (nat * string)) : list (nat * string) := foldr insert_scored [] l.

Definition scored (query : string) (options : list string) : list (nat * string) :=
  List.filter (λ p, p.1 <=? threshold query)
    (List.map (λ o, (levenshtein query o, o)) options).

Definition top_similar (query : string) (options : list string) (max : nat) : list string :=
  List.map snd (take max (sort_scored (scored query options))).
End Suggest.

(** ** Edit scripts

    The specification of the distance: [edits n a b] when [a] can be turned
    into [b] with [n] insertions, deletions and replacements. *)
Inductive edits : nat → list N → list N → Prop :=
| edits_done : edits 0 [] []
| edits_keep x n a b : edits n a b → edits n (x :: a) (x :: b)
| edits_replace x y n a b : edits n a b → edits (S n) (x :: a) (y :: b)
| edits_delete x n a b : edits n a b → edits (S n) (x :: a) b
| edits_insert y n a b : edits n a b → edits (S n) a (y :: b).

Create HintDb edits.
#[export] Hint Constructors edits : edits.

Lemma edits_app n m a b c d : edits n a b → edits m c d → edits (n + m) (a ++ c) (b ++ d).
Proof. induction 1; simpl; auto with edits. Qed.

Lemma edits_rev n a b : edits n a b → edits n (rev a) (rev b).
Proof.
  induction 1 as [|x n a b _ IH|x y n a b _ IH|x n a b _ IH|y n a b _ IH]; simpl; auto with edits.
  - rewrite <- (Nat.add_0_r n). apply edits_app; auto with edits.
  - rewrite <- Nat.add_1_r. apply edits_app; auto with edits.
  - rewrite <- Nat.add_1_r, <- (app_nil_r (rev b)). apply edits_app; auto with edits.
  - rewrite <- Nat.add_1_r, <- (app_nil_r (rev a)). apply edits_app; auto with edits.
Qed.

Lemma edits_all_insert b : edits (length b) [] b.
Proof. induction b; simpl; auto with edits. Qed.
Lemma edits_all_delete a : edits (length a) a [].
Proof. induction a; simpl; auto with edits. Qed.

(** The textbook recursion, on the last characters when the texts are
    reversed. *)
Fixpoint distance (a : list N) : list N → nat :=
  fix go b :=
    match a, b with
    | [], _ => length b
    | _, [] => length a
    | x :: a', y :: b' =>
        Nat.min (Nat.min (distance a' b + 1) (go b' + 1))
                (distance a' b' + if N.eqb x y then 0 else 1)
    end.

Lemma distance_nil_l b : distance [] b = length b.
Proof. by destruct b. Qed.
Lemma distance_nil_r a : distance a [] = length a.
Proof. by destruct a. Qed.
Lemma distance_cons x a y b :
  distance (x :: a) (y :: b)
  = Nat.min (Nat.min (distance a (y :: b) + 1) (distance (x :: a) b + 1))
            (distance a b + if N.eqb x y then 0 else 1).
Proof. reflexivity. Qed.

Lemma distance_edits a b : edits (distance a b) a b.
Proof.
  revert b. induction a as [|x a IHa]; intros b; [rewrite distance_nil_l; apply edits_all_insert|].
  induction b as [|y b IHb]; [apply edits_all_delete|]. rewrite distance_cons.
  destruct (Nat.min_spec (Nat.min (distance a (y :: b) + 1) (distance (x :: a) b + 1))
              (distance a b + if N.eqb x y then 0 else 1)) as [[_ ->]|[_ ->]].
  - destruct (Nat.min_spec (distance a (y :: b) + 1) (distance (x :: a) b + 1)) as [[_ ->]|[_ ->]];
      rewrite Nat.add_1_r; auto with edits.
  - destruct (N.eqb_spec x y) as [->|]; rewrite ?Nat.add_0_r, ?Nat.add_1_r; auto with edits.
Qed.

Lemma distance_least n a b : edits n a b → distance a b ≤ n.
Proof.
  induction 1 as [|x n a b _ IH|x y n a b _ IH|x n a b _ IH|y n a b _ IH]; [done|..].
  - rewrite distance_cons, N.eqb_refl. lia.
  - rewrite distance_cons. destruct (N.eqb x y); lia.
  - destruct b as [|y b]; [rewrite distance_nil_r in *; simpl; lia|]. rewrite distance_cons. lia.
  - destruct a as [|x a]; [rewrite distance_nil_l in *; simpl; lia|]. rewrite distance_cons. lia.
Qed.

(** ** The rows of the dynamic program *)

(** The distances of [pa] to the reversed prefixes of [b] that extend [pb]. *)
Fixpoint row_of (pa pb b : list N) : list nat :=
  distance pa pb :: match b with [] => [] | y :: b => row_of pa (y :: pb) b end.

Lemma lev_cells_row x pa pb b :
  lev_cells x b (row_of pa pb b) (distance (x :: pa) pb) = List.tl (row_of (x :: pa) pb b).
Proof.
  revert pb. induction b as [|y b IH]; intros pb; [done|].
  cbn [row_of lev_cells List.tl]. destruct b as [|z b].
  - cbn [row_of lev_cells]. by rewrite distance_cons.
  - cbn [row_of]. rewrite <- (distance_cons x pa y pb). f_equal. apply (IH (y :: pb)).
Qed.

Lemma lev_row_row x pa b : lev_row x (S (length pa)) b (row_of pa [] b) = row_of (x :: pa) [] b.
Proof.
  unfold lev_row. change (S (length pa)) with (distance (x :: pa) []).
  rewrite lev_cells_row. by destruct b.
Qed.

Lemma lev_rows_row a pa b :
  lev_rows a (length pa) b (row_of pa [] b) = row_of (rev a ++ pa) [] b.
Proof.
  revert pa. induction a as [|x a IH]; intros pa; [done|].
  cbn [lev_rows rev]. rewrite lev_row_row, <- app_assoc. apply (IH (x :: pa)).
Qed.

Lemma row_of_nil pb b : row_of [] pb b = List.seq (length pb) (S (length b)).
Proof.
  revert pb. induction b as [|y b IH]; intros pb; cbn [row_of]; rewrite distance_nil_l; [done|].
  rewrite IH. done.
Qed.

Lemma row_of_last pa pb b : List.nth (length b) (row_of pa pb b) 0 = distance pa (rev b ++ pb).
Proof.
  revert pb. induction b as [|y b IH]; intros pb; [done|].
  cbn [length row_of List.nth rev]. by rewrite IH, <- app_assoc.
Qed.

Lemma lev_chars_distance a b : lev_chars a b = distance (rev a) (rev b).
Proof.
  destruct a as [|x a]; [cbn; by rewrite distance_nil_l, length_rev|].
  destruct b as [|y b]; [unfold lev_chars; by rewrite distance_nil_r, length_rev|].
  unfold lev_chars.
  replace (List.seq 0 (S (length (y :: b)))) with (row_of [] [] (y :: b)) by apply row_of_nil.
  pose proof (lev_rows_row (x :: a) [] (y :: b)) as Hr. cbn [length] in Hr. rewrite Hr.
  rewrite row_of_last, !app_nil_r. done.
Qed.

(** ** Sorting *)

Lemma score_le_total p q : score_le p q = false → score_le q p = true.
Proof.
  unfold score_le. rewrite orb_false_iff, andb_false_iff, orb_true_iff, andb_true_iff.
  rewrite Nat.ltb_ge, Nat.ltb_lt, !Nat.eqb_eq, Nat.eqb_neq, Nat.leb_gt, Nat.leb_le. lia.
Qed.

Lemma score_le_trans p q r : score_le p q = true → score_le q r = true → score_le p r = true.
Proof.
  unfold score_le. rewrite !orb_true_iff, !andb_true_iff, !Nat.ltb_lt, !Nat.eqb_eq, !Nat.leb_le. lia.
Qed.

Lemma insert_scored_perm p l : insert_scored p l ≡ₚ p :: l.
Proof.
  induction l as [|q l IH]; simpl; [done|]. destruct (score_le p q); [done|].
  rewrite IH. apply Permutation_swap.
Qed.

Lemma sort_scored_perm l : sort_scored l ≡ₚ l.
Proof. induction l as [|p l IH]; simpl; [done|]. by rewrite insert_scored_perm, IH. Qed.

Lemma insert_scored_sorted p l :
  StronglySorted (λ p q, score_le p q = true) l →
  StronglySorted (λ p q, score_le p q = true) (insert_scored p l).
Proof.
  induction 1 as [|q l Hs IH Hf]; simpl; [repeat constructor|].
  destruct (score_le p q) eqn:E.
  - constructor; [by constructor|]. constructor; [done|].
    eapply Forall_impl; [exact Hf|]. intros r. by apply score_le_trans.
  - constructor; [done|]. rewrite insert_scored_perm. constructor; [by apply score_le_total|done].
Qed.

Lemma sort_scored_sorted l : StronglySorted (λ p q, score_le p q = true) (sort_scored l).
Proof. induction l as [|p l IH]; simpl; [constructor|]. by apply insert_scored_sorted. Qed.

Lemma sorted_take_drop n l p q :
  StronglySorted (λ p q, score_le p q = true) l →
  p ∈ take n l → q ∈ drop n l → score_le p q = true.
Proof.
  revert n. induction l as [|r l IH]; intros n Hs Hp Hq; [destruct n; set_solver|].
  inversion Hs as [|?? Hs' Hf]; subst. destruct n as [|n]; simpl in *; [set_solver|].
  apply elem_of_cons in Hp as [->|Hp]; [|by eapply IH].
  rewrite Forall_forall in Hf. apply Hf. rewrite <- (take_drop n l). apply elem_of_app. by right.
Qed.

(** ** Properties *)

Section Properties.
Context `{Unicode}.

(** The two-row dynamic program computes the edit distance of the
    lower-cased texts: the least number of insertions, deletions and
    replacements that turn one into the other. *)
Theorem levenshtein_least_edits (a b : string) :
  edits (levenshtein a b) (lowercase_chars a) (lowercase_chars b)
  ∧ ∀ n, edits n (lowercase_chars a) (lowercase_chars b) → levenshtein a b ≤ n.
Proof.
  unfold levenshtein. rewrite lev_chars_distance. split.
  - pose proof (edits_rev _ _ _ (distance_edits (rev (lowercase_chars a)) (rev (lowercase_chars b)))) as He.
    by rewrite !rev_involutive in He.
  - intros n Hn. by apply distance_least, edits_rev.
Qed.

(** The suggestions are at most [max] of the given names, all within the
    threshold; a name within the threshold that is left out is no closer and,
    at the same distance, no shorter than every suggestion, and is left out
    only for want of room. *)
Theorem top_similar_best (query : string) (options : list string) (max : nat) :
  let result := top_similar query options max in
  length result ≤ max
  ∧ (∀ o, o ∈ result → o ∈ options ∧ levenshtein query o ≤ threshold query)
  ∧ (∀ o, o ∈ options → levenshtein query o ≤ threshold query → o ∉ result →
       length result = max
       ∧ ∀ r, r ∈ result → score_le (levenshtein query r, r) (levenshtein query o, o) = true).
Proof.
  intros result. unfold result, top_similar.
  set (sorted := sort_scored (scored query options)).
  assert (Hin : ∀ p, p ∈ sorted ↔ p.2 ∈ options ∧ p.1 = levenshtein query p.2 ∧ p.1 ≤ threshold query).
  { intros [d o]. unfold sorted, scored. rewrite sort_scored_perm.
    rewrite list_elem_of_In, filter_In, in_map_iff, Nat.leb_le. simpl. rewrite list_elem_of_In. naive_solver. }
  assert (Ht : ∀ o, o ∈ List.map snd (take max sorted) → (levenshtein query o, o) ∈ take max sorted).
  { intros o ([d o'] & -> & Hp)%list_elem_of_fmap. simpl.
    destruct (proj1 (Hin (d, o'))) as (_ & Hd & _); [|simpl in Hd; by rewrite <- Hd].
    rewrite <- (take_drop max sorted). apply elem_of_app. by left. }
  assert (Hsub : ∀ p, p ∈ take max sorted → p ∈ sorted).
  { intros p Hp. rewrite <- (take_drop max sorted). apply elem_of_app. by left. }
  split_and!.
  - rewrite length_map, length_take. lia.
  - intros o Ho%Ht%Hsub%Hin. naive_solver.
  - intros o Ho Hd Hni. assert (Hdrop : (levenshtein query o, o) ∈ drop max sorted).
    { assert (Hs : (levenshtein query o, o) ∈ sorted) by by apply Hin.
      rewrite <- (take_drop max sorted) in Hs. apply elem_of_app in Hs as [Hs|Hs]; [|done].
      destruct Hni. apply list_elem_of_fmap. by exists (levenshtein query o, o). }
    split.
    + rewrite length_map, length_take. apply Nat.min_l. apply Nat.nlt_ge. intros Hlt.
      rewrite drop_ge in Hdrop by lia. by apply not_elem_of_nil in Hdrop.
    + intros r Hr%Ht. eapply sorted_take_drop; [|exact Hr|exact Hdrop]. apply sort_scored_sorted.
Qed.
End Properties.
