(* ===== verification/Scope.v ===== *)
(** Name resolution: [queryfabric-catalog/src/bind/scope.rs]. *)
From S2P Require Import Prelude BTreeMap Types Diagnostics Syntax Bound.

(** ** Definitions *)

Record ScopeEntry := { entry_binding_name : string; entry_schema : ResultSchema }.

(** The struct [Scope] has the one field [entries]. *)
Definition Scope : Type := list ScopeEntry.
Definition Scope_default : Scope := [].

Record ResolvedColumn := { resolved_relation : option string; resolved_field : ResultField }.

Inductive ColumnResolution :=
| Local_ (column : ResolvedColumn)
| Missing
| Ambiguous.

Definition from_output_schema (schema : ResultSchema) : Scope :=
  [{| entry_binding_name := "__output__"; entry_schema := schema |}].

Definition push_relation (scope : Scope) (relation : BoundRelation) : Scope :=
  match relation_binding relation with
  | Some binding =>
      scope ++ [{| entry_binding_name := binding_name binding; entry_schema := binding_schema binding |}]
  | None => scope
  end.

Definition merge_table (scope : Scope) (table : BoundTableWithJoins) : Scope :=
  foldl (λ s join, push_relation s (bjoin_relation join))
    (push_relation scope (bt_relation table)) (bt_joins table).

Definition make_field_nullable (f : ResultField) : ResultField :=
  MkField (field_name f) (field_type f) true (field_metadata f).

Definition make_schema_nullable (schema : ResultSchema) : ResultSchema :=
  {| fields := List.map make_field_nullable (fields schema); schema_metadata := schema_metadata schema |}.

Definition make_all_nullable (scope : Scope) : Scope :=
  List.map (λ e, {| entry_binding_name := entry_binding_name e;
                    entry_schema := make_schema_nullable (entry_schema e) |}) scope.

Definition expand_all (scope : Scope) : list ResultField :=
  flat_map (λ e, fields (entry_schema e)) scope.

Definition expand_qualified (scope : Scope) (qualifier : string) : option (list ResultField) :=
  (λ e, fields (entry_schema e))
    <$> List.find (λ e, eq_ignore_ascii_case (entry_binding_name e) qualifier) scope.

Definition has_relation (scope : Scope) (qualifier : string) : bool :=
  existsb (λ e, eq_ignore_ascii_case (entry_binding_name e) qualifier) scope.

Definition relation_column_names (scope : Scope) (qualifier : string) : option (list string) :=
  List.map field_name <$> expand_qualified scope qualifier.

Definition all_column_names (scope : Scope) : list string :=
  flat_map (λ e, List.map field_name (fields (entry_schema e))) scope.

(** The vector [matches] of [resolve_column]. *)
Definition entry_matches (relation : option string) (name : string) (entry : ScopeEntry)
    : list ResolvedColumn :=
  if match relation with
     | Some relation => negb (eq_ignore_ascii_case (entry_binding_name entry) relation)
     | None => false
     end
  then []
  else List.map (λ f, {| resolved_relation := Some (entry_binding_name entry); resolved_field := f |})
         (List.filter (λ f, eq_ignore_ascii_case (field_name f) name) (fields (entry_schema entry))).

Definition column_matches (scope : Scope) (relation : option string) (name : string)
    : list ResolvedColumn := flat_map (entry_matches relation name) scope.

Definition resolve_column (scope : Scope) (relation : option string) (name : string) : ColumnResolution :=
  match column_matches scope relation name with
  | [] => Missing
  | [column] => Local_ column
  | _ => Ambiguous
  end.

Definition try_resolve_column (scope : Scope) (relation : option string) (name : string)
    : option ColumnResolution :=
  match resolve_column scope relation name with
  | Missing => None
  | resolution => Some resolution
  end.

Definition scope_schema_for_table (table : BoundTableWithJoins) : ResultSchema :=
  let binding_fields r := match relation_binding r with
                          | Some binding => fields (binding_schema binding)
                          | None => []
                          end in
  ResultSchema_new
    (binding_fields (bt_relation table)
     ++ flat_map (λ join, binding_fields (bjoin_relation join)) (bt_joins table)).

(** ** Facts *)

Lemma column_matches_app s1 s2 rel name :
  column_matches (s1 ++ s2) rel name = column_matches s1 rel name ++ column_matches s2 rel name.
Proof. apply flat_map_app. Qed.

(** What a match is: a field of an entry with the name, under the qualifier. *)
Definition column_in (scope : Scope) (relation : option string) (name : string)
    (column : ResolvedColumn) : Prop :=
  ∃ entry, entry ∈ scope
  ∧ resolved_relation column = Some (entry_binding_name entry)
  ∧ resolved_field column ∈ fields (entry_schema entry)
  ∧ eq_ignore_ascii_case (field_name (resolved_field column)) name = true
  ∧ ∀ q, relation = Some q → eq_ignore_ascii_case (entry_binding_name entry) q = true.

Lemma elem_of_column_matches s rel name c :
  c ∈ column_matches s rel name ↔ column_in s rel name c.
Proof.
  unfold column_matches, column_in. rewrite list_elem_of_In, in_flat_map. apply exist_proper. intros entry.
  rewrite <- list_elem_of_In. unfold entry_matches.
  destruct rel as [q|]; [destruct (eq_ignore_ascii_case (entry_binding_name entry) q) eqn:E|]; simpl.
  2: { split; [by intros []|]. intros (_ & _ & _ & _ & Hq). specialize (Hq q eq_refl). congruence. }
  all: rewrite in_map_iff; setoid_rewrite filter_In; setoid_rewrite <- list_elem_of_In; split;
    [intros (He & f & <- & Hf & Hn); naive_solver
    |intros (He & Hr & Hf & Hn & _); split; [done|]; exists (resolved_field c);
     split; [by destruct c; simpl in *; subst|done]].
Qed.

Lemma entry_matches_nullable rel name e :
  entry_matches rel name
    {| entry_binding_name := entry_binding_name e; entry_schema := make_schema_nullable (entry_schema e) |}
  = List.map (λ c, {| resolved_relation := resolved_relation c;
                      resolved_field := make_field_nullable (resolved_field c) |})
      (entry_matches rel name e).
Proof.
  unfold entry_matches. simpl. destruct (match rel with Some _ => _ | None => _ end); [done|].
  induction (fields (entry_schema e)) as [|f fs IH]; simpl; [done|].
  destruct (eq_ignore_ascii_case (field_name f) name); simpl; by rewrite IH.
Qed.

Lemma column_matches_nullable s rel name :
  column_matches (make_all_nullable s) rel name
  = List.map (λ c, {| resolved_relation := resolved_relation c;
                      resolved_field := make_field_nullable (resolved_field c) |})
      (column_matches s rel name).
Proof.
  unfold column_matches. induction s as [|e s IH]; simpl; [done|].
  by rewrite entry_matches_nullable, IH, map_app.
Qed.

Lemma resolve_local s rel name c : resolve_column s rel name = Local_ c → column_in s rel name c.
Proof.
  intros H. apply elem_of_column_matches. unfold resolve_column in H.
  destruct (column_matches s rel name) as [|c' [|]]; try done. injection H as ->. by left.
Qed.

(** ** Properties *)

(** Name resolution never guesses: a column resolves to [c] only when [c]
    is a field with that name under that qualifier and there is no other one;
    it is missing only when there is none; and more relations in scope can
    make a resolved name ambiguous but never make it mean another column. *)
Theorem resolve_column_unique (s : Scope) rel name :
  (∀ c, resolve_column s rel name = Local_ c →
     column_in s rel name c ∧ ∀ c', column_in s rel name c' → c' = c)
  ∧ (resolve_column s rel name = Missing ↔ ∀ c, ¬ column_in s rel name c)
  ∧ (∀ c r, resolve_column s rel name = Local_ c →
       resolve_column (push_relation s r) rel name = Local_ c
       ∨ resolve_column (push_relation s r) rel name = Ambiguous).
Proof.
  split_and!.
  - intros c Hc. split; [by apply resolve_local|]. intros c' Hc'%elem_of_column_matches.
    unfold resolve_column in Hc. destruct (column_matches s rel name) as [|d [|]]; try done.
    injection Hc as <-. by apply list_elem_of_singleton in Hc'.
  - setoid_rewrite <- elem_of_column_matches. unfold resolve_column.
    destruct (column_matches s rel name) as [|d [|]]; split; try done.
    + intros _ c. apply not_elem_of_nil.
    + intros H. destruct (H d). by left.
    + intros H. destruct (H d). by left.
  - intros c r Hc. unfold push_relation. destruct (relation_binding r); [|by left].
    unfold resolve_column in *. rewrite column_matches_app.
    destruct (column_matches s rel name) as [|d [|]]; try done. injection Hc as <-. simpl.
    destruct (entry_matches _ _ _ ++ []) as [|]; [by left|by right].
Qed.

(** Making a scope nullable, as an outer join does, changes no
    resolution except that the columns found are nullable. *)
Theorem make_all_nullable_resolves (s : Scope) rel name :
  resolve_column (make_all_nullable s) rel name
  = match resolve_column s rel name with
    | Local_ c => Local_ {| resolved_relation := resolved_relation c;
                            resolved_field := make_field_nullable (resolved_field c) |}
    | other => other
    end.
Proof.
  unfold resolve_column. rewrite column_matches_nullable.
  by destruct (column_matches s rel name) as [|c [|]].
Qed.
