(* ===== verification/Bind.v ===== *)
(** The binder: [queryfabric-catalog/src/bind/].

    [Binder] holds a catalog and the supplied parameters, which it never
    changes and which are variables of a section here, and three mutable
    fields, which are the state.  A method that takes [&mut self] is a
    computation of the state monad.

    The methods of the source call each other over the syntax tree; here five
    of them, one per type of the tree, are a mutual fixpoint, and the others
    are definitions that take the recursive calls they make as arguments. *)
From S2P Require Import Prelude BTreeMap Types Diagnostics Syntax Bound Catalog Features Suggest Scope.
Local Open Scope state_scope.

(** ** State ([bind/mod.rs]) *)

Inductive NullableConstraint := NcUnknown | NcNullable | NcNonNull.

#[export] Instance NullableConstraint_eq_dec : EqDecision NullableConstraint.
Proof. solve_decision. Defined.

Definition nullable_merge (self other : NullableConstraint) : NullableConstraint :=
  match self, other with
  | NcNonNull, _ | _, NcNonNull => NcNonNull
  | NcNullable, NcNullable => NcNullable
  | NcNullable, NcUnknown | NcUnknown, NcNullable => NcNullable
  | _, _ => NcUnknown
  end.

Record ParameterConstraint := {
  pc_data_type : option DataType;
  pc_nullable : NullableConstraint;
  pc_span : option QuerySourceSpan;
  pc_node_id : option string
}.

Record ExpectedType := {
  exp_data_type : option DataType;
  exp_nullable : NullableConstraint
}.

Definition ExpectedType_default : ExpectedType :=
  {| exp_data_type := None; exp_nullable := NcUnknown |}.

(** The literal [ExpectedType { data_type: Some(&ty), nullable: NonNull }]. *)
Definition expect (ty : DataType) : ExpectedType :=
  {| exp_data_type := Some ty; exp_nullable := NcNonNull |}.

(** [ExpectedType] with [(!ty.is_unknown()).then_some(&ty)] and [NonNull]. *)
Definition expect_known (ty : DataType) : ExpectedType :=
  {| exp_data_type := if is_unknown ty then None else Some ty; exp_nullable := NcNonNull |}.

Record Binder := {
  diagnostics : list QueryDiagnostic;
  parameter_constraints : BTreeMap ParameterRef ParameterConstraint;
  next_auto_position : N
}.

Abbreviation M := (state Binder).

Definition next_auto_position_seed (parameters : QueryParameters) : N :=
  u32_saturating_add (default 0%N (reduce N.max (bt_keys (positional parameters)))) 1.

Definition Binder_new (parameters : QueryParameters) : Binder :=
  {| diagnostics := []; parameter_constraints := [];
     next_auto_position := next_auto_position_seed parameters |}.

(** ** Diagnostics ([bind/helpers.rs]) *)

Definition push_diagnostic (d : QueryDiagnostic) : M unit :=
  smodify (λ b, {| diagnostics := diagnostics b ++ [d];
                   parameter_constraints := parameter_constraints b;
                   next_auto_position := next_auto_position b |}).

(** The span and the remediation both methods attach. *)
Definition attach (d : QueryDiagnostic) (node : SyntaxNode) (remediation : option string) : QueryDiagnostic :=
  let d := with_node_id d (node_id node) in
  let d := match span node with Some s => with_span d s | None => d end in
  match remediation with Some r => with_remediation d r | None => d end.

Definition push_error (c m : string) (node : SyntaxNode) (remediation : option string) : M unit :=
  push_diagnostic (attach (diagnostic_error c m) node remediation).

Definition push_warning (c m : string) (node : SyntaxNode) (remediation : option string) : M unit :=
  push_diagnostic (attach (diagnostic_warning c m) node remediation).

Definition unsupported_expr (node : SyntaxNode) (c m : string) (remediation : option string) : M BoundExpr :=
  push_error c m node remediation ;;
  sret (MkBoundExpr (BUnsupported (node_id node)) TUnknown true node).

Definition literal_type (value : LiteralValue) : DataType * bool :=
  match value with
  | LNull => (TUnknown, true)
  | LBoolean _ => (TBoolean, false)
  | LInt64 _ => (TInt64, false)
  | LFloat64 _ => (TFloat64, false)
  | LUtf8 _ => (TUtf8, false)
  end.

Definition bind_literal (node : SyntaxNode) (value : LiteralValue) : BoundExpr :=
  MkBoundExpr (BLiteral value) (literal_type value).1 (literal_type value).2 node.

Definition expression_name (expr : SyntaxExpr) : string :=
  match se_kind expr with
  | SColumn _ name => name
  | SFunction function => FunctionRef_display_name (fc_function function)
  | SParameter reference => ParameterRef_to_string reference
  | _ => node_id (se_node expr)
  end.

Definition show_Z (z : Z) : string := pretty z.

Fixpoint render_data_type (data_type : DataType) : string :=
  match data_type with
  | TBoolean => "BOOLEAN"
  | TInt32 => "INT32"
  | TInt64 => "INT64"
  | TFloat64 => "FLOAT64"
  | TUtf8 => "UTF8"
  | TUuid => "UUID"
  | TJson => "JSON"
  | TDate => "DATE"
  | TDecimal precision scale => "DECIMAL(" +:+ show_N precision +:+ "," +:+ show_Z scale +:+ ")"
  | TTimestamp timezone =>
      match timezone with
      | Some timezone => "TIMESTAMP(" +:+ timezone +:+ ")"
      | None => "TIMESTAMP"
      end
  | TList inner => "LIST<" +:+ render_data_type inner +:+ ">"
  | TStruct _ => "STRUCT"
  | TUnknown => "UNKNOWN"
  end.

(** ** Parameters ([bind/params.rs]) *)

Definition allocate_parameter (reference : ParameterRef) : M ParameterRef :=
  match reference with
  | Positional 0 =>
      λ b, (Positional (next_auto_position b),
            {| diagnostics := diagnostics b; parameter_constraints := parameter_constraints b;
               next_auto_position := u32_wrapping_add (next_auto_position b) 1 |})
  | other => sret other
  end.

(** [or_insert] of [record_parameter_use]. *)
Definition fresh_constraint (node : SyntaxNode) : ParameterConstraint :=
  {| pc_data_type := None; pc_nullable := NcUnknown; pc_span := span node;
     pc_node_id := Some (node_id node) |}.

Definition refine_constraint (entry : ParameterConstraint) (expected : ExpectedType) : ParameterConstraint :=
  {| pc_data_type :=
       match exp_data_type expected with
       | Some data_type =>
           if is_unknown data_type then pc_data_type entry
           else Some match pc_data_type entry with
                     | Some existing => default TUnknown (common_type existing data_type)
                     | None => data_type
                     end
       | None => pc_data_type entry
       end;
     pc_nullable := nullable_merge (pc_nullable entry) (exp_nullable expected);
     pc_span := pc_span entry; pc_node_id := pc_node_id entry |}.

Definition record_parameter_use (reference : ParameterRef) (expected : ExpectedType) (node : SyntaxNode)
    : M unit :=
  smodify (λ b,
    let entry := default (fresh_constraint node) (bt_get reference (parameter_constraints b)) in
    {| diagnostics := diagnostics b;
       parameter_constraints :=
         bt_insert reference (refine_constraint entry expected) (parameter_constraints b);
       next_auto_position := next_auto_position b |}).

(** [parameter_value_matches_schema]; of the schema only the type and the
    nullability are read. *)
Fixpoint parameter_value_matches (value : ParameterValue) (data_type : DataType) (nullable : bool)
    {struct value} : bool :=
  match value with
  | VNull => nullable
  | VBoolean _ => match data_type with TBoolean => true | _ => false end
  | VInt64 _ => match data_type with TInt32 | TInt64 => true | _ => false end
  | VFloat64 _ => match data_type with TFloat64 | TDecimal _ _ => true | _ => false end
  | VUtf8 _ => match data_type with TUtf8 => true | _ => false end
  | VUuid _ => match data_type with TUuid => true | _ => false end
  | VJson _ => match data_type with TJson => true | _ => false end
  | VList values =>
      match data_type with
      | TList inner => forallb (λ value, parameter_value_matches value inner nullable) values
      | _ => false
      end
  end.

Definition parameter_value_matches_schema (value : ParameterValue) (schema : ParameterSchema) : bool :=
  parameter_value_matches value (ps_data_type schema) (ps_nullable schema).

(** The value check of [finalize_parameters], for a schema without errors. *)
Definition finalize_value (parameters : QueryParameters) (reference : ParameterRef) (node : SyntaxNode)
    (schema : ParameterSchema) : M (option ParameterBinding) :=
  let value := lookup_parameter parameters reference in
  let name := ParameterRef_to_string reference in
  match value with
  | Some v =>
      if negb (parameter_value_matches_schema v schema) then
        push_error "QF0020"
          ("Parameter `" +:+ name +:+ "` value is incompatible with inferred type `"
           +:+ render_data_type (ps_data_type schema) +:+ "`.")
          node (Some "Supply a value that matches the inferred parameter schema.") ;;
        sret None
      else if match v with VNull => negb (ps_nullable schema) | _ => false end then
        push_error "QF0021" ("Parameter `" +:+ name +:+ "` cannot be NULL in this query.") node
          (Some "Supply a non-null parameter value or rewrite the query to allow NULL.") ;;
        sret None
      else sret (Some {| pb_schema := schema; pb_value := value |})
  | None => sret (Some {| pb_schema := schema; pb_value := value |})
  end.

(** One turn of the loop of [finalize_parameters]. *)
Definition finalize_one (parameters : QueryParameters) (reference : ParameterRef)
    (constraint : ParameterConstraint) : M (option ParameterBinding) :=
  let name := ParameterRef_to_string reference in
  let node := {| span := pc_span constraint;
                 node_id := default ("param:" +:+ name) (pc_node_id constraint) |} in
  let! data_type :=
    match pc_data_type constraint with
    | Some data_type => if is_unknown data_type then sret None else sret (Some data_type)
    | None => sret None
    end in
  (match data_type with
   | Some _ => sret tt
   | None => push_error "QF0018" ("Parameter `" +:+ name +:+ "` has unresolved type.") node
               (Some "Cast the parameter or use it in a typed comparison.")
   end) ;;
  let! nullable :=
    match pc_nullable constraint with
    | NcNullable => sret (Some true)
    | NcNonNull => sret (Some false)
    | NcUnknown =>
        push_error "QF0019" ("Parameter `" +:+ name +:+ "` has unresolved nullability.") node
          (Some "Use the parameter in a context that constrains nullability.") ;;
        sret None
    end in
  match data_type, nullable with
  | Some data_type, Some nullable =>
      finalize_value parameters reference node
        {| ps_reference := reference; ps_data_type := data_type; ps_nullable := nullable;
           ps_metadata := FieldMetadata_default |}
  | _, _ => sret None
  end.

(** [sort_by] on the references: a stable sort. *)
Definition binding_le (a b : ParameterBinding) : bool :=
  match cmp (ps_reference (pb_schema a)) (ps_reference (pb_schema b)) with Gt => false | _ => true end.
Fixpoint insert_binding (p : ParameterBinding) (l : list ParameterBinding) : list ParameterBinding :=
  match l with
  | [] => [p]
  | q :: l => if binding_le p q then p :: q :: l else q :: insert_binding p l
  end.
Definition sort_bindings (l : list ParameterBinding) : list ParameterBinding :=
  foldr insert_binding [] l.

Definition bind_error (m : string) (query : option ParsedQuery) (ds : list QueryDiagnostic)
    (provenance : option ProvenanceReceipt) : QueryFabricError :=
  EBind {| be_message := m; be_source_sql := pq_source_sql <$> query;
           be_dialect := pq_dialect <$> query; be_diagnostics := ds; be_provenance := provenance |}.

Definition finalize_parameters (parameters : QueryParameters) : M (Result (list ParameterBinding)) :=
  let! b := sget in
  let! bindings := straverse (λ rc, finalize_one parameters rc.1 rc.2) (parameter_constraints b) in
  let! b := sget in
  sret (if has_error (diagnostics b) then
          Err (bind_error (first_error_message "parameter binding failed" (diagnostics b))
                 None (diagnostics b) None)
        else Ok (sort_bindings (omap id bindings))).

(** ** Types of expressions ([bind/functions.rs], [bind/exprs.rs]) *)

Definition infer_function_return_type (signature : FunctionSignature) (args : list BoundExpr) : DataType :=
  if negb (is_unknown (sig_return_type signature)) then sig_return_type signature
  else if existsb (String.eqb (sig_name signature))
            ["coalesce"; "greatest"; "least"; "min"; "max"; "lag"; "lead"; "first_value"; "last_value"]
  then default TUnknown (reduce common_or_unknown (List.map be_data_type args))
  else TUnknown.

Definition infer_function_nullability (signature : FunctionSignature) (args : list BoundExpr) : bool :=
  let name := sig_name signature in
  match sig_kind signature with
  | FAggregate => negb (String.eqb name "count")
  | FWindow =>
      if existsb (String.eqb name) ["rank"; "dense_rank"; "row_number"] then false
      else if existsb (String.eqb name) ["lag"; "lead"] then true
      else if String.eqb name "coalesce" then forallb be_nullable args
      else existsb be_nullable args
  | FScalar =>
      if String.eqb name "coalesce" then forallb be_nullable args else existsb be_nullable args
  end.

(** The argument type the signature declares for position [idx]. *)
Definition declared_arg_type (signature : FunctionSignature) (idx : nat) : option DataType :=
  option_or_else (nth_error (sig_arg_types signature) idx)
    (if sig_variadic signature then last (sig_arg_types signature) else None).

Definition suggestion_text (prefix : string) (suggestions : list string) : string :=
  prefix +:+ " Did you mean: " +:+ string_join ", " suggestions +:+ "?".

Definition missing_column_remediation `{Unicode} (scope : Scope) (relation : option string) (name : string)
    : option string :=
  match relation with
  | Some relation =>
      if negb (has_relation scope relation) then
        Some ("Unknown relation alias `" +:+ relation +:+ "`. Check the relation aliases in scope.")
      else
        (λ columns,
           let suggestions := top_similar name columns 3 in
           if is_empty suggestions then
             "Check the relation alias `" +:+ relation +:+ "` and its column names."
           else suggestion_text ("Check the column name on `" +:+ relation +:+ "`.") suggestions)
          <$> relation_column_names scope relation
  | None =>
      let suggestions := top_similar name (all_column_names scope) 3 in
      if is_empty suggestions then Some "Check the relation aliases and column names in scope."
      else Some (suggestion_text "Check the relation aliases and column names in scope." suggestions)
  end.

(** [iter().enumerate().map(f).collect()]. *)
Definition straversei {St A B} (f : nat → A → state St B) : nat → list A → state St (list B) :=
  fix go i l :=
    match l with
    | [] => sret []
    | x :: l => let! y := f i x in let! ys := go (S i) l in sret (y :: ys)
    end.

Definition is_parameter (expr : SyntaxExpr) : bool :=
  match se_kind expr with SParameter _ => true | _ => false end.

(** ** Schemas of relations and unions ([bind/query.rs]) *)

Definition make_binding_nullable (b : BoundRelationBinding) : BoundRelationBinding :=
  {| binding_name := binding_name b; relation_name := relation_name b;
     binding_schema := make_schema_nullable (binding_schema b) |}.

Definition make_relation_nullable (r : BoundRelation) : BoundRelation :=
  match r with
  | BTable binding node => BTable (make_binding_nullable binding) node
  | BDerived binding query node => BDerived (make_binding_nullable binding) query node
  | BNestedJoin binding table node => BNestedJoin (make_binding_nullable binding) table node
  | BRelUnsupported _ _ _ => r
  end.

Definition make_join_relations_nullable (js : list BoundJoin) : list BoundJoin :=
  List.map (λ j, MkBoundJoin (bjoin_kind j) (make_relation_nullable (bjoin_relation j))
                   (bjoin_on j) (bjoin_node j)) js.

Definition union_field (l r : ResultField) : ResultField :=
  MkField (field_name l) (common_or_unknown (field_type l) (field_type r))
    (field_nullable l || field_nullable r) (field_metadata l).

Definition zip_with_fields (ls rs : list ResultField) : list ResultField :=
  List.map (λ p, union_field p.1 p.2) (combine ls rs).

Definition unify_union_schema (lhs rhs : ResultSchema) (node : SyntaxNode) : M ResultSchema :=
  if negb (length (fields lhs) =? length (fields rhs)) then
    push_error "QF0022"
      ("UNION ALL requires equal column counts but found " +:+ show_N (vec_len (fields lhs))
       +:+ " and " +:+ show_N (vec_len (fields rhs)) +:+ ".") node None ;;
    sret ResultSchema_default
  else sret (ResultSchema_new (zip_with_fields (fields lhs) (fields rhs))).

Definition rename_field (f : ResultField) (alias : string) : ResultField :=
  MkField alias (field_type f) (field_nullable f) (field_metadata f).

(** The column aliases of a CTE; fields beyond the aliases keep their names. *)
Fixpoint rename_fields (fs : list ResultField) (aliases : list string) : list ResultField :=
  match fs, aliases with
  | f :: fs, a :: aliases => rename_field f a :: rename_fields fs aliases
  | _, _ => fs
  end.

Definition cte_schema (columns : list string) (schema : ResultSchema) : ResultSchema :=
  if negb (is_empty columns) && (length columns =? length (fields schema)) then
    {| fields := rename_fields (fields schema) columns; schema_metadata := schema_metadata schema |}
  else schema.

Abbreviation CteBindings := (BTreeMap string BoundRelationBinding).

Definition cte_binding (name : string) (schema : ResultSchema) : BoundRelationBinding :=
  {| binding_name := name; relation_name := Some {| nr_namespace := None; nr_name := name |};
     binding_schema := schema |}.

(** ** The methods over the tree *)

Section Binding.
Context `{Unicode}.
Variable catalog : Catalog.

(** What the helpers below receive: the method [bind_expr]. *)
Abbreviation BindExpr := (SyntaxExpr → Scope → option Scope → ExpectedType → M BoundExpr).

Definition bind_order_by_expr (bind_expr : BindExpr) (expr : SyntaxOrderByExpr) (scope : Scope)
    (outer_scope : option Scope) : M BoundOrderByExpr :=
  let! e := bind_expr (ob_expr expr) scope outer_scope ExpectedType_default in
  sret (MkBoundOrderByExpr e (ob_asc expr) (ob_nulls_first expr) (ob_node expr)).

Definition bind_column (node : SyntaxNode) (relation : option string) (name : string) (scope : Scope)
    (outer_scope : option Scope) : M BoundExpr :=
  match resolve_column scope relation name with
  | Local_ column =>
      sret (MkBoundExpr (BColumn {| col_relation := resolved_relation column; col_name := name |})
              (field_type (resolved_field column)) (field_nullable (resolved_field column)) node)
  | Ambiguous =>
      unsupported_expr node "QF0016" ("Ambiguous column reference `" +:+ name +:+ "`.")
        (Some "Qualify the column with a relation alias.")
  | Missing =>
      match outer_scope ≫= λ outer, try_resolve_column outer relation name with
      | Some _ =>
          unsupported_expr node "QF0014"
            "Correlated subqueries are outside the verified portable subset."
            (Some "Rewrite the subquery so it depends only on its local FROM scope.")
      | None =>
          unsupported_expr node "QF0015" ("Unknown column `" +:+ name +:+ "`.")
            (missing_column_remediation scope relation name)
      end
  end.

Definition bind_parameter (node : SyntaxNode) (reference : ParameterRef) (expected : ExpectedType) : M BoundExpr :=
  let! reference := allocate_parameter reference in
  record_parameter_use reference expected node ;;
  sret (MkBoundExpr (BParameter reference) (default TUnknown (exp_data_type expected))
          (negb (bool_decide (exp_nullable expected = NcNonNull))) node).

Definition is_not (op : UnaryOperator) : bool := match op with UNot => true | _ => false end.

Definition bind_binary_expr (bind_expr : BindExpr) (node : SyntaxNode) (op : BinaryOperator)
    (lhs rhs : SyntaxExpr) (scope : Scope) (outer_scope : option Scope) : M BoundExpr :=
  match op with
  | And | Or =>
      let! l := bind_expr lhs scope outer_scope (expect TBoolean) in
      let! r := bind_expr rhs scope outer_scope (expect TBoolean) in
      sret (MkBoundExpr (BBinary op l r) TBoolean (be_nullable l || be_nullable r) node)
  | Add | Subtract | Multiply | Divide =>
      let! l := bind_expr lhs scope outer_scope (expect TFloat64) in
      let! r := bind_expr rhs scope outer_scope (expect TFloat64) in
      sret (MkBoundExpr (BBinary op l r)
              (default TFloat64 (common_type (be_data_type l) (be_data_type r)))
              (be_nullable l || be_nullable r) node)
  | Eq_ | NotEq | Lt_ | LtEq | Gt_ | GtEq =>
      let! l := bind_expr lhs scope outer_scope ExpectedType_default in
      let! r := bind_expr rhs scope outer_scope (expect_known (be_data_type l)) in
      sret (MkBoundExpr (BBinary op l r) TBoolean (be_nullable l || be_nullable r) node)
  end.

Definition bind_window (bind_expr : BindExpr) (window : WindowSpec) (scope : Scope)
    (outer_scope : option Scope) : M BoundWindowSpec :=
  let! partition_by :=
    straverse (λ e, bind_expr e scope outer_scope ExpectedType_default) (win_partition_by window) in
  let! order_by :=
    straverse (λ o, bind_order_by_expr bind_expr o scope outer_scope) (win_order_by window) in
  sret (MkBoundWindowSpec partition_by order_by (win_node window)).

Definition bind_function (bind_expr : BindExpr) (node : SyntaxNode) (function : SyntaxFunctionCall)
    (scope : Scope) (outer_scope : option Scope) : M BoundExpr :=
  let namespace := fn_namespace (fc_function function) in
  let name := fn_name (fc_function function) in
  let display := FunctionRef_display_name (fc_function function) in
  match option_or_else (resolve_function catalog namespace name)
          (builtin_function_signature namespace name) with
  | None =>
      unsupported_expr node "QF0013" ("Unknown function `" +:+ display +:+ "`.")
        (Some "Register the function in the catalog or portable builtin registry.")
  | Some signature =>
      let! args := straversei (λ idx arg,
        bind_expr arg scope outer_scope
          {| exp_data_type := declared_arg_type signature idx; exp_nullable := NcNonNull |})
        0 (fc_args function) in
      let! filter := soption (λ e, bind_expr e scope outer_scope (expect TBoolean)) (fc_filter function) in
      let! over := soption (λ w, bind_window bind_expr w scope outer_scope) (fc_over function) in
      (if metadata_flag signature "approximate" || is_some namespace then
         push_warning "QF0104"
           ("Function `" +:+ display
            +:+ "` is backend-specific and outside the verified portable subset.") node
           (Some "Rely on adapter-specific capability checks before executing this query.")
       else sret tt) ;;
      sret (MkBoundExpr
              (BFunction (MkBoundFunctionCall (fc_function function) None args (fc_distinct function)
                            filter over (Some (sig_name signature))))
              (infer_function_return_type signature args)
              (infer_function_nullability signature args) node)
  end.

Definition bind_case (bind_expr : BindExpr) (node : SyntaxNode) (operand : option SyntaxExpr)
    (when_then : list SyntaxWhenThen) (else_result : option SyntaxExpr) (scope : Scope)
    (outer_scope : option Scope) : M BoundExpr :=
  let! operand := soption (λ e, bind_expr e scope outer_scope ExpectedType_default) operand in
  let! when_then := straverse (λ pair,
    let! condition := bind_expr (wt_condition pair) scope outer_scope (expect TBoolean) in
    let! result := bind_expr (wt_result pair) scope outer_scope ExpectedType_default in
    sret (MkBoundWhenThen condition result)) when_then in
  let! else_result := soption (λ e, bind_expr e scope outer_scope ExpectedType_default) else_result in
  let types := List.map (λ p, be_data_type (bwt_result p)) when_then
               ++ match else_result with Some e => [be_data_type e] | None => [] end in
  let nullable := existsb (λ p, be_nullable (bwt_result p)) when_then
                  || match else_result with Some e => be_nullable e | None => true end in
  sret (MkBoundExpr (BCase operand when_then else_result)
          (default TUnknown (reduce common_or_unknown types)) nullable node).

Definition subquery_single_field (node : SyntaxNode) (subquery : BoundQueryPlan) (c context : string)
    : M (option ResultField) :=
  match fields (bq_result_schema subquery) with
  | [field] => sret (Some field)
  | fs =>
      push_error c
        (context +:+ " must project exactly one column in the verified portable subset; found "
         +:+ show_N (vec_len fs) +:+ ".") node
        (Some "Rewrite the subquery to return exactly one projected column.") ;;
      sret None
  end.

(** The field names of a tuple. *)
Definition tuple_fields (items : list BoundExpr) : list ResultField :=
  imap (λ idx item, ResultField_new ("_" +:+ show_N (N.of_nat idx)) (be_data_type item) (be_nullable item)) items.

(** The loop over the projection: the bound items, and the result fields. *)
Definition bind_projection (bind_expr : BindExpr) (scope : Scope) (outer_scope : option Scope)
    (acc : list BoundProjectionItem * list ResultField) (item : SyntaxProjectionItem)
    : M (list BoundProjectionItem * list ResultField) :=
  let '(projection, result_fields) := acc in
  match item with
  | PWildcard qualifier node =>
      let! wild_fields :=
        match match qualifier with
              | Some q => expand_qualified scope q
              | None => Some (expand_all scope)
              end with
        | Some fs => sret fs
        | None =>
            push_error "QF0007"
              ("Unknown relation qualifier `" +:+ default "" qualifier +:+ "` in wildcard projection.")
              node (Some "Use an in-scope relation alias or remove the qualifier.") ;;
            sret []
        end in
      sret (projection ++ [BPWildcard qualifier wild_fields node], result_fields ++ wild_fields)
  | PExpr details =>
      let! bound := bind_expr (pe_expr details) scope outer_scope ExpectedType_default in
      let field := MkField (default (expression_name (pe_expr details)) (pe_alias details))
                     (be_data_type bound) (be_nullable bound) FieldMetadata_default in
      sret (projection ++ [BPExpr (MkBoundProjectionExpr bound (pe_alias details) field (pe_node details))],
            result_fields ++ [field])
  | PUnsupported description node =>
      push_error "QF0008" description node None ;;
      sret (projection ++ [BPUnsupported description node], result_fields)
  end.

Definition bind_select (bind_expr : BindExpr)
    (bind_table : SyntaxTableWithJoins → Scope → M BoundTableWithJoins)
    (select : SyntaxSelect) (outer_scope : option Scope) : M BoundSelect :=
  let! from_scope := sfold (λ acc table,
    let! bound_table := bind_table table acc.2 in
    sret (acc.1 ++ [bound_table], merge_table acc.2 bound_table)) (sel_from select) ([], Scope_default) in
  let scope := from_scope.2 in
  let! selection := soption (λ e, bind_expr e scope outer_scope (expect TBoolean)) (sel_selection select) in
  let! group_by := straverse (λ e, bind_expr e scope outer_scope ExpectedType_default) (sel_group_by select) in
  let! having := soption (λ e, bind_expr e scope outer_scope (expect TBoolean)) (sel_having select) in
  let! projection := sfold (bind_projection bind_expr scope outer_scope) (sel_projection select) ([], []) in
  sret (MkBoundSelect (sel_distinct select) projection.1 from_scope.1 selection group_by having
          (ResultSchema_new projection.2) (sel_node select)).

(** The mutable locals of [bind_table_with_joins]. *)
Record JoinAcc := { ja_relation : BoundRelation; ja_joins : list BoundJoin; ja_scope : Scope }.

(** The adjustments after the [match join.kind]. *)
Definition apply_join_kind (kind : JoinKind) (acc : JoinAcc) : JoinAcc :=
  match kind with
  | JRight | JFull =>
      {| ja_relation := make_relation_nullable (ja_relation acc);
         ja_joins := make_join_relations_nullable (ja_joins acc);
         ja_scope := make_all_nullable (ja_scope acc) |}
  | JLeft | JInner | JCross => acc
  end.

Definition joined_relation (kind : JoinKind) (r : BoundRelation) : BoundRelation :=
  match kind with
  | JLeft | JFull => make_relation_nullable r
  | JRight | JInner | JCross => r
  end.

(** The rest of a turn of the join loop, once the relation and the condition
    are bound. *)
Definition join_step (acc : JoinAcc) (join : SyntaxJoin) (relation : BoundRelation)
    (on : option BoundExpr) : JoinAcc :=
  let acc := apply_join_kind (join_kind join) acc in
  let relation := joined_relation (join_kind join) relation in
  {| ja_relation := ja_relation acc;
     ja_joins := ja_joins acc ++ [MkBoundJoin (join_kind join) relation on (join_node join)];
     ja_scope := push_relation (ja_scope acc) relation |}.

Definition bind_join (bind_relation : SyntaxRelation → Scope → M BoundRelation)
    (bind_expr : BindExpr) (outer_scope : option Scope) (acc : JoinAcc) (join : SyntaxJoin) : M JoinAcc :=
  let! relation := bind_relation (join_relation join) (ja_scope acc) in
  let on_scope := push_relation (ja_scope acc) relation in
  let! on := soption (λ e, bind_expr e on_scope outer_scope (expect TBoolean)) (join_on join) in
  sret (join_step acc join relation on).

Definition bind_table_name (ctes : CteBindings) (name : NameRef) (alias : option string)
    (node : SyntaxNode) : M BoundRelation :=
  match match nr_namespace name with
        | None => bt_get (to_ascii_lowercase (nr_name name)) ctes
        | Some _ => None
        end with
  | Some binding =>
      sret (BTable {| binding_name := default (binding_name binding) alias;
                      relation_name := relation_name binding;
                      binding_schema := binding_schema binding |} node)
  | None =>
      let bound_name := default (nr_name name) alias in
      match resolve_relation catalog (nr_namespace name) (nr_name name) with
      | Some schema =>
          sret (BTable {| binding_name := bound_name; relation_name := Some name;
                          binding_schema := to_result_schema schema |} node)
      | None =>
          push_error "QF0005" ("Unknown relation `" +:+ NameRef_display_name name +:+ "`.") node
            (Some "Register the relation in the catalog or qualify it with the correct namespace.") ;;
          sret (BRelUnsupported ("unknown relation `" +:+ NameRef_display_name name +:+ "`") bound_name node)
      end
  end.

(** The name of a derived relation or of a nested join without an alias. *)
Definition generated_name (alias : option string) (node : SyntaxNode) : string :=
  default (replace_char (Ascii.ascii_of_N 46) (Ascii.ascii_of_N 95) (node_id node)) alias.

Definition bind_backend_clause (clause : BackendClause) : M unit :=
  match clause with
  | ClickHouseSettings _ node =>
      push_warning "QF0101" "ClickHouse SETTINGS are preserved only for backend-specific adapters." node
        (Some "Do not rely on SETTINGS for portable execution.")
  | ClickHouseFormat _ node =>
      push_warning "QF0102" "ClickHouse FORMAT is preserved only for backend-specific adapters." node
        (Some "Prefer result consumers to choose the output format outside QueryFabric core.")
  end.

(** One turn of the loop over the CTEs. *)
Definition bind_cte (bind_query : SyntaxQuery → option Scope → M BoundQueryPlan)
    (acc : CteBindings * list BoundCte) (cte : SyntaxCte) : M (CteBindings * list BoundCte) :=
  let! plan := bind_query (cte_query cte) None in
  let result_schema := cte_schema (cte_columns cte) (bq_result_schema plan) in
  sret (bt_insert (to_ascii_lowercase (cte_name cte)) (cte_binding (cte_name cte) result_schema) acc.1,
        acc.2 ++ [MkBoundCte (cte_name cte) (cte_columns cte) plan result_schema (cte_node cte)]).

Fixpoint bind_query (query : SyntaxQuery) (outer_scope : option Scope) : M BoundQueryPlan :=
  match query with
  | MkSyntaxQuery node cs with_recursive body order_by limit offset clauses =>
      (if with_recursive then
         push_error "QF0001"
           "WITH RECURSIVE is outside the verified QueryFabric portable subset." node
           (Some "Rewrite the query using a non-recursive CTE or a host-side expansion.")
       else sret tt) ;;
      let! bound_ctes := sfold (bind_cte bind_query) cs ([], []) in
      let! body := bind_set_expr body bound_ctes.1 outer_scope in
      let output_scope := from_output_schema (set_expr_result_schema body) in
      let! order_by := straverse (λ o, bind_order_by_expr bind_expr o output_scope None) order_by in
      let! limit := soption (λ e, bind_expr e output_scope None (expect TInt64)) limit in
      let! offset := soption (λ e, bind_expr e output_scope None (expect TInt64)) offset in
      straverse bind_backend_clause clauses ;;
      sret (MkBoundQueryPlan node bound_ctes.2 body order_by limit offset clauses
              (set_expr_result_schema body))
  end
with bind_set_expr (expr : SyntaxSetExpr) (ctes : CteBindings) (outer_scope : option Scope) : M BoundSetExpr :=
  match expr with
  | SSelect select =>
      let! s := bind_select bind_expr (λ t scope, bind_table_with_joins t ctes outer_scope scope)
                  select outer_scope in
      sret (BSelect s)
  | SUnionAll lhs rhs node =>
      let! l := bind_set_expr lhs ctes outer_scope in
      let! r := bind_set_expr rhs ctes outer_scope in
      let! schema := unify_union_schema (set_expr_result_schema l) (set_expr_result_schema r) node in
      sret (BUnionAll l r node schema)
  | SSetUnsupported description node =>
      push_error "QF0002" description node None ;;
      sret (BSetUnsupported description node ResultSchema_default)
  end
with bind_table_with_joins (table : SyntaxTableWithJoins) (ctes : CteBindings)
    (outer_scope : option Scope) (current_scope : Scope) : M BoundTableWithJoins :=
  match table with
  | MkSyntaxTableWithJoins relation js node =>
      let! r := bind_relation relation ctes outer_scope current_scope in
      let! acc := sfold (bind_join (λ r scope, bind_relation r ctes outer_scope scope) bind_expr outer_scope)
        js {| ja_relation := r; ja_joins := []; ja_scope := push_relation current_scope r |} in
      sret (MkBoundTableWithJoins (ja_relation acc) (ja_joins acc) node)
  end
with bind_relation (relation : SyntaxRelation) (ctes : CteBindings) (outer_scope : option Scope)
    (current_scope : Scope) : M BoundRelation :=
  match relation with
  | STable name alias node => bind_table_name ctes name alias node
  | SDerived query alias node =>
      let! plan := bind_query query (Some current_scope) in
      sret (BDerived {| binding_name := generated_name alias node; relation_name := None;
                        binding_schema := bq_result_schema plan |} plan node)
  | SNestedJoin table_with_joins alias node =>
      let! table := bind_table_with_joins table_with_joins ctes None current_scope in
      sret (BNestedJoin {| binding_name := generated_name alias node; relation_name := None;
                           binding_schema := scope_schema_for_table table |} table node)
  | SRelUnsupported description node =>
      push_error "QF0009" description node None ;;
      sret (BRelUnsupported description (node_id node) node)
  end
with bind_expr (expr : SyntaxExpr) (scope : Scope) (outer_scope : option Scope) (expected : ExpectedType)
    : M BoundExpr :=
  match expr with
  | MkSyntaxExpr kind node =>
      match kind with
      | SColumn relation name => bind_column node relation name scope outer_scope
      | SLiteral value => sret (bind_literal node value)
      | SParameter reference => bind_parameter node reference expected
      | SUnary op e =>
          let! inner := bind_expr e scope outer_scope ExpectedType_default in
          sret (MkBoundExpr (BUnary op inner) (if is_not op then TBoolean else be_data_type inner)
                  (be_nullable inner) node)
      | SBinary op lhs rhs => bind_binary_expr bind_expr node op lhs rhs scope outer_scope
      | SFunction function => bind_function bind_expr node function scope outer_scope
      | SCase operand when_then else_result =>
          bind_case bind_expr node operand when_then else_result scope outer_scope
      | SCast e data_type =>
          let! inner := bind_expr e scope outer_scope
                          {| exp_data_type := Some data_type; exp_nullable := NcNullable |} in
          sret (MkBoundExpr (BCast inner data_type) data_type (be_nullable inner) node)
      | SBetween e low high negated =>
          let! input := bind_expr e scope outer_scope ExpectedType_default in
          let! low := bind_expr low scope outer_scope (expect_known (be_data_type input)) in
          let! high := bind_expr high scope outer_scope (expect_known (be_data_type input)) in
          sret (MkBoundExpr (BBetween input low high negated) TBoolean
                  (be_nullable input || be_nullable low || be_nullable high) node)
      | SInList e items negated =>
          let! input := bind_expr e scope outer_scope ExpectedType_default in
          let element_expected :=
            match items with
            | [item] => if is_parameter item then expect (TList (be_data_type input))
                        else expect_known (be_data_type input)
            | _ => expect_known (be_data_type input)
            end in
          let! items := straverse (λ item, bind_expr item scope outer_scope element_expected) items in
          sret (MkBoundExpr (BInList input items negated) TBoolean
                  (be_nullable input || existsb be_nullable items) node)
      | SInSubquery e subquery negated =>
          let! input := bind_expr e scope outer_scope ExpectedType_default in
          let! plan := bind_query subquery (Some scope) in
          let! field := subquery_single_field node plan "QF0024" "IN subqueries" in
          sret (MkBoundExpr (BInSubquery input plan negated) TBoolean
                  (be_nullable input || match field with Some f => field_nullable f | None => false end) node)
      | SScalarSubquery subquery =>
          let! plan := bind_query subquery (Some scope) in
          let! field := subquery_single_field node plan "QF0023" "Scalar subqueries" in
          sret (MkBoundExpr (BScalarSubquery plan)
                  (match field with Some f => field_type f | None => TUnknown end) true node)
      | SExists subquery =>
          let! plan := bind_query subquery (Some scope) in
          sret (MkBoundExpr (BExists plan) TBoolean false node)
      | SLike e pattern negated case_insensitive =>
          let! input := bind_expr e scope outer_scope (expect TUtf8) in
          let! pattern := bind_expr pattern scope outer_scope (expect TUtf8) in
          sret (MkBoundExpr (BLike input pattern negated case_insensitive) TBoolean
                  (be_nullable input || be_nullable pattern) node)
      | SIsNull e negated =>
          (match se_kind e with
           | SParameter reference =>
               let! reference := allocate_parameter reference in
               record_parameter_use reference
                 {| exp_data_type := None; exp_nullable := NcNullable |} (se_node e)
           | _ => sret tt
           end) ;;
          let! inner := bind_expr e scope outer_scope ExpectedType_default in
          sret (MkBoundExpr (BIsNull inner negated) TBoolean false node)
      | STuple items =>
          let! items := straverse (λ e, bind_expr e scope outer_scope ExpectedType_default) items in
          sret (MkBoundExpr (BTuple items) (TStruct (tuple_fields items)) (existsb be_nullable items) node)
      | SArray items =>
          let! items := straverse (λ e, bind_expr e scope outer_scope ExpectedType_default) items in
          sret (MkBoundExpr (BArray items)
                  (TList (default TUnknown (reduce common_or_unknown (List.map be_data_type items))))
                  (existsb be_nullable items) node)
      | SUnsupported description => unsupported_expr node "QF0012" description None
      end
  end.
End Binding.
