(* ===== verification/Render.v ===== *)
(** Analyses and the SQL text of a plan: [queryfabric-catalog/src/render/].

    The methods of [SqlRenderer] are functions of its fields, which no method
    changes.  The renderer calls itself over the plan, so the four methods that
    recur are a mutual fixpoint, and the others receive [render_expr] as an
    argument. *)
From S2P Require Import Prelude BTreeMap Types Diagnostics Syntax Bound Catalog Features Cost Suggest Bind.
From Stdlib Require Import Ascii.
Local Open Scope result_scope.

(** ** Texts ([render/helpers.rs]) *)

Inductive SqlBackend := ClickHouse | Postgres.

Definition backend_name (b : SqlBackend) : string :=
  match b with ClickHouse => "clickhouse" | Postgres => "postgres" end.

(** The double quote and the quote of a string literal. *)
Definition dquote : Ascii.ascii := Ascii.ascii_of_N 34.
Definition squote : Ascii.ascii := Ascii.ascii_of_N 39.
Definition char_text (c : Ascii.ascii) : string := String c EmptyString.

(** [value.replace(c, cc)]. *)
Definition double_char (c : Ascii.ascii) (s : string) : string := replace_with c (char_text c +:+ char_text c) s.

Definition render_literal (value : LiteralValue) : string :=
  match value with
  | LNull => "NULL"
  | LBoolean b => if b then "TRUE" else "FALSE"
  | LInt64 i => show_Z i
  | LFloat64 text => text
  | LUtf8 text => char_text squote +:+ double_char squote text +:+ char_text squote
  end.

(** A predicate that only accepts ASCII characters holds of all characters of a
    text exactly when it holds of all its bytes. *)
Definition bytes (s : string) : list N := List.map Ascii.N_of_ascii (String.list_ascii_of_string s).

(** [char::is_control]: the general category [Cc]. *)
Definition is_control (c : N) : bool := (c <=? 31)%N || ((127 <=? c)%N && (c <=? 159)%N).
Definition is_ascii_digit (c : N) : bool := (48 <=? c)%N && (c <=? 57)%N.
Definition is_ascii_alphabetic (c : N) : bool :=
  ((65 <=? c) && (c <=? 90) || (97 <=? c) && (c <=? 122))%N.
Definition is_ascii_alphanumeric (c : N) : bool := is_ascii_alphabetic c || is_ascii_digit c.
Definition is_char (a : Ascii.ascii) (c : N) : bool := (c =? Ascii.N_of_ascii a)%N.

Definition reserved_words : list string :=
  ["all"; "and"; "as"; "by"; "case"; "cross"; "distinct"; "else"; "end"; "exists"; "from"; "full";
   "group"; "having"; "in"; "inner"; "is"; "join"; "left"; "like"; "limit"; "not"; "null"; "offset";
   "on"; "or"; "order"; "right"; "select"; "then"; "union"; "when"; "where"; "with"].

Definition is_simple_identifier (value : string) : bool :=
  negb (existsb (String.eqb (to_ascii_lowercase value)) reserved_words)
  && match bytes value with
     | [] => false
     | c :: cs =>
         (is_char "_"%char c || is_ascii_alphabetic c)
         && forallb (λ c, is_char "_"%char c || is_char "$"%char c || is_ascii_alphanumeric c) cs
     end.

Definition render_identifier (backend : SqlBackend) (value : string) : Result string :=
  if String.eqb value "" || existsb is_control (chars value) then
    Err (unsupported "identifier" "identifiers must be non-empty and contain no control characters")
  else if is_simple_identifier value then Ok value
  else
    let quote := match backend with ClickHouse | Postgres => dquote end in
    Ok (char_text quote +:+ double_char quote value +:+ char_text quote).

Definition render_qualified_name (backend : SqlBackend) (value : string) : Result string :=
  let segments := split_char "."%char value in
  if existsb (String.eqb "") segments then
    Err (unsupported "identifier" "qualified names cannot contain empty segments")
  else
    let? segments := rcollect (render_identifier backend) segments in
    Ok (string_join "." segments).

(** A name with its namespace in front, rendered after the name. *)
Definition with_namespace (backend : SqlBackend) (namespace : option string) (name : string) : Result string :=
  match namespace with
  | Some namespace => let? n := render_identifier backend namespace in Ok (n +:+ "." +:+ name)
  | None => Ok name
  end.

Definition render_name_ref (backend : SqlBackend) (name : NameRef) : Result string :=
  let? rendered_name := render_identifier backend (nr_name name) in
  with_namespace backend (nr_namespace name) rendered_name.

Definition is_parameterized_function_name (value : string) : bool :=
  match find_char "("%char value with
  | None => false
  | Some open =>
      ends_with_char ")"%char value && negb (Nat.eqb open 0)
      && forallb (λ c, is_char "_"%char c || is_ascii_alphanumeric c) (bytes (String.substring 0 open value))
      && forallb (λ c, is_ascii_digit c || is_char "."%char c || is_char ","%char c)
           (bytes (String.substring (open + 1) (String.length value - 1 - (open + 1)) value))
  end.

Definition render_function_ref (backend : SqlBackend) (function : FunctionRef) : Result string :=
  let? name := if is_parameterized_function_name (fn_name function) then Ok (fn_name function)
               else render_identifier backend (fn_name function) in
  with_namespace backend (fn_namespace function) name.

Definition render_binary_operator (op : BinaryOperator) : string :=
  match op with
  | Add => "+" | Subtract => "-" | Multiply => "*" | Divide => "/"
  | Eq_ => "=" | NotEq => "<>" | Lt_ => "<" | LtEq => "<=" | Gt_ => ">" | GtEq => ">="
  | And => "AND" | Or => "OR"
  end.

Definition timezone_char (c : N) : bool :=
  is_ascii_alphanumeric c || is_char "_"%char c || is_char "/"%char c || is_char "+"%char c || is_char "-"%char c.

Fixpoint clickhouse_type_name (data_type : DataType) : Result string :=
  match data_type with
  | TBoolean => Ok "Bool"
  | TInt32 => Ok "Int32"
  | TInt64 => Ok "Int64"
  | TFloat64 => Ok "Float64"
  | TUtf8 => Ok "String"
  | TUuid => Ok "UUID"
  | TJson => Ok "JSON"
  | TDate => Ok "Date"
  | TDecimal precision scale => Ok ("Decimal(" +:+ show_N precision +:+ ", " +:+ show_Z scale +:+ ")")
  | TTimestamp (Some timezone) =>
      if String.eqb timezone "" || negb (forallb timezone_char (bytes timezone)) then
        Err (unsupported "type" "ClickHouse timestamp timezones contain unsupported characters")
      else Ok ("DateTime64(6, '" +:+ timezone +:+ "')")
  | TTimestamp None => Ok "DateTime64(6)"
  | TList inner => let? inner := clickhouse_type_name inner in Ok ("Array(" +:+ inner +:+ ")")
  | TStruct _ => Err (unsupported "type" "struct parameters are not supported")
  | TUnknown => Err (unsupported "type" "cannot render unknown type")
  end.

Fixpoint postgres_type_name (data_type : DataType) : Result string :=
  match data_type with
  | TBoolean => Ok "BOOLEAN"
  | TInt32 => Ok "INTEGER"
  | TInt64 => Ok "BIGINT"
  | TFloat64 => Ok "DOUBLE PRECISION"
  | TUtf8 => Ok "TEXT"
  | TUuid => Ok "UUID"
  | TJson => Ok "JSONB"
  | TDate => Ok "DATE"
  | TDecimal precision scale => Ok ("NUMERIC(" +:+ show_N precision +:+ ", " +:+ show_Z scale +:+ ")")
  | TTimestamp timezone => Ok (match timezone with Some _ => "TIMESTAMPTZ" | None => "TIMESTAMP" end)
  | TList inner => let? inner := postgres_type_name inner in Ok (inner +:+ "[]")
  | TStruct _ => Err (unsupported "type" "struct parameters are not supported")
  | TUnknown => Err (unsupported "type" "cannot render unknown type")
  end.

Definition backend_type_name (backend : SqlBackend) (data_type : DataType) : Result string :=
  match backend with
  | ClickHouse => clickhouse_type_name data_type
  | Postgres => postgres_type_name data_type
  end.

Definition backend_code (backend : string) : string :=
  if String.eqb backend "clickhouse" then "11"
  else if String.eqb backend "postgres" then "21" else "99".

Definition is_list (data_type : DataType) : bool := match data_type with TList _ => true | _ => false end.

(** [sort_by] on the references: a stable sort. *)
Definition schema_le (a b : ParameterSchema) : bool :=
  match cmp (ps_reference a) (ps_reference b) with Gt => false | _ => true end.
Fixpoint insert_schema (p : ParameterSchema) (l : list ParameterSchema) : list ParameterSchema :=
  match l with
  | [] => [p]
  | q :: l => if schema_le p q then p :: q :: l else q :: insert_schema p l
  end.

Definition ordered_parameters (query : BoundQuery) : list ParameterSchema :=
  foldr insert_schema [] (List.map pb_schema (bound_parameters query)).

(** ** The renderer ([render/emit.rs]) *)

Record SqlRenderer := {
  backend : SqlBackend;
  parameter_order : list ParameterSchema;
  parameter_positions : BTreeMap ParameterRef N
}.

Definition SqlRenderer_new (b : SqlBackend) (parameters : list ParameterSchema) : SqlRenderer :=
  {| backend := b; parameter_order := parameters;
     parameter_positions :=
       bt_from_list (imap (λ idx schema, (ps_reference schema, N.of_nat (idx + 1))) parameters) |}.

Section Renderer.
Variable catalog : Catalog.
Variable self : SqlRenderer.

Definition unknown_parameter (reference : ParameterRef) : QueryFabricError :=
  unsupported "render" ("unknown parameter `" +:+ ParameterRef_to_string reference +:+ "`").

Definition parameter_schema (reference : ParameterRef) : Result ParameterSchema :=
  ok_or (List.find (λ schema, bool_decide (ps_reference schema = reference)) (parameter_order self))
    (unknown_parameter reference).

Definition render_parameter (reference : ParameterRef) : Result string :=
  let? schema := parameter_schema reference in
  let? position := ok_or (bt_get reference (parameter_positions self)) (unknown_parameter reference) in
  match backend self with
  | Postgres => Ok ("$" +:+ show_N position)
  | ClickHouse =>
      let? type_name := backend_type_name (backend self) (ps_data_type schema) in
      Ok ("{p" +:+ show_N position +:+ ":" +:+ type_name +:+ "}")
  end.

Definition render_backend_clause (clause : BackendClause) : string :=
  match backend self, clause with
  | ClickHouse, ClickHouseSettings text _ => " SETTINGS " +:+ text
  | ClickHouse, ClickHouseFormat text _ => " " +:+ text
  | _, _ => ""
  end.

(** The steps [if let Some(e) = ... { sql.push_str(keyword); ... }] and
    [if !l.is_empty() { sql.push_str(keyword); ... join(", ") }]. *)
Definition opt_clause {A} (keyword : string) (render : A → Result string) (o : option A) : Result string :=
  match o with
  | Some x => let? text := render x in Ok (keyword +:+ text)
  | None => Ok ""
  end.
Definition comma_list {A} (render : A → Result string) (l : list A) : Result string :=
  let? texts := rcollect render l in Ok (string_join ", " texts).
Definition list_clause {A} (keyword : string) (render : A → Result string) (l : list A) : Result string :=
  if is_empty l then Ok "" else let? text := comma_list render l in Ok (keyword +:+ text).
Definition concat_all {A} (render : A → Result string) (l : list A) : Result string :=
  let? texts := rcollect render l in Ok (string_join "" texts).

Definition negation (negated : bool) : string := if negated then "NOT " else "".

Definition render_cte (render_query_inner : BoundQueryPlan → Result string) (cte : BoundCte) : Result string :=
  let? name := render_identifier (backend self) (bcte_name cte) in
  let? columns :=
    if is_empty (bcte_columns cte) then Ok ""
    else let? columns := comma_list (render_identifier (backend self)) (bcte_columns cte) in
         Ok (" (" +:+ columns +:+ ")") in
  let? query := render_query_inner (bcte_query cte) in
  Ok (name +:+ columns +:+ " AS (" +:+ query +:+ ")").

(** Over the recursive calls. *)
Section Methods.
Variable render_expr : BoundExpr → Result string.

Definition render_order_by (expr : BoundOrderByExpr) : Result string :=
  let? sql := render_expr (bob_expr expr) in
  Ok (sql
      +:+ match bob_asc expr with Some asc => if asc then " ASC" else " DESC" | None => "" end
      +:+ match bob_nulls_first expr with
          | Some nulls_first => if nulls_first then " NULLS FIRST" else " NULLS LAST"
          | None => ""
          end).

Definition render_projection (item : BoundProjectionItem) : Result string :=
  match item with
  | BPWildcard (Some qualifier) _ _ =>
      let? q := render_qualified_name (backend self) qualifier in Ok (q +:+ ".*")
  | BPWildcard None _ _ => Ok "*"
  | BPExpr details =>
      let? rendered := render_expr (bpe_expr details) in
      match bpe_alias details with
      | Some alias => let? a := render_identifier (backend self) alias in Ok (rendered +:+ " AS " +:+ a)
      | None => Ok rendered
      end
  | BPUnsupported description _ =>
      Err (unsupported "render" ("cannot render unsupported projection: " +:+ description))
  end.

Definition render_select (render_table : BoundTableWithJoins → Result string) (select : BoundSelect)
    : Result string :=
  let? projection := comma_list render_projection (bsel_projection select) in
  let? from := list_clause " FROM " render_table (bsel_from select) in
  let? selection := opt_clause " WHERE " render_expr (bsel_selection select) in
  let? group_by := list_clause " GROUP BY " render_expr (bsel_group_by select) in
  let? having := opt_clause " HAVING " render_expr (bsel_having select) in
  Ok ("SELECT " +:+ (if bsel_distinct select then "DISTINCT " else "") +:+ projection +:+ from
      +:+ selection +:+ group_by +:+ having).

Definition join_keyword (kind : JoinKind) : string :=
  match kind with
  | JInner => "INNER JOIN "
  | JLeft => "LEFT JOIN "
  | JRight => "RIGHT JOIN "
  | JFull => "FULL JOIN "
  | JCross => "CROSS JOIN "
  end.

(** One turn of the join loop of [render_table_with_joins]. *)
Definition render_join (render_relation : BoundRelation → Result string) (join : BoundJoin) : Result string :=
  let? relation := render_relation (bjoin_relation join) in
  let? on := opt_clause " ON " render_expr (bjoin_on join) in
  Ok (" " +:+ join_keyword (bjoin_kind join) +:+ relation +:+ on).

Definition render_table_name (binding : BoundRelationBinding) : Result string :=
  let? sql := match relation_name binding with
              | Some name => render_name_ref (backend self) name
              | None => render_identifier (backend self) (binding_name binding)
              end in
  if match relation_name binding with
     | Some name => negb (eq_ignore_ascii_case (nr_name name) (binding_name binding))
     | None => false
     end then
    let? alias := render_identifier (backend self) (binding_name binding) in Ok (sql +:+ " AS " +:+ alias)
  else Ok sql.

(** A relation in parentheses, under its name. *)
Definition with_alias (sql : string) (binding : BoundRelationBinding) : Result string :=
  let? alias := render_identifier (backend self) (binding_name binding) in
  Ok ("(" +:+ sql +:+ ")" +:+ " AS " +:+ alias).

Definition render_column (column : BoundColumnRef) : Result string :=
  match col_relation column with
  | Some relation =>
      let? r := render_qualified_name (backend self) relation in
      let? c := render_identifier (backend self) (col_name column) in
      Ok (r +:+ "." +:+ c)
  | None => render_identifier (backend self) (col_name column)
  end.

Definition unary_operator (op : UnaryOperator) : string :=
  match op with UPlus => "+" | UMinus => "-" | UNot => "NOT " end.

Definition render_window (window : BoundWindowSpec) : Result string :=
  let? partition_by := list_clause "PARTITION BY " render_expr (bwin_partition_by window) in
  let? order_by := list_clause "ORDER BY " render_order_by (bwin_order_by window) in
  let parts := (if is_empty (bwin_partition_by window) then [] else [partition_by])
               ++ (if is_empty (bwin_order_by window) then [] else [order_by]) in
  Ok (" OVER (" +:+ string_join " " parts +:+ ")").

Definition render_function (function : BoundFunctionCall) : Result string :=
  let ref := bfc_function function in
  let? signature := ok_or (resolve_function catalog (fn_namespace ref) (fn_name ref))
    (unsupported "render" ("unknown function `" +:+ FunctionRef_display_name ref +:+ "`")) in
  let? mapped := ok_or (backend_mapping signature (backend_name (backend self)))
    (unsupported "render" ("function `" +:+ FunctionRef_display_name ref +:+ "` has no backend mapping")) in
  let? rendered_args := comma_list render_expr (bfc_args function) in
  let args_sql := if eq_ignore_ascii_case (fn_name ref) "count" && is_empty (bfc_args function)
                  then "*" else rendered_args in
  let? name := render_function_ref (backend self) mapped in
  let? filter := match bfc_filter function with
                 | Some filter => let? f := render_expr filter in Ok (" FILTER (WHERE " +:+ f +:+ ")")
                 | None => Ok ""
                 end in
  let? over := match bfc_over function with Some window => render_window window | None => Ok "" end in
  Ok (name +:+ "(" +:+ (if bfc_distinct function then "DISTINCT " else "") +:+ args_sql +:+ ")"
      +:+ filter +:+ over).

Definition render_case (operand : option BoundExpr) (when_then : list BoundWhenThen)
    (else_result : option BoundExpr) : Result string :=
  let? operand := opt_clause " " render_expr operand in
  let? pairs := concat_all (λ pair,
    let? condition := render_expr (bwt_condition pair) in
    let? result := render_expr (bwt_result pair) in
    Ok (" WHEN " +:+ condition +:+ " THEN " +:+ result)) when_then in
  let? else_result := opt_clause " ELSE " render_expr else_result in
  Ok ("CASE" +:+ operand +:+ pairs +:+ else_result +:+ " END").

(** The parameter of a list of one parameter. *)
Definition only_parameter (items : list BoundExpr) : option ParameterRef :=
  match items with
  | [MkBoundExpr (BParameter reference) _ _ _] => Some reference
  | _ => None
  end.

Definition render_in_list (expr : BoundExpr) (items : list BoundExpr) (negated : bool) : Result string :=
  let? list_parameter :=
    match only_parameter items with
    | Some reference =>
        let? schema := parameter_schema reference in
        Ok (if is_list (ps_data_type schema) then Some reference else None)
    | None => Ok None
    end in
  match list_parameter with
  | Some reference =>
      let? e := render_expr expr in
      let? p := render_parameter reference in
      match backend self with
      | Postgres => Ok (e +:+ " " +:+ (if negated then "<> ALL" else "= ANY") +:+ "(" +:+ p +:+ ")")
      | ClickHouse => Ok (e +:+ " " +:+ negation negated +:+ "IN " +:+ p)
      end
  | None =>
      let? e := render_expr expr in
      let? l := comma_list render_expr items in
      Ok (e +:+ " " +:+ negation negated +:+ "IN (" +:+ l +:+ ")")
  end.
End Methods.

Definition is_select (e : BoundSetExpr) : bool := match e with BSelect _ => true | _ => false end.
Definition paren_unless (b : bool) (text : string) : string := if b then text else "(" +:+ text +:+ ")".

Fixpoint render_query_inner (query : BoundQueryPlan) : Result string :=
  match query with
  | MkBoundQueryPlan _ ctes body order_by limit offset backend_clauses _ =>
      let? with_ :=
        if is_empty ctes then Ok ""
        else let? ctes := comma_list (λ cte, render_cte render_query_inner cte) ctes in
             Ok ("WITH " +:+ ctes +:+ " ") in
      let? body := render_set_expr body in
      let? order_by := list_clause " ORDER BY " (λ o, render_order_by render_expr o) order_by in
      let? limit := opt_clause " LIMIT " render_expr limit in
      let? offset := opt_clause " OFFSET " render_expr offset in
      Ok (with_ +:+ body +:+ order_by +:+ limit +:+ offset
          +:+ string_join "" (List.map render_backend_clause backend_clauses))
  end
with render_set_expr (expr : BoundSetExpr) : Result string :=
  match expr with
  | BSelect select => render_select render_expr render_table_with_joins select
  | BUnionAll lhs rhs _ _ =>
      let? l := render_set_expr lhs in
      let? r := render_set_expr rhs in
      Ok (paren_unless (is_select lhs) l +:+ " UNION ALL " +:+ paren_unless (is_select rhs) r)
  | BSetUnsupported description _ _ =>
      Err (unsupported "render" ("cannot render unsupported set expression: " +:+ description))
  end
with render_table_with_joins (table : BoundTableWithJoins) : Result string :=
  match table with
  | MkBoundTableWithJoins relation joins _ =>
      let? sql := render_relation relation in
      let? joins := concat_all (λ j, render_join render_expr render_relation j) joins in
      Ok (sql +:+ joins)
  end
with render_relation (relation : BoundRelation) : Result string :=
  match relation with
  | BTable binding _ => render_table_name binding
  | BDerived binding query _ => let? sql := render_query_inner query in with_alias sql binding
  | BNestedJoin binding table _ => let? sql := render_table_with_joins table in with_alias sql binding
  | BRelUnsupported description _ _ =>
      Err (unsupported "render" ("cannot render unsupported relation: " +:+ description))
  end
with render_expr (expr : BoundExpr) : Result string :=
  match expr with
  | MkBoundExpr kind _ _ _ =>
      match kind with
      | BColumn column => render_column column
      | BLiteral value => Ok (render_literal value)
      | BParameter reference => render_parameter reference
      | BUnary op e => let? e := render_expr e in Ok (unary_operator op +:+ e)
      | BBinary op lhs rhs =>
          let? l := render_expr lhs in
          let? r := render_expr rhs in
          Ok ("(" +:+ l +:+ " " +:+ render_binary_operator op +:+ " " +:+ r +:+ ")")
      | BFunction function => render_function render_expr function
      | BCase operand when_then else_result => render_case render_expr operand when_then else_result
      | BCast e data_type =>
          let? e := render_expr e in
          let? t := backend_type_name (backend self) data_type in
          Ok ("CAST(" +:+ e +:+ " AS " +:+ t +:+ ")")
      | BBetween e low high negated =>
          let? e := render_expr e in
          let? low := render_expr low in
          let? high := render_expr high in
          Ok (e +:+ " " +:+ negation negated +:+ "BETWEEN " +:+ low +:+ " AND " +:+ high)
      | BInList e items negated => render_in_list render_expr e items negated
      | BInSubquery e subquery negated =>
          let? e := render_expr e in
          let? q := render_query_inner subquery in
          Ok (e +:+ " " +:+ negation negated +:+ "IN (" +:+ q +:+ ")")
      | BScalarSubquery subquery => let? q := render_query_inner subquery in Ok ("(" +:+ q +:+ ")")
      | BExists subquery => let? q := render_query_inner subquery in Ok ("EXISTS (" +:+ q +:+ ")")
      | BLike e pattern negated case_insensitive =>
          let? e := render_expr e in
          let? p := render_expr pattern in
          Ok (e +:+ " " +:+ negation negated +:+ (if case_insensitive then "ILIKE" else "LIKE") +:+ " " +:+ p)
      | BIsNull e negated => let? e := render_expr e in Ok (e +:+ " IS " +:+ negation negated +:+ "NULL")
      | BTuple items => let? l := comma_list render_expr items in Ok ("(" +:+ l +:+ ")")
      | BArray items =>
          let? l := comma_list render_expr items in
          Ok (match backend self with ClickHouse => "[" | Postgres => "ARRAY[" end +:+ l +:+ "]")
      | BUnsupported description =>
          Err (unsupported "render" ("cannot render unsupported expression: " +:+ description))
      end
  end.

Definition render_query (query : BoundQueryPlan) (explain : bool) : Result string :=
  let? text := render_query_inner query in
  Ok ((if explain then "EXPLAIN " else "") +:+ text).
End Renderer.

Definition emit_sql_artifact (query : BoundQuery) (catalog : Catalog) (b : SqlBackend) : Result SqlArtifact :=
  let parameters := ordered_parameters query in
  let? text := render_query catalog (SqlRenderer_new b parameters) (bound_plan query)
                 (pq_explain (bound_parsed query)) in
  Ok {| sql_dialect := backend_name b; sql_text := text; sql_parameters := parameters;
        sql_result_schema := bound_result_schema query; sql_metadata := [];
        sql_provenance :=
          receipt_with_artifact_identity (receipt_with_backend (bound_provenance query) (backend_name b))
            ("sql:" +:+ backend_name b) |}.

(** ** The analysis ([render/analysis.rs]) *)

(** The iteration of a [BTreeSet<FunctionRef>]: by namespace, then by name. *)
Definition iter_functions (functions : gset FunctionRef) : list FunctionRef :=
  List.map (λ k, {| fn_namespace := k.1; fn_name := k.2 |})
    (bt_keys (bt_from_list (List.map (λ f, ((fn_namespace f, fn_name f), tt)) (elements functions)))).

Section Analysis.
Variable catalog : Catalog.
Variable backend : string.
Variable capabilities : CapabilitySet.

Definition backend_error (suffix message : string) : QueryDiagnostic :=
  with_backend (diagnostic_error ("QF" +:+ backend_code backend +:+ suffix) message) backend.

Definition push_if (b : bool) (d : QueryDiagnostic) : list QueryDiagnostic := if b then [d] else [].

Definition clause_diagnostics (settings format allow_clickhouse_clauses : bool) : list QueryDiagnostic :=
  push_if (settings && negb allow_clickhouse_clauses)
    (backend_error "101" "ClickHouse SETTINGS are not supported on this backend.")
  ++ push_if (format && negb allow_clickhouse_clauses)
    (backend_error "102" "ClickHouse FORMAT is not supported on this backend.").

(** One turn of the loop over the functions. *)
Definition function_diagnostics (function : FunctionRef) : list QueryDiagnostic :=
  let name := FunctionRef_display_name function in
  match resolve_function catalog (fn_namespace function) (fn_name function) with
  | None =>
      [backend_error "103" ("Function `" +:+ name +:+ "` is not registered in the catalog.")]
  | Some signature =>
      push_if (negb (is_some (backend_mapping signature backend)))
        (backend_error "104" ("Function `" +:+ name +:+ "` has no `" +:+ backend +:+ "` backend mapping."))
      ++ push_if (negb (supports capabilities BFApproximateAggregates) && metadata_flag signature "approximate")
        (backend_error "105" ("Approximate aggregate `" +:+ name +:+ "` is not in the verified `"
                              +:+ backend +:+ "` subset."))
      ++ push_if (negb (supports capabilities BFNamespacedFunctions) && is_some (fn_namespace function))
        (backend_error "106" ("Namespaced function `" +:+ name +:+ "` is not in the verified `"
                              +:+ backend +:+ "` subset."))
  end.

Definition requires (query : BoundQuery) (r : CapabilityRequirement) : bool :=
  bool_decide (r ∈ required (bound_capability_requirements query)).

Definition cost_class (query : BoundQuery) : EstimatedCostClass :=
  if requires query Windows || requires query Joins then CostHigh
  else if requires query SetOperations || requires query CommonTableExpressions then CostMedium
  else CostLow.

Definition analyze_backend_support (query : BoundQuery) (allow_clickhouse_clauses : bool) : BackendAnalysis :=
  let features := plan_features_from_bound catalog (bound_plan query) in
  let ds := bound_diagnostics query
            ++ clause_diagnostics (has_clickhouse_settings features) (has_clickhouse_format features)
                 allow_clickhouse_clauses
            ++ flat_map function_diagnostics (iter_functions (feature_functions features)) in
  {| an_supported := negb (has_error ds); an_diagnostics := ds; an_estimated_cost_class := cost_class query;
     an_result_schema := bound_result_schema query;
     an_provenance :=
       receipt_with_capability_decision (receipt_with_backend (bound_provenance query) backend)
         (backend +:+ ":checked") |}.
End Analysis.
