(* ===== verification/SqlText.v ===== *)
(** How a backend reads the text it is sent: the specification the renderer is
    judged by.

    [scan] follows the lexical rules of PostgreSQL (with standard conforming
    strings) far enough to tell code from literals: quoted names and strings
    with doubled quotes, comments, dollar quotes, statement separators and
    nested brackets.  [read_quoted] and [read_identifier] read one token. *)
From S2P Require Import Prelude Types Diagnostics Syntax Suggest Render.
From Stdlib Require Import Ascii.

(** ** Characters *)

Definition digit_char (c : Ascii.ascii) : bool := is_ascii_digit (byte_of c).
(** Letters, digits, underscores and the bytes of non-ASCII characters. *)
Definition word_char (c : Ascii.ascii) : bool :=
  is_ascii_alphanumeric (byte_of c) || is_char "_"%char (byte_of c) || (128 <=? byte_of c)%N.

(** ** The scanner *)

(** What the last character of the code was. *)
Inductive last_char := LOther | LWord | LDash | LSlash | LDollar.
Inductive mode := Code (l : last_char) | InString | InQuoted.

(** The mode, and the closing brackets that are expected. *)
Definition scan_state : Type := mode * list Ascii.ascii.

Definition closer (c : Ascii.ascii) : option Ascii.ascii :=
  if Ascii.eqb c "(" then Some ")"%char else if Ascii.eqb c "[" then Some "]"%char else None.
Definition is_closer (c : Ascii.ascii) : bool := Ascii.eqb c ")" || Ascii.eqb c "]".

(** A quote after a word or a dollar would be a prefixed literal ([E'...']). *)
Definition prefixes (l : last_char) : bool := match l with LWord | LDollar => true | _ => false end.

Definition scan_code (c : Ascii.ascii) (l : last_char) (st : list Ascii.ascii) : option scan_state :=
  if word_char c then
    match l with LDollar => if digit_char c then Some (Code LWord, st) else None | _ => Some (Code LWord, st) end
  else if Ascii.eqb c "$" then
    match l with LWord => Some (Code LWord, st) | LDollar => None | _ => Some (Code LDollar, st) end
  else if Ascii.eqb c squote then if prefixes l then None else Some (InString, st)
  else if Ascii.eqb c dquote then if prefixes l then None else Some (InQuoted, st)
  else if is_closer c then
    match st with k :: st => if Ascii.eqb c k then Some (Code LOther, st) else None | [] => None end
  else if Ascii.eqb c "-" then match l with LDash => None | _ => Some (Code LDash, st) end
  else if Ascii.eqb c "/" then Some (Code LSlash, st)
  else if Ascii.eqb c "*" then match l with LSlash => None | _ => Some (Code LOther, st) end
  else if Ascii.eqb c ";" then None
  else match closer c with Some k => Some (Code LOther, k :: st) | None => Some (Code LOther, st) end.

Definition scan_char (c : Ascii.ascii) (x : scan_state) : option scan_state :=
  match x.1 with
  | Code l => scan_code c l x.2
  | InString => Some (if Ascii.eqb c squote then Code LOther else InString, x.2)
  | InQuoted => Some (if Ascii.eqb c dquote then Code LOther else InQuoted, x.2)
  end.

Fixpoint scan (s : string) (x : scan_state) : option scan_state :=
  match s with
  | EmptyString => Some x
  | String c s => scan_char c x ≫= scan s
  end.

Definition calm (l : last_char) : Prop := l = LOther ∨ l = LWord.

(** A text that is whole: it closes what it opens, it is no comment, and ends
    where any text may follow. *)
Definition sealed (s : string) : Prop :=
  ∀ st, ∃ l, calm l ∧ scan s (Code LOther, st) = Some (Code l, st).

(** ** Reading one token *)

(** After the opening quote [q]: the content and the rest. *)
Fixpoint read_quoted (q : Ascii.ascii) (s : string) : option (string * string) :=
  match s with
  | EmptyString => None
  | String c s =>
      if Ascii.eqb c q then
        match s with
        | String d s' =>
            if Ascii.eqb d q then (λ p, (String q p.1, p.2)) <$> read_quoted q s' else Some ("", s)
        | EmptyString => Some ("", "")
        end
      else (λ p, (String c p.1, p.2)) <$> read_quoted q s
  end.

(** The same where a backslash escapes the next character, as in ClickHouse. *)
Fixpoint read_escaped (q : Ascii.ascii) (s : string) : option (string * string) :=
  match s with
  | EmptyString => None
  | String c s =>
      if Ascii.eqb c "\" then
        match s with
        | String d s' => (λ p, (String d p.1, p.2)) <$> read_escaped q s'
        | EmptyString => None
        end
      else if Ascii.eqb c q then
        match s with
        | String d s' =>
            if Ascii.eqb d q then (λ p, (String q p.1, p.2)) <$> read_escaped q s' else Some ("", s)
        | EmptyString => Some ("", "")
        end
      else (λ p, (String c p.1, p.2)) <$> read_escaped q s
  end.

Definition name_char (c : Ascii.ascii) : bool := word_char c || Ascii.eqb c "$".

Fixpoint read_word (s : string) : string * string :=
  match s with
  | EmptyString => ("", "")
  | String c s' => if name_char c then let p := read_word s' in (String c p.1, p.2) else ("", s)
  end.

(** The words PostgreSQL reserves, so that they name no column, table or alias
    (SQL Key Words, "reserved" and "reserved (can be function or type)"). *)
Definition postgres_reserved : list string :=
  ["all"; "analyse"; "analyze"; "and"; "any"; "array"; "as"; "asc"; "asymmetric"; "authorization"; "binary"; "both";
   "case"; "cast"; "check"; "collate"; "collation"; "column"; "concurrently"; "constraint"; "create"; "cross";
   "current_catalog"; "current_date"; "current_role"; "current_schema"; "current_time"; "current_timestamp";
   "current_user"; "default"; "deferrable"; "desc"; "distinct"; "do"; "else"; "end"; "except"; "false"; "fetch";
   "for"; "foreign"; "freeze"; "from"; "full"; "grant"; "group"; "having"; "ilike"; "in"; "initially"; "inner";
   "intersect"; "into"; "is"; "isnull"; "join"; "lateral"; "leading"; "left"; "like"; "limit"; "localtime";
   "localtimestamp"; "natural"; "not"; "notnull"; "null"; "offset"; "on"; "only"; "or"; "order"; "outer"; "overlaps";
   "placing"; "primary"; "references"; "returning"; "right"; "select"; "session_user"; "similar"; "some";
   "symmetric"; "system_user"; "table"; "tablesample"; "then"; "to"; "trailing"; "true"; "union"; "unique"; "user";
   "using"; "variadic"; "verbose"; "when"; "where"; "window"; "with"].

(** How PostgreSQL reads the name of a column, a table or an alias: a quoted
    name as it is, and a word that is not reserved in lower case. *)
Definition read_identifier (s : string) : option (string * string) :=
  match s with
  | EmptyString => None
  | String c s' =>
      if Ascii.eqb c dquote then read_quoted dquote s'
      else let p := read_word s in
           let word := to_ascii_lowercase p.1 in
           if String.eqb word "" || existsb (String.eqb word) postgres_reserved then None else Some (word, p.2)
  end.

Definition starts_with (f : Ascii.ascii → bool) (s : string) : bool :=
  match s with String c _ => f c | EmptyString => false end.

(** ** Facts: strings *)

Lemma scan_app a b x : scan (a +:+ b) x = scan a x ≫= scan b.
Proof.
  revert x. induction a as [|c a IH]; intros x; [done|].
  change (scan_char c x ≫= scan (a +:+ b) = (scan_char c x ≫= scan a) ≫= scan b).
  destruct (scan_char c x); simpl; [apply IH|done].
Qed.

(** ** Facts: sealed texts

    A [tail] may follow code directly; [glue] is the text between two parts;
    [opens o k] says that [o] opens the bracket that [k] closes. *)

Definition tail (t : string) : Prop :=
  ∀ l st, calm l → ∃ l', calm l' ∧ scan t (Code l, st) = Some (Code l', st).
Definition glue (g : string) : Prop :=
  ∀ l st, calm l → scan g (Code l, st) = Some (Code LOther, st).
Definition opens (o : string) (k : Ascii.ascii) : Prop :=
  is_closer k = true ∧ ∀ l st, calm l → scan o (Code l, st) = Some (Code LOther, k :: st).

Lemma calm_other : calm LOther. Proof. by left. Qed.
Lemma calm_word : calm LWord. Proof. by right. Qed.
Create HintDb seal.
#[export] Hint Resolve calm_other calm_word : seal.

Lemma tail_sealed t : tail t → sealed t.
Proof. intros H st. apply H. auto with seal. Qed.

Lemma tail_nil : tail "".
Proof. intros l st Hl. by exists l. Qed.

Lemma sealed_app a t : sealed a → tail t → sealed (a +:+ t).
Proof.
  intros Ha Ht st. destruct (Ha st) as (l & Hl & E). rewrite scan_app, E. simpl. by apply Ht.
Qed.

Lemma tail_app a t : tail a → tail t → tail (a +:+ t).
Proof.
  intros Ha Ht l st Hl. destruct (Ha l st Hl) as (l' & Hl' & E). rewrite scan_app, E. simpl. by apply Ht.
Qed.

Lemma tail_glue g a : glue g → sealed a → tail (g +:+ a).
Proof. intros Hg Ha l st Hl. rewrite scan_app, Hg by done. simpl. apply Ha. Qed.

Lemma sealed_glue g a : glue g → sealed a → sealed (g +:+ a).
Proof. intros Hg Ha. by apply tail_sealed, tail_glue. Qed.

(** Brackets around a sealed text. *)
Lemma tail_enclosed o k a t : opens o k → sealed a → tail t → tail (o +:+ a +:+ char_text k +:+ t).
Proof.
  intros [Hk Ho] Ha Ht l st Hl. rewrite !scan_app, Ho by done. simpl.
  destruct (Ha (k :: st)) as (l' & Hl' & E). rewrite scan_app, E. simpl.
  assert (Hc : scan_char k (Code l', k :: st) = Some (Code LOther, st)).
  { unfold is_closer in Hk. apply orb_true_iff in Hk as [->%Ascii.eqb_eq| ->%Ascii.eqb_eq]; done. }
  rewrite Hc. apply Ht. auto with seal.
Qed.

Lemma sealed_enclosed o k a t : opens o k → sealed a → tail t → sealed (o +:+ a +:+ char_text k +:+ t).
Proof. intros. by apply tail_sealed, tail_enclosed. Qed.

(** Two parts in brackets. *)
Lemma tail_enclosed2 o k a g b t :
  opens o k → sealed a → glue g → sealed b → tail t → tail (o +:+ a +:+ g +:+ b +:+ char_text k +:+ t).
Proof.
  intros Ho Ha Hg Hb Ht. rewrite <- (string_app_assoc g b), <- (string_app_assoc a).
  apply tail_enclosed; [done| |done]. by apply sealed_app, tail_glue.
Qed.

(** ** Facts: words and numbers *)

Fixpoint all_chars (f : Ascii.ascii → bool) (s : string) : bool :=
  match s with String c s => f c && all_chars f s | EmptyString => true end.

Lemma all_chars_bytes (f : N → bool) s : forallb f (bytes s) = all_chars (λ c, f (byte_of c)) s.
Proof. induction s as [|c s IH]; [done|]. simpl. by rewrite <- IH. Qed.

Lemma all_chars_impl (f g : Ascii.ascii → bool) s :
  (∀ c, f c = true → g c = true) → all_chars f s = true → all_chars g s = true.
Proof.
  intros H. induction s as [|c s IH]; simpl; [done|]. rewrite !andb_true_iff. intros [? ?]. auto.
Qed.

Lemma scan_word s l st :
  all_chars name_char s = true → l ≠ LDollar → s ≠ "" → (starts_with word_char s = true ∨ l = LWord) →
  scan s (Code l, st) = Some (Code LWord, st).
Proof.
  revert l. induction s as [|c s IH]; intros l Hs Hl Hne Hf; [done|].
  simpl in Hs. apply andb_true_iff in Hs as [Hc Hs]. cbn [scan scan_char fst snd].
  assert (E : scan_code c l st = Some (Code LWord, st)).
  { unfold scan_code. unfold name_char in Hc. simpl in Hf. destruct (word_char c) eqn:Ew.
    - by destruct l.
    - destruct Hf as [| ->]; [done|]. simpl in Hc. by rewrite Hc. }
  rewrite E. simpl. destruct s as [|d s]; [done|]. by apply IH; auto.
Qed.

Lemma sealed_word s : all_chars name_char s = true → starts_with word_char s = true → sealed s.
Proof.
  intros Hs Hf st. exists LWord. split; [auto with seal|]. apply scan_word; auto; by destruct s.
Qed.

Lemma word_name_char c : word_char c = true → name_char c = true.
Proof. intros H. unfold name_char. by rewrite H. Qed.

Lemma digit_word_char c : digit_char c = true → word_char c = true.
Proof. unfold digit_char, word_char, is_ascii_alphanumeric. intros ->. by rewrite orb_true_r. Qed.

Lemma show_N_go n s :
  all_chars digit_char s = true → s ≠ "" →
  all_chars digit_char (pretty_N_go n s) = true ∧ pretty_N_go n s ≠ "".
Proof.
  revert s. induction (N.lt_wf_0 n) as [n _ IH]. intros s Hs Hne.
  destruct (decide (0 < n)%N) as [Hn|Hn].
  - rewrite pretty_N_go_step by done. apply IH; [by apply N.div_lt|simpl|done].
    rewrite Hs, andb_true_r. assert (Hm : (n mod 10 < 10)%N) by (by apply N.mod_lt).
    unfold pretty_N_char. by repeat case_match.
  - replace n with 0%N by lia. by rewrite pretty_N_go_0.
Qed.

Lemma show_N_digits n : all_chars digit_char (show_N n) = true ∧ show_N n ≠ "".
Proof.
  unfold show_N, pretty, pretty_N. destruct (decide (n = 0)%N) as [->|Hn]; [done|].
  rewrite pretty_N_go_step by lia. apply show_N_go; [|done]. simpl. rewrite andb_true_r.
  assert (Hm : (n mod 10 < 10)%N) by (by apply N.mod_lt). unfold pretty_N_char. by repeat case_match.
Qed.

(** Digits after anything. *)
Lemma scan_digits s l st :
  all_chars digit_char s = true → s ≠ "" → scan s (Code l, st) = Some (Code LWord, st).
Proof.
  intros Hs Hne. destruct s as [|c s]; [done|]. simpl in Hs. apply andb_true_iff in Hs as [Hc Hs].
  cbn [scan scan_char fst snd].
  assert (E : scan_code c l st = Some (Code LWord, st)).
  { unfold scan_code. rewrite (digit_word_char c Hc). destruct l; by rewrite ?Hc. }
  rewrite E. simpl. destruct s as [|d s]; [done|]. apply scan_word; auto.
  eapply all_chars_impl; [|exact Hs]. intros x Hx. by apply word_name_char, digit_word_char.
Qed.

Lemma scan_show_N n l st : scan (show_N n) (Code l, st) = Some (Code LWord, st).
Proof. destruct (show_N_digits n). by apply scan_digits. Qed.

Lemma sealed_show_N n : sealed (show_N n).
Proof. intros st. exists LWord. rewrite scan_show_N. auto with seal. Qed.

(** ** Facts: quoted texts *)

Lemma replace_with_cons q to c s :
  replace_with q to (String c s) =
  if Ascii.eqb c q then to +:+ replace_with q to s else String c (replace_with q to s).
Proof. done. Qed.

Lemma scan_doubled_string s st : scan (double_char squote s) (InString, st) = Some (InString, st).
Proof.
  induction s as [|c s IH]; [done|]. unfold double_char. rewrite replace_with_cons.
  destruct (Ascii.eqb c squote) eqn:E; [exact IH|].
  cbn [scan scan_char fst snd]. rewrite E. exact IH.
Qed.

Lemma scan_doubled_name s st : scan (double_char dquote s) (InQuoted, st) = Some (InQuoted, st).
Proof.
  induction s as [|c s IH]; [done|]. unfold double_char. rewrite replace_with_cons.
  destruct (Ascii.eqb c dquote) eqn:E; [exact IH|].
  cbn [scan scan_char fst snd]. rewrite E. exact IH.
Qed.

Lemma sealed_string s : sealed (char_text squote +:+ double_char squote s +:+ char_text squote).
Proof.
  intros st. exists LOther. split; [auto with seal|]. rewrite !scan_app. simpl.
  by rewrite scan_app, scan_doubled_string.
Qed.

Lemma sealed_quoted s : sealed (char_text dquote +:+ double_char dquote s +:+ char_text dquote).
Proof.
  intros st. exists LOther. split; [auto with seal|]. rewrite !scan_app. simpl.
  by rewrite scan_app, scan_doubled_name.
Qed.


Lemma read_doubled q s rest :
  starts_with (λ c, Ascii.eqb c q) rest = false →
  read_quoted q (double_char q s +:+ char_text q +:+ rest) = Some (s, rest).
Proof.
  intros Hr. unfold double_char, char_text. rewrite string_app_cons, string_app_nil_l. induction s as [|c s IH].
  - change (replace_with q (String q (String q "")) "") with "".
    rewrite string_app_nil_l, string_app_cons, string_app_nil_l. simpl. rewrite Ascii.eqb_refl.
    destruct rest as [|d rest]; [done|]. simpl in Hr. by rewrite Hr.
  - rewrite replace_with_cons. destruct (Ascii.eqb_spec c q) as [->|Hc].
    + rewrite !string_app_cons, !string_app_nil_l in *. simpl. rewrite Ascii.eqb_refl. by rewrite IH.
    + rewrite string_app_cons. simpl. apply Ascii.eqb_neq in Hc. by rewrite Hc, IH.
Qed.
