(* ===== verification/RenderText.v ===== *)
(** The texts of names, types, numbers and literals: what a backend reads from
    what [render/helpers.rs] writes. *)
From S2P Require Import Prelude Types Diagnostics Syntax Suggest Bind Render SqlText.
From Stdlib Require Import Ascii.
Local Open Scope result_scope.

(** ** Automation *)

Ltac is_glue := intros ? ? [-> | ->]; reflexivity.
Ltac is_tail := intros ? ? [-> | ->]; eexists; (split; [|reflexivity]); auto with seal.
Ltac is_opener := split; [reflexivity|is_glue].
#[export] Hint Extern 1 (glue _) => is_glue : seal.
#[export] Hint Extern 1 (opens _ _) => is_opener : seal.
#[export] Hint Resolve tail_nil tail_glue sealed_app sealed_show_N : seal.

(** The results a [let?] is made of. *)
Ltac results :=
  repeat match goal with
  | H : rbind _ _ = Ok _ |- _ => apply rbind_Ok in H as (? & ? & H)
  | H : Ok _ = Ok _ |- _ => injection H as <-
  | H : Err _ = Ok _ |- _ => discriminate H
  | H : ok_or _ _ = Ok _ |- _ => apply ok_or_Ok in H
  end.

(** ** Identifiers *)

Definition quoted (v : string) : string := char_text dquote +:+ double_char dquote v +:+ char_text dquote.

Lemma render_identifier_Ok b v s :
  render_identifier b v = Ok s → v ≠ "" ∧ (s = v ∧ is_simple_identifier v = true ∨ s = quoted v).
Proof.
  unfold render_identifier, quoted. destruct (String.eqb_spec v "") as [->|Hv]; simpl; [done|].
  destruct (existsb is_control (chars v)); [done|].
  destruct (is_simple_identifier v); intros [= <-]; [by split; [|left]|split; [done|right]]. by destruct b.
Qed.

Lemma alphabetic_word c : is_char "_"%char (byte_of c) || is_ascii_alphabetic (byte_of c) = true → word_char c = true.
Proof. unfold word_char, is_ascii_alphanumeric. intros [-> | ->]%orb_true_iff; rewrite ?orb_true_r; done. Qed.

Lemma identifier_char c :
  is_char "_"%char (byte_of c) || is_char "$"%char (byte_of c) || is_ascii_alphanumeric (byte_of c) = true →
  name_char c = true.
Proof.
  unfold name_char, word_char. rewrite !orb_true_iff. intros [[->|Hd]| ->]; [by auto| |by auto].
  right. unfold is_char in Hd. apply N.eqb_eq in Hd. apply Ascii.eqb_eq.
  rewrite <- (ascii_N_embedding c). unfold byte_of in Hd. by rewrite Hd.
Qed.

Lemma simple_identifier_chars v :
  is_simple_identifier v = true →
  starts_with word_char v = true ∧ all_chars name_char v = true
  ∧ existsb (String.eqb (to_ascii_lowercase v)) reserved_words = false.
Proof.
  unfold is_simple_identifier. intros [Hr Hs]%andb_true_iff. apply negb_true_iff in Hr.
  destruct v as [|c v]; [done|].
  change (bytes (String c v)) with (byte_of c :: bytes v) in Hs. cbn [starts_with all_chars].
  apply andb_true_iff in Hs as [Hc Hv]. apply alphabetic_word in Hc.
  rewrite Hc, (word_name_char c Hc). split_and!; [done| |done]. simpl.
  rewrite all_chars_bytes in Hv. eapply all_chars_impl; [|exact Hv]. intros d Hd. by apply identifier_char.
Qed.

Lemma sealed_identifier b v s : render_identifier b v = Ok s → sealed s.
Proof.
  intros [_ [[-> H]| ->]]%render_identifier_Ok.
  - apply simple_identifier_chars in H as (? & ? & _). by apply sealed_word.
  - apply sealed_quoted.
Qed.
#[export] Hint Resolve sealed_identifier : seal.

Lemma sealed_join sep l : glue sep → Forall sealed l → sealed (string_join sep l).
Proof.
  intros Hg. induction 1 as [|s l Hs Hl IH]; [by apply tail_sealed, tail_nil|].
  destruct l as [|t l]; [done|]. change (sealed (s +:+ sep +:+ string_join sep (t :: l))). auto with seal.
Qed.

Lemma tail_concat l : Forall tail l → tail (string_join "" l).
Proof.
  induction 1 as [|s l Hs Hl IH]; [apply tail_nil|]. destruct l as [|t l]; [done|].
  change (tail (s +:+ "" +:+ string_join "" (t :: l))). rewrite string_app_nil_l. by apply tail_app.
Qed.

Lemma sealed_collected {A} (f : A → Result string) l ss :
  (∀ x s, f x = Ok s → sealed s) → rcollect f l = Ok ss → Forall sealed ss.
Proof. intros Hf H%rcollect_Ok. induction H; constructor; eauto. Qed.

Lemma sealed_qualified_name b v s : render_qualified_name b v = Ok s → sealed s.
Proof.
  unfold render_qualified_name. destruct (existsb _ _); [done|]. intros H. results.
  apply sealed_join; [is_glue|]. eapply sealed_collected; [|eassumption]. apply sealed_identifier.
Qed.

Lemma sealed_with_namespace b ns name s : sealed name → with_namespace b ns name = Ok s → sealed s.
Proof. unfold with_namespace. destruct ns; intros Hn H; results; eauto with seal. Qed.

Lemma sealed_name_ref b n s : render_name_ref b n = Ok s → sealed s.
Proof. unfold render_name_ref. intros H. results. eauto using sealed_with_namespace with seal. Qed.

(** ** Function names *)

Lemma find_char_split c v n :
  find_char c v = Some n → ∃ p r, v = p +:+ String c r ∧ n = String.length p.
Proof.
  revert n. induction v as [|d v IH]; intros n; simpl; [done|].
  destruct (Ascii.eqb_spec d c) as [->|Hd].
  - intros [= <-]. by exists "", v.
  - intros (m & E & ->)%fmap_Some. destruct (IH m E) as (p & r & -> & ->). by exists (String d p), r.
Qed.

Lemma ends_with_app c a b : b ≠ "" → ends_with_char c (a +:+ b) = ends_with_char c b.
Proof.
  intros Hb. induction a as [|x a IH]; [done|]. rewrite string_app_cons. simpl.
  destruct (a +:+ b) eqn:E; [|done]. destruct a; [by rewrite string_app_nil_l in E; subst|done].
Qed.

Lemma ends_with_split c v :
  ends_with_char c v = true → v = String.substring 0 (String.length v - 1) v +:+ char_text c.
Proof.
  induction v as [|d v IH]; [done|]. destruct v as [|e v].
  - by intros ->%Ascii.eqb_eq.
  - intros H. specialize (IH H). simpl in *. rewrite Nat.sub_0_r in IH.
    rewrite string_app_cons. f_equal. exact IH.
Qed.

Lemma length_app (p r : string) : String.length (p +:+ r) = String.length p + String.length r.
Proof. induction p as [|x p IH]; [done|]. rewrite string_app_cons. simpl. by rewrite IH. Qed.

Lemma substring_before p r : String.substring 0 (String.length p) (p +:+ r) = p.
Proof. induction p as [|x p IH]; [by destruct r|]. rewrite string_app_cons. simpl. by f_equal. Qed.

Lemma substring_after p c r m :
  String.substring (String.length p + 1) m (p +:+ String c r) = String.substring 0 m r.
Proof. induction p as [|x p IH]; [done|]. exact IH. Qed.

(** The parts of a name like [quantile(0.5)]. *)
Lemma parameterized_parts v :
  is_parameterized_function_name v = true →
  ∃ p i, v = p +:+ "(" +:+ i +:+ ")" ∧ p ≠ ""
  ∧ all_chars word_char p = true
  ∧ all_chars (λ c, digit_char c || is_char "."%char (byte_of c) || is_char ","%char (byte_of c)) i = true.
Proof.
  unfold is_parameterized_function_name. destruct (find_char "(" v) as [n|] eqn:Ef; [|done].
  intros [[[He Hn]%andb_true_iff Hp]%andb_true_iff Hi]%andb_true_iff.
  apply negb_true_iff, Nat.eqb_neq in Hn.
  destruct (find_char_split _ _ _ Ef) as (p & r & -> & ->).
  assert (Hr : r ≠ "") by (intros ->; by rewrite ends_with_app in He).
  rewrite ends_with_app in He by done. change (String "(" r) with ("(" +:+ r) in He.
  rewrite ends_with_app in He by done.
  rewrite substring_before, all_chars_bytes in Hp.
  rewrite length_app, substring_after, all_chars_bytes in Hi. simpl in Hi.
  replace (String.length p + S (String.length r) - 1 - (String.length p + 1))
    with (String.length r - 1) in Hi by lia.
  exists p, (String.substring 0 (String.length r - 1) r). split_and!.
  - f_equal. change (String "(" r) with ("(" +:+ r). f_equal. by apply ends_with_split.
  - by intros ->.
  - eapply all_chars_impl; [|exact Hp]. intros c Hc. unfold word_char. rewrite !orb_true_iff in *. naive_solver.
  - exact Hi.
Qed.

Lemma tail_arguments i :
  all_chars (λ c, digit_char c || is_char "."%char (byte_of c) || is_char ","%char (byte_of c)) i = true → tail i.
Proof.
  induction i as [|c i IH]; simpl; [intros _; apply tail_nil|]. intros [Hc Hi]%andb_true_iff l st Hl.
  assert (E : ∃ l', calm l' ∧ scan_code c l st = Some (Code l', st)).
  { apply orb_true_iff in Hc as [[Hc|Hc]%orb_true_iff|Hc].
    - exists LWord. split; [auto with seal|]. unfold scan_code. rewrite (digit_word_char c Hc). by destruct Hl as [-> | ->].
    - exists LOther. split; [auto with seal|]. unfold is_char, byte_of in Hc. apply N.eqb_eq in Hc.
      rewrite <- (ascii_N_embedding c), Hc. by destruct Hl as [-> | ->].
    - exists LOther. split; [auto with seal|]. unfold is_char, byte_of in Hc. apply N.eqb_eq in Hc.
      rewrite <- (ascii_N_embedding c), Hc. by destruct Hl as [-> | ->]. }
  destruct E as (l' & Hl' & E). cbn [scan scan_char fst snd]. rewrite E. by apply IH.
Qed.

Lemma sealed_function_name v : is_parameterized_function_name v = true → sealed v.
Proof.
  intros (p & i & -> & Hne & Hp & Hi)%parameterized_parts. apply sealed_app.
  - apply sealed_word; [eapply all_chars_impl; [|exact Hp]; apply word_name_char|].
    destruct p; [done|]. by apply andb_true_iff in Hp as [? _].
  - change ")" with (char_text ")" +:+ ""). apply tail_enclosed; [is_opener| |apply tail_nil].
    by apply tail_sealed, tail_arguments.
Qed.

Lemma sealed_function_ref b f s : render_function_ref b f = Ok s → sealed s.
Proof.
  unfold render_function_ref. intros H. results. eapply sealed_with_namespace; [|eassumption].
  destruct (is_parameterized_function_name (fn_name f)) eqn:E; results; eauto using sealed_function_name with seal.
Qed.

(** ** Types *)

Lemma sealed_show_Z z : sealed (show_Z z).
Proof.
  unfold show_Z. destruct z as [|p|p]; [by apply sealed_word|apply sealed_show_N|].
  change (sealed ("-" +:+ show_N (Npos p))). intros st. exists LWord. split; [auto with seal|].
  rewrite scan_app. simpl. apply scan_show_N.
Qed.
#[export] Hint Resolve sealed_show_Z sealed_function_ref sealed_name_ref sealed_qualified_name : seal.

(** A text of fixed letters. *)
Ltac is_fixed := intros ?; eexists; split; [|reflexivity]; auto with seal.
#[export] Hint Extern 2 (sealed _) => is_fixed : seal.

Lemma sealed_type_name t s : postgres_type_name t = Ok s → sealed s.
Proof.
  revert s. induction t; intros s Hs; simpl in Hs; results; try solve [is_fixed].
  - apply tail_sealed, (tail_enclosed2 "NUMERIC(" ")" (show_N precision) ", " (show_Z scale) ""); auto with seal.
  - destruct timezone; is_fixed.
  - apply sealed_app; [auto|is_tail].
Qed.

(** ** Literals *)

(** The texts of numbers: digits, a point, an exponent with its sign. *)
Fixpoint numeral_tail (after_e : bool) (s : string) : bool :=
  match s with
  | EmptyString => true
  | String c s =>
      if digit_char c || Ascii.eqb c "." then numeral_tail false s
      else if Ascii.eqb c "e" || Ascii.eqb c "E" then numeral_tail true s
      else (Ascii.eqb c "+" || Ascii.eqb c "-") && after_e && starts_with digit_char s && numeral_tail false s
  end.
Definition numeral (s : string) : bool :=
  starts_with (λ c, digit_char c || Ascii.eqb c ".") s && numeral_tail false s.

Lemma tail_numeral e s :
  numeral_tail e s = true →
  tail s ∧ (starts_with digit_char s = true → ∀ st, ∃ l, calm l ∧ scan s (Code LDash, st) = Some (Code l, st)).
Proof.
  revert e. induction s as [|c s IH]; intros e; cbn [numeral_tail]; [split; [apply tail_nil|done]|].
  destruct (digit_char c) eqn:Ed; simpl.
  { intros Hs. destruct (IH _ Hs) as [Ht _].
    assert (E : ∀ l st, scan_code c l st = Some (Code LWord, st)).
    { intros l st. unfold scan_code. rewrite (digit_word_char c Ed), Ed. by destruct l. }
    split; [intros l st _|intros _ st]; cbn [scan scan_char fst snd]; rewrite E; apply Ht; auto with seal. }
  destruct (Ascii.eqb_spec c "."%char) as [->|_].
  { intros Hs. split; [|by rewrite ?Ed]. destruct (IH _ Hs) as [Ht _].
    apply (tail_app "." s); [is_tail|done]. }
  destruct (Ascii.eqb_spec c "e"%char) as [->|_]; [|destruct (Ascii.eqb_spec c "E"%char) as [->|_]]; simpl.
  - intros Hs. split; [|done]. destruct (IH _ Hs) as [Ht _]. intros l st Hl.
    destruct Hl as [-> | ->]; simpl; apply Ht; auto with seal.
  - intros Hs. split; [|done]. destruct (IH _ Hs) as [Ht _]. intros l st Hl.
    destruct Hl as [-> | ->]; simpl; apply Ht; auto with seal.
  - intros [[[Hc _]%andb_true_iff Hd]%andb_true_iff Hs]%andb_true_iff.
    split; [|by simpl; rewrite Ed]. destruct (IH _ Hs) as [Ht Hdash]. intros l st Hl.
    apply orb_true_iff in Hc as [->%Ascii.eqb_eq| ->%Ascii.eqb_eq];
      destruct Hl as [-> | ->]; simpl; first [by apply Hdash | apply Ht; auto with seal].
Qed.

(** A literal that a query text can contain. *)
Definition literal_ok (v : LiteralValue) : bool := match v with LFloat64 text => numeral text | _ => true end.

Lemma sealed_literal v : literal_ok v = true → sealed (render_literal v).
Proof.
  destruct v as [|[]|i|t|t]; simpl; intros H; try solve [is_fixed].
  - apply sealed_show_Z.
  - apply andb_true_iff in H as [_ H]. by apply tail_sealed, (tail_numeral false).
  - apply sealed_string.
Qed.

(** ** Texts that a minus can precede *)

Definition not_dash (c : Ascii.ascii) : bool := negb (Ascii.eqb c "-").

Lemma starts_app f a b : starts_with f a = true → starts_with f (a +:+ b) = true.
Proof. by destruct a. Qed.

Lemma word_not_dash s : starts_with word_char s = true → starts_with not_dash s = true.
Proof.
  destruct s as [|c s]; [done|]. simpl. unfold not_dash. by destruct (Ascii.eqb_spec c "-"%char) as [->|].
Qed.

Lemma identifier_not_dash b v s : render_identifier b v = Ok s → starts_with not_dash s = true.
Proof.
  intros [_ [[-> H]| ->]]%render_identifier_Ok; [|done].
  apply simple_identifier_chars in H as (? & _ & _). by apply word_not_dash.
Qed.

Lemma split_char_cons sep v : split_char sep v ≠ [].
Proof. destruct v as [|c v]; simpl; [done|]. destruct (Ascii.eqb c sep); [done|]. by destruct (split_char sep v). Qed.

Lemma qualified_not_dash b v s : render_qualified_name b v = Ok s → starts_with not_dash s = true.
Proof.
  unfold render_qualified_name. destruct (existsb _ _); [done|]. intros H.
  pose proof (split_char_cons "." v) as Hne. destruct (split_char "." v) as [|w ws]; [done|]. results.
  match goal with H : rcollect _ _ = Ok _ |- _ => apply rcollect_Ok in H; inversion H as [|? ? ? ss Hw]; subst end.
  apply identifier_not_dash in Hw. by destruct ss; [|apply starts_app].
Qed.

Lemma namespace_not_dash b ns name s :
  starts_with not_dash name = true → with_namespace b ns name = Ok s → starts_with not_dash s = true.
Proof.
  unfold with_namespace. destruct ns; intros Hn H; results; [|done].
  by eapply starts_app, identifier_not_dash.
Qed.

Lemma function_ref_not_dash b f s : render_function_ref b f = Ok s → starts_with not_dash s = true.
Proof.
  unfold render_function_ref. intros H. results. eapply namespace_not_dash; [|eassumption].
  destruct (is_parameterized_function_name (fn_name f)) eqn:E; results; [|by eapply identifier_not_dash].
  apply parameterized_parts in E as (p & i & -> & Hne & Hp & _). apply starts_app, word_not_dash.
  destruct p; [done|]. by apply andb_true_iff in Hp as [? _].
Qed.

Lemma scan_code_dash c st : not_dash c = true → scan_code c LDash st = scan_code c LOther st.
Proof. intros H%negb_true_iff. unfold scan_code. cbn [prefixes]. by rewrite H. Qed.

Lemma sealed_minus s : starts_with not_dash s = true → sealed s → sealed ("-" +:+ s).
Proof.
  intros Hs Ht st. destruct (Ht st) as (l & Hl & E). exists l. split; [done|]. rewrite <- E.
  destruct s as [|c s]; [done|].
  change (scan_code c LDash st ≫= scan s = scan_code c LOther st ≫= scan s). by rewrite scan_code_dash.
Qed.

(** ** Properties *)

(** C21: round trip.  A string literal written by the renderer is read by the
    rules of standard SQL as exactly the text it stands for, whatever the text
    contains, and the reading stops where the literal ends. *)
Theorem string_literal_reads_back text rest :
  starts_with (λ c, Ascii.eqb c squote) rest = false →
  ∃ r, render_literal (LUtf8 text) +:+ rest = String squote r
       ∧ read_quoted squote r = Some (text, rest).
Proof.
  intros Hr. exists (double_char squote text +:+ char_text squote +:+ rest). split.
  - simpl. unfold char_text. by rewrite !string_app_assoc.
  - by apply read_doubled.
Qed.

Example string_literal_reads_back_witness :
  starts_with (λ c, Ascii.eqb c squote) ") --" = false
  ∧ ∃ r, render_literal (LUtf8 "it's") +:+ ") --" = String squote r
         ∧ read_quoted squote r = Some ("it's", ") --").
Proof. split; [reflexivity|]. apply (string_literal_reads_back "it's" ") --"). reflexivity. Defined.

(** The words that PostgreSQL reserves and the renderer does not quote. *)
Definition unprotected_words : list string :=
  ["analyse"; "analyze"; "any"; "array"; "asc"; "asymmetric"; "authorization"; "binary"; "both"; "cast"; "check";
   "collate"; "collation"; "column"; "concurrently"; "constraint"; "create"; "current_catalog"; "current_date";
   "current_role"; "current_schema"; "current_time"; "current_timestamp"; "current_user"; "default"; "deferrable";
   "desc"; "do"; "except"; "false"; "fetch"; "for"; "foreign"; "freeze"; "grant"; "ilike"; "initially"; "intersect";
   "into"; "isnull"; "lateral"; "leading"; "localtime"; "localtimestamp"; "natural"; "notnull"; "only"; "outer";
   "overlaps"; "placing"; "primary"; "references"; "returning"; "session_user"; "similar"; "some"; "symmetric";
   "system_user"; "table"; "tablesample"; "to"; "trailing"; "true"; "unique"; "user"; "using"; "variadic"; "verbose";
   "window"].

Lemma unprotected word :
  existsb (String.eqb word) reserved_words = false →
  existsb (String.eqb word) postgres_reserved = existsb (String.eqb word) unprotected_words.
Proof.
  intros Hr. apply eq_iff_eq_true. rewrite !existsb_exists. split.
  - intros (w & Hin & ->%String.eqb_eq).
    assert (Hall : forallb (λ w, existsb (String.eqb w) reserved_words || existsb (String.eqb w) unprotected_words)
                     postgres_reserved = true) by (vm_compute; reflexivity).
    rewrite forallb_forall in Hall. specialize (Hall w Hin). rewrite Hr in Hall. by apply existsb_exists in Hall.
  - intros (w & Hin & ->%String.eqb_eq).
    assert (Hall : forallb (λ w, existsb (String.eqb w) postgres_reserved) unprotected_words = true)
      by (vm_compute; reflexivity).
    rewrite forallb_forall in Hall. specialize (Hall w Hin). by apply existsb_exists in Hall.
Qed.

(** They are words of letters and underscores, in any case, so none is quoted. *)
Definition letter (c : Ascii.ascii) : bool := is_char "_"%char (byte_of c) || is_ascii_alphabetic (byte_of c).

Lemma letter_lower c : letter (ascii_to_lower c) = letter c.
Proof. by destruct c as [[] [] [] [] [] [] [] []]. Qed.

Lemma letters_lower s : all_chars letter (to_ascii_lowercase s) = all_chars letter s.
Proof. induction s as [|c s IH]; [done|]. simpl. by rewrite letter_lower, IH. Qed.

Lemma unprotected_is_simple name :
  existsb (String.eqb (to_ascii_lowercase name)) unprotected_words = true → is_simple_identifier name = true.
Proof.
  intros (w & Hin & Hw%String.eqb_eq)%existsb_exists.
  assert (Hall : forallb (λ w, negb (existsb (String.eqb w) reserved_words) && negb (String.eqb w "") && all_chars letter w)
                   unprotected_words = true) by (vm_compute; reflexivity).
  rewrite forallb_forall in Hall. specialize (Hall w Hin). subst w.
  apply andb_true_iff in Hall as [[Hr Hne]%andb_true_iff Hl]. rewrite letters_lower in Hl.
  unfold is_simple_identifier. rewrite Hr. destruct name as [|c name]; [done|].
  change (bytes (String c name)) with (byte_of c :: bytes name). simpl in Hl. apply andb_true_iff in Hl as [Hc Hl].
  unfold letter in Hc. rewrite Hc. simpl. rewrite all_chars_bytes. eapply all_chars_impl; [|exact Hl].
  intros d. unfold letter, is_ascii_alphanumeric. intros [-> | ->]%orb_true_iff; by rewrite ?orb_true_r.
Qed.

Lemma read_bare_word name rest :
  all_chars name_char name = true → starts_with name_char rest = false → read_word (name +:+ rest) = (name, rest).
Proof.
  intros Hall Hr. induction name as [|c name IH].
  - rewrite string_app_nil_l. destruct rest as [|d rest]; [done|]. simpl in *. by rewrite Hr.
  - rewrite string_app_cons. simpl in *. apply andb_true_iff in Hall as [-> Hall]. by rewrite IH.
Qed.

Lemma read_simple_identifier name rest :
  is_simple_identifier name = true → starts_with name_char rest = false →
  read_identifier (name +:+ rest)
  = if existsb (String.eqb (to_ascii_lowercase name)) unprotected_words then None
    else Some (to_ascii_lowercase name, rest).
Proof.
  intros (Hf & Hall & Hres)%simple_identifier_chars Hr. rewrite <- (unprotected _ Hres).
  pose proof (read_bare_word name rest Hall Hr) as Hw. destruct name as [|c name]; [done|].
  rewrite string_app_cons in *. unfold read_identifier. rewrite Hw.
  destruct (Ascii.eqb_spec c dquote) as [->|]; [done|]. done.
Qed.

Lemma read_quoted_identifier name rest :
  starts_with (λ c, Ascii.eqb c dquote) rest = false → read_identifier (quoted name +:+ rest) = Some (name, rest).
Proof.
  intros Hr. unfold quoted. rewrite !string_app_assoc. unfold char_text at 1. rewrite string_app_cons, string_app_nil_l.
  simpl. by apply read_doubled.
Qed.

Lemma starts_with_orb f g s :
  starts_with (λ c, f c || g c) s = false → starts_with f s = false ∧ starts_with g s = false.
Proof. destruct s; [done|]. apply orb_false_iff. Qed.



(** A name with capitals is left bare, and read as another name. *)
Example capitals_are_folded :
  render_identifier Postgres "RecordId" = Ok "RecordId"
  ∧ read_identifier ("RecordId" +:+ " FROM t") = Some ("recordid", " FROM t").
Proof. split; reflexivity. Qed.
