(* ===== verification/Validate.v ===== *)
(** From a parsed query to a bound one: [bind_and_validate] of
    [queryfabric-catalog/src/bind/mod.rs] and the capability requirements of
    [bind/query.rs]. *)
From S2P Require Import Prelude BTreeMap Types Diagnostics Syntax Bound Catalog Features Suggest Scope Bind.

(** ** Definitions *)

Definition require_if (b : bool) (r : CapabilityRequirement) (c : CapabilityRequirements) : CapabilityRequirements :=
  if b then require c r else c.

(** One turn of the loop over the functions. *)
Definition function_requirements (catalog : Catalog) (c : CapabilityRequirements) (function : FunctionRef)
    : CapabilityRequirements :=
  let c := require_if (is_some (fn_namespace function)) NamespacedFunctions c in
  let approximate :=
    match resolve_function catalog (fn_namespace function) (fn_name function) with
    | Some signature => metadata_flag signature "approximate"
    | None => false
    end in
  record_function (require_if approximate ApproximateAggregates c) function.

Definition requirements_of_features (catalog : Catalog) (features : PlanFeatures) (explain : bool)
    : CapabilityRequirements :=
  let c := CapabilityRequirements_default in
  let c := require_if (has_ctes features) CommonTableExpressions c in
  let c := require_if (has_derived_tables features) DerivedTables c in
  let c := require_if (has_joins features) Joins c in
  let c := require_if (has_windows features) Windows c in
  let c := require_if (has_set_operations features) SetOperations c in
  let c := require_if (has_aggregates features) Aggregates c in
  let c := require_if (has_distinct_aggregates features) DistinctAggregates c in
  let c := require_if (has_scalar_subqueries features) ScalarSubqueries c in
  let c := require_if (has_in_subqueries features) InSubqueries c in
  let c := require_if (has_limit_offset features) LimitOffset c in
  let c := require_if explain Explain c in
  foldl (function_requirements catalog) c (elements (feature_functions features)).

Definition capability_requirements_from_plan (catalog : Catalog) (plan : BoundQueryPlan) (explain : bool)
    : CapabilityRequirements :=
  requirements_of_features catalog (plan_features_from_bound catalog plan) explain.

Section Validate.
Context `{Blake3} `{Unicode}.
Variable catalog : Catalog.

(** The receipt [bind_and_validate] starts from. *)
Definition bind_provenance (parsed : ParsedQuery) : ProvenanceReceipt :=
  receipt_with_catalog_snapshot
    (ProvenanceReceipt_for_query (pq_canonical_sql parsed) (pq_dialect parsed))
    (cat_snapshot_id catalog).

(** The success branch, after the parameters are final. *)
Definition bound_result (parsed : ParsedQuery) (plan : BoundQueryPlan) (bindings : list ParameterBinding)
    (ds : list QueryDiagnostic) : BoundQuery :=
  let requirements := capability_requirements_from_plan catalog plan (pq_explain parsed) in
  let b := bound_with_catalog_snapshot (BoundQuery_new parsed) (cat_snapshot_id catalog) in
  let b := bound_with_plan b plan in
  let b := bound_with_parameters b bindings in
  let b := bound_with_diagnostics b ds in
  let b := bound_with_capability_requirements b requirements in
  let b := bound_with_result_schema b (bq_result_schema plan) in
  bound_with_provenance b
    (receipt_with_capability_decision (bind_provenance parsed)
       (if CapabilityRequirements_is_empty requirements then "portable-v1:trivial"
        else "portable-v1:checked")).

Definition bind_and_validate (parsed : ParsedQuery) (parameters : QueryParameters) : Result BoundQuery :=
  let '(plan, binder) := bind_query catalog (pq_syntax parsed) None (Binder_new parameters) in
  let ds := pq_lowering_diagnostics parsed ++ diagnostics binder in
  if has_error ds then
    Err (bind_error (first_error_message "binding failed" ds) (Some parsed) ds
           (Some (bind_provenance parsed)))
  else
    match (finalize_parameters parameters binder).1 with
    | Err e => Err e
    | Ok bindings => Ok (bound_result parsed plan bindings ds)
    end.

Definition infer_result_schema (parsed : ParsedQuery) : Result ResultSchema :=
  match bind_and_validate parsed QueryParameters_default with
  | Ok b => Ok (bound_result_schema b)
  | Err e => Err e
  end.
End Validate.
