(* ===== verification/BindLogic.v ===== *)
(** Reasoning about the binder.

    Computations only extend the binder's state ([grows]): diagnostics are
    appended and constraints get stronger.  So a property of a result can be
    proved under the assumption that the state at the very end has no error
    ([yields]): every branch that reports an error is then impossible. *)
From S2P Require Import Prelude BTreeMap Types Diagnostics Syntax Bound Catalog Features Suggest Scope Bind.
Local Open Scope state_scope.

(** ** Extension of the state *)

(** [c'] knows at least what [c] knows. *)
Record constraint_le (c c' : ParameterConstraint) : Prop := {
  le_non_null : pc_nullable c = NcNonNull → pc_nullable c' = NcNonNull;
  le_nullability : pc_nullable c ≠ NcUnknown → pc_nullable c' ≠ NcUnknown;
  le_typed : is_Some (pc_data_type c) → is_Some (pc_data_type c')
}.

Record ext (s s' : Binder) : Prop := {
  ext_diagnostics : ∃ new, diagnostics s' = diagnostics s ++ new;
  ext_constraints : ∀ r c, bt_get r (parameter_constraints s) = Some c →
    ∃ c', bt_get r (parameter_constraints s') = Some c' ∧ constraint_le c c';
  ext_wf : bt_wf (parameter_constraints s) → bt_wf (parameter_constraints s')
}.

#[export] Instance constraint_le_preorder : PreOrder constraint_le.
Proof. split; [by intros c; split|]. intros c1 c2 c3 [] []. split; auto. Qed.

#[export] Instance ext_preorder : PreOrder ext.
Proof.
  split.
  - intros s. split; [exists []; by rewrite app_nil_r|intros r c H; by exists c|done].
  - intros s1 s2 s3 [(n1 & H1) C1 W1] [(n2 & H2) C2 W2]. split; [|intros r c Hc|auto].
    + exists (n1 ++ n2). by rewrite H2, H1, app_assoc.
    + apply C1 in Hc as (c2 & Hc & Hle1). apply C2 in Hc as (c3 & Hc & Hle2).
      exists c3. split; [done|]. by transitivity c2.
Qed.

Lemma ext_no_error s s' : ext s s' → has_error (diagnostics s') = false → has_error (diagnostics s) = false.
Proof. intros [(new & ->) _ _]. rewrite has_error_app, orb_false_iff. tauto. Qed.

(** ** Computations that only extend *)

Definition grows {A} (m : M A) : Prop := ∀ s, ext s (m s).2.

Create HintDb binder.

Lemma grows_ret {A} (a : A) : grows (sret a).
Proof. intros s. simpl. reflexivity. Qed.

Lemma grows_bind {A B} (m : M A) (k : A → M B) : grows m → (∀ a, grows (k a)) → grows (sbind m k).
Proof.
  intros Hm Hk s. unfold sbind. specialize (Hm s). destruct (m s) as [a s1]. by transitivity s1; [|apply Hk].
Qed.

Lemma grows_traverse {A B} (f : A → M B) l : Forall (λ x, grows (f x)) l → grows (straverse f l).
Proof.
  induction 1 as [|x l Hx Hl IH]; simpl; [apply grows_ret|].
  apply grows_bind; [done|]. intros. apply grows_bind; [done|]. intros. apply grows_ret.
Qed.

Lemma grows_traversei {A B} (f : nat → A → M B) i l :
  Forall (λ x, ∀ i, grows (f i x)) l → grows (straversei f i l).
Proof.
  intros Hl. revert i. induction Hl as [|x l Hx Hl IH]; intros i; simpl; [apply grows_ret|].
  apply grows_bind; [done|]. intros. apply grows_bind; [apply IH|]. intros. apply grows_ret.
Qed.

Lemma grows_option {A B} (f : A → M B) o : opt_all (λ x, grows (f x)) o → grows (soption f o).
Proof.
  intros Ho. destruct o; simpl; [|apply grows_ret].
  apply grows_bind; [by apply Ho|]. intros. apply grows_ret.
Qed.

Lemma grows_fold {A B} (f : B → A → M B) l acc :
  Forall (λ x, ∀ acc, grows (f acc x)) l → grows (sfold f l acc).
Proof.
  intros Hl. revert acc. induction Hl as [|x l Hx Hl IH]; intros acc; simpl; [apply grows_ret|].
  apply grows_bind; [done|]. intros. apply IH.
Qed.

Lemma grows_push d : grows (push_diagnostic d).
Proof. intros s. split; simpl; [by eexists|intros r c H; by exists c|done]. Qed.

Lemma grows_error c m n r : grows (push_error c m n r).
Proof. apply grows_push. Qed.
Lemma grows_warning c m n r : grows (push_warning c m n r).
Proof. apply grows_push. Qed.

Lemma grows_allocate r : grows (allocate_parameter r).
Proof.
  intros s. destruct r as [[|p]|]; simpl; [|reflexivity..].
  split; simpl; [exists []; by rewrite app_nil_r|intros r c H; by exists c|done].
Qed.

Lemma refine_constraint_le c e : constraint_le c (refine_constraint c e).
Proof.
  split; simpl; destruct (pc_nullable c), (exp_nullable e); simpl; try done;
    destruct (exp_data_type e) as [t|]; try done; destruct (is_unknown t); by intros.
Qed.

Lemma grows_record r e n : grows (record_parameter_use r e n).
Proof.
  intros s. split; simpl; [exists []; by rewrite app_nil_r| |by intros; apply bt_wf_insert].
  intros r' c Hc. destruct (decide (r = r')) as [<-|Hne].
  - rewrite bt_get_insert_eq, Hc. simpl. eexists. split; [done|]. apply refine_constraint_le.
  - rewrite bt_get_insert_ne by done. by exists c.
Qed.

Lemma grows_if {A} (b : bool) (m1 m2 : M A) : grows m1 → grows m2 → grows (if b then m1 else m2).
Proof. by destruct b. Qed.

#[export] Hint Resolve grows_ret grows_bind grows_traverse grows_traversei grows_option grows_fold
  grows_error grows_warning grows_allocate grows_record grows_if : binder.
#[export] Hint Extern 2 (Forall _ _) => (apply Forall_true; intros) : binder.
#[export] Hint Extern 2 (opt_all _ _) => (intros ? ?) : binder.

(** Prove that a computation grows: through the program, by cases where it
    branches. *)
Ltac grow :=
  repeat first
    [ progress intros
    | progress eauto with binder
    | apply grows_bind
    | match goal with
      | |- grows (match ?x with _ => _ end) => destruct x
      | |- grows (let '(_, _) := ?x in _) => destruct x
      end ].

(** ** Postconditions under an error-free end *)

Section Yields.
Variable sf : Binder.

(** When the final state [sf] extends the state after [m], the result of [m]
    satisfies [Q]. *)
Definition yields {A} (m : M A) (Q : A → Prop) : Prop := ∀ s, ext (m s).2 sf → Q (m s).1.

Lemma yields_ret {A} (a : A) (Q : A → Prop) : Q a → yields (sret a) Q.
Proof. intros H s _. exact H. Qed.

Lemma yields_bind {A B} (m : M A) (k : A → M B) P Q :
  yields m P → (∀ a, grows (k a)) → (∀ a, P a → yields (k a) Q) → yields (sbind m k) Q.
Proof.
  intros Hm Hg Hk s. unfold sbind. specialize (Hm s). destruct (m s) as [a s1]. intros Hext. simpl in *.
  apply Hk; [|done]. apply Hm. transitivity (k a s1).2; [apply Hg|done].
Qed.

(** A computation whose result does not matter. *)
Lemma yields_then {A B} (m : M A) (k : M B) Q : grows k → yields k Q → yields (sbind m (λ _, k)) Q.
Proof. intros Hg Hk. apply (yields_bind m _ (λ _, True)); [by intros ??|done|done]. Qed.

Lemma yields_weaken {A} (m : M A) (P Q : A → Prop) : yields m P → (∀ a, P a → Q a) → yields m Q.
Proof. intros Hm HPQ s Hext. by apply HPQ, Hm. Qed.

Lemma yields_traverse {A B} (f : A → M B) (R : A → B → Prop) l :
  (∀ x, grows (f x)) → Forall (λ x, yields (f x) (R x)) l → yields (straverse f l) (Forall2 R l).
Proof.
  intros Hg. induction 1 as [|x l Hx Hl IH]; simpl; [by apply yields_ret|].
  eapply yields_bind; [exact Hx|grow|]. intros y Hy.
  eapply yields_bind; [exact IH|grow|]. intros ys Hys. apply yields_ret. by constructor.
Qed.

Lemma yields_traversei {A B} (f : nat → A → M B) (R : nat → A → B → Prop) i l :
  (∀ i x, grows (f i x)) → Forall (λ x, ∀ i, yields (f i x) (R i x)) l →
  yields (straversei f i l) (Forall2 (λ ix y, R ix.1 ix.2 y) (imap (λ k x, (i + k, x)) l)).
Proof.
  intros Hg Hl. revert i. induction Hl as [|x l Hx Hl IH]; intros i; simpl; [by apply yields_ret|].
  eapply yields_bind; [apply (Hx i)|grow|]. intros y Hy.
  eapply yields_bind; [apply (IH (S i))|grow|]. intros ys Hys. apply yields_ret.
  rewrite Nat.add_0_r. constructor; [done|]. erewrite imap_ext; [exact Hys|].
  intros k z _. simpl. f_equal. lia.
Qed.

Lemma yields_option {A B} (f : A → M B) (R : A → B → Prop) o :
  opt_all (λ x, yields (f x) (R x)) o → yields (soption f o) (option_Forall2 R o).
Proof.
  intros Ho. destruct o as [x|]; simpl; [|apply yields_ret; constructor].
  eapply yields_bind; [by apply Ho|grow|]. intros y Hy. apply yields_ret. by constructor.
Qed.

(** A loop, with an invariant over the elements already visited. *)
Lemma yields_fold {A B} (f : B → A → M B) (I : list A → B → Prop) l acc :
  (∀ acc x, grows (f acc x)) → I [] acc →
  Forall (λ x, ∀ seen acc, I seen acc → yields (f acc x) (I (seen ++ [x]))) l →
  yields (sfold f l acc) (I l).
Proof.
  intros Hg H0 Hl.
  assert (Hgen : ∀ seen acc, I seen acc → yields (sfold f l acc) (I (seen ++ l))).
  { clear H0 acc. induction Hl as [|x l Hx Hl IH]; intros seen acc Hacc; simpl.
    - apply yields_ret. by rewrite app_nil_r.
    - eapply yields_bind; [by apply Hx|grow|]. intros acc' Hacc'.
      apply IH in Hacc'. by rewrite <- app_assoc in Hacc'. }
  exact (Hgen [] acc H0).
Qed.

Hypothesis Hsf : has_error (diagnostics sf) = false.

(** Reporting an error is impossible. *)
Lemma yields_error {A} c m n r (k : M A) Q :
  grows k → yields (sbind (push_error c m n r) (λ _, k)) Q.
Proof.
  intros Hg s Hext. exfalso. unfold sbind in Hext.
  set (s1 := (push_error c m n r s).2) in *.
  assert (Hext' : ext s1 sf).
  { transitivity (k s1).2; [apply Hg|]. exact Hext. }
  apply ext_no_error in Hext'; [|done]. unfold s1, push_error, push_diagnostic, smodify in Hext'. simpl in Hext'.
  rewrite has_error_app, orb_false_iff in Hext'. destruct Hext' as [_ He].
  unfold attach, diagnostic_error in He.
  destruct (span n), r; simpl in He; discriminate.
Qed.

Lemma yields_unsupported node c m r Q : yields (unsupported_expr node c m r) Q.
Proof. apply yields_error. grow. Qed.
End Yields.

(** ** The binder only extends its state *)

Section BinderGrows.
Context `{Unicode}.
Variable catalog : Catalog.

Abbreviation expr_grows := (λ e, ∀ sc o x, grows (bind_expr catalog e sc o x)).

(** Use the induction hypotheses inside lists and options, then [grow]. *)
Local Ltac each :=
  match goal with
  | H : Forall _ ?l |- Forall _ ?l => eapply Forall_impl; [exact H|]; cbn beta; intros
  | H : opt_all _ ?o |- opt_all _ ?o => eapply opt_all_impl; [exact H|]; cbn beta; intros
  end.

Local Ltac go :=
  repeat first
    [ progress intros
    | progress destruct_and?
    | each
    | progress eauto 3 with binder
    | apply grows_fold | apply grows_traverse | apply grows_traversei | apply grows_option
    | apply grows_bind
    | match goal with
      | |- grows (match ?x with _ => _ end) => destruct x
      | |- grows (let '(_, _) := ?x in _) => destruct x
      end ].

Lemma grows_unsupported node c m r : grows (unsupported_expr node c m r).
Proof. unfold unsupported_expr. go. Qed.
Hint Resolve grows_unsupported : binder.

Lemma grows_bind_column node rel name sc o : grows (bind_column node rel name sc o).
Proof. unfold bind_column. go. Qed.

Lemma grows_bind_parameter node r x : grows (bind_parameter node r x).
Proof. unfold bind_parameter. go. Qed.

Lemma grows_subquery_single_field node q c t : grows (subquery_single_field node q c t).
Proof. unfold subquery_single_field. go. Qed.

Lemma grows_unify_union_schema l r n : grows (unify_union_schema l r n).
Proof. unfold unify_union_schema. go. Qed.

Lemma grows_bind_table_name ctes n a node : grows (bind_table_name catalog ctes n a node).
Proof. unfold bind_table_name. go. Qed.

Lemma grows_bind_backend_clause c : grows (bind_backend_clause c).
Proof. unfold bind_backend_clause. go. Qed.

Hint Resolve grows_bind_column grows_bind_parameter grows_subquery_single_field
  grows_unify_union_schema grows_bind_table_name grows_bind_backend_clause : binder.

Lemma grows_bind_order_by o sc os : expr_grows (ob_expr o) → grows (bind_order_by_expr (bind_expr catalog) o sc os).
Proof. intros Ho. unfold bind_order_by_expr. go. Qed.
Hint Resolve grows_bind_order_by : binder.

Lemma grows_bind_window w sc os : window_all expr_grows w → grows (bind_window (bind_expr catalog) w sc os).
Proof. intros [Hp Ho]. unfold bind_window. go. Qed.
Hint Resolve grows_bind_window : binder.

Lemma grows_bind_function node f sc os :
  call_all expr_grows f → grows (bind_function catalog (bind_expr catalog) node f sc os).
Proof. intros (Ha & Hf & Ho). unfold bind_function. go. Qed.

Lemma grows_bind_projection sc os acc item :
  (∀ d, item = PExpr d → expr_grows (pe_expr d)) →
  grows (bind_projection (bind_expr catalog) sc os acc item).
Proof.
  intros Hi. unfold bind_projection. destruct acc, item as [q n|d|d n]; go.
Qed.

Lemma grows_bind_select bt s os :
  (∀ t sc, In t (sel_from s) → grows (bt t sc)) → select_all (λ _, True) expr_grows s →
  grows (bind_select (bind_expr catalog) bt s os).
Proof.
  intros Ht (Hp & _ & Hs & Hg & Hh). unfold bind_select. apply grows_bind.
  { apply grows_fold. apply Forall_forall. intros t Ht' acc. apply grows_bind; [|go].
    apply Ht. by apply list_elem_of_In. }
  go. by apply grows_bind_projection.
Qed.

Lemma bind_grows :
  (∀ q o, grows (bind_query catalog q o))
  ∧ (∀ s ctes o, grows (bind_set_expr catalog s ctes o))
  ∧ (∀ t ctes o sc, grows (bind_table_with_joins catalog t ctes o sc))
  ∧ (∀ r ctes o sc, grows (bind_relation catalog r ctes o sc))
  ∧ (∀ e sc o x, grows (bind_expr catalog e sc o x)).
Proof.
  apply Syntax_induction.
  - intros node cs rec body ob lim off bc Hcs Hb Hob Hlim Hoff o. simpl. unfold bind_cte. go.
  - intros s (Hp & Ht & Hs & Hg & Hh) ctes o. simpl. apply grows_bind; [|go].
    apply grows_bind_select; [|split_and!; auto].
    + intros t sc Ht'%list_elem_of_In. rewrite Forall_forall in Ht. by apply Ht.
    + by apply Forall_true.
  - intros l r node Hl Hr ctes o. simpl. go.
  - intros d node ctes o. simpl. go.
  - intros r js node Hr Hjs ctes o sc. simpl. unfold bind_join. go.
  - intros n a node ctes o sc. simpl. go.
  - intros q a node Hq ctes o sc. simpl. go.
  - intros t a node Ht ctes o sc. simpl. go.
  - intros d node ctes o sc. simpl. go.
  - intros k node Hk sc o x. simpl. destruct k; simpl in Hk; destruct_and?; try solve [go].
    + unfold bind_binary_expr. go.
    + by apply grows_bind_function.
Qed.

Definition grows_bind_query := proj1 bind_grows.
Definition grows_bind_set_expr := proj1 (proj2 bind_grows).
Definition grows_bind_table := proj1 (proj2 (proj2 bind_grows)).
Definition grows_bind_relation := proj1 (proj2 (proj2 (proj2 bind_grows))).
Definition grows_bind_expr := proj2 (proj2 (proj2 (proj2 bind_grows))).
End BinderGrows.

#[export] Hint Resolve grows_unsupported grows_bind_column grows_bind_parameter
  grows_subquery_single_field grows_unify_union_schema grows_bind_table_name
  grows_bind_backend_clause grows_bind_query grows_bind_set_expr grows_bind_table
  grows_bind_relation grows_bind_expr grows_bind_order_by : binder.
