(* ===== verification/Elab.v ===== *)
(** The elaboration judgements: what it means for a plan to be the meaning of
    a query, as inference rules, without state, diagnostics or error paths.

    [Γ] is the map of parameter constraints at the end of the binding.  There
    is no outer scope in the rules: an accepted expression depends on the
    scope of its own [FROM] only, and an accepted subquery on no scope but the
    one its [ON] conditions are given. *)
From S2P Require Import Prelude BTreeMap Types Diagnostics Syntax Bound Catalog Features Suggest Scope Bind.

Section Elaboration.
Variable catalog : Catalog.
Variable Γ : BTreeMap ParameterRef ParameterConstraint.

(** ** Side conditions *)

(** An anonymous parameter stands for a positional one. *)
Definition allocated (r r' : ParameterRef) : Prop :=
  match r with Positional 0 => ∃ p, r' = Positional p | _ => r' = r end.

(** The constraint of [r] covers a use where [expected] was expected. *)
Definition covers (r : ParameterRef) (expected : ExpectedType) : Prop :=
  ∃ c, bt_get r Γ = Some c
  ∧ (exp_nullable expected = NcNonNull → pc_nullable c = NcNonNull)
  ∧ (exp_nullable expected ≠ NcUnknown → pc_nullable c ≠ NcUnknown)
  ∧ (∀ t, exp_data_type expected = Some t → t ≠ TUnknown → is_Some (pc_data_type c)).

Definition function_signature (f : FunctionRef) : option FunctionSignature :=
  option_or_else (resolve_function catalog (fn_namespace f) (fn_name f))
    (builtin_function_signature (fn_namespace f) (fn_name f)).

Definition is_logical (op : BinaryOperator) : bool :=
  match op with And | Or => true | _ => false end.
Definition is_arithmetic (op : BinaryOperator) : bool :=
  match op with Add | Subtract | Multiply | Divide => true | _ => false end.

(** The type of the operands of an operator, and of its result. *)
Definition left_expected (op : BinaryOperator) : ExpectedType :=
  if is_logical op then expect TBoolean
  else if is_arithmetic op then expect TFloat64 else ExpectedType_default.
Definition right_expected (op : BinaryOperator) (l : DataType) : ExpectedType :=
  if is_logical op then expect TBoolean
  else if is_arithmetic op then expect TFloat64 else expect_known l.
Definition binary_type (op : BinaryOperator) (l r : DataType) : DataType :=
  if is_arithmetic op then default TFloat64 (common_type l r) else TBoolean.

(** The operand of [IS NULL] that is a parameter has a constraint of its own. *)
Definition null_test_covers (e : SyntaxExpr) : Prop :=
  match se_kind e with
  | SParameter r =>
      ∃ r', allocated r r' ∧ covers r' {| exp_data_type := None; exp_nullable := NcNullable |}
  | _ => True
  end.

Definition element_expected (items : list SyntaxExpr) (input : DataType) : ExpectedType :=
  match items with
  | [item] => if is_parameter item then expect (TList input) else expect_known input
  | _ => expect_known input
  end.

Definition case_type (pairs : list BoundWhenThen) (else_result : option BoundExpr) : DataType :=
  default TUnknown (reduce common_or_unknown
    (List.map (λ p, be_data_type (bwt_result p)) pairs
     ++ match else_result with Some e => [be_data_type e] | None => [] end)).
Definition case_nullable (pairs : list BoundWhenThen) (else_result : option BoundExpr) : bool :=
  existsb (λ p, be_nullable (bwt_result p)) pairs
  || match else_result with Some e => be_nullable e | None => true end.

Definition projected_field (d : SyntaxProjectionExprOf SyntaxExpr) (b : BoundExpr) : ResultField :=
  MkField (default (expression_name (pe_expr d)) (pe_alias d)) (be_data_type b) (be_nullable b)
    FieldMetadata_default.

(** What a table name denotes: a CTE of the query, or a relation of the
    catalog. *)
Definition named_binding (ctes : CteBindings) (name : NameRef) (alias : option string)
    (b : BoundRelationBinding) : Prop :=
  (∃ c, nr_namespace name = None ∧ bt_get (to_ascii_lowercase (nr_name name)) ctes = Some c
     ∧ b = {| binding_name := default (binding_name c) alias; relation_name := relation_name c;
              binding_schema := binding_schema c |})
  ∨ (∃ r, (nr_namespace name = None → bt_get (to_ascii_lowercase (nr_name name)) ctes = None)
     ∧ resolve_relation catalog (nr_namespace name) (nr_name name) = Some r
     ∧ b = {| binding_name := default (nr_name name) alias; relation_name := Some name;
              binding_schema := to_result_schema r |}).

Definition bind_ctes_of (cs : list BoundCte) : CteBindings :=
  foldl (λ m c, bt_insert (to_ascii_lowercase (bcte_name c)) (cte_binding (bcte_name c) (bcte_result_schema c)) m)
    [] cs.

(** The scope after a list of tables. *)
Definition scope_after (scope : Scope) (tables : list BoundTableWithJoins) : Scope :=
  foldl merge_table scope tables.

Definition indexed {A} (l : list A) : list (nat * A) := imap (λ i x, (i, x)) l.

(** ** The rules *)

Inductive elab_expr : Scope → ExpectedType → SyntaxExpr → BoundExpr → Prop :=
| E_column sc x rel name node c :
    resolve_column sc rel name = Local_ c →
    elab_expr sc x (MkSyntaxExpr (SColumn rel name) node)
      (MkBoundExpr (BColumn {| col_relation := resolved_relation c; col_name := name |})
         (field_type (resolved_field c)) (field_nullable (resolved_field c)) node)
| E_literal sc x v node :
    elab_expr sc x (MkSyntaxExpr (SLiteral v) node) (bind_literal node v)
| E_parameter sc x r r' node :
    allocated r r' → covers r' x →
    elab_expr sc x (MkSyntaxExpr (SParameter r) node)
      (MkBoundExpr (BParameter r') (default TUnknown (exp_data_type x))
         (negb (bool_decide (exp_nullable x = NcNonNull))) node)
| E_unary sc x op e b node :
    elab_expr sc ExpectedType_default e b →
    elab_expr sc x (MkSyntaxExpr (SUnary op e) node)
      (MkBoundExpr (BUnary op b) (if is_not op then TBoolean else be_data_type b) (be_nullable b) node)
| E_binary sc x op l r bl br node :
    elab_expr sc (left_expected op) l bl →
    elab_expr sc (right_expected op (be_data_type bl)) r br →
    elab_expr sc x (MkSyntaxExpr (SBinary op l r) node)
      (MkBoundExpr (BBinary op bl br) (binary_type op (be_data_type bl) (be_data_type br))
         (be_nullable bl || be_nullable br) node)
| E_function sc x f sg args filter over node :
    function_signature (fc_function f) = Some sg →
    Forall2 (λ ia b, elab_expr sc {| exp_data_type := declared_arg_type sg ia.1; exp_nullable := NcNonNull |} ia.2 b)
      (indexed (fc_args f)) args →
    option_Forall2 (elab_expr sc (expect TBoolean)) (fc_filter f) filter →
    option_Forall2 (elab_window sc) (fc_over f) over →
    elab_expr sc x (MkSyntaxExpr (SFunction f) node)
      (MkBoundExpr
         (BFunction (MkBoundFunctionCall (fc_function f) None args (fc_distinct f) filter over (Some (sig_name sg))))
         (infer_function_return_type sg args) (infer_function_nullability sg args) node)
| E_case sc x operand pairs else_result boperand bpairs belse node :
    option_Forall2 (elab_expr sc ExpectedType_default) operand boperand →
    Forall2 (λ p bp, elab_expr sc (expect TBoolean) (wt_condition p) (bwt_condition bp)
                     ∧ elab_expr sc ExpectedType_default (wt_result p) (bwt_result bp)) pairs bpairs →
    option_Forall2 (elab_expr sc ExpectedType_default) else_result belse →
    elab_expr sc x (MkSyntaxExpr (SCase operand pairs else_result) node)
      (MkBoundExpr (BCase boperand bpairs belse) (case_type bpairs belse) (case_nullable bpairs belse) node)
| E_cast sc x e t b node :
    elab_expr sc {| exp_data_type := Some t; exp_nullable := NcNullable |} e b →
    elab_expr sc x (MkSyntaxExpr (SCast e t) node) (MkBoundExpr (BCast b t) t (be_nullable b) node)
| E_between sc x e low high negated b blow bhigh node :
    elab_expr sc ExpectedType_default e b →
    elab_expr sc (expect_known (be_data_type b)) low blow →
    elab_expr sc (expect_known (be_data_type b)) high bhigh →
    elab_expr sc x (MkSyntaxExpr (SBetween e low high negated) node)
      (MkBoundExpr (BBetween b blow bhigh negated) TBoolean
         (be_nullable b || be_nullable blow || be_nullable bhigh) node)
| E_in_list sc x e items negated b bitems node :
    elab_expr sc ExpectedType_default e b →
    Forall2 (elab_expr sc (element_expected items (be_data_type b))) items bitems →
    elab_expr sc x (MkSyntaxExpr (SInList e items negated) node)
      (MkBoundExpr (BInList b bitems negated) TBoolean (be_nullable b || existsb be_nullable bitems) node)
| E_in_subquery sc x e q negated b p f node :
    elab_expr sc ExpectedType_default e b → elab_query q p →
    fields (bq_result_schema p) = [f] →
    elab_expr sc x (MkSyntaxExpr (SInSubquery e q negated) node)
      (MkBoundExpr (BInSubquery b p negated) TBoolean (be_nullable b || field_nullable f) node)
| E_scalar_subquery sc x q p f node :
    elab_query q p → fields (bq_result_schema p) = [f] →
    elab_expr sc x (MkSyntaxExpr (SScalarSubquery q) node)
      (MkBoundExpr (BScalarSubquery p) (field_type f) true node)
| E_exists sc x q p node :
    elab_query q p →
    elab_expr sc x (MkSyntaxExpr (SExists q) node) (MkBoundExpr (BExists p) TBoolean false node)
| E_like sc x e pattern negated ci b bpattern node :
    elab_expr sc (expect TUtf8) e b → elab_expr sc (expect TUtf8) pattern bpattern →
    elab_expr sc x (MkSyntaxExpr (SLike e pattern negated ci) node)
      (MkBoundExpr (BLike b bpattern negated ci) TBoolean (be_nullable b || be_nullable bpattern) node)
| E_is_null sc x e negated b node :
    null_test_covers e → elab_expr sc ExpectedType_default e b →
    elab_expr sc x (MkSyntaxExpr (SIsNull e negated) node) (MkBoundExpr (BIsNull b negated) TBoolean false node)
| E_tuple sc x items bitems node :
    Forall2 (elab_expr sc ExpectedType_default) items bitems →
    elab_expr sc x (MkSyntaxExpr (STuple items) node)
      (MkBoundExpr (BTuple bitems) (TStruct (tuple_fields bitems)) (existsb be_nullable bitems) node)
| E_array sc x items bitems node :
    Forall2 (elab_expr sc ExpectedType_default) items bitems →
    elab_expr sc x (MkSyntaxExpr (SArray items) node)
      (MkBoundExpr (BArray bitems)
         (TList (default TUnknown (reduce common_or_unknown (List.map be_data_type bitems))))
         (existsb be_nullable bitems) node)
with elab_window : Scope → WindowSpec → BoundWindowSpec → Prop :=
| E_window sc partition order node bpartition border :
    Forall2 (elab_expr sc ExpectedType_default) partition bpartition →
    Forall2 (elab_order sc) order border →
    elab_window sc (MkWindowSpec partition order node) (MkBoundWindowSpec bpartition border node)
with elab_order : Scope → SyntaxOrderByExpr → BoundOrderByExpr → Prop :=
| E_order sc e asc nulls node b :
    elab_expr sc ExpectedType_default e b →
    elab_order sc (MkSyntaxOrderByExpr e asc nulls node) (MkBoundOrderByExpr b asc nulls node)
with elab_item : Scope → SyntaxProjectionItem → BoundProjectionItem → list ResultField → Prop :=
| E_wildcard sc qualifier node fs :
    match qualifier with Some q => expand_qualified sc q | None => Some (expand_all sc) end = Some fs →
    elab_item sc (PWildcard qualifier node) (BPWildcard qualifier fs node) fs
| E_item sc d b :
    elab_expr sc ExpectedType_default (pe_expr d) b →
    elab_item sc (PExpr d) (BPExpr (MkBoundProjectionExpr b (pe_alias d) (projected_field d b) (pe_node d)))
      [projected_field d b]
with elab_items : Scope → list SyntaxProjectionItem → list BoundProjectionItem → list ResultField → Prop :=
| E_items_nil sc : elab_items sc [] [] []
| E_items_snoc sc items i bitems b fs f :
    elab_items sc items bitems fs → elab_item sc i b f →
    elab_items sc (items ++ [i]) (bitems ++ [b]) (fs ++ f)
with elab_select : CteBindings → SyntaxSelect → BoundSelect → Prop :=
| E_select ctes s from sc selection group_by having projection fs :
    elab_from ctes (sel_from s) from → sc = scope_after Scope_default from →
    option_Forall2 (elab_expr sc (expect TBoolean)) (sel_selection s) selection →
    Forall2 (elab_expr sc ExpectedType_default) (sel_group_by s) group_by →
    option_Forall2 (elab_expr sc (expect TBoolean)) (sel_having s) having →
    elab_items sc (sel_projection s) projection fs →
    elab_select ctes s
      (MkBoundSelect (sel_distinct s) projection from selection group_by having
         (ResultSchema_new fs) (sel_node s))
with elab_from : CteBindings → list SyntaxTableWithJoins → list BoundTableWithJoins → Prop :=
| E_from_nil ctes : elab_from ctes [] []
| E_from_snoc ctes ts t bts bt :
    elab_from ctes ts bts → elab_table ctes (scope_after Scope_default bts) t bt →
    elab_from ctes (ts ++ [t]) (bts ++ [bt])
with elab_table : CteBindings → Scope → SyntaxTableWithJoins → BoundTableWithJoins → Prop :=
| E_table ctes sc r js node br acc :
    elab_relation ctes sc r br →
    elab_joins ctes {| ja_relation := br; ja_joins := []; ja_scope := push_relation sc br |} js acc →
    elab_table ctes sc (MkSyntaxTableWithJoins r js node)
      (MkBoundTableWithJoins (ja_relation acc) (ja_joins acc) node)
with elab_joins : CteBindings → JoinAcc → list SyntaxJoin → JoinAcc → Prop :=
| E_joins_nil ctes acc : elab_joins ctes acc [] acc
| E_joins_snoc ctes acc0 js acc j r on :
    elab_joins ctes acc0 js acc →
    elab_relation ctes (ja_scope acc) (join_relation j) r →
    option_Forall2 (elab_expr (push_relation (ja_scope acc) r) (expect TBoolean)) (join_on j) on →
    elab_joins ctes acc0 (js ++ [j]) (join_step acc j r on)
with elab_relation : CteBindings → Scope → SyntaxRelation → BoundRelation → Prop :=
| E_name ctes sc name alias node b :
    named_binding ctes name alias b → elab_relation ctes sc (STable name alias node) (BTable b node)
| E_derived ctes sc q alias node p :
    elab_query q p →
    elab_relation ctes sc (SDerived q alias node)
      (BDerived {| binding_name := generated_name alias node; relation_name := None;
                   binding_schema := bq_result_schema p |} p node)
| E_nested_join ctes sc t alias node bt :
    elab_table ctes sc t bt →
    elab_relation ctes sc (SNestedJoin t alias node)
      (BNestedJoin {| binding_name := generated_name alias node; relation_name := None;
                      binding_schema := scope_schema_for_table bt |} bt node)
with elab_set_expr : CteBindings → SyntaxSetExpr → BoundSetExpr → Prop :=
| E_set_select ctes s b : elab_select ctes s b → elab_set_expr ctes (SSelect s) (BSelect b)
| E_union ctes l r bl br node :
    elab_set_expr ctes l bl → elab_set_expr ctes r br →
    length (fields (set_expr_result_schema bl)) = length (fields (set_expr_result_schema br)) →
    elab_set_expr ctes (SUnionAll l r node)
      (BUnionAll bl br node
         (ResultSchema_new (zip_with_fields (fields (set_expr_result_schema bl))
                                            (fields (set_expr_result_schema br)))))
with elab_cte : SyntaxCte → BoundCte → Prop :=
| E_cte c p :
    elab_query (cte_query c) p →
    elab_cte c (MkBoundCte (cte_name c) (cte_columns c) p
                  (cte_schema (cte_columns c) (bq_result_schema p)) (cte_node c))
with elab_query : SyntaxQuery → BoundQueryPlan → Prop :=
| E_query node cs body order_by limit offset clauses bcs bbody border blimit boffset sc :
    Forall2 elab_cte cs bcs →
    elab_set_expr (bind_ctes_of bcs) body bbody →
    sc = from_output_schema (set_expr_result_schema bbody) →
    Forall2 (elab_order sc) order_by border →
    option_Forall2 (elab_expr sc (expect TInt64)) limit blimit →
    option_Forall2 (elab_expr sc (expect TInt64)) offset boffset →
    elab_query (MkSyntaxQuery node cs false body order_by limit offset clauses)
      (MkBoundQueryPlan node bcs bbody border blimit boffset clauses (set_expr_result_schema bbody)).
End Elaboration.

Create HintDb elab.
#[export] Hint Constructors elab_expr elab_window elab_order elab_item elab_items elab_select elab_from
  elab_table elab_joins elab_relation elab_set_expr elab_cte elab_query : elab.
