(* ===== verification/BindSound.v ===== *)
(** The binder refines the elaboration judgements: when no error is reported,
    every plan it returns is an elaboration of the query. *)
From S2P Require Import Prelude BTreeMap Types Diagnostics Syntax Bound Catalog Features Suggest.
From S2P Require Import Scope Bind BindLogic Elab.
Local Open Scope state_scope.

Section Soundness.
Context `{Unicode}.
Variable catalog : Catalog.
Variable sf : Binder.
Hypothesis Hsf : has_error (diagnostics sf) = false.

Abbreviation Γ := (parameter_constraints sf).
Abbreviation yields := (yields sf).
Abbreviation bexpr := (bind_expr catalog).

(** ** Parameters *)

Lemma allocate_allocated r s : allocated r (allocate_parameter r s).1.
Proof. destruct r as [[|p]|]; simpl; try done. by eexists. Qed.

Lemma record_covers r x node s : ext (record_parameter_use r x node s).2 sf → covers Γ r x.
Proof.
  intros [_ Hc _].
  set (c := default (fresh_constraint node) (bt_get r (parameter_constraints s))).
  destruct (Hc r (refine_constraint c x)) as (c' & Hg & Hle); [apply bt_get_insert_eq|].
  destruct Hle as [Hn Hk Ht]. exists c'. split; [done|]. simpl in *. split_and!.
  - intros Hx. apply Hn. rewrite Hx. by destruct (pc_nullable c).
  - intros Hx. apply Hk. by destruct (pc_nullable c), (exp_nullable x).
  - intros t Hx Ht'. apply Ht. rewrite Hx. destruct t; simpl; try done; by eexists.
Qed.

Lemma yields_use {A} r x node (k : ParameterRef → M A) Q :
  (∀ r', grows (k r')) →
  (∀ r', allocated r r' → covers Γ r' x → yields (k r') Q) →
  yields (let! r' := allocate_parameter r in record_parameter_use r' x node ;; k r') Q.
Proof.
  intros Hg Hk s. unfold sbind. pose proof (allocate_allocated r s) as Ha.
  destruct (allocate_parameter r s) as [r' s1]. simpl in Ha. intros Hext.
  destruct (record_parameter_use r' x node s1) as [[] s2] eqn:E. apply (Hk r' Ha); [|done].
  apply (record_covers r' x node s1). rewrite E. simpl. transitivity (k r' s2).2; [apply Hg|done].
Qed.

Lemma sound_parameter sc node r x :
  yields (bind_parameter node r x) (elab_expr catalog Γ sc x (MkSyntaxExpr (SParameter r) node)).
Proof.
  apply yields_use; [intros; grow|]. intros r' Ha Hc. apply yields_ret. by constructor.
Qed.

Lemma sound_null_test {A} e (k : M A) Q :
  grows k → (null_test_covers Γ e → yields k Q) →
  yields ((match se_kind e with
           | SParameter r =>
               let! r' := allocate_parameter r in
               record_parameter_use r' {| exp_data_type := None; exp_nullable := NcNullable |} (se_node e)
           | _ => sret tt
           end) ;; k) Q.
Proof.
  intros Hg Hk. unfold null_test_covers in Hk.
  destruct (se_kind e); try (apply yields_then; [done|by apply Hk]).
  eapply (yields_bind _ _ _ (λ _, ∃ r', allocated reference r' ∧ covers Γ r' _)); [|done|by intros _ Hn; apply Hk].
  intros s. unfold sbind. pose proof (allocate_allocated reference s) as Ha.
  destruct (allocate_parameter reference s) as [r' s1]. simpl in Ha. intros Hext.
  exists r'. split; [done|]. by eapply record_covers.
Qed.

(** ** Leaves *)

Lemma sound_column sc os x node rel name :
  yields (bind_column node rel name sc os) (elab_expr catalog Γ sc x (MkSyntaxExpr (SColumn rel name) node)).
Proof.
  unfold bind_column. destruct (resolve_column sc rel name) eqn:E.
  - apply yields_ret. by constructor.
  - destruct (_ ≫= _); by apply yields_unsupported.
  - by apply yields_unsupported.
Qed.

Lemma sound_table_name ctes sc name alias node :
  yields (bind_table_name catalog ctes name alias node) (elab_relation catalog Γ ctes sc (STable name alias node)).
Proof.
  unfold bind_table_name. destruct (match nr_namespace name with None => _ | _ => _ end) as [c|] eqn:Ec.
  - apply yields_ret. constructor. left. exists c. by destruct (nr_namespace name).
  - destruct (resolve_relation _ _ _) as [r|] eqn:Er; [|apply yields_error; [done|grow]].
    apply yields_ret. constructor. right. exists r. split_and!; [|done..].
    intros En. by rewrite En in Ec.
Qed.

Lemma sound_single_field node p c t :
  yields (subquery_single_field node p c t) (λ o, ∃ f, o = Some f ∧ fields (bq_result_schema p) = [f]).
Proof.
  unfold subquery_single_field. destruct (fields (bq_result_schema p)) as [|f [|g l]].
  - apply yields_error; [done|grow].
  - apply yields_ret. by exists f.
  - apply yields_error; [done|grow].
Qed.

Lemma sound_union l r node :
  yields (unify_union_schema l r node)
    (λ s, length (fields l) = length (fields r)
          ∧ s = ResultSchema_new (zip_with_fields (fields l) (fields r))).
Proof.
  unfold unify_union_schema. destruct (Nat.eqb_spec (length (fields l)) (length (fields r))); simpl.
  - by apply yields_ret.
  - apply yields_error; [done|grow].
Qed.

(** ** Expressions *)

Definition sound_expr (e : SyntaxExpr) : Prop :=
  ∀ sc os x, yields (bexpr e sc os x) (elab_expr catalog Γ sc x e).

(** Run the next computation with the given specification. *)
Ltac step H := eapply yields_bind; [apply H|grow|]; cbn beta; intros.

Lemma sound_traverse sc os x l :
  Forall sound_expr l →
  yields (straverse (λ e, bexpr e sc os x) l) (Forall2 (elab_expr catalog Γ sc x) l).
Proof. intros Hl. apply yields_traverse; [grow|]. eapply Forall_impl; [exact Hl|]. auto. Qed.

Lemma sound_option sc os x o :
  opt_all sound_expr o →
  yields (soption (λ e, bexpr e sc os x) o) (option_Forall2 (elab_expr catalog Γ sc x) o).
Proof. intros Ho. apply yields_option. eapply opt_all_impl; [exact Ho|]. auto. Qed.

Lemma sound_order sc os o :
  sound_expr (ob_expr o) → yields (bind_order_by_expr bexpr o sc os) (elab_order catalog Γ sc o).
Proof.
  intros Ho. destruct o as [e asc nulls node]. unfold bind_order_by_expr. simpl in *.
  step Ho. apply yields_ret. by constructor.
Qed.

Lemma sound_orders sc os l :
  Forall (λ o, sound_expr (ob_expr o)) l →
  yields (straverse (λ o, bind_order_by_expr bexpr o sc os) l) (Forall2 (elab_order catalog Γ sc) l).
Proof.
  intros Hl. apply yields_traverse; [intros; grow; apply grows_bind_order_by; grow|].
  eapply Forall_impl; [exact Hl|]. intros o. apply sound_order.
Qed.

Lemma grows_window w sc os : grows (bind_window bexpr w sc os).
Proof. apply grows_bind_window. split; apply Forall_true; intros; grow. Qed.
Hint Resolve grows_window : binder.

Lemma sound_window sc os w :
  window_all sound_expr w → yields (bind_window bexpr w sc os) (elab_window catalog Γ sc w).
Proof.
  intros [Hp Ho]. destruct w as [ps obs node]. unfold bind_window. simpl in *.
  step (sound_traverse sc os ExpectedType_default ps Hp).
  step (sound_orders sc os obs Ho). apply yields_ret. by constructor.
Qed.

Lemma sound_function sc os x node f :
  call_all sound_expr f →
  yields (bind_function catalog bexpr node f sc os) (elab_expr catalog Γ sc x (MkSyntaxExpr (SFunction f) node)).
Proof.
  intros (Ha & Hf & Ho). unfold bind_function.
  destruct (option_or_else _ _) as [sg|] eqn:Esg; [|by apply yields_unsupported].
  eapply yields_bind.
  - apply (yields_traversei sf _ (λ i e b, elab_expr catalog Γ sc
      {| exp_data_type := declared_arg_type sg i; exp_nullable := NcNonNull |} e b)); [grow|].
    eapply Forall_impl; [exact Ha|]. auto.
  - grow.
  - intros args Hargs. step (sound_option sc os (expect TBoolean) (fc_filter f) Hf).
    eapply yields_bind; [apply (yields_option sf _ (elab_window catalog Γ sc))|grow|].
    { eapply opt_all_impl; [exact Ho|]. intros w. apply sound_window. }
    intros over Hover. apply yields_then; [grow|]. apply yields_ret. by constructor.
Qed.

Lemma sound_case sc os x node operand pairs else_result :
  opt_all sound_expr operand →
  Forall (λ p, sound_expr (wt_condition p) ∧ sound_expr (wt_result p)) pairs →
  opt_all sound_expr else_result →
  yields (bind_case bexpr node operand pairs else_result sc os)
    (elab_expr catalog Γ sc x (MkSyntaxExpr (SCase operand pairs else_result) node)).
Proof.
  intros Ho Hp He. unfold bind_case.
  step (sound_option sc os ExpectedType_default operand Ho).
  eapply yields_bind; [apply (yields_traverse sf _ (λ p bp,
      elab_expr catalog Γ sc (expect TBoolean) (wt_condition p) (bwt_condition bp)
      ∧ elab_expr catalog Γ sc ExpectedType_default (wt_result p) (bwt_result bp)))|grow|].
  - grow.
  - eapply Forall_impl; [exact Hp|]. intros p [Hc Hr].
    step Hc. step Hr. apply yields_ret. done.
  - intros bpairs Hpairs. step (sound_option sc os ExpectedType_default else_result He).
    apply yields_ret. by apply E_case.
Qed.

Lemma sound_binary sc os x node op l r :
  sound_expr l → sound_expr r →
  yields (bind_binary_expr bexpr node op l r sc os) (elab_expr catalog Γ sc x (MkSyntaxExpr (SBinary op l r) node)).
Proof.
  intros Hl Hr.
  assert (Hrule : ∀ bl br, elab_expr catalog Γ sc (left_expected op) l bl →
    elab_expr catalog Γ sc (right_expected op (be_data_type bl)) r br →
    elab_expr catalog Γ sc x (MkSyntaxExpr (SBinary op l r) node)
      (MkBoundExpr (BBinary op bl br) (binary_type op (be_data_type bl) (be_data_type br))
         (be_nullable bl || be_nullable br) node)) by (by constructor).
  unfold bind_binary_expr. destruct op; step Hl; step Hr; apply yields_ret; by apply Hrule.
Qed.

(** ** Queries *)

Definition sound_query (q : SyntaxQuery) : Prop :=
  ∀ os, yields (bind_query catalog q os) (elab_query catalog Γ q).
Definition sound_set_expr (s : SyntaxSetExpr) : Prop :=
  ∀ ctes os, yields (bind_set_expr catalog s ctes os) (elab_set_expr catalog Γ ctes s).
Definition sound_table (t : SyntaxTableWithJoins) : Prop :=
  ∀ ctes os sc, yields (bind_table_with_joins catalog t ctes os sc) (elab_table catalog Γ ctes sc t).
Definition sound_relation (r : SyntaxRelation) : Prop :=
  ∀ ctes os sc, yields (bind_relation catalog r ctes os sc) (elab_relation catalog Γ ctes sc r).

Lemma grows_projection sc os acc i : grows (bind_projection bexpr sc os acc i).
Proof. apply grows_bind_projection. intros. grow. Qed.
Hint Resolve grows_projection : binder.

Lemma sound_projection sc os items :
  Forall (λ i, ∀ d, i = PExpr d → sound_expr (pe_expr d)) items →
  yields (sfold (bind_projection bexpr sc os) items ([], []))
    (λ acc, elab_items catalog Γ sc items acc.1 acc.2).
Proof.
  intros Hi.
  apply (yields_fold sf _ (λ seen acc, elab_items catalog Γ sc seen acc.1 acc.2)).
  - grow.
  - constructor.
  - eapply Forall_impl; [exact Hi|]. intros i Hd seen [bitems fs] Hseen. simpl in Hseen.
    unfold bind_projection. destruct i as [q node|d|d node].
    + destruct (match q with Some _ => _ | None => _ end) as [wild|] eqn:Ew.
      * eapply (yields_bind _ _ _ (λ fs, fs = wild)); [by apply yields_ret|grow|].
        intros _ ->. apply yields_ret. simpl. by repeat constructor.
      * apply (yields_bind _ _ _ (λ _, False)); [apply yields_error; [done|grow]|grow|done].
    + step (Hd d eq_refl). apply yields_ret. by repeat constructor.
    + apply yields_error; [done|grow].
Qed.

Lemma sound_from ctes os ts :
  Forall sound_table ts →
  yields (sfold (λ acc table,
      let! bound_table := bind_table_with_joins catalog table ctes os acc.2 in
      sret (acc.1 ++ [bound_table], merge_table acc.2 bound_table)) ts ([], Scope_default))
    (λ acc, elab_from catalog Γ ctes ts acc.1 ∧ acc.2 = scope_after Scope_default acc.1).
Proof.
  intros Ht.
  apply (yields_fold sf _ (λ seen acc, elab_from catalog Γ ctes seen acc.1
                                       ∧ acc.2 = scope_after Scope_default acc.1)).
  - grow.
  - split; [constructor|done].
  - eapply Forall_impl; [exact Ht|]. intros t Hs seen [bts sc] [Hf Hsc]. simpl in *. subst sc.
    step Hs. apply yields_ret. simpl. split; [by constructor|].
    unfold scope_after. by rewrite foldl_app.
Qed.

Lemma sound_select ctes os s :
  select_all sound_table sound_expr s →
  yields (bind_select bexpr (λ t sc, bind_table_with_joins catalog t ctes os sc) s os)
    (elab_select catalog Γ ctes s).
Proof.
  intros (Hp & Ht & Hs & Hg & Hh). unfold bind_select.
  eapply yields_bind; [by apply sound_from|grow|].
  intros [from sc] [Hfrom Hsc]. simpl in *.
  eapply yields_bind; [by apply sound_option|grow|]. intros sel Hsel.
  eapply yields_bind; [by apply sound_traverse|grow|]. intros grp Hgrp.
  eapply yields_bind; [by apply sound_option|grow|]. intros hav Hhav.
  eapply yields_bind; [by apply sound_projection|grow|]. intros [items fs] Hitems.
  apply yields_ret. simpl in *. econstructor; eauto.
Qed.

Lemma grows_join ctes os acc j :
  grows (bind_join (λ r sc, bind_relation catalog r ctes os sc) bexpr os acc j).
Proof. unfold bind_join. grow. Qed.
Hint Resolve grows_join : binder.

Lemma sound_joins ctes os js acc :
  Forall (λ j, sound_relation (join_relation j) ∧ opt_all sound_expr (join_on j)) js →
  yields (sfold (bind_join (λ r sc, bind_relation catalog r ctes os sc) bexpr os) js acc)
    (elab_joins catalog Γ ctes acc js).
Proof.
  intros Hj. apply (yields_fold sf _ (elab_joins catalog Γ ctes acc)).
  - grow.
  - constructor.
  - eapply Forall_impl; [exact Hj|]. intros j [Hr Ho] seen a Ha. unfold bind_join.
    step Hr. eapply yields_bind; [by apply sound_option|grow|]. intros on Hon.
    apply yields_ret. by constructor.
Qed.

Lemma sound_ctes cs :
  Forall (λ c, sound_query (cte_query c)) cs →
  yields (sfold (bind_cte (bind_query catalog)) cs ([], []))
    (λ acc, Forall2 (elab_cte catalog Γ) cs acc.2 ∧ acc.1 = bind_ctes_of acc.2).
Proof.
  intros Hc. apply (yields_fold sf _ (λ seen acc, Forall2 (elab_cte catalog Γ) seen acc.2
                                                  ∧ acc.1 = bind_ctes_of acc.2)).
  - intros. unfold bind_cte. grow.
  - by split.
  - eapply Forall_impl; [exact Hc|]. intros c Hq seen [m bcs] [Hb Hm]. simpl in *. subst m.
    unfold bind_cte. step Hq. apply yields_ret. simpl. split.
    + apply Forall2_app; [done|]. by repeat constructor.
    + unfold bind_ctes_of. by rewrite foldl_app.
Qed.

Lemma bind_sound :
  (∀ q, sound_query q) ∧ (∀ s, sound_set_expr s) ∧ (∀ t, sound_table t)
  ∧ (∀ r, sound_relation r) ∧ (∀ e, sound_expr e).
Proof.
  apply Syntax_induction.
  - intros node cs rec body ob lim off bc Hcs Hb Hob Hlim Hoff os. simpl.
    destruct rec; [apply yields_error; [done|unfold bind_cte; grow]|].
    apply yields_then; [unfold bind_cte; grow|].
    eapply yields_bind; [by apply sound_ctes|grow|]. intros [m bcs] [Hbcs Hm]. simpl in *. subst m.
    step Hb. eapply yields_bind; [by apply sound_orders|grow|]. intros bob Hbob.
    eapply yields_bind; [by apply sound_option|grow|]. intros blim Hblim.
    eapply yields_bind; [by apply sound_option|grow|]. intros boff Hboff.
    apply yields_then; [grow|]. apply yields_ret. econstructor; eauto.
  - intros s Hs ctes os. simpl. eapply yields_bind; [by apply sound_select|grow|].
    intros b Hb. apply yields_ret. by constructor.
  - intros l r node Hl Hr ctes os. simpl. step Hl. step Hr.
    eapply yields_bind; [apply sound_union|grow|]. intros sch [Hlen ->]. apply yields_ret. by constructor.
  - intros d node ctes os. simpl. apply yields_error; [done|grow].
  - intros r js node Hr Hjs ctes os sc. simpl. step Hr.
    eapply yields_bind; [by apply sound_joins|grow|]. intros acc Hacc. apply yields_ret. by econstructor.
  - intros n a node ctes os sc. apply sound_table_name.
  - intros q a node Hq ctes os sc. simpl. step Hq. apply yields_ret. by constructor.
  - intros t a node Ht ctes os sc. simpl. step Ht. apply yields_ret. by constructor.
  - intros d node ctes os sc. simpl. apply yields_error; [done|grow].
  - intros k node Hk sc os x. simpl. destruct k; simpl in Hk; destruct_and?.
    + apply sound_column.
    + apply yields_ret. constructor.
    + apply sound_parameter.
    + step Hk. apply yields_ret. by constructor.
    + by apply sound_binary.
    + by apply sound_function.
    + by apply sound_case.
    + step Hk. apply yields_ret. by constructor.
    + step H0. step H2. step H3. apply yields_ret. by constructor.
    + step H0. eapply yields_bind; [by apply sound_traverse|grow|]. intros. apply yields_ret. by constructor.
    + step H0. step H1. eapply yields_bind; [apply sound_single_field|grow|].
      intros f (f' & -> & Hf). apply yields_ret. econstructor; eauto.
    + step Hk. eapply yields_bind; [apply sound_single_field|grow|].
      intros f (f' & -> & Hf). apply yields_ret. econstructor; eauto.
    + step Hk. apply yields_ret. by constructor.
    + step H0. step H1. apply yields_ret. by constructor.
    + apply sound_null_test; [grow|]. intros Hn. step Hk. apply yields_ret. by constructor.
    + eapply yields_bind; [by apply sound_traverse|grow|]. intros. apply yields_ret. by constructor.
    + eapply yields_bind; [by apply sound_traverse|grow|]. intros. apply yields_ret. by constructor.
    + by apply yields_unsupported.
Qed.
End Soundness.

(** A query bound without errors is elaborated, in the constraints the binder
    ends with. *)
Lemma bind_query_elaborates `{Unicode} catalog q os s plan s' :
  bind_query catalog q os s = (plan, s') → has_error (diagnostics s') = false →
  elab_query catalog (parameter_constraints s') q plan.
Proof.
  intros E Herr. pose proof (proj1 (bind_sound catalog s' Herr) q os s) as Hq.
  rewrite E in Hq. by apply Hq.
Qed.
