(* ===== verification/PlanFacts.v ===== *)
(** What elaborated plans are like: every node of an accepted plan is an
    elaborated expression, nothing in it is unsupported, every table in it is
    known to the catalog or a CTE, and it uses the same features as the query. *)
From S2P Require Import Prelude BTreeMap Types Diagnostics Syntax Bound Catalog Features Suggest.
From S2P Require Import Scope Bind BindLogic Elab BindSound.

(** ** All nodes of a plan *)

Definition each {A} (P : A → Prop) (l : list A) : Prop := List.fold_right (λ x acc, P x ∧ acc) True l.
Definition here {A} (P : A → Prop) (o : option A) : Prop := match o with Some x => P x | None => True end.

Lemma each_Forall {A} (P : A → Prop) l : each P l ↔ Forall P l.
Proof. induction l as [|x l IH]; simpl; [by split|]. by rewrite IH, Forall_cons. Qed.

(** Every expression of the plan satisfies [P], in every clause and in every
    subquery, and no node is an unsupported one. *)
Section AllNodes.
Variable P : BoundExpr → Prop.

Fixpoint all_query (q : BoundQueryPlan) : Prop :=
  match q with
  | MkBoundQueryPlan _ cs body order_by limit offset _ _ =>
      each (λ c, all_query (bcte_query c)) cs ∧ all_set_expr body
      ∧ each (λ o, all_expr (bob_expr o)) order_by ∧ here all_expr limit ∧ here all_expr offset
  end
with all_set_expr (s : BoundSetExpr) : Prop :=
  match s with
  | BSelect select =>
      each (λ i, match i with
                 | BPExpr d => all_expr (bpe_expr d)
                 | BPWildcard _ _ _ => True
                 | BPUnsupported _ _ => False
                 end) (bsel_projection select)
      ∧ each all_table (bsel_from select) ∧ here all_expr (bsel_selection select)
      ∧ each all_expr (bsel_group_by select) ∧ here all_expr (bsel_having select)
  | BUnionAll l r _ _ => all_set_expr l ∧ all_set_expr r
  | BSetUnsupported _ _ _ => False
  end
with all_table (t : BoundTableWithJoins) : Prop :=
  match t with
  | MkBoundTableWithJoins r js _ =>
      all_relation r ∧ each (λ j, all_relation (bjoin_relation j) ∧ here all_expr (bjoin_on j)) js
  end
with all_relation (r : BoundRelation) : Prop :=
  match r with
  | BTable _ _ => True
  | BDerived _ q _ => all_query q
  | BNestedJoin _ t _ => all_table t
  | BRelUnsupported _ _ _ => False
  end
with all_expr (e : BoundExpr) : Prop :=
  P e ∧
  match e with
  | MkBoundExpr kind _ _ _ =>
      match kind with
      | BUnary _ e | BCast e _ | BIsNull e _ => all_expr e
      | BBinary _ l r => all_expr l ∧ all_expr r
      | BFunction f =>
          each all_expr (bfc_args f) ∧ here all_expr (bfc_filter f)
          ∧ here (λ w, each all_expr (bwin_partition_by w)
                       ∧ each (λ o, all_expr (bob_expr o)) (bwin_order_by w)) (bfc_over f)
      | BCase operand pairs else_result =>
          here all_expr operand
          ∧ each (λ p, all_expr (bwt_condition p) ∧ all_expr (bwt_result p)) pairs
          ∧ here all_expr else_result
      | BBetween e low high _ => all_expr e ∧ all_expr low ∧ all_expr high
      | BInList e items _ => all_expr e ∧ each all_expr items
      | BInSubquery e q _ => all_expr e ∧ all_query q
      | BScalarSubquery q | BExists q => all_query q
      | BLike e p _ _ => all_expr e ∧ all_expr p
      | BTuple items | BArray items => each all_expr items
      | BColumn _ | BLiteral _ | BParameter _ => True
      | BUnsupported _ => False
      end
  end.

Lemma all_relation_nullable r : all_relation r → all_relation (make_relation_nullable r).
Proof. by destruct r. Qed.
End AllNodes.

(** ** All tables of a plan

    Every table satisfies [R], given the names of the CTEs of the query whose
    body it is in; the queries of expressions and of derived tables have their
    own CTEs. *)
Section AllTables.
Variable R : list string → BoundRelationBinding → Prop.

Fixpoint tables_query (q : BoundQueryPlan) : Prop :=
  match q with
  | MkBoundQueryPlan _ cs body order_by limit offset _ _ =>
      each (λ c, tables_query (bcte_query c)) cs ∧ tables_set_expr (List.map bcte_name cs) body
      ∧ each (λ o, tables_expr (bob_expr o)) order_by ∧ here tables_expr limit ∧ here tables_expr offset
  end
with tables_set_expr (names : list string) (s : BoundSetExpr) : Prop :=
  match s with
  | BSelect select =>
      each (λ i, match i with
                 | BPExpr d => tables_expr (bpe_expr d)
                 | BPWildcard _ _ _ => True
                 | BPUnsupported _ _ => False
                 end) (bsel_projection select)
      ∧ each (tables_table names) (bsel_from select) ∧ here tables_expr (bsel_selection select)
      ∧ each tables_expr (bsel_group_by select) ∧ here tables_expr (bsel_having select)
  | BUnionAll l r _ _ => tables_set_expr names l ∧ tables_set_expr names r
  | BSetUnsupported _ _ _ => False
  end
with tables_table (names : list string) (t : BoundTableWithJoins) : Prop :=
  match t with
  | MkBoundTableWithJoins r js _ =>
      tables_relation names r ∧ each (λ j, tables_relation names (bjoin_relation j) ∧ here tables_expr (bjoin_on j)) js
  end
with tables_relation (names : list string) (r : BoundRelation) : Prop :=
  match r with
  | BTable b _ => R names b
  | BDerived _ q _ => tables_query q
  | BNestedJoin _ t _ => tables_table names t
  | BRelUnsupported _ _ _ => False
  end
with tables_expr (e : BoundExpr) : Prop :=
  match e with
  | MkBoundExpr kind _ _ _ =>
      match kind with
      | BUnary _ e | BCast e _ | BIsNull e _ => tables_expr e
      | BBinary _ l r => tables_expr l ∧ tables_expr r
      | BFunction f =>
          each tables_expr (bfc_args f) ∧ here tables_expr (bfc_filter f)
          ∧ here (λ w, each tables_expr (bwin_partition_by w)
                       ∧ each (λ o, tables_expr (bob_expr o)) (bwin_order_by w)) (bfc_over f)
      | BCase operand pairs else_result =>
          here tables_expr operand
          ∧ each (λ p, tables_expr (bwt_condition p) ∧ tables_expr (bwt_result p)) pairs
          ∧ here tables_expr else_result
      | BBetween e low high _ => tables_expr e ∧ tables_expr low ∧ tables_expr high
      | BInList e items _ => tables_expr e ∧ each tables_expr items
      | BInSubquery e q _ => tables_expr e ∧ tables_query q
      | BScalarSubquery q | BExists q => tables_query q
      | BLike e p _ _ => tables_expr e ∧ tables_expr p
      | BTuple items | BArray items => each tables_expr items
      | BColumn _ | BLiteral _ | BParameter _ => True
      | BUnsupported _ => False
      end
  end.
End AllTables.

(** A table is a relation of the catalog, or a CTE of its query. *)
Definition known_table (catalog : Catalog) (names : list string) (b : BoundRelationBinding) : Prop :=
  ∃ name, relation_name b = Some name
    ∧ (is_Some (resolve_relation catalog (nr_namespace name) (nr_name name))
       ∨ (nr_namespace name = None ∧ nr_name name ∈ names)).

(** The bindings of CTEs that have these names. *)
Definition ctes_named (names : list string) (ctes : CteBindings) : Prop :=
  ∀ k c, bt_get k ctes = Some c →
    ∃ name, name ∈ names ∧ relation_name c = Some {| nr_namespace := None; nr_name := name |}.

Lemma bind_ctes_named cs : ctes_named (List.map bcte_name cs) (bind_ctes_of cs).
Proof.
  unfold bind_ctes_of. induction cs as [|c cs IH] using rev_ind; [done|].
  rewrite foldl_app, List.map_app. intros k b. simpl.
  destruct (decide (to_ascii_lowercase (bcte_name c) = k)) as [<-|Hne].
  - rewrite bt_get_insert_eq. intros [= <-]. exists (bcte_name c). split; [set_solver|done].
  - rewrite bt_get_insert_ne by done. intros Hb. destruct (IH _ _ Hb) as (n & Hn & H). exists n. split; [set_solver|done].
Qed.

Lemma named_binding_known catalog names ctes name alias b :
  ctes_named names ctes → named_binding catalog ctes name alias b → known_table catalog names b.
Proof.
  intros Hn [(c & _ & Hc & ->)|(r & _ & Hr & ->)].
  - destruct (Hn _ _ Hc) as (n & Hin & Hrel). exists {| nr_namespace := None; nr_name := n |}. simpl. split; [done|]. by right.
  - exists name. split; [done|]. left. by eexists.
Qed.

(** ** Inversion of the rules for sequences *)

Section Inversion.
Variable catalog : Catalog.
Variable Γ : BTreeMap ParameterRef ParameterConstraint.

Lemma elab_items_snoc_inv sc items i bitems fs :
  elab_items catalog Γ sc (items ++ [i]) bitems fs →
  ∃ bitems' b fs' f, bitems = bitems' ++ [b] ∧ fs = fs' ++ f
  ∧ elab_items catalog Γ sc items bitems' fs' ∧ elab_item catalog Γ sc i b f.
Proof.
  inversion 1 as [|? ? ? ? ? ? ? Hs Hi Heq]; subst; [by destruct items|].
  match goal with E : _ ++ [_] = _ ++ [_] |- _ => apply app_inj_tail in E as [-> ->] end.
  naive_solver.
Qed.

Lemma elab_from_snoc_inv ctes ts t bts :
  elab_from catalog Γ ctes (ts ++ [t]) bts →
  ∃ bts' bt, bts = bts' ++ [bt] ∧ elab_from catalog Γ ctes ts bts'
  ∧ elab_table catalog Γ ctes (scope_after Scope_default bts') t bt.
Proof.
  inversion 1; subst; [by destruct ts|].
  match goal with E : _ ++ [_] = _ ++ [_] |- _ => apply app_inj_tail in E as [-> ->] end.
  naive_solver.
Qed.

Lemma elab_joins_snoc_inv ctes acc0 js j acc :
  elab_joins catalog Γ ctes acc0 (js ++ [j]) acc →
  ∃ acc' r on, acc = join_step acc' j r on ∧ elab_joins catalog Γ ctes acc0 js acc'
  ∧ elab_relation catalog Γ ctes (ja_scope acc') (join_relation j) r
  ∧ option_Forall2 (elab_expr catalog Γ (push_relation (ja_scope acc') r) (expect TBoolean)) (join_on j) on.
Proof.
  inversion 1; subst; [by destruct js|].
  match goal with E : _ ++ [_] = _ ++ [_] |- _ => apply app_inj_tail in E as [-> ->] end.
  naive_solver.
Qed.

Lemma elab_items_nil_inv sc bitems fs : elab_items catalog Γ sc [] bitems fs → bitems = [] ∧ fs = [].
Proof. inversion 1; subst; [done|]. by destruct items. Qed.
Lemma elab_from_nil_inv ctes bts : elab_from catalog Γ ctes [] bts → bts = [].
Proof. inversion 1; subst; [done|]. by destruct ts. Qed.
Lemma elab_joins_nil_inv ctes acc0 acc : elab_joins catalog Γ ctes acc0 [] acc → acc = acc0.
Proof. inversion 1; subst; [done|]. by destruct js. Qed.

(** ** Lists of elaborated parts

    What holds of the elaboration of each part of a list holds of the list that
    is elaborated from it, whatever is stated of expressions ([QE]), relations
    ([QR]), tables and queries. *)

Abbreviation node_expr QE := (λ e, ∀ sc x b, elab_expr catalog Γ sc x e b → QE b).

Lemma nodes_list (QE : BoundExpr → Prop) sc x l bl :
  Forall (node_expr QE) l → Forall2 (elab_expr catalog Γ sc x) l bl → each QE bl.
Proof.
  intros Hl H2. apply each_Forall. revert Hl. induction H2; intros Hl; [constructor|].
  inversion Hl; subst. constructor; eauto.
Qed.

Lemma nodes_option (QE : BoundExpr → Prop) sc x o bo :
  opt_all (node_expr QE) o → option_Forall2 (elab_expr catalog Γ sc x) o bo → here QE bo.
Proof. intros Ho H2. destruct H2; simpl; [|done]. by eapply Ho. Qed.

Lemma nodes_orders (QE : BoundExpr → Prop) sc l bl :
  Forall (λ o, (node_expr QE) (ob_expr o)) l → Forall2 (elab_order catalog Γ sc) l bl →
  each (λ o, QE (bob_expr o)) bl.
Proof.
  intros Hl H2. apply each_Forall. revert Hl. induction H2 as [|o bo l bl Ho _ IH]; intros Hl; [constructor|].
  inversion Hl; subst. constructor; [|auto]. inversion Ho; subst; simpl in *. eauto.
Qed.

Lemma nodes_args (QE : BoundExpr → Prop) sc sg i l bl :
  Forall (node_expr QE) l →
  Forall2 (λ ia b, elab_expr catalog Γ sc {| exp_data_type := declared_arg_type sg ia.1; exp_nullable := NcNonNull |} ia.2 b)
    (imap (λ k e, (i + k, e)) l) bl →
  each QE bl.
Proof.
  intros Hl. revert i bl. induction Hl as [|e l He Hl IH]; intros i bl H2; inversion H2; subst; simpl; [done|].
  split; [eauto|]. apply (IH (S i)). erewrite imap_ext; [eassumption|].
  intros k z _. simpl. f_equal. lia.
Qed.

Lemma nodes_cases (QE : BoundExpr → Prop) sc l bl :
  Forall (λ p, (node_expr QE) (wt_condition p) ∧ (node_expr QE) (wt_result p)) l →
  Forall2 (λ p bp, elab_expr catalog Γ sc (expect TBoolean) (wt_condition p) (bwt_condition bp)
                   ∧ elab_expr catalog Γ sc ExpectedType_default (wt_result p) (bwt_result bp)) l bl →
  each (λ p, QE (bwt_condition p) ∧ QE (bwt_result p)) bl.
Proof.
  intros Hl H2. apply each_Forall. revert Hl. induction H2 as [|p bp l bl [] _ IH]; intros Hl; [constructor|].
  inversion Hl as [|?? []]; subst. constructor; eauto.
Qed.

Lemma nodes_items (QE : BoundExpr → Prop) sc items bitems fs :
  Forall (λ i, ∀ d, i = PExpr d → (node_expr QE) (pe_expr d)) items →
  elab_items catalog Γ sc items bitems fs →
  each (λ i, match i with
             | BPExpr d => QE (bpe_expr d)
             | BPWildcard _ _ _ => True
             | BPUnsupported _ _ => False
             end) bitems.
Proof.
  intros Hi He. apply each_Forall. revert bitems fs Hi He.
  induction items as [|i items IH] using rev_ind; intros bitems fs Hi He.
  - by apply elab_items_nil_inv in He as [-> _].
  - apply elab_items_snoc_inv in He as (bitems' & b & fs' & f & -> & -> & He & Hb).
    apply Forall_app in Hi as [Hi Hlast]. apply Forall_app. split; [by eapply IH|].
    apply Forall_cons in Hlast as [Hlast _]. constructor; [|done].
    destruct Hb as [|sc d b Hd]; [done|]. by eapply (Hlast d).
Qed.

Lemma nodes_from (QT : BoundTableWithJoins → Prop) ctes ts bts :
  Forall (λ t, ∀ sc b, elab_table catalog Γ ctes sc t b → QT b) ts →
  elab_from catalog Γ ctes ts bts → each QT bts.
Proof.
  intros Ht He. apply each_Forall. revert bts Ht He.
  induction ts as [|t ts IH] using rev_ind; intros bts Ht He.
  - by apply elab_from_nil_inv in He as ->.
  - apply elab_from_snoc_inv in He as (bts' & bt & -> & He & Hb).
    apply Forall_app in Ht as [Ht Hlast]. apply Forall_app. split; [by eapply IH|].
    apply Forall_cons in Hlast as [Hlast _]. constructor; eauto.
Qed.

Definition all_acc (QR : BoundRelation → Prop) (QE : BoundExpr → Prop) (acc : JoinAcc) : Prop :=
  QR (ja_relation acc)
  ∧ Forall (λ j, QR (bjoin_relation j) ∧ here QE (bjoin_on j)) (ja_joins acc).

Lemma all_acc_step (QR : BoundRelation → Prop) (QE : BoundExpr → Prop) acc j r on :
  (∀ r, QR r → QR (make_relation_nullable r)) →
  all_acc QR QE acc → QR r → here QE on → all_acc QR QE (join_step acc j r on).
Proof.
  intros Hnull [Hr Hj] Hr' Hon. unfold join_step, all_acc. simpl.
  assert (Hn : QR (ja_relation (apply_join_kind (join_kind j) acc))
               ∧ Forall (λ j, QR (bjoin_relation j) ∧ here QE (bjoin_on j))
                   (ja_joins (apply_join_kind (join_kind j) acc))).
  { assert (Hm : Forall (λ j, QR (bjoin_relation j) ∧ here QE (bjoin_on j))
                   (make_join_relations_nullable (ja_joins acc))).
    { unfold make_join_relations_nullable. apply Forall_fmap. eapply Forall_impl; [exact Hj|].
      intros ? []; split; [by apply Hnull|done]. }
    destruct (join_kind j); simpl; split; try done; by apply Hnull. }
  destruct Hn as [Hn1 Hn2]. split; [done|]. apply Forall_app. split; [done|]. constructor; [|done].
  simpl. split; [|done]. destruct (join_kind j); simpl; try done; by apply Hnull.
Qed.

Lemma nodes_joins (QR : BoundRelation → Prop) (QE : BoundExpr → Prop) ctes acc0 js acc :
  (∀ r, QR r → QR (make_relation_nullable r)) →
  Forall (λ j, (∀ sc b, elab_relation catalog Γ ctes sc (join_relation j) b → QR b)
               ∧ opt_all (node_expr QE) (join_on j)) js →
  elab_joins catalog Γ ctes acc0 js acc → all_acc QR QE acc0 → all_acc QR QE acc.
Proof.
  intros Hnull Hj He H0. revert acc Hj He. induction js as [|j js IH] using rev_ind; intros acc Hj He.
  - by apply elab_joins_nil_inv in He as ->.
  - apply elab_joins_snoc_inv in He as (acc' & r & on & -> & He & Hr & Hon).
    apply Forall_app in Hj as [Hj Hlast]. apply Forall_cons in Hlast as [[Hlr Hlo] _].
    apply all_acc_step; [done|by apply IH|eauto|by eapply nodes_option].
Qed.

Lemma nodes_ctes (QQ : BoundQueryPlan → Prop) cs bcs :
  Forall (λ c, ∀ b, elab_query catalog Γ (cte_query c) b → QQ b) cs →
  Forall2 (elab_cte catalog Γ) cs bcs → each (λ c, QQ (bcte_query c)) bcs.
Proof.
  intros Hcs H2. apply each_Forall. revert Hcs. induction H2 as [|c bc l bl Hc _ IH]; intros Hcs; [constructor|].
  inversion Hcs; subst. constructor; [|auto]. inversion Hc; subst. simpl. auto.
Qed.

Lemma nodes_over (QE : BoundExpr → Prop) sc o bo :
  opt_all (window_all (node_expr QE)) o → option_Forall2 (elab_window catalog Γ sc) o bo →
  here (λ w, each QE (bwin_partition_by w)
             ∧ each (λ o, QE (bob_expr o)) (bwin_order_by w)) bo.
Proof.
  intros Ho H2. destruct H2 as [w bw Hw|]; [|done]. apply opt_all_Some in Ho as [Hp Hob].
  inversion Hw; subst. simpl in *. split; [by eapply nodes_list|by eapply nodes_orders].
Qed.

Local Ltac use lem := eapply lem; [|eassumption]; eassumption.

(** ** Every table of an elaborated plan is known *)

Abbreviation tq := (tables_query (known_table catalog)).
Abbreviation te := (tables_expr (known_table catalog)).

Lemma known_nullable names r :
  tables_relation (known_table catalog) names r → tables_relation (known_table catalog) names (make_relation_nullable r).
Proof. by destruct r. Qed.

Lemma tables_known :
  (∀ q b, elab_query catalog Γ q b → tq b)
  ∧ (∀ s ctes b, elab_set_expr catalog Γ ctes s b →
       ∀ names, ctes_named names ctes → tables_set_expr (known_table catalog) names b)
  ∧ (∀ t ctes sc b, elab_table catalog Γ ctes sc t b →
       ∀ names, ctes_named names ctes → tables_table (known_table catalog) names b)
  ∧ (∀ r ctes sc b, elab_relation catalog Γ ctes sc r b →
       ∀ names, ctes_named names ctes → tables_relation (known_table catalog) names b)
  ∧ (∀ e sc x b, elab_expr catalog Γ sc x e b → te b).
Proof.
  apply Syntax_induction.
  - intros node cs rec body ob lim off bc Hcs Hb Hob Hlim Hoff b He. inversion He; subst. simpl. split_and!.
    + by apply (nodes_ctes tq cs).
    + eapply Hb; [eassumption|apply bind_ctes_named].
    + use (nodes_orders te).
    + use (nodes_option te).
    + use (nodes_option te).
  - intros s (Hp & Ht & Hs & Hg & Hh) ctes b He names Hn. inversion He; subst.
    match goal with H : elab_select _ _ _ _ _ |- _ => inversion H; subst end. simpl. split_and!.
    + by eapply (nodes_items te).
    + eapply nodes_from; [|eassumption]. eapply Forall_impl; [exact Ht|]. eauto.
    + use (nodes_option te).
    + use (nodes_list te).
    + use (nodes_option te).
  - intros l r node Hl Hr ctes b He names Hn. inversion He; subst. simpl. eauto.
  - intros d node ctes b He. inversion He.
  - intros r js node Hr Hjs ctes sc b He names Hn. inversion He as [? ? ? ? ? br acc Hbr Hbj]; subst. simpl. rewrite each_Forall.
    refine (nodes_joins _ te _ _ _ _ (known_nullable names) _ Hbj _); [|split; simpl; [by eapply Hr|constructor]].
    eapply Forall_impl; [exact Hjs|]. intros j [Hj1 Hj2]. split; [eauto|done].
  - intros n a node ctes sc b He names Hn. inversion He; subst. simpl. by eapply named_binding_known.
  - intros q a node Hq ctes sc b He names Hn. inversion He; subst. simpl. eauto.
  - intros t a node Ht ctes sc b He names Hn. inversion He; subst. simpl. eauto.
  - intros d node ctes sc b He. by inversion He.
  - intros k node Hk sc x b He.
    inversion He; subst; simpl in Hk; destruct_and?; simpl; try solve [eauto | split_and!; eauto | done].
    + destruct Hk as (Ha & Hf & Ho). split_and!.
      * by eapply (nodes_args te sc sg 0).
      * use (nodes_option te).
      * by eapply (nodes_over te).
    + split_and!; [use (nodes_option te)|by eapply (nodes_cases te)|use (nodes_option te)].
    + split; [eauto|use (nodes_list te)].
    + use (nodes_list te).
    + use (nodes_list te).
Qed.

(** ** Every node satisfies what elaborated expressions satisfy *)

Variable P : BoundExpr → Prop.
Hypothesis HP : ∀ sc x e b, elab_expr catalog Γ sc x e b → P b.

Lemma nodes_satisfy :
  (∀ q b, elab_query catalog Γ q b → all_query P b)
  ∧ (∀ s ctes b, elab_set_expr catalog Γ ctes s b → all_set_expr P b)
  ∧ (∀ t ctes sc b, elab_table catalog Γ ctes sc t b → all_table P b)
  ∧ (∀ r ctes sc b, elab_relation catalog Γ ctes sc r b → all_relation P b)
  ∧ (∀ e sc x b, elab_expr catalog Γ sc x e b → all_expr P b).
Proof.
  apply Syntax_induction.
  - intros node cs rec body ob lim off bc Hcs Hb Hob Hlim Hoff b He. inversion He; subst. simpl. split_and!.
    + by apply (nodes_ctes (all_query P) cs).
    + eauto.
    + use (nodes_orders (all_expr P)).
    + use (nodes_option (all_expr P)).
    + use (nodes_option (all_expr P)).
  - intros s (Hp & Ht & Hs & Hg & Hh) ctes b He. inversion He; subst.
    match goal with H : elab_select _ _ _ _ _ |- _ => inversion H; subst end. simpl. split_and!.
    + by eapply (nodes_items (all_expr P)).
    + eapply (nodes_from (all_table P)); [|eassumption]. eapply Forall_impl; [exact Ht|]. eauto.
    + use (nodes_option (all_expr P)).
    + use (nodes_list (all_expr P)).
    + use (nodes_option (all_expr P)).
  - intros l r node Hl Hr ctes b He. inversion He; subst. simpl. eauto.
  - intros d node ctes b He. inversion He.
  - intros r js node Hr Hjs ctes sc b He. inversion He as [? ? ? ? ? br acc Hbr Hbj]; subst. simpl. rewrite each_Forall.
    refine (nodes_joins (all_relation P) (all_expr P) _ _ _ _ (all_relation_nullable P) _ Hbj _); [|split; simpl; [by eapply Hr|constructor]].
    eapply Forall_impl; [exact Hjs|]. intros j [Hj1 Hj2]. split; [eauto|done].
  - intros n a node ctes sc b He. by inversion He.
  - intros q a node Hq ctes sc b He. inversion He; subst. simpl. eauto.
  - intros t a node Ht ctes sc b He. inversion He; subst. simpl. eauto.
  - intros d node ctes sc b He. by inversion He.
  - intros k node Hk sc x b He. assert (Hel : P b) by (by eapply HP).
    inversion He; subst; simpl in Hk; destruct_and?; simpl; (split; [exact Hel|]);
      try solve [eauto | split_and!; eauto | done].
    + destruct Hk as (Ha & Hf & Ho). simpl. split_and!.
      * by eapply (nodes_args (all_expr P) sc sg 0).
      * use (nodes_option (all_expr P)).
      * by eapply (nodes_over (all_expr P)).
    + split_and!; [use (nodes_option (all_expr P))|by eapply (nodes_cases (all_expr P))|use (nodes_option (all_expr P))].
    + split; [eauto|use (nodes_list (all_expr P))].
    + use (nodes_list (all_expr P)).
    + use (nodes_list (all_expr P)).
Qed.
End Inversion.
