(* ===== verification/BindComplete.v ===== *)
(** The binder is complete for the elaboration judgements: a query without
    anonymous parameters that the rules elaborate is bound to exactly that
    plan, without an error. *)
From S2P Require Import Prelude BTreeMap Types Diagnostics Syntax Bound Catalog Features Suggest.
From S2P Require Import Scope Bind BindLogic Elab BindSound PlanFacts.
Local Open Scope state_scope.

(** ** Queries without anonymous parameters *)

Definition is_anonymous (r : ParameterRef) : bool := match r with Positional 0 => true | _ => false end.

Definition every {A} (f : A → bool) (l : list A) : bool := List.fold_right (λ x b, f x && b) true l.
Definition holds {A} (f : A → bool) (o : option A) : bool := match o with Some x => f x | None => true end.

Fixpoint explicit_query (q : SyntaxQuery) : bool :=
  match q with
  | MkSyntaxQuery _ cs _ body order_by limit offset _ =>
      every (λ c, explicit_query (cte_query c)) cs && explicit_set_expr body
      && every (λ o, explicit_expr (ob_expr o)) order_by && holds explicit_expr limit && holds explicit_expr offset
  end
with explicit_set_expr (s : SyntaxSetExpr) : bool :=
  match s with
  | SSelect select =>
      every (λ i, match i with PExpr d => explicit_expr (pe_expr d) | _ => true end) (sel_projection select)
      && every explicit_table (sel_from select) && holds explicit_expr (sel_selection select)
      && every explicit_expr (sel_group_by select) && holds explicit_expr (sel_having select)
  | SUnionAll l r _ => explicit_set_expr l && explicit_set_expr r
  | SSetUnsupported _ _ => true
  end
with explicit_table (t : SyntaxTableWithJoins) : bool :=
  match t with
  | MkSyntaxTableWithJoins r js _ =>
      explicit_relation r
      && every (λ j, explicit_relation (join_relation j) && holds explicit_expr (join_on j)) js
  end
with explicit_relation (r : SyntaxRelation) : bool :=
  match r with
  | SDerived q _ _ => explicit_query q
  | SNestedJoin t _ _ => explicit_table t
  | STable _ _ _ | SRelUnsupported _ _ => true
  end
with explicit_expr (e : SyntaxExpr) : bool :=
  match e with
  | MkSyntaxExpr kind _ =>
      match kind with
      | SParameter r => negb (is_anonymous r)
      | SUnary _ e | SCast e _ | SIsNull e _ => explicit_expr e
      | SBinary _ l r => explicit_expr l && explicit_expr r
      | SFunction f =>
          every explicit_expr (fc_args f) && holds explicit_expr (fc_filter f)
          && holds (λ w, every explicit_expr (win_partition_by w)
                         && every (λ o, explicit_expr (ob_expr o)) (win_order_by w)) (fc_over f)
      | SCase operand pairs else_result =>
          holds explicit_expr operand
          && every (λ p, explicit_expr (wt_condition p) && explicit_expr (wt_result p)) pairs
          && holds explicit_expr else_result
      | SBetween e low high _ => explicit_expr e && explicit_expr low && explicit_expr high
      | SInList e items _ => explicit_expr e && every explicit_expr items
      | SInSubquery e q _ => explicit_expr e && explicit_query q
      | SScalarSubquery q | SExists q => explicit_query q
      | SLike e p _ _ => explicit_expr e && explicit_expr p
      | STuple items | SArray items => every explicit_expr items
      | SColumn _ _ | SLiteral _ | SUnsupported _ => true
      end
  end.

(** ** Computations with a known result and no error *)

Definition returns {A} (m : M A) (a : A) : Prop :=
  ∀ s, (m s).1 = a ∧ has_error (diagnostics (m s).2) = has_error (diagnostics s).

Lemma returns_ret {A} (a : A) : returns (sret a) a.
Proof. by intros s. Qed.

Lemma returns_bind {A B} (m : M A) (k : A → M B) a b : returns m a → returns (k a) b → returns (sbind m k) b.
Proof.
  intros Hm Hk s. unfold sbind. destruct (Hm s) as [Ha Hd]. destruct (m s) as [a' s']. simpl in *. subst a'.
  destruct (Hk s') as [Hb He]. split; [done|]. by rewrite He.
Qed.

Lemma returns_then {A B} (m : M A) (k : M B) b :
  (∃ a, returns m a) → returns k b → returns (sbind m (λ _, k)) b.
Proof. intros [a Ha] Hk. by eapply returns_bind. Qed.

Lemma returns_traverse {A B} (f : A → M B) l ys :
  Forall2 (λ x y, returns (f x) y) l ys → returns (straverse f l) ys.
Proof.
  induction 1 as [|x y l ys Hx _ IH]; simpl; [apply returns_ret|].
  eapply returns_bind; [exact Hx|]. eapply returns_bind; [exact IH|]. apply returns_ret.
Qed.

Lemma returns_traversei {A B} (f : nat → A → M B) i l ys :
  Forall2 (λ ix y, returns (f ix.1 ix.2) y) (imap (λ k x, (i + k, x)) l) ys → returns (straversei f i l) ys.
Proof.
  revert i ys. induction l as [|x l IH]; intros i ys H; inversion H as [|? y ? ys' Hx Hl]; subst; [apply returns_ret|].
  simpl in Hx. rewrite Nat.add_0_r in Hx. simpl. eapply returns_bind; [exact Hx|].
  eapply returns_bind; [|apply returns_ret]. apply IH. erewrite imap_ext; [exact Hl|].
  intros k z _. simpl. f_equal. lia.
Qed.

Lemma returns_option {A B} (f : A → M B) o y :
  option_Forall2 (λ x y, returns (f x) y) o y → returns (soption f o) y.
Proof. intros [x y' Hx|]; simpl; [|apply returns_ret]. eapply returns_bind; [exact Hx|]. apply returns_ret. Qed.

Lemma sfold_snoc {S A B} (f : B → A → state S B) l x acc s :
  sfold f (l ++ [x]) acc s = sbind (sfold f l acc) (λ b, f b x) s.
Proof.
  revert acc s. induction l as [|y l IH]; intros acc s; unfold sbind; simpl; unfold sbind.
  - by destruct (f acc x s).
  - destruct (f acc y s) as [acc' s']. rewrite IH. done.
Qed.

Lemma returns_fold_snoc {A B} (f : B → A → M B) l x acc b c :
  returns (sfold f l acc) b → returns (f b x) c → returns (sfold f (l ++ [x]) acc) c.
Proof. intros Hl Hx s. rewrite sfold_snoc. by apply (returns_bind _ _ _ _ Hl Hx). Qed.

Lemma returns_warning c m n r : returns (push_warning c m n r) tt.
Proof.
  intros s. split; [done|]. simpl. rewrite has_error_app. unfold attach, diagnostic_warning.
  destruct (span n), r; by rewrite orb_false_r.
Qed.

Lemma returns_record r x n : returns (record_parameter_use r x n) tt.
Proof. by intros s. Qed.

Lemma returns_allocate r : is_anonymous r = false → returns (allocate_parameter r) r.
Proof. intros H s. by destruct r as [[|p]|]. Qed.

Lemma allocated_explicit r r' : is_anonymous r = false → allocated r r' → r' = r.
Proof. by destruct r as [[|p]|]. Qed.

Lemma every_Forall {A} (f : A → bool) l : every f l = true ↔ Forall (λ x, f x = true) l.
Proof.
  induction l as [|x l IH]; simpl; [done|]. by rewrite andb_true_iff, Forall_cons, IH.
Qed.

Section Complete.
Context `{Unicode}.
Variable catalog : Catalog.
Variable Γ : BTreeMap ParameterRef ParameterConstraint.

Abbreviation bexpr := (bind_expr catalog).
Abbreviation elab := (elab_expr catalog Γ).

Definition complete_expr (e : SyntaxExpr) : Prop :=
  explicit_expr e = true → ∀ sc os x b, elab sc x e b → returns (bexpr e sc os x) b.

(** ** Parts of expressions *)

Lemma complete_list sc os x l bl :
  Forall complete_expr l → every explicit_expr l = true → Forall2 (elab sc x) l bl →
  returns (straverse (λ e, bexpr e sc os x) l) bl.
Proof.
  intros Hl He%every_Forall H2. apply returns_traverse. revert Hl He.
  induction H2; intros Hl He; [constructor|]. inversion Hl; inversion He; subst. constructor; auto.
Qed.

Lemma complete_option sc os x o bo :
  opt_all complete_expr o → holds explicit_expr o = true → option_Forall2 (elab sc x) o bo →
  returns (soption (λ e, bexpr e sc os x) o) bo.
Proof.
  intros Ho He H2. apply returns_option. destruct H2; constructor. apply opt_all_Some in Ho. auto.
Qed.

Lemma complete_order sc os o bo :
  complete_expr (ob_expr o) → explicit_expr (ob_expr o) = true → elab_order catalog Γ sc o bo →
  returns (bind_order_by_expr bexpr o sc os) bo.
Proof.
  intros Ho He Hel. inversion Hel; subst. simpl in *. unfold bind_order_by_expr. simpl.
  eapply returns_bind; [by apply Ho|apply returns_ret].
Qed.

Lemma complete_orders sc os l bl :
  Forall (λ o, complete_expr (ob_expr o)) l → every (λ o, explicit_expr (ob_expr o)) l = true →
  Forall2 (elab_order catalog Γ sc) l bl →
  returns (straverse (λ o, bind_order_by_expr bexpr o sc os) l) bl.
Proof.
  intros Hl He%every_Forall H2. apply returns_traverse. revert Hl He.
  induction H2; intros Hl He; [constructor|]. inversion Hl; inversion He; subst.
  constructor; auto. by apply complete_order.
Qed.

Lemma complete_window sc os w bw :
  window_all complete_expr w →
  every explicit_expr (win_partition_by w) && every (λ o, explicit_expr (ob_expr o)) (win_order_by w) = true →
  elab_window catalog Γ sc w bw → returns (bind_window bexpr w sc os) bw.
Proof.
  intros [Hp Ho] [Hep Heo]%andb_true_iff Hel. inversion Hel; subst. simpl in *. unfold bind_window. simpl.
  eapply returns_bind; [by apply complete_list|]. eapply returns_bind; [by apply complete_orders|].
  apply returns_ret.
Qed.

Lemma complete_args sc os sg i l bl :
  Forall complete_expr l → every explicit_expr l = true →
  Forall2 (λ ia b, elab sc {| exp_data_type := declared_arg_type sg ia.1; exp_nullable := NcNonNull |} ia.2 b)
    (imap (λ k e, (i + k, e)) l) bl →
  returns (straversei (λ idx arg, bexpr arg sc os
    {| exp_data_type := declared_arg_type sg idx; exp_nullable := NcNonNull |}) i l) bl.
Proof.
  intros Hl He%every_Forall H2. apply returns_traversei. revert i bl Hl He H2.
  induction l as [|e l IH]; intros i bl Hl He H2; simpl in *; inversion H2; subst; [constructor|].
  inversion Hl; inversion He; subst. constructor; [auto|].
  assert (Heq : imap ((λ k x, (i + k, x)) ∘ S) l = imap (λ k (x : SyntaxExpr), (S i + k, x)) l).
  { apply imap_ext. intros k z _. simpl. f_equal. lia. }
  rewrite Heq in *. by apply IH.
Qed.

Lemma complete_function sc os x node f b :
  call_all complete_expr f →
  every explicit_expr (fc_args f) && holds explicit_expr (fc_filter f)
    && holds (λ w, every explicit_expr (win_partition_by w)
                   && every (λ o, explicit_expr (ob_expr o)) (win_order_by w)) (fc_over f) = true →
  elab sc x (MkSyntaxExpr (SFunction f) node) b → returns (bind_function catalog bexpr node f sc os) b.
Proof.
  intros (Ha & Hf & Ho) [[Hea Hef]%andb_true_iff Heo]%andb_true_iff Hel.
  inversion Hel as [| | | | |? ? ? sg args filter over ? Hsg Hargs Hfilter Hover| | | | | | | | | | |]; subst.
  unfold bind_function. unfold function_signature in Hsg. rewrite Hsg.
  eapply returns_bind; [by apply (complete_args sc os sg 0)|].
  eapply returns_bind; [by apply complete_option|].
  apply (returns_bind _ _ over).
  { apply returns_option. destruct Hover; constructor. specialize (Ho _ eq_refl). by apply complete_window. }
  apply returns_then; [|apply returns_ret]. exists tt.
  destruct (_ || _); [apply returns_warning|apply returns_ret].
Qed.

Lemma complete_pairs sc os l bl :
  Forall (λ p, complete_expr (wt_condition p) ∧ complete_expr (wt_result p)) l →
  every (λ p, explicit_expr (wt_condition p) && explicit_expr (wt_result p)) l = true →
  Forall2 (λ p bp, elab sc (expect TBoolean) (wt_condition p) (bwt_condition bp)
                   ∧ elab sc ExpectedType_default (wt_result p) (bwt_result bp)) l bl →
  returns (straverse (λ pair,
    let! condition := bexpr (wt_condition pair) sc os (expect TBoolean) in
    let! result := bexpr (wt_result pair) sc os ExpectedType_default in
    sret (MkBoundWhenThen condition result)) l) bl.
Proof.
  intros Hl He%every_Forall H2. apply returns_traverse. revert Hl He.
  induction H2 as [|p bp l bl [Hc Hr] _ IH]; intros Hl He; [constructor|].
  inversion Hl as [|? ? [Hcc Hcr]]; inversion He as [|? ? He1 He2]; subst.
  apply andb_true_iff in He1 as [? ?]. constructor; [|auto].
  eapply returns_bind; [by apply Hcc|]. eapply returns_bind; [by apply Hcr|]. destruct bp. apply returns_ret.
Qed.

(** ** Queries *)

Definition complete_query (q : SyntaxQuery) : Prop :=
  explicit_query q = true → ∀ os p, elab_query catalog Γ q p → returns (bind_query catalog q os) p.
Definition complete_set_expr (s : SyntaxSetExpr) : Prop :=
  explicit_set_expr s = true → ∀ ctes os b, elab_set_expr catalog Γ ctes s b →
    returns (bind_set_expr catalog s ctes os) b.
Definition complete_table (t : SyntaxTableWithJoins) : Prop :=
  explicit_table t = true → ∀ ctes os sc b, elab_table catalog Γ ctes sc t b →
    returns (bind_table_with_joins catalog t ctes os sc) b.
Definition complete_relation (r : SyntaxRelation) : Prop :=
  explicit_relation r = true → ∀ ctes os sc b, elab_relation catalog Γ ctes sc r b →
    returns (bind_relation catalog r ctes os sc) b.

Lemma complete_item sc os i bitems fs b f :
  (∀ d, i = PExpr d → complete_expr (pe_expr d)) →
  match i with PExpr d => explicit_expr (pe_expr d) | _ => true end = true →
  elab_item catalog Γ sc i b f →
  returns (bind_projection bexpr sc os (bitems, fs) i) (bitems ++ [b], fs ++ f).
Proof.
  intros Hi He Hel. destruct Hel as [sc q node wild Hw|sc d b Hd]; unfold bind_projection.
  - rewrite Hw. eapply returns_bind; apply returns_ret.
  - eapply returns_bind; [by apply (Hi d)|apply returns_ret].
Qed.

Lemma complete_items sc os items bitems fs :
  Forall (λ i, ∀ d, i = PExpr d → complete_expr (pe_expr d)) items →
  every (λ i, match i with PExpr d => explicit_expr (pe_expr d) | _ => true end) items = true →
  elab_items catalog Γ sc items bitems fs →
  returns (sfold (bind_projection bexpr sc os) items ([], [])) (bitems, fs).
Proof.
  rewrite every_Forall. revert bitems fs.
  induction items as [|i items IH] using rev_ind; intros bitems fs Hi He Hel.
  - apply elab_items_nil_inv in Hel as [-> ->]. apply returns_ret.
  - apply elab_items_snoc_inv in Hel as (bitems' & b & fs' & f & -> & -> & Hel & Hb).
    apply Forall_app in Hi as [Hi Hl], He as [He Hm].
    apply Forall_cons in Hl as [Hl _]. apply Forall_cons in Hm as [Hm _].
    eapply returns_fold_snoc; [by apply IH|by apply complete_item].
Qed.

Lemma complete_from ctes os ts bts :
  Forall complete_table ts → every explicit_table ts = true → elab_from catalog Γ ctes ts bts →
  returns (sfold (λ acc table,
      let! bound_table := bind_table_with_joins catalog table ctes os acc.2 in
      sret (acc.1 ++ [bound_table], merge_table acc.2 bound_table)) ts ([], Scope_default))
    (bts, scope_after Scope_default bts).
Proof.
  rewrite every_Forall. revert bts. induction ts as [|t ts IH] using rev_ind; intros bts Ht He Hel.
  - apply elab_from_nil_inv in Hel as ->. apply returns_ret.
  - apply elab_from_snoc_inv in Hel as (bts' & bt & -> & Hel & Hb).
    apply Forall_app in Ht as [Ht Hl], He as [He Hm].
    apply Forall_cons in Hl as [Hl _]. apply Forall_cons in Hm as [Hm _].
    eapply returns_fold_snoc; [by apply IH|]. simpl. eapply returns_bind; [by apply Hl|].
    unfold scope_after. rewrite foldl_app. apply returns_ret.
Qed.

Lemma complete_select ctes os s b :
  select_all complete_table complete_expr s → explicit_set_expr (SSelect s) = true →
  elab_select catalog Γ ctes s b →
  returns (bind_select bexpr (λ t sc, bind_table_with_joins catalog t ctes os sc) s os) b.
Proof.
  intros (Hp & Ht & Hs & Hg & Hh) He Hel. simpl in He.
  apply andb_true_iff in He as [[[[Hep Het]%andb_true_iff Hes]%andb_true_iff Heg]%andb_true_iff Heh].
  inversion Hel as [? ? from sc sel grp hav proj fs Hfrom -> Hsel Hgrp Hhav Hproj]; subst. unfold bind_select.
  eapply returns_bind; [by apply complete_from|]. simpl.
  eapply returns_bind; [by apply complete_option|]. eapply returns_bind; [by apply complete_list|].
  eapply returns_bind; [by apply complete_option|]. eapply returns_bind; [by apply complete_items|].
  apply returns_ret.
Qed.

Lemma complete_joins ctes os acc0 js acc :
  Forall (λ j, complete_relation (join_relation j) ∧ opt_all complete_expr (join_on j)) js →
  every (λ j, explicit_relation (join_relation j) && holds explicit_expr (join_on j)) js = true →
  elab_joins catalog Γ ctes acc0 js acc →
  returns (sfold (bind_join (λ r sc, bind_relation catalog r ctes os sc) bexpr os) js acc0) acc.
Proof.
  rewrite every_Forall. revert acc. induction js as [|j js IH] using rev_ind; intros acc Hj He Hel.
  - apply elab_joins_nil_inv in Hel as ->. apply returns_ret.
  - apply elab_joins_snoc_inv in Hel as (acc' & r & on & -> & Hel & Hr & Hon).
    apply Forall_app in Hj as [Hj Hl], He as [He Hm].
    apply Forall_cons in Hl as [[Hlr Hlo] _]. apply Forall_cons in Hm as [[Hmr Hmo]%andb_true_iff _].
    eapply returns_fold_snoc; [by apply IH|]. unfold bind_join.
    eapply returns_bind; [by apply Hlr|]. eapply returns_bind; [by apply complete_option|]. apply returns_ret.
Qed.

Lemma complete_ctes cs bcs :
  Forall (λ c, complete_query (cte_query c)) cs → every (λ c, explicit_query (cte_query c)) cs = true →
  Forall2 (elab_cte catalog Γ) cs bcs →
  returns (sfold (bind_cte (bind_query catalog)) cs ([], [])) (bind_ctes_of bcs, bcs).
Proof.
  rewrite every_Forall. revert bcs. induction cs as [|c cs IH] using rev_ind; intros bcs Hc He H2.
  - apply Forall2_nil_inv_l in H2 as ->. apply returns_ret.
  - apply Forall2_app_inv_l in H2 as (bcs' & l & H2 & Hl & ->).
    inversion Hl as [|? bc ? ? Hb Hn]; subst. apply Forall2_nil_inv_l in Hn as ->.
    apply Forall_app in Hc as [Hc Hq], He as [He Hm].
    apply Forall_cons in Hq as [Hq _]. apply Forall_cons in Hm as [Hm _].
    eapply returns_fold_snoc; [by apply IH|]. unfold bind_cte. inversion Hb as [? p Hp]; subst.
    eapply returns_bind; [by apply Hq|]. unfold bind_ctes_of. rewrite foldl_app. apply returns_ret.
Qed.

Lemma complete_table_name ctes name alias node b :
  named_binding catalog ctes name alias b → returns (bind_table_name catalog ctes name alias node) (BTable b node).
Proof.
  intros [(c & Hn & Hc & ->)|(r & Hn & Hr & ->)]; unfold bind_table_name.
  - rewrite Hn, Hc. apply returns_ret.
  - destruct (nr_namespace name) eqn:En; [|rewrite Hn by done]; rewrite Hr; apply returns_ret.
Qed.

Lemma complete_single_field node p f c t :
  fields (bq_result_schema p) = [f] → returns (subquery_single_field node p c t) (Some f).
Proof. intros Hf. unfold subquery_single_field. rewrite Hf. apply returns_ret. Qed.

(** ** The induction *)

(** Run the next computation with a hypothesis on its part. *)
Local Ltac run H := eapply returns_bind; [apply H; eassumption|].

Lemma complete_kind k node :
  kind_all complete_query complete_expr k → complete_expr (MkSyntaxExpr k node).
Proof.
  intros Hk He sc os x b Hel. simpl in He.
  inversion Hel as
    [? ? ? ? ? c Hc|? ? v|? ? r r' ? Ha Hcov|? ? op e b1 ? H1|? ? op l r bl br ? H1 H2|? ? f sg ? ? ? ? Hsg
    |? ? o ps el bo bps bel ? Ho Hps Hel'|? ? e t b1 ? H1|? ? e lo hi ng b1 b2 b3 ? H1 H2 H3
    |? ? e l ng b1 bl ? H1 H2|? ? e q ng b1 p f ? H1 H2 Hf|? ? q p f ? H1 Hf|? ? q p ? H1
    |? ? e pt ng ci b1 b2 ? H1 H2|? ? e ng b1 ? Hn H1|? ? l bl ? H1|? ? l bl ? H1]; subst; simpl in Hk, He.
  - simpl. unfold bind_column. rewrite Hc. apply returns_ret.
  - apply returns_ret.
  - apply negb_true_iff in He. rewrite (allocated_explicit _ _ He Ha). simpl. unfold bind_parameter.
    eapply returns_bind; [by apply returns_allocate|]. apply returns_then; [|apply returns_ret].
    exists tt. apply returns_record.
  - simpl. run Hk. apply returns_ret.
  - destruct Hk as [Hl Hr]. apply andb_true_iff in He as [Hel1 Her]. simpl. unfold bind_binary_expr.
    destruct op; (eapply returns_bind; [by apply Hl|]); (eapply returns_bind; [by apply Hr|]); apply returns_ret.
  - by apply (complete_function sc os x).
  - destruct Hk as (Hk1 & Hk2 & Hk3). apply andb_true_iff in He as [[He1 He2]%andb_true_iff He3].
    simpl. unfold bind_case.
    eapply returns_bind; [by apply complete_option|]. eapply returns_bind; [by apply complete_pairs|].
    eapply returns_bind; [by apply complete_option|]. apply returns_ret.
  - simpl. run Hk. apply returns_ret.
  - destruct Hk as (Hk1 & Hk2 & Hk3). apply andb_true_iff in He as [[He1 He2]%andb_true_iff He3]. simpl.
    run Hk1. run Hk2. run Hk3. apply returns_ret.
  - destruct Hk as [Hk1 Hk2]. apply andb_true_iff in He as [He1 He2]. simpl.
    run Hk1. eapply returns_bind; [by apply complete_list|]. apply returns_ret.
  - destruct Hk as [Hk1 Hk2]. apply andb_true_iff in He as [He1 He2]. simpl.
    run Hk1. run Hk2. eapply returns_bind; [by apply complete_single_field|]. apply returns_ret.
  - simpl. run Hk. eapply returns_bind; [by apply complete_single_field|]. apply returns_ret.
  - simpl. run Hk. apply returns_ret.
  - destruct Hk as [Hk1 Hk2]. apply andb_true_iff in He as [He1 He2]. simpl. run Hk1. run Hk2. apply returns_ret.
  - simpl. apply returns_then; [|run Hk; apply returns_ret].
    exists tt. destruct e as [ek en]. destruct ek; try apply returns_ret. simpl in He. apply negb_true_iff in He.
    simpl. eapply returns_bind; [by apply returns_allocate|apply returns_record].
  - simpl. eapply returns_bind; [by apply complete_list|]. apply returns_ret.
  - simpl. eapply returns_bind; [by apply complete_list|]. apply returns_ret.
Qed.

Lemma bind_complete :
  (∀ q, complete_query q) ∧ (∀ s, complete_set_expr s) ∧ (∀ t, complete_table t)
  ∧ (∀ r, complete_relation r) ∧ (∀ e, complete_expr e).
Proof.
  apply Syntax_induction.
  - intros node cs rec body ob lim off bc Hcs Hb Hob Hlim Hoff He os p Hel. simpl in He.
    apply andb_true_iff in He as [[[[Hec Heb]%andb_true_iff Heo]%andb_true_iff Hel']%andb_true_iff Hef].
    inversion Hel as [? ? ? ? ? ? ? bcs bbody bob blim boff sc Hbcs Hbody -> Hbob Hblim Hboff]; subst. simpl.
    apply returns_then; [exists tt; apply returns_ret|].
    eapply returns_bind; [by apply complete_ctes|]. simpl.
    eapply returns_bind; [by apply Hb|]. eapply returns_bind; [by apply complete_orders|].
    eapply returns_bind; [by apply complete_option|]. eapply returns_bind; [by apply complete_option|].
    apply returns_then; [|apply returns_ret]. exists (List.map (λ _, tt) bc). apply returns_traverse.
    clear. induction bc as [|c bc IH]; constructor; [|done].
    destruct c; apply returns_warning.
  - intros s Hs He ctes os b Hel. inversion Hel; subst. simpl.
    eapply returns_bind; [by apply complete_select|apply returns_ret].
  - intros l r node Hl Hr He ctes os b Hel. simpl in He. apply andb_true_iff in He as [He1 He2].
    inversion Hel as [|? ? ? bl br ? H1 H2 Hlen]; subst. simpl. run Hl. run Hr.
    eapply returns_bind; [|apply returns_ret]. unfold unify_union_schema.
    apply Nat.eqb_eq in Hlen. rewrite Hlen. apply returns_ret.
  - intros d node He ctes os b Hel. inversion Hel.
  - intros r js node Hr Hjs He ctes os sc b Hel. simpl in He. apply andb_true_iff in He as [He1 He2].
    inversion Hel; subst. simpl. eapply returns_bind; [by apply Hr|].
    eapply returns_bind; [by apply complete_joins|]. apply returns_ret.
  - intros n a node He ctes os sc b Hel. inversion Hel; subst. by apply complete_table_name.
  - intros q a node Hq He ctes os sc b Hel. inversion Hel; subst. simpl.
    eapply returns_bind; [by apply Hq|apply returns_ret].
  - intros t a node Ht He ctes os sc b Hel. inversion Hel; subst. simpl.
    eapply returns_bind; [by apply Ht|apply returns_ret].
  - intros d node He ctes os sc b Hel. inversion Hel.
  - intros k node Hk. by apply complete_kind.
Qed.
End Complete.

(** ** Properties *)

(** C2: equivalence.  A query without anonymous parameters is bound without an
    error exactly when the rules of the judgements elaborate it, in whatever
    constraints; and then the elaboration is unique, and is the plan of the
    binder. *)
Theorem binding_is_elaboration `{Unicode} catalog parameters q :
  explicit_query q = true →
  let '(plan, s) := bind_query catalog q None (Binder_new parameters) in
  (has_error (diagnostics s) = false ↔ ∃ Γ p, elab_query catalog Γ q p)
  ∧ ∀ Γ p, elab_query catalog Γ q p → p = plan.
Proof.
  intros He. destruct (bind_query catalog q None (Binder_new parameters)) as [plan s] eqn:E.
  assert (Hc : ∀ Γ p, elab_query catalog Γ q p → plan = p ∧ has_error (diagnostics s) = false).
  { intros Γ p Hp. pose proof (proj1 (bind_complete catalog Γ) q He None p Hp (Binder_new parameters)) as Hr.
    rewrite E in Hr. exact Hr. }
  split; [split|].
  - intros Hs. exists (parameter_constraints s), plan. by eapply bind_query_elaborates.
  - intros (Γ & p & Hp). by apply (Hc Γ p).
  - intros Γ p Hp. symmetry. by apply (Hc Γ p).
Qed.
