(* ===== verification/RenderFacts.v ===== *)
(** The SQL text of a plan: it is whole code in which no name, literal or
    parameter can close a bracket, start a comment or end the statement; its
    placeholders are the positions of its parameters; and what analysis
    promises about emission. *)
From S2P Require Import Prelude BTreeMap Types Diagnostics Syntax Bound Catalog Features Cost Suggest Scope Bind.
From S2P Require Import BindLogic Elab BindSound PlanFacts Render SqlText RenderText.
From Stdlib Require Import Ascii Sorted.
Local Open Scope result_scope.

(** ** Expressions that start with a minus *)

Fixpoint starts_minus (e : BoundExpr) : bool :=
  match e with
  | MkBoundExpr kind _ _ _ =>
      match kind with
      | BUnary UMinus _ => true
      | BLiteral (LInt64 i) => (i <? 0)%Z
      | BBetween e _ _ _ | BInList e _ _ | BInSubquery e _ _ | BLike e _ _ _ | BIsNull e _ => starts_minus e
      | _ => false
      end
  end.

(** What the text of a plan needs of its expressions: float literals are
    numbers, and a minus is not followed by another one. *)
Definition expr_ok (e : BoundExpr) : Prop :=
  match be_kind e with
  | BLiteral v => literal_ok v = true
  | BUnary UMinus e => starts_minus e = false
  | _ => True
  end.

Section Sealed.
Variable catalog : Catalog.
Variable self : SqlRenderer.
Hypothesis postgres : backend self = Postgres.

(** ** Lists and clauses *)

(** What the induction gives for a part. *)
Abbreviation rendered f Q := (λ x, Q x → ∀ s, f x = Ok s → sealed s).

Lemma sealed_all {A} (f : A → Result string) (Q : A → Prop) l ss :
  Forall (rendered f Q) l → each Q l → rcollect f l = Ok ss → Forall sealed ss.
Proof.
  intros Hl Hq%each_Forall H%rcollect_Ok. revert Hl Hq.
  induction H; intros Hl Hq; [constructor|]. inversion Hl; inversion Hq; subst. constructor; auto.
Qed.

Lemma sealed_comma_list {A} (f : A → Result string) (Q : A → Prop) l s :
  Forall (rendered f Q) l → each Q l → comma_list f l = Ok s → sealed s.
Proof.
  unfold comma_list. intros Hl Hq H. results. apply sealed_join; [is_glue|]. by eapply sealed_all.
Qed.

Lemma tail_list_clause {A} kw (f : A → Result string) (Q : A → Prop) l s :
  glue kw → Forall (rendered f Q) l → each Q l → list_clause kw f l = Ok s → tail s.
Proof.
  unfold list_clause. intros Hk Hl Hq H. destruct (is_empty l); results; [apply tail_nil|].
  apply tail_glue; [done|]. by eapply sealed_comma_list.
Qed.

Lemma tail_opt_clause {A} kw (f : A → Result string) (Q : A → Prop) o s :
  glue kw → opt_all (rendered f Q) o → here Q o → opt_clause kw f o = Ok s → tail s.
Proof.
  unfold opt_clause. intros Hk Hl Hq H. destruct o as [x|]; results; [|apply tail_nil].
  apply opt_all_Some in Hl. apply tail_glue; [done|]. by eapply Hl.
Qed.

Lemma sealed_parameter r s : render_parameter self r = Ok s → sealed s.
Proof.
  unfold render_parameter. rewrite postgres. intros H. results. intros st. exists LWord. split; [auto with seal|].
  rewrite scan_app. simpl. apply scan_show_N.
Qed.

Lemma sealed_column c s : render_column self c = Ok s → sealed s.
Proof.
  unfold render_column. intros H. destruct (col_relation c); results; eauto with seal.
Qed.

Lemma sealed_type t s : backend_type_name (backend self) t = Ok s → sealed s.
Proof. rewrite postgres. apply sealed_type_name. Qed.

Lemma sealed_table_name b s : render_table_name self b = Ok s → sealed s.
Proof.
  unfold render_table_name. intros H. results.
  assert (Hx : sealed x).
  { match goal with H : match _ with Some _ => _ | None => _ end = Ok x |- _ =>
      destruct (relation_name b); [by eapply sealed_name_ref|by eapply sealed_identifier] end. }
  match goal with H : (if ?c then _ else _) = Ok _ |- _ => destruct c end; results; [|done].
  eauto with seal.
Qed.

Lemma sealed_with_alias q b s : sealed q → with_alias self q b = Ok s → sealed s.
Proof.
  unfold with_alias. intros Hq H. results. apply (sealed_enclosed "(" ")" q); eauto with seal.
Qed.
Hint Resolve sealed_parameter sealed_column sealed_type : seal.

Local Ltac clause keyword :=
  first [eapply (tail_list_clause keyword); [is_glue| | |eassumption]; eassumption
        |eapply (tail_opt_clause keyword); [is_glue| | |eassumption]; eassumption].

(** ** The methods *)

Section Methods.
Variable render_expr : BoundExpr → Result string.
Variable Q : BoundExpr → Prop.
Abbreviation good := (rendered render_expr Q).

Lemma sealed_order_by o s :
  good (bob_expr o) → Q (bob_expr o) → render_order_by render_expr o = Ok s → sealed s.
Proof.
  unfold render_order_by. intros Hg Hq H. results. apply sealed_app; [by eapply Hg|].
  destruct (bob_asc o) as [[]|], (bob_nulls_first o) as [[]|]; is_tail.
Qed.

Lemma sealed_projection i s :
  (∀ d, i = BPExpr d → good (bpe_expr d)) →
  match i with BPExpr d => Q (bpe_expr d) | BPWildcard _ _ _ => True | BPUnsupported _ _ => False end →
  render_projection self render_expr i = Ok s → sealed s.
Proof.
  unfold render_projection. intros Hg Hq H. destruct i as [[q|]|d|]; results; [|is_fixed|].
  - apply sealed_app; [eauto with seal|is_tail].
  - assert (sealed x) by (by eapply (Hg d)). destruct (bpe_alias d); results; eauto with seal.
Qed.

Lemma tail_window w s :
  bound_window_all good w →
  each Q (bwin_partition_by w) ∧ each (λ o, Q (bob_expr o)) (bwin_order_by w) →
  render_window render_expr w = Ok s → tail s.
Proof.
  unfold render_window. intros [Hp Ho] [Hqp Hqo] H. results.
  apply (tail_enclosed " OVER (" ")" _ ""); [is_opener| |apply tail_nil]. apply sealed_join; [is_glue|].
  assert (Hpart : tail x) by clause "PARTITION BY ".
  assert (Hord : tail x0).
  { eapply (tail_list_clause "ORDER BY " _ (λ o, Q (bob_expr o))); [is_glue| |exact Hqo|eassumption].
    eapply Forall_impl; [exact Ho|]. intros o Hgo Hq s. by apply sealed_order_by. }
  destruct (is_empty (bwin_partition_by w)), (is_empty (bwin_order_by w)); simpl; auto using tail_sealed.
Qed.

Lemma sealed_function f s :
  bound_call_all good f →
  each Q (bfc_args f) ∧ here Q (bfc_filter f)
    ∧ here (λ w, each Q (bwin_partition_by w) ∧ each (λ o, Q (bob_expr o)) (bwin_order_by w)) (bfc_over f) →
  render_function catalog self render_expr f = Ok s → sealed s.
Proof.
  unfold render_function. intros (Hga & Hgf & Hgo) (Hqa & Hqf & Hqo) H. results.
  rename x1 into args, x2 into name, x3 into filter, x4 into over.
  assert (Hargs : sealed ((if bfc_distinct f then "DISTINCT " else "") +:+
            (if eq_ignore_ascii_case (fn_name (bfc_function f)) "count" && is_empty (bfc_args f) then "*" else args))).
  { assert (sealed args) by (by eapply sealed_comma_list).
    destruct (bfc_distinct f), (_ && _); try is_fixed; [|done]. by apply sealed_glue; [is_glue|]. }
  assert (Hname : sealed name) by eauto with seal.
  assert (Hfilter : tail filter).
  { destruct (bfc_filter f); results; [|apply tail_nil]. apply opt_all_Some in Hgf.
    apply (tail_enclosed " FILTER (WHERE " ")" _ ""); eauto with seal. }
  assert (Hover : tail over).
  { destruct (bfc_over f) as [w|]; results; [|apply tail_nil]. by eapply tail_window; [eapply opt_all_Some| |]. }
  apply sealed_app; [done|]. rewrite <- (string_app_assoc (if bfc_distinct f then _ else _)).
  apply (tail_enclosed "(" ")"); [is_opener|done|]. by apply tail_app.
Qed.
Lemma tail_concat_all {A} (f : A → Result string) (R : A → Prop) l s :
  Forall (λ x, R x → ∀ s, f x = Ok s → tail s) l → each R l → concat_all f l = Ok s → tail s.
Proof.
  unfold concat_all. intros Hl Hr%each_Forall H. results. apply tail_concat.
  match goal with H : rcollect _ _ = Ok _ |- _ => apply rcollect_Ok in H; revert Hl Hr; induction H end;
    intros Hl Hr; [constructor|]. inversion Hl; inversion Hr; subst. constructor; auto.
Qed.

Lemma sealed_case operand pairs else_result s :
  opt_all good operand → Forall (λ p, good (bwt_condition p) ∧ good (bwt_result p)) pairs →
  opt_all good else_result → here Q operand →
  each (λ p, Q (bwt_condition p) ∧ Q (bwt_result p)) pairs → here Q else_result →
  render_case render_expr operand pairs else_result = Ok s → sealed s.
Proof.
  unfold render_case. intros Hgo Hgp Hge Hqo Hqp Hqe H. results.
  assert (Ho : tail x) by clause " ".
  assert (He : tail x1) by clause " ELSE ".
  assert (Hp : tail x0).
  { eapply (tail_concat_all _ (λ p, Q (bwt_condition p) ∧ Q (bwt_result p))); [|exact Hqp|eassumption].
    eapply Forall_impl; [exact Hgp|]. intros p [Hgc Hgr] [Hqc Hqr] t Ht. simpl in Ht. results.
    apply (tail_glue " WHEN "); [is_glue|]. apply sealed_app; [by eapply Hgc|].
    apply (tail_glue " THEN "); [is_glue|]. by eapply Hgr. }
  apply (sealed_app "CASE"); [is_fixed|]. repeat (apply tail_app; [done|]). is_tail.
Qed.

Lemma sealed_in_list e items negated s :
  good e → Forall good items → Q e → each Q items →
  render_in_list self render_expr e items negated = Ok s → sealed s.
Proof.
  unfold render_in_list. intros Hge Hgi Hqe Hqi H. results. rewrite postgres in H. destruct x as [r|]; results.
  - apply sealed_app; [by eapply Hge|].
    destruct negated;
      [apply (tail_enclosed " <> ALL(" ")" _ "")|apply (tail_enclosed " = ANY(" ")" _ "")]; eauto with seal.
  - apply sealed_app; [by eapply Hge|]. assert (sealed x0) by (by eapply sealed_comma_list).
    destruct negated;
      [apply (tail_enclosed " NOT IN (" ")" _ "")|apply (tail_enclosed " IN (" ")" _ "")]; auto with seal.
Qed.

Lemma sealed_select render_table (T : BoundTableWithJoins → Prop) select s :
  bound_select_all (rendered render_table T) good select →
  each (λ i, match i with
             | BPExpr d => Q (bpe_expr d)
             | BPWildcard _ _ _ => True
             | BPUnsupported _ _ => False
             end) (bsel_projection select)
    ∧ each T (bsel_from select) ∧ here Q (bsel_selection select)
    ∧ each Q (bsel_group_by select) ∧ here Q (bsel_having select) →
  render_select self render_expr render_table select = Ok s → sealed s.
Proof.
  unfold render_select. intros (Hgp & Hgt & Hgs & Hgg & Hgh) (Hqp & Hqt & Hqs & Hqg & Hqh) H. results.
  assert (Hp : sealed x).
  { eapply sealed_comma_list; [|exact Hqp|eassumption]. eapply Forall_impl; [exact Hgp|].
    intros i Hi Hq t. by apply sealed_projection. }
  assert (Hf : tail x0) by clause " FROM ".
  assert (Hs : tail x1) by clause " WHERE ".
  assert (Hg : tail x2) by clause " GROUP BY ".
  assert (Hh : tail x3) by clause " HAVING ".
  assert (Hr : sealed (x +:+ x0 +:+ x1 +:+ x2 +:+ x3)) by auto using sealed_app, tail_app.
  destruct (bsel_distinct select);
    [apply (sealed_glue "SELECT DISTINCT ")|apply (sealed_glue "SELECT ")]; by auto with seal.
Qed.

Lemma tail_join render_relation (R : BoundRelation → Prop) j s :
  rendered render_relation R (bjoin_relation j) → opt_all good (bjoin_on j) →
  R (bjoin_relation j) → here Q (bjoin_on j) → render_join render_expr render_relation j = Ok s → tail s.
Proof.
  unfold render_join. intros Hgr Hgo Hqr Hqo H. results.
  assert (Hr : sealed x) by (by eapply Hgr).
  assert (Ho : tail x0) by clause " ON ".
  assert (sealed (x +:+ x0)) by (by apply sealed_app).
  destruct (bjoin_kind j);
    [apply (tail_glue " INNER JOIN ")|apply (tail_glue " LEFT JOIN ")|apply (tail_glue " RIGHT JOIN ")
    |apply (tail_glue " FULL JOIN ")|apply (tail_glue " CROSS JOIN ")]; by auto with seal.
Qed.
End Methods.

Lemma sealed_cte render_query (R : BoundQueryPlan → Prop) c s :
  rendered render_query R (bcte_query c) → R (bcte_query c) → render_cte self render_query c = Ok s → sealed s.
Proof.
  unfold render_cte. intros Hg Hq H. results. apply sealed_app; [eauto with seal|].
  assert (Hc : tail x0).
  { destruct (is_empty (bcte_columns c)); results; [apply tail_nil|].
    apply (tail_enclosed " (" ")" _ ""); [is_opener| |apply tail_nil].
    unfold comma_list in *. results. apply sealed_join; [is_glue|].
    eapply sealed_collected; [|eassumption]. apply sealed_identifier. }
  apply tail_app; [done|]. apply (tail_enclosed " AS (" ")" _ ""); [is_opener|by eapply Hg|apply tail_nil].
Qed.

Lemma render_clauses_postgres l : string_join "" (List.map (render_backend_clause self) l) = "".
Proof.
  induction l as [|c l IH]; [done|]. unfold render_backend_clause in *. rewrite postgres in *.
  cbn [List.map]. destruct l as [|d l]; [done|].
  change (string_join "" ("" :: ?x)) with ("" +:+ "" +:+ string_join "" x). by rewrite !string_app_nil_l.
Qed.
(** ** Over the plan *)

Lemma expr_not_dash e s :
  all_expr expr_ok e → starts_minus e = false → render_expr catalog self e = Ok s →
  starts_with not_dash s = true.
Proof.
  revert e s. fix IH 1. intros [k t n node] s [Hok Hall] Hm H. unfold expr_ok in Hok. simpl in Hok, Hm, H.
  destruct k as [c|v|r|op e|op l r|f|o ps el|e ty|e lo hi ng|e l ng|e q ng|q|q|e p ng ci|e ng|l|l|d];
    simpl in Hall; results; try done.
  - unfold render_column in H. destruct (col_relation c); results;
      [by eapply starts_app, qualified_not_dash|by eapply identifier_not_dash].
  - destruct v as [|[]|i|f|f]; try done; simpl in *.
    + unfold show_Z. destruct i; [done| |done]. destruct (show_N_digits (Npos p)) as [Hd Hne].
      apply word_not_dash. change (starts_with word_char (show_N (Npos p)) = true).
      destruct (show_N (N.pos p)); [done|]. apply andb_true_iff in Hd as [? _]. by apply digit_word_char.
    + apply andb_true_iff in Hok as [Hok _]. destruct f as [|c f]; [done|]. simpl in *. unfold not_dash.
      by destruct (Ascii.eqb_spec c "-"%char) as [->|].
  - unfold render_parameter in H. rewrite postgres in H. by results.
  - by destruct op.
  - unfold render_function in H. results. by eapply starts_app, function_ref_not_dash.
  - unfold render_case in H. by results.
  - destruct Hall as (He & _). apply starts_app. by eapply IH.
  - destruct Hall as (He & _). unfold render_in_list in H. results. rewrite postgres in H.
    destruct x; results; apply starts_app; by eapply IH.
  - destruct Hall as (He & _). apply starts_app. by eapply IH.
  - destruct Hall as (He & _). apply starts_app. by eapply IH.
  - apply starts_app. by eapply IH.
  - by rewrite postgres.
Qed.

Lemma sealed_binary op l r :
  sealed l → sealed r → sealed ("(" +:+ l +:+ " " +:+ render_binary_operator op +:+ " " +:+ r +:+ ")").
Proof.
  intros Hl Hr. apply tail_sealed.
  destruct op;
    [apply (tail_enclosed2 "(" ")" _ " + " _ "")|apply (tail_enclosed2 "(" ")" _ " - " _ "")
    |apply (tail_enclosed2 "(" ")" _ " * " _ "")|apply (tail_enclosed2 "(" ")" _ " / " _ "")
    |apply (tail_enclosed2 "(" ")" _ " = " _ "")|apply (tail_enclosed2 "(" ")" _ " <> " _ "")
    |apply (tail_enclosed2 "(" ")" _ " < " _ "")|apply (tail_enclosed2 "(" ")" _ " <= " _ "")
    |apply (tail_enclosed2 "(" ")" _ " > " _ "")|apply (tail_enclosed2 "(" ")" _ " >= " _ "")
    |apply (tail_enclosed2 "(" ")" _ " AND " _ "")|apply (tail_enclosed2 "(" ")" _ " OR " _ "")];
    auto with seal.
Qed.

(** A comma list in brackets. *)
Lemma sealed_items o k (l : list BoundExpr) s :
  opens o k → Forall (rendered (render_expr catalog self) (all_expr expr_ok)) l → each (all_expr expr_ok) l →
  comma_list (render_expr catalog self) l = Ok s → sealed (o +:+ s +:+ char_text k).
Proof.
  intros Ho Hg Hq H. rewrite <- (string_app_nil_r (char_text k)).
  apply sealed_enclosed; [done|by eapply sealed_comma_list|apply tail_nil].
Qed.

Lemma sealed_kind k t n node s :
  bound_kind_all (rendered (render_query_inner catalog self) (all_query expr_ok))
    (rendered (render_expr catalog self) (all_expr expr_ok)) k →
  all_expr expr_ok (MkBoundExpr k t n node) → render_expr catalog self (MkBoundExpr k t n node) = Ok s → sealed s.
Proof.
  intros Hg Hq H. pose proof Hq as [Hok Hall]. unfold expr_ok in Hok. simpl in Hok, H.
  destruct k as [c|v|r|op e|op l r|f|o ps el|e ty|e lo hi ng|e l ng|e q ng|q|q|e p ng ci|e ng|l|l|d];
    simpl in Hg, Hall; results; try done.
  - by eapply sealed_column.
  - by apply sealed_literal.
  - by eapply sealed_parameter.
  - assert (Hx : sealed x) by (by eapply Hg). destruct op; simpl.
    + apply (sealed_glue "+"); [is_glue|done].
    + apply sealed_minus; [|done]. by eapply expr_not_dash.
    + apply (sealed_glue "NOT "); [is_glue|done].
  - destruct Hg, Hall. apply sealed_binary; eauto.
  - by eapply sealed_function.
  - destruct Hg as (Hg1 & Hg2 & Hg3), Hall as (Ha1 & Ha2 & Ha3).
    exact (sealed_case _ _ _ _ _ _ Hg1 Hg2 Hg3 Ha1 Ha2 Ha3 H).
  - apply tail_sealed, (tail_enclosed2 "CAST(" ")" _ " AS " _ ""); eauto with seal.
  - destruct Hg as (Hg1 & Hg2 & Hg3), Hall as (Ha1 & Ha2 & Ha3).
    apply sealed_app; [by eapply Hg1|].
    assert (sealed (x0 +:+ " AND " +:+ x1)).
    { apply sealed_app; [by eapply Hg2|]. apply tail_glue; [is_glue|by eapply Hg3]. }
    destruct ng; [apply (tail_glue " NOT BETWEEN ")|apply (tail_glue " BETWEEN ")]; by auto with seal.
  - destruct Hg, Hall. by eapply sealed_in_list.
  - destruct Hg as [Hg1 Hg2], Hall as [Ha1 Ha2]. apply sealed_app; [by eapply Hg1|].
    destruct ng; [apply (tail_enclosed " NOT IN (" ")" _ "")|apply (tail_enclosed " IN (" ")" _ "")]; eauto with seal.
  - apply (sealed_enclosed "(" ")" _ ""); eauto with seal.
  - apply (sealed_enclosed "EXISTS (" ")" _ ""); eauto with seal.
  - destruct Hg as [Hg1 Hg2], Hall as [Ha1 Ha2]. apply sealed_app; [by eapply Hg1|].
    assert (sealed x0) by (by eapply Hg2).
    destruct ng, ci; [apply (tail_glue " NOT ILIKE ")|apply (tail_glue " NOT LIKE ")|apply (tail_glue " ILIKE ")
                     |apply (tail_glue " LIKE ")]; by auto with seal.
  - apply sealed_app; [by eapply Hg|]. destruct ng; is_tail.
  - apply (sealed_items "(" ")" l); auto with seal.
  - rewrite postgres. apply (sealed_items "ARRAY[" "]" l); auto with seal.
Qed.

Lemma sealed_plan :
  (∀ q, all_query expr_ok q → ∀ s, render_query_inner catalog self q = Ok s → sealed s)
  ∧ (∀ e, all_set_expr expr_ok e → ∀ s, render_set_expr catalog self e = Ok s → sealed s)
  ∧ (∀ t, all_table expr_ok t → ∀ s, render_table_with_joins catalog self t = Ok s → sealed s)
  ∧ (∀ r, all_relation expr_ok r → ∀ s, render_relation catalog self r = Ok s → sealed s)
  ∧ (∀ e, all_expr expr_ok e → ∀ s, render_expr catalog self e = Ok s → sealed s).
Proof.
  apply Bound_induction.
  - intros node cs body ob lim off bc schema Hcs Hb Hob Hlim Hoff (Hqc & Hqb & Hqo & Hql & Hqf) s H.
    cbn [render_query_inner] in H. results. rewrite render_clauses_postgres, string_app_nil_r.
    assert (Hbody : sealed x0) by (by eapply Hb).
    assert (Ho : tail x1).
    { eapply (tail_list_clause " ORDER BY " _ (λ o, all_expr expr_ok (bob_expr o))); [is_glue| |exact Hqo|eassumption].
      eapply Forall_impl; [exact Hob|]. intros o Hg Hq t. by apply (sealed_order_by _ (all_expr expr_ok)). }
    assert (Hl : tail x2) by clause " LIMIT ".
    assert (Hf : tail x3) by clause " OFFSET ".
    assert (Hrest : sealed (x0 +:+ x1 +:+ x2 +:+ x3)) by auto using sealed_app, tail_app.
    destruct (is_empty cs); results; [done|].
    rewrite !string_app_assoc. apply (sealed_glue "WITH "); [is_glue|].
    apply sealed_app; [|by apply (tail_glue " "); [is_glue|]].
    eapply sealed_comma_list; [|exact Hqc|eassumption].
    eapply Forall_impl; [exact Hcs|]. intros c Hg Hq t. by apply (sealed_cte _ (all_query expr_ok)).
  - intros select Hg Hq s H. by eapply sealed_select.
  - intros l r node schema Hl Hr [Hql Hqr] s H. simpl in H. results.
    assert (Hp : ∀ b x, sealed x → sealed (paren_unless b x)).
    { intros [] y Hy; [done|]. by apply (sealed_enclosed "(" ")" y ""); auto with seal. }
    apply sealed_app; [eauto|]. apply (tail_glue " UNION ALL "); [is_glue|eauto].
  - done.
  - intros r js node Hr Hjs [Hqr Hqj] s H. simpl in H. results. apply sealed_app; [eauto|].
    eapply tail_concat_all; [|exact Hqj|eassumption]. eapply Forall_impl; [exact Hjs|].
    intros j [Hgr Hgo] [Hqr' Hqo] t. by apply (tail_join _ (all_expr expr_ok) _ (all_relation expr_ok)).
  - intros b node _ s H. by eapply sealed_table_name.
  - intros b q node Hq Hqq s H. simpl in H. results. eapply sealed_with_alias; [|eassumption]. eauto.
  - intros b t node Ht Hqt s H. simpl in H. results. eapply sealed_with_alias; [|eassumption]. eauto.
  - done.
  - intros k t n node Hk Hq s H. by eapply sealed_kind.
Qed.
End Sealed.

(** ** Positions of parameters *)

Lemma bt_from_list_get {K V} `{RustOrd K} (l : list (K * V)) k v :
  NoDup l.*1 → (k, v) ∈ l → bt_get k (bt_from_list l) = Some v.
Proof.
  induction l as [|[k' v'] l IH] using rev_ind; intros Hd Hin; [by apply not_elem_of_nil in Hin|].
  rewrite fmap_app in Hd. apply NoDup_app in Hd as (Hl & Hdis & _).
  rewrite bt_from_list_snoc. apply elem_of_app in Hin as [Hin|Hin].
  - rewrite bt_get_insert_ne; [by apply IH|]. intros ->. apply (Hdis k).
    + apply list_elem_of_fmap. by exists (k, v).
    + by left.
  - apply list_elem_of_singleton in Hin as [= -> ->]. apply bt_get_insert_eq.
Qed.

Definition references (l : list ParameterSchema) : list ParameterRef := List.map ps_reference l.

Lemma renderer_position b schemas k schema :
  NoDup (references schemas) → schemas !! k = Some schema →
  bt_get (ps_reference schema) (parameter_positions (SqlRenderer_new b schemas)) = Some (N.of_nat (k + 1)).
Proof.
  intros Hd Hk. simpl. apply bt_from_list_get.
  - rewrite fmap_imap. replace (imap _ schemas) with (references schemas); [done|].
    unfold references. clear. generalize 0. induction schemas as [|s l IH]; intros n; [done|].
    simpl. f_equal. rewrite (IH (S n)). by apply imap_ext.
  - apply list_elem_of_lookup. exists k. by rewrite list_lookup_imap, Hk.
Qed.

Lemma renderer_schema b schemas k schema :
  NoDup (references schemas) → schemas !! k = Some schema →
  parameter_schema (SqlRenderer_new b schemas) (ps_reference schema) = Ok schema.
Proof.
  intros Hd Hk. unfold parameter_schema. apply ok_or_Ok. simpl.
  revert k Hk Hd. induction schemas as [|s l IH]; intros k Hk Hd; [by destruct k|].
  inversion Hd as [|? ? Hn Hl]; subst. simpl. destruct k as [|k].
  - injection Hk as ->. by rewrite bool_decide_true.
  - rewrite bool_decide_false; [by eapply IH|]. intros Heq. apply Hn. rewrite Heq.
    apply list_elem_of_fmap_2. by eapply list_elem_of_lookup_2.
Qed.

(** Sorted parameters keep their order. *)
Lemma ordered_sorted l : StronglySorted klt (references l) → foldr insert_schema [] l = l.
Proof.
  induction l as [|s l IH]; simpl; [done|]. intros Hs. inversion Hs as [|? ? Hl Hf]; subst.
  rewrite IH by done. destruct l as [|t l]; [done|]. simpl. unfold schema_le.
  apply Forall_cons in Hf as [Hlt _]. unfold klt in Hlt. by rewrite Hlt.
Qed.

(** ** Properties *)

(** C19: safety.  The text emitted for PostgreSQL is whole code: outside of
    string literals and quoted names it starts no comment, no dollar quote and
    no prefixed literal, holds no statement separator, and closes exactly the
    brackets it opens, whatever names, strings, numbers and parameters the
    plan holds.  The plan must have no unsupported node, float literals that
    are numbers, and no minus directly before another. *)
Theorem emitted_text_is_sealed query catalog a :
  emit_sql_artifact query catalog Postgres = Ok a →
  all_query expr_ok (bound_plan query) →
  ∃ l, calm l ∧ scan (sql_text a) (Code LOther, []) = Some (Code l, []).
Proof.
  unfold emit_sql_artifact, render_query. intros H Hok. results. simpl.
  assert (Hx : sealed x0) by (by eapply (proj1 (sealed_plan catalog (SqlRenderer_new Postgres (ordered_parameters query)) eq_refl))).
  destruct (pq_explain (bound_parsed query)); [apply (sealed_glue "EXPLAIN "); [is_glue|done]|apply Hx].
Qed.

(** ** Analyses *)

(** A function that can be rendered on a backend with these capabilities. *)
Definition function_supported (catalog : Catalog) (b : string) (capabilities : CapabilitySet) (f : FunctionRef) : Prop :=
  ∃ signature, resolve_function catalog (fn_namespace f) (fn_name f) = Some signature
  ∧ is_Some (backend_mapping signature b)
  ∧ (metadata_flag signature "approximate" = true → BFApproximateAggregates ∈ cap_features capabilities)
  ∧ (is_Some (fn_namespace f) → BFNamespacedFunctions ∈ cap_features capabilities).

Lemma has_error_push_if b x : is_error x = true → has_error (push_if b x) = b.
Proof. intros H. destruct b; simpl; [|done]. unfold has_error. simpl. by rewrite H. Qed.

Lemma is_some_is_Some {A} (o : option A) : is_some o = true ↔ is_Some o.
Proof. destruct o; simpl; split; eauto; [done|by intros []]. Qed.

Lemma function_diagnostics_clean catalog b capabilities f :
  has_error (function_diagnostics catalog b capabilities f) = false
  ↔ function_supported catalog b capabilities f.
Proof.
  unfold function_diagnostics, function_supported.
  destruct (resolve_function catalog (fn_namespace f) (fn_name f)) as [sg|]; [|naive_solver].
  rewrite !has_error_app, !has_error_push_if by done. unfold supports.
  rewrite !orb_false_iff, negb_false_iff, !andb_false_iff, !negb_false_iff, !bool_decide_eq_true, is_some_is_Some.
  rewrite <- !not_true_iff_false, is_some_is_Some.
  destruct (decide (BFApproximateAggregates ∈ cap_features capabilities)),
    (decide (BFNamespacedFunctions ∈ cap_features capabilities)); naive_solver.
Qed.

Lemma bt_from_list_keys {K V} `{RustOrd K} (l : list (K * V)) k : k ∈ bt_keys (bt_from_list l) ↔ k ∈ l.*1.
Proof.
  induction l as [|[k' v'] l IH] using rev_ind; [done|].
  rewrite bt_from_list_snoc, bt_keys_insert, IH, fmap_app, elem_of_app. simpl.
  rewrite list_elem_of_singleton. tauto.
Qed.

Lemma elem_of_iter_functions f s : f ∈ iter_functions s ↔ f ∈ s.
Proof.
  unfold iter_functions. rewrite <- elem_of_elements, list_elem_of_In, in_map_iff.
  setoid_rewrite <- list_elem_of_In. setoid_rewrite bt_from_list_keys.
  assert (Hk : ∀ l : list FunctionRef, (List.map (λ g, ((fn_namespace g, fn_name g), tt)) l).*1
                 = (λ g, (fn_namespace g, fn_name g)) <$> l) by (intros l; by induction l; simpl; f_equal).
  rewrite Hk. setoid_rewrite list_elem_of_fmap. split.
  - intros (k & <- & g & -> & Hg). by destruct g.
  - intros Hf. exists (fn_namespace f, fn_name f). split; [by destruct f|]. by exists f.
Qed.

Lemma has_error_flat_map {A} (f : A → list QueryDiagnostic) l :
  has_error (flat_map f l) = false ↔ ∀ x, x ∈ l → has_error (f x) = false.
Proof.
  induction l as [|x l IH]; simpl; [split; [intros _ x Hx; by apply not_elem_of_nil in Hx|done]|].
  rewrite has_error_app, orb_false_iff, IH. setoid_rewrite elem_of_cons. naive_solver.
Qed.

(** Functional.  The analysis supports a query exactly when its binding
    left no error, it uses the ClickHouse clauses only where they are allowed,
    and every function found in it is registered, has a mapping for the
    backend, and is approximate or namespaced only where the backend has the
    capability. *)
Theorem analysis_supported_iff catalog b capabilities query allow :
  let features := plan_features_from_bound catalog (bound_plan query) in
  an_supported (analyze_backend_support catalog b capabilities query allow) = true
  ↔ has_error (bound_diagnostics query) = false
    ∧ (has_clickhouse_settings features || has_clickhouse_format features = true → allow = true)
    ∧ ∀ f, f ∈ feature_functions features → function_supported catalog b capabilities f.
Proof.
  simpl. unfold clause_diagnostics. set (features := plan_features_from_bound _ _).
  rewrite negb_true_iff, !has_error_app, !orb_false_iff, !has_error_push_if, has_error_flat_map by done.
  setoid_rewrite elem_of_iter_functions. setoid_rewrite function_diagnostics_clean.
  destruct (has_clickhouse_settings features), (has_clickhouse_format features), allow; simpl; naive_solver.
Qed.
