(* ===== verification/FeatureFacts.v ===== *)
(** The features of an accepted plan are the features of its query. *)
From S2P Require Import Prelude BTreeMap Types Diagnostics Syntax Bound Catalog Features Suggest.
From S2P Require Import Scope Bind BindLogic Elab BindSound PlanFacts.

(** ** Agreement of features

    The two inspections differ in two flags only: the syntax decides
    aggregates by the name of the function, the plan by the catalog, which may
    also call a function without [OVER] a window function. *)
Record agree (s b : PlanFeatures) : Prop := {
  agree_ctes : has_ctes s = has_ctes b;
  agree_derived : has_derived_tables s = has_derived_tables b;
  agree_joins : has_joins s = has_joins b;
  agree_set_operations : has_set_operations s = has_set_operations b;
  agree_distinct : has_distinct_aggregates s = has_distinct_aggregates b;
  agree_scalar : has_scalar_subqueries s = has_scalar_subqueries b;
  agree_in : has_in_subqueries s = has_in_subqueries b;
  agree_settings : has_clickhouse_settings s = has_clickhouse_settings b;
  agree_format : has_clickhouse_format s = has_clickhouse_format b;
  agree_limit : has_limit_offset s = has_limit_offset b;
  agree_functions : feature_functions s = feature_functions b;
  agree_windows : has_windows s = true → has_windows b = true;
  agree_supported : has_recursive_ctes s = false ∧ unsupported_set_ops s = []
}.

Lemma agree_merge s1 s2 b1 b2 :
  agree s1 b1 → agree s2 b2 → agree (merge_plan_features s1 s2) (merge_plan_features b1 b2).
Proof.
  intros [] []. split; simpl; try congruence.
  - rewrite !orb_true_iff. tauto.
  - destruct_and?. split; [by rewrite orb_false_iff|]. by repeat match goal with H : _ = [] |- _ => rewrite H end.
Qed.

(** Marks both sides make, and the marks only one side makes. *)
Lemma agree_mark k s b :
  (∀ d, k ≠ MUnsupportedSetOp d) → agree s b → agree (mark k s) (mark k b).
Proof.
  intros Hk H. apply agree_merge; [done|].
  destruct k; split; simpl; try done. by destruct (Hk description).
Qed.

Lemma agree_mark_if c k s b :
  (∀ d, k ≠ MUnsupportedSetOp d) → agree s b → agree (mark_if c k s) (mark_if c k b).
Proof. intros. destruct c; simpl; [by apply agree_mark|done]. Qed.

Lemma agree_aggregates_l s b : agree s b → agree (mark MAggregates s) b.
Proof.
  intros []. split; simpl; rewrite ?orb_false_r, ?app_nil_r, ?(right_id_L ∅ (∪)); auto.
Qed.
Lemma agree_aggregates_r s b : agree s b → agree s (mark MAggregates b).
Proof.
  intros []. split; simpl; rewrite ?orb_false_r, ?app_nil_r, ?(right_id_L ∅ (∪)); auto.
Qed.
Lemma agree_windows_r s b : agree s b → agree s (mark MWindows b).
Proof.
  intros []. split; simpl; rewrite ?orb_false_r, ?orb_true_r, ?app_nil_r, ?(right_id_L ∅ (∪)); auto.
Qed.

Create HintDb features.
#[export] Hint Resolve agree_merge agree_mark agree_mark_if agree_aggregates_l agree_aggregates_r
  agree_windows_r : features.
#[export] Hint Extern 1 (_ ≠ MUnsupportedSetOp _) => discriminate : features.

Lemma agree_each {A B} (vs : A → PlanFeatures → PlanFeatures)
    (vb : B → PlanFeatures → PlanFeatures) l bl s b :
  Forall2 (λ x y, ∀ s b, agree s b → agree (vs x s) (vb y b)) l bl → agree s b →
  agree (visit_each vs l s) (visit_each vb bl b).
Proof.
  intros H. revert s b. induction H as [|x y l bl Hxy _ IH]; intros s b Hsb; [done|]. by apply IH, Hxy.
Qed.

Lemma visit_each_app {A} (v : A → PlanFeatures → PlanFeatures) l1 l2 f :
  visit_each v (l1 ++ l2) f = visit_each v l2 (visit_each v l1 f).
Proof. apply fold_left_app. Qed.

Section Agreement.
Variable catalog : Catalog.
Variable Γ : BTreeMap ParameterRef ParameterConstraint.

Abbreviation vexpr := (visit_bound_expr catalog).
Abbreviation vrel := (visit_bound_relation catalog).

(** Visiting [e] and then [b] preserves agreement, when [b] elaborates [e]. *)
Definition agrees_expr (e : SyntaxExpr) : Prop :=
  ∀ sc x b, elab_expr catalog Γ sc x e b →
  ∀ s f, agree s f → agree (visit_syntax_expr e s) (vexpr b f).
Definition agrees_query (q : SyntaxQuery) : Prop :=
  ∀ p, elab_query catalog Γ q p → agree (plan_features_from_syntax q) (plan_features_from_bound catalog p).
Definition agrees_set_expr (e : SyntaxSetExpr) : Prop :=
  ∀ ctes b, elab_set_expr catalog Γ ctes e b →
  ∀ s f, agree s f → agree (visit_syntax_set_expr e s) (visit_bound_set_expr catalog b f).
Definition agrees_relation (r : SyntaxRelation) : Prop :=
  ∀ ctes sc b, elab_relation catalog Γ ctes sc r b →
  ∀ s f, agree s f → agree (visit_syntax_relation r s) (vrel b f).

(** The visits of a table in a [FROM], and of a table in a nested join. *)
Definition nested_syntax '(MkSyntaxTableWithJoins r js _) (s : PlanFeatures) : PlanFeatures :=
  visit_each (λ j f, visit_syntax_relation (join_relation j) f) js (visit_syntax_relation r s).
Definition nested_bound '(MkBoundTableWithJoins r js _) (f : PlanFeatures) : PlanFeatures :=
  visit_each (λ j f, vrel (bjoin_relation j) f) js (vrel r f).
Definition agrees_table (t : SyntaxTableWithJoins) : Prop :=
  ∀ ctes sc b, elab_table catalog Γ ctes sc t b →
  ∀ s f, agree s f →
    agree (visit_syntax_from t s) (visit_bound_from catalog b f)
    ∧ agree (nested_syntax t s) (nested_bound b f).

Lemma agrees_opt sc x o bo s f :
  opt_all agrees_expr o → option_Forall2 (elab_expr catalog Γ sc x) o bo → agree s f →
  agree (visit_opt visit_syntax_expr o s) (visit_opt vexpr bo f).
Proof. intros Ho H2 Ha. destruct H2; simpl; [|done]. by eapply Ho. Qed.

Lemma agrees_list sc x l bl s f :
  Forall agrees_expr l → Forall2 (elab_expr catalog Γ sc x) l bl → agree s f →
  agree (visit_each visit_syntax_expr l s) (visit_each vexpr bl f).
Proof.
  intros Hl H2. apply agree_each.
  revert Hl. induction H2 as [|e b l bl He _ IH]; intros Hl; [constructor|]. inversion Hl; subst.
  constructor; [|auto]. eauto.
Qed.

Lemma agrees_args sc sg i l bl s f :
  Forall agrees_expr l →
  Forall2 (λ ia b, elab_expr catalog Γ sc {| exp_data_type := declared_arg_type sg ia.1; exp_nullable := NcNonNull |} ia.2 b)
    (imap (λ k e, (i + k, e)) l) bl →
  agree s f → agree (visit_each visit_syntax_expr l s) (visit_each vexpr bl f).
Proof.
  intros Hl. revert i bl s f. induction Hl as [|e l He Hl IH]; intros i bl s f H2 Ha; inversion H2; subst; [done|].
  apply (IH (S i) _ (visit_syntax_expr e s) (vexpr _ f)); [|by eapply He]. erewrite imap_ext; [eassumption|].
  intros k z _. simpl. f_equal. lia.
Qed.

Lemma agrees_cases sc l bl s f :
  Forall (λ p, agrees_expr (wt_condition p) ∧ agrees_expr (wt_result p)) l →
  Forall2 (λ p bp, elab_expr catalog Γ sc (expect TBoolean) (wt_condition p) (bwt_condition bp)
                   ∧ elab_expr catalog Γ sc ExpectedType_default (wt_result p) (bwt_result bp)) l bl →
  agree s f →
  agree (visit_each (λ p s, visit_syntax_expr (wt_result p) (visit_syntax_expr (wt_condition p) s)) l s)
        (visit_each (λ p f, vexpr (bwt_result p) (vexpr (bwt_condition p) f)) bl f).
Proof.
  intros Hl H2 Ha. apply agree_each; [|done].
  clear Ha. revert Hl. induction H2 as [|p bp l bl [Hc Hr] _ IH]; intros Hl; [constructor|].
  inversion Hl as [|?? []]; subst. constructor; [|auto]. eauto.
Qed.

Lemma agrees_items sc items bitems fs s f :
  Forall (λ i, ∀ d, i = PExpr d → agrees_expr (pe_expr d)) items →
  elab_items catalog Γ sc items bitems fs → agree s f →
  agree (visit_each (λ i s, match i with PExpr d => visit_syntax_expr (pe_expr d) s | _ => s end) items s)
        (visit_each (λ i f, match i with BPExpr d => vexpr (bpe_expr d) f | _ => f end) bitems f).
Proof.
  intros Hi He Ha. revert bitems fs Hi He.
  induction items as [|i items IH] using rev_ind; intros bitems fs Hi He.
  - by apply elab_items_nil_inv in He as [-> _].
  - apply elab_items_snoc_inv in He as (bitems' & b & fs' & f' & -> & -> & He & Hb).
    apply Forall_app in Hi as [Hi Hlast]. apply Forall_cons in Hlast as [Hlast _].
    rewrite !visit_each_app. specialize (IH _ _ Hi He). destruct Hb as [|sc d b Hd]; simpl; [done|].
    by eapply (Hlast d).
Qed.

Lemma agrees_from ctes ts bts s f :
  Forall agrees_table ts → elab_from catalog Γ ctes ts bts → agree s f →
  agree (visit_each visit_syntax_from ts s) (visit_each (visit_bound_from catalog) bts f).
Proof.
  intros Ht He Ha. revert bts Ht He. induction ts as [|t ts IH] using rev_ind; intros bts Ht He.
  - by apply elab_from_nil_inv in He as ->.
  - apply elab_from_snoc_inv in He as (bts' & bt & -> & He & Hb).
    apply Forall_app in Ht as [Ht Hlast]. apply Forall_cons in Hlast as [Hlast _].
    rewrite !visit_each_app. simpl. by eapply Hlast; [|apply IH].
Qed.

(** Nullability is not a feature. *)
Lemma vrel_nullable r f : vrel (make_relation_nullable r) f = vrel r f.
Proof. by destruct r as [| |? []|]. Qed.

Lemma visit_nullable_joins js f :
  visit_each (λ j f, visit_opt vexpr (bjoin_on j) (vrel (bjoin_relation j) f)) (make_join_relations_nullable js) f
  = visit_each (λ j f, visit_opt vexpr (bjoin_on j) (vrel (bjoin_relation j) f)) js f
  ∧ visit_each (λ j f, vrel (bjoin_relation j) f) (make_join_relations_nullable js) f
    = visit_each (λ j f, vrel (bjoin_relation j) f) js f.
Proof.
  revert f. induction js as [|j js IH]; intros f; simpl; [done|]. rewrite vrel_nullable.
  split; apply IH.
Qed.

(** The visits of the locals of the join loop. *)
Definition vacc (acc : JoinAcc) (f : PlanFeatures) : PlanFeatures :=
  visit_each (λ j f, visit_opt vexpr (bjoin_on j) (vrel (bjoin_relation j) f)) (ja_joins acc) (vrel (ja_relation acc) f).
Definition nacc (acc : JoinAcc) (f : PlanFeatures) : PlanFeatures :=
  visit_each (λ j f, vrel (bjoin_relation j) f) (ja_joins acc) (vrel (ja_relation acc) f).

Lemma vacc_kind k acc f :
  vacc (apply_join_kind k acc) f = vacc acc f ∧ nacc (apply_join_kind k acc) f = nacc acc f
  ∧ length (ja_joins (apply_join_kind k acc)) = length (ja_joins acc).
Proof.
  unfold vacc, nacc. destruct k; simpl; try done; rewrite vrel_nullable;
    (split_and!; [apply visit_nullable_joins..|apply length_map]).
Qed.

Lemma vacc_step acc j r on f :
  vacc (join_step acc j r on) f = visit_opt vexpr on (vrel r (vacc acc f))
  ∧ nacc (join_step acc j r on) f = vrel r (nacc acc f)
  ∧ length (ja_joins (join_step acc j r on)) = S (length (ja_joins acc)).
Proof.
  destruct (vacc_kind (join_kind j) acc f) as (<- & <- & <-).
  assert (Hr : ∀ f, vrel (joined_relation (join_kind j) r) f = vrel r f).
  { intros f'. destruct (join_kind j); simpl; try done; apply vrel_nullable. }
  unfold vacc, nacc, join_step. simpl. rewrite !visit_each_app, length_app. simpl. rewrite !Hr.
  split_and!; try done. lia.
Qed.

Lemma elab_joins_length ctes acc0 js acc :
  elab_joins catalog Γ ctes acc0 js acc → length (ja_joins acc) = length (ja_joins acc0) + length js.
Proof.
  revert acc. induction js as [|j js IH] using rev_ind; intros acc He.
  - apply elab_joins_nil_inv in He as ->. simpl. lia.
  - apply elab_joins_snoc_inv in He as (acc' & r & on & -> & He & _).
    destruct (vacc_step acc' j r on PlanFeatures_default) as (_ & _ & ->).
    rewrite (IH _ He), length_app. simpl. lia.
Qed.

Lemma agrees_joins ctes acc0 js acc s f s' f' :
  Forall (λ j, agrees_relation (join_relation j) ∧ opt_all agrees_expr (join_on j)) js →
  elab_joins catalog Γ ctes acc0 js acc →
  agree s (vacc acc0 f) → agree s' (nacc acc0 f') →
  agree (visit_each (λ j s, visit_opt visit_syntax_expr (join_on j) (visit_syntax_relation (join_relation j) s)) js s)
        (vacc acc f)
  ∧ agree (visit_each (λ j s, visit_syntax_relation (join_relation j) s) js s') (nacc acc f').
Proof.
  intros Hj He Hs Hs'. revert acc Hj He. induction js as [|j js IH] using rev_ind; intros acc Hj He.
  - apply elab_joins_nil_inv in He as ->. done.
  - apply elab_joins_snoc_inv in He as (acc' & r & on & -> & He & Hr & Hon).
    apply Forall_app in Hj as [Hj Hlast]. apply Forall_cons in Hlast as [[Hlr Hlo] _].
    destruct (IH acc' Hj He) as (H1 & H2).
    rewrite (proj1 (vacc_step acc' j r on f)), (proj1 (proj2 (vacc_step acc' j r on f'))),
      !visit_each_app. simpl. split; [|eauto].
    eapply agrees_opt; [done|exact Hon|]. eauto.
Qed.

Lemma agrees_ctes cs bcs s f :
  Forall (λ c, agrees_query (cte_query c)) cs → Forall2 (elab_cte catalog Γ) cs bcs → agree s f →
  agree (visit_each (λ c s, merge_plan_features s (plan_features_from_syntax (cte_query c))) cs s)
        (visit_each (λ c f, merge_plan_features f (plan_features_from_bound catalog (bcte_query c))) bcs f).
Proof.
  intros Hcs H2 Ha. apply agree_each; [|done]. clear Ha. revert Hcs.
  induction H2 as [|c bc cs bcs Hc _ IH]; intros Hcs; [constructor|]. inversion Hcs; subst.
  constructor; [|auto]. inversion Hc; subst. simpl. eauto with features.
Qed.

Lemma agrees_function sc x node f b s g :
  call_all agrees_expr f → elab_expr catalog Γ sc x (MkSyntaxExpr (SFunction f) node) b → agree s g →
  agree (visit_syntax_expr (MkSyntaxExpr (SFunction f) node) s) (vexpr b g).
Proof.
  intros (Hargs & _ & _) He Ha. inversion He as [| | | | |? ? ? sg args filter over ? Hsg H2 Hf Ho| | | | | | | | | | |];
    subst; simpl. unfold visit_syntax_function, visit_bound_function. simpl.
  eapply (agrees_args sc sg 0); [done|exact H2|].
  assert (Hover : is_some over = is_some (fc_over f)) by (by destruct Ho). rewrite Hover.
  assert (Hm : ∀ s g, agree s g →
    agree (mark_if (is_aggregate_name (fn_name (fc_function f))) MAggregates s) g).
  { intros s' g' H. destruct (is_aggregate_name _); simpl; auto with features. }
  apply Hm. apply agree_mark_if; [discriminate|]. apply agree_mark_if; [discriminate|].
  assert (Hg : agree (mark (MFunction (fc_function f)) s) (mark (MFunction (fc_function f)) g)) by auto with features.
  destruct (resolve_function catalog _ _) as [sig|]; [|done].
  destruct (metadata_flag sig _), (sig_kind sig); simpl; auto with features.
Qed.

Lemma query_features_agree n1 n2 rec cl l :
  n1 = n2 → rec = false → agree (query_features n1 rec cl l) (query_features n2 false cl l).
Proof. intros -> ->. by split. Qed.

Lemma features_agree :
  (∀ q, agrees_query q) ∧ (∀ s, agrees_set_expr s) ∧ (∀ t, agrees_table t)
  ∧ (∀ r, agrees_relation r) ∧ (∀ e, agrees_expr e).
Proof.
  apply Syntax_induction.
  - intros node cs rec body ob lim off bc Hcs Hb _ Hlim Hoff p He.
    inversion He as [? ? ? ? ? ? ? bcs bbody bob blim boff sc Hc2 Hb2 _ _ Hl2 Ho2]; subst. simpl.
    eapply agrees_ctes; [done..|]. eapply Hb; [done|].
    replace (is_some blim || is_some boff) with (is_some lim || is_some off) by (by destruct Hl2, Ho2).
    apply query_features_agree; [by destruct Hc2|done].
  - intros s (Hp & Ht & Hs & Hg & Hh) ctes b He s' f Ha. inversion He as [? ? sel Hsel|]; subst.
    inversion Hsel as [? ? from sc selection grp hav proj fs Hf _ Hs2 Hg2 Hh2 Hi2]; subst. simpl.
    unfold visit_syntax_select, visit_bound_select. simpl.
    eapply agrees_opt; [done..|]. eapply agrees_list; [done..|]. eapply agrees_opt; [done..|].
    eapply agrees_from; [done..|]. eapply agrees_items; done.
  - intros l r node Hl Hr ctes b He s f Ha. inversion He; subst. simpl. eauto with features.
  - intros d node ctes b He. inversion He.
  - intros r js node Hr Hjs ctes sc b He s f Ha.
    inversion He as [? ? ? ? ? br acc Hbr Hbj]; subst. cbn [visit_syntax_from visit_bound_from nested_syntax nested_bound].
    assert (Hlen : length (ja_joins acc) = length js).
    { by rewrite (elab_joins_length _ _ _ _ Hbj). }
    assert (Hemp : is_empty (ja_joins acc) = is_empty js) by (by destruct js, (ja_joins acc)).
    rewrite Hemp. eapply (agrees_joins _ _ _ _ _ (mark_if (negb (is_empty js)) MJoins f) _ f Hjs Hbj).
    + simpl. eapply Hr; [done|]. auto with features.
    + simpl. by eapply Hr.
  - intros n a node ctes sc b He s f Ha. by inversion He.
  - intros q a node Hq ctes sc b He s f Ha. inversion He; subst. simpl. eauto with features.
  - intros t a node Ht ctes sc b He s f Ha. inversion He as [| |? ? ? ? ? bt Hbt]; subst.
    destruct (Ht _ _ _ Hbt (mark MDerived s) (mark MDerived f) ltac:(auto with features)) as [_ Hn].
    destruct t, bt. exact Hn.
  - intros d node ctes sc b He. by inversion He.
  - intros k node Hk sc x b He s f Ha.
    destruct k; simpl in Hk; destruct_and?; try solve [inversion He; subst; simpl; eauto with features].
    + by eapply agrees_function.
    + inversion He; subst. simpl. eapply agrees_opt; [done..|]. eapply agrees_cases; [done..|]. by eapply agrees_opt.
    + inversion He; subst. simpl. eapply agrees_list; [done..|]. eauto.
    + inversion He; subst. simpl. by eapply agrees_list.
    + inversion He; subst. simpl. by eapply agrees_list.
Qed.
End Agreement.
