(* ===== verification/ParameterFacts.v ===== *)
(** Parameters: what [finalize_parameters] accepts and returns, and what the
    binder's constraints promise about the values. *)
From S2P Require Import Prelude BTreeMap Types Diagnostics Syntax Bound Catalog Features Suggest.
From S2P Require Import Scope Bind BindLogic.
From Stdlib Require Import Sorted.

(** ** The specification *)

Section Finalize.
Variable parameters : QueryParameters.

(** The schema of a parameter whose constraint is resolved. *)
Definition final_schema (r : ParameterRef) (c : ParameterConstraint) : option ParameterSchema :=
  match pc_data_type c, pc_nullable c with
  | Some t, NcNullable | Some t, NcNonNull =>
      if is_unknown t then None
      else Some {| ps_reference := r; ps_data_type := t;
                   ps_nullable := bool_decide (pc_nullable c = NcNullable);
                   ps_metadata := FieldMetadata_default |}
  | _, _ => None
  end.

(** The binding, when moreover a supplied value fits. *)
Definition final_binding (rc : ParameterRef * ParameterConstraint) : option ParameterBinding :=
  match final_schema rc.1 rc.2 with
  | None => None
  | Some schema =>
      let value := lookup_parameter parameters rc.1 in
      if match value with Some v => parameter_value_matches_schema v schema | None => true end
      then Some {| pb_schema := schema; pb_value := value |} else None
  end.

(** ** One parameter *)

(** Append diagnostics. *)
Definition report (ds : list QueryDiagnostic) (s : Binder) : Binder :=
  {| diagnostics := diagnostics s ++ ds; parameter_constraints := parameter_constraints s;
     next_auto_position := next_auto_position s |}.

Lemma attach_error c m n r : is_error (attach (diagnostic_error c m) n r) = true.
Proof. unfold attach, diagnostic_error. by destruct (span n), r. Qed.

Lemma attach_code c m n r : code (attach (diagnostic_error c m) n r) = c.
Proof. unfold attach, diagnostic_error. by destruct (span n), r. Qed.
#[local] Opaque attach.

Lemma finalize_one_spec rc s :
  match final_binding rc with
  | Some b => finalize_one parameters rc.1 rc.2 s = (Some b, s)
  | None => ∃ ds, has_error ds = true ∧ finalize_one parameters rc.1 rc.2 s = (None, report ds s)
  end.
Proof.
  destruct rc as [r c]. unfold final_binding, final_schema, finalize_one, sbind, push_error, push_diagnostic,
    smodify, sret. simpl.
  destruct (pc_data_type c) as [t|]; [destruct (is_unknown t)|]; destruct (pc_nullable c); simpl;
    unfold finalize_value, push_error, push_diagnostic, smodify, sret, sbind;
    try (unfold report; rewrite <- ?app_assoc; simpl;
         eexists; split; [|reflexivity]; simpl; by rewrite attach_error).
  all: destruct (lookup_parameter parameters r) as [v|]; simpl; [|done].
  all: destruct (parameter_value_matches_schema v _) eqn:Em; simpl;
    [|eexists; split; [|reflexivity]; simpl; by rewrite attach_error].
  all: destruct v; simpl in *; try done.
Qed.

(** ** All parameters *)

Definition final_bindings (m : BTreeMap ParameterRef ParameterConstraint) : option (list ParameterBinding) :=
  mapM final_binding m.

Lemma finalize_loop m s :
  match final_bindings m with
  | Some bs => straverse (λ rc, finalize_one parameters rc.1 rc.2) m s = (Some <$> bs, s)
  | None => ∃ bs ds, has_error ds = true
      ∧ straverse (λ rc, finalize_one parameters rc.1 rc.2) m s = (bs, report ds s)
  end.
Proof.
  unfold final_bindings. revert s. induction m as [|rc m IH]; intros s; [done|].
  simpl. unfold sbind, sret. pose proof (finalize_one_spec rc s) as H1.
  destruct (final_binding rc) as [b|]; simpl.
  - rewrite H1. specialize (IH s). destruct (mapM final_binding m) as [bs|]; simpl; [by rewrite IH|].
    destruct IH as (bs & ds & Hds & ->). eauto.
  - destruct H1 as (ds & Hds & ->). specialize (IH (report ds s)).
    destruct (mapM final_binding m) as [bs|].
    + rewrite IH. eauto.
    + destruct IH as (bs & ds' & Hds' & ->). eexists _, (ds ++ ds'). split; [by rewrite has_error_app, Hds|].
      unfold report. simpl. by rewrite app_assoc.
Qed.

Lemma omap_id_Some {A} (l : list A) : omap id (Some <$> l) = l.
Proof. induction l as [|x l IH]; simpl; [done|]. unfold id at 1. by rewrite <- IH at 2. Qed.

(** The references come out in the order of the map. *)
Lemma final_bindings_refs m bs :
  final_bindings m = Some bs → List.map (λ b, ps_reference (pb_schema b)) bs = bt_keys m.
Proof.
  unfold final_bindings, bt_keys. intros H%mapM_Some. induction H as [|[r c] b m bs Hb _ IH]; [done|].
  assert (Hr : ps_reference (pb_schema b) = r).
  { unfold final_binding, final_schema in Hb. simpl in *.
    destruct (pc_data_type c) as [t|]; [|done]. destruct (pc_nullable c); try done;
      (destruct (is_unknown t); [done|]); destruct (match lookup_parameter _ _ with Some _ => _ | None => _ end);
      by simplify_eq. }
  exact (f_equal2 cons Hr IH).
Qed.

Lemma sort_bindings_id bs :
  StronglySorted klt (List.map (λ b, ps_reference (pb_schema b)) bs) → sort_bindings bs = bs.
Proof.
  induction bs as [|b bs IH]; [done|]. cbn [List.map]. intros Hs. inversion Hs as [|?? Hs' Hf]; subst.
  simpl. rewrite (IH Hs'). destruct bs as [|b' bs]; [done|]. simpl.
  inversion Hf as [|?? Hlt _]; subst. unfold binding_le. unfold klt in Hlt. by rewrite Hlt.
Qed.

(** [finalize_parameters] on a binder without errors. *)
Lemma finalize_spec (b : Binder) :
  bt_wf (parameter_constraints b) → has_error (diagnostics b) = false →
  match final_bindings (parameter_constraints b) with
  | Some bs => finalize_parameters parameters b = (Ok bs, b)
  | None => ∃ ds m, has_error ds = true
      ∧ (finalize_parameters parameters b).1
        = Err (bind_error m None (diagnostics b ++ ds) None)
      ∧ m = first_error_message "parameter binding failed" (diagnostics b ++ ds)
  end.
Proof.
  intros Hwf He. unfold finalize_parameters, sbind, sget, sret. simpl.
  pose proof (finalize_loop (parameter_constraints b) b) as H.
  destruct (final_bindings (parameter_constraints b)) as [bs|] eqn:Eb.
  - rewrite H, He, omap_id_Some, sort_bindings_id; [done|].
    rewrite (final_bindings_refs _ _ Eb). exact Hwf.
  - destruct H as (bs & ds & Hds & ->). simpl. rewrite has_error_app, Hds, orb_true_r.
    by exists ds, (first_error_message "parameter binding failed" (diagnostics b ++ ds)).
Qed.

(** A binding of the result, seen from its constraint. *)
Lemma final_bindings_get m bs r c :
  final_bindings m = Some bs → bt_get r m = Some c →
  ∃ t, pc_data_type c = Some t ∧ t ≠ TUnknown ∧ pc_nullable c ≠ NcUnknown
  ∧ ∃ b, b ∈ bs ∧ ps_reference (pb_schema b) = r ∧ ps_data_type (pb_schema b) = t
    ∧ ps_nullable (pb_schema b) = bool_decide (pc_nullable c = NcNullable).
Proof.
  intros H Hg%bt_get_Some_elem. apply mapM_Some in H.
  apply list_elem_of_lookup in Hg as [i Hi].
  destruct (Forall2_lookup_l _ _ _ _ _ H Hi) as (b & Hb & Hfb).
  unfold final_binding, final_schema in Hfb. simpl in Hfb.
  destruct (pc_data_type c) as [t|]; [|done]. exists t. split; [done|].
  assert (Ht : is_unknown t = false → t ≠ TUnknown) by (by intros ? ->).
  apply list_elem_of_lookup_2 in Hb.
  destruct (pc_nullable c); try done; destruct (is_unknown t); try done;
    destruct (match lookup_parameter _ _ with Some _ => _ | None => _ end); try done;
    simplify_eq; (split_and!; [by apply Ht|done|]); eexists; split_and!; (done || simpl; done).
Qed.

(** What every returned binding satisfies. *)
Lemma final_bindings_sound m bs b :
  final_bindings m = Some bs → b ∈ bs →
  pb_value b = lookup_parameter parameters (ps_reference (pb_schema b))
  ∧ ps_data_type (pb_schema b) ≠ TUnknown
  ∧ ps_reference (pb_schema b) ∈ bt_keys m
  ∧ ∀ v, pb_value b = Some v → parameter_value_matches_schema v (pb_schema b) = true.
Proof.
  intros H Hb. assert (Hr : ps_reference (pb_schema b) ∈ bt_keys m).
  { rewrite <- (final_bindings_refs _ _ H). apply list_elem_of_In, in_map_iff.
    exists b. split; [done|]. by apply list_elem_of_In. }
  apply mapM_Some in H. apply list_elem_of_lookup in Hb as [i Hi].
  destruct (Forall2_lookup_r _ _ _ _ _ H Hi) as ([r c] & _ & Hfb).
  unfold final_binding, final_schema in Hfb. simpl in Hfb.
  destruct (pc_data_type c) as [t|]; [|done].
  destruct (pc_nullable c); try done; (destruct (is_unknown t) eqn:Et; [done|]);
    destruct (lookup_parameter parameters r) as [v|] eqn:El; simpl in *;
    try (destruct (parameter_value_matches_schema v _) eqn:Em; [|done]);
    simplify_eq; simpl; (split_and!; [done|by intros ->|done|]); intros v' [= <-]; exact Em.
Qed.
End Finalize.

(** ** Anonymous positions *)

Lemma foldl_max_le (l : list N) a x : (x ∈ l ∨ x ≤ a → x ≤ foldl N.max a l)%N.
Proof.
  revert a. induction l as [|y l IH]; intros a; simpl; [set_solver by lia|].
  intros [[->|Hx]%elem_of_cons|Hx]; apply IH; [right|left|right]; (done || lia).
Qed.

Lemma max_key_above {V} (m : BTreeMap N V) p :
  p ∈ bt_keys m → (p ≤ default 0 (reduce N.max (bt_keys m)))%N.
Proof.
  destruct (bt_keys m) as [|k l]; simpl; [set_solver|].
  intros [->|Hp]%elem_of_cons; apply foldl_max_le; [right|left]; (done || lia).
Qed.

(** The first anonymous position is above every supplied one, up to the end
    of [u32]. *)
Lemma seed_above parameters p :
  is_Some (bt_get p (positional parameters)) → (p < u32_max)%N →
  (p < next_auto_position_seed parameters)%N.
Proof.
  intros Hp Hlt. apply bt_get_is_Some, max_key_above in Hp.
  unfold next_auto_position_seed, u32_saturating_add. lia.
Qed.

(** ** Properties *)
#[local] Opaque attach.

(** A null supplied for a parameter that must not be null is reported as
    a value of an incompatible type ([QF0020]); the message written for it
    ([QF0021]) is never reported. *)
Theorem null_is_reported_as_incompatible parameters reference node schema (s : Binder) :
  (lookup_parameter parameters reference = Some VNull → ps_nullable schema = false →
     ∃ d, diagnostics (finalize_value parameters reference node schema s).2 = diagnostics s ++ [d]
          ∧ code d = "QF0020")
  ∧ (∀ d, d ∈ diagnostics (finalize_value parameters reference node schema s).2 →
       code d = "QF0021" → d ∈ diagnostics s).
Proof.
  unfold finalize_value. split.
  - intros -> Hn. unfold parameter_value_matches_schema. simpl. rewrite Hn. simpl.
    eexists. split; [reflexivity|]. apply attach_code.
  - intros d. destruct (lookup_parameter parameters reference) as [v|]; [|done].
    destruct (parameter_value_matches_schema v schema) eqn:Em; simpl.
    + destruct v; try done. unfold parameter_value_matches_schema in Em. simpl in *. by rewrite Em.
    + rewrite elem_of_app, list_elem_of_singleton. intros [?| ->]; [done|]. by rewrite attach_code.
Qed.

(** Anonymous parameters get consecutive positions, none of which has a
    supplied value: the first one is above every supplied position. *)
Theorem anonymous_parameters_are_never_supplied parameters (s : Binder) :
  (next_auto_position_seed parameters ≤ next_auto_position s < u32_max)%N →
  let '(r, s') := allocate_parameter (Positional 0) s in
  r = Positional (next_auto_position s)
  ∧ next_auto_position s' = (next_auto_position s + 1)%N
  ∧ lookup_parameter parameters r = None.
Proof.
  intros [Hlo Hhi]. simpl. split_and!; [done| |].
  - unfold u32_wrapping_add, u32_max, u32_modulus in *. apply N.mod_small. lia.
  - apply eq_None_not_Some. intros Hs%seed_above; lia.
Qed.

Example anonymous_parameters_are_never_supplied_witness :
  let parameters := insert_positional QueryParameters_default 1 (VInt64 7) in
  (next_auto_position_seed parameters = 2)%N
  ∧ (let '(r, s') := allocate_parameter (Positional 0) (Binder_new parameters) in
     r = Positional 2 ∧ (next_auto_position s' = 2 + 1)%N ∧ lookup_parameter parameters r = None).
Proof.
  split; [reflexivity|].
  apply (anonymous_parameters_are_never_supplied
           (insert_positional QueryParameters_default 1 (VInt64 7))
           (Binder_new (insert_positional QueryParameters_default 1 (VInt64 7)))).
  split; vm_compute; [discriminate|reflexivity].
Defined.
