(* ===== verification/ValidateFacts.v ===== *)
(** What [bind_and_validate] promises: the properties of accepted queries and
    of errors. *)
From S2P Require Import Prelude BTreeMap Types Diagnostics Syntax Bound Catalog Features Suggest.
From S2P Require Import Scope Bind Validate BindLogic Elab BindSound PlanFacts FeatureFacts ParameterFacts.
From Stdlib Require Import Sorted.

(** ** The run behind a result *)

Section Runs.
Context `{Blake3} `{Unicode}.
Variable catalog : Catalog.

(** A run of the binder that was accepted, with everything the result is made
    of. *)
Record accepted_run (parsed : ParsedQuery) (parameters : QueryParameters) (b : BoundQuery)
    (s : Binder) : Prop := {
  run_plan : bind_query catalog (pq_syntax parsed) None (Binder_new parameters) = (bound_plan b, s);
  run_clean : has_error (pq_lowering_diagnostics parsed ++ diagnostics s) = false;
  run_bindings : final_bindings parameters (parameter_constraints s) = Some (bound_parameters b);
  run_result : b = bound_result catalog parsed (bound_plan b) (bound_parameters b)
                     (pq_lowering_diagnostics parsed ++ diagnostics s);
  run_wf : bt_wf (parameter_constraints s);
  run_elaborated : elab_query catalog (parameter_constraints s) (pq_syntax parsed) (bound_plan b)
}.

Lemma accepted parsed parameters b :
  bind_and_validate catalog parsed parameters = Ok b → ∃ s, accepted_run parsed parameters b s.
Proof.
  unfold bind_and_validate.
  destruct (bind_query catalog (pq_syntax parsed) None (Binder_new parameters)) as [plan s] eqn:E.
  destruct (has_error (pq_lowering_diagnostics parsed ++ diagnostics s)) eqn:Herr; [done|].
  assert (Hs : has_error (diagnostics s) = false).
  { rewrite has_error_app, orb_false_iff in Herr. tauto. }
  assert (Hwf : bt_wf (parameter_constraints s)).
  { pose proof (grows_bind_query catalog (pq_syntax parsed) None (Binder_new parameters)) as [_ _ Hw].
    rewrite E in Hw. apply Hw. constructor. }
  pose proof (finalize_spec parameters s Hwf Hs) as Hfin.
  destruct (final_bindings parameters (parameter_constraints s)) as [bs|] eqn:Ebs.
  - rewrite Hfin. intros [= <-]. exists s. split; try done. by eapply bind_query_elaborates.
  - destruct Hfin as (ds & m & _ & -> & _). done.
Qed.

(** The errors: of the binding, or of the parameters. *)
Lemma rejected parsed parameters e :
  bind_and_validate catalog parsed parameters = Err e →
  let '(plan, s) := bind_query catalog (pq_syntax parsed) None (Binder_new parameters) in
  let ds := pq_lowering_diagnostics parsed ++ diagnostics s in
  (has_error ds = true
   ∧ e = bind_error (first_error_message "binding failed" ds) (Some parsed) ds
           (Some (bind_provenance catalog parsed)))
  ∨ (has_error ds = false ∧ ∃ new, has_error new = true
     ∧ e = bind_error (first_error_message "parameter binding failed" (diagnostics s ++ new)) None
             (diagnostics s ++ new) None).
Proof.
  unfold bind_and_validate.
  destruct (bind_query catalog (pq_syntax parsed) None (Binder_new parameters)) as [plan s] eqn:E.
  destruct (has_error (pq_lowering_diagnostics parsed ++ diagnostics s)) eqn:Herr.
  { intros [= <-]. by left. }
  intros He. right. split; [done|].
  assert (Hs : has_error (diagnostics s) = false).
  { rewrite has_error_app, orb_false_iff in Herr. tauto. }
  assert (Hwf : bt_wf (parameter_constraints s)).
  { pose proof (grows_bind_query catalog (pq_syntax parsed) None (Binder_new parameters)) as [_ _ Hw].
    rewrite E in Hw. apply Hw. constructor. }
  pose proof (finalize_spec parameters s Hwf Hs) as Hfin.
  destruct (final_bindings parameters (parameter_constraints s)) as [bs|].
  - by rewrite Hfin in He.
  - destruct Hfin as (ds & m & Hds & Hf & ->). rewrite Hf in He. injection He as <-. by exists ds.
Qed.
End Runs.


(** ** Capability requirements *)

(** When a plan with these features demands a capability. *)
Definition demanded (catalog : Catalog) (features : PlanFeatures) (explain : bool)
    (r : CapabilityRequirement) : Prop :=
  match r with
  | CommonTableExpressions => has_ctes features = true
  | DerivedTables => has_derived_tables features = true
  | Joins => has_joins features = true
  | Windows => has_windows features = true
  | SetOperations => has_set_operations features = true
  | Aggregates => has_aggregates features = true
  | DistinctAggregates => has_distinct_aggregates features = true
  | ScalarSubqueries => has_scalar_subqueries features = true
  | InSubqueries => has_in_subqueries features = true
  | LimitOffset => has_limit_offset features = true
  | Explain => explain = true
  | NamespacedFunctions => ∃ f, f ∈ feature_functions features ∧ is_Some (fn_namespace f)
  | ApproximateAggregates =>
      ∃ f sg, f ∈ feature_functions features
      ∧ resolve_function catalog (fn_namespace f) (fn_name f) = Some sg
      ∧ metadata_flag sg "approximate" = true
  | BackendSpecific _ => False
  end.

(** What one function adds. *)
Definition function_demands (catalog : Catalog) (f : FunctionRef) (r : CapabilityRequirement) : Prop :=
  (r = NamespacedFunctions ∧ is_Some (fn_namespace f))
  ∨ (r = ApproximateAggregates
     ∧ ∃ sg, resolve_function catalog (fn_namespace f) (fn_name f) = Some sg
             ∧ metadata_flag sg "approximate" = true).

Lemma elem_of_require_if b k c r :
  r ∈ required (require_if b k c) ↔ (b = true ∧ r = k) ∨ r ∈ required c.
Proof. destruct b; simpl; set_solver. Qed.

Lemma function_requirements_elem catalog c f r :
  r ∈ required (function_requirements catalog c f) ↔ function_demands catalog f r ∨ r ∈ required c.
Proof.
  unfold function_requirements, function_demands. simpl. rewrite !elem_of_require_if.
  assert (Hn : is_some (fn_namespace f) = true ↔ is_Some (fn_namespace f)).
  { by destruct (fn_namespace f); simpl; split; [eexists| |done|intros []]. }
  rewrite Hn. destruct (resolve_function catalog _ _) as [sg|]; naive_solver.
Qed.

Lemma fold_requirements_elem catalog l c r :
  r ∈ required (foldl (function_requirements catalog) c l)
  ↔ (∃ f, f ∈ l ∧ function_demands catalog f r) ∨ r ∈ required c.
Proof.
  revert c. induction l as [|f l IH]; intros c; simpl.
  { split; [by right|]. intros [(f & Hf & _)|]; [by apply not_elem_of_nil in Hf|done]. }
  rewrite IH, function_requirements_elem. setoid_rewrite elem_of_cons. naive_solver.
Qed.

Lemma fold_requirements_functions catalog l c f :
  f ∈ referenced_functions (foldl (function_requirements catalog) c l) ↔ f ∈ l ∨ f ∈ referenced_functions c.
Proof.
  revert c. induction l as [|g l IH]; intros c; simpl; [set_solver|].
  rewrite IH. unfold function_requirements. simpl.
  assert (H : ∀ b k c, referenced_functions (require_if b k c) = referenced_functions c) by by intros [].
  rewrite !H. set_solver.
Qed.

Lemma requirements_elem catalog features explain r :
  r ∈ required (requirements_of_features catalog features explain) ↔ demanded catalog features explain r.
Proof.
  unfold requirements_of_features. rewrite fold_requirements_elem, !elem_of_require_if.
  setoid_rewrite elem_of_elements. unfold function_demands.
  assert (He : r ∈ required CapabilityRequirements_default ↔ False) by set_solver. rewrite He.
  destruct r; simpl; naive_solver.
Qed.

(** ** Properties *)

Section Properties.
Context `{Blake3} `{Unicode}.
Variable catalog : Catalog.

(** C1: refinement.  What [bind_and_validate] accepts, it elaborates by the
    rules of the judgements, in the constraints of the parameters it returns;
    the result schema is the one of the plan, and the parsed query is kept. *)
Theorem accepted_plan_is_an_elaboration parsed parameters b :
  bind_and_validate catalog parsed parameters = Ok b →
  ∃ Γ, bt_wf Γ
  ∧ elab_query catalog Γ (pq_syntax parsed) (bound_plan b)
  ∧ List.map (λ p, ps_reference (pb_schema p)) (bound_parameters b) = bt_keys Γ
  ∧ bound_result_schema b = bq_result_schema (bound_plan b)
  ∧ bound_parsed b = parsed.
Proof.
  intros (s & [_ _ Hb Hr Hw He])%accepted. exists (parameter_constraints s). split_and!; [done|done| | |].
  - by apply (final_bindings_refs parameters).
  - by rewrite Hr.
  - by rewrite Hr.
Qed.

(** C3: an accepted plan has no unsupported node anywhere, and every
    parameter in it, in any clause and any subquery, has a binding with a
    known type, which is not nullable where the use must not be null. *)
Theorem accepted_plan_is_supported_and_closed parsed parameters b :
  bind_and_validate catalog parsed parameters = Ok b →
  all_query (λ e, ∀ r, be_kind e = BParameter r →
    ∃ p, p ∈ bound_parameters b ∧ ps_reference (pb_schema p) = r
    ∧ ps_data_type (pb_schema p) ≠ TUnknown
    ∧ (be_nullable e = false → ps_nullable (pb_schema p) = false))
    (bound_plan b).
Proof.
  intros (s & [_ _ Hb _ _ He])%accepted. revert He. apply nodes_satisfy.
  intros sc x e be He r Hk. inversion He; subst; simpl in Hk; try done. injection Hk as ->.
  match goal with H : covers _ _ _ |- _ => destruct H as (c & Hc & Hnn & _) end.
  destruct (final_bindings_get parameters _ _ _ _ Hb Hc) as (t & _ & Ht & _ & p & Hp & Hr & Hty & Hnull).
  exists p. split_and!; [done|done|by rewrite Hty|]. simpl. rewrite Hnull.
  intros Hn%negb_false_iff%bool_decide_eq_true. by rewrite (Hnn Hn).
Qed.

(** C4: safety.  Every table an accepted plan reads, in any clause and any
    subquery, is a relation the catalog knows or a CTE of the query it stands
    in: nothing else is named. *)
Theorem only_known_tables_are_read parsed parameters b :
  bind_and_validate catalog parsed parameters = Ok b →
  tables_query (known_table catalog) (bound_plan b).
Proof. intros (s & [_ _ _ _ _ He])%accepted. revert He. apply tables_known. Qed.

(** C5: the bindings of an accepted query are ordered by reference without
    repetition, carry the supplied values, and every value fits the type and
    the nullability found for its parameter. *)
Theorem bound_parameters_fit parsed parameters b :
  bind_and_validate catalog parsed parameters = Ok b →
  StronglySorted klt (List.map (λ p, ps_reference (pb_schema p)) (bound_parameters b))
  ∧ ∀ p, p ∈ bound_parameters b →
      pb_value p = lookup_parameter parameters (ps_reference (pb_schema p))
      ∧ ps_data_type (pb_schema p) ≠ TUnknown
      ∧ ∀ v, pb_value p = Some v → parameter_value_matches_schema v (pb_schema p) = true.
Proof.
  intros (s & [_ _ Hb _ Hw _])%accepted. split.
  - rewrite (final_bindings_refs parameters _ _ Hb). exact Hw.
  - intros p Hp. destruct (final_bindings_sound parameters _ _ _ Hb Hp) as (? & ? & _ & ?). done.
Qed.

(** C6: errors and success exclude each other: an accepted query carries no
    error among its diagnostics, which start with those of the lowering; a
    rejection is always a bind error that carries at least one error, and its
    message is the one of the first. *)
Theorem errors_are_reported parsed parameters :
  match bind_and_validate catalog parsed parameters with
  | Ok b => has_error (bound_diagnostics b) = false
            ∧ ∃ new, bound_diagnostics b = pq_lowering_diagnostics parsed ++ new
  | Err e => ∃ d first, as_bind e = Some d
             ∧ List.find is_error (be_diagnostics d) = Some first ∧ be_message d = message first
  end.
Proof.
  destruct (bind_and_validate catalog parsed parameters) as [b|e] eqn:E.
  - apply accepted in E as (s & [_ Hc _ Hr _ _]). rewrite Hr. simpl. eauto.
  - apply rejected in E. destruct (bind_query _ _ _ _) as [plan s].
    assert (Hf : ∀ ds text, has_error ds = true → ∃ first, List.find is_error ds = Some first
                 ∧ first_error_message text ds = message first).
    { intros ds text (d & Hd & _)%has_error_find. exists d. unfold first_error_message. by rewrite Hd. }
    destruct E as [[Hd ->]|(Hd & new & Hn & ->)]; simpl.
    + destruct (Hf _ "binding failed" Hd) as (d & ? & ?). by eexists _, d.
    + assert (Hn' : has_error (diagnostics s ++ new) = true) by (by rewrite has_error_app, Hn, orb_true_r).
      destruct (Hf _ "parameter binding failed" Hn') as (d & ? & ?). by eexists _, d.
Qed.

(** The plan of an accepted query has the features of the query: CTEs,
    derived tables, joins, set operations, distinct calls, subqueries, clauses
    and functions are neither lost nor invented by the binding, windows are
    not lost, and the query has no recursive CTE and no other set operation. *)
Theorem accepted_plan_features parsed parameters b :
  bind_and_validate catalog parsed parameters = Ok b →
  agree (plan_features_from_syntax (pq_syntax parsed)) (plan_features_from_bound catalog (bound_plan b)).
Proof. intros (s & [_ _ _ _ _ He])%accepted. by eapply features_agree. Qed.

(** The capability requirements are exactly those the features demand,
    and the functions recorded are exactly the functions found in the plan. *)
Theorem capability_requirements_exact plan explain :
  let c := capability_requirements_from_plan catalog plan explain in
  (∀ r, r ∈ required c ↔ demanded catalog (plan_features_from_bound catalog plan) explain r)
  ∧ referenced_functions c = feature_functions (plan_features_from_bound catalog plan).
Proof.
  split.
  - intros r. apply requirements_elem.
  - unfold capability_requirements_from_plan, requirements_of_features. apply set_eq. intros f.
    rewrite fold_requirements_functions, elem_of_elements.
    assert (H' : ∀ b k c, referenced_functions (require_if b k c) = referenced_functions c) by by intros [].
    rewrite !H'. set_solver.
Qed.
End Properties.
