(* ===== verification/JoinFacts.v ===== *)
(** Joins: the nullability the binder gives to the relations of a table, and
    the scope it resolves the conditions in. *)
From S2P Require Import Prelude BTreeMap Types Diagnostics Syntax Bound Catalog Features Suggest.
From S2P Require Import Scope Bind.
Local Open Scope state_scope.

(** ** Runs of the join loop *)

Abbreviation JoinParts := (SyntaxJoin * (BoundRelation * option BoundExpr))%type.

Definition run_joins (acc : JoinAcc) (steps : list JoinParts) : JoinAcc :=
  foldl (λ a p, join_step a p.1 p.2.1 p.2.2) acc steps.

Lemma bind_joins_run br be os js acc (s : Binder) :
  ∃ steps, List.map fst steps = js
  ∧ (sfold (bind_join br be os) js acc s).1 = run_joins acc steps.
Proof.
  revert acc s. induction js as [|j js IH]; intros acc s; [by exists []|].
  cbn [sfold]. unfold sbind at 1. unfold bind_join at 1. unfold sbind, sret.
  destruct (br (join_relation j) (ja_scope acc) s) as [r s1].
  destruct (soption _ (join_on j) s1) as [on s2].
  destruct (IH (join_step acc j r on) s2) as (steps & Hs & Hr).
  exists ((j, (r, on)) :: steps). simpl. by rewrite Hs.
Qed.

(** The join loop, and what [bind_table_with_joins] makes of it. *)
Definition start_joins (sc : Scope) (br : BoundRelation) : JoinAcc :=
  {| ja_relation := br; ja_joins := []; ja_scope := push_relation sc br |}.

Definition join_loop `{Unicode} (catalog : Catalog) (js : list SyntaxJoin) (ctes : CteBindings)
    (os : option Scope) (sc : Scope) (br : BoundRelation) : M JoinAcc :=
  sfold (bind_join (λ r scope, bind_relation catalog r ctes os scope) (bind_expr catalog) os) js
    (start_joins sc br).

Lemma bind_table_loop `{Unicode} catalog r js node ctes os sc :
  bind_table_with_joins catalog (MkSyntaxTableWithJoins r js node) ctes os sc
  = (let! br := bind_relation catalog r ctes os sc in
     let! acc := join_loop catalog js ctes os sc br in
     sret (MkBoundTableWithJoins (ja_relation acc) (ja_joins acc) node)).
Proof. reflexivity. Qed.

(** ** Nullability *)

Definition relation_nullable (r : BoundRelation) : Prop :=
  ∀ b, relation_binding r = Some b → Forall (λ f, field_nullable f = true) (fields (binding_schema b)).

Lemma schema_nullable s : Forall (λ f, field_nullable f = true) (fields (make_schema_nullable s)).
Proof. simpl. apply Forall_fmap, Forall_true. done. Qed.

Lemma relation_nullable_made r : relation_nullable (make_relation_nullable r).
Proof. intros b. destruct r; simpl; intros [= <-]; apply schema_nullable. Qed.

Definition fills_left (k : JoinKind) : bool := match k with JRight | JFull => true | _ => false end.
Definition fills_right (k : JoinKind) : bool := match k with JLeft | JFull => true | _ => false end.

Lemma apply_kind_left k acc :
  fills_left k = true →
  relation_nullable (ja_relation (apply_join_kind k acc))
  ∧ Forall (λ j, relation_nullable (bjoin_relation j)) (ja_joins (apply_join_kind k acc)).
Proof.
  intros Hk. destruct k; try done; simpl;
    (split; [apply relation_nullable_made|apply Forall_fmap, Forall_true; intros; apply relation_nullable_made]).
Qed.

Lemma apply_kind_keeps k acc n :
  (relation_nullable (ja_relation acc) → relation_nullable (ja_relation (apply_join_kind k acc)))
  ∧ (Forall (λ j, relation_nullable (bjoin_relation j)) (take n (ja_joins acc)) →
     Forall (λ j, relation_nullable (bjoin_relation j)) (take n (ja_joins (apply_join_kind k acc))))
  ∧ (∀ j, ja_joins acc !! n = Some j → relation_nullable (bjoin_relation j) →
     ∃ j', ja_joins (apply_join_kind k acc) !! n = Some j' ∧ relation_nullable (bjoin_relation j'))
  ∧ length (ja_joins (apply_join_kind k acc)) = length (ja_joins acc).
Proof.
  assert (Hn : ∀ j, ja_joins acc !! n = Some j →
    ∃ j', make_join_relations_nullable (ja_joins acc) !! n = Some j' ∧ relation_nullable (bjoin_relation j')).
  { intros j Hj. unfold make_join_relations_nullable. eexists. split.
    - change (List.map ?f ?l) with (f <$> l). rewrite list_lookup_fmap, Hj. reflexivity.
    - apply relation_nullable_made. }
  assert (Hall : Forall (λ j, relation_nullable (bjoin_relation j)) (make_join_relations_nullable (ja_joins acc))).
  { apply Forall_fmap, Forall_true. intros. apply relation_nullable_made. }
  assert (Hlen : length (make_join_relations_nullable (ja_joins acc)) = length (ja_joins acc)) by apply length_map.
  pose proof (relation_nullable_made (ja_relation acc)).
  destruct k; simpl; split_and!; eauto using Forall_take.
Qed.

Lemma take_snoc_le {A} (l : list A) x n : n ≤ length l → take n (l ++ [x]) = take n l.
Proof. apply take_app_le. Qed.

(** The left side of a [RIGHT] or [FULL] join stays nullable. *)
Lemma run_keeps_left steps acc n :
  n ≤ length (ja_joins acc) →
  relation_nullable (ja_relation acc) →
  Forall (λ j, relation_nullable (bjoin_relation j)) (take n (ja_joins acc)) →
  relation_nullable (ja_relation (run_joins acc steps))
  ∧ Forall (λ j, relation_nullable (bjoin_relation j)) (take n (ja_joins (run_joins acc steps))).
Proof.
  revert acc. induction steps as [|[j [r on]] steps IH]; intros acc Hn Hr Hj; [done|].
  destruct (apply_kind_keeps (join_kind j) acc n) as (K1 & K2 & _ & K4).
  apply IH; simpl; [rewrite length_app, K4; simpl; lia|auto|].
  rewrite take_snoc_le by (by rewrite K4). auto.
Qed.

(** The right side of a [LEFT] or [FULL] join stays nullable. *)
Lemma run_keeps_right steps acc n bj :
  ja_joins acc !! n = Some bj → relation_nullable (bjoin_relation bj) →
  ∃ bj', ja_joins (run_joins acc steps) !! n = Some bj' ∧ relation_nullable (bjoin_relation bj').
Proof.
  revert acc bj. induction steps as [|[j [r on]] steps IH]; intros acc bj Hn Hr; [by exists bj|].
  destruct (apply_kind_keeps (join_kind j) acc n) as (_ & _ & K3 & _).
  destruct (K3 bj Hn Hr) as (bj' & Hn' & Hr'). eapply IH; [|exact Hr']. simpl.
  by apply lookup_app_l_Some.
Qed.

Lemma run_length steps acc : length (ja_joins (run_joins acc steps)) = length (ja_joins acc) + length steps.
Proof.
  revert acc. induction steps as [|[j [r on]] steps IH]; intros acc; simpl; [lia|].
  rewrite IH. simpl. rewrite length_app.
  destruct (apply_kind_keeps (join_kind j) acc 0) as (_ & _ & _ & ->). simpl. lia.
Qed.

Lemma run_nullable before j r on after acc :
  ja_joins acc = [] →
  let acc' := run_joins acc (before ++ (j, (r, on)) :: after) in
  (fills_left (join_kind j) = true →
     relation_nullable (ja_relation acc')
     ∧ Forall (λ bj, relation_nullable (bjoin_relation bj)) (take (length before) (ja_joins acc')))
  ∧ (fills_right (join_kind j) = true →
     ∃ bj, ja_joins acc' !! length before = Some bj ∧ relation_nullable (bjoin_relation bj)).
Proof.
  intros H0. unfold run_joins. rewrite foldl_app. cbn [foldl].
  fold (run_joins acc before). set (a := run_joins acc before). cbn [fst snd].
  fold (run_joins (join_step a j r on) after).
  assert (Hlen : length (ja_joins a) = length before) by (subst a; rewrite run_length, H0; done).
  destruct (apply_kind_keeps (join_kind j) a 0) as (_ & _ & _ & K4). split.
  - intros [Hr Hj]%(apply_kind_left _ a). apply run_keeps_left; simpl.
    + rewrite length_app, K4. simpl. lia.
    + done.
    + rewrite take_app_le by lia. by apply Forall_take.
  - intros Hk. eapply run_keeps_right; simpl.
    + rewrite lookup_app_r by lia. rewrite K4, Hlen, Nat.sub_diag. reflexivity.
    + simpl. destruct (join_kind j); try done; apply relation_nullable_made.
Qed.

(** ** The scope of the conditions *)

Lemma make_all_nullable_idem s : make_all_nullable (make_all_nullable s) = make_all_nullable s.
Proof.
  induction s as [|e s IH]; simpl; [done|]. rewrite IH. do 2 f_equal. unfold make_schema_nullable. simpl.
  f_equal. rewrite map_map. by apply map_ext.
Qed.

Lemma push_make_nullable s r :
  push_relation (make_all_nullable s) (make_relation_nullable r) = make_all_nullable (push_relation s r).
Proof. unfold push_relation, make_all_nullable. destruct r; simpl; by rewrite ?map_app. Qed.

(** The scope of the relations of a table, in order. *)
Definition acc_scope (s : Scope) (acc : JoinAcc) : Scope :=
  foldl (λ s j, push_relation s (bjoin_relation j)) (push_relation s (ja_relation acc)) (ja_joins acc).

Lemma fold_push_nullable s js :
  foldl (λ s j, push_relation s (bjoin_relation j)) (make_all_nullable s) (make_join_relations_nullable js)
  = make_all_nullable (foldl (λ s j, push_relation s (bjoin_relation j)) s js).
Proof.
  revert s. induction js as [|j js IH]; intros s; simpl; [done|]. by rewrite push_make_nullable, IH.
Qed.

Lemma acc_scope_step s acc j r on :
  ja_scope acc = acc_scope s acc →
  ja_scope (join_step acc j r on)
  = acc_scope (if fills_left (join_kind j) then make_all_nullable s else s) (join_step acc j r on).
Proof.
  intros Hs. unfold acc_scope, join_step. simpl. rewrite foldl_app. simpl. f_equal.
  destruct (join_kind j); simpl; try exact Hs; rewrite Hs; unfold acc_scope;
    by rewrite push_make_nullable, fold_push_nullable.
Qed.

Lemma run_scope steps s acc :
  ja_scope acc = acc_scope s acc →
  ja_scope (run_joins acc steps)
  = acc_scope (if existsb (λ p, fills_left (join_kind p.1)) steps then make_all_nullable s else s)
      (run_joins acc steps).
Proof.
  revert s acc. induction steps as [|[j [r on]] steps IH]; intros s acc Hs; [exact Hs|].
  change (run_joins acc ((j, (r, on)) :: steps)) with (run_joins (join_step acc j r on) steps).
  rewrite (IH _ _ (acc_scope_step s acc j r on Hs)). simpl. f_equal.
  destruct (fills_left _); simpl; [|done]. rewrite make_all_nullable_idem. by destruct (existsb _ steps).
Qed.

Lemma existsb_fst {A B} (f : A → bool) (l : list (A * B)) :
  existsb f (List.map fst l) = existsb (λ p, f p.1) l.
Proof. induction l as [|p l IH]; simpl; [done|]. by rewrite IH. Qed.

(** ** Properties *)

(** Outer joins make the columns they may fill with nulls nullable, in
    the bound table whatever joins follow: after a [RIGHT] or [FULL] join
    every relation to its left, after a [LEFT] or [FULL] join the joined one. *)
Theorem outer_joins_make_nullable `{Unicode} catalog r js1 j js2 node ctes os sc (s : Binder) :
  let table := (bind_table_with_joins catalog (MkSyntaxTableWithJoins r (js1 ++ j :: js2) node) ctes os sc s).1 in
  (fills_left (join_kind j) = true →
     relation_nullable (bt_relation table)
     ∧ Forall (λ bj, relation_nullable (bjoin_relation bj)) (take (length js1) (bt_joins table)))
  ∧ (fills_right (join_kind j) = true →
     ∃ bj, bt_joins table !! length js1 = Some bj ∧ relation_nullable (bjoin_relation bj)).
Proof.
  cbv zeta. rewrite bind_table_loop. unfold sbind, sret.
  destruct (bind_relation catalog r ctes os sc s) as [br s1].
  pose proof (bind_joins_run (λ r sc, bind_relation catalog r ctes os sc) (bind_expr catalog) os
                (js1 ++ j :: js2) (start_joins sc br) s1) as (steps & Hs & Hr).
  fold (join_loop catalog (js1 ++ j :: js2) ctes os sc br) in Hr.
  destruct (join_loop catalog (js1 ++ j :: js2) ctes os sc br s1) as [acc s2]. cbn [fst] in *. subst acc.
  apply map_eq_app in Hs as (before & rest & -> & <- & Hrest).
  destruct rest as [|[j' [r' on]] after]; [done|]. injection Hrest as -> _.
  rewrite length_map. by apply run_nullable.
Qed.

(** At the end of the join loop the scope is the one the enclosing
    [SELECT] builds from the bound table itself: the same relations in the
    same order with the same nullability.  Only the relations that were in
    scope before the table may be nullable in it where they are not outside:
    when the table has a [RIGHT] or [FULL] join. *)
Theorem join_scope_is_the_scope_of_the_table `{Unicode} catalog r js node ctes os sc (s : Binder) :
  let '(br, s1) := bind_relation catalog r ctes os sc s in
  let acc := (join_loop catalog js ctes os sc br s1).1 in
  let table := (bind_table_with_joins catalog (MkSyntaxTableWithJoins r js node) ctes os sc s).1 in
  bt_joins table = ja_joins acc
  ∧ ja_scope acc
    = merge_table (if existsb (λ j, fills_left (join_kind j)) js then make_all_nullable sc else sc) table.
Proof.
  rewrite bind_table_loop. unfold sbind, sret.
  destruct (bind_relation catalog r ctes os sc s) as [br s1].
  pose proof (bind_joins_run (λ r sc, bind_relation catalog r ctes os sc) (bind_expr catalog) os
                js (start_joins sc br) s1) as (steps & Hs & Hr).
  fold (join_loop catalog js ctes os sc br) in Hr.
  destruct (join_loop catalog js ctes os sc br s1) as [acc s2]. cbn [fst] in *.
  split; [done|]. subst acc js.
  rewrite (run_scope steps sc (start_joins sc br) eq_refl). unfold merge_table, acc_scope.
  by rewrite existsb_fst.
Qed.
