(* ===== verification/Behaviours.v ===== *)
(** Queries bound from end to end, on a small catalog: the witnesses of
    [ValidateFacts.v], and behaviours that only whole queries show. *)
From S2P Require Import Prelude BTreeMap Types Diagnostics Syntax Bound Catalog CatalogFacts Features Suggest.
From S2P Require Import Scope Bind Validate BindLogic Elab BindSound PlanFacts BindComplete FeatureFacts.
From S2P Require Import ParameterFacts ValidateFacts.
From Stdlib Require Import Sorted.

(** ** Fixtures *)

(** ASCII lower-casing, and a hash that is the identity. *)
Definition ascii_unicode : Unicode :=
  {| char_to_lowercase := λ c, [if ((65 <=? c) && (c <=? 90))%N then (c + 32)%N else c] |}.
Definition text_hash : Blake3 := {| blake3_hex := λ s, s |}.
#[local] Existing Instance ascii_unicode.
#[local] Existing Instance text_hash.

Definition column (name : string) (t : DataType) (nullable : bool) : ColumnSchema :=
  {| column_name := name; column_type := t; column_nullable := nullable;
     column_metadata := FieldMetadata_default |}.
Definition table_of (name : string) (cols : list ColumnSchema) : RelationSchema :=
  {| rel_namespace := None; rel_name := name; rel_aliases := []; rel_kind := RTable;
     rel_columns := cols; rel_metadata := [] |}.

(** [records (id, score, name)] and [links (id, target)]. *)
Definition small_catalog : Catalog :=
  memory_catalog
    (register_relation
       (register_relation MemoryCatalog_default
          (table_of "records" [column "id" TUuid false; column "score" TFloat64 false; column "name" TUtf8 true]))
       (table_of "links" [column "id" TUuid false; column "target" TUuid false])).

Definition n0 : SyntaxNode := SyntaxNode_new None "n".
Definition ex (k : SyntaxExprKind) : SyntaxExpr := MkSyntaxExpr k n0.
Definition col (name : string) : SyntaxExpr := ex (SColumn None name).
Definition param (r : ParameterRef) : SyntaxExpr := ex (SParameter r).
Definition binop (op : BinaryOperator) (l r : SyntaxExpr) : SyntaxExpr := ex (SBinary op l r).
Definition call (name : string) (args : list SyntaxExpr) : SyntaxExpr :=
  ex (SFunction (MkSyntaxFunctionCall {| fn_namespace := None; fn_name := name |} args false None None)).
Definition named_table (name : string) : SyntaxTableWithJoins :=
  MkSyntaxTableWithJoins (STable {| nr_namespace := None; nr_name := name |} None n0) [] n0.
Definition item (e : SyntaxExpr) : SyntaxProjectionItem := PExpr (MkSyntaxProjectionExpr e None n0).
Definition star : SyntaxProjectionItem := PWildcard None n0.
Definition select (items : list SyntaxProjectionItem) (from : list SyntaxTableWithJoins)
    (selection : option SyntaxExpr) : SyntaxSetExpr :=
  SSelect (MkSyntaxSelect false items from selection [] None n0).
Definition order (e : SyntaxExpr) : SyntaxOrderByExpr := MkSyntaxOrderByExpr e None None n0.
Definition query (cs : list SyntaxCte) (body : SyntaxSetExpr) (order_by : list SyntaxOrderByExpr) : SyntaxQuery :=
  MkSyntaxQuery n0 cs false body order_by None None [].
Definition cte (name : string) (q : SyntaxQuery) : SyntaxCte := MkSyntaxCte name [] q n0.
Definition derived (q : SyntaxQuery) (alias : string) : SyntaxTableWithJoins :=
  MkSyntaxTableWithJoins (SDerived q (Some alias) n0) [] n0.
Definition parsed (q : SyntaxQuery) : ParsedQuery := with_syntax (ParsedQuery_new "sql" "" "") q.
Definition where_records (condition : SyntaxExpr) : ParsedQuery :=
  parsed (query [] (select [item (col "id")] [named_table "records"] (Some condition)) []).

Definition bound_or_default (p : ParsedQuery) (r : Result BoundQuery) : BoundQuery :=
  match r with Ok b => b | Err _ => BoundQuery_new p end.
Definition bind_small (p : ParsedQuery) (parameters : QueryParameters) : Result BoundQuery :=
  bind_and_validate small_catalog p parameters.

(** The references, types and values of the bound parameters. *)
Definition parameter_summary (r : Result BoundQuery) : option (list (ParameterRef * DataType * option ParameterValue)) :=
  match r with
  | Ok b => Some (List.map (λ p, (ps_reference (pb_schema p), ps_data_type (pb_schema p), pb_value p))
                    (bound_parameters b))
  | Err _ => None
  end.
(** The result columns, and the codes of a rejection. *)
Definition result_columns (r : Result BoundQuery) : option (list (string * DataType)) :=
  match r with
  | Ok b => Some (List.map (λ f, (field_name f, field_type f)) (fields (bound_result_schema b)))
  | Err _ => None
  end.
Definition error_codes (r : Result BoundQuery) : list string :=
  match r with
  | Ok _ => []
  | Err e => match as_bind e with
             | Some d => List.map code (List.filter is_error (be_diagnostics d))
             | None => []
             end
  end.

(** [SELECT id FROM records WHERE score > $1] with a value for [$1]. *)
Definition sample_query : ParsedQuery :=
  where_records (binop Gt_ (col "score") (param (Positional 1))).
Definition sample_parameters : QueryParameters :=
  insert_positional QueryParameters_default 1 (VFloat64 "0.5").
Definition sample_bound : BoundQuery := bound_or_default sample_query (bind_small sample_query sample_parameters).

Lemma sample_accepted : bind_small sample_query sample_parameters = Ok sample_bound.
Proof. vm_compute. reflexivity. Qed.

(** ** Witnesses *)

Example accepted_plan_is_an_elaboration_witness :
  bind_and_validate small_catalog sample_query sample_parameters = Ok sample_bound ∧
  ∃ Γ, bt_wf Γ
  ∧ elab_query small_catalog Γ (pq_syntax sample_query) (bound_plan sample_bound)
  ∧ List.map (λ p, ps_reference (pb_schema p)) (bound_parameters sample_bound) = bt_keys Γ
  ∧ bound_result_schema sample_bound = bq_result_schema (bound_plan sample_bound)
  ∧ bound_parsed sample_bound = sample_query.
Proof.
  split; [exact sample_accepted|].
  apply (accepted_plan_is_an_elaboration small_catalog sample_query sample_parameters). exact sample_accepted.
Defined.

Example binding_is_elaboration_witness :
  explicit_query (pq_syntax sample_query) = true
  ∧ let '(plan, s) := bind_query small_catalog (pq_syntax sample_query) None (Binder_new sample_parameters) in
    (has_error (diagnostics s) = false ↔ ∃ Γ p, elab_query small_catalog Γ (pq_syntax sample_query) p)
    ∧ ∀ Γ p, elab_query small_catalog Γ (pq_syntax sample_query) p → p = plan.
Proof.
  split; [reflexivity|]. apply (binding_is_elaboration small_catalog sample_parameters (pq_syntax sample_query)).
  reflexivity.
Defined.

Example accepted_plan_is_supported_and_closed_witness :
  bind_and_validate small_catalog sample_query sample_parameters = Ok sample_bound ∧
  all_query (λ e, ∀ r, be_kind e = BParameter r →
    ∃ p, p ∈ bound_parameters sample_bound ∧ ps_reference (pb_schema p) = r
    ∧ ps_data_type (pb_schema p) ≠ TUnknown
    ∧ (be_nullable e = false → ps_nullable (pb_schema p) = false))
    (bound_plan sample_bound).
Proof.
  split; [exact sample_accepted|].
  apply (accepted_plan_is_supported_and_closed small_catalog sample_query sample_parameters).
  exact sample_accepted.
Defined.

Example only_known_tables_are_read_witness :
  bind_and_validate small_catalog sample_query sample_parameters = Ok sample_bound
  ∧ tables_query (known_table small_catalog) (bound_plan sample_bound).
Proof.
  split; [exact sample_accepted|].
  apply (only_known_tables_are_read small_catalog sample_query sample_parameters). exact sample_accepted.
Defined.

Example bound_parameters_fit_witness :
  bind_and_validate small_catalog sample_query sample_parameters = Ok sample_bound
  ∧ parameter_summary (bind_small sample_query sample_parameters)
    = Some [(Positional 1, TFloat64, Some (VFloat64 "0.5"))]
  ∧ (StronglySorted klt (List.map (λ p, ps_reference (pb_schema p)) (bound_parameters sample_bound))
     ∧ ∀ p, p ∈ bound_parameters sample_bound →
         pb_value p = lookup_parameter sample_parameters (ps_reference (pb_schema p))
         ∧ ps_data_type (pb_schema p) ≠ TUnknown
         ∧ ∀ v, pb_value p = Some v → parameter_value_matches_schema v (pb_schema p) = true).
Proof.
  split; [exact sample_accepted|]. split; [vm_compute; reflexivity|].
  apply (bound_parameters_fit small_catalog sample_query sample_parameters). exact sample_accepted.
Defined.

Example accepted_plan_features_witness :
  bind_and_validate small_catalog sample_query sample_parameters = Ok sample_bound ∧
  agree (plan_features_from_syntax (pq_syntax sample_query))
        (plan_features_from_bound small_catalog (bound_plan sample_bound)).
Proof.
  split; [exact sample_accepted|].
  apply (accepted_plan_features small_catalog sample_query sample_parameters). exact sample_accepted.
Defined.

(** ** Behaviours *)

(** A parameter used at two types that do not agree is refused, but a
    third use hides the conflict: the constraint is reset to unknown by the
    first conflict, and takes the type of the next use. *)
Theorem third_use_hides_a_type_conflict :
  let text := binop Eq_ (col "name") (param (Positional 1)) in
  let number := binop Eq_ (col "score") (param (Positional 1)) in
  error_codes (bind_small (where_records (binop And text number)) QueryParameters_default) = ["QF0018"]
  ∧ parameter_summary (bind_small (where_records (binop And (binop And text number) number))
                         QueryParameters_default)
    = Some [(Positional 1, TFloat64, None)].
Proof. split; vm_compute; reflexivity. Qed.

(** An anonymous parameter takes none of the supplied values, since its
    position starts after them; without supplied values it takes the position
    of an explicit [$1], and the two become one parameter. *)
Theorem anonymous_parameters_in_queries :
  let anonymous := binop Gt_ (col "score") (param (Positional 0)) in
  let explicit := binop Lt_ (col "score") (param (Positional 1)) in
  parameter_summary (bind_small (where_records anonymous) sample_parameters)
    = Some [(Positional 2, TFloat64, None)]
  ∧ parameter_summary (bind_small (where_records (binop And anonymous explicit)) QueryParameters_default)
    = Some [(Positional 1, TFloat64, None)].
Proof. split; vm_compute; reflexivity. Qed.

(** A CTE is in scope in the body of its own query only.  A later CTE
    that names an earlier one is refused; a derived table that names a CTE
    is bound to the relation of that name in the catalog, with its columns. *)
Theorem ctes_are_not_in_scope_below :
  let first := cte "first" (query [] (select [item (col "id")] [named_table "links"] None) []) in
  let second := cte "second" (query [] (select [star] [named_table "first"] None) []) in
  let shadow := cte "records" (query [] (select [item (col "target")] [named_table "links"] None) []) in
  let all := query [] (select [star] [named_table "records"] None) [] in
  error_codes (bind_small (parsed (query [first; second] (select [star] [named_table "second"] None) []))
                 QueryParameters_default) = ["QF0005"]
  ∧ result_columns (bind_small (parsed (query [shadow] (select [star] [named_table "records"] None) []))
                      QueryParameters_default) = Some [("target", TUuid)]
  ∧ result_columns (bind_small (parsed (query [shadow] (select [star] [derived all "d"] None) []))
                      QueryParameters_default)
    = Some [("id", TUuid); ("score", TFloat64); ("name", TUtf8)].
Proof. split_and!; vm_compute; reflexivity. Qed.

(** A function in [ORDER BY] is bound but not counted: the accepted query
    [SELECT score FROM records ORDER BY count(score)] demands no aggregates
    and records no function, while the same call in the projection does. *)
Theorem order_by_functions_are_not_required :
  let c := call "count" [col "score"] in
  let requirements p := match bind_small p QueryParameters_default with
                        | Ok b => Some (bool_decide (Aggregates ∈ required (bound_capability_requirements b)),
                                        elements (referenced_functions (bound_capability_requirements b)))
                        | Err _ => None
                        end in
  requirements (parsed (query [] (select [item (col "score")] [named_table "records"] None) [order c]))
    = Some (false, [])
  ∧ requirements (parsed (query [] (select [item c] [named_table "records"] None) []))
    = Some (true, [{| fn_namespace := None; fn_name := "count" |}]).
Proof. split; vm_compute; reflexivity. Qed.
