(* ===== verification/Emission.v ===== *)
(** From a query to SQL text, end to end: the placeholders of accepted queries,
    and behaviours of the emitted text that only whole queries show. *)
From S2P Require Import Prelude BTreeMap Types Diagnostics Syntax Bound Catalog CatalogFacts Features Cost Suggest.
From S2P Require Import Scope Bind Render SqlText RenderText Validate BindLogic Elab BindSound PlanFacts RenderFacts FeatureFacts.
From S2P Require Import ParameterFacts ValidateFacts Behaviours.
From Stdlib Require Import Ascii Sorted.
Local Open Scope result_scope.

Lemma StronglySorted_NoDup {K} `{RustOrd K} (l : list K) : StronglySorted klt l → NoDup l.
Proof.
  induction 1 as [|k l Hl IH Hf]; constructor; [|done]. intros Hk.
  rewrite Forall_forall in Hf. by destruct (cmp_lt_neq k k (Hf k Hk)).
Qed.

(** ** Properties *)

Section Properties.
Context `{Blake3} `{Unicode}.
Variable catalog : Catalog.

(** C20: refinement.  The parameters of the artifact of an accepted query are
    its bound parameters in their order; the placeholder of a parameter is its
    position in that list, counted from one; and every parameter of the plan,
    in any clause and any subquery, is in the list. *)
Theorem placeholders_are_positions parsed parameters b :
  bind_and_validate catalog parsed parameters = Ok b →
  let schemas := ordered_parameters b in
  let renderer := SqlRenderer_new Postgres schemas in
  schemas = List.map pb_schema (bound_parameters b)
  ∧ (∀ k schema, schemas !! k = Some schema →
       render_parameter renderer (ps_reference schema) = Ok ("$" +:+ show_N (N.of_nat (k + 1))))
  ∧ all_query (λ e, ∀ r, be_kind e = BParameter r →
      ∃ k schema, schemas !! k = Some schema ∧ ps_reference schema = r) (bound_plan b).
Proof.
  intros (s & [_ _ Hb _ Hw He])%accepted schemas renderer.
  assert (Hrefs : references (List.map pb_schema (bound_parameters b)) = bt_keys (parameter_constraints s)).
  { unfold references. rewrite List.map_map. by apply (final_bindings_refs parameters). }
  assert (Hs : schemas = List.map pb_schema (bound_parameters b)).
  { unfold schemas, ordered_parameters. apply ordered_sorted. rewrite Hrefs. exact Hw. }
  assert (Hd : NoDup (references schemas)) by (rewrite Hs, Hrefs; by apply StronglySorted_NoDup).
  split; [done|]. split.
  - intros k schema Hk. unfold renderer, render_parameter. rewrite (renderer_schema Postgres _ _ _ Hd Hk). cbn [rbind].
    by rewrite (renderer_position Postgres _ _ _ Hd Hk).
  - revert He. apply nodes_satisfy. intros sc x e be He r Hk.
    inversion He; subst; simpl in Hk; try done. injection Hk as ->.
    match goal with H : covers _ _ _ |- _ => destruct H as (c & Hc & _) end.
    destruct (final_bindings_get parameters _ _ _ _ Hb Hc) as (t & _ & _ & _ & p & Hp & Hr & _).
    rewrite Hs. apply list_elem_of_lookup in Hp as [k Hk]. exists k, (pb_schema p).
    split; [|done]. change (List.map pb_schema (bound_parameters b)) with (pb_schema <$> bound_parameters b).
    by rewrite list_lookup_fmap, Hk.
Qed.
End Properties.

(** ** Fixtures *)

#[local] Existing Instance ascii_unicode.
#[local] Existing Instance text_hash.

Definition emit (backend : SqlBackend) (p : ParsedQuery) (parameters : QueryParameters) : Result SqlArtifact :=
  let? b := bind_small p parameters in emit_sql_artifact b small_catalog backend.
Definition text_of (r : Result SqlArtifact) : option string :=
  match r with Ok a => Some (sql_text a) | Err _ => None end.

Definition unary (op : UnaryOperator) (e : SyntaxExpr) : SyntaxExpr := ex (SUnary op e).
Definition is_null (e : SyntaxExpr) : SyntaxExpr := ex (SIsNull e false).
Definition text (s : string) : SyntaxExpr := ex (SLiteral (LUtf8 s)).
Definition number (s : string) : SyntaxExpr := ex (SLiteral (LFloat64 s)).

Definition sample_artifact : SqlArtifact :=
  {| sql_dialect := "postgres"; sql_text := "SELECT records.id FROM records WHERE (records.score > $1)";
     sql_parameters := ordered_parameters sample_bound; sql_result_schema := bound_result_schema sample_bound;
     sql_metadata := [];
     sql_provenance :=
       receipt_with_artifact_identity (receipt_with_backend (bound_provenance sample_bound) "postgres") "sql:postgres" |}.

(** ** Witnesses *)

Example emitted_text_is_sealed_witness :
  emit_sql_artifact sample_bound small_catalog Postgres = Ok sample_artifact
  ∧ all_query expr_ok (bound_plan sample_bound)
  ∧ ∃ l, calm l ∧ scan (sql_text sample_artifact) (Code LOther, []) = Some (Code l, []).
Proof.
  assert (He : emit_sql_artifact sample_bound small_catalog Postgres = Ok sample_artifact) by (vm_compute; reflexivity).
  assert (Hok : all_query expr_ok (bound_plan sample_bound)) by (vm_compute; tauto).
  split; [exact He|]. split; [exact Hok|].
  apply (emitted_text_is_sealed sample_bound small_catalog); [exact He|exact Hok].
Defined.

Example placeholders_are_positions_witness :
  bind_and_validate small_catalog sample_query sample_parameters = Ok sample_bound
  ∧ render_parameter (SqlRenderer_new Postgres (ordered_parameters sample_bound)) (Positional 1) = Ok "$1"
  ∧ ordered_parameters sample_bound = List.map pb_schema (bound_parameters sample_bound).
Proof.
  split; [exact sample_accepted|]. split; [vm_compute; reflexivity|].
  apply (placeholders_are_positions small_catalog sample_query sample_parameters). exact sample_accepted.
Defined.

(** ** Behaviours *)

(** A column of ORDER BY is qualified by the internal name of the output scope,
    which is no relation of the emitted query. *)
Lemma order_by_names_no_relation :
  ∀ b, text_of (emit b (parsed (query [] (select [item (col "id")] [named_table "records"] None) [order (col "id")]))
                  QueryParameters_default)
       = Some "SELECT records.id FROM records ORDER BY __output__.id".
Proof. intros []; vm_compute; reflexivity. Qed.

(** The operand of [IS NULL] is not put in brackets, so the conditions
    [(NOT (score > score)) IS NULL] and [NOT ((score > score) IS NULL)] are
    emitted as one text on both backends. *)
Theorem grouping_is_lost :
  let c := binop Gt_ (col "score") (col "score") in
  let inner := where_records (is_null (unary UNot c)) in
  let outer := where_records (unary UNot (is_null c)) in
  pq_syntax inner ≠ pq_syntax outer
  ∧ text_of (emit Postgres inner QueryParameters_default)
    = Some "SELECT records.id FROM records WHERE NOT (records.score > records.score) IS NULL"
  ∧ ∀ b, text_of (emit b inner QueryParameters_default) = text_of (emit b outer QueryParameters_default).
Proof. split_and!; [done|vm_compute; reflexivity|]. intros []; vm_compute; reflexivity. Qed.

(** A minus is put directly before its operand, so the condition
    [- (- score) > 1.0] is emitted with a comment that hides the rest of the
    query, brackets included. *)
Theorem double_minus_is_a_comment :
  let p := where_records (binop Gt_ (unary UMinus (unary UMinus (col "score"))) (number "1.0")) in
  ∃ t, text_of (emit Postgres p QueryParameters_default) = Some t
       ∧ t = "SELECT records.id FROM records WHERE (--records.score > 1.0)"
       ∧ scan t (Code LOther, []) = None.
Proof. eexists. split_and!; vm_compute; reflexivity. Qed.

(** Quotes are doubled for ClickHouse as well, which reads a backslash in
    a string as an escape: there the literal of a text with a backslash before
    a quote ends at the quote, and the rest of the text becomes syntax. *)
Theorem clickhouse_literals_can_be_escaped_from :
  let value := "\' OR 1=1 --" in
  text_of (emit ClickHouse (where_records (binop Eq_ (col "name") (text value))) QueryParameters_default)
    = Some ("SELECT records.id FROM records WHERE (records.name = '" +:+ "\'' OR 1=1 --')")
  ∧ read_escaped squote ("\'' OR 1=1 --')") = Some ("'", " OR 1=1 --')").
Proof. split; vm_compute; reflexivity. Qed.

(** The analysis does not see the functions of [ORDER BY]: it supports
    [SELECT score FROM records ORDER BY toString(score)] on PostgreSQL, and
    the emission of the same query fails because that function has no
    PostgreSQL mapping. *)
Theorem supported_query_cannot_be_emitted :
  let p := parsed (query [] (select [item (col "score")] [named_table "records"] None)
                     [order (call "toString" [col "score"])]) in
  let b := bound_or_default p (bind_small p QueryParameters_default) in
  bind_small p QueryParameters_default = Ok b
  ∧ an_supported (analyze_backend_support small_catalog "postgres" CapabilitySet_default b false) = true
  ∧ emit_sql_artifact b small_catalog Postgres
    = Err (unsupported "render" "function `toString` has no backend mapping").
Proof. split_and!; vm_compute; reflexivity. Qed.

(** A relation whose alias has a dot is declared under the quoted alias, but its
    columns are qualified by two names. *)
Theorem dotted_alias_is_split :
  let p := parsed (query [] (select [item (ex (SColumn (Some "r.s") "id"))]
             [MkSyntaxTableWithJoins (STable {| nr_namespace := None; nr_name := "records" |} (Some "r.s") n0) [] n0]
             None) []) in
  text_of (emit Postgres p QueryParameters_default)
  = Some ("SELECT r.s.id FROM records AS " +:+ char_text dquote +:+ "r.s" +:+ char_text dquote).
Proof. vm_compute. reflexivity. Qed.
