(* ===== verification/JobRunner.v ===== *)
(** The priority dispatcher of the job queue:
    [queryfabric-job-queue/src/priority.rs].

    A heap of pending jobs, a semaphore that caps the workers, and the map of
    the running jobs with their cancellation tokens.  The semaphore and the
    tokens are those of [tokio]: two interfaces with the documented laws.  The
    semaphore and the running map are behind an [Arc], shared with the worker
    tasks; they are fields of one state that the runner and the workers
    thread. *)
From stdpp Require Import sorting.
From S2P Require Import Prelude.

(** ** What the runner relies on *)

(** [tokio::sync::Semaphore], with permits taken one by one and given back when
    they are dropped. *)
Class Semaphore := {
  semaphore : Type;
  semaphore_new : nat → semaphore;
  available_permits : semaphore → nat;
  try_acquire_owned : semaphore → option semaphore;
  drop_permit : semaphore → semaphore;
  available_new n : available_permits (semaphore_new n) = n;
  acquire_Some s s' : try_acquire_owned s = Some s' → available_permits s = S (available_permits s');
  acquire_None s : try_acquire_owned s = None → available_permits s = 0;
  available_drop s : available_permits (drop_permit s) = S (available_permits s)
}.

(** [tokio_util::sync::CancellationToken]: flags shared by all clones of a
    token.  [token_new] allocates one in the store of all flags. *)
Class CancellationTokens := {
  CancellationToken : Type;
  tokens : Type;
  allocated : tokens → CancellationToken → Prop;
  is_cancelled : tokens → CancellationToken → bool;
  token_new : tokens → CancellationToken * tokens;
  token_cancel : CancellationToken → tokens → tokens;
  new_fresh ts : ¬ allocated ts (token_new ts).1;
  new_allocated ts t : allocated (token_new ts).2 t ↔ t = (token_new ts).1 ∨ allocated ts t;
  new_not_cancelled ts : is_cancelled (token_new ts).2 (token_new ts).1 = false;
  new_keeps ts t : allocated ts t → is_cancelled (token_new ts).2 t = is_cancelled ts t;
  cancel_allocated ts t u : allocated (token_cancel t ts) u ↔ allocated ts u;
  cancel_cancels ts t u : allocated ts t →
    (is_cancelled (token_cancel t ts) u = true ↔ u = t ∨ is_cancelled ts u = true)
}.

(** Both interfaces have a simple model: a counter, and the list of the tokens
    given out with their flags. *)
#[export] Program Instance counting_semaphore : Semaphore := {|
  semaphore := nat; semaphore_new n := n; available_permits s := s;
  try_acquire_owned s := match s with 0 => None | S s => Some s end;
  drop_permit s := S s
|}.
Next Obligation. done. Qed.
Next Obligation. by intros [|s] s'; simpl; intros [=]; subst. Qed.
Next Obligation. by intros [|s]. Qed.
Next Obligation. done. Qed.

#[export] Program Instance flag_tokens : CancellationTokens := {|
  CancellationToken := nat; tokens := list bool;
  allocated ts t := t < length ts;
  is_cancelled ts t := default false (ts !! t);
  token_new ts := (length ts, ts ++ [false]);
  token_cancel t ts := <[t := true]> ts
|}.
Next Obligation. simpl. lia. Qed.
Next Obligation. simpl. intros. rewrite length_app. simpl. lia. Qed.
Next Obligation. simpl. intros ts. rewrite lookup_app_r by done. by rewrite Nat.sub_diag. Qed.
Next Obligation. simpl. intros ts t Ht. by rewrite lookup_app_l. Qed.
Next Obligation. simpl. intros. by rewrite length_insert. Qed.
Next Obligation.
  simpl. intros ts t u Ht. destruct (decide (u = t)) as [->|Hne].
  - rewrite list_lookup_insert_eq by done. naive_solver.
  - rewrite list_lookup_insert_ne by done. naive_solver.
Qed.

(** ** The runner *)

Inductive CancelOutcome := RemovedFromQueue | SignalledRunning | NotFound.

Record Entry (Uuid K : Type) := MkEntry {
  job_id : Uuid;
  priority : Z;
  seq : N;
  kind : K
}.
Arguments MkEntry {Uuid K}. Arguments job_id {Uuid K}. Arguments priority {Uuid K}.
Arguments seq {Uuid K}. Arguments kind {Uuid K}.

Section Runner.
Context `{Semaphore} `{CancellationTokens} {Uuid K : Type} `{Countable Uuid} `{EqDecision K}.

(** [Ord for Entry]: a greater entry is dispatched before a smaller one. *)
Definition Entry_cmp (self other : Entry Uuid K) : comparison :=
  match Z.compare (priority other) (priority self) with
  | Eq => N.compare (seq other) (seq self)
  | c => c
  end.

(** [std::collections::BinaryHeap] as the list of its entries: [pop] takes one
    of the greatest.  Entries with different sequence numbers are never equal
    in the order, so there is only one. *)
Definition BinaryHeap : Type := list (Entry Uuid K).

Definition heap_push (h : BinaryHeap) (e : Entry Uuid K) : BinaryHeap := e :: h.

Fixpoint heap_pop (h : BinaryHeap) : option (Entry Uuid K * BinaryHeap) :=
  match h with
  | [] => None
  | e :: h =>
      match heap_pop h with
      | None => Some (e, [])
      | Some (top, rest) =>
          match Entry_cmp e top with
          | Lt => Some (top, e :: rest)
          | _ => Some (e, h)
          end
      end
  end.

Record Dispatch := {
  d_job_id : Uuid;
  d_kind : K;
  d_cancel : CancellationToken
}.

(** The runner's fields, with the store of the tokens' flags. *)
Record PriorityRunner := {
  permits : semaphore;
  pending : BinaryHeap;
  last_seq : N;
  running : gmap Uuid (CancellationToken * K);
  flags : tokens
}.

Definition runner_new (s : semaphore) (ts : tokens) : PriorityRunner :=
  {| permits := s; pending := []; last_seq := 0; running := ∅; flags := ts |}.

(** [self.seq += 1] on a [u64]. *)
Definition submit (r : PriorityRunner) (id : Uuid) (p : Z) (k : K) : PriorityRunner :=
  let seq' := u64_wrapping_add (last_seq r) 1 in
  {| permits := permits r;
     pending := heap_push (pending r) {| job_id := id; priority := p; seq := seq'; kind := k |};
     last_seq := seq'; running := running r; flags := flags r |}.

(** A permit acquired for an empty queue is dropped by the early return.  The
    permit of a dispatch goes to the worker, which drops it with
    [runner_release]. *)
Definition try_dispatch (r : PriorityRunner) : option Dispatch * PriorityRunner :=
  match try_acquire_owned (permits r) with
  | None => (None, r)
  | Some permits' =>
      match heap_pop (pending r) with
      | None =>
          (None, {| permits := drop_permit permits'; pending := pending r; last_seq := last_seq r;
                    running := running r; flags := flags r |})
      | Some (entry, pending') =>
          let '(cancel, flags') := token_new (flags r) in
          (Some {| d_job_id := job_id entry; d_kind := kind entry; d_cancel := cancel |},
           {| permits := permits'; pending := pending'; last_seq := last_seq r;
              running := <[job_id entry := (cancel, kind entry)]> (running r);
              flags := flags' |})
      end
  end.

(** The drop of a worker's permit. *)
Definition runner_release (r : PriorityRunner) : PriorityRunner :=
  {| permits := drop_permit (permits r); pending := pending r; last_seq := last_seq r;
     running := running r; flags := flags r |}.

(** The loop over the drained heap: entries of other jobs are pushed back. *)
Definition push_back_others (id : Uuid) (drained : list (Entry Uuid K)) : bool * BinaryHeap :=
  List.fold_left
    (λ '(found, h) entry,
       if decide (job_id entry = id) then (true, h) else (found, heap_push h entry))
    drained (false, []).

Definition cancel (r : PriorityRunner) (id : Uuid) : CancelOutcome * PriorityRunner :=
  match running r !! id with
  | Some (token, _) =>
      (SignalledRunning,
       {| permits := permits r; pending := pending r; last_seq := last_seq r;
          running := delete id (running r); flags := token_cancel token (flags r) |})
  | None =>
      let '(found, pending') := push_back_others id (pending r) in
      (if found then RemovedFromQueue else NotFound,
       {| permits := permits r; pending := pending'; last_seq := last_seq r;
          running := running r; flags := flags r |})
  end.

(** [PriorityRunner::finish] and [RunnerHandle::finish]. *)
Definition finish (r : PriorityRunner) (id : Uuid) : PriorityRunner :=
  {| permits := permits r; pending := pending r; last_seq := last_seq r;
     running := delete id (running r); flags := flags r |}.

Definition pending_count (r : PriorityRunner) (k : K) : nat :=
  length (filter (λ e, kind e = k) (pending r)).

Definition running_count (r : PriorityRunner) (k : K) : nat :=
  length (filter (λ e, e.2.2 = k) (map_to_list (running r))).

Definition total_pending (r : PriorityRunner) : nat := length (pending r).

Definition total_running (r : PriorityRunner) : nat := size (running r).
End Runner.
Arguments Dispatch : clear implicits. Arguments Dispatch {_} _ _.
Arguments PriorityRunner : clear implicits. Arguments PriorityRunner {_ _} _ _ {_ _}.

(** ** Specification: a stable priority queue

    What the runner promises to its callers, without sequence numbers, heaps or
    permits: the jobs in the order of their submission, the number of free
    workers, and which jobs are running. *)
Section Specification.
Context {Uuid K : Type} `{Countable Uuid}.

Record Job := { j_id : Uuid; j_priority : Z; j_kind : K }.

Record RunnerSpec := { free : nat; queue : list Job; active : gmap Uuid K }.

Definition spec_submit (s : RunnerSpec) (id : Uuid) (p : Z) (k : K) : RunnerSpec :=
  {| free := free s; queue := queue s ++ [{| j_id := id; j_priority := p; j_kind := k |}];
     active := active s |}.

(** The first of the least in [p], and the others in their order. *)
Fixpoint take_first {A} (p : A → Z) (l : list A) : option (A * list A) :=
  match l with
  | [] => None
  | x :: l =>
      match take_first p l with
      | None => Some (x, [])
      | Some (y, rest) => if (p x <=? p y)%Z then Some (x, l) else Some (y, x :: rest)
      end
  end.

Definition spec_dispatch (s : RunnerSpec) : option (Uuid * K) * RunnerSpec :=
  match free s, take_first j_priority (queue s) with
  | S n, Some (j, rest) =>
      (Some (j_id j, j_kind j),
       {| free := n; queue := rest; active := <[j_id j := j_kind j]> (active s) |})
  | _, _ => (None, s)
  end.

Definition spec_cancel (s : RunnerSpec) (id : Uuid) : CancelOutcome * RunnerSpec :=
  match active s !! id with
  | Some _ => (SignalledRunning, {| free := free s; queue := queue s; active := delete id (active s) |})
  | None =>
      (if decide (Exists (λ j, j_id j = id) (queue s)) then RemovedFromQueue else NotFound,
       {| free := free s; queue := filter (λ j, j_id j ≠ id) (queue s); active := active s |})
  end.

Definition spec_finish (s : RunnerSpec) (id : Uuid) : RunnerSpec :=
  {| free := free s; queue := queue s; active := delete id (active s) |}.

Definition spec_release (s : RunnerSpec) : RunnerSpec :=
  {| free := S (free s); queue := queue s; active := active s |}.
End Specification.
Arguments Job : clear implicits. Arguments RunnerSpec _ _ {_ _}.

(** ** The heap *)
Section HeapFacts.
Context {Uuid K : Type}.
Implicit Types (e x y : Entry Uuid K) (h l : list (Entry Uuid K)).

Lemma Entry_cmp_Lt x y :
  Entry_cmp x y = Lt ↔
  (priority y < priority x)%Z ∨ priority y = priority x ∧ (seq y < seq x)%N.
Proof.
  unfold Entry_cmp. destruct (Z.compare_spec (priority y) (priority x)) as [->| |].
  - rewrite N.compare_lt_iff. naive_solver lia.
  - naive_solver lia.
  - split; [done|]. lia.
Qed.

Lemma Entry_cmp_not_Gt x y :
  Entry_cmp x y ≠ Gt ↔
  (priority y < priority x)%Z ∨ priority y = priority x ∧ (seq y ≤ seq x)%N.
Proof.
  unfold Entry_cmp. destruct (Z.compare_spec (priority y) (priority x)) as [->| |].
  - rewrite N.compare_gt_iff. naive_solver lia.
  - naive_solver lia.
  - split; [done|]. lia.
Qed.

Lemma heap_pop_None h : heap_pop h = None ↔ h = [].
Proof.
  destruct h as [|e h]; simpl; [done|].
  destruct (heap_pop h) as [[top rest]|]; [destruct (Entry_cmp e top)|]; done.
Qed.

Lemma heap_pop_Some h e h' :
  heap_pop h = Some (e, h') → h ≡ₚ e :: h' ∧ Forall (λ x, Entry_cmp x e ≠ Gt) h'.
Proof.
  revert e h'. induction h as [|x h IH]; simpl; intros e h'; [done|].
  destruct (heap_pop h) as [[top rest]|] eqn:E.
  - destruct (IH _ _ eq_refl) as [HP HF].
    destruct (Entry_cmp x top) eqn:C; intros [= <- <-].
    + split; [done|]. rewrite HP. constructor.
      * apply Entry_cmp_not_Gt. unfold Entry_cmp in C.
        destruct (Z.compare_spec (priority top) (priority x)); [|done..].
        apply N.compare_eq_iff in C. lia.
      * eapply Forall_impl; [exact HF|]. intros y. rewrite !Entry_cmp_not_Gt.
        unfold Entry_cmp in C. destruct (Z.compare_spec (priority top) (priority x)); [|done..].
        apply N.compare_eq_iff in C. lia.
    + split; [by rewrite HP, Permutation_swap|]. constructor; [by rewrite C|done].
    + split; [done|]. rewrite HP.
      assert (Entry_cmp top x = Lt) as Hlt.
      { apply Entry_cmp_Lt. unfold Entry_cmp in C.
        destruct (Z.compare_spec (priority top) (priority x)); [|done|].
        - apply N.compare_gt_iff in C. lia.
        - lia. }
      apply Entry_cmp_Lt in Hlt. constructor; [apply Entry_cmp_not_Gt; lia|].
      eapply Forall_impl; [exact HF|]. intros y. rewrite !Entry_cmp_not_Gt. lia.
  - apply heap_pop_None in E as ->. intros [= <- <-]. done.
Qed.
End HeapFacts.

Section TakeFirstFacts.
Context {A : Type}.

Lemma take_first_None (p : A → Z) l : take_first p l = None ↔ l = [].
Proof.
  destruct l as [|x l]; simpl; [done|].
  destruct (take_first p l) as [[y rest]|]; [destruct (p x <=? p y)%Z|]; done.
Qed.

Lemma take_first_fmap {B} (f : A → B) (p : B → Z) (l : list A) :
  take_first p (f <$> l) = prod_map f (fmap (M:=list) f) <$> take_first (p ∘ f) l.
Proof.
  induction l as [|x l IH]; csimpl; [done|]. rewrite IH. unfold compose.
  destruct (take_first _ l) as [[y rest]|]; simpl; [by destruct (p (f x) <=? p (f y))%Z|done].
Qed.

(** What it takes: everything before is greater, nothing after is smaller. *)
Lemma take_first_split (p : A → Z) l x rest :
  take_first p l = Some (x, rest) →
  ∃ before after, l = before ++ x :: after ∧ rest = before ++ after
    ∧ Forall (λ y, p x < p y)%Z before ∧ Forall (λ y, p x ≤ p y)%Z after.
Proof.
  revert x rest. induction l as [|y l IH]; simpl; intros x rest; [done|].
  destruct (take_first p l) as [[z rest']|] eqn:E.
  - destruct (IH _ _ eq_refl) as (b & a & -> & -> & Hb & Ha).
    destruct (Z.leb_spec (p y) (p z)); intros [= <- <-].
    + exists [], (b ++ z :: a). split_and!; [done..|constructor|].
      rewrite Forall_app, Forall_cons. split_and!; [..|lia|];
        (eapply Forall_impl; [eassumption|]); simpl; lia.
    + exists (y :: b), a. split_and!; [done..|by constructor|done].
  - apply take_first_None in E as ->. intros [= <- <-]. exists [], []. by split_and!.
Qed.
End TakeFirstFacts.

(** ** The runner refines the specification *)

Lemma filter_of_fmap {A B} (f : A → B) (P : B → Prop) `{∀ x, Decision (P x)} (l : list A) :
  filter P (f <$> l) = f <$> filter (λ x, P (f x)) l.
Proof.
  induction l as [|x l IH]; [done|]. rewrite fmap_cons, !filter_cons, IH.
  by destruct (decide (P (f x))).
Qed.

Lemma StronglySorted_of_filter {A} (R : A → A → Prop) (P : A → Prop) `{∀ x, Decision (P x)} l :
  StronglySorted R l → StronglySorted R (filter P l).
Proof.
  induction 1 as [|x l HS IH HF]; [constructor|]. rewrite filter_cons.
  destruct (decide (P x)); [|done]. constructor; [done|].
  rewrite Forall_forall in *. intros y [_ Hy]%list_elem_of_filter. auto.
Qed.

Section Refinement.
Context `{Semaphore} `{CancellationTokens} {Uuid K : Type} `{Countable Uuid} `{EqDecision K}.
Implicit Types (r : PriorityRunner Uuid K) (s : RunnerSpec Uuid K) (l : list (Entry Uuid K)).

Definition entry_job (e : Entry Uuid K) : Job Uuid K :=
  {| j_id := job_id e; j_priority := priority e; j_kind := kind e |}.

(** The heap holds the queue's jobs, numbered upwards in submission order. *)
Record refines r s : Prop := {
  ref_free : available_permits (permits r) = free s;
  ref_queue : ∃ l, pending r ≡ₚ l ∧ queue s = entry_job <$> l
    ∧ StronglySorted (λ x y, seq x < seq y)%N l ∧ Forall (λ e, seq e ≤ last_seq r)%N l;
  ref_active : active s = snd <$> running r
}.

(** On numbered entries the greatest for the heap's order is the first of the
    least priority. *)
Lemma pop_is_take_first r l e h' :
  pending r ≡ₚ l → StronglySorted (λ x y, seq x < seq y)%N l →
  heap_pop (pending r) = Some (e, h') →
  ∃ rest, take_first priority l = Some (e, rest) ∧ h' ≡ₚ rest.
Proof.
  intros HP Hs Hpop. apply heap_pop_Some in Hpop as [He Hmax].
  destruct (take_first priority l) as [[x rest]|] eqn:E.
  2:{ apply take_first_None in E as ->. rewrite HP in He. by apply Permutation_nil_cons in He. }
  destruct (take_first_split _ _ _ _ E) as (b & a & -> & -> & Hb & Ha).
  assert (x ∈ e :: h') as Hx by (rewrite <- He, HP; set_solver).
  enough (e = x) as <-.
  { exists (b ++ a). split; [done|]. rewrite HP, <- Permutation_middle in He.
    by apply Permutation_cons_inv in He. }
  apply elem_of_cons in Hx as [->|Hx]; [done|].
  rewrite Forall_forall in Hmax. specialize (Hmax _ Hx). apply Entry_cmp_not_Gt in Hmax.
  assert (e ∈ b ++ x :: a) as Hin by (rewrite <- HP, He; set_solver).
  rewrite Forall_forall in Hb, Ha. apply elem_of_app in Hin as [Hin|Hin%elem_of_cons].
  { specialize (Hb _ Hin). lia. }
  destruct Hin as [->|Hin]; [done|]. specialize (Ha _ Hin).
  apply StronglySorted_app in Hs as (_ & _ & Hs). inversion Hs as [|? ? ? HF]; subst.
  rewrite Forall_forall in HF. specialize (HF _ Hin). simpl in *. lia.
Qed.
Lemma refines_new n ts :
  refines (runner_new (semaphore_new n) ts) {| free := n; queue := []; active := ∅ |}.
Proof.
  split; simpl.
  - apply available_new.
  - exists []. split_and!; constructor.
  - by rewrite fmap_empty.
Qed.

Lemma refines_submit r s id p k :
  (last_seq r < u64_max)%N → refines r s → refines (submit r id p k) (spec_submit s id p k).
Proof.
  intros Hlt [Hf (l & HP & HQ & Hs & Hb) Ha]. split; simpl; [done| |done].
  assert (u64_wrapping_add (last_seq r) 1 = last_seq r + 1)%N as ->.
  { apply N.mod_small. unfold u64_max in Hlt. lia. }
  eexists (l ++ [_]). split_and!.
  - unfold heap_push. by rewrite HP, <- Permutation_cons_append.
  - rewrite fmap_app, HQ. done.
  - apply StronglySorted_app. rewrite Forall_forall in Hb. split_and!; [|done|by repeat constructor].
    intros x y Hx ->%list_elem_of_singleton. simpl. specialize (Hb _ Hx). lia.
  - rewrite Forall_app, Forall_singleton. split; [|simpl; lia].
    eapply Forall_impl; [exact Hb|]. simpl. lia.
Qed.

Lemma refines_dispatch r s :
  refines r s →
  (λ d, (d_job_id d, d_kind d)) <$> (try_dispatch r).1 = (spec_dispatch s).1
  ∧ refines (try_dispatch r).2 (spec_dispatch s).2.
Proof.
  intros [Hf (l & HP & HQ & Hs & Hb) Ha]. unfold try_dispatch, spec_dispatch.
  destruct (try_acquire_owned (permits r)) as [permits'|] eqn:Eacq.
  2:{ apply acquire_None in Eacq. rewrite <- Hf, Eacq. by split; [|split; eauto]. }
  apply acquire_Some in Eacq. rewrite <- Hf, Eacq, HQ, take_first_fmap.
  change (j_priority ∘ entry_job) with (priority (Uuid:=Uuid) (K:=K)).
  destruct (heap_pop (pending r)) as [[e h']|] eqn:Epop.
  - destruct (pop_is_take_first _ _ _ _ HP Hs Epop) as (rest & Htake & HP').
    rewrite Htake. simpl. destruct (token_new (flags r)) as [t flags'] eqn:Et. simpl.
    split; [done|]. destruct (take_first_split _ _ _ _ Htake) as (b & a & -> & -> & _).
    split; simpl; [done| |].
    + exists (b ++ a). split_and!; [done|done| |].
      * apply StronglySorted_app in Hs as (? & ? & [? ?]%StronglySorted_cons).
        apply StronglySorted_app. set_solver.
      * rewrite Forall_app, Forall_cons in Hb. rewrite Forall_app. naive_solver.
    + by rewrite fmap_insert, Ha.
  - apply heap_pop_None in Epop. rewrite Epop in HP. apply Permutation_nil_l in HP as <-.
    split; [done|]. split; simpl; [by rewrite available_drop, <- Hf, Eacq| |done].
    exists []. rewrite Epop. split_and!; [done|done|constructor|constructor].
Qed.

Lemma push_back_others_spec id l :
  push_back_others id l
  = (bool_decide (Exists (λ e, job_id e = id) l), reverse (filter (λ e, job_id e ≠ id) l)).
Proof.
  unfold push_back_others.
  enough (∀ found h, List.fold_left
      (λ '(found, h) entry,
         if decide (job_id entry = id) then (true, h) else (found, heap_push h entry))
      l (found, h)
    = (found || bool_decide (Exists (λ e, job_id e = id) l),
       reverse (filter (λ e, job_id e ≠ id) l) ++ h)) as -> by by rewrite app_nil_r.
  induction l as [|x l IH]; intros found h; simpl; [by rewrite orb_false_r|].
  rewrite filter_cons. destruct (decide (job_id x = id)) as [Hx|Hx].
  - rewrite IH, decide_False by naive_solver. f_equal. rewrite orb_true_l. symmetry.
    apply orb_true_iff. right. apply bool_decide_eq_true. by left.
  - rewrite IH, decide_True by done. rewrite reverse_cons, <- (assoc_L (++)). f_equal. f_equal.
    apply bool_decide_ext. rewrite Exists_cons. naive_solver.
Qed.

Lemma refines_cancel r s id :
  refines r s →
  (cancel r id).1 = (spec_cancel s id).1 ∧ refines (cancel r id).2 (spec_cancel s id).2.
Proof.
  intros [Hf (l & HP & HQ & Hs & Hb) Ha]. unfold cancel, spec_cancel.
  rewrite Ha, lookup_fmap. destruct (running r !! id) as [[t k]|] eqn:E; simpl.
  - split; [done|]. split; simpl; [done|by eauto|by rewrite fmap_delete].
  - rewrite push_back_others_spec. simpl. split.
    + assert (Exists (λ e, job_id e = id) (pending r) ↔ Exists (λ j, j_id j = id) (queue s)) as HE
        by (rewrite HP, HQ, Exists_fmap; done).
      case_bool_decide; case_decide; tauto.
    + split; simpl; [done| |done]. exists (filter (λ e, job_id e ≠ id) l). split_and!.
      * by rewrite reverse_Permutation, HP.
      * rewrite HQ, filter_of_fmap. done.
      * by apply StronglySorted_of_filter.
      * rewrite Forall_forall in *. intros x [_ Hx]%list_elem_of_filter. auto.
Qed.

Lemma refines_finish r s id : refines r s → refines (finish r id) (spec_finish s id).
Proof.
  intros [Hf HQ Ha]. split; simpl; [done|done|by rewrite fmap_delete, Ha].
Qed.

Lemma refines_release r s : refines r s → refines (runner_release r) (spec_release s).
Proof. intros [Hf HQ Ha]. split; simpl; [by rewrite available_drop, Hf|done..]. Qed.

(** ** Runs *)

(** The calls of a client, the drop of a permit among them, and their replies. *)
Inductive Call :=
| CSubmit (id : Uuid) (p : Z) (k : K)
| CTryDispatch
| CCancel (id : Uuid)
| CFinish (id : Uuid)
| CDropPermit.

Inductive Reply :=
| RDone
| RDispatched (job : option (Uuid * K))
| RCancelled (outcome : CancelOutcome).

Definition runner_call r (c : Call) : Reply * PriorityRunner Uuid K :=
  match c with
  | CSubmit id p k => (RDone, submit r id p k)
  | CTryDispatch => (RDispatched ((λ d, (d_job_id d, d_kind d)) <$> (try_dispatch r).1), (try_dispatch r).2)
  | CCancel id => (RCancelled (cancel r id).1, (cancel r id).2)
  | CFinish id => (RDone, finish r id)
  | CDropPermit => (RDone, runner_release r)
  end.

Definition spec_call s (c : Call) : Reply * RunnerSpec Uuid K :=
  match c with
  | CSubmit id p k => (RDone, spec_submit s id p k)
  | CTryDispatch => (RDispatched (spec_dispatch s).1, (spec_dispatch s).2)
  | CCancel id => (RCancelled (spec_cancel s id).1, (spec_cancel s id).2)
  | CFinish id => (RDone, spec_finish s id)
  | CDropPermit => (RDone, spec_release s)
  end.

Fixpoint replies {S} (call : S → Call → Reply * S) (s : S) (cs : list Call) : list Reply :=
  match cs with
  | [] => []
  | c :: cs => (call s c).1 :: replies call (call s c).2 cs
  end.

Definition runner_after r (cs : list Call) : PriorityRunner Uuid K :=
  List.fold_left (λ r c, (runner_call r c).2) cs r.

Lemma last_seq_step r c :
  (last_seq r < u64_max)%N → (last_seq (runner_call r c).2 ≤ last_seq r + 1)%N.
Proof.
  intros Hlt. destruct c; simpl; try lia.
  - unfold u64_wrapping_add. rewrite N.mod_small; [lia|]. unfold u64_max in Hlt. lia.
  - unfold try_dispatch. destruct (try_acquire_owned _); simpl; [|lia].
    destruct (heap_pop _) as [[e h]|]; simpl; [|lia]. destruct (token_new _). simpl. lia.
  - unfold cancel. destruct (running r !! _) as [[]|]; simpl; [lia|].
    destruct (push_back_others _ _). simpl. lia.
Qed.

Lemma refines_call r s c :
  (last_seq r < u64_max)%N → refines r s →
  (runner_call r c).1 = (spec_call s c).1 ∧ refines (runner_call r c).2 (spec_call s c).2.
Proof.
  intros Hlt HR. destruct c; simpl.
  - split; [done|]. by apply refines_submit.
  - destruct (refines_dispatch _ _ HR) as [-> ?]. done.
  - destruct (refines_cancel _ _ id HR) as [-> ?]. done.
  - split; [done|]. by apply refines_finish.
  - split; [done|]. by apply refines_release.
Qed.

Lemma refines_replies r s cs :
  (last_seq r + vec_len cs ≤ u64_max)%N → refines r s →
  replies runner_call r cs = replies spec_call s cs.
Proof.
  revert r s. induction cs as [|c cs IH]; intros r s Hlen HR; [done|].
  cbn [replies]. unfold vec_len in *. simpl in Hlen.
  destruct (refines_call r s c) as [-> HR']; [lia|done|]. f_equal. apply IH; [|done].
  pose proof (last_seq_step r c). lia.
Qed.

(** C29: the runner, with its heap of numbered entries, semaphore and running
    map, answers every sequence of fewer than 2^64 calls as the specification
    does: a dispatch takes the oldest job of the least priority while a worker
    is free, a cancellation removes a job from the queue or from the running
    ones. *)
Theorem runner_is_a_stable_priority_queue (n : nat) (ts : tokens) (cs : list Call) :
  (vec_len cs ≤ u64_max)%N →
  replies runner_call (runner_new (semaphore_new n) ts) cs
  = replies spec_call {| free := n; queue := []; active := ∅ |} cs.
Proof. intros Hlen. apply refines_replies; [done|]. apply refines_new. Qed.

(** ** Tokens *)

(** Running jobs have tokens of their own, none of them cancelled. *)
Definition tokens_ok r : Prop :=
  (∀ i t k, running r !! i = Some (t, k) → allocated (flags r) t ∧ is_cancelled (flags r) t = false)
  ∧ (∀ i j t k k', running r !! i = Some (t, k) → running r !! j = Some (t, k') → i = j).

Lemma tokens_ok_dispatch r : tokens_ok r → tokens_ok (try_dispatch r).2.
Proof.
  intros [Hal Hinj]. unfold try_dispatch. destruct (try_acquire_owned _); [|done].
  destruct (heap_pop _) as [[e h]|]; [|done].
  destruct (token_new (flags r)) as [t ts] eqn:Et. simpl.
  pose proof (new_fresh (flags r)) as Hfresh. pose proof (new_not_cancelled (flags r)) as Hnew.
  pose proof (new_allocated (flags r)) as Halloc. pose proof (new_keeps (flags r)) as Hkeep.
  rewrite Et in *. simpl in *. split; simpl.
  - intros i u k [[<- [= <- <-]]|[_ Hi]]%lookup_insert_Some; [by rewrite Halloc; auto|].
    destruct (Hal _ _ _ Hi). rewrite Halloc, Hkeep; auto.
  - intros i j u k k' [[<- [= <- <-]]|[? Hi]]%lookup_insert_Some [[<- ?]|[? Hj]]%lookup_insert_Some;
      [done|..]; simplify_eq.
    + by destruct (Hal _ _ _ Hj).
    + by destruct (Hal _ _ _ Hi).
    + by eapply Hinj.
Qed.

Lemma tokens_ok_finish r id : tokens_ok r → tokens_ok (finish r id).
Proof.
  intros [Hal Hinj]. split; simpl.
  - intros i t k [_ Hi]%lookup_delete_Some. by eapply Hal.
  - intros i j t k k' [_ Hi]%lookup_delete_Some [_ Hj]%lookup_delete_Some. by eapply Hinj.
Qed.

(** A cancelled flag is that of the job removed. *)
Lemma cancel_flags r id t k u :
  tokens_ok r → running r !! id = Some (t, k) →
  is_cancelled (flags (cancel r id).2) u = true ↔ u = t ∨ is_cancelled (flags r) u = true.
Proof.
  intros [Hal _] Hid. unfold cancel. rewrite Hid. simpl. apply cancel_cancels. by eapply Hal.
Qed.

Lemma tokens_ok_cancel r id : tokens_ok r → tokens_ok (cancel r id).2.
Proof.
  intros Hok. unfold cancel. destruct (running r !! id) as [[t k]|] eqn:E; simpl.
  2:{ by destruct (push_back_others id (pending r)). }
  destruct Hok as [Hal Hinj]. split; simpl.
  - intros i u k' [Hne Hi]%lookup_delete_Some. destruct (Hal _ _ _ Hi) as [Hu Hc].
    split; [by apply cancel_allocated|]. apply not_true_iff_false.
    rewrite cancel_cancels by (by eapply Hal). rewrite Hc. intros [->|?]; [|done].
    by destruct Hne; eapply Hinj.
  - intros i j u k1 k2 [_ Hi]%lookup_delete_Some [_ Hj]%lookup_delete_Some. by eapply Hinj.
Qed.

Lemma tokens_ok_call r c : tokens_ok r → tokens_ok (runner_call r c).2.
Proof.
  destruct c; simpl; eauto using tokens_ok_dispatch, tokens_ok_cancel, tokens_ok_finish.
Qed.

Lemma tokens_ok_after r cs : tokens_ok r → tokens_ok (runner_after r cs).
Proof.
  revert r. induction cs as [|c cs IH]; intros r Hok; [done|]. apply IH. by apply tokens_ok_call.
Qed.

(** Whatever calls were made before, no running job's token is cancelled;
    cancelling a running job signals its token, takes it out of the map, and
    signals no other job's token. *)
Theorem cancel_signals_exactly_the_job (sem : semaphore) (ts : tokens) (cs : list Call) id t k :
  running (runner_after (runner_new sem ts) cs) !! id = Some (t, k) →
  let r := runner_after (runner_new sem ts) cs in
  let r' := (cancel r id).2 in
  is_cancelled (flags r) t = false
  ∧ (cancel r id).1 = SignalledRunning
  ∧ is_cancelled (flags r') t = true
  ∧ running r' = delete id (running r)
  ∧ ∀ i u k', running r' !! i = Some (u, k') → is_cancelled (flags r') u = false.
Proof.
  intros Hid r r'. assert (tokens_ok r) as Hok by (apply tokens_ok_after; by split).
  assert (tokens_ok r') as Hok' by by apply tokens_ok_cancel. split_and!.
  - by eapply Hok.
  - unfold cancel, r. by rewrite Hid.
  - by eapply cancel_flags; eauto.
  - unfold r', cancel, r. by rewrite Hid.
  - intros i u k' Hi. by eapply Hok'.
Qed.
End Refinement.

(** ** Witnesses *)

Definition no_tokens : @tokens flag_tokens := ([] : list bool).

(** Two workers; jobs 1, 2 and 3 with priorities 5, 1 and 5. *)
Definition example_calls : list (Call (Uuid:=N) (K:=N)) :=
  [CSubmit 1%N 5 0%N; CSubmit 2%N 1 0%N; CSubmit 3%N 5 0%N; CTryDispatch; CTryDispatch; CTryDispatch;
   CCancel 3%N; CCancel 3%N; CCancel 2%N; CFinish 1%N; CDropPermit; CTryDispatch].

Lemma runner_is_a_stable_priority_queue_witness :
  replies runner_call (runner_new (semaphore_new 2) no_tokens) example_calls
  = [RDone; RDone; RDone; RDispatched (Some (2%N, 0%N)); RDispatched (Some (1%N, 0%N));
     RDispatched None; RCancelled RemovedFromQueue; RCancelled NotFound;
     RCancelled SignalledRunning; RDone; RDone; RDispatched None].
Proof.
  rewrite runner_is_a_stable_priority_queue; [vm_compute; reflexivity|].
  vm_compute. discriminate.
Defined.

Lemma cancel_signals_exactly_the_job_witness :
  let r := runner_after (runner_new (semaphore_new 2) no_tokens) (take 5 example_calls) in
  running r !! 1%N = Some (1, 0%N) ∧ (cancel r 1%N).1 = SignalledRunning
  ∧ is_cancelled (flags (cancel r 1%N).2) 1 = true.
Proof.
  split; [vm_compute; reflexivity|].
  destruct (cancel_signals_exactly_the_job (semaphore_new 2) no_tokens (take 5 example_calls)
    1%N 1 0%N) as (_ & ? & ? & _); [vm_compute; reflexivity|done].
Defined.
