(* ===== verification/JobQueue.v ===== *)
(** The job-queue actor: [queryfabric-job-queue/src/] (actor.rs, error.rs,
    schema.rs, storage.rs, traits.rs, observer.rs, the responses of router.rs).

    An actor takes messages one at a time; every dispatched job runs in a task
    of its own, which shares the runner's map and semaphore with the actor and
    tells it to dispatch again when it is done.  The handlers and the task are
    translated here; the interleavings of actor and tasks are the relation
    [step].  The storage, the executor and the result store are the traits of
    the source: operations on an abstract [World] that they share. *)
From stdpp Require Import relations.
From S2P Require Import Prelude JobRunner.

(** ** Errors and schema *)

Inductive QueueErrorKind :=
| KNotFound | KForbidden | KNotCancellable | KNotReady | KInvalidRequest | KResultMissing
| KStorage | KExecution | KUnavailable | KInternal.

Record JobQueueError := { error_kind : QueueErrorKind; error_message : string }.

Definition JobQueueError_new (k : QueueErrorKind) (m : string) : JobQueueError :=
  {| error_kind := k; error_message := m |}.

Definition not_found (show_uuid : string) : JobQueueError :=
  JobQueueError_new KNotFound ("job not found: " +:+ show_uuid).

Definition internal (m : string) : JobQueueError := JobQueueError_new KInternal m.

(** [IntoResponse for JobQueueError]: the HTTP status. *)
Definition error_status (e : JobQueueError) : N :=
  match error_kind e with
  | KNotFound | KResultMissing => 404
  | KForbidden => 403
  | KNotCancellable | KNotReady => 409
  | KInvalidRequest => 400
  | KUnavailable => 503
  | KStorage | KExecution | KInternal => 500
  end.

Inductive JobStatus := Pending | Running | Completed | Failed | Cancelled.

#[export] Instance JobStatus_eq_dec : EqDecision JobStatus.
Proof. solve_decision. Defined.

Record JobRecord (Uuid K P U DateTime : Type) := MkJobRecord {
  jr_id : Uuid;
  jr_user_id : U;
  jr_status : JobStatus;
  jr_priority : Z;
  jr_kind : K;
  jr_payload : P;
  jr_result_path : option string;
  jr_row_count : option Z;
  jr_byte_count : option Z;
  jr_error : option string;
  jr_created_at : DateTime;
  jr_started_at : option DateTime;
  jr_completed_at : option DateTime;
  jr_expires_at : option DateTime
}.
Arguments jr_kind {Uuid K P U DateTime}.

Record JobExecutionResult := {
  x_status : JobStatus;
  x_result_path : option string;
  x_row_count : option Z;
  x_byte_count : option Z;
  x_error : option string
}.

Definition execution_completed (path : option string) (rows bytes : option Z) : JobExecutionResult :=
  {| x_status := Completed; x_result_path := path; x_row_count := rows; x_byte_count := bytes;
     x_error := None |}.

Definition execution_failed (error : string) : JobExecutionResult :=
  {| x_status := Failed; x_result_path := None; x_row_count := None; x_byte_count := None;
     x_error := Some error |}.

Record ExpiredJob (Uuid : Type) := MkExpiredJob { ex_job_id : Uuid; ex_result_path : option string }.
Arguments ex_job_id {Uuid}. Arguments ex_result_path {Uuid}. Arguments MkExpiredJob {Uuid}.

(** [i64 as u64]. *)
Definition i64_as_u64 (z : Z) : N := Z.to_N (z mod 2 ^ 64).

(** ** The traits *)
Section Traits.
Context `{CancellationTokens} (Uuid K P U DateTime World : Type).

(** A fallible method on the shared world. *)
Definition io (A : Type) : Type := state World (result A JobQueueError).

Class JobStorage := {
  load_job : Uuid → io (option (JobRecord Uuid K P U DateTime));
  mark_running : Uuid → io unit;
  complete_job : Uuid → JobExecutionResult → io unit;
  fail_job : Uuid → string → io unit;
  cancel_job : Uuid → io unit;
  pending_jobs : io (list (Uuid * Z * K));
  mark_stale_running_failed : string → io nat;
  expired_jobs : io (list (ExpiredJob Uuid));
  delete_job : Uuid → io unit
}.

Class ResultStore := { result_delete : string → io unit }.

(** The executor sees the flags of the cancellation tokens. *)
Class JobExecutor := {
  execute : JobRecord Uuid K P U DateTime → CancellationToken → tokens → io JobExecutionResult
}.
End Traits.
Arguments io World A : clear implicits.
Arguments load_job {Uuid K P U DateTime World _}. Arguments mark_running {Uuid K P U DateTime World _}.
Arguments complete_job {Uuid K P U DateTime World _}. Arguments fail_job {Uuid K P U DateTime World _}.
Arguments cancel_job {Uuid K P U DateTime World _}. Arguments pending_jobs {Uuid K P U DateTime World _}.
Arguments mark_stale_running_failed {Uuid K P U DateTime World _}.
Arguments expired_jobs {Uuid K P U DateTime World _}. Arguments delete_job {Uuid K P U DateTime World _}.
Arguments result_delete {World _}. Arguments execute {_ Uuid K P U DateTime World _}.

(** The callbacks of [JobQueueObserver]; durations are not modelled. *)
Inductive ObserverCall (K : Type) :=
| OEvent (kind : K) (status : JobStatus)
| OQueueState (kind : K) (pending running : nat)
| OEnqueued (kind : K) (priority : Z)
| ODuration (kind : K) (status : JobStatus)
| OResultBytes (kind : K) (status : JobStatus) (bytes : N).
Arguments OEvent {K}. Arguments OQueueState {K}. Arguments OEnqueued {K}.
Arguments ODuration {K}. Arguments OResultBytes {K}.

(** ** Messages and tasks *)

Inductive QueueMessage (Uuid K : Type) :=
| SubmitJob (job_id : Uuid) (priority : Z) (job_kind : K)
| DispatchNext
| CancelJob (job_id : Uuid)
| CleanupExpired.
Arguments SubmitJob {Uuid K}. Arguments DispatchNext {Uuid K}. Arguments CancelJob {Uuid K}.
Arguments CleanupExpired {Uuid K}.

(** Where a task is: before each of the calls it awaits. *)
Inductive WorkerPc (Uuid K P U DateTime : Type) :=
| AtMarkRunning
| AtLoad
| AtExecute (job : JobRecord Uuid K P U DateTime)
| AtComplete (execution : JobExecutionResult)
| AtFinish (result : result unit JobQueueError)
| AtReport (result : result unit JobQueueError)
| AtTell
| AtDrop.
Arguments AtMarkRunning {Uuid K P U DateTime}. Arguments AtLoad {Uuid K P U DateTime}.
Arguments AtExecute {Uuid K P U DateTime}. Arguments AtComplete {Uuid K P U DateTime}.
Arguments AtFinish {Uuid K P U DateTime}. Arguments AtReport {Uuid K P U DateTime}.
Arguments AtTell {Uuid K P U DateTime}. Arguments AtDrop {Uuid K P U DateTime}.

(** The actor is between two messages or in the middle of a cancellation. *)
Inductive ActorPc (Uuid : Type) := Idle | Cancelling (job_id : Uuid).
Arguments Idle {Uuid}. Arguments Cancelling {Uuid}.

(** ** The actor *)
Section Actor.
Context `{Semaphore} `{CancellationTokens} {Uuid K P U DateTime World : Type}
  `{Countable Uuid} `{EqDecision K}
  `{!JobStorage Uuid K P U DateTime World} `{!ResultStore World}
  `{!JobExecutor Uuid K P U DateTime World}
  (show_uuid : Uuid → string).

Record Worker := {
  w_job_id : Uuid;
  w_kind : K;
  w_cancel : CancellationToken;
  w_pc : WorkerPc Uuid K P U DateTime
}.

(** The actor, its mailbox, the live tasks and the world.  [observed] and
    [replied] log the observer's calls and the replies to cancellations. *)
Record Queue := {
  runner : PriorityRunner Uuid K;
  mailbox : list (QueueMessage Uuid K);
  actor_pc : ActorPc Uuid;
  workers : list Worker;
  world : World;
  observed : list (ObserverCall K);
  replied : list (Uuid * result unit JobQueueError)
}.

Definition set_runner (r : PriorityRunner Uuid K) (q : Queue) : Queue :=
  {| runner := r; mailbox := mailbox q; actor_pc := actor_pc q; workers := workers q;
     world := world q; observed := observed q; replied := replied q |}.
Definition set_mailbox (m : list (QueueMessage Uuid K)) (q : Queue) : Queue :=
  {| runner := runner q; mailbox := m; actor_pc := actor_pc q; workers := workers q;
     world := world q; observed := observed q; replied := replied q |}.
Definition set_pc (pc : ActorPc Uuid) (q : Queue) : Queue :=
  {| runner := runner q; mailbox := mailbox q; actor_pc := pc; workers := workers q;
     world := world q; observed := observed q; replied := replied q |}.
Definition set_workers (ws : list Worker) (q : Queue) : Queue :=
  {| runner := runner q; mailbox := mailbox q; actor_pc := actor_pc q; workers := ws;
     world := world q; observed := observed q; replied := replied q |}.
Definition set_world (w : World) (q : Queue) : Queue :=
  {| runner := runner q; mailbox := mailbox q; actor_pc := actor_pc q; workers := workers q;
     world := w; observed := observed q; replied := replied q |}.
Definition observe (c : ObserverCall K) (q : Queue) : Queue :=
  {| runner := runner q; mailbox := mailbox q; actor_pc := actor_pc q; workers := workers q;
     world := world q; observed := observed q ++ [c]; replied := replied q |}.
Definition reply (id : Uuid) (r : result unit JobQueueError) (q : Queue) : Queue :=
  {| runner := runner q; mailbox := mailbox q; actor_pc := actor_pc q; workers := workers q;
     world := world q; observed := observed q; replied := replied q ++ [(id, r)] |}.

(** [tell]: messages are received in the order they were sent. *)
Definition tell (m : QueueMessage Uuid K) (q : Queue) : Queue := set_mailbox (mailbox q ++ [m]) q.

Definition refresh_job_state_metrics (k : K) (q : Queue) : Queue :=
  observe (OQueueState k (pending_count (runner q) k) (running_count (runner q) k)) q.

(** [on_start]: stale jobs are failed, pending ones are sent to the actor
    itself; a failure of either is only logged. *)
Definition on_start (sem : semaphore) (ts : tokens) (restart_error : string) (w : World) : Queue :=
  let '(_, w) := mark_stale_running_failed restart_error w in
  let '(recovered, w) := pending_jobs w in
  {| runner := runner_new sem ts;
     mailbox :=
       match recovered with
       | Ok jobs => (λ '(id, p, k), SubmitJob id p k) <$> jobs
       | Err _ => []
       end;
     actor_pc := Idle; workers := []; world := w; observed := []; replied := [] |}.

(** [Message<SubmitJob>::handle]. *)
Definition handle_submit (id : Uuid) (p : Z) (k : K) (q : Queue) : Queue :=
  let q := observe (OEnqueued k p) q in
  let q := set_runner (submit (runner q) id p k) q in
  let q := refresh_job_state_metrics k q in
  tell DispatchNext q.

(** [Message<DispatchNext>::handle], up to the spawned task. *)
Definition handle_dispatch_next (q : Queue) : Queue :=
  let '(dispatched, r) := try_dispatch (runner q) in
  let q := set_runner r q in
  match dispatched with
  | None => q
  | Some d =>
      let q := refresh_job_state_metrics (d_kind d) q in
      set_workers (workers q ++ [{| w_job_id := d_job_id d; w_kind := d_kind d;
                                    w_cancel := d_cancel d; w_pc := AtMarkRunning |}]) q
  end.

(** [Message<CancelJob>::handle]: the runner's part, and what follows the first
    [await]. *)
Definition handle_cancel (id : Uuid) (q : Queue) : Queue :=
  let '(_, r) := cancel (runner q) id in
  set_pc (Cancelling id) (set_runner r q).

Definition handle_cancel_storage (id : Uuid) (q : Queue) : Queue :=
  let q := set_pc Idle q in
  let '(loaded, w) := load_job id (world q) in
  let q := set_world w q in
  match loaded with
  | Err e => reply id (Err e) q
  | Ok job =>
      let kind_for_metrics := jr_kind <$> job in
      let '(cancelled, w) := cancel_job id (world q) in
      let q := set_world w q in
      match cancelled with
      | Err e => reply id (Err e) q
      | Ok _ =>
          let q :=
            match kind_for_metrics with
            | Some k => refresh_job_state_metrics k (observe (OEvent k Cancelled) q)
            | None => q
            end in
          reply id (Ok tt) q
      end
  end.

(** [Message<CleanupExpired>::handle]: the result object first, then the row,
    whether or not the object could be deleted. *)
Definition cleanup_job (w : World) (job : ExpiredJob Uuid) : World :=
  let w :=
    match ex_result_path job with
    | Some path => (result_delete path w).2
    | None => w
    end in
  (delete_job (ex_job_id job) w).2.

Definition handle_cleanup (q : Queue) : Queue :=
  let '(expired, w) := expired_jobs (world q) in
  match expired with
  | Err _ => set_world w q
  | Ok jobs => set_world (List.fold_left cleanup_job jobs w) q
  end.

Definition handle (m : QueueMessage Uuid K) (q : Queue) : Queue :=
  match m with
  | SubmitJob id p k => handle_submit id p k q
  | DispatchNext => handle_dispatch_next q
  | CancelJob id => handle_cancel id q
  | CleanupExpired => handle_cleanup q
  end.

(** ** The task of a job

    [run_worker w q] runs one task to its next await: the program counter it
    continues with, [None] when it ends, and the state it leaves. *)
Definition worker_result {A} (r : result A JobQueueError) (k : A → WorkerPc Uuid K P U DateTime)
    : WorkerPc Uuid K P U DateTime :=
  match r with Ok a => k a | Err e => AtFinish (Err e) end.

Definition run_worker (w : Worker) (q : Queue) : option (WorkerPc Uuid K P U DateTime) * Queue :=
  match w_pc w with
  | AtMarkRunning =>
      let '(r, wd) := mark_running (w_job_id w) (world q) in
      let q := set_world wd q in
      (Some (worker_result r (λ _, AtLoad)),
       match r with Ok _ => observe (OEvent (w_kind w) Running) q | Err _ => q end)
  | AtLoad =>
      let '(r, wd) := load_job (w_job_id w) (world q) in
      (Some (worker_result r (λ job,
         match job with
         | Some job => AtExecute job
         | None => AtFinish (Err (not_found (show_uuid (w_job_id w))))
         end)),
       set_world wd q)
  | AtExecute job =>
      let '(r, wd) := execute job (w_cancel w) (flags (runner q)) (world q) in
      (Some (worker_result r AtComplete), set_world wd q)
  | AtComplete x =>
      let '(r, wd) := complete_job (w_job_id w) x (world q) in
      let q := set_world wd q in
      match r with
      | Err e => (Some (AtFinish (Err e)), q)
      | Ok _ =>
          let q := observe (OEvent (w_kind w) (x_status x)) q in
          let q := observe (ODuration (w_kind w) (x_status x)) q in
          let q :=
            match x_byte_count x with
            | Some b => observe (OResultBytes (w_kind w) (x_status x) (i64_as_u64 b)) q
            | None => q
            end in
          (Some (AtFinish (Ok tt)), q)
      end
  | AtFinish r => (Some (AtReport r), set_runner (finish (runner q) (w_job_id w)) q)
  | AtReport (Ok _) => (Some AtTell, q)
  | AtReport (Err e) =>
      let '(_, wd) := fail_job (w_job_id w) (error_message e) (world q) in
      let q := set_world wd q in
      (Some AtTell, observe (ODuration (w_kind w) Failed) (observe (OEvent (w_kind w) Failed) q))
  | AtTell => (Some AtDrop, tell DispatchNext q)
  | AtDrop => (None, set_runner (runner_release (runner q)) q)
  end.

(** A task that panics, in a call of the storage, the executor or the observer,
    only drops what it holds: [spawn_traced] logs the panic. *)
Definition may_panic (pc : WorkerPc Uuid K P U DateTime) : bool :=
  match pc with
  | AtMarkRunning | AtLoad | AtExecute _ | AtComplete _ | AtReport (Err _) => true
  | _ => false
  end.

(** ** Interleavings *)

Definition set_worker_pc (w : Worker) (pc : WorkerPc Uuid K P U DateTime) : Worker :=
  {| w_job_id := w_job_id w; w_kind := w_kind w; w_cancel := w_cancel w; w_pc := pc |}.

Inductive step : Queue → Queue → Prop :=
| step_message q m ms :
    actor_pc q = Idle → mailbox q = m :: ms →
    step q (handle m (set_mailbox ms q))
| step_cancel q id :
    actor_pc q = Cancelling id → step q (handle_cancel_storage id q)
| step_worker q ws1 w ws2 pc q' :
    workers q = ws1 ++ w :: ws2 → run_worker w q = (Some pc, q') →
    step q (set_workers (ws1 ++ set_worker_pc w pc :: ws2) q')
| step_worker_end q ws1 w ws2 q' :
    workers q = ws1 ++ w :: ws2 → run_worker w q = (None, q') →
    step q (set_workers (ws1 ++ ws2) q').

Inductive panics : Queue → Queue → Prop :=
| worker_panics q ws1 w ws2 :
    workers q = ws1 ++ w :: ws2 → may_panic (w_pc w) = true →
    panics q (set_workers (ws1 ++ ws2) (set_runner (runner_release (runner q)) q)).

(** Clients and the cleanup timer send messages at any time. *)
Inductive external : Queue → Queue → Prop :=
| external_tell q m : external q (tell m q).

Definition any_step (q q' : Queue) : Prop := step q q' ∨ panics q q' ∨ external q q'.

(** Nothing left to do. *)
Definition quiescent (q : Queue) : Prop := mailbox q = [] ∧ actor_pc q = Idle ∧ workers q = [].
End Actor.
Arguments Worker : clear implicits. Arguments Worker {_} _ _ _ _ _.
Arguments Queue : clear implicits. Arguments Queue {_ _} _ _ _ _ _ _ {_ _}.

(** The job-queue actor: how many jobs run at once, that every run comes to
    rest, and when the queue is empty then. *)

Section ActorFacts.
Context `{Semaphore} `{CancellationTokens} {Uuid K P U DateTime World : Type}
  `{Countable Uuid} `{EqDecision K}
  `{!JobStorage Uuid K P U DateTime World} `{!ResultStore World}
  `{!JobExecutor Uuid K P U DateTime World}
  (show_uuid : Uuid → string).
Local Abbreviation Queue := (Queue Uuid K P U DateTime World).
Local Abbreviation Worker := (Worker Uuid K P U DateTime).
Local Abbreviation step := (step (P:=P) (U:=U) (DateTime:=DateTime) (World:=World) show_uuid).
Local Abbreviation run_worker := (run_worker show_uuid).
Implicit Types (q : Queue) (w : Worker) (r : PriorityRunner Uuid K).

(** ** What the parts of a step do to the runner *)

Definition available r : nat := available_permits (permits r).

Lemma try_dispatch_cases r d r' :
  try_dispatch r = (d, r') →
  match d with
  | Some d => available r = S (available r') ∧ length (pending r) = S (length (pending r'))
      ∧ running r' = <[d_job_id d := (d_cancel d, d_kind d)]> (running r)
  | None => available r' = available r ∧ pending r' = pending r ∧ running r' = running r
      ∧ (available r = 0 ∨ pending r = [])
  end.
Proof.
  unfold try_dispatch, available. destruct (try_acquire_owned (permits r)) as [s|] eqn:E.
  - apply acquire_Some in E. destruct (heap_pop (pending r)) as [[e h]|] eqn:Ep.
    + destruct (token_new (flags r)) as [t ts]. intros [= <- <-]. simpl.
      apply heap_pop_Some in Ep as [HP%Permutation_length _]. split_and!; [lia|done|done].
    + apply heap_pop_None in Ep. intros [= <- <-]. simpl. rewrite available_drop. auto.
  - apply acquire_None in E. intros [= <- <-]. auto.
Qed.

Lemma cancel_cases r id :
  let r' := (cancel r id).2 in
  available r' = available r ∧ length (pending r') ≤ length (pending r) ∧ running r' = delete id (running r).
Proof.
  unfold cancel, available. destruct (running r !! id) as [[t k]|] eqn:E; simpl; [auto|].
  rewrite push_back_others_spec. simpl.
  rewrite length_reverse, delete_id by done. auto using length_filter.
Qed.

(** ** Permits

    Every task holds one permit of the semaphore. *)

Definition permits_in_use q : nat := available (runner q) + length (workers q).

Lemma handle_permits m q : permits_in_use (handle m q) = permits_in_use q.
Proof.
  unfold permits_in_use. destruct m as [id p k| |id|]; simpl; [done|..].
  - unfold handle_dispatch_next. destruct (try_dispatch (runner q)) as [[d|] r'] eqn:E;
      apply try_dispatch_cases in E; simpl; rewrite ?length_app; simpl; lia.
  - unfold handle_cancel. pose proof (cancel_cases (runner q) id) as Hc.
    destruct (cancel (runner q) id) as [o r']. simpl in *. lia.
  - unfold handle_cleanup. by destruct (expired_jobs (world q)) as [[jobs|e] w].
Qed.

Lemma handle_cancel_storage_same id q :
  let q' := handle_cancel_storage id q in
  runner q' = runner q ∧ workers q' = workers q ∧ mailbox q' = mailbox q ∧ actor_pc q' = Idle.
Proof.
  unfold handle_cancel_storage. simpl. destruct (load_job id (world q)) as [[job|e] wd]; [|done].
  simpl. destruct (cancel_job id wd) as [[[]|e] wd']; [|done]. by destruct job.
Qed.

(** What a task's move does, besides the world and the observer. *)
Lemma run_worker_cases w q pc q' :
  run_worker w q = (pc, q') →
  workers q' = workers q ∧ actor_pc q' = actor_pc q
  ∧ runner q' = match w_pc w with
                | AtFinish _ => finish (runner q) (w_job_id w)
                | AtDrop => runner_release (runner q)
                | _ => runner q
                end
  ∧ mailbox q' = mailbox q ++ (if w_pc w is AtTell then [DispatchNext] else []).
Proof.
  unfold run_worker.
  destruct (w_pc w) as [| |job|x|r|[[]|e]| |].
  - destruct (mark_running _ _) as [[]]; intros [= <- <-]; simpl; by rewrite app_nil_r.
  - destruct (load_job _ _). intros [= <- <-]; simpl; by rewrite app_nil_r.
  - destruct (execute _ _ _ _). intros [= <- <-]; simpl; by rewrite app_nil_r.
  - destruct (complete_job _ _ _) as [[]]; [destruct (x_byte_count x)|];
      intros [= <- <-]; simpl; by rewrite app_nil_r.
  - intros [= <- <-]; simpl; by rewrite app_nil_r.
  - intros [= <- <-]; simpl; by rewrite app_nil_r.
  - destruct (fail_job _ _ _). intros [= <- <-]; simpl; by rewrite app_nil_r.
  - intros [= <- <-]; by simpl.
  - intros [= <- <-]; simpl; by rewrite app_nil_r.
Qed.

(** The order of a task's awaits. *)
Definition pc_rank (pc : WorkerPc Uuid K P U DateTime) : nat :=
  match pc with
  | AtMarkRunning => 9 | AtLoad => 8 | AtExecute _ => 7 | AtComplete _ => 6
  | AtFinish _ => 5 | AtReport _ => 4 | AtTell => 3 | AtDrop => 1
  end.

Lemma run_worker_pc w q pc q' :
  run_worker w q = (pc, q') →
  match pc with
  | None => w_pc w = AtDrop
  | Some pc => pc_rank pc < pc_rank (w_pc w) ∧ (w_pc w = AtTell ↔ pc = AtDrop)
      ∧ (w_pc w = AtTell → pc_rank pc + 2 = pc_rank (w_pc w))
      ∧ (pc_rank pc < 5 → pc_rank (w_pc w) ≤ 5)
  end.
Proof.
  unfold run_worker, worker_result.
  destruct (w_pc w) as [| |job|x|r|[[]|e]| |].
  - destruct (mark_running _ _) as [[]]; intros [= <- <-]; simpl; split_and!; naive_solver lia.
  - destruct (load_job _ _) as [[[]|]]; intros [= <- <-]; simpl; split_and!; naive_solver lia.
  - destruct (execute _ _ _ _) as [[]]; intros [= <- <-]; simpl; split_and!; naive_solver lia.
  - destruct (complete_job _ _ _) as [[]]; [destruct (x_byte_count x)|];
      intros [= <- <-]; simpl; split_and!; naive_solver lia.
  - intros [= <- <-]; simpl; split_and!; naive_solver lia.
  - intros [= <- <-]; simpl; split_and!; naive_solver lia.
  - destruct (fail_job _ _ _). intros [= <- <-]; simpl; split_and!; naive_solver lia.
  - intros [= <- <-]; simpl; split_and!; naive_solver lia.
  - by intros [= <- <-].
Qed.

Lemma pc_rank_pos (pc : WorkerPc Uuid K P U DateTime) : 0 < pc_rank pc.
Proof. destruct pc; simpl; lia. Qed.

Lemma step_permits q q' : step q q' → permits_in_use q' = permits_in_use q.
Proof.
  destruct 1 as [q m ms _ _|q id _|q ws1 w ws2 pc q' Hws Hrun|q ws1 w ws2 q' Hws Hrun].
  - by rewrite handle_permits.
  - destruct (handle_cancel_storage_same id q) as (Hr & Hw & _). unfold permits_in_use. by rewrite Hr, Hw.
  - pose proof (run_worker_pc _ _ _ _ Hrun) as (Hlt & _).
    destruct (run_worker_cases _ _ _ _ Hrun) as (_ & _ & Hr & _).
    unfold permits_in_use, available. simpl. rewrite Hr, Hws, !length_app. simpl.
    destruct (w_pc w); try done. pose proof (pc_rank_pos pc). simpl in Hlt. lia.
  - pose proof (run_worker_pc _ _ _ _ Hrun) as Hpc. simpl in Hpc.
    destruct (run_worker_cases _ _ _ _ Hrun) as (_ & _ & Hr & _).
    unfold permits_in_use, available. simpl. rewrite Hr, Hws, Hpc, !length_app. simpl.
    rewrite available_drop. lia.
Qed.

Lemma any_step_permits q q' : any_step show_uuid q q' → permits_in_use q' = permits_in_use q.
Proof.
  intros [Hs|[Hp|He]].
  - by apply step_permits.
  - destruct Hp as [q ws1 w ws2 Hws _]. unfold permits_in_use, available. simpl.
    rewrite Hws, available_drop, !length_app. simpl. lia.
  - by destruct He.
Qed.

(** C30: whatever messages arrive and whichever tasks panic, the free permits
    and the live tasks always add up to the capacity of the semaphore the actor
    was started with, so no more jobs than that run at once. *)
Theorem jobs_never_exceed_capacity (sem : semaphore) (ts : tokens) (restart_error : string)
    (wd : World) q :
  rtc (any_step show_uuid) (on_start sem ts restart_error wd) q →
  available_permits (permits (runner q)) + length (workers q) = available_permits sem.
Proof.
  intros Hsteps. change (permits_in_use q = available_permits sem).
  assert (permits_in_use (on_start sem ts restart_error wd) = available_permits sem) as <-.
  { unfold on_start, permits_in_use. destruct (mark_stale_running_failed _ _) as [? w1].
    destruct (pending_jobs w1) as [? w2]. simpl. unfold available. simpl. lia. }
  induction Hsteps as [|q0 q1 q2 Hs _ IH]; [done|]. rewrite IH. by apply any_step_permits.
Qed.

(** ** Every run comes to rest *)

Definition message_weight (m : QueueMessage Uuid K) : nat :=
  match m with SubmitJob _ _ _ => 40 | DispatchNext => 1 | CancelJob _ => 3 | CleanupExpired => 1 end.

Definition worker_weight w : nat := pc_rank (w_pc w).

Definition pc_weight (pc : ActorPc Uuid) : nat :=
  match pc with Idle => 0 | Cancelling _ => 1 end.

Definition work_left q : nat :=
  sum_list_with message_weight (mailbox q) + 20 * length (pending (runner q))
  + sum_list_with worker_weight (workers q) + pc_weight (actor_pc q).

Lemma handle_work m q :
  actor_pc q = Idle → work_left (handle m q) < message_weight m + work_left q.
Proof.
  intros Hpc. unfold work_left. destruct m as [id p k| |id|]; simpl.
  - rewrite sum_list_with_app, Hpc. simpl. lia.
  - unfold handle_dispatch_next. destruct (try_dispatch (runner q)) as [[d|] r'] eqn:E;
      apply try_dispatch_cases in E; simpl; rewrite Hpc.
    + rewrite sum_list_with_app. simpl. lia.
    + destruct E as (_ & -> & _). simpl. lia.
  - unfold handle_cancel. pose proof (cancel_cases (runner q) id) as Hc.
    destruct (cancel (runner q) id) as [o r']. simpl in *. rewrite Hpc. simpl. lia.
  - unfold handle_cleanup. destruct (expired_jobs (world q)) as [[jobs|e] wd]; simpl; rewrite Hpc; simpl; lia.
Qed.

Lemma step_work q q' : step q q' → work_left q' < work_left q.
Proof.
  destruct 1 as [q m ms Hpc Hms|q id Hpc|q ws1 w ws2 pc q' Hws Hrun|q ws1 w ws2 q' Hws Hrun].
  - pose proof (handle_work m (set_mailbox ms q) Hpc) as Hw.
    eapply Nat.lt_le_trans; [exact Hw|]. unfold work_left. rewrite Hms. simpl. lia.
  - destruct (handle_cancel_storage_same id q) as (Hr & Hw & Hm & Hi). unfold work_left.
    rewrite Hr, Hw, Hm, Hi, Hpc. simpl. lia.
  - pose proof (run_worker_pc _ _ _ _ Hrun) as (Hlt & _ & Htell & _).
    destruct (run_worker_cases _ _ _ _ Hrun) as (_ & Hap & Hr & Hm). unfold work_left. simpl.
    rewrite Hap, Hr, Hws, Hm, !sum_list_with_app. simpl.
    change (worker_weight (set_worker_pc w pc)) with (pc_rank pc).
    change (worker_weight w) with (pc_rank (w_pc w)).
    destruct (w_pc w); simpl in *; try lia. specialize (Htell eq_refl). lia.
  - pose proof (run_worker_pc _ _ _ _ Hrun) as Hpc. simpl in Hpc.
    destruct (run_worker_cases _ _ _ _ Hrun) as (_ & Hap & Hr & Hm). unfold work_left. simpl.
    rewrite Hap, Hr, Hws, Hm, Hpc, !sum_list_with_app. simpl.
    change (worker_weight w) with (pc_rank (w_pc w)). rewrite Hpc. simpl. lia.
Qed.

Lemma panic_work q q' : panics q q' → work_left q' < work_left q.
Proof.
  destruct 1 as [q ws1 w ws2 Hws _]. unfold work_left. simpl. rewrite Hws, !sum_list_with_app. simpl.
  change (worker_weight w) with (pc_rank (w_pc w)). pose proof (pc_rank_pos (w_pc w)). lia.
Qed.

Lemma step_progress q : quiescent q ∨ ∃ q', step q q'.
Proof.
  unfold quiescent. destruct (actor_pc q) as [|id] eqn:Hpc; [|right; eexists; by constructor].
  destruct (mailbox q) as [|m ms] eqn:Hm; [|right; eexists; by eapply step_message].
  destruct (workers q) as [|w ws] eqn:Hws; [by left|]. right.
  destruct (run_worker w q) as [[pc|] q'] eqn:Hrun; eexists.
  - by eapply (step_worker _ _ []).
  - by eapply (step_worker_end _ _ []).
Qed.

(** C31: without further messages the queue comes to rest: a run, whatever its
    interleaving and its panics, has no more steps than the work left counts,
    and unless the mailbox is empty and every task has ended there is a step to
    make. *)
Theorem every_run_comes_to_rest q :
  (∀ n q', nsteps (λ q q', step q q' ∨ panics q q') n q q' → n + work_left q' ≤ work_left q)
  ∧ (∃ q', rtc step q q' ∧ quiescent q')
  ∧ (quiescent q ↔ ¬ ∃ q', step q q').
Proof.
  split_and!.
  - intros n q'. induction 1 as [|n q0 q1 q2 Hs _ IH]; [done|].
    assert (work_left q1 < work_left q0) by (destruct Hs; [by apply step_work|by apply panic_work]).
    lia.
  - induction q as [q IH] using (induction_ltof1 _ work_left).
    destruct (step_progress q) as [Hq|(q1 & Hs)]; [by exists q|].
    destruct (IH q1) as (q2 & ? & ?); [by apply step_work|]. exists q2. split; [by eapply rtc_l|done].
  - split.
    + intros (Hm & Hpc & Hw) (q' & Hs).
      destruct Hs as [q m ms _ Hms|q id Hid|q ws1 w ws2 pc q' Hws|q ws1 w ws2 q' Hws]; [congruence..| |];
        rewrite Hw in Hws; by destruct ws1.
    + intros Hno. by destruct (step_progress q).
Qed.

#[local] Arguments Nat.min : simpl never.

(** ** When the queue is empty then

    A task tells the actor to dispatch again before it drops its permit.  In a
    run where the permit is dropped before the message is received, and no task
    panics, no job is left behind. *)

Definition at_drop q : nat :=
  sum_list_with (λ w, match w_pc w with AtDrop => 1 | _ => 0 end) (workers q).

Definition wakeups q : nat :=
  sum_list_with (λ m, match m with DispatchNext => 1 | _ => 0 end) (mailbox q).

(** A step that does not receive [DispatchNext] while a finished task still
    holds its permit. *)
Definition prompt_step q q' : Prop :=
  step q q' ∧ ∀ ms, mailbox q = DispatchNext :: ms → mailbox q' = ms → at_drop q = 0.

(** Enough wake-ups are under way for the jobs that could start. *)
Definition enough_wakeups q : Prop :=
  length (pending (runner q)) `min` (available (runner q) + at_drop q) ≤ wakeups q.

(** Every running job has a task that has not finished. *)
Definition running_have_tasks q : Prop :=
  ∀ id t k, running (runner q) !! id = Some (t, k) →
  ∃ w, w ∈ workers q ∧ w_job_id w = id ∧ 5 ≤ pc_rank (w_pc w).

Lemma handle_wakeups m ms q :
  mailbox q = m :: ms → (m = DispatchNext → at_drop q = 0) →
  enough_wakeups q → enough_wakeups (handle m (set_mailbox ms q)).
Proof.
  unfold enough_wakeups, wakeups, at_drop. intros Hm Hdrop. rewrite Hm. intros He.
  destruct m as [id p k| |id|]; simpl in *.
  - rewrite sum_list_with_app. simpl.
    change (available (submit (runner q) id p k)) with (available (runner q)). lia.
  - unfold handle_dispatch_next. simpl. specialize (Hdrop eq_refl).
    destruct (try_dispatch (runner q)) as [[d|] r'] eqn:E; apply try_dispatch_cases in E; simpl in *.
    + rewrite sum_list_with_app. simpl. lia.
    + destruct E as (-> & -> & _ & [E|E]); rewrite E; simpl; lia.
  - unfold handle_cancel. simpl. pose proof (cancel_cases (runner q) id) as Hc.
    destruct (cancel (runner q) id) as [o r']. simpl in *. lia.
  - unfold handle_cleanup. simpl. destruct (expired_jobs (world q)) as [[jobs|e] wd]; simpl; lia.
Qed.

Lemma step_wakeups q q' : prompt_step q q' → enough_wakeups q → enough_wakeups q'.
Proof.
  intros [Hs Hprompt] He. revert Hprompt.
  destruct Hs as [q m ms Hpc Hms|q id Hpc|q ws1 w ws2 pc q' Hws Hrun|q ws1 w ws2 q' Hws Hrun]; intros Hprompt.
  - apply handle_wakeups; [done| |done]. intros ->. apply (Hprompt ms); [done|]. simpl.
    unfold handle_dispatch_next. simpl. by destruct (try_dispatch (runner q)) as [[d|] r'].
  - destruct (handle_cancel_storage_same id q) as (Hr & Hw & Hm & Hi).
    unfold enough_wakeups, wakeups, at_drop in *. by rewrite Hr, Hw, Hm.
  - pose proof (run_worker_pc _ _ _ _ Hrun) as (Hlt & Htell & _).
    destruct (run_worker_cases _ _ _ _ Hrun) as (_ & _ & Hr & Hm).
    unfold enough_wakeups, wakeups, at_drop, available in *. simpl.
    rewrite Hr, Hm. rewrite Hws in He. rewrite !sum_list_with_app in *. simpl in *.
    destruct (w_pc w); simpl in *; try (destruct pc; simpl in *; naive_solver lia).
  - pose proof (run_worker_pc _ _ _ _ Hrun) as Hpc. simpl in Hpc.
    destruct (run_worker_cases _ _ _ _ Hrun) as (_ & _ & Hr & Hm).
    unfold enough_wakeups, wakeups, at_drop, available in *. simpl.
    rewrite Hr, Hm. rewrite Hws in He. rewrite Hpc in *. rewrite !sum_list_with_app in *. simpl in *.
    rewrite Hpc in He. rewrite available_drop. lia.
Qed.

Lemma handle_tasks m q : running_have_tasks q → running_have_tasks (handle m q).
Proof.
  intros Hq. destruct m as [id p k| |id|]; simpl; [done|..].
  - unfold handle_dispatch_next. destruct (try_dispatch (runner q)) as [[d|] r'] eqn:E;
      apply try_dispatch_cases in E; intros id t k; simpl.
    + destruct E as (_ & _ & ->). setoid_rewrite elem_of_app.
      intros [[<- _]|[_ Hid]]%lookup_insert_Some.
      * eexists. split; [right; by left|]. simpl. split; [done|lia].
      * destruct (Hq _ _ _ Hid) as (w & ? & ?). eauto.
    + destruct E as (_ & _ & -> & _). apply Hq.
  - unfold handle_cancel. pose proof (cancel_cases (runner q) id) as (_ & _ & Hc).
    destruct (cancel (runner q) id) as [o r']. simpl in Hc. intros i t k. simpl. rewrite Hc.
    intros [_ Hi]%lookup_delete_Some. by eapply Hq.
  - unfold handle_cleanup. by destruct (expired_jobs (world q)) as [[jobs|e] wd].
Qed.

Lemma step_tasks q q' : step q q' → running_have_tasks q → running_have_tasks q'.
Proof.
  destruct 1 as [q m ms Hpc Hms|q id Hpc|q ws1 w ws2 pc q' Hws Hrun|q ws1 w ws2 q' Hws Hrun]; intros Hq.
  - by apply handle_tasks.
  - destruct (handle_cancel_storage_same id q) as (Hr & Hw & _). unfold running_have_tasks. by rewrite Hr, Hw.
  - pose proof (run_worker_pc _ _ _ _ Hrun) as (_ & _ & _ & Hrank).
    destruct (run_worker_cases _ _ _ _ Hrun) as (_ & _ & Hr & _).
    intros id t k. simpl. rewrite Hr. intros Hid.
    assert (running (runner q) !! id = Some (t, k) ∧ (pc_rank (w_pc w) = 5 → id ≠ w_job_id w)) as [Hid' Hne].
    { destruct (w_pc w); simpl in *; try (split; [done|lia]).
      apply lookup_delete_Some in Hid as [? ?]. auto. }
    destruct (Hq _ _ _ Hid') as (w' & Hin & Hj & Hle). rewrite Hws in Hin.
    apply elem_of_app in Hin as [Hin|[->|Hin]%elem_of_cons].
    + exists w'. rewrite elem_of_app. auto.
    + exists (set_worker_pc w pc). rewrite elem_of_app, elem_of_cons. simpl.
      split_and!; [auto|done|]. destruct (decide (5 ≤ pc_rank pc)); [done|].
      exfalso. apply Hne; [|done]. assert (pc_rank (w_pc w) ≤ 5) by (apply Hrank; lia). lia.
    + exists w'. rewrite elem_of_app, elem_of_cons. auto.
  - pose proof (run_worker_pc _ _ _ _ Hrun) as Hpc. simpl in Hpc.
    destruct (run_worker_cases _ _ _ _ Hrun) as (_ & _ & Hr & _). rewrite Hpc in Hr.
    intros id t k. simpl. rewrite Hr. simpl. intros Hid.
    destruct (Hq _ _ _ Hid) as (w' & Hin & Hj & Hle). exists w'. rewrite Hws in Hin.
    split; [|done]. apply elem_of_app in Hin as [Hin|[->|Hin]%elem_of_cons]; [set_solver| |set_solver].
    rewrite Hpc in Hle. simpl in Hle. lia.
Qed.

Lemma on_start_state sem ts restart_error (wd : World) :
  let q := on_start (Uuid:=Uuid) (K:=K) (P:=P) (U:=U) (DateTime:=DateTime) sem ts restart_error wd in
  runner q = runner_new sem ts ∧ workers q = [].
Proof.
  unfold on_start. destruct (mark_stale_running_failed _ _) as [? w1].
  by destruct (pending_jobs w1) as [? w2].
Qed.

Definition prompt_run : Queue → Queue → Prop := rtc (λ q q', prompt_step q q' ∨ external q q').

Lemma prompt_run_invariants sem ts restart_error (wd : World) q :
  prompt_run (on_start sem ts restart_error wd) q →
  enough_wakeups q ∧ running_have_tasks q ∧ permits_in_use q = available_permits sem.
Proof.
  destruct (on_start_state sem ts restart_error wd) as [Hr Hw].
  assert (enough_wakeups (on_start sem ts restart_error wd)
    ∧ running_have_tasks (on_start sem ts restart_error wd)
    ∧ permits_in_use (on_start sem ts restart_error wd) = available_permits sem) as Hinit.
  { unfold enough_wakeups, running_have_tasks, permits_in_use. rewrite Hr, Hw. simpl.
    unfold available. simpl. split_and!; [lia| |lia]. intros id t k. by rewrite lookup_empty. }
  clear Hr Hw. intros Hrun. revert Hinit. induction Hrun as [|q0 q1 q2 Hs _ IH]; [done|].
  intros (He & Ht & Hp). apply IH. destruct Hs as [Hs|Hs].
  - split_and!.
    + by eapply step_wakeups.
    + eapply step_tasks; [apply Hs|done].
    + rewrite <- Hp. apply step_permits, Hs.
  - inversion Hs; subst. split_and!; [|exact Ht|exact Hp]. unfold enough_wakeups, wakeups, at_drop in *. simpl.
    rewrite sum_list_with_app. lia.
Qed.

(** C32: when the actor comes to rest after a run in which no task panicked and
    permits were dropped before the wake-up of their task was received, no job
    is pending and none is recorded as running: every job was dispatched or
    cancelled. *)
Theorem prompt_runs_leave_no_job_behind (sem : semaphore) (ts : tokens) (restart_error : string)
    (wd : World) q :
  0 < available_permits sem →
  prompt_run (on_start sem ts restart_error wd) q → quiescent q →
  pending (runner q) = [] ∧ running (runner q) = ∅.
Proof.
  intros Hpos Hrun (Hm & _ & Hw). destruct (prompt_run_invariants _ _ _ _ _ Hrun) as (He & Ht & Hp).
  unfold enough_wakeups, wakeups, at_drop, permits_in_use in *. rewrite Hm, Hw in *. simpl in *. split.
  - apply nil_length_inv. lia.
  - apply map_empty. intros id. destruct (running (runner q) !! id) as [[t k]|] eqn:E; [|done].
    destruct (Ht _ _ _ E) as (w & Hin & _). rewrite Hw in Hin. by apply not_elem_of_nil in Hin.
Qed.
End ActorFacts.

(** ** Schedules

    A schedule says which part moves next; performing it is a run. *)
Section Schedules.
Context `{Semaphore} `{CancellationTokens} {Uuid K P U DateTime World : Type}
  `{Countable Uuid} `{EqDecision K}
  `{!JobStorage Uuid K P U DateTime World} `{!ResultStore World}
  `{!JobExecutor Uuid K P U DateTime World}
  (show_uuid : Uuid → string).

Inductive Choice := ActorMoves | TaskMoves (i : nat) | TaskPanics (i : nat) | Sends (m : QueueMessage Uuid K).

Definition perform (q : Queue Uuid K P U DateTime World) (c : Choice) : option (Queue Uuid K P U DateTime World) :=
  match c with
  | ActorMoves =>
      match actor_pc q, mailbox q with
      | Cancelling id, _ => Some (handle_cancel_storage id q)
      | Idle, m :: ms => Some (handle m (set_mailbox ms q))
      | Idle, [] => None
      end
  | TaskMoves i =>
      match workers q !! i with
      | Some w =>
          match run_worker show_uuid w q with
          | (Some pc, q') => Some (set_workers (take i (workers q) ++ set_worker_pc w pc :: drop (S i) (workers q)) q')
          | (None, q') => Some (set_workers (take i (workers q) ++ drop (S i) (workers q)) q')
          end
      | None => None
      end
  | TaskPanics i =>
      match workers q !! i with
      | Some w =>
          if may_panic (w_pc w)
          then Some (set_workers (take i (workers q) ++ drop (S i) (workers q))
                       (set_runner (runner_release (runner q)) q))
          else None
      | None => None
      end
  | Sends m => Some (tell m q)
  end.

Lemma perform_moves q c q' :
  perform q c = Some q' →
  match c with
  | ActorMoves | TaskMoves _ => step show_uuid q q'
  | TaskPanics _ => panics q q'
  | Sends _ => external q q'
  end.
Proof.
  destruct c as [|i|i|m]; simpl.
  - destruct (actor_pc q) as [|id] eqn:Hpc; [destruct (mailbox q) as [|m ms] eqn:Hm; [done|]|];
      intros [= <-]; by constructor.
  - destruct (workers q !! i) as [w|] eqn:Hi; [|done].
    destruct (run_worker show_uuid w q) as [[pc|] q1] eqn:Hrun; intros [= <-].
    + eapply step_worker; [by symmetry; apply take_drop_middle|done].
    + eapply step_worker_end; [by symmetry; apply take_drop_middle|done].
  - destruct (workers q !! i) as [w|] eqn:Hi; [|done].
    destruct (may_panic (w_pc w)) eqn:Hp; [|done]. intros [= <-].
    eapply worker_panics; [by symmetry; apply take_drop_middle|done].
  - intros [= <-]. constructor.
Qed.

Lemma perform_sound q c q' : perform q c = Some q' → any_step show_uuid q q'.
Proof. intros Hq%perform_moves. unfold any_step. destruct c; auto. Qed.

Definition perform_all (q : Queue Uuid K P U DateTime World) (cs : list Choice)
    : option (Queue Uuid K P U DateTime World) :=
  List.fold_left (λ o c, o ≫= λ q, perform q c) cs (Some q).

Lemma perform_all_sound q cs q' : perform_all q cs = Some q' → rtc (any_step show_uuid) q q'.
Proof.
  unfold perform_all. revert q. induction cs as [|c cs IH]; simpl; intros q.
  { by intros [= <-]. }
  destruct (perform q c) as [q1|] eqn:E; simpl.
  - intros Hq. eapply rtc_l; [by eapply perform_sound|by apply IH].
  - intros Hq. exfalso. clear -Hq. induction cs; simpl in *; done.
Qed.

Lemma perform_calmly_sound q cs q' :
  Forall (λ c, ∀ i, c ≠ TaskPanics i) cs → perform_all q cs = Some q' →
  rtc (λ q q', step show_uuid q q' ∨ external q q') q q'.
Proof.
  unfold perform_all. intros Hcs. revert q. induction Hcs as [|c cs Hc _ IH]; simpl; intros q.
  { by intros [= <-]. }
  destruct (perform q c) as [q1|] eqn:E; simpl.
  - intros Hq. eapply rtc_l; [|by apply IH]. apply perform_moves in E. destruct c; auto. by destruct (Hc i).
  - intros Hq. exfalso. clear -Hq. induction cs; simpl in *; done.
Qed.

(** Schedules of prompt runs. *)
Definition prompt_choice (q : Queue Uuid K P U DateTime World) (c : Choice) : bool :=
  match c with
  | ActorMoves => match mailbox q with DispatchNext :: _ => at_drop q =? 0 | _ => true end
  | TaskPanics _ => false
  | _ => true
  end.

Definition perform_promptly (q : Queue Uuid K P U DateTime World) (cs : list Choice)
    : option (Queue Uuid K P U DateTime World) :=
  List.fold_left (λ o c, o ≫= λ q, if prompt_choice q c then perform q c else None) cs (Some q).

Lemma perform_prompt_sound q c q' :
  prompt_choice q c = true → perform q c = Some q' → prompt_step show_uuid q q' ∨ external q q'.
Proof.
  intros Hp Hc. pose proof (perform_moves _ _ _ Hc) as Hs. unfold prompt_step.
  destruct c as [|i|i|m]; [| |done|by right]; left; (split; [done|]); intros ms Hm Hm'.
  - simpl in Hp. rewrite Hm in Hp. by apply Nat.eqb_eq.
  - simpl in Hc. destruct (workers q !! i) as [w|]; [|done].
    destruct (run_worker show_uuid w q) as [pc q1] eqn:Hrun.
    destruct (run_worker_cases _ _ _ _ _ Hrun) as (_ & _ & _ & Hmb).
    assert (mailbox q' = mailbox q1) as Heq by (destruct pc; by injection Hc as <-).
    apply (f_equal length) in Hmb. rewrite <- Heq, Hm', Hm, length_app in Hmb. simpl in Hmb. lia.
Qed.

Lemma perform_promptly_sound q cs q' :
  perform_promptly q cs = Some q' → prompt_run show_uuid q q'.
Proof.
  unfold perform_promptly. revert q. induction cs as [|c cs IH]; simpl; intros q.
  { intros [= <-]. apply rtc_refl. }
  destruct (if prompt_choice q c then perform q c else None) as [q1|] eqn:E; simpl.
  - intros Hq. destruct (prompt_choice q c) eqn:Hc; [|done].
    eapply rtc_l; [by eapply perform_prompt_sound|by apply IH].
  - intros Hq. exfalso. clear -Hq. induction cs; simpl in *; done.
Qed.
End Schedules.
Arguments Choice : clear implicits.

(** ** A small world

    A table of job states; jobs complete at once and leave no result. *)

Definition Table : Type := gmap N JobStatus.

Definition table_record (id : N) (s : JobStatus) : JobRecord N N unit unit unit :=
  {| jr_id := id; jr_user_id := tt; jr_status := s; jr_priority := 0; jr_kind := 0%N; jr_payload := tt;
     jr_result_path := None; jr_row_count := None; jr_byte_count := None; jr_error := None;
     jr_created_at := tt; jr_started_at := None; jr_completed_at := None; jr_expires_at := None |}.

Definition table_set (id : N) (s : JobStatus) : io Table unit := λ w, (Ok tt, <[id := s]> w).

#[export] Instance table_storage : JobStorage N N unit unit unit Table := {|
  load_job id w := (Ok (table_record id <$> w !! id), w);
  mark_running id := table_set id Running;
  complete_job id x := table_set id (x_status x);
  fail_job id _ := table_set id Failed;
  cancel_job id := table_set id Cancelled;
  pending_jobs w := (Ok ((λ e, (e.1, 0%Z, 0%N)) <$> filter (λ e, e.2 = Pending) (map_to_list w)), w);
  mark_stale_running_failed _ w :=
    (Ok (size (filter (λ e, e.2 = Running) w)), (λ s, if decide (s = Running) then Failed else s) <$> w);
  expired_jobs w := (Ok [], w);
  delete_job id w := (Ok tt, delete id w)
|}.

#[export] Instance table_results : ResultStore Table := {| result_delete _ w := (Ok tt, w) |}.

#[export] Instance table_executor : JobExecutor N N unit unit unit Table := {|
  execute _ t ts w :=
    (Ok (if is_cancelled ts t
         then {| x_status := Cancelled; x_result_path := None; x_row_count := None;
                 x_byte_count := None; x_error := None |}
         else execution_completed None None None), w)
|}.

Definition TableQueue : Type := Queue N N unit unit unit Table.

(** Jobs 1 and 2 are pending in the table when the actor starts, with one
    permit. *)
Definition two_jobs : TableQueue :=
  on_start (semaphore_new 1) no_tokens "restarted" {[ 1%N := Pending; 2%N := Pending ]}.

(** Both are submitted and the first is dispatched and runs up to its report. *)
Definition first_job_runs : list (Choice N N) :=
  [ActorMoves; ActorMoves; ActorMoves; ActorMoves]
    ++ [TaskMoves 0; TaskMoves 0; TaskMoves 0; TaskMoves 0; TaskMoves 0; TaskMoves 0].

Definition after (cs : list (Choice N N)) : TableQueue :=
  default two_jobs (perform_all show_N two_jobs cs).

(** The task sends its wake-up, drops its permit and the actor dispatches. *)
Definition prompt_schedule : list (Choice N N) :=
  first_job_runs ++ [TaskMoves 0; TaskMoves 0; ActorMoves]
    ++ [TaskMoves 0; TaskMoves 0; TaskMoves 0; TaskMoves 0; TaskMoves 0; TaskMoves 0; TaskMoves 0;
        TaskMoves 0; ActorMoves].

(** The actor receives the wake-up before the permit is dropped. *)
Definition late_schedule : list (Choice N N) :=
  first_job_runs ++ [TaskMoves 0; ActorMoves; TaskMoves 0].

(** ** Witnesses *)

Lemma jobs_never_exceed_capacity_witness :
  rtc (any_step show_N) two_jobs (after first_job_runs)
  ∧ available_permits (permits (runner (after first_job_runs))) + length (workers (after first_job_runs)) = 1.
Proof.
  assert (rtc (any_step show_N) two_jobs (after first_job_runs)) as Hrun
    by (apply (perform_all_sound show_N two_jobs first_job_runs); vm_compute; reflexivity).
  revert Hrun. generalize (after first_job_runs) as q. intros q Hrun. split; [exact Hrun|].
  exact (jobs_never_exceed_capacity show_N (semaphore_new 1) no_tokens "restarted"
    {[ 1%N := Pending; 2%N := Pending ]} _ Hrun).
Defined.

Lemma prompt_runs_leave_no_job_behind_witness :
  let q := after prompt_schedule in
  prompt_run show_N two_jobs q ∧ quiescent q ∧ pending (runner q) = [] ∧ running (runner q) = ∅.
Proof.
  intros q. assert (prompt_run show_N two_jobs q) as Hrun
    by (apply (perform_promptly_sound show_N two_jobs prompt_schedule); vm_compute; reflexivity).
  assert (quiescent q) as Hq by (vm_compute; auto).
  clearbody q. split; [exact Hrun|]. split; [exact Hq|].
  assert (0 < available_permits (semaphore_new 1)) as Hpos by (vm_compute; lia).
  exact (prompt_runs_leave_no_job_behind show_N (semaphore_new 1) no_tokens "restarted"
    {[ 1%N := Pending; 2%N := Pending ]} q Hpos Hrun Hq).
Defined.

(** A task sends its wake-up before its permit is dropped, and the actor may
    receive it in between: the job that waited for the permit is then left
    behind, with the permit free and nothing under way that would start it. *)
Theorem late_permits_strand_a_job :
  let q := after late_schedule in
  rtc (λ q q', step show_N q q' ∨ external q q') two_jobs q ∧ quiescent q
  ∧ job_id <$> pending (runner q) = [1%N] ∧ available_permits (permits (runner q)) = 1
  ∧ world q !! 1%N = Some Pending.
Proof.
  intros q. split.
  - apply (perform_calmly_sound show_N two_jobs late_schedule); [|vm_compute; reflexivity].
    by repeat constructor.
  - vm_compute. repeat split.
Qed.
