(* ===== verification/Rewrite.v ===== *)
(** Rewriting syntax trees: [queryfabric-opt/src/syntax.rs].

    [SyntaxTransformer] is a trait of ten methods with default bodies, each
    rebuilding a node from the children it gives to the other methods of
    [self].  A [SyntaxTransformer] here is the record of the ten methods; the
    defaults take the transformer they call back into as an argument; an
    implementation is a function from [self] to the methods; and [tie] unrolls
    the calls through [self] to a given depth.  Methods take [&mut self] and may
    fail: they thread a state and stop at the first error.  A call beyond the
    depth of [tie] is [None]; the height of the tree is shown below to be
    depth enough. *)
From S2P Require Import Prelude BTreeMap Types Diagnostics Syntax.

(** ** Visits: state, errors, and calls that are too deep *)

Definition visit (St Er A : Type) : Type := St → option (result A Er * St).

Section Visit.
Context {St Er : Type}.

Definition vret {A} (a : A) : visit St Er A := λ s, Some (Ok a, s).

Definition vbind {A B} (m : visit St Er A) (k : A → visit St Er B) : visit St Er B :=
  λ s, match m s with
       | Some (Ok a, s') => k a s'
       | Some (Err e, s') => Some (Err e, s')
       | None => None
       end.

(** [iter().map(f).collect::<Result<Vec<_>, _>>()?]. *)
Definition vcollect {A B} (f : A → visit St Er B) : list A → visit St Er (list B) :=
  fix go l :=
    match l with
    | [] => vret []
    | x :: l => vbind (f x) (λ y, vbind (go l) (λ ys, vret (y :: ys)))
    end.

(** [map(f).transpose()?] on an option. *)
Definition vtranspose {A B} (f : A → visit St Er B) (o : option A) : visit St Er (option B) :=
  match o with
  | None => vret None
  | Some x => vbind (f x) (λ y, vret (Some y))
  end.
End Visit.

Declare Scope visit_scope.
Delimit Scope visit_scope with visit.
Notation "'let*' x ':=' m 'in' k" := (vbind m (λ x, k))
  (at level 10, x binder, m at level 100, k at level 200,
   format "'[v' 'let*'  x  ':='  m  'in' '/' k ']'") : visit_scope.
Local Open Scope visit_scope.

(** ** The trait *)

Record SyntaxTransformer (St Er : Type) := {
  transform_query : SyntaxQuery → visit St Er SyntaxQuery;
  transform_set_expr : SyntaxSetExpr → visit St Er SyntaxSetExpr;
  transform_select : SyntaxSelect → visit St Er SyntaxSelect;
  transform_projection_item : SyntaxProjectionItem → visit St Er SyntaxProjectionItem;
  transform_table_with_joins : SyntaxTableWithJoins → visit St Er SyntaxTableWithJoins;
  transform_join : SyntaxJoin → visit St Er SyntaxJoin;
  transform_relation : SyntaxRelation → visit St Er SyntaxRelation;
  transform_order_by_expr : SyntaxOrderByExpr → visit St Er SyntaxOrderByExpr;
  transform_expr : SyntaxExpr → visit St Er SyntaxExpr;
  transform_when_then : SyntaxWhenThen → visit St Er SyntaxWhenThen
}.
Arguments transform_query {St Er}. Arguments transform_set_expr {St Er}.
Arguments transform_select {St Er}. Arguments transform_projection_item {St Er}.
Arguments transform_table_with_joins {St Er}. Arguments transform_join {St Er}.
Arguments transform_relation {St Er}. Arguments transform_order_by_expr {St Er}.
Arguments transform_expr {St Er}. Arguments transform_when_then {St Er}.

Section Children.
Context {St Er : Type} (transformer : SyntaxTransformer St Er).

Definition transform_query_children (query : SyntaxQuery) : visit St Er SyntaxQuery :=
  match query with
  | MkSyntaxQuery node ctes with_recursive body order_by limit offset backend_clauses =>
      let* ctes :=
        vcollect (λ cte,
          let* q := transform_query transformer (cte_query cte) in
          vret (MkSyntaxCte (cte_name cte) (cte_columns cte) q (cte_node cte))) ctes in
      let* body := transform_set_expr transformer body in
      let* order_by := vcollect (transform_order_by_expr transformer) order_by in
      let* limit := vtranspose (transform_expr transformer) limit in
      let* offset := vtranspose (transform_expr transformer) offset in
      vret (MkSyntaxQuery node ctes with_recursive body order_by limit offset backend_clauses)
  end.

Definition transform_set_expr_children (expr : SyntaxSetExpr) : visit St Er SyntaxSetExpr :=
  match expr with
  | SSelect select =>
      let* select := transform_select transformer select in
      vret (SSelect select)
  | SUnionAll lhs rhs node =>
      let* lhs := transform_set_expr transformer lhs in
      let* rhs := transform_set_expr transformer rhs in
      vret (SUnionAll lhs rhs node)
  | SSetUnsupported description node => vret (SSetUnsupported description node)
  end.

Definition transform_select_children (select : SyntaxSelect) : visit St Er SyntaxSelect :=
  let* projection := vcollect (transform_projection_item transformer) (sel_projection select) in
  let* from := vcollect (transform_table_with_joins transformer) (sel_from select) in
  let* selection := vtranspose (transform_expr transformer) (sel_selection select) in
  let* group_by := vcollect (transform_expr transformer) (sel_group_by select) in
  let* having := vtranspose (transform_expr transformer) (sel_having select) in
  vret (MkSyntaxSelect (sel_distinct select) projection from selection group_by having (sel_node select)).

Definition transform_projection_item_children (item : SyntaxProjectionItem)
    : visit St Er SyntaxProjectionItem :=
  match item with
  | PWildcard qualifier node => vret (PWildcard qualifier node)
  | PExpr details =>
      let* expr := transform_expr transformer (pe_expr details) in
      vret (PExpr (MkSyntaxProjectionExpr expr (pe_alias details) (pe_node details)))
  | PUnsupported description node => vret (PUnsupported description node)
  end.

Definition transform_table_with_joins_children (table : SyntaxTableWithJoins)
    : visit St Er SyntaxTableWithJoins :=
  match table with
  | MkSyntaxTableWithJoins relation joins node =>
      let* relation := transform_relation transformer relation in
      let* joins := vcollect (transform_join transformer) joins in
      vret (MkSyntaxTableWithJoins relation joins node)
  end.

Definition transform_join_children (join : SyntaxJoin) : visit St Er SyntaxJoin :=
  let* relation := transform_relation transformer (join_relation join) in
  let* on := vtranspose (transform_expr transformer) (join_on join) in
  vret (MkSyntaxJoin (join_kind join) relation on (join_node join)).

Definition transform_relation_children (relation : SyntaxRelation) : visit St Er SyntaxRelation :=
  match relation with
  | STable name alias node => vret (STable name alias node)
  | SDerived query alias node =>
      let* query := transform_query transformer query in
      vret (SDerived query alias node)
  | SNestedJoin table_with_joins alias node =>
      let* table_with_joins := transform_table_with_joins transformer table_with_joins in
      vret (SNestedJoin table_with_joins alias node)
  | SRelUnsupported description node => vret (SRelUnsupported description node)
  end.

Definition transform_order_by_expr_children (expr : SyntaxOrderByExpr) : visit St Er SyntaxOrderByExpr :=
  let* e := transform_expr transformer (ob_expr expr) in
  vret (MkSyntaxOrderByExpr e (ob_asc expr) (ob_nulls_first expr) (ob_node expr)).

(** The [function.over] closure of [transform_expr_children]. *)
Definition transform_window (window : WindowSpec) : visit St Er WindowSpec :=
  let* partition_by := vcollect (transform_expr transformer) (win_partition_by window) in
  let* order_by := vcollect (transform_order_by_expr transformer) (win_order_by window) in
  vret (MkWindowSpec partition_by order_by (win_node window)).

Definition transform_kind (kind : SyntaxExprKind) : visit St Er SyntaxExprKind :=
  match kind with
  | SColumn relation name => vret (SColumn relation name)
  | SLiteral value => vret (SLiteral value)
  | SParameter reference => vret (SParameter reference)
  | SUnary op inner =>
      let* inner := transform_expr transformer inner in
      vret (SUnary op inner)
  | SBinary op lhs rhs =>
      let* lhs := transform_expr transformer lhs in
      let* rhs := transform_expr transformer rhs in
      vret (SBinary op lhs rhs)
  | SFunction function =>
      let* args := vcollect (transform_expr transformer) (fc_args function) in
      let* filter := vtranspose (transform_expr transformer) (fc_filter function) in
      let* over := vtranspose transform_window (fc_over function) in
      vret (SFunction (MkSyntaxFunctionCall (fc_function function) args (fc_distinct function) filter over))
  | SCase operand when_then else_result =>
      let* operand := vtranspose (transform_expr transformer) operand in
      let* when_then := vcollect (transform_when_then transformer) when_then in
      let* else_result := vtranspose (transform_expr transformer) else_result in
      vret (SCase operand when_then else_result)
  | SCast inner data_type =>
      let* inner := transform_expr transformer inner in
      vret (SCast inner data_type)
  | SBetween inner low high negated =>
      let* inner := transform_expr transformer inner in
      let* low := transform_expr transformer low in
      let* high := transform_expr transformer high in
      vret (SBetween inner low high negated)
  | SInList inner list negated =>
      let* inner := transform_expr transformer inner in
      let* list := vcollect (transform_expr transformer) list in
      vret (SInList inner list negated)
  | SInSubquery inner subquery negated =>
      let* inner := transform_expr transformer inner in
      let* subquery := transform_query transformer subquery in
      vret (SInSubquery inner subquery negated)
  | SScalarSubquery subquery =>
      let* subquery := transform_query transformer subquery in
      vret (SScalarSubquery subquery)
  | SExists subquery =>
      let* subquery := transform_query transformer subquery in
      vret (SExists subquery)
  | SLike inner pattern negated case_insensitive =>
      let* inner := transform_expr transformer inner in
      let* pattern := transform_expr transformer pattern in
      vret (SLike inner pattern negated case_insensitive)
  | SIsNull inner negated =>
      let* inner := transform_expr transformer inner in
      vret (SIsNull inner negated)
  | STuple items =>
      let* items := vcollect (transform_expr transformer) items in
      vret (STuple items)
  | SArray items =>
      let* items := vcollect (transform_expr transformer) items in
      vret (SArray items)
  | SUnsupported description => vret (SUnsupported description)
  end.

Definition transform_expr_children (expr : SyntaxExpr) : visit St Er SyntaxExpr :=
  match expr with
  | MkSyntaxExpr kind node =>
      let* kind := transform_kind kind in
      vret (MkSyntaxExpr kind node)
  end.

Definition transform_when_then_children (branch : SyntaxWhenThen) : visit St Er SyntaxWhenThen :=
  let* condition := transform_expr transformer (wt_condition branch) in
  let* result := transform_expr transformer (wt_result branch) in
  vret (MkSyntaxWhenThen condition result).

(** The default bodies of the trait. *)
Definition default_methods : SyntaxTransformer St Er := {|
  transform_query := transform_query_children;
  transform_set_expr := transform_set_expr_children;
  transform_select := transform_select_children;
  transform_projection_item := transform_projection_item_children;
  transform_table_with_joins := transform_table_with_joins_children;
  transform_join := transform_join_children;
  transform_relation := transform_relation_children;
  transform_order_by_expr := transform_order_by_expr_children;
  transform_expr := transform_expr_children;
  transform_when_then := transform_when_then_children
|}.
End Children.

(** ** Calls through [self] *)

Definition exhausted {St Er : Type} : SyntaxTransformer St Er := {|
  transform_query _ _ := None; transform_set_expr _ _ := None; transform_select _ _ := None;
  transform_projection_item _ _ := None; transform_table_with_joins _ _ := None;
  transform_join _ _ := None; transform_relation _ _ := None;
  transform_order_by_expr _ _ := None; transform_expr _ _ := None; transform_when_then _ _ := None
|}.

Fixpoint tie {St Er : Type} (impl : SyntaxTransformer St Er → SyntaxTransformer St Er) (depth : nat)
    : SyntaxTransformer St Er :=
  match depth with
  | 0 => exhausted
  | S depth => impl (tie impl depth)
  end.

(** ** Heights *)

Definition tallest (heights : list nat) : nat := foldr Nat.max 0 heights.
#[global] Arguments tallest : simpl never.

Definition height_opt {A} (f : A → nat) (o : option A) : nat :=
  match o with Some x => f x | None => 0 end.

Definition order_by_height (expr_height : SyntaxExpr → nat) (o : SyntaxOrderByExpr) : nat :=
  S (expr_height (ob_expr o)).

Definition item_height (expr_height : SyntaxExpr → nat) (i : SyntaxProjectionItem) : nat :=
  match i with PExpr d => S (expr_height (pe_expr d)) | _ => 1 end.

Definition window_height (expr_height : SyntaxExpr → nat) (w : WindowSpec) : nat :=
  tallest [max_list_with expr_height (win_partition_by w);
           max_list_with (order_by_height expr_height) (win_order_by w)].

Fixpoint query_height (q : SyntaxQuery) : nat :=
  match q with
  | MkSyntaxQuery _ ctes _ body order_by limit offset _ =>
      S (tallest [max_list_with (λ c, query_height (cte_query c)) ctes; set_expr_height body;
                  max_list_with (order_by_height expr_height) order_by;
                  height_opt expr_height limit; height_opt expr_height offset])
  end
with set_expr_height (e : SyntaxSetExpr) : nat :=
  match e with
  | SSelect s =>
      S (S (tallest [max_list_with (item_height expr_height) (sel_projection s);
                     max_list_with table_height (sel_from s); height_opt expr_height (sel_selection s);
                     max_list_with expr_height (sel_group_by s); height_opt expr_height (sel_having s)]))
  | SUnionAll lhs rhs _ => S (tallest [set_expr_height lhs; set_expr_height rhs])
  | SSetUnsupported _ _ => 1
  end
with table_height (t : SyntaxTableWithJoins) : nat :=
  match t with
  | MkSyntaxTableWithJoins relation joins _ =>
      S (tallest [relation_height relation;
                  max_list_with (λ j, S (tallest [relation_height (join_relation j);
                                                  height_opt expr_height (join_on j)])) joins])
  end
with relation_height (r : SyntaxRelation) : nat :=
  match r with
  | STable _ _ _ | SRelUnsupported _ _ => 1
  | SDerived query _ _ => S (query_height query)
  | SNestedJoin table _ _ => S (table_height table)
  end
with expr_height (e : SyntaxExpr) : nat :=
  match e with MkSyntaxExpr kind _ => S (kind_height kind) end
with kind_height (k : SyntaxExprKind) : nat :=
  match k with
  | SColumn _ _ | SLiteral _ | SParameter _ | SUnsupported _ => 0
  | SUnary _ e | SCast e _ | SIsNull e _ => expr_height e
  | SBinary _ lhs rhs => tallest [expr_height lhs; expr_height rhs]
  | SFunction f =>
      tallest [max_list_with expr_height (fc_args f); height_opt expr_height (fc_filter f);
               height_opt (window_height expr_height) (fc_over f)]
  | SCase operand when_then else_result =>
      tallest [height_opt expr_height operand;
               max_list_with (λ b, S (tallest [expr_height (wt_condition b); expr_height (wt_result b)]))
                 when_then;
               height_opt expr_height else_result]
  | SBetween e low high _ => tallest [expr_height e; expr_height low; expr_height high]
  | SInList e items _ => tallest [expr_height e; max_list_with expr_height items]
  | SInSubquery e q _ => tallest [expr_height e; query_height q]
  | SScalarSubquery q | SExists q => query_height q
  | SLike e pattern _ _ => tallest [expr_height e; expr_height pattern]
  | STuple items | SArray items => max_list_with expr_height items
  end.

(** ** Overrides of selections *)

(** [SelectionOverrideTransformer]: its [transform_select] takes the selection
    from the map, or keeps it as it is. *)
Definition selection_override_transformer (overrides : BTreeMap string (option SyntaxExpr))
    (self : SyntaxTransformer unit Empty_set) : SyntaxTransformer unit Empty_set :=
  let defaults := default_methods self in
  {| transform_query := transform_query defaults;
     transform_set_expr := transform_set_expr defaults;
     transform_select select :=
       let* projection := vcollect (transform_projection_item self) (sel_projection select) in
       let* from := vcollect (transform_table_with_joins self) (sel_from select) in
       let* group_by := vcollect (transform_expr self) (sel_group_by select) in
       let* having := vtranspose (transform_expr self) (sel_having select) in
       vret (MkSyntaxSelect (sel_distinct select) projection from
         (default (sel_selection select) (bt_get (node_id (sel_node select)) overrides))
         group_by having (sel_node select));
     transform_projection_item := transform_projection_item defaults;
     transform_table_with_joins := transform_table_with_joins defaults;
     transform_join := transform_join defaults;
     transform_relation := transform_relation defaults;
     transform_order_by_expr := transform_order_by_expr defaults;
     transform_expr := transform_expr defaults;
     transform_when_then := transform_when_then defaults |}.

(** The error type is [Infallible]; the last case is a call too deep, which
    does not happen. *)
Definition apply_selection_overrides (query : SyntaxQuery)
    (overrides : BTreeMap string (option SyntaxExpr)) : SyntaxQuery :=
  match transform_query_children
          (tie (selection_override_transformer overrides) (query_height query)) query tt with
  | Some (Ok q, _) => q
  | Some (Err never, _) => match never with end
  | None => query
  end.

(** ** Conjunctions *)

Fixpoint flatten_boolean_and (expr : SyntaxExpr) : list SyntaxExpr :=
  match expr with
  | MkSyntaxExpr (SBinary And lhs rhs) _ => flatten_boolean_and lhs ++ flatten_boolean_and rhs
  | _ => [expr]
  end.

(** [for (index, item) in items.into_iter().enumerate()]. *)
Fixpoint rebuild_from (current : SyntaxExpr) (index : nat) (items : list SyntaxExpr) (node : SyntaxNode)
    : SyntaxExpr :=
  match items with
  | [] => current
  | item :: items =>
      rebuild_from
        (MkSyntaxExpr (SBinary And current item)
           (SyntaxNode_new (span node)
              (node_id node +:+ ".and[" +:+ show_N (N.of_nat index) +:+ "]")))
        (S index) items node
  end.

Definition rebuild_boolean_and (items : list SyntaxExpr) (node : SyntaxNode) : option SyntaxExpr :=
  match items with
  | [] => None
  | current :: items => Some (rebuild_from current 0 items node)
  end.

(** What the transformers of [Rewrite] do: they return, the defaults rebuild the
    tree they are given, and overrides replace selections and nothing else. *)

(** ** Specification: rewriting by structural recursion

    [pick] chooses the selection of a select from its node, its selection and
    its rewritten selection; everything else is rebuilt. *)
Section Reference.
Variable pick : SyntaxNode → option SyntaxExpr → option SyntaxExpr → option SyntaxExpr.

Definition rw_order_by (rw_expr : SyntaxExpr → SyntaxExpr) (o : SyntaxOrderByExpr) : SyntaxOrderByExpr :=
  MkSyntaxOrderByExpr (rw_expr (ob_expr o)) (ob_asc o) (ob_nulls_first o) (ob_node o).

Definition rw_item (rw_expr : SyntaxExpr → SyntaxExpr) (i : SyntaxProjectionItem) : SyntaxProjectionItem :=
  match i with
  | PExpr d => PExpr (MkSyntaxProjectionExpr (rw_expr (pe_expr d)) (pe_alias d) (pe_node d))
  | i => i
  end.

Definition rw_select (rw_expr : SyntaxExpr → SyntaxExpr)
    (rw_table : SyntaxTableWithJoins → SyntaxTableWithJoins) (s : SyntaxSelect) : SyntaxSelect :=
  MkSyntaxSelect (sel_distinct s) (map (rw_item rw_expr) (sel_projection s)) (map rw_table (sel_from s))
    (pick (sel_node s) (sel_selection s) (option_map rw_expr (sel_selection s)))
    (map rw_expr (sel_group_by s)) (option_map rw_expr (sel_having s)) (sel_node s).

Definition rw_window (rw_expr : SyntaxExpr → SyntaxExpr) (w : WindowSpec) : WindowSpec :=
  MkWindowSpec (map rw_expr (win_partition_by w)) (map (rw_order_by rw_expr) (win_order_by w)) (win_node w).

Definition rw_join (rw_expr : SyntaxExpr → SyntaxExpr) (rw_relation : SyntaxRelation → SyntaxRelation)
    (j : SyntaxJoin) : SyntaxJoin :=
  MkSyntaxJoin (join_kind j) (rw_relation (join_relation j)) (option_map rw_expr (join_on j)) (join_node j).

Definition rw_branch (rw_expr : SyntaxExpr → SyntaxExpr) (b : SyntaxWhenThen) : SyntaxWhenThen :=
  MkSyntaxWhenThen (rw_expr (wt_condition b)) (rw_expr (wt_result b)).

Fixpoint rw_query (q : SyntaxQuery) : SyntaxQuery :=
  match q with
  | MkSyntaxQuery node ctes r body order_by limit offset clauses =>
      MkSyntaxQuery node
        (map (λ c, MkSyntaxCte (cte_name c) (cte_columns c) (rw_query (cte_query c)) (cte_node c)) ctes)
        r (rw_set_expr body) (map (rw_order_by rw_expr) order_by)
        (option_map rw_expr limit) (option_map rw_expr offset) clauses
  end
with rw_set_expr (e : SyntaxSetExpr) : SyntaxSetExpr :=
  match e with
  | SSelect s => SSelect (rw_select rw_expr rw_table s)
  | SUnionAll lhs rhs node => SUnionAll (rw_set_expr lhs) (rw_set_expr rhs) node
  | SSetUnsupported description node => SSetUnsupported description node
  end
with rw_table (t : SyntaxTableWithJoins) : SyntaxTableWithJoins :=
  match t with
  | MkSyntaxTableWithJoins relation joins node =>
      MkSyntaxTableWithJoins (rw_relation relation) (map (rw_join rw_expr rw_relation) joins) node
  end
with rw_relation (r : SyntaxRelation) : SyntaxRelation :=
  match r with
  | SDerived query alias node => SDerived (rw_query query) alias node
  | SNestedJoin table alias node => SNestedJoin (rw_table table) alias node
  | r => r
  end
with rw_expr (e : SyntaxExpr) : SyntaxExpr :=
  match e with MkSyntaxExpr kind node => MkSyntaxExpr (rw_kind kind) node end
with rw_kind (k : SyntaxExprKind) : SyntaxExprKind :=
  match k with
  | SUnary op e => SUnary op (rw_expr e)
  | SBinary op lhs rhs => SBinary op (rw_expr lhs) (rw_expr rhs)
  | SFunction f =>
      SFunction (MkSyntaxFunctionCall (fc_function f) (map rw_expr (fc_args f)) (fc_distinct f)
        (option_map rw_expr (fc_filter f)) (option_map (rw_window rw_expr) (fc_over f)))
  | SCase operand when_then else_result =>
      SCase (option_map rw_expr operand) (map (rw_branch rw_expr) when_then)
        (option_map rw_expr else_result)
  | SCast e t => SCast (rw_expr e) t
  | SBetween e low high negated => SBetween (rw_expr e) (rw_expr low) (rw_expr high) negated
  | SInList e items negated => SInList (rw_expr e) (map rw_expr items) negated
  | SInSubquery e q negated => SInSubquery (rw_expr e) (rw_query q) negated
  | SScalarSubquery q => SScalarSubquery (rw_query q)
  | SExists q => SExists (rw_query q)
  | SLike e pattern negated ci => SLike (rw_expr e) (rw_expr pattern) negated ci
  | SIsNull e negated => SIsNull (rw_expr e) negated
  | STuple items => STuple (map rw_expr items)
  | SArray items => SArray (map rw_expr items)
  | k => k
  end.
End Reference.

(** ** Visits that succeed *)

(** The visit returns [a] and leaves the state. *)
Definition gives {St Er A} (m : visit St Er A) (a : A) : Prop := ∀ s, m s = Some (Ok a, s).

Section Gives.
Context {St Er : Type}.

Lemma gives_ret {A} (a : A) : gives (St:=St) (Er:=Er) (vret a) a.
Proof. done. Qed.

Lemma gives_bind {A B} (m : visit St Er A) (k : A → visit St Er B) a b :
  gives m a → gives (k a) b → gives (vbind m k) b.
Proof. intros Hm Hk s. unfold vbind. by rewrite Hm. Qed.

Lemma gives_collect {A B} (f : A → visit St Er B) (g : A → B) l :
  Forall (λ x, gives (f x) (g x)) l → gives (vcollect f l) (map g l).
Proof.
  induction 1 as [|x l Hx _ IH]; simpl; [apply gives_ret|].
  eapply gives_bind; [done|]. eapply gives_bind; [done|]. apply gives_ret.
Qed.

Lemma gives_transpose {A B} (f : A → visit St Er B) (g : A → B) o :
  opt_all (λ x, gives (f x) (g x)) o → gives (vtranspose f o) (option_map g o).
Proof.
  destruct o as [x|]; simpl; intros Ho; [|apply gives_ret].
  eapply gives_bind; [by apply Ho|]. apply gives_ret.
Qed.
End Gives.

Create HintDb visits.
#[export] Hint Resolve gives_ret gives_collect gives_transpose : visits.

(** Run a visit one call after the other. *)
Ltac visits :=
  repeat first
    [ apply gives_ret
    | eapply gives_bind; [solve [eauto with visits]|]
    | solve [eauto with visits] ].

(** ** Heights *)

Lemma tallest_le l n : tallest l ≤ n ↔ Forall (λ h, h ≤ n) l.
Proof.
  unfold tallest. induction l as [|h l IH]; simpl; [split; [constructor|lia]|].
  rewrite Forall_cons, <- IH. lia.
Qed.

Lemma max_list_with_le {A} (f : A → nat) l n : max_list_with f l ≤ n ↔ Forall (λ x, f x ≤ n) l.
Proof.
  induction l as [|x l IH]; simpl; [split; [constructor|lia]|].
  rewrite Forall_cons, <- IH. lia.
Qed.

Lemma height_opt_le {A} (f : A → nat) o n : height_opt f o ≤ n ↔ opt_all (λ x, f x ≤ n) o.
Proof.
  destruct o as [x|]; simpl; unfold opt_all; [naive_solver|]. split; [done|lia].
Qed.

(** Split a bound on a height into bounds on the parts. *)
Ltac heights :=
  repeat match goal with
  | H : tallest _ ≤ _ |- _ => apply tallest_le in H; repeat (apply Forall_cons in H as [? H]); clear H
  | H : max_list_with _ _ ≤ _ |- _ => apply max_list_with_le in H
  | H : height_opt _ _ ≤ _ |- _ => apply height_opt_le in H
  | H : S _ ≤ S _ |- _ => apply le_S_n in H
  end.

Lemma Forall_mp {A} (P Q R : A → Prop) l :
  Forall P l → Forall Q l → (∀ x, P x → Q x → R x) → Forall R l.
Proof. rewrite !Forall_forall. eauto. Qed.

Lemma opt_all_mp {A} (P Q R : A → Prop) o :
  opt_all P o → opt_all Q o → (∀ x, P x → Q x → R x) → opt_all R o.
Proof. unfold opt_all. eauto. Qed.

(** ** Transformers that only touch selections *)
Section Runs.
Context {St Er : Type}.
Variables (impl : SyntaxTransformer St Er → SyntaxTransformer St Er)
  (pick : SyntaxNode → option SyntaxExpr → option SyntaxExpr → option SyntaxExpr).

(** All methods but [transform_select] are the defaults. *)
Hypothesis impl_query : ∀ self, transform_query (impl self) = transform_query_children self.
Hypothesis impl_set_expr : ∀ self, transform_set_expr (impl self) = transform_set_expr_children self.
Hypothesis impl_item : ∀ self, transform_projection_item (impl self) = transform_projection_item_children self.
Hypothesis impl_table : ∀ self, transform_table_with_joins (impl self) = transform_table_with_joins_children self.
Hypothesis impl_join : ∀ self, transform_join (impl self) = transform_join_children self.
Hypothesis impl_relation : ∀ self, transform_relation (impl self) = transform_relation_children self.
Hypothesis impl_order_by : ∀ self, transform_order_by_expr (impl self) = transform_order_by_expr_children self.
Hypothesis impl_expr : ∀ self, transform_expr (impl self) = transform_expr_children self.
Hypothesis impl_when_then : ∀ self, transform_when_then (impl self) = transform_when_then_children self.

(** [transform_select] rebuilds the select around the picked selection. *)
Hypothesis impl_select : ∀ self s,
  Forall (λ i, gives (transform_projection_item self i) (rw_item (rw_expr pick) i)) (sel_projection s) →
  Forall (λ t, gives (transform_table_with_joins self t) (rw_table pick t)) (sel_from s) →
  opt_all (λ e, gives (transform_expr self e) (rw_expr pick e)) (sel_selection s) →
  Forall (λ e, gives (transform_expr self e) (rw_expr pick e)) (sel_group_by s) →
  opt_all (λ e, gives (transform_expr self e) (rw_expr pick e)) (sel_having s) →
  gives (transform_select (impl self) s) (rw_select pick (rw_expr pick) (rw_table pick) s).

Local Abbreviation runs_query q :=
  (∀ n, query_height q ≤ n → gives (transform_query (tie impl n) q) (rw_query pick q)).
Local Abbreviation runs_set_expr e :=
  (∀ n, set_expr_height e ≤ n → gives (transform_set_expr (tie impl n) e) (rw_set_expr pick e)).
Local Abbreviation runs_table t :=
  (∀ n, table_height t ≤ n → gives (transform_table_with_joins (tie impl n) t) (rw_table pick t)).
Local Abbreviation runs_relation r :=
  (∀ n, relation_height r ≤ n → gives (transform_relation (tie impl n) r) (rw_relation pick r)).
Local Abbreviation runs_expr e :=
  (∀ n, expr_height e ≤ n → gives (transform_expr (tie impl n) e) (rw_expr pick e)).

Lemma run_exprs l n :
  Forall (λ e, runs_expr e) l → Forall (λ e, expr_height e ≤ n) l →
  Forall (λ e, gives (transform_expr (tie impl n) e) (rw_expr pick e)) l.
Proof. intros H1 H2. eapply Forall_mp; [exact H1|exact H2|]. auto. Qed.

Lemma run_expr_opt o n :
  opt_all (λ e, runs_expr e) o → opt_all (λ e, expr_height e ≤ n) o →
  opt_all (λ e, gives (transform_expr (tie impl n) e) (rw_expr pick e)) o.
Proof. intros H1 H2. eapply opt_all_mp; [exact H1|exact H2|]. auto. Qed.

Lemma run_order_by o n :
  runs_expr (ob_expr o) → order_by_height expr_height o ≤ n →
  gives (transform_order_by_expr (tie impl n) o) (rw_order_by (rw_expr pick) o).
Proof.
  intros Ho Hn. unfold order_by_height in Hn. destruct n as [|n]; [lia|]. simpl.
  rewrite impl_order_by. unfold transform_order_by_expr_children.
  eapply gives_bind; [apply Ho; lia|]. apply gives_ret.
Qed.

Lemma run_order_bys l n :
  Forall (λ o, runs_expr (ob_expr o)) l → Forall (λ o, order_by_height expr_height o ≤ n) l →
  Forall (λ o, gives (transform_order_by_expr (tie impl n) o) (rw_order_by (rw_expr pick) o)) l.
Proof. intros H1 H2. eapply Forall_mp; [exact H1|exact H2|]. intros o. apply run_order_by. Qed.

Lemma run_item i n :
  (∀ d, i = PExpr d → runs_expr (pe_expr d)) → item_height expr_height i ≤ n →
  gives (transform_projection_item (tie impl n) i) (rw_item (rw_expr pick) i).
Proof.
  intros Hi Hn. destruct n as [|n]; [destruct i; simpl in Hn; lia|]. simpl. rewrite impl_item.
  destruct i as [q node|d|d node]; simpl in *; [apply gives_ret| |apply gives_ret].
  eapply gives_bind; [apply Hi; [done|lia]|]. apply gives_ret.
Qed.

Lemma run_branch b n :
  runs_expr (wt_condition b) → runs_expr (wt_result b) →
  S (tallest [expr_height (wt_condition b); expr_height (wt_result b)]) ≤ n →
  gives (transform_when_then (tie impl n) b) (rw_branch (rw_expr pick) b).
Proof.
  intros Hc Hr Hn. destruct n as [|n]; [lia|]. heights. simpl. rewrite impl_when_then.
  unfold transform_when_then_children.
  eapply gives_bind; [by apply Hc|]. eapply gives_bind; [by apply Hr|]. apply gives_ret.
Qed.

Lemma run_join j n :
  runs_relation (join_relation j) → opt_all (λ e, runs_expr e) (join_on j) →
  S (tallest [relation_height (join_relation j); height_opt expr_height (join_on j)]) ≤ n →
  gives (transform_join (tie impl n) j) (rw_join (rw_expr pick) (rw_relation pick) j).
Proof.
  intros Hr Ho Hn. destruct n as [|n]; [lia|]. heights. simpl. rewrite impl_join.
  unfold transform_join_children. eapply gives_bind; [by apply Hr|].
  eapply gives_bind; [by apply gives_transpose, run_expr_opt|]. apply gives_ret.
Qed.

Lemma run_window w n :
  window_all (λ e, runs_expr e) w → window_height expr_height w ≤ n →
  gives (transform_window (tie impl n) w) (rw_window (rw_expr pick) w).
Proof.
  intros [Hp Ho] Hn. unfold window_height in Hn. heights. unfold transform_window.
  eapply gives_bind; [by apply gives_collect, run_exprs|].
  eapply gives_bind; [by apply gives_collect, run_order_bys|]. apply gives_ret.
Qed.

Lemma run_kind k n :
  kind_all (λ q, runs_query q) (λ e, runs_expr e) k → kind_height k ≤ n →
  gives (transform_kind (tie impl n) k) (rw_kind pick k).
Proof.
  destruct k as [r name|v|p|op e|op l r|f|operand branches other|e t|e low high neg|e items neg|e q neg
    |q|q|e p neg ci|e neg|items|items|d]; simpl; intros Hk Hn; heights;
    try apply gives_ret;
    try solve [destruct_and? Hk; repeat first
      [ eapply gives_bind; [solve [match goal with H : _ |- _ => apply H; assumption end
                                  | apply gives_collect, run_exprs; assumption]|]
      | apply gives_ret]].
  - destruct Hk as (Ha & Hf & Ho).
    eapply gives_bind; [by apply gives_collect, run_exprs|].
    eapply gives_bind; [by apply gives_transpose, run_expr_opt|].
    eapply gives_bind; [|apply gives_ret]. apply gives_transpose.
    eapply opt_all_mp; [exact Ho|eassumption|]. intros w. apply run_window.
  - destruct Hk as (Ho & Hb & He).
    eapply gives_bind; [by apply gives_transpose, run_expr_opt|].
    eapply gives_bind; [|eapply gives_bind; [by apply gives_transpose, run_expr_opt|apply gives_ret]].
    apply gives_collect. eapply Forall_mp; [exact Hb|eassumption|]. intros b [Hc Hr]. by apply run_branch.
Qed.

Theorem tie_runs :
  (∀ q, runs_query q) ∧ (∀ e, runs_set_expr e) ∧ (∀ t, runs_table t) ∧ (∀ r, runs_relation r)
  ∧ (∀ e, runs_expr e).
Proof.
  apply Syntax_induction.
  - intros node cs r body ob lim off bc Hcs Hbody Hob Hlim Hoff [|n] Hn; [simpl in Hn; lia|].
    simpl in Hn. heights. simpl. rewrite impl_query. simpl.
    eapply gives_bind.
    { apply gives_collect. eapply Forall_mp; [exact Hcs|eassumption|]. intros c Hc Hle. simpl in *.
      eapply gives_bind; [by apply Hc|]. apply gives_ret. }
    eapply gives_bind; [by apply Hbody|].
    eapply gives_bind; [by apply gives_collect, run_order_bys|].
    eapply gives_bind; [by apply gives_transpose, run_expr_opt|].
    eapply gives_bind; [by apply gives_transpose, run_expr_opt|]. apply gives_ret.
  - intros s (Hp & Hf & Hsel & Hg & Hh) n Hn. simpl in Hn.
    destruct n as [|[|n]]; [lia|lia|]. heights. simpl. rewrite impl_set_expr. simpl.
    eapply gives_bind; [|apply gives_ret]. apply impl_select.
    + eapply Forall_mp; [exact Hp|eassumption|]. intros i. apply run_item.
    + eapply Forall_mp; [exact Hf|eassumption|]. intros t Ht Hle. by apply Ht.
    + by apply run_expr_opt.
    + by apply run_exprs.
    + by apply run_expr_opt.
  - intros lhs rhs node Hl Hr [|n] Hn; [simpl in Hn; lia|]. simpl in Hn. heights.
    simpl. rewrite impl_set_expr. simpl.
    eapply gives_bind; [by apply Hl|]. eapply gives_bind; [by apply Hr|]. apply gives_ret.
  - intros d node [|n] Hn; [simpl in Hn; lia|]. simpl. rewrite impl_set_expr. apply gives_ret.
  - intros r js node Hr Hjs [|n] Hn; [simpl in Hn; lia|]. simpl in Hn. heights.
    simpl. rewrite impl_table. simpl. eapply gives_bind; [by apply Hr|].
    eapply gives_bind; [|apply gives_ret]. apply gives_collect.
    eapply Forall_mp; [exact Hjs|eassumption|]. intros j [Hj Ho]. by apply run_join.
  - intros nm a node [|n] Hn; [simpl in Hn; lia|]. simpl. rewrite impl_relation. apply gives_ret.
  - intros q a node Hq [|n] Hn; [simpl in Hn; lia|]. simpl in Hn. heights. simpl.
    rewrite impl_relation. simpl. eapply gives_bind; [by apply Hq|]. apply gives_ret.
  - intros t a node Ht [|n] Hn; [simpl in Hn; lia|]. simpl in Hn. heights. simpl.
    rewrite impl_relation. simpl. eapply gives_bind; [by apply Ht|]. apply gives_ret.
  - intros d node [|n] Hn; [simpl in Hn; lia|]. simpl. rewrite impl_relation. apply gives_ret.
  - intros k node Hk [|n] Hn; [simpl in Hn; lia|]. simpl in Hn. heights. simpl. rewrite impl_expr. simpl.
    eapply gives_bind; [by apply run_kind|]. apply gives_ret.
Qed.
End Runs.

(** ** Laws of the reference *)

Lemma map_fixed {A} (f : A → A) l : Forall (λ x, f x = x) l → map f l = l.
Proof. induction 1 as [|x l Hx _ IH]; simpl; congruence. Qed.

Lemma option_map_fixed {A} (f : A → A) o : opt_all (λ x, f x = x) o → option_map f o = o.
Proof. destruct o as [x|]; [|done]. intros H. simpl. by rewrite H. Qed.

Lemma map_composed {A} (f g h : A → A) l : Forall (λ x, f (g x) = h x) l → map f (map g l) = map h l.
Proof. induction 1 as [|x l Hx _ IH]; simpl; congruence. Qed.

Lemma option_map_composed {A} (f g h : A → A) o :
  opt_all (λ x, f (g x) = h x) o → option_map f (option_map g o) = option_map h o.
Proof. destruct o as [x|]; [|done]. intros H. simpl. by rewrite H. Qed.

Section Laws.
Variable pick : SyntaxNode → option SyntaxExpr → option SyntaxExpr → option SyntaxExpr.
Hypothesis pick_same : ∀ node o, pick node o o = o.

(** Rebuilding without a change is the identity. *)
Lemma rw_identity :
  (∀ q, rw_query pick q = q) ∧ (∀ e, rw_set_expr pick e = e) ∧ (∀ t, rw_table pick t = t)
  ∧ (∀ r, rw_relation pick r = r) ∧ (∀ e, rw_expr pick e = e).
Proof.
  assert (∀ o, rw_expr pick (ob_expr o) = ob_expr o → rw_order_by (rw_expr pick) o = o) as Hord.
  { intros [e a nf nd] Ho. unfold rw_order_by. simpl in *. congruence. }
  assert (∀ l, Forall (λ o, rw_expr pick (ob_expr o) = ob_expr o) l → map (rw_order_by (rw_expr pick)) l = l)
    as Hords by (intros l Hl; apply map_fixed; eapply Forall_impl; eauto).
  apply Syntax_induction; simpl; try done.
  - intros node cs r body ob lim off bc Hcs -> Hob Hlim Hoff.
    rewrite Hords, !option_map_fixed by done. f_equal. apply map_fixed.
    eapply Forall_impl; [exact Hcs|]. intros [n cols q nd] Hq. simpl in *. congruence.
  - intros [d p f sel g h node] (Hp & Hf & Hs & Hg & Hh). simpl in *. unfold rw_select. simpl.
    rewrite (option_map_fixed _ sel), (option_map_fixed _ h), (map_fixed _ f), (map_fixed _ g),
      pick_same by done. f_equal. f_equal. apply map_fixed. eapply Forall_impl; [exact Hp|].
    intros [?|[e a nd]|?] Hd; simpl; [done| |done]. specialize (Hd _ eq_refl). simpl in Hd. congruence.
  - congruence.
  - intros r js node -> Hjs. f_equal. apply map_fixed. eapply Forall_impl; [exact Hjs|].
    intros [k rel on nd] [Hr Ho]. unfold rw_join. simpl in *. rewrite Hr, option_map_fixed by done. done.
  - congruence.
  - congruence.
  - intros k node Hk. f_equal.
    destruct k as [r name|v|p|op e|op l r|f|operand branches other|e t|e low high neg|e items neg|e q neg
      |q|q|e p neg ci|e neg|items|items|d]; simpl in *;
      try solve [destruct_and? Hk; rewrite ?map_fixed by done; congruence].
    + destruct Hk as (Ha & Hf & Ho). destruct f as [fn args di fi ov]. simpl in *.
      rewrite map_fixed, (option_map_fixed _ fi), (option_map_fixed _ ov); [done| |done..].
      intros w Hw. destruct (Ho _ Hw) as [Hpb Hob]. destruct w as [pb ob nd]. unfold rw_window. simpl in *.
      by rewrite map_fixed, Hords.
    + destruct Hk as (Ho & Hb & He). rewrite !option_map_fixed, map_fixed; [done| |done..].
      eapply Forall_impl; [exact Hb|]. intros [c r] [Hc Hr]. unfold rw_branch. simpl in *. congruence.
Qed.
End Laws.

(** Choices that do not look at the rewritten selection compose. *)
Section Composition.
Variables f g h : SyntaxNode → option SyntaxExpr → option SyntaxExpr.
Hypothesis fg : ∀ node o, f node (g node o) = h node o.
Local Abbreviation lift c := (λ node o _, c node o).

Lemma rw_compose :
  (∀ q, rw_query (lift f) (rw_query (lift g) q) = rw_query (lift h) q)
  ∧ (∀ e, rw_set_expr (lift f) (rw_set_expr (lift g) e) = rw_set_expr (lift h) e)
  ∧ (∀ t, rw_table (lift f) (rw_table (lift g) t) = rw_table (lift h) t)
  ∧ (∀ r, rw_relation (lift f) (rw_relation (lift g) r) = rw_relation (lift h) r)
  ∧ (∀ e, rw_expr (lift f) (rw_expr (lift g) e) = rw_expr (lift h) e).
Proof.
  set (F := lift f). set (G := lift g). set (H := lift h).
  assert (∀ l, Forall (λ o, rw_expr F (rw_expr G (ob_expr o)) = rw_expr H (ob_expr o)) l →
    map (rw_order_by (rw_expr F)) (map (rw_order_by (rw_expr G)) l) = map (rw_order_by (rw_expr H)) l)
    as Hords.
  { intros l Hl. apply map_composed. eapply Forall_impl; [exact Hl|].
    intros [e a nf nd] Ho. unfold rw_order_by. simpl in *. congruence. }
  apply Syntax_induction; simpl; try done.
  - intros node cs r body ob lim off bc Hcs -> Hob Hlim Hoff.
    rewrite Hords, (option_map_composed _ _ (rw_expr H) lim), (option_map_composed _ _ (rw_expr H) off) by done.
    f_equal. apply map_composed. eapply Forall_impl; [exact Hcs|].
    intros [n cols q nd] Hq. simpl in *. congruence.
  - intros [d p from sel gr hav node] (Hp & Hf & Hs & Hg & Hh). simpl in *. unfold rw_select. simpl.
    rewrite (option_map_composed _ _ (rw_expr H) hav), (map_composed _ _ (rw_expr H) gr),
      (map_composed _ _ (rw_table H) from) by done.
    unfold F, G, H in *. rewrite fg. f_equal. f_equal. apply map_composed. eapply Forall_impl; [exact Hp|].
    intros [?|[e a nd]|?] Hd; simpl; [done| |done]. specialize (Hd _ eq_refl). simpl in Hd. congruence.
  - congruence.
  - intros r js node -> Hjs. f_equal. apply map_composed. eapply Forall_impl; [exact Hjs|].
    intros [k rel on nd] [Hr Ho]. unfold rw_join. simpl in *.
    rewrite Hr, (option_map_composed _ _ (rw_expr H)) by done. done.
  - congruence.
  - congruence.
  - intros k node Hk. f_equal.
    destruct k as [r name|v|p|op e|op l r|fc|operand branches other|e t|e low high neg|e items neg|e q neg
      |q|q|e p neg ci|e neg|items|items|d]; simpl in *;
      try solve [destruct_and? Hk; rewrite ?(map_composed _ _ (rw_expr H)) by done; congruence].
    + destruct Hk as (Ha & Hf & Ho). destruct fc as [fn args di fi ov]. simpl in *.
      rewrite (map_composed _ _ (rw_expr H)), (option_map_composed _ _ (rw_expr H) fi),
        (option_map_composed _ _ (rw_window (rw_expr H)) ov); [done| |done..].
      intros w Hw. destruct (Ho _ Hw) as [Hpb Hob]. destruct w as [pb ob nd]. unfold rw_window. simpl in *.
      by rewrite (map_composed _ _ (rw_expr H)), Hords.
    + destruct Hk as (Ho & Hb & He).
      rewrite (option_map_composed _ _ (rw_expr H) operand), (option_map_composed _ _ (rw_expr H) other),
        (map_composed _ _ (rw_branch (rw_expr H))); [done| |done..].
      eapply Forall_impl; [exact Hb|]. intros [c r] [Hc Hr]. unfold rw_branch. simpl in *. congruence.
Qed.
End Composition.

(** ** The transformers of the source *)

(** A transformer that overrides no method returns, leaves its state, and
    rebuilds every query exactly, at any depth of calls from the height of the
    query upwards. *)
Theorem default_transformer_rebuilds {St Er : Type} (q : SyntaxQuery) (depth : nat) (s : St) :
  query_height q ≤ depth →
  transform_query (tie (default_methods (Er:=Er)) depth) q s = Some (Ok q, s).
Proof.
  intros Hd. destruct (rw_identity (λ _ _ o, o)) as [Hid _]; [done|].
  rewrite <- (Hid q) at 2. revert Hd s.
  apply (tie_runs (default_methods (St:=St) (Er:=Er)) (λ _ _ o, o)); try done.
  intros self sel Hp Hf Hs Hg Hh. simpl. unfold transform_select_children, rw_select.
  eapply gives_bind; [by apply gives_collect|]. eapply gives_bind; [by apply gives_collect|].
  eapply gives_bind; [by apply gives_transpose|]. eapply gives_bind; [by apply gives_collect|].
  eapply gives_bind; [by apply gives_transpose|]. apply gives_ret.
Qed.

Definition override (overrides : BTreeMap string (option SyntaxExpr)) (node : SyntaxNode)
    (selection : option SyntaxExpr) : option SyntaxExpr :=
  default selection (bt_get (node_id node) overrides).

Lemma override_runs overrides q depth :
  query_height q ≤ depth →
  gives (transform_query (tie (selection_override_transformer overrides) depth) q)
    (rw_query (λ node o _, override overrides node o) q).
Proof.
  revert depth. apply (tie_runs (selection_override_transformer overrides) (λ node o _, override overrides node o));
    try done.
  intros self sel Hp Hf _ Hg Hh. simpl. unfold rw_select, override.
  eapply gives_bind; [by apply gives_collect|]. eapply gives_bind; [by apply gives_collect|].
  eapply gives_bind; [by apply gives_collect|]. eapply gives_bind; [by apply gives_transpose|].
  apply gives_ret.
Qed.

Lemma apply_selection_overrides_eq q overrides :
  apply_selection_overrides q overrides = rw_query (λ node o _, override overrides node o) q.
Proof.
  unfold apply_selection_overrides.
  change (transform_query_children (tie (selection_override_transformer overrides) (query_height q)) q)
    with (transform_query (tie (selection_override_transformer overrides) (S (query_height q))) q).
  rewrite override_runs by lia. done.
Qed.

(** The override transformer returns at every depth from the height of the
    query, and its result is the query with, in each select reached without
    passing through a selection, the selection that the map holds for the
    select's node id, or else the one it had; all the rest is unchanged. *)
Theorem selection_overrides_spec (q : SyntaxQuery) (overrides : BTreeMap string (option SyntaxExpr)) :
  (∀ depth, query_height q ≤ depth →
     transform_query (tie (selection_override_transformer overrides) depth) q tt
     = Some (Ok (apply_selection_overrides q overrides), tt))
  ∧ apply_selection_overrides q overrides = rw_query (λ node o _, override overrides node o) q.
Proof.
  split; [|apply apply_selection_overrides_eq]. intros depth Hd.
  rewrite apply_selection_overrides_eq. by apply override_runs.
Qed.

(** No overrides change nothing, and overriding twice is overriding once
    with the later map before the earlier. *)
Theorem selection_overrides_compose (q : SyntaxQuery)
    (earlier later both : BTreeMap string (option SyntaxExpr)) :
  (∀ id, bt_get id both = option_or_else (bt_get id later) (bt_get id earlier)) →
  apply_selection_overrides (apply_selection_overrides q earlier) later = apply_selection_overrides q both
  ∧ apply_selection_overrides q [] = q.
Proof.
  intros Hboth. rewrite !apply_selection_overrides_eq. split.
  - apply (rw_compose (override later) (override earlier) (override both)).
    intros node o. unfold override. rewrite Hboth. by destruct (bt_get (node_id node) later).
  - by apply (rw_identity (λ node o _, override [] node o)).
Qed.

(** ** Conjunctions *)

Lemma flatten_nonempty e : flatten_boolean_and e ≠ [].
Proof.
  revert e. apply (Syntax_induction (λ _, True) (λ _, True) (λ _, True) (λ _, True)); try done.
  intros k node Hk. destruct k as [| | | |op l r| | | | | | | | | | | | |]; try done.
  destruct op; try done. simpl. destruct Hk as [Hl _]. by intros [? _]%app_nil.
Qed.

Lemma flatten_rebuild_from items current index node :
  flatten_boolean_and (rebuild_from current index items node)
  = flatten_boolean_and current ++ concat (map flatten_boolean_and items).
Proof.
  revert current index. induction items as [|i items IH]; intros current index; simpl.
  - by rewrite app_nil_r.
  - rewrite IH. simpl. by rewrite <- app_assoc.
Qed.

Lemma flatten_leaves e : Forall (λ i, flatten_boolean_and i = [i]) (flatten_boolean_and e).
Proof.
  revert e. apply (Syntax_induction (λ _, True) (λ _, True) (λ _, True) (λ _, True)); try done.
  intros k node Hk. destruct k as [| | | |op l r| | | | | | | | | | | | |]; try (by repeat constructor).
  destruct op; try (by repeat constructor). simpl. destruct Hk as [Hl Hr]. by apply Forall_app.
Qed.

Lemma flatten_of_leaves l :
  Forall (λ i, flatten_boolean_and i = [i]) l → concat (map flatten_boolean_and l) = l.
Proof. induction 1 as [|i l Hi _ IH]; simpl; [done|]. by rewrite Hi, IH. Qed.

(** An expression taken apart into its conjuncts and put together again
    has the same conjuncts, none of them a conjunction, and therefore the same
    value under every interpretation in which AND is associative. *)
Theorem conjuncts_survive_a_rebuild (e : SyntaxExpr) (node : SyntaxNode) :
  ∃ e', rebuild_boolean_and (flatten_boolean_and e) node = Some e'
  ∧ flatten_boolean_and e' = flatten_boolean_and e
  ∧ ∀ (V : Type) (conj : V → V → V) (value : SyntaxExpr → V),
      Assoc (=) conj → (∀ a b n, value (MkSyntaxExpr (SBinary And a b) n) = conj (value a) (value b)) →
      value e' = value e.
Proof.
  destruct (flatten_boolean_and e) as [|c items] eqn:E; [by apply flatten_nonempty in E|].
  simpl. eexists. split; [done|].
  assert (flatten_boolean_and (rebuild_from c 0 items node) = c :: items) as Hflat.
  { rewrite flatten_rebuild_from. pose proof (flatten_leaves e) as Hl. rewrite E in Hl.
    apply Forall_cons in Hl as [-> Hl]. by rewrite flatten_of_leaves. }
  split; [done|]. intros V conj value Hassoc Hand.
  set (total := λ l : list SyntaxExpr, match l with
                | [] => value e
                | x :: l => foldl conj (value x) (map value l) end).
  assert (∀ l a b, foldl conj (conj a b) l = conj a (foldl conj b l)) as Hfold.
  { intros l. induction l as [|x l IH]; intros a b; simpl; [done|]. by rewrite <- Hassoc, IH. }
  assert (∀ x, value x = total (flatten_boolean_and x)) as Htotal.
  { apply (Syntax_induction (λ _, True) (λ _, True) (λ _, True) (λ _, True)); try done.
    intros k n Hk. destruct k as [| | | |op l r| | | | | | | | | | | | |]; try done.
    destruct op; try done. destruct Hk as [Hl Hr]. rewrite Hand, Hl, Hr. simpl.
    destruct (flatten_boolean_and l) as [|x xs] eqn:El; [by apply flatten_nonempty in El|].
    destruct (flatten_boolean_and r) as [|y ys] eqn:Er; [by apply flatten_nonempty in Er|].
    simpl. rewrite map_app, foldl_app. simpl. by rewrite Hfold. }
  by rewrite (Htotal e), Htotal, Hflat, E.
Qed.
