(* ===== verification/Adapters.v ===== *)
(** Backend adapters: the trait of [queryfabric-catalog/src/model.rs] and the
    PostgreSQL adapter, [queryfabric-adapter-postgres/src/lib.rs]. *)
From S2P Require Import Prelude BTreeMap Types Diagnostics Syntax Bound Catalog Features Cost Render.
Local Open Scope result_scope.

(** The methods of the trait [BackendAdapter]. *)
Record BackendAdapter := {
  adapter_name : string;
  adapter_capabilities : CapabilitySet;
  adapter_analyze : BoundQuery → Catalog → BackendAnalysis;
  adapter_emit : BoundQuery → Catalog → Result EmitArtifact
}.

Definition diagnostic_summary (ds : list QueryDiagnostic) : string :=
  string_join "; " (List.map message ds).

(** ** PostgreSQL *)

Definition postgres_capabilities : CapabilitySet :=
  let c := from_features
    [BFCommonTableExpressions; BFDerivedTables; BFJoins; BFWindows; BFSetOperations; BFAggregates;
     BFDistinctAggregates; BFScalarSubqueries; BFInSubqueries; BFExplain; BFLimitOffset] in
  let c := with_limits c
    {| max_rows := None; max_bytes_scanned := None; max_result_bytes := None;
       max_concurrent_queries := None; interactive_byte_limit := 128 * 1024 * 1024;
       batch_byte_limit := 4 * 1024 * 1024 * 1024 |} in
  let c := with_result_formats c [Csv; JsonFormat] in
  let c := with_async_export c false in
  with_federated_execution c false.

Definition postgres_analyze (query : BoundQuery) (catalog : Catalog) : BackendAnalysis :=
  analyze_backend_support catalog "postgres" postgres_capabilities query false.

Definition postgres_emit (query : BoundQuery) (catalog : Catalog) : Result EmitArtifact :=
  let analysis := postgres_analyze query catalog in
  if negb (an_supported analysis) then
    Err (unsupported "postgres-emission" (diagnostic_summary (an_diagnostics analysis)))
  else
    let? sql := emit_sql_artifact query catalog Postgres in
    Ok (ASql sql).

Definition PostgresAdapter : BackendAdapter :=
  {| adapter_name := "postgres"; adapter_capabilities := postgres_capabilities;
     adapter_analyze := postgres_analyze; adapter_emit := postgres_emit |}.

(** ** Facts *)

(** The PostgreSQL adapter emits exactly the supported queries that the
    renderer can write, and what it emits is the renderer's artifact. *)
Theorem postgres_emits_iff (query : BoundQuery) (catalog : Catalog) (artifact : EmitArtifact) :
  adapter_emit PostgresAdapter query catalog = Ok artifact ↔
  an_supported (adapter_analyze PostgresAdapter query catalog) = true
  ∧ ∃ sql, emit_sql_artifact query catalog Postgres = Ok sql ∧ artifact = ASql sql.
Proof.
  cbn [adapter_emit adapter_analyze PostgresAdapter]. unfold postgres_emit.
  destruct (an_supported (postgres_analyze query catalog)); cbn [negb].
  - rewrite rbind_Ok. split; [intros (sql & Hs & [= <-])|intros (_ & sql & -> & ->)]; eauto 6.
  - split; [done|]. by intros [? _].
Qed.
