(* ===== verification/Optimizer.v ===== *)
(** The optimization pipeline and the sizing of isolated jobs:
    [queryfabric-opt/src/lib.rs] and [queryfabric-opt/src/jobs.rs]. *)
From S2P Require Import Prelude BTreeMap Types Diagnostics Syntax Bound Catalog Features Cost.
Local Open Scope result_scope.

(** ** The pipeline *)

Record RewriteAdvisory := { advisory_code : string; advisory_message : string }.

(** The trait [OptimizationPass]. *)
Record OptimizationPass := {
  pass_name : string;
  pass_apply : BoundQuery → Catalog → Result BoundQuery
}.

Definition IdentityPass : OptimizationPass :=
  {| pass_name := "identity"; pass_apply query _ := Ok query |}.

Record OptimizationPipeline := { passes : list OptimizationPass }.

Definition OptimizationPipeline_new : OptimizationPipeline := {| passes := [] |}.

Definition with_pass (self : OptimizationPipeline) (pass : OptimizationPass) : OptimizationPipeline :=
  {| passes := passes self ++ [pass] |}.

Definition advisory (pass : OptimizationPass) : RewriteAdvisory :=
  {| advisory_code := "QFNORM:" +:+ pass_name pass;
     advisory_message := "Applied normalization pass `" +:+ pass_name pass +:+ "`." |}.

(** The loop over the passes, with the advisories collected so far. *)
Fixpoint run_passes (ps : list OptimizationPass) (catalog : Catalog) (query : BoundQuery)
    (advisories : list RewriteAdvisory) : Result (BoundQuery * list RewriteAdvisory) :=
  match ps with
  | [] => Ok (query, advisories)
  | pass :: ps =>
      let advisories := advisories ++ [advisory pass] in
      let? query := pass_apply pass query catalog in
      run_passes ps catalog query advisories
  end.

Definition normalize (self : OptimizationPipeline) (query : BoundQuery) (catalog : Catalog)
    : Result BoundQuery :=
  let? r := run_passes (passes self) catalog query [] in
  let '(query, advisories) := r in
  Ok (if is_empty advisories then query
      else bound_with_diagnostics query
             (bound_diagnostics query
              ++ List.map (λ a, diagnostic_note (advisory_code a) (advisory_message a)) advisories)).

(** ** Sizing *)

Definition MI : N := 1024 * 1024.

(** [u64::div_ceil]. *)
Definition u64_div_ceil (a b : N) : N :=
  if (a mod b =? 0)%N then (a / b)%N else (a / b + 1)%N.

Definition memory_quantity (bytes floor_bytes : N) : string :=
  show_N (u64_div_ceil (N.max bytes floor_bytes) MI) +:+ "Mi".

Definition memory_quantity_from_estimate (estimated : EstimatedCost) (floor_bytes : N) : string :=
  memory_quantity (ec_memory_bytes estimated) floor_bytes.

(** [std::time::Duration] as nanoseconds; [from_millis] and [max]. *)
Definition duration_from_millis (ms : N) : N := ms * 1000000.

Definition timeout_from_estimate (estimated : EstimatedCost) (floor : N) : N :=
  N.max (duration_from_millis (ec_wallclock_estimate_ms estimated)) floor.

(** ** Facts *)

Lemma run_passes_Ok ps catalog query advisories query' advisories' :
  run_passes ps catalog query advisories = Ok (query', advisories') ↔
  advisories' = advisories ++ List.map advisory ps
  ∧ foldl (λ r pass, let? q := r in pass_apply pass q catalog) (Ok query) ps = Ok query'.
Proof.
  revert query advisories. induction ps as [|pass ps IH]; intros query advisories; simpl.
  - rewrite app_nil_r. split; [intros [= <- <-]|intros [-> [= <-]]]; done.
  - destruct (pass_apply pass query catalog) as [q|e]; simpl.
    + rewrite IH, <- app_assoc. done.
    + split; [done|]. intros [_ H]. clear IH. induction ps as [|p ps IH]; [done|]. auto.
Qed.

(** The pipeline runs its passes in order, each on the result of the one
    before, and succeeds exactly when all of them do; the result is that of the
    last pass with one note appended for every pass, and without passes the
    query itself. *)
Theorem normalize_runs_the_passes (self : OptimizationPipeline) (query : BoundQuery) (catalog : Catalog)
    (result : BoundQuery) :
  normalize self query catalog = Ok result ↔
  ∃ last, foldl (λ r pass, let? q := r in pass_apply pass q catalog) (Ok query) (passes self) = Ok last
  ∧ result = (if is_empty (passes self) then last
              else bound_with_diagnostics last
                     (bound_diagnostics last
                      ++ List.map (λ p, diagnostic_note ("QFNORM:" +:+ pass_name p)
                                          ("Applied normalization pass `" +:+ pass_name p +:+ "`."))
                           (passes self))).
Proof.
  unfold normalize. rewrite rbind_Ok. split.
  - intros ([last advisories] & [-> Hlast]%run_passes_Ok & [= <-]). exists last. split; [done|].
    simpl. rewrite List.map_map. by destruct (passes self).
  - intros (last & Hlast & ->). exists (last, List.map advisory (passes self)). split.
    + by apply run_passes_Ok.
    + simpl. rewrite List.map_map. by destruct (passes self).
Qed.

Lemma div_ceil_bounds a b : (0 < b)%N → (a ≤ u64_div_ceil a b * b < a + b)%N.
Proof.
  intros Hb. unfold u64_div_ceil. assert (b ≠ 0%N) as Hb' by lia.
  pose proof (N.div_mod a b Hb') as Hd. pose proof (N.mod_lt a b Hb') as Hr.
  revert Hd Hr. generalize (a / b)%N (a mod b)%N. intros q r -> Hr.
  destruct (N.eqb_spec r 0); nia.
Qed.

(** The memory of an isolated worker is a whole number of mebibytes, at
    least the estimate and the floor, and less than a mebibyte above the larger
    of the two. *)
Theorem memory_quantity_bounds (estimated : EstimatedCost) (floor_bytes : N) :
  ∃ mib, memory_quantity_from_estimate estimated floor_bytes = show_N mib +:+ "Mi"
  ∧ (N.max (ec_memory_bytes estimated) floor_bytes ≤ mib * MI
     < N.max (ec_memory_bytes estimated) floor_bytes + MI)%N.
Proof.
  eexists. split; [done|]. apply div_ceil_bounds. done.
Qed.
