(* ===== verification/Federation.v ===== *)
(** The scatter-gather planner: [queryfabric-opt/src/federation/].

    A federated query runs in two stages: a scatter statement on every node and
    a gather statement over the collected partial results.  The planner rewrites
    the bound plan for each stage and has a backend adapter emit it; the gather
    statement's relation is then replaced, in the text, by a placeholder. *)
From Stdlib Require Import QArith.Qcanon.
From S2P Require Import Prelude BTreeMap Types Diagnostics Syntax Bound Catalog Features Cost Render Adapters.
Local Open Scope result_scope.

(** ** Texts: [str::replacen] with one replacement *)

Definition replace_first (s p replacement : string) : string :=
  match split_first p s with
  | Some (before, after) => before +:+ replacement +:+ after
  | None => s
  end.

(** ** [federation/mod.rs] *)

Definition PARTIALS_PLACEHOLDER : string := "{partials}".
Definition PARTIALS_RELATION : string := "partials".

Inductive FederationError :=
| FUnsupported (reason : string)
| FCompile (error : QueryFabricError).

Local Abbreviation FResult A := (result A FederationError).

(** [?] on a result of the compiler, through [From<QueryFabricError>]. *)
Definition compile {A} (r : Result A) : FResult A :=
  match r with Ok a => Ok a | Err e => Err (FCompile e) end.

Record ScatterGatherPlan := {
  scatter_sql : string;
  gather_sql : string;
  sg_from_target : string;
  sg_result_schema : ResultSchema
}.

Definition passthrough_gather_sql : string := "SELECT * FROM (" +:+ PARTIALS_PLACEHOLDER +:+ ")".

(** ** [federation/relations.rs] *)

Definition top_level_select (bound : BoundQuery) : FResult BoundSelect :=
  ok_or (bound_set_expr_as_select (bq_body (bound_plan bound)))
    (FUnsupported "distributed execution requires a single SELECT").

Definition primary_relation_binding (bound : BoundQuery) : FResult BoundRelationBinding :=
  let? select := top_level_select bound in
  match bsel_from select with
  | [MkBoundTableWithJoins relation joins _] =>
      if negb (is_empty joins) then
        Err (FUnsupported "distributed execution does not support JOIN")
      else
        match relation with
        | BTable binding _ => Ok binding
        | _ => Err (FUnsupported "distributed execution requires a base table relation")
        end
  | _ => Err (FUnsupported "distributed execution requires a single FROM relation")
  end.

(** The features that cannot be decomposed, in the order they are tested. *)
Definition unsupported_features (features : PlanFeatures) : list string :=
  (if has_ctes features then ["WITH (CTE)"] else [])
  ++ (if has_derived_tables features then ["FROM subquery"] else [])
  ++ (if has_joins features then ["JOIN"] else [])
  ++ (if has_windows features then ["window functions"] else [])
  ++ (if has_set_operations features then ["set operations"] else [])
  ++ (if has_scalar_subqueries features then ["scalar subqueries"] else [])
  ++ (if has_in_subqueries features then ["WHERE ... IN (SELECT ...)"] else [])
  ++ (if has_clickhouse_settings features then ["SETTINGS"] else [])
  ++ (if has_clickhouse_format features then ["FORMAT"] else []).

Definition validate_federation_shape (features : PlanFeatures) (bound : BoundQuery) : FResult unit :=
  let reasons := unsupported_features features in
  if negb (is_empty reasons) then
    Err (FUnsupported ("distributed execution does not support " +:+ string_join ", " reasons))
  else
    let? binding := primary_relation_binding bound in
    match relation_name binding with
    | None => Err (FUnsupported "distributed execution requires a primary base relation")
    | Some _ => Ok tt
    end.

Definition from_target (binding : BoundRelationBinding) : FResult string :=
  ok_or (NameRef_display_name <$> relation_name binding)
    (FUnsupported "distributed execution requires a named base relation").

Definition fed_render_relation (binding : BoundRelationBinding) : string :=
  match relation_name binding with
  | Some name =>
      NameRef_display_name name
      +:+ (if negb (eq_ignore_ascii_case (nr_name name) (binding_name binding))
           then " AS " +:+ binding_name binding else "")
  | None => binding_name binding
  end.

Definition wrap_relation_source (sql : string) (binding : BoundRelationBinding) (replacement : string)
    : FResult string :=
  let rendered := fed_render_relation binding in
  let target := "FROM " +:+ rendered in
  if negb (str_contains sql target) then
    Err (FUnsupported ("could not identify distributed source relation in emitted SQL: expected `"
                       +:+ target +:+ "`"))
  else Ok (replace_first sql target ("FROM " +:+ replacement)).

Definition partials_as (binding : BoundRelationBinding) : string :=
  "(" +:+ PARTIALS_PLACEHOLDER +:+ ") AS " +:+ binding_name binding.

Definition wrap_query_over_partials (sql : string) (binding : BoundRelationBinding) : FResult string :=
  wrap_relation_source sql binding (partials_as binding).

Definition wrap_placeholder_relation (sql : string) (binding : BoundRelationBinding) : FResult string :=
  wrap_relation_source sql binding (partials_as binding).

(** ** [federation/aggregate.rs] *)

Record AggregateRewrite := {
  rewrite_scatter : list BoundProjectionItem;
  rewrite_gather : BoundProjectionItem
}.

Definition simple_expr_name (expr : BoundExpr) : option string :=
  match be_kind expr with
  | BColumn column => Some (col_name column)
  | BLiteral _ => Some "literal"
  | _ => None
  end.

Definition auto_aggregate_alias (function : BoundFunctionCall) (index : nat) : string :=
  let func := to_ascii_lowercase (fn_name (bfc_function function)) in
  let arg := default "value" (head (bfc_args function) ≫= simple_expr_name) in
  func +:+ "_" +:+ arg +:+ "_" +:+ show_N (N.of_nat index).

Definition projection_output_name (details : BoundProjectionExprOf BoundExpr) : option string :=
  option_or_else (bpe_alias details) (simple_expr_name (bpe_expr details)).

Definition column_expr (name : string) (data_type : DataType) (nullable : bool) (node : SyntaxNode) : BoundExpr :=
  MkBoundExpr (BColumn {| col_relation := None; col_name := name |}) data_type nullable node.

(** [BoundProjectionItem::expr]. *)
Definition projection_expr (expr : BoundExpr) (alias : option string) (field : ResultField) (node : SyntaxNode)
    : BoundProjectionItem :=
  BPExpr (MkBoundProjectionExpr expr alias field node).

Definition column_projection (name : string) (field : ResultField) (node : SyntaxNode) : BoundProjectionItem :=
  projection_expr (column_expr name (field_type field) (field_nullable field) node) None field node.

Definition field_for_projection (item : BoundProjectionItem) : FResult ResultField :=
  match item with
  | BPExpr details => Ok (bpe_field details)
  | _ => Err (FUnsupported "federation aggregate planning requires expression projections")
  end.

(** The calls the planner builds: a bare function of one argument. *)
Definition plain_call (name : string) (arg : BoundExpr) : BoundExprKind :=
  BFunction (MkBoundFunctionCall {| fn_namespace := None; fn_name := name |} None [arg] false None None None).

(** The column of a partial result under its alias. *)
Definition partial_column (alias : string) (field : ResultField) (node : SyntaxNode) : BoundExpr :=
  column_expr alias (field_type field) (field_nullable field) node.

(** The branches for [sum], [min] and [max], for [count], and for [avg]. *)
Definition rewrite_self (details : BoundProjectionExprOf BoundExpr) (name user_alias : string) (index : nat)
    : AggregateRewrite :=
  let node := bpe_node details in
  let field := bpe_field details in
  let alias := "__fed_" +:+ user_alias +:+ "_" +:+ show_N (N.of_nat index) in
  let partial := ResultField_new alias (field_type field) (field_nullable field) in
  {| rewrite_scatter := [projection_expr (bpe_expr details) (Some alias) partial node];
     rewrite_gather :=
       projection_expr
         (MkBoundExpr (plain_call name (partial_column alias partial node))
            (field_type field) (field_nullable field) node)
         (Some user_alias) field node |}.

Definition rewrite_count (details : BoundProjectionExprOf BoundExpr) (user_alias : string) (index : nat)
    : AggregateRewrite :=
  let node := bpe_node details in
  let field := bpe_field details in
  let alias := "__fed_" +:+ user_alias +:+ "_" +:+ show_N (N.of_nat index) in
  let partial := ResultField_new alias TInt64 false in
  {| rewrite_scatter := [projection_expr (bpe_expr details) (Some alias) partial node];
     rewrite_gather :=
       projection_expr
         (MkBoundExpr (plain_call "sum" (partial_column alias partial node))
            (field_type field) (field_nullable field) node)
         (Some user_alias) field node |}.

Definition rewrite_avg (details : BoundProjectionExprOf BoundExpr) (arg : BoundExpr) (user_alias : string)
    (index : nat) : AggregateRewrite :=
  let node := bpe_node details in
  let field := bpe_field details in
  let sum_alias := "__fed_" +:+ user_alias +:+ "_sum_" +:+ show_N (N.of_nat index) in
  let cnt_alias := "__fed_" +:+ user_alias +:+ "_cnt_" +:+ show_N (N.of_nat index) in
  let sum_field := ResultField_new sum_alias TFloat64 true in
  let cnt_field := ResultField_new cnt_alias TInt64 false in
  let sum_expr := MkBoundExpr (plain_call "sum" (partial_column sum_alias sum_field node)) TFloat64 true node in
  let cnt_expr := MkBoundExpr (plain_call "sum" (partial_column cnt_alias cnt_field node)) TFloat64 true node in
  {| rewrite_scatter :=
       [projection_expr (MkBoundExpr (plain_call "sum" arg) TFloat64 true node) (Some sum_alias) sum_field node;
        projection_expr (MkBoundExpr (plain_call "count" arg) TInt64 false node) (Some cnt_alias) cnt_field node];
     rewrite_gather :=
       projection_expr
         (MkBoundExpr (BBinary Divide sum_expr cnt_expr) (field_type field) (field_nullable field) node)
         (Some user_alias) field node |}.

Definition classify_supported_aggregate (details : BoundProjectionExprOf BoundExpr) (index : nat)
    : FResult (option AggregateRewrite) :=
  match be_kind (bpe_expr details) with
  | BFunction function =>
      if is_some (bfc_over function) || is_some (bfc_filter function) || bfc_distinct function then
        Err (FUnsupported "federation aggregate planning does not support DISTINCT, FILTER, or windowed aggregates")
      else
        let function_name := to_ascii_lowercase (fn_name (bfc_function function)) in
        let user_alias := default (auto_aggregate_alias function index) (bpe_alias details) in
        if existsb (String.eqb function_name) ["sum"; "min"; "max"] then
          Ok (Some (rewrite_self details function_name user_alias index))
        else if String.eqb function_name "count" then
          Ok (Some (rewrite_count details user_alias index))
        else if String.eqb function_name "avg" then
          let? arg := ok_or (head (bfc_args function))
            (FUnsupported "AVG federation decomposition requires a single argument") in
          Ok (Some (rewrite_avg details arg user_alias index))
        else
          Err (FUnsupported ("federation aggregate planning does not support `"
                             +:+ FunctionRef_display_name (bfc_function function) +:+ "`"))
  | _ => Ok None
  end.

Definition aggregate_names : list string := ["count"; "sum"; "avg"; "min"; "max"; "count_distinct"].

Fixpoint expr_contains_aggregate (expr : BoundExpr) : bool :=
  match expr with
  | MkBoundExpr kind _ _ _ =>
      match kind with
      | BFunction function =>
          existsb (String.eqb (to_ascii_lowercase (fn_name (bfc_function function)))) aggregate_names
          || existsb expr_contains_aggregate (bfc_args function)
          || match bfc_filter function with Some filter => expr_contains_aggregate filter | None => false end
      | BUnary _ e | BCast e _ | BIsNull e _ => expr_contains_aggregate e
      | BBinary _ lhs rhs => expr_contains_aggregate lhs || expr_contains_aggregate rhs
      | BCase operand when_then else_result =>
          match operand with Some e => expr_contains_aggregate e | None => false end
          || existsb (λ b, expr_contains_aggregate (bwt_condition b) || expr_contains_aggregate (bwt_result b))
               when_then
          || match else_result with Some e => expr_contains_aggregate e | None => false end
      | BBetween e low high _ =>
          expr_contains_aggregate e || expr_contains_aggregate low || expr_contains_aggregate high
      | BInList e items _ => expr_contains_aggregate e || existsb expr_contains_aggregate items
      | BLike e pattern _ _ => expr_contains_aggregate e || expr_contains_aggregate pattern
      | BTuple items | BArray items => existsb expr_contains_aggregate items
      | BInSubquery _ _ _ | BScalarSubquery _ | BExists _ | BColumn _ | BLiteral _ | BParameter _
      | BUnsupported _ => false
      end
  end.

(** ** [federation/plans.rs] *)

Definition emit_sql (adapter : BackendAdapter) (bound : BoundQuery) (catalog : Catalog) : FResult SqlArtifact :=
  let? artifact := compile (adapter_emit adapter bound catalog) in
  ok_or (as_sql artifact)
    (FUnsupported ("backend `" +:+ adapter_name adapter
                   +:+ "` did not produce a SQL artifact for distributed planning")).

(** The plan without [ORDER BY], [LIMIT] and [OFFSET]. *)
Definition without_order (plan : BoundQueryPlan) : BoundQueryPlan :=
  match plan with
  | MkBoundQueryPlan node ctes body _ _ _ clauses schema =>
      MkBoundQueryPlan node ctes body [] None None clauses schema
  end.

(** [plan.body = body; plan.result_schema = schema]. *)
Definition with_body (plan : BoundQueryPlan) (body : BoundSetExpr) (schema : ResultSchema) : BoundQueryPlan :=
  match plan with
  | MkBoundQueryPlan node ctes _ order_by limit offset clauses _ =>
      MkBoundQueryPlan node ctes body order_by limit offset clauses schema
  end.

Section Plans.
Variables (adapter : BackendAdapter) (catalog : Catalog) (bound : BoundQuery).

Definition build_federated_passthrough_plan (artifact : SqlArtifact) : FResult ScatterGatherPlan :=
  let? base_relation := primary_relation_binding bound in
  let? target := from_target base_relation in
  let scatter_bound := bound_with_plan bound (without_order (bound_plan bound)) in
  let? scatter_artifact := emit_sql adapter scatter_bound catalog in
  let? gather := wrap_query_over_partials (sql_text artifact) base_relation in
  Ok {| scatter_sql := sql_text scatter_artifact; gather_sql := gather; sg_from_target := target;
        sg_result_schema := sql_result_schema artifact |}.

(** The accumulators of the loop over the projection. *)
Record Stages := {
  scatter_projection : list BoundProjectionItem;
  gather_projection : list BoundProjectionItem;
  gather_group_by : list BoundExpr;
  scatter_fields : list ResultField;
  aggregate_count : nat
}.

Definition no_stages : Stages :=
  {| scatter_projection := []; gather_projection := []; gather_group_by := []; scatter_fields := [];
     aggregate_count := 0 |}.

(** One turn of the loop. *)
Definition decompose_item (index : nat) (item : BoundProjectionItem) (s : Stages) : FResult Stages :=
  match item with
  | BPExpr details =>
      let? classified := classify_supported_aggregate details index in
      match classified with
      | Some aggregate =>
          let? fields := rcollect field_for_projection (rewrite_scatter aggregate) in
          Ok {| scatter_projection := scatter_projection s ++ rewrite_scatter aggregate;
                gather_projection := gather_projection s ++ [rewrite_gather aggregate];
                gather_group_by := gather_group_by s;
                scatter_fields := scatter_fields s ++ fields;
                aggregate_count := S (aggregate_count s) |}
      | None =>
          if expr_contains_aggregate (bpe_expr details) then
            Err (FUnsupported "federation aggregate planning only supports top-level SUM/COUNT/AVG/MIN/MAX projections")
          else
            let? output_name := ok_or (projection_output_name details)
              (FUnsupported "federation aggregate planning requires aliases for computed non-aggregate projections") in
            let field := bpe_field details in
            Ok {| scatter_projection := scatter_projection s ++ [item];
                  gather_projection :=
                    gather_projection s ++ [column_projection output_name field (bpe_node details)];
                  gather_group_by :=
                    gather_group_by s
                    ++ [column_expr output_name (field_type field) (field_nullable field) (bpe_node details)];
                  scatter_fields := scatter_fields s ++ [field];
                  aggregate_count := aggregate_count s |}
      end
  | _ => Err (FUnsupported "federation aggregate planning requires explicit projection expressions")
  end.

(** [for (index, item) in projection.iter().enumerate()]. *)
Fixpoint decompose_from (index : nat) (items : list BoundProjectionItem) (s : Stages) : FResult Stages :=
  match items with
  | [] => Ok s
  | item :: items =>
      let? s := decompose_item index item s in
      decompose_from (S index) items s
  end.

(** The select of the scatter stage. *)
Definition scatter_select (original : BoundSelect) (s : Stages) : BoundSelect :=
  MkBoundSelect (bsel_distinct original) (scatter_projection s) (bsel_from original) (bsel_selection original)
    (bsel_group_by original) None (ResultSchema_new (scatter_fields s)) (bsel_node original).

(** The select of the gather stage, over the partial results. *)
Definition gather_select (original : BoundSelect) (s : Stages) (partials : BoundRelationBinding)
    (schema : ResultSchema) : BoundSelect :=
  MkBoundSelect false (gather_projection s)
    [MkBoundTableWithJoins (BTable partials (bsel_node original)) [] (bsel_node original)]
    None (gather_group_by s) None schema (bsel_node original).

Definition build_federated_aggregate_plan (artifact : SqlArtifact) : FResult ScatterGatherPlan :=
  let? original_select := top_level_select bound in
  if bsel_distinct original_select then
    Err (FUnsupported "federation aggregate planning does not support SELECT DISTINCT")
  else if is_some (bsel_having original_select) then
    Err (FUnsupported "federation aggregate planning does not yet support HAVING")
  else if is_some (bq_offset (bound_plan bound)) then
    Err (FUnsupported "federation aggregate planning does not yet support OFFSET")
  else
    let? base_relation := primary_relation_binding bound in
    let? target := from_target base_relation in
    let? stages := decompose_from 0 (bsel_projection original_select) no_stages in
    if Nat.eqb (aggregate_count stages) 0 then
      Err (FUnsupported "expected aggregate projections for federation aggregate planning")
    else if existsb (λ o, expr_contains_aggregate (bob_expr o)) (bq_order_by (bound_plan bound)) then
      Err (FUnsupported "federation aggregate ORDER BY must reference projected aliases, not aggregate expressions")
    else
      let scatter := BSelect (scatter_select original_select stages) in
      let scatter_plan := without_order (with_body (bound_plan bound) scatter (set_expr_result_schema scatter)) in
      let? scatter_artifact := emit_sql adapter (bound_with_plan bound scatter_plan) catalog in
      let placeholder_binding :=
        {| binding_name := binding_name base_relation;
           relation_name := Some {| nr_namespace := None; nr_name := PARTIALS_RELATION |};
           binding_schema := sql_result_schema scatter_artifact |} in
      let gather :=
        BSelect (gather_select original_select stages placeholder_binding (sql_result_schema artifact)) in
      let gather_plan := with_body (bound_plan bound) gather (sql_result_schema artifact) in
      let? gather_artifact := emit_sql adapter (bound_with_plan bound gather_plan) catalog in
      let? gather_text := wrap_placeholder_relation (sql_text gather_artifact) placeholder_binding in
      Ok {| scatter_sql := sql_text scatter_artifact; gather_sql := gather_text; sg_from_target := target;
            sg_result_schema := sql_result_schema artifact |}.

Definition build_scatter_gather_plan (features : PlanFeatures) (artifact : SqlArtifact)
    : FResult ScatterGatherPlan :=
  let? _ := validate_federation_shape features bound in
  if has_aggregates features then build_federated_aggregate_plan artifact
  else build_federated_passthrough_plan artifact.
End Plans.

(** The scatter-gather planner: which queries it accepts, what the two stages
    compute together, and queries it plans wrongly.

    The stages are compared under a semantics of aggregate queries on one table:
    rows give a value to every expression, groups are the rows that agree on the
    keys, and aggregates are those of SQL on exact numbers. *)

(** ** Values and aggregates *)

Inductive Value := Null | Num (q : Qc) | Text (s : string).

#[export] Instance Value_eq_dec : EqDecision Value.
Proof. intros a b. unfold Decision. decide equality; [apply Qc_eq_dec|apply String.string_dec]. Defined.

Definition value_leb (a b : Value) : bool :=
  match a, b with
  | Num p, Num q => if Qc_le_dec p q then true else false
  | Text s, Text t => match cmp s t with Gt => false | _ => true end
  | Null, _ => true
  | Num _, Text _ => true
  | _, _ => false
  end.

Definition value_min (a b : Value) : Value := if value_leb a b then a else b.
Definition value_max (a b : Value) : Value := if value_leb a b then b else a.

Definition zero : Qc := Q2Qc (QArith_base.Qmake 0 1).
Definition count_as_number (n : nat) : Qc := Q2Qc (QArith_base.inject_Z (Z.of_nat n)).

(** Aggregates skip nulls. *)
Definition non_null (vs : list Value) : list Value := filter (λ v, v ≠ Null) vs.
Definition numbers (vs : list Value) : list Qc :=
  omap (λ v, match v with Num q => Some q | _ => None end) vs.

Definition sum_values (vs : list Value) : Value :=
  match numbers vs with [] => Null | qs => Num (foldr Qcplus zero qs) end.
Definition count_values (vs : list Value) : Value :=
  Num (count_as_number (length (non_null vs))).
Definition reduce_values (op : Value → Value → Value) (vs : list Value) : Value :=
  default Null (reduce op (non_null vs)).
Definition divide (a b : Value) : Value :=
  match a, b with
  | Num p, Num q => if decide (q = zero) then Null else Num (p / q)%Qc
  | _, _ => Null
  end.

Definition aggregate (name : string) (vs : list Value) : Value :=
  if String.eqb name "sum" then sum_values vs
  else if String.eqb name "min" then reduce_values value_min vs
  else if String.eqb name "max" then reduce_values value_max vs
  else if String.eqb name "count" then count_values vs
  else if String.eqb name "avg" then divide (sum_values vs) (count_values vs)
  else Null.

(** *** Aggregates of parts *)

#[local] Arguments cmp : simpl never.

Lemma value_leb_total a b : value_leb a b = false → value_leb b a = true.
Proof.
  destruct a as [|p|s], b as [|q|t]; simpl; try done.
  - destruct (Qc_le_dec p q) as [|Hn]; [done|]. destruct (Qc_le_dec q p) as [|Hn']; [done|].
    exfalso. apply Hn'. apply Qclt_le_weak. by apply Qcnot_le_lt.
  - rewrite (cmp_antisym s t). by destruct (cmp s t).
Qed.

Lemma value_leb_trans a b c : value_leb a b = true → value_leb b c = true → value_leb a c = true.
Proof.
  destruct a as [|p|s], b as [|q|t], c as [|r|u]; simpl; try done.
  - destruct (Qc_le_dec p q); [|done]. destruct (Qc_le_dec q r); [|done].
    intros _ _. destruct (Qc_le_dec p r) as [|Hn]; [done|]. exfalso. apply Hn. by eapply Qcle_trans.
  - destruct (cmp s t) eqn:E1; [apply cmp_eq_iff in E1 as ->|..]; [done| |done].
    destruct (cmp t u) eqn:E2; [apply cmp_eq_iff in E2 as ->; by rewrite E1| |done].
    by rewrite (cmp_lt_trans _ _ _ E1 E2).
Qed.

Lemma value_leb_antisym a b : value_leb a b = true → value_leb b a = true → a = b.
Proof.
  destruct a as [|p|s], b as [|q|t]; simpl; try done.
  - destruct (Qc_le_dec p q); [|done]. destruct (Qc_le_dec q p); [|done]. intros _ _. f_equal.
    by apply Qcle_antisym.
  - rewrite (cmp_antisym s t). destruct (cmp s t) eqn:E; try done. intros _ _. f_equal.
    by apply cmp_eq_iff.
Qed.

#[export] Instance value_min_assoc : Assoc (=) value_min.
Proof.
  intros a b c. unfold value_min.
  destruct (value_leb b c) eqn:Ebc, (value_leb a b) eqn:Eab; rewrite ?Eab, ?Ebc; try done.
  - by rewrite (value_leb_trans _ _ _ Eab Ebc).
  - destruct (value_leb a c) eqn:Eac; [|done]. apply value_leb_total in Eab, Ebc.
    apply value_leb_antisym; [done|]. by apply (value_leb_trans c b a).
Qed.

#[export] Instance value_max_assoc : Assoc (=) value_max.
Proof.
  intros a b c. unfold value_max.
  destruct (value_leb b c) eqn:Ebc, (value_leb a b) eqn:Eab; rewrite ?Eab, ?Ebc; try done.
  - by rewrite (value_leb_trans _ _ _ Eab Ebc).
  - destruct (value_leb a c) eqn:Eac; [|done]. apply value_leb_total in Eab, Ebc.
    apply value_leb_antisym; [done|by apply (value_leb_trans c b a)].
Qed.

Lemma numbers_concat vss : numbers (concat vss) = concat (map numbers vss).
Proof. induction vss as [|vs vss IH]; simpl; [done|]. unfold numbers in *. by rewrite omap_app, IH. Qed.

Lemma sum_app ps qs : foldr Qcplus zero (ps ++ qs) = (foldr Qcplus zero ps + foldr Qcplus zero qs)%Qc.
Proof.
  induction ps as [|p ps IH]; simpl; [by rewrite Qcplus_0_l|]. by rewrite IH, Qcplus_assoc.
Qed.

Lemma sum_values_numbers vs :
  sum_values vs = match numbers vs with [] => Null | _ => Num (foldr Qcplus zero (numbers vs)) end.
Proof. unfold sum_values. by destruct (numbers vs). Qed.

Lemma merge_sum vss : sum_values (concat vss) = sum_values (map sum_values vss).
Proof.
  rewrite (sum_values_numbers (concat vss)), (sum_values_numbers (map sum_values vss)), numbers_concat.
  assert ((concat (map numbers vss) = [] ↔ numbers (map sum_values vss) = [])
    ∧ foldr Qcplus zero (concat (map numbers vss)) = foldr Qcplus zero (numbers (map sum_values vss)))
    as [Hnil Hsum].
  { induction vss as [|vs vss [IHn IHs]]; simpl; [done|]. rewrite sum_app, IHs.
    rewrite (sum_values_numbers vs). destruct (numbers vs) as [|q qs] eqn:E; simpl; [|done].
    split; [done|]. by rewrite Qcplus_0_l. }
  rewrite Hsum. destruct (concat (map numbers vss)), (numbers (map sum_values vss)); naive_solver.
Qed.

Lemma non_null_concat vss : non_null (concat vss) = concat (map non_null vss).
Proof. induction vss as [|vs vss IH]; simpl; [done|]. unfold non_null in *. by rewrite filter_app, IH. Qed.

Lemma count_as_number_add m n : count_as_number (m + n) = (count_as_number m + count_as_number n)%Qc.
Proof.
  unfold count_as_number. apply Qc_is_canon. simpl.
  rewrite !Qreduction.Qred_correct, Nat2Z.inj_add, QArith_base.inject_Z_plus. reflexivity.
Qed.

Lemma merge_count vss : vss ≠ [] → count_values (concat vss) = sum_values (map count_values vss).
Proof.
  intros Hne. unfold count_values at 1. rewrite non_null_concat.
  assert (numbers (map count_values vss) = map (λ vs, count_as_number (length (non_null vs))) vss) as Hn.
  { clear. induction vss; simpl; [done|]. unfold numbers in *. simpl. by rewrite IHvss. }
  unfold sum_values. rewrite Hn. destruct vss as [|vs vss]; [done|]. clear. simpl. f_equal.
  rewrite length_app, count_as_number_add. f_equal.
  induction vss as [|ws vss IH]; simpl; [done|]. by rewrite length_app, count_as_number_add, IH.
Qed.

Lemma merge_reduce (op : Value → Value → Value) vss :
  Assoc (=) op → (∀ a b, op a b = a ∨ op a b = b) →
  reduce_values op (concat vss) = reduce_values op (map (reduce_values op) vss).
Proof.
  intros Hassoc Hsel.
  assert (∀ l a b, foldl op (op a b) l = op a (foldl op b l)) as Hfold.
  { intros l. induction l as [|x l IH]; intros a b; simpl; [done|]. by rewrite <- Hassoc, IH. }
  assert (∀ l a, a ≠ Null → Forall (λ v, v ≠ Null) l → foldl op a l ≠ Null) as Hnn.
  { intros l. induction l as [|x l IH]; intros a Ha Hl; simpl; [done|].
    apply Forall_cons in Hl as [Hx Hl]. apply IH; [|done]. by destruct (Hsel a x) as [-> | ->]. }
  unfold reduce_values at 1 2. f_equal. rewrite non_null_concat.
  induction vss as [|vs vss IH]; [done|]. simpl.
  assert (Forall (λ v, v ≠ Null) (non_null vs)) as Hvs
    by (apply Forall_forall; by intros v [Hv _]%list_elem_of_filter).
  unfold reduce_values at 1. unfold non_null at 3. rewrite filter_cons. fold (non_null (map (reduce_values op) vss)).
  destruct (non_null vs) as [|v vs'] eqn:E; simpl; [by rewrite IH|].
  apply Forall_cons in Hvs as [Hv Hvs]. rewrite decide_True by (by apply Hnn). simpl.
  rewrite foldl_app. f_equal.
  destruct (concat (map non_null vss)) as [|w ws]; simpl in IH;
    destruct (non_null (map (reduce_values op) vss)) as [|u us]; simpl in IH; try done.
  simpl. injection IH as IH. by rewrite !Hfold, IH.
Qed.

Lemma value_min_selects a b : value_min a b = a ∨ value_min a b = b.
Proof. unfold value_min. destruct (value_leb a b); auto. Qed.

Lemma value_max_selects a b : value_max a b = a ∨ value_max a b = b.
Proof. unfold value_max. destruct (value_leb a b); auto. Qed.

(** How the planner merges: sums, minima and maxima with themselves, counts with
    sums. *)
Lemma aggregate_merges name vss :
  name ∈ ["sum"; "min"; "max"] →
  aggregate name (concat vss) = aggregate name (map (aggregate name) vss).
Proof.
  intros Hname. repeat (apply elem_of_cons in Hname as [->|Hname]); [..|by apply not_elem_of_nil in Hname].
  - apply merge_sum.
  - apply (merge_reduce value_min); [apply _|apply value_min_selects].
  - apply (merge_reduce value_max); [apply _|apply value_max_selects].
Qed.

Lemma aggregate_count_merges vss :
  vss ≠ [] → aggregate "count" (concat vss) = aggregate "sum" (map (aggregate "count") vss).
Proof. apply merge_count. Qed.

(** ** The rows of a select *)

(** A row gives the values of the columns by name. *)
Definition Row : Type := string → Value.

(** The row of a result, under the names of its columns. *)
Definition row_of (names : list string) (values : list Value) : Row :=
  λ name, default Null (list_to_map (M:=gmap string Value) (zip names values) !! name).

(** The rows that agree on a key, one group for every key. *)
Definition group_rows (key : Row → list Value) (rows : list Row) : list (list Row) :=
  (λ k, filter (λ r, key r = k) rows) <$> remove_dups (map key rows).

Section Execution.
(** What the backend computes for an expression without aggregates on a row,
    and whether a row satisfies a condition. *)
Variable eval : BoundExpr → Row → Value.
Variable holds : BoundExpr → Row → bool.

Definition argument_value (f : BoundFunctionCall) (r : Row) : Value :=
  match bfc_args f with [] => Num (count_as_number 1) | arg :: _ => eval arg r end.

(** The value of a projection on a group: aggregates over all its rows, other
    expressions on its first row. *)
Fixpoint eval_group (e : BoundExpr) (rows : list Row) : Value :=
  match e with
  | MkBoundExpr (BFunction f) _ _ _ =>
      aggregate (to_ascii_lowercase (fn_name (bfc_function f))) (map (argument_value f) rows)
  | MkBoundExpr (BBinary Divide lhs rhs) _ _ _ =>
      if expr_contains_aggregate e then divide (eval_group lhs rows) (eval_group rhs rows)
      else match rows with r :: _ => eval e r | [] => Null end
  | _ => match rows with r :: _ => eval e r | [] => Null end
  end.

Definition item_value (item : BoundProjectionItem) (rows : list Row) : Value :=
  match item with BPExpr d => eval_group (bpe_expr d) rows | _ => Null end.

Definition item_name (item : BoundProjectionItem) : string :=
  match item with BPExpr d => default "" (projection_output_name d) | _ => "" end.

(** Without keys there is one group, of all rows. *)
Definition groups (keys : list BoundExpr) (rows : list Row) : list (list Row) :=
  match keys with
  | [] => [rows]
  | _ => group_rows (λ r, map (λ e, eval e r) keys) rows
  end.

Definition selected_rows (selection : option BoundExpr) (rows : list Row) : list Row :=
  match selection with Some e => filter (λ r, holds e r = true) rows | None => rows end.

(** The rows of [SELECT items FROM t WHERE selection GROUP BY keys]. *)
Definition select_rows (s : BoundSelect) (rows : list Row) : list (list Value) :=
  map (λ g, map (λ item, item_value item g) (bsel_projection s))
    (groups (bsel_group_by s) (selected_rows (bsel_selection s) rows)).

(** Both stages: the scatter select on every node's rows, the gather select on
    all partial results. *)
Definition partial_rows (scatter : BoundSelect) (node_rows : list Row) : list Row :=
  map (row_of (map item_name (bsel_projection scatter))) (select_rows scatter node_rows).

Definition scatter_gather (scatter gather : BoundSelect) (nodes : list (list Row)) : list (list Value) :=
  select_rows gather (concat (map (partial_rows scatter) nodes)).
End Execution.

(** ** What the planner does with the projection *)

(** A projection with what it becomes: the scatter projections, the gather
    projection, and the output name of a key. *)
Record Piece := {
  p_details : BoundProjectionExprOf BoundExpr;
  p_scatter : list BoundProjectionItem;
  p_gather : BoundProjectionItem;
  p_key : option string
}.

Definition p_item (p : Piece) : BoundProjectionItem := BPExpr (p_details p).

Definition piece_ok (index : nat) (p : Piece) : Prop :=
  let d := p_details p in
  match p_key p with
  | None => ∃ a, classify_supported_aggregate d index = Ok (Some a)
      ∧ p_scatter p = rewrite_scatter a ∧ p_gather p = rewrite_gather a
  | Some name => classify_supported_aggregate d index = Ok None
      ∧ expr_contains_aggregate (bpe_expr d) = false
      ∧ projection_output_name d = Some name
      ∧ p_scatter p = [BPExpr d] ∧ p_gather p = column_projection name (bpe_field d) (bpe_node d)
  end.

Definition piece_key (p : Piece) : option BoundExpr :=
  (λ name, column_expr name (field_type (bpe_field (p_details p))) (field_nullable (bpe_field (p_details p)))
             (bpe_node (p_details p))) <$> p_key p.

Inductive pieces_ok : nat → list Piece → Prop :=
| pieces_nil index : pieces_ok index []
| pieces_cons index p ps : piece_ok index p → pieces_ok (S index) ps → pieces_ok index (p :: ps).

Lemma decompose_item_Ok index item s s' :
  decompose_item index item s = Ok s' →
  ∃ p, item = p_item p ∧ piece_ok index p
  ∧ scatter_projection s' = scatter_projection s ++ p_scatter p
  ∧ gather_projection s' = gather_projection s ++ [p_gather p]
  ∧ gather_group_by s' = gather_group_by s ++ option_list (piece_key p).
Proof.
  destruct item as [q fs n|d|t n]; simpl; try done.
  rewrite rbind_Ok. intros ([a|] & Hc & H).
  - apply rbind_Ok in H as (fields & _ & [= <-]).
    exists {| p_details := d; p_scatter := rewrite_scatter a; p_gather := rewrite_gather a; p_key := None |}.
    unfold piece_ok. simpl. rewrite app_nil_r. split_and!; eauto.
  - destruct (expr_contains_aggregate (bpe_expr d)) eqn:Hagg; [done|].
    apply rbind_Ok in H as (name & Hname%ok_or_Ok & [= <-]).
    exists {| p_details := d; p_scatter := [BPExpr d];
              p_gather := column_projection name (bpe_field d) (bpe_node d); p_key := Some name |}.
    unfold piece_ok. simpl. by split_and!.
Qed.

Lemma decompose_from_Ok index items s s' :
  decompose_from index items s = Ok s' →
  ∃ ps, items = map p_item ps ∧ pieces_ok index ps
  ∧ scatter_projection s' = scatter_projection s ++ concat (map p_scatter ps)
  ∧ gather_projection s' = gather_projection s ++ map p_gather ps
  ∧ gather_group_by s' = gather_group_by s ++ omap piece_key ps.
Proof.
  revert index s. induction items as [|item items IH]; intros index s; simpl.
  { intros [= <-]. exists []. rewrite !app_nil_r. split_and!; try done. constructor. }
  rewrite rbind_Ok. intros (s1 & H1 & H2).
  apply decompose_item_Ok in H1 as (p & -> & Hp & Hs1 & Hg1 & Hk1).
  apply IH in H2 as (ps & -> & Hps & Hs2 & Hg2 & Hk2).
  exists (p :: ps). simpl. rewrite Hs2, Hg2, Hk2, Hs1, Hg1, Hk1, <- !app_assoc. split_and!; try done.
  - by constructor.
  - by destruct (piece_key p).
Qed.

(** A key is not an aggregate, and its scatter projection is itself. *)
Lemma eval_group_plain eval e rows :
  expr_contains_aggregate e = false → (∀ f, be_kind e ≠ BFunction f) →
  eval_group eval e rows = match rows with r :: _ => eval e r | [] => Null end.
Proof.
  destruct e as [k t n node]. intros Hagg Hf. simpl in *.
  destruct k as [| | | |op lhs rhs|f| | | | | | | | | | | |]; try done; [|by destruct (Hf f)].
  destruct op; try done. by rewrite Hagg.
Qed.

Lemma classify_None_not_function d index :
  classify_supported_aggregate d index = Ok None → ∀ f, be_kind (bpe_expr d) ≠ BFunction f.
Proof.
  unfold classify_supported_aggregate. intros H f Hf. rewrite Hf in H.
  destruct (is_some (bfc_over f) || is_some (bfc_filter f) || bfc_distinct f); [done|].
  destruct (existsb _ _); [done|]. destruct (String.eqb _ _); [done|]. destruct (String.eqb _ _); [|done].
  apply rbind_Ok in H as (? & _ & ?). done.
Qed.

Lemma classify_Some d index a :
  classify_supported_aggregate d index = Ok (Some a) →
  ∃ f alias, be_kind (bpe_expr d) = BFunction f
  ∧ let name := to_ascii_lowercase (fn_name (bfc_function f)) in
    (name ∈ ["sum"; "min"; "max"] ∧ a = rewrite_self d name alias index)
    ∨ (name = "count" ∧ a = rewrite_count d alias index)
    ∨ (name = "avg" ∧ ∃ arg, head (bfc_args f) = Some arg ∧ a = rewrite_avg d arg alias index).
Proof.
  unfold classify_supported_aggregate. destruct (be_kind (bpe_expr d)) as [| | | | |f| | | | | | | | | | | |]; try done.
  destruct (is_some (bfc_over f) || is_some (bfc_filter f) || bfc_distinct f); [done|].
  set (alias := default (auto_aggregate_alias f index) (bpe_alias d)).
  intros H. exists f, alias. split; [done|]. revert H.
  set (name := to_ascii_lowercase (fn_name (bfc_function f))).
  destruct (existsb (String.eqb name) _) eqn:E1; [|destruct (String.eqb name "count") eqn:E2;
    [|destruct (String.eqb name "avg") eqn:E3; [|done]]].
  - intros [= <-]. left. split; [|done].
    apply existsb_exists in E1 as (x & Hx & ->%String.eqb_eq). by apply list_elem_of_In.
  - intros [= <-]. right. left. split; [by apply String.eqb_eq|done].
  - intros (arg & Harg%ok_or_Ok & [= <-])%rbind_Ok. right. right.
    split; [by apply String.eqb_eq|]. eauto.
Qed.

Section Merging.
Variable eval : BoundExpr → Row → Value.

(** An unqualified column reads the column of that name. *)
Hypothesis eval_column : ∀ name t nullable node r, eval (column_expr name t nullable node) r = r name.

Lemma eval_plain_call name alias field t nullable node rows :
  item_value eval (projection_expr (MkBoundExpr (plain_call name (partial_column alias field node))
    t nullable node) None field node) rows
  = aggregate (to_ascii_lowercase name) (map (λ r, r alias) rows).
Proof.
  simpl. f_equal. apply map_ext. intros r. apply eval_column.
Qed.

(** Partial rows that hold, under the name of each scatter projection, its
    values on the groups. *)
Definition holds_values (p : Piece) (gs : list (list Row)) (rs : list Row) : Prop :=
  Forall (λ item, map (λ r, r (item_name item)) rs = map (item_value eval item) gs) (p_scatter p).

Lemma concat_map_map {A B} (f : A → B) (ls : list (list A)) : map f (concat ls) = concat (map (map f) ls).
Proof. induction ls as [|l ls IH]; simpl; [done|]. by rewrite map_app, IH. Qed.

(** The gather projection of an aggregate, over the partial results of some
    groups, is the aggregate over the groups together. *)
Lemma aggregate_piece_merges index p gs rs :
  p_key p = None → piece_ok index p → gs ≠ [] → holds_values p gs rs →
  item_value eval (p_gather p) rs = item_value eval (p_item p) (concat gs).
Proof.
  unfold piece_ok, holds_values. intros -> (a & Ha & -> & ->) Hne Hv.
  destruct (classify_Some _ _ _ Ha) as (f & alias & Hf & Hcases). clear Ha.
  assert (∀ rows, item_value eval (p_item p) rows
    = aggregate (to_ascii_lowercase (fn_name (bfc_function f))) (map (argument_value eval f) rows)) as Hitem.
  { intros rows. unfold p_item. destruct p as [[[k t nl node] al field dnode] sc ga key].
    simpl in Hf. by subst k. }
  assert (map (argument_value eval f) <$> gs ≠ []) as Hne' by by destruct gs.
  rewrite Hitem, concat_map_map. revert Hcases Hitem Hv.
  set (name := to_ascii_lowercase (fn_name (bfc_function f))).
  intros [(Hname & ->)|[(Hname & ->)|(Hname & arg & Harg & ->)]] Hitem Hv.
  - apply Forall_cons in Hv as [Hv _].
    assert (to_ascii_lowercase name = name) as Hlow.
    { clear -Hname. revert Hname. generalize name. intros x Hx.
      repeat (apply elem_of_cons in Hx as [->|Hx]); [done..|by apply not_elem_of_nil in Hx]. }
    simpl. rewrite Hlow, (aggregate_merges _ _ Hname), List.map_map. f_equal.
    etransitivity; [|etransitivity; [exact Hv|]].
    + apply map_ext. intros r. apply eval_column.
    + apply map_ext. intros g. apply Hitem.
  - apply Forall_cons in Hv as [Hv _]. rewrite Hname, aggregate_count_merges, List.map_map by done.
    simpl. change (to_ascii_lowercase "sum") with "sum". f_equal.
    etransitivity; [|etransitivity; [exact Hv|]].
    + apply map_ext. intros r. apply eval_column.
    + apply map_ext. intros g. rewrite <- Hname. apply Hitem.
  - apply Forall_cons in Hv as [Hs Hv]. apply Forall_cons in Hv as [Hc _].
    assert (∀ g : list Row, map (argument_value eval f) g = map (λ r, eval arg r) g) as Hav.
    { intros g. apply map_ext. intros r. unfold argument_value.
      destruct (bfc_args f) as [|x xs]; [done|]. by injection Harg as ->. }
    rewrite Hname.
    change (aggregate "avg" ?vs) with (divide (aggregate "sum" vs) (aggregate "count" vs)).
    rewrite aggregate_count_merges, (aggregate_merges "sum") by (done || by left).
    rewrite !List.map_map. simpl. change (to_ascii_lowercase "sum") with "sum". f_equal.
    + f_equal. etransitivity; [|etransitivity; [exact Hs|]].
      * apply map_ext. intros r. apply eval_column.
      * apply map_ext. intros g. by rewrite Hav.
    + f_equal. etransitivity; [|etransitivity; [exact Hc|]].
      * apply map_ext. intros r. apply eval_column.
      * apply map_ext. intros g. by rewrite Hav.
Qed.

(** The gather projection of a key is the key, on groups that are not empty. *)
Lemma key_piece_merges index p gs rs name :
  p_key p = Some name → piece_ok index p → gs ≠ [] → Forall (λ g, g ≠ []) gs → holds_values p gs rs →
  item_value eval (p_gather p) rs = item_value eval (p_item p) (concat gs).
Proof.
  unfold piece_ok, holds_values. intros -> (Hc & Hagg & Hname & -> & ->) Hne Hgs [Hv _]%Forall_cons.
  pose proof (classify_None_not_function _ _ Hc) as Hf.
  destruct gs as [|g gs]; [done|]. apply Forall_cons in Hgs as [Hg _].
  destruct rs as [|r rs]; [done|]. simpl in Hv. injection Hv as Hr _. rewrite Hname in Hr. simpl in Hr.
  etransitivity; [apply eval_column|]. rewrite Hr. unfold item_value, p_item.
  rewrite !(eval_group_plain _ _ _ Hagg Hf). by destruct g as [|x g].
Qed.

(** The value of a key on a partial row is that of its group. *)
Lemma piece_key_value p k g r :
  piece_key p = Some k → holds_values p [g] [r] →
  (∃ index, piece_ok index p) →
  eval k r = match g with x :: _ => eval (bpe_expr (p_details p)) x | [] => Null end.
Proof.
  unfold piece_key, piece_ok, holds_values. intros Hk Hv (index & Hp).
  destruct (p_key p) as [name|]; [|done]. injection Hk as <-.
  destruct Hp as (Hc & Hagg & Hname & Hsc & _). rewrite Hsc in Hv. apply Forall_cons in Hv as [Hv _].
  simpl in Hv. injection Hv as Hr. rewrite Hname in Hr. simpl in Hr. rewrite eval_column, Hr.
  apply eval_group_plain; [done|]. by apply (classify_None_not_function _ _ Hc).
Qed.
End Merging.

(** ** The two stages together *)

(** The projections that are not calls: the keys that appear in the result. *)
Definition projected_keys (items : list BoundProjectionItem) : list BoundExpr :=
  omap (λ item,
    match item with
    | BPExpr d => match be_kind (bpe_expr d) with BFunction _ => None | _ => Some (bpe_expr d) end
    | _ => None
    end) items.

Lemma row_of_values {A} (name : A → string) (value : A → Value) (l : list A) x :
  NoDup (map name l) → x ∈ l → row_of (map name l) (map value l) (name x) = value x.
Proof.
  intros Hnd Hx. unfold row_of.
  assert (zip (map name l) (map value l) = map (λ y, (name y, value y)) l) as ->.
  { clear. induction l as [|y l IH]; simpl; [done|]. by rewrite IH. }
  erewrite (elem_of_list_to_map_1 _ _ (value x)); [done|..].
  - change (NoDup (map fst (map (λ y, (name y, value y)) l))). by rewrite List.map_map.
  - apply list_elem_of_In, in_map_iff. exists x. split; [done|]. by apply list_elem_of_In.
Qed.

Lemma filter_remove_dups_eq {A} `{EqDecision A} (k : A) (l : list A) :
  filter (λ x, x = k) (remove_dups l) = if decide (k ∈ l) then [k] else [].
Proof.
  induction l as [|x l IH]; [done|]. simpl.
  destruct (decide_rel (∈) x l) as [Hin|Hin].
  - rewrite IH. repeat case_decide; set_solver.
  - rewrite filter_cons, IH. destruct (decide (x = k)) as [->|Hne]; repeat case_decide; set_solver.
Qed.

Lemma filter_of_concat {A} (P : A → Prop) `{∀ x, Decision (P x)} (ls : list (list A)) :
  filter P (concat ls) = concat (map (filter P) ls).
Proof. induction ls as [|l ls IH]; simpl; [done|]. by rewrite filter_app, IH. Qed.

Lemma filter_map {A B} (f : A → B) (P : B → Prop) `{∀ x, Decision (P x)} (l : list A) :
  filter P (map f l) = map f (filter (λ x, P (f x)) l).
Proof.
  induction l as [|x l IH]; [done|]. simpl. rewrite !filter_cons, IH.
  by destruct (decide (P (f x))).
Qed.

Section Grouping.
Variables (key : Row → list Value) (gkey : Row → list Value) (partial : list Row → Row).

(** A partial row has the key of its group. *)
Hypothesis partial_key : ∀ g x, gkey (partial (x :: g)) = key x.

Lemma group_nonempty rows k g :
  g = filter (λ r, key r = k) rows → k ∈ map key rows → ∃ x g', g = x :: g' ∧ key x = k.
Proof.
  intros -> Hk. apply list_elem_of_In, in_map_iff in Hk as (y & Hy & Hin).
  destruct (filter (λ r, key r = k) rows) as [|x g'] eqn:E.
  - exfalso. assert (y ∈ filter (λ r, key r = k) rows) as Hf.
    { apply list_elem_of_filter. split; [done|]. by apply list_elem_of_In. }
    rewrite E in Hf. by apply not_elem_of_nil in Hf.
  - exists x, g'. split; [done|].
    assert (x ∈ filter (λ r, key r = k) rows) as Hf by (rewrite E; by left).
    by apply list_elem_of_filter in Hf as [? _].
Qed.

(** The part of a node in a group, if it has one. *)
Definition node_part (k : list Value) (rows : list Row) : list (list Row) :=
  if decide (k ∈ map key rows) then [filter (λ r, key r = k) rows] else [].

Lemma partial_rows_of_key k rows :
  filter (λ r, gkey r = k) (map partial (group_rows key rows)) = map partial (node_part k rows).
Proof.
  unfold group_rows, node_part. rewrite filter_map. f_equal.
  change ((λ k, filter (λ r, key r = k) rows) <$> remove_dups (map key rows))
    with (map (λ k, filter (λ r, key r = k) rows) (remove_dups (map key rows))).
  rewrite filter_map.
  rewrite (filter_ext_in _ (λ x, x = k)).
  - rewrite filter_remove_dups_eq. by case_decide.
  - intros k' Hk'. rewrite elem_of_remove_dups in Hk'.
    destruct (group_nonempty rows k' _ eq_refl Hk') as (x & g & -> & Hx). by rewrite partial_key, Hx.
Qed.

Lemma node_parts_concat k nodes :
  concat (concat (map (node_part k) nodes)) = filter (λ r, key r = k) (concat nodes).
Proof.
  rewrite filter_of_concat. induction nodes as [|rows nodes IH]; simpl; [done|].
  rewrite concat_app, IH. f_equal. unfold node_part. case_decide as Hk; simpl; [by rewrite app_nil_r|].
  destruct (filter (λ r, key r = k) rows) as [|x g] eqn:E; [done|]. exfalso. apply Hk.
  assert (x ∈ filter (λ r, key r = k) rows) as Hf by (rewrite E; by left).
  apply list_elem_of_filter in Hf as [<- Hin]. apply list_elem_of_In, in_map. by apply list_elem_of_In.
Qed.

Lemma node_parts_nonempty k nodes : Forall (λ g, g ≠ []) (concat (map (node_part k) nodes)).
Proof.
  apply Forall_forall. intros g Hg. apply list_elem_of_In, in_concat in Hg as (gs & Hgs & Hg).
  apply in_map_iff in Hgs as (rows & <- & _). unfold node_part in Hg. case_decide as Hk; [|done].
  destruct Hg as [<-|[]]. destruct (group_nonempty rows k _ eq_refl Hk) as (x & g & -> & _). done.
Qed.

(** All partial rows of a key, over all nodes. *)
Lemma gathered_rows_of_key k nodes :
  filter (λ r, gkey r = k) (concat (map (λ rows, map partial (group_rows key rows)) nodes))
  = map partial (concat (map (node_part k) nodes)).
Proof.
  rewrite filter_of_concat, List.map_map, concat_map_map, List.map_map. f_equal.
  apply map_ext. intros rows. apply partial_rows_of_key.
Qed.

Lemma gathered_keys nodes :
  remove_dups (map gkey (concat (map (λ rows, map partial (group_rows key rows)) nodes)))
  ≡ₚ remove_dups (map key (concat nodes)).
Proof.
  apply NoDup_Permutation; [apply NoDup_remove_dups..|]. intros k. rewrite !elem_of_remove_dups.
  rewrite !list_elem_of_In, !in_map_iff. split.
  - intros (r & <- & Hr). apply in_concat in Hr as (rs & Hrs & Hr).
    apply in_map_iff in Hrs as (rows & <- & Hrows). apply in_map_iff in Hr as (g & <- & Hg).
    unfold group_rows in Hg. apply in_map_iff in Hg as (k & <- & Hk).
    rewrite <- list_elem_of_In, elem_of_remove_dups in Hk.
    destruct (group_nonempty rows k _ eq_refl Hk) as (x & g & -> & Hx). rewrite partial_key, Hx.
    apply list_elem_of_In, in_map_iff in Hk as (y & Hy & Hin). exists y. split; [done|].
    apply in_concat. eauto.
  - intros (x & <- & Hx). apply in_concat in Hx as (rows & Hrows & Hx).
    assert (key x ∈ map key rows) as Hk by (apply list_elem_of_In, in_map; done).
    destruct (group_nonempty rows (key x) _ eq_refl Hk) as (y & g & Hg & Hy).
    exists (partial (filter (λ r, key r = key x) rows)). split; [by rewrite Hg, partial_key|].
    apply in_concat. exists (map partial (group_rows key rows)). split; [apply in_map_iff; eauto|].
    apply in_map. unfold group_rows. apply in_map_iff. exists (key x). split; [done|].
    by apply list_elem_of_In, elem_of_remove_dups.
Qed.

(** Regrouping the partial rows of all nodes: what is computed from the partial
    rows of a key is what is computed from all its rows. *)
Lemma regroup {A} (F G : list Row → A) nodes :
  (∀ gs, gs ≠ [] → Forall (λ g, g ≠ []) gs → F (map partial gs) = G (concat gs)) →
  map F (group_rows gkey (concat (map (λ rows, map partial (group_rows key rows)) nodes)))
  ≡ₚ map G (group_rows key (concat nodes)).
Proof.
  intros HFG. set (P := concat (map (λ rows, map partial (group_rows key rows)) nodes)).
  transitivity (map (λ k, F (filter (λ r, gkey r = k) P)) (remove_dups (map gkey P))).
  { unfold group_rows. apply Permutation_refl'. apply (List.map_map (λ k, filter (λ r, gkey r = k) P) F). }
  transitivity (map (λ k, F (filter (λ r, gkey r = k) P)) (remove_dups (map key (concat nodes)))).
  { apply Permutation_map. apply gathered_keys. }
  transitivity (map (λ k, G (filter (λ r, key r = k) (concat nodes))) (remove_dups (map key (concat nodes)))).
  2:{ unfold group_rows. apply Permutation_refl'. symmetry.
      apply (List.map_map (λ k, filter (λ r, key r = k) (concat nodes)) G). }
  apply Permutation_refl', map_ext_in. intros k Hk.
  rewrite <- list_elem_of_In, elem_of_remove_dups in Hk.
  unfold P. rewrite gathered_rows_of_key, <- node_parts_concat. apply HFG; [|apply node_parts_nonempty].
  intros Hnil. destruct (group_nonempty (concat nodes) k _ eq_refl Hk) as (x & g & Hg & _).
  by rewrite <- node_parts_concat, Hnil in Hg.
Qed.
End Grouping.

Section Stages.
Variables (eval : BoundExpr → Row → Value) (holds : BoundExpr → Row → bool).
Hypothesis eval_column : ∀ name t nullable node r, eval (column_expr name t nullable node) r = r name.

Variable ps : list Piece.
Hypothesis ps_ok : pieces_ok 0 ps.
Local Abbreviation scatter_items := (concat (map p_scatter ps)).
Hypothesis distinct_names : NoDup (map item_name scatter_items).

(** The partial row of a group. *)
Definition partial_row (g : list Row) : Row :=
  row_of (map item_name scatter_items) (map (λ item, item_value eval item g) scatter_items).

Lemma pieces_index index qs p : pieces_ok index qs → p ∈ qs → ∃ i, piece_ok i p.
Proof.
  induction 1 as [|i q qs Hq _ IH]; [by intros ?%not_elem_of_nil|].
  intros [->|Hp]%elem_of_cons; eauto.
Qed.

Lemma partial_row_holds p gs : p ∈ ps → holds_values eval p gs (map partial_row gs).
Proof.
  intros Hp. unfold holds_values. apply Forall_forall. intros item Hitem.
  rewrite List.map_map. apply map_ext. intros g. unfold partial_row.
  apply (row_of_values item_name (λ item, item_value eval item g)); [done|].
  apply list_elem_of_In, in_concat. exists (p_scatter p).
  split; [apply in_map|]; by apply list_elem_of_In.
Qed.

(** Keys of a base row, and of a partial row. *)
Definition keys_of_row (r : Row) : list Value := map (λ e, eval e r) (projected_keys (map p_item ps)).
Definition keys_of_partial (r : Row) : list Value := map (λ e, eval e r) (omap piece_key ps).

Lemma key_pieces qs :
  (∀ p, p ∈ qs → ∃ i, piece_ok i p) →
  projected_keys (map p_item qs) = omap (λ p, (λ _, bpe_expr (p_details p)) <$> p_key p) qs.
Proof.
  induction qs as [|p qs IH]; intros Hok; [done|].
  assert (∃ i, piece_ok i p) as (i & Hp) by (apply Hok; by left).
  unfold projected_keys in *. csimpl. rewrite IH by (intros; apply Hok; by right).
  unfold piece_ok in Hp. destruct (p_key p) as [name|]; simpl.
  - destruct Hp as (Hc & _). pose proof (classify_None_not_function _ _ Hc) as Hf.
    destruct (be_kind (bpe_expr (p_details p))); try done. by destruct (Hf function).
  - destruct Hp as (a & Ha & _). destruct (classify_Some _ _ _ Ha) as (f & alias & -> & _). done.
Qed.

Lemma pieces_in p : p ∈ ps → ∃ i, piece_ok i p.
Proof. by apply pieces_index with (index := 0). Qed.

Lemma partial_row_key g x : keys_of_partial (partial_row (x :: g)) = keys_of_row x.
Proof.
  unfold keys_of_partial, keys_of_row. rewrite (key_pieces ps pieces_in).
  assert (∀ qs, qs ⊆ ps →
    map (λ e, eval e (partial_row (x :: g))) (omap piece_key qs)
    = map (λ e, eval e x) (omap (λ p, (λ _, bpe_expr (p_details p)) <$> p_key p) qs)) as Hqs.
  { induction qs as [|p qs IH]; intros Hsub; [done|]. csimpl.
    assert (p ∈ ps) as Hp by (apply Hsub; by left).
    unfold piece_key at 1. destruct (p_key p) as [name|] eqn:Hk; simpl; [|apply IH; set_solver].
    f_equal; [|apply IH; set_solver].
    apply (piece_key_value eval eval_column p _ (x :: g)); [by unfold piece_key; rewrite Hk| |by apply pieces_in].
    apply (partial_row_holds p [x :: g] Hp). }
  by apply Hqs.
Qed.

(** One row of the result: over the partial rows of some groups, the gather
    projections are the projections over the groups together. *)
Lemma gathered_row gs :
  gs ≠ [] → (omap piece_key ps = [] ∨ Forall (λ g, g ≠ []) gs) →
  map (λ item, item_value eval item (map partial_row gs)) (map p_gather ps)
  = map (λ item, item_value eval item (concat gs)) (map p_item ps).
Proof.
  intros Hne Hgs. rewrite !List.map_map. apply map_ext_in. intros p Hp%list_elem_of_In.
  destruct (pieces_in p Hp) as (i & Hi). pose proof (partial_row_holds p gs Hp) as Hv.
  destruct (p_key p) as [name|] eqn:Hk.
  - destruct Hgs as [Hnone|Hgs]; [|by eapply key_piece_merges].
    exfalso. assert (column_expr name (field_type (bpe_field (p_details p)))
      (field_nullable (bpe_field (p_details p))) (bpe_node (p_details p)) ∈ omap piece_key ps) as Hin.
    { apply list_elem_of_omap. exists p. unfold piece_key. by rewrite Hk. }
    rewrite Hnone in Hin. by apply not_elem_of_nil in Hin.
  - by eapply aggregate_piece_merges.
Qed.
End Stages.

Lemma selected_rows_concat holds sel nodes :
  selected_rows holds sel (concat nodes) = concat (map (selected_rows holds sel) nodes).
Proof.
  destruct sel as [e|]; simpl; [apply filter_of_concat|]. by rewrite map_id.
Qed.

Lemma group_rows_ext key key' rows :
  (∀ r, key r = key' r) → group_rows key rows = group_rows key' rows.
Proof.
  intros Hk. unfold group_rows. rewrite (map_ext key key' Hk).
  apply list_fmap_ext. intros i k _. apply filter_ext_in. intros r _. by rewrite Hk.
Qed.

(** The gather select over the partial results is the select over all rows. *)
Lemma stages_compute_the_query eval holds original stages partials schema nodes :
  (∀ name t nullable node r, eval (column_expr name t nullable node) r = r name) →
  decompose_from 0 (bsel_projection original) no_stages = Ok stages →
  (∀ r, map (λ e, eval e r) (bsel_group_by original)
        = map (λ e, eval e r) (projected_keys (bsel_projection original))) →
  NoDup (map item_name (scatter_projection stages)) →
  nodes ≠ [] →
  scatter_gather eval holds (scatter_select original stages) (gather_select original stages partials schema) nodes
  ≡ₚ select_rows eval holds original (concat nodes).
Proof.
  intros Heval Hdec Hkeys Hnd Hne.
  apply decompose_from_Ok in Hdec as (ps & Hitems & Hps & Hsc & Hga & Hgb).
  change (scatter_projection no_stages) with (@nil BoundProjectionItem) in Hsc.
  change (gather_projection no_stages) with (@nil BoundProjectionItem) in Hga.
  change (gather_group_by no_stages) with (@nil BoundExpr) in Hgb. simpl in Hsc, Hga, Hgb.
  unfold scatter_gather, partial_rows, select_rows. simpl.
  rewrite Hsc, Hga, Hgb, Hitems in *. clear Hsc Hga Hgb.
  rewrite selected_rows_concat. set (sel := selected_rows holds (bsel_selection original)).
  set (parts := map sel nodes). assert (parts ≠ []) as Hparts by (by destruct nodes).
  assert (∀ rows, map (row_of (map item_name (concat (map p_scatter ps))))
      (map (λ g, map (λ item, item_value eval item g) (concat (map p_scatter ps)))
         (groups eval (bsel_group_by original) rows))
    = map (partial_row eval ps) (groups eval (bsel_group_by original) rows)) as Hpart.
  { intros rows. by rewrite List.map_map. }
  assert (map (λ node_rows, map (row_of (map item_name (concat (map p_scatter ps))))
      (map (λ g, map (λ item, item_value eval item g) (concat (map p_scatter ps)))
         (groups eval (bsel_group_by original) (sel node_rows)))) nodes
    = map (λ rows, map (partial_row eval ps) (groups eval (bsel_group_by original) rows)) parts) as ->.
  { unfold parts. rewrite List.map_map. apply map_ext. intros rows. apply Hpart. }
  clear Hpart.
  assert (length (bsel_group_by original) = length (omap piece_key ps)) as Hlen.
  { transitivity (length (projected_keys (map p_item ps))).
    - pose proof (f_equal length (Hkeys (λ _, Null))) as Hl. by rewrite !length_map in Hl.
    - rewrite (key_pieces ps (pieces_in ps Hps)). clear. induction ps as [|p ps IH]; [done|]. csimpl.
      unfold piece_key at 1. destruct (p_key p); simpl; by rewrite IH. }
  destruct (bsel_group_by original) as [|e es] eqn:Hgroup.
  - (* one group *)
    destruct (omap piece_key ps) eqn:Hnone; [|done]. simpl.
    assert (concat (map (λ rows, [partial_row eval ps rows]) parts) = map (partial_row eval ps) parts) as ->.
    { clear. induction parts as [|p ps' IH]; simpl; [done|]. by rewrite IH. }
    rewrite (gathered_row eval Heval ps Hps Hnd parts Hparts) by by left. done.
  - (* groups by key *)
    destruct (omap piece_key ps) as [|k ks] eqn:Hsome; [done|].
    assert (∀ rows, groups eval (e :: es) rows = group_rows (keys_of_row eval ps) rows) as Hg1.
    { intros rows. apply group_rows_ext. exact Hkeys. }
    assert (∀ rows, groups eval (k :: ks) rows = group_rows (keys_of_partial eval ps) rows) as Hg2.
    { intros rows. apply group_rows_ext. intros r. unfold keys_of_partial. by rewrite Hsome. }
    rewrite Hg1, Hg2. rewrite (map_ext _ (λ rows, map (partial_row eval ps) (group_rows (keys_of_row eval ps) rows)))
      by (intros rows; by rewrite Hg1).
    apply (regroup _ _ _ (partial_row_key eval Heval ps Hps Hnd)).
    intros gs Hgs Hall. apply (gathered_row eval Heval ps Hps Hnd); auto.
Qed.

(** C33: when the aggregate planner accepts a query, its scatter text is the
    emission of the select with decomposed aggregates, without ORDER BY and
    LIMIT, its gather text is the emission of the merging select over the
    placeholder, and the two together compute the query: if the keys of the
    GROUP BY are the projected ones and the partial columns have different
    names, then merging the partial results of any nodes gives the rows that the
    original select gives on the rows of all nodes. *)
Theorem aggregate_plan_computes_the_query (adapter : BackendAdapter) (catalog : Catalog) (bound : BoundQuery)
    (artifact : SqlArtifact) (plan : ScatterGatherPlan) :
  build_federated_aggregate_plan adapter catalog bound artifact = Ok plan →
  ∃ original stages partials scatter gather,
    top_level_select bound = Ok original
    ∧ decompose_from 0 (bsel_projection original) no_stages = Ok stages
    ∧ emit_sql adapter
        (bound_with_plan bound (without_order (with_body (bound_plan bound)
           (BSelect (scatter_select original stages)) (ResultSchema_new (scatter_fields stages))))) catalog
      = Ok scatter
    ∧ scatter_sql plan = sql_text scatter
    ∧ emit_sql adapter
        (bound_with_plan bound (with_body (bound_plan bound)
           (BSelect (gather_select original stages partials (sql_result_schema artifact)))
           (sql_result_schema artifact))) catalog
      = Ok gather
    ∧ wrap_placeholder_relation (sql_text gather) partials = Ok (gather_sql plan)
    ∧ ∀ (eval : BoundExpr → Row → Value) (holds : BoundExpr → Row → bool) (nodes : list (list Row)),
        (∀ name t nullable node r, eval (column_expr name t nullable node) r = r name) →
        (∀ r, map (λ e, eval e r) (bsel_group_by original)
              = map (λ e, eval e r) (projected_keys (bsel_projection original))) →
        NoDup (map item_name (scatter_projection stages)) →
        nodes ≠ [] →
        scatter_gather eval holds (scatter_select original stages)
          (gather_select original stages partials (sql_result_schema artifact)) nodes
        ≡ₚ select_rows eval holds original (concat nodes).
Proof.
  unfold build_federated_aggregate_plan. intros (original & Horig & H)%rbind_Ok.
  destruct (bsel_distinct original); [done|]. destruct (is_some (bsel_having original)); [done|].
  destruct (is_some (bq_offset (bound_plan bound))); [done|].
  apply rbind_Ok in H as (base & _ & H). apply rbind_Ok in H as (target & _ & H).
  apply rbind_Ok in H as (stages & Hdec & H).
  destruct (Nat.eqb (aggregate_count stages) 0); [done|].
  destruct (existsb _ (bq_order_by (bound_plan bound))); [done|].
  apply rbind_Ok in H as (scatter & Hscatter & H). apply rbind_Ok in H as (gather & Hgather & H).
  apply rbind_Ok in H as (text & Htext & [= <-]).
  exists original, stages,
    {| binding_name := binding_name base;
       relation_name := Some {| nr_namespace := None; nr_name := PARTIALS_RELATION |};
       binding_schema := sql_result_schema scatter |}, scatter, gather.
  split_and!; [done|exact Hdec|exact Hscatter|done|exact Hgather|exact Htext|].
  intros eval holds nodes Heval Hkeys Hnd Hne. by apply stages_compute_the_query.
Qed.

(** ** The shapes the planner accepts *)

Lemma primary_relation_Ok bound binding :
  primary_relation_binding bound = Ok binding ↔
  ∃ select node node', bound_set_expr_as_select (bq_body (bound_plan bound)) = Some select
  ∧ bsel_from select = [MkBoundTableWithJoins (BTable binding node) [] node'].
Proof.
  unfold primary_relation_binding, top_level_select. rewrite rbind_Ok. split.
  - intros (select & Hs%ok_or_Ok & H). exists select.
    destruct (bsel_from select) as [|[rel js nd] [|? ?]] eqn:Hf; try done.
    destruct js; [|done]. destruct rel as [b nd'|? ? ?|? ? ?|? ? ?]; try done. injection H as <-. eauto.
  - intros (select & nd & nd' & Hs & Hf). exists select. rewrite ok_or_Ok. split; [done|]. by rewrite Hf.
Qed.

(** A query is accepted for federation exactly when its plan has none of the
    nine features that cannot be decomposed and its body is one SELECT from one
    base table that has a name. *)
Theorem validate_federation_shape_iff (features : PlanFeatures) (bound : BoundQuery) :
  validate_federation_shape features bound = Ok tt ↔
  unsupported_features features = []
  ∧ ∃ select binding name node node',
      bound_set_expr_as_select (bq_body (bound_plan bound)) = Some select
      ∧ bsel_from select = [MkBoundTableWithJoins (BTable binding node) [] node']
      ∧ relation_name binding = Some name.
Proof.
  unfold validate_federation_shape. destruct (unsupported_features features) as [|r rs]; cbn [is_empty negb].
  - rewrite rbind_Ok. setoid_rewrite primary_relation_Ok. split.
    + intros (b & (select & nd & nd' & Hs & Hf) & Hn). split; [done|].
      destruct (relation_name b) as [n|] eqn:Hb; [|done]. exists select, b, n, nd, nd'. auto.
    + intros (_ & select & b & n & nd & nd' & Hs & Hf & Hb). exists b. rewrite Hb. eauto 10.
  - split; [done|]. by intros [? _].
Qed.

(** ** Texts *)

(** Wrapping replaces the first occurrence of the relation after FROM, and
    fails exactly when the text has none. *)
Theorem wrapping_replaces_the_relation (sql : string) (binding : BoundRelationBinding) :
  match wrap_query_over_partials sql binding with
  | Ok text => ∃ before after,
      sql = before +:+ ("FROM " +:+ fed_render_relation binding) +:+ after
      ∧ text = before +:+ ("FROM ({partials}) AS " +:+ binding_name binding) +:+ after
  | Err e => (∃ reason, e = FUnsupported reason)
      ∧ ∀ before after, sql ≠ before +:+ ("FROM " +:+ fed_render_relation binding) +:+ after
  end.
Proof.
  unfold wrap_query_over_partials, wrap_relation_source, str_contains, replace_first.
  set (target := "FROM " +:+ fed_render_relation binding).
  destruct (split_first target sql) as [[before after]|] eqn:E; simpl.
  - apply split_first_Some in E. exists before, after. split; [done|]. done.
  - split; [by eexists|]. intros before after. by apply split_first_None.
Qed.
