(* ===== verification/OptimizerExamples.v ===== *)
(** Whole queries through the optimizer crate: rewritten; bound, emitted by the
    PostgreSQL adapter and planned for federation; a run of both stages; and
    queries that are planned wrongly. *)
From S2P Require Import Prelude BTreeMap Types Diagnostics Syntax Bound Catalog CatalogFacts Features Cost Suggest.
From S2P Require Import Scope Bind Render Validate Behaviours Emission Rewrite Adapters Federation.
Local Open Scope result_scope.
#[local] Existing Instance ascii_unicode.
#[local] Existing Instance text_hash.

(** ** Rewriting *)

Definition scores_above (limit : string) : SyntaxExpr := binop Gt_ (col "score") (number limit).
Definition high_scores : SyntaxQuery :=
  query [] (select [item (col "id")] [named_table "records"] (Some (scores_above "1.0"))) [].

Example default_transformer_rebuilds_witness :
  query_height high_scores ≤ 9
  ∧ transform_query (tie (default_methods (St:=nat) (Er:=unit)) 9) high_scores 5 = Some (Ok high_scores, 5).
Proof.
  assert (Hh : query_height high_scores ≤ 9) by (vm_compute; lia).
  split; [exact Hh|]. apply (default_transformer_rebuilds high_scores 9 5). exact Hh.
Defined.

(** Every node of the fixtures has the id ["n"]. *)
Example selection_overrides_compose_witness :
  let earlier := bt_insert "n" (Some (scores_above "2.0")) [] in
  let later := bt_insert "n" (Some (scores_above "3.0")) [] in
  (∀ id, bt_get id later = option_or_else (bt_get id later) (bt_get id earlier))
  ∧ apply_selection_overrides (apply_selection_overrides high_scores earlier) later
    = apply_selection_overrides high_scores later
  ∧ apply_selection_overrides high_scores later
    = query [] (select [item (col "id")] [named_table "records"] (Some (scores_above "3.0"))) [].
Proof.
  intros earlier later.
  assert (Hboth : ∀ id, bt_get id later = option_or_else (bt_get id later) (bt_get id earlier)).
  { intros id. change earlier with [("n", Some (scores_above "2.0"))]. change later with [("n", Some (scores_above "3.0"))].
    rewrite !bt_get_cons. by destruct (decide (id = "n")). }
  split; [exact Hboth|]. split; [|vm_compute; reflexivity].
  apply (selection_overrides_compose high_scores earlier later later). exact Hboth.
Defined.

(** ** Federation *)

(** [SELECT items FROM records GROUP BY group_by]. *)
Definition grouped (items : list SyntaxProjectionItem) (group_by : list SyntaxExpr) : ParsedQuery :=
  parsed (query [] (SSelect (MkSyntaxSelect false items [named_table "records"] None group_by None n0)) []).

Definition federated (p : ParsedQuery) : result ScatterGatherPlan FederationError :=
  let? b := compile (bind_small p QueryParameters_default) in
  let? artifact := emit_sql PostgresAdapter b small_catalog in
  build_scatter_gather_plan PostgresAdapter small_catalog b (plan_features_from_bound small_catalog (bound_plan b)) artifact.

(** The scatter and the gather text of a plan. *)
Definition texts (r : result ScatterGatherPlan FederationError) : option (string * string) :=
  match r with Ok p => Some (scatter_sql p, gather_sql p) | Err _ => None end.

(** *** Rows of [records] *)

(** Columns and nothing else: enough for the queries below. *)
Definition column_value (e : BoundExpr) (r : Row) : Value :=
  match be_kind e with BColumn c => r (col_name c) | _ => Null end.
Definition every_row (e : BoundExpr) (r : Row) : bool := true.

Definition record_row (name : string) (score : Z) : Row :=
  row_of ["name"; "score"] [Text name; Num (count_as_number (Z.to_nat score))].

(** The rows of two nodes. *)
Definition two_nodes : list (list Row) :=
  [[record_row "a" 1; record_row "b" 4]; [record_row "a" 3; record_row "c" 5]].

(** *** A plan that is right *)

(** [SELECT name, avg(score), count(score) FROM records GROUP BY name]. *)
Definition averages : ParsedQuery :=
  grouped [item (col "name"); item (call "avg" [col "score"]); item (call "count" [col "score"])] [col "name"].
Definition averages_bound : BoundQuery :=
  bound_or_default averages (bind_small averages QueryParameters_default).
Definition artifact_or (r : Result EmitArtifact) : SqlArtifact :=
  match r with Ok (ASql a) => a | _ => sample_artifact end.
Definition averages_artifact : SqlArtifact :=
  artifact_or (postgres_emit averages_bound small_catalog).
Definition averages_plan : ScatterGatherPlan :=
  {| scatter_sql := "SELECT records.name, sum(records.score) AS __fed_avg_score_1_sum_1, count(records.score) AS __fed_avg_score_1_cnt_1, count(records.score) AS __fed_count_score_2_2 FROM records GROUP BY records.name";
     gather_sql := "SELECT name, (sum(__fed_avg_score_1_sum_1) / sum(__fed_avg_score_1_cnt_1)) AS avg_score_1, sum(__fed_count_score_2_2) AS count_score_2 FROM ({partials}) AS records GROUP BY name";
     sg_from_target := "records";
     sg_result_schema := bound_result_schema averages_bound |}.

Definition select_or (r : result BoundSelect FederationError) : BoundSelect :=
  match r with Ok s => s | Err _ => MkBoundSelect false [] [] None [] None (ResultSchema_new []) n0 end.
Definition stages_or (r : result Stages FederationError) : Stages :=
  match r with Ok s => s | Err _ => no_stages end.
Definition averages_select : BoundSelect := select_or (top_level_select averages_bound).
Definition averages_stages : Stages := stages_or (decompose_from 0 (bsel_projection averages_select) no_stages).

Example aggregate_plan_computes_the_query_witness :
  build_federated_aggregate_plan PostgresAdapter small_catalog averages_bound averages_artifact = Ok averages_plan
  ∧ ∃ gather : BoundSelect,
      scatter_gather column_value every_row (scatter_select averages_select averages_stages) gather two_nodes
      ≡ₚ select_rows column_value every_row averages_select (concat two_nodes).
Proof.
  assert (Hplan : build_federated_aggregate_plan PostgresAdapter small_catalog averages_bound averages_artifact
    = Ok averages_plan) by (vm_compute; reflexivity).
  split; [exact Hplan|].
  destruct (aggregate_plan_computes_the_query PostgresAdapter small_catalog averages_bound averages_artifact
    averages_plan Hplan) as (original & stages & partials & scatter & gather & Ho & Hs & _ & _ & _ & _ & H).
  assert (Ho' : original = averages_select).
  { change averages_select with (select_or (top_level_select averages_bound)). rewrite Ho. reflexivity. }
  subst original.
  assert (Hs' : stages = averages_stages).
  { change averages_stages with (stages_or (decompose_from 0 (bsel_projection averages_select) no_stages)).
    rewrite Hs. reflexivity. }
  subst stages. eexists. apply H; clear.
  - reflexivity.
  - reflexivity.
  - apply (bool_decide_unpack _). vm_compute. exact I.
  - done.
Defined.

(** What both sides are: the averages and the counts over all nodes. *)
Example averages_of_all_nodes :
  select_rows column_value every_row averages_select (concat two_nodes)
  = [[Text "b"; Num (count_as_number 4); Num (count_as_number 1)];
     [Text "a"; Num (count_as_number 2); Num (count_as_number 2)];
     [Text "c"; Num (count_as_number 5); Num (count_as_number 1)]].
Proof. apply (bool_decide_unpack _). vm_compute. exact I. Qed.

(** *** Plans that are wrong *)

Definition counts : ParsedQuery := grouped [item (call "count" [col "score"])] [col "name"].
Definition counts_select : BoundSelect :=
  select_or (top_level_select (bound_or_default counts (bind_small counts QueryParameters_default))).
Definition counts_stages : Stages := stages_or (decompose_from 0 (bsel_projection counts_select) no_stages).

(** The gather stage groups by the projected keys only.  The query
    [SELECT count(score) FROM records GROUP BY name] has one row for every name;
    its plan has no GROUP BY in the gather text, and gathers to one row. *)
Theorem unprojected_keys_are_merged :
  texts (federated counts)
  = Some ("SELECT count(records.score) AS __fed_count_score_0_0 FROM records GROUP BY records.name",
          "SELECT sum(__fed_count_score_0_0) AS count_score_0 FROM ({partials}) AS records")
  ∧ length (select_rows column_value every_row counts_select (concat two_nodes)) = 3
  ∧ ∀ partials schema,
      length (scatter_gather column_value every_row (scatter_select counts_select counts_stages)
                (gather_select counts_select counts_stages partials schema) two_nodes) = 1.
Proof. split_and!; [vm_compute; reflexivity..|]. intros partials schema. vm_compute. reflexivity. Qed.

(** The gather text of a query without aggregates is the whole query again:
    its condition is tested on the partial results, which have the projected
    columns only, and the first [FROM] that matches may be inside a literal. *)
Theorem passthrough_repeats_the_query :
  texts (federated (parsed (query [] (select [item (col "name")] [named_table "records"]
           (Some (binop Gt_ (col "score") (number "1.0")))) [])))
  = Some ("SELECT records.name FROM records WHERE (records.score > 1.0)",
          "SELECT records.name FROM ({partials}) AS records WHERE (records.score > 1.0)")
  ∧ texts (federated (parsed (query [] (select [item (text "FROM records"); item (col "name")]
             [named_table "records"] None) [])))
  = Some ("SELECT 'FROM records', records.name FROM records",
          "SELECT 'FROM ({partials}) AS records', records.name FROM records").
Proof. split; vm_compute; reflexivity. Qed.
