(* ===== verification/Cluster.v ===== *)
(** Cluster registry, circuit breakers, health monitor and routing:
    [queryfabric-cluster/src/] (registry.rs, health.rs, health_monitor.rs,
    routing.rs).

    The hub, the monitor and the request handlers share two concurrent maps, the
    registry of clusters and the cache of their health; the monitor keeps one
    circuit breaker for every cluster.  Maps are [gmap]: the order in which the
    source's maps are iterated is unspecified, and no theorem depends on it. *)
From S2P Require Import Prelude BTreeMap Contract.
Local Open Scope state_scope.

(** ** [registry.rs] *)

Record ClusterRemoteHandle (C : Type) := MkHandle {
  h_cluster_id : C;
  h_cluster_name : string;
  h_dht_name : string;
  h_flight_endpoint : option string;
  h_flight_tls : bool
}.
Arguments MkHandle {C}. Arguments h_cluster_id {C}. Arguments h_cluster_name {C}. Arguments h_dht_name {C}.
Arguments h_flight_endpoint {C}. Arguments h_flight_tls {C}.

(** [ResourceLocation] of routing.rs. *)
Record ResourceLocation (C : Type) := MkLocation { loc_cluster_id : C; loc_tables : list string }.
Arguments MkLocation {C}. Arguments loc_cluster_id {C}. Arguments loc_tables {C}.

Definition dht_name (prefix cluster_name : string) : string := prefix +:+ ":" +:+ cluster_name.

Record DhtNaming := { cluster_prefix : string; hub_name : string }.
Definition cluster_dht_name (n : DhtNaming) (cluster_name : string) : string :=
  dht_name (cluster_prefix n) cluster_name.

Abbreviation ClusterRefs C := (gmap C (ClusterRemoteHandle C)).
Abbreviation ResourceIndex R C := (gmap R (ResourceLocation C)).

Section Registry.
Context {R C : Type} `{Countable R, Countable C}.

Record HubRegistryState := { cluster_refs : ClusterRefs C; resource_index : ResourceIndex R C }.

Definition upsert_cluster (handle : ClusterRemoteHandle C) (s : HubRegistryState) : HubRegistryState :=
  {| cluster_refs := <[h_cluster_id handle := handle]> (cluster_refs s); resource_index := resource_index s |}.

Definition upsert_resource (id : R) (location : ResourceLocation C) (s : HubRegistryState) : HubRegistryState :=
  {| cluster_refs := cluster_refs s; resource_index := <[id := location]> (resource_index s) |}.

Definition remove_resource (id : R) (s : HubRegistryState) : HubRegistryState :=
  {| cluster_refs := cluster_refs s; resource_index := delete id (resource_index s) |}.
End Registry.
Arguments HubRegistryState R C {_ _ _ _}.

Definition get_handle {C} `{Countable C} (refs : ClusterRefs C) (id : C) : option (ClusterRemoteHandle C) :=
  refs !! id.

(** ** [health.rs] *)

Abbreviation HealthCache C := (gmap C Health).

Definition is_delegatable {C} `{Countable C} (cache : HealthCache C) (id : C) : bool :=
  match cache !! id with Some health => health_is_delegatable health | None => false end.

(** ** [routing.rs] *)

Record RemoteGroup (R C : Type) := MkGroup { group_cluster_id : C; group_resource_ids : list R }.
Arguments MkGroup {R C}. Arguments group_cluster_id {R C}. Arguments group_resource_ids {R C}.

Record RoutingDecision (R C : Type) := MkDecision { local_ids : list R; remote : list (RemoteGroup R C) }.
Arguments MkDecision {R C}. Arguments local_ids {R C}. Arguments remote {R C}.

Section Routing.
Context {R C : Type} `{Countable R, Countable C}.

(** One turn of the loop over the ids. *)
Definition route (index : ResourceIndex R C) (acc : list R * gmap C (list R)) (id : R) : list R * gmap C (list R) :=
  match index !! id with
  | Some loc => (acc.1, <[loc_cluster_id loc := default [] (acc.2 !! loc_cluster_id loc) ++ [id]]> acc.2)
  | None => (acc.1 ++ [id], acc.2)
  end.

Definition resolve_locality (index : ResourceIndex R C) (ids : list R) : RoutingDecision R C :=
  let acc := fold_left (route index) ids ([], ∅) in
  MkDecision acc.1 (map (λ g, MkGroup g.1 g.2) (map_to_list acc.2)).

(** The trait [ResourceLocator] over an index. *)
Class ResourceLocator (Locator : Type) := {
  locator_upsert : R → ResourceLocation C → Locator → Locator;
  locator_remove : R → Locator → Locator;
  locate_many : Locator → list R → RoutingDecision R C;
  locator_count : Locator → N
}.

(** [InMemoryResourceLocator]. *)
#[export] Instance in_memory_locator : ResourceLocator (ResourceIndex R C) :=
  {| locator_upsert id location index := <[id := location]> index;
     locator_remove id index := delete id index;
     locate_many := resolve_locality;
     locator_count index := N.of_nat (size index) |}.

Definition get_healthy_endpoint (refs : ClusterRefs C) (cache : HealthCache C) (id : C) : option (string * bool) :=
  if negb (is_delegatable cache id) then None
  else
    match get_handle refs id with
    | Some handle => (λ endpoint, (endpoint, h_flight_tls handle)) <$> h_flight_endpoint handle
    | None => None
    end.
End Routing.

(** ** [health_monitor.rs]: circuit breakers

    Instants and durations are counts of nanoseconds; [elapsed] saturates. *)

Definition Instant : Type := N.
Definition Duration : Type := N.
Definition elapsed (now since : Instant) : Duration := (now - since)%N.

Record CircuitConfig := { open_threshold : N; cooldown : Duration }.
Definition CircuitConfig_default : CircuitConfig :=
  {| open_threshold := 3; cooldown := 30 * 1000000000 |}%N.

Inductive CircuitPhase := Closed | Open | HalfOpen.
#[export] Instance CircuitPhase_eq_dec : EqDecision CircuitPhase.
Proof. solve_decision. Defined.

Record CircuitState := {
  phase : CircuitPhase;
  consecutive_failures : N;
  opened_at : option Instant
}.

Definition CircuitState_new : CircuitState :=
  {| phase := Closed; consecutive_failures := 0; opened_at := None |}.

Definition should_skip_probe (now : Instant) (config : CircuitConfig) (c : CircuitState) : bool :=
  match phase c with
  | Closed | HalfOpen => false
  | Open =>
      match opened_at c with
      | Some opened => (elapsed now opened <? cooldown config)%N
      | None => false
      end
  end.

Definition maybe_transition_to_half_open (now : Instant) (config : CircuitConfig) (c : CircuitState)
    : CircuitState :=
  match phase c, opened_at c with
  | Open, Some opened =>
      if (cooldown config <=? elapsed now opened)%N
      then {| phase := HalfOpen; consecutive_failures := consecutive_failures c; opened_at := opened_at c |}
      else c
  | _, _ => c
  end.

Definition record_success (c : CircuitState) : CircuitState :=
  {| phase := Closed; consecutive_failures := 0; opened_at := None |}.

(** The counter is a [u32]. *)
Definition record_failure (now : Instant) (config : CircuitConfig) (c : CircuitState) : CircuitState :=
  let failures := u32_wrapping_add (consecutive_failures c) 1 in
  if (open_threshold config <=? failures)%N
  then {| phase := Open; consecutive_failures := failures; opened_at := Some now |}
  else {| phase := phase c; consecutive_failures := failures; opened_at := opened_at c |}.

(** ** [health_monitor.rs]: the actor *)

(** The readings of the clock for one cluster during one sweep: at the
    transition, at the decision to skip, and when a failure is recorded. *)
Record Readings := { at_transition : Instant; at_skip : Instant; at_failure : Instant }.

(** [ClusterProbe] of queryfabric-contract, under [tokio::time::timeout]: a probe
    acts on the shared registry and the world, and gives nothing when the
    timeout cuts it off. *)
Class ClusterProbe (C World Output : Type) `{Countable C} := {
  probe_within : Duration → C → ClusterRemoteHandle C →
    state (ClusterRefs C * World) (option (ProbeResult Output));
  on_successful_sweep : list Output → state (ClusterRefs C * World) unit;
  output_default : Output
}.

Section Monitor.
Context {C World Output : Type} `{Countable C} `{!ClusterProbe C World Output}.

Record HealthMonitor := {
  health_cache : HealthCache C;
  circuits : gmap C CircuitState;
  probe_timeout : Duration;
  circuit_config : CircuitConfig
}.

(** [on_start], and the settings of [spawn_with_refs]. *)
Definition monitor_on_start (cache : HealthCache C) (timeout : Duration) (config : CircuitConfig) : HealthMonitor :=
  {| health_cache := cache; circuits := ∅; probe_timeout := timeout; circuit_config := config |}.
Definition spawn_with_refs : HealthMonitor :=
  monitor_on_start ∅ (15 * 1000000000)%N CircuitConfig_default.

Definition set_cache (cache : HealthCache C) (m : HealthMonitor) : HealthMonitor :=
  {| health_cache := cache; circuits := circuits m;
     probe_timeout := probe_timeout m; circuit_config := circuit_config m |}.
Definition set_circuit (id : C) (c : CircuitState) (m : HealthMonitor) : HealthMonitor :=
  {| health_cache := health_cache m; circuits := <[id := c]> (circuits m);
     probe_timeout := probe_timeout m; circuit_config := circuit_config m |}.

(** [entry(id).or_default()]. *)
Definition circuit_of (m : HealthMonitor) (id : C) : CircuitState :=
  default CircuitState_new (circuits m !! id).

Definition Entry : Type := C * ClusterRemoteHandle C.

(** One turn of the first loop: the clusters to probe and the skipped ones. *)
Definition select_entry (reads : C → Readings) (acc : HealthMonitor * (list Entry * list Entry)) (e : Entry)
    : HealthMonitor * (list Entry * list Entry) :=
  let '(m, (to_probe, skipped)) := acc in
  let circuit := maybe_transition_to_half_open (at_transition (reads e.1)) (circuit_config m) (circuit_of m e.1) in
  let m := set_circuit e.1 circuit m in
  if should_skip_probe (at_skip (reads e.1)) (circuit_config m) circuit
  then (m, (to_probe, skipped ++ [e]))
  else (m, (to_probe ++ [e], skipped)).

(** One future of the sweep. *)
Definition probe_entry (timeout : Duration) (e : Entry) : state (ClusterRefs C * World) (C * ProbeResult Output) :=
  let! result := probe_within timeout e.1 e.2 in
  sret (e.1, default (MkProbeResult Unreachable output_default) result).

(** One turn of the loop over the results. *)
Definition record_result (reads : C → Readings) (acc : HealthMonitor * list Output)
    (r : C * ProbeResult Output) : HealthMonitor * list Output :=
  let '(m, outputs) := acc in
  let m := set_cache (<[r.1 := probe_health r.2]> (health_cache m)) m in
  if decide (probe_health r.2 = Unreachable) then
    (set_circuit r.1 (record_failure (at_failure (reads r.1)) (circuit_config m) (circuit_of m r.1)) m, outputs)
  else
    (set_circuit r.1 (record_success (circuit_of m r.1)) m, outputs ++ [probe_output r.2]).

Definition keep_unreachable (m : HealthMonitor) (e : Entry) : HealthMonitor :=
  set_cache (<[e.1 := Unreachable]> (health_cache m)) m.

(** [Message<CheckAllClusters>::handle].  The futures are joined; their effects
    on the shared state are taken one after the other. *)
Definition check_all_clusters (reads : C → Readings) (m : HealthMonitor)
    : state (ClusterRefs C * World) HealthMonitor :=
  let! shared := sget in
  let entries := map_to_list shared.1 in
  if is_empty entries then sret m
  else
    let '(m, (to_probe, skipped)) := fold_left (select_entry reads) entries (m, ([], [])) in
    let! results := straverse (probe_entry (probe_timeout m)) to_probe in
    let '(m, outputs) := fold_left (record_result reads) results (m, []) in
    let m := fold_left keep_unreachable skipped m in
    if negb (is_empty outputs) then
      on_successful_sweep outputs ;;
      sret m
    else sret m.

(** [Message<GetHealth>::handle] and [Message<ResetCircuitBreaker>::handle]. *)
Definition get_health (id : C) (m : HealthMonitor) : option Health := health_cache m !! id.

Definition reset_circuit_breaker (id : C) (m : HealthMonitor) : HealthMonitor :=
  let m :=
    match circuits m !! id with
    | Some circuit => if decide (phase circuit = Closed) then m else set_circuit id CircuitState_new m
    | None => m
    end in
  set_cache (delete id (health_cache m)) m.
End Monitor.
Arguments HealthMonitor C {_ _}. Arguments Entry C : clear implicits.

(** What the circuit breakers, the monitor and the routing do. *)

(** ** Circuit breakers against their history

    The specification keeps no phases: it counts the failures since the last
    success and remembers when the latest was recorded.  A cluster is skipped
    while there are at least [open_threshold] of them and the latest is less
    than [cooldown] ago. *)

Definition Failures : Type := option (N * Instant).

Definition spec_skips (config : CircuitConfig) (now : Instant) (f : Failures) : bool :=
  match f with
  | Some (n, latest) => (open_threshold config <=? n)%N && (elapsed now latest <? cooldown config)%N
  | None => false
  end.

Definition spec_record (now : Instant) (answers : bool) (f : Failures) : Failures :=
  if answers then None else Some (match f with Some (n, _) => n + 1 | None => 1 end, now)%N.

(** A sweep visits a cluster with the readings of the clock, and whether the
    cluster would answer; the visit gives whether the cluster was probed. *)
Definition visit (config : CircuitConfig) (v : Readings * bool) (c : CircuitState) : bool * CircuitState :=
  let c := maybe_transition_to_half_open (at_transition v.1) config c in
  if should_skip_probe (at_skip v.1) config c then (false, c)
  else (true, if v.2 then record_success c else record_failure (at_failure v.1) config c).

Definition spec_visit (config : CircuitConfig) (v : Readings * bool) (f : Failures) : bool * Failures :=
  if spec_skips config (at_skip v.1) f then (false, f)
  else (true, spec_record (at_failure v.1) v.2 f).

Fixpoint probes {S} (visit : Readings * bool → S → bool * S) (s : S) (vs : list (Readings * bool)) : list bool :=
  match vs with
  | [] => []
  | v :: vs => (visit v s).1 :: probes visit (visit v s).2 vs
  end.

(** A circuit between two sweeps stands for its failures. *)
Definition stands_for (config : CircuitConfig) (c : CircuitState) (f : Failures) : Prop :=
  match f with
  | None => c = CircuitState_new
  | Some (n, latest) =>
      (0 < n)%N ∧ c = if (open_threshold config <=? n)%N
        then {| phase := Open; consecutive_failures := n; opened_at := Some latest |}
        else {| phase := Closed; consecutive_failures := n; opened_at := None |}
  end.

Definition failure_count (f : Failures) : N := match f with Some (n, _) => n | None => 0 end.

Lemma u32_add_small n : (n + 1 < u32_modulus)%N → u32_wrapping_add n 1 = (n + 1)%N.
Proof. intros. unfold u32_wrapping_add. by apply N.mod_small. Qed.

Lemma visit_stands_for config v c f :
  stands_for config c f → (at_transition v.1 ≤ at_skip v.1)%N → (failure_count f + 1 < u32_modulus)%N →
  (visit config v c).1 = (spec_visit config v f).1
  ∧ stands_for config (visit config v c).2 (spec_visit config v f).2
  ∧ (failure_count (spec_visit config v f).2 ≤ failure_count f + 1)%N.
Proof.
  intros Hc Ht Hn. destruct f as [[n latest]|]; simpl in Hc, Hn.
  - destruct Hc as [Hpos ->]. unfold visit, spec_visit, spec_skips, maybe_transition_to_half_open, elapsed.
    destruct (open_threshold config <=? n)%N eqn:Eth; cbn [phase opened_at andb].
    + destruct (cooldown config <=? at_transition v.1 - latest)%N eqn:Ecool;
        unfold should_skip_probe; cbn [phase opened_at]; unfold elapsed.
      * apply N.leb_le in Ecool.
        assert ((at_skip v.1 - latest <? cooldown config)%N = false) as -> by (apply N.ltb_ge; lia).
        destruct v.2; simpl; [split_and!; [done|done|lia]|].
        unfold record_failure. cbn [consecutive_failures]. rewrite u32_add_small by done.
        assert ((open_threshold config <=? n + 1)%N = true) as -> by (apply N.leb_le; apply N.leb_le in Eth; lia).
        split_and!; [done|lia|done|lia].
      * destruct (at_skip v.1 - latest <? cooldown config)%N eqn:Eskip; simpl.
        -- rewrite Eth. split_and!; [done|done|done|lia].
        -- destruct v.2; simpl; [split_and!; [done|done|lia]|].
           unfold record_failure. cbn [consecutive_failures]. rewrite u32_add_small by done.
           assert ((open_threshold config <=? n + 1)%N = true) as -> by (apply N.leb_le; apply N.leb_le in Eth; lia).
           split_and!; [done|lia|done|lia].
    + unfold should_skip_probe. cbn [phase]. destruct v.2; simpl; [split_and!; [done|done|lia]|].
      unfold record_failure. cbn [consecutive_failures phase opened_at]. rewrite u32_add_small by done.
      split_and!; [done|lia| |lia]. by destruct (open_threshold config <=? n + 1)%N.
  - subst c. unfold visit, spec_visit. simpl. destruct v.2; simpl; [split_and!; [done|done|lia]|].
    unfold record_failure. change (maybe_transition_to_half_open _ _ CircuitState_new) with CircuitState_new.
    change (u32_wrapping_add (consecutive_failures CircuitState_new) 1) with 1%N.
    split_and!; [done|done| |lia]. by destruct (open_threshold config <=? 1)%N.
Qed.

(** C34: refinement.  However often a cluster is visited, it is probed exactly
    when the specification says so: a circuit is open while the last
    [open_threshold] probes failed and the cooldown since the latest failure has
    not passed.  The clock does not run backwards between the transition and the
    decision of one visit, and there are fewer visits than a [u32] counts. *)
Theorem circuit_follows_its_history (config : CircuitConfig) (vs : list (Readings * bool)) :
  Forall (λ v, (at_transition v.1 ≤ at_skip v.1)%N) vs →
  (N.of_nat (length vs) < u32_modulus)%N →
  probes (visit config) CircuitState_new vs = probes (spec_visit config) None vs.
Proof.
  intros Hvs Hlen.
  assert (∀ c f, stands_for config c f → (failure_count f + N.of_nat (length vs) < u32_modulus)%N →
    probes (visit config) c vs = probes (spec_visit config) f vs) as Hgen; [|by apply Hgen].
  clear Hlen. induction Hvs as [|v vs Hv _ IH]; intros c f Hc Hn; [done|]. simpl in *.
  destruct (visit_stands_for config v c f Hc Hv) as (-> & Hc' & Hn'); [lia|].
  f_equal. apply IH; [done|]. lia.
Qed.

Lemma circuit_follows_its_history_witness :
  let at_time t := {| at_transition := t; at_skip := t; at_failure := t |} in
  let config := {| open_threshold := 2; cooldown := 10 |}%N in
  let vs := [(at_time 0, false); (at_time 1, false); (at_time 5, true); (at_time 11, true)]%N in
  Forall (λ v, (at_transition v.1 ≤ at_skip v.1)%N) vs
  ∧ (N.of_nat (length vs) < u32_modulus)%N
  ∧ probes (visit config) CircuitState_new vs = [true; true; false; true]
  ∧ probes (visit config) CircuitState_new vs = probes (spec_visit config) None vs.
Proof.
  intros at_time config vs.
  assert (Hf : Forall (λ v, (at_transition v.1 ≤ at_skip v.1)%N) vs) by (repeat constructor; simpl; lia).
  assert (Hl : (N.of_nat (length vs) < u32_modulus)%N) by (vm_compute; reflexivity).
  split; [exact Hf|]. split; [exact Hl|]. split; [vm_compute; reflexivity|].
  apply (circuit_follows_its_history config vs); [exact Hf|exact Hl].
Defined.

(** ** A sweep *)

Section Sweep.
Context {C World Output : Type} `{Countable C} `{!ClusterProbe C World Output}.
Implicit Types (m : HealthMonitor C) (es : list (Entry C)) (reads : C → Readings).

(** The circuit of a cluster as the sweep finds it, and whether it is skipped. *)
Definition swept_circuit reads m (id : C) : CircuitState :=
  maybe_transition_to_half_open (at_transition (reads id)) (circuit_config m) (circuit_of m id).
Definition skips reads m (id : C) : bool :=
  should_skip_probe (at_skip (reads id)) (circuit_config m) (swept_circuit reads m id).

Lemma select_entries reads es m p s :
  NoDup es.*1 →
  ∃ m', fold_left (select_entry reads) es (m, (p, s))
    = (m', (p ++ filter (λ e, skips reads m e.1 = false) es, s ++ filter (λ e, skips reads m e.1 = true) es))
  ∧ health_cache m' = health_cache m ∧ circuit_config m' = circuit_config m ∧ probe_timeout m' = probe_timeout m
  ∧ ∀ id, circuits m' !! id = if decide (id ∈ es.*1) then Some (swept_circuit reads m id) else circuits m !! id.
Proof.
  revert m p s. induction es as [|e es IH]; intros m p s Hnd.
  { exists m. rewrite !app_nil_r. split_and!; try done. }
  rewrite fmap_cons in Hnd. apply NoDup_cons in Hnd as [He Hnd]. cbn [fold_left select_entry].
  set (m1 := set_circuit e.1 (swept_circuit reads m e.1) m).
  assert (Hsame : ∀ id, id ≠ e.1 → circuit_of m1 id = circuit_of m id).
  { intros id Hid. unfold circuit_of, m1. simpl. by rewrite lookup_insert_ne. }
  assert (Hskips : ∀ b, filter (λ x, skips reads m1 x.1 = b) es = filter (λ x, skips reads m x.1 = b) es).
  { intros b. apply filter_ext_in. intros x Hx. unfold skips, swept_circuit.
    rewrite Hsame; [done|]. intros Heq. apply He. rewrite <- Heq. by apply (list_elem_of_fmap_2 fst). }
  fold (swept_circuit reads m e.1). fold m1.
  change (should_skip_probe _ _ _) with (skips reads m e.1).
  assert (Hcirc : ∀ m', (∀ id, circuits m' !! id = if decide (id ∈ es.*1) then Some (swept_circuit reads m1 id)
      else circuits m1 !! id) →
    ∀ id, circuits m' !! id = if decide (id ∈ (e :: es).*1) then Some (swept_circuit reads m id)
      else circuits m !! id).
  { intros m' Hm' id. rewrite Hm', fmap_cons. destruct (decide (id = e.1)) as [->|Hid].
    - rewrite decide_False, decide_True by set_solver. simpl. by rewrite lookup_insert_eq.
    - unfold swept_circuit at 1. rewrite Hsame by done. simpl. rewrite lookup_insert_ne by done.
      destruct (decide (id ∈ es.*1)); [rewrite decide_True by set_solver|rewrite decide_False by set_solver]; done. }
  destruct (IH m1 (if skips reads m e.1 then p else p ++ [e]) (if skips reads m e.1 then s ++ [e] else s) Hnd)
    as (m' & Hf & Hcache & Hconf & Htime & Hm').
  exists m'. rewrite !filter_cons, <- !Hskips. split_and!; [|done..|by apply Hcirc].
  destruct (skips reads m e.1); rewrite Hf; repeat case_decide; try done; by rewrite <- app_assoc.
Qed.

(** What a result does to the circuit of its cluster. *)
Definition answered (r : ProbeResult Output) : bool := bool_decide (probe_health r ≠ Unreachable).
Definition recorded reads m (r : C * ProbeResult Output) : CircuitState :=
  if answered r.2 then record_success (circuit_of m r.1)
  else record_failure (at_failure (reads r.1)) (circuit_config m) (circuit_of m r.1).

Lemma record_result_eq reads m outputs r :
  record_result reads (m, outputs) r
  = (set_circuit r.1 (recorded reads m r) (set_cache (<[r.1 := probe_health r.2]> (health_cache m)) m),
     outputs ++ if answered r.2 then [probe_output r.2] else []).
Proof.
  unfold record_result, recorded, answered. simpl. case_decide as Hr.
  - rewrite bool_decide_false by tauto. by rewrite app_nil_r.
  - by rewrite bool_decide_true.
Qed.

Lemma record_results reads rs m outputs :
  NoDup rs.*1 →
  ∃ m', fold_left (record_result reads) rs (m, outputs)
    = (m', outputs ++ map (λ r, probe_output r.2) (filter (λ r, answered r.2 = true) rs))
  ∧ (∀ id, id ∉ rs.*1 → circuits m' !! id = circuits m !! id ∧ health_cache m' !! id = health_cache m !! id)
  ∧ (∀ r, r ∈ rs → circuits m' !! r.1 = Some (recorded reads m r)
       ∧ health_cache m' !! r.1 = Some (probe_health r.2)).
Proof.
  revert m outputs. induction rs as [|r rs IH]; intros m outputs Hnd.
  { exists m. rewrite app_nil_r. split_and!; [done..|set_solver]. }
  rewrite fmap_cons in Hnd. apply NoDup_cons in Hnd as [Hr Hnd]. cbn [fold_left]. rewrite record_result_eq.
  set (m1 := set_circuit _ _ _).
  destruct (IH m1 (outputs ++ if answered r.2 then [probe_output r.2] else []) Hnd) as (m' & Hf & Hout & Hin).
  exists m'. split_and!.
  - rewrite Hf, filter_cons, <- app_assoc. by destruct (answered r.2); case_decide.
  - rewrite fmap_cons. intros id Hid. destruct (Hout id) as [-> ->]; [set_solver|]. unfold m1. simpl.
    by rewrite !lookup_insert_ne by set_solver.
  - intros r' [->|Hr']%elem_of_cons.
    + destruct (Hout r.1 Hr) as [-> ->]. unfold m1. simpl.
      by rewrite !lookup_insert_eq.
    + destruct (Hin r' Hr') as [-> ->]. split; [|done]. f_equal. unfold recorded, circuit_of, m1. simpl.
      assert (r.1 ≠ r'.1) as Hne by (intros Heq; apply Hr; rewrite Heq; by apply (list_elem_of_fmap_2 fst)).
      by rewrite lookup_insert_ne.
Qed.

Lemma keep_all_unreachable es m id :
  circuits (fold_left keep_unreachable es m) = circuits m
  ∧ health_cache (fold_left keep_unreachable es m) !! id
    = if decide (id ∈ es.*1) then Some Unreachable else health_cache m !! id.
Proof.
  revert m. induction es as [|e es IH]; intros m; [done|]. cbn [fold_left]. rewrite fmap_cons.
  destruct (IH (keep_unreachable m e)) as [-> ->]. split; [done|]. simpl.
  destruct (decide (id ∈ es.*1)); [by rewrite decide_True by set_solver|].
  destruct (decide (id = e.1)) as [->|Hne].
  - rewrite decide_True by set_solver. by rewrite lookup_insert_eq.
  - rewrite decide_False by set_solver. by rewrite lookup_insert_ne.
Qed.

Lemma probe_all_ids timeout es shared :
  (straverse (probe_entry timeout) es shared).1.*1 = es.*1.
Proof.
  revert shared. induction es as [|e es IH]; intros shared; [done|]. simpl. unfold sbind, sret.
  unfold probe_entry at 1, sbind. destruct (probe_within timeout e.1 e.2 shared) as [o s1]. unfold sret. simpl.
  specialize (IH s1). destruct (straverse (probe_entry timeout) es s1) as [rs s2]. simpl in *. by f_equal.
Qed.

Lemma elem_of_keys (refs : ClusterRefs C) id : id ∈ (map_to_list refs).*1 ↔ is_Some (refs !! id).
Proof.
  rewrite list_elem_of_fmap. split.
  - intros ([id' h] & -> & Hin%elem_of_map_to_list). eauto.
  - intros [h Hh]. exists (id, h). split; [done|]. by apply elem_of_map_to_list.
Qed.

Lemma filter_entries (refs : ClusterRefs C) (f : C → bool) b id :
  id ∈ (filter (λ e, f e.1 = b) (map_to_list refs)).*1 ↔ is_Some (refs !! id) ∧ f id = b.
Proof.
  rewrite list_elem_of_fmap. split.
  - intros ([id' h] & -> & [Hf Hin]%list_elem_of_filter). apply elem_of_map_to_list in Hin. simpl in *. eauto.
  - intros [[h Hh] Hf]. exists (id, h). split; [done|]. apply list_elem_of_filter. split; [done|].
    by apply elem_of_map_to_list.
Qed.

(** What a sweep with these probe results leaves of every cluster. *)
Definition swept reads m (refs : ClusterRefs C) (results : list (C * ProbeResult Output)) m' : Prop :=
  ∀ id,
    match refs !! id with
    | None => circuits m' !! id = circuits m !! id ∧ health_cache m' !! id = health_cache m !! id
    | Some handle =>
        if skips reads m id then
          circuits m' !! id = Some (swept_circuit reads m id) ∧ health_cache m' !! id = Some Unreachable
        else ∃ r, (id, r) ∈ results ∧ health_cache m' !! id = Some (probe_health r)
          ∧ circuits m' !! id
            = Some (if answered r then record_success (swept_circuit reads m id)
                    else record_failure (at_failure (reads id)) (circuit_config m) (swept_circuit reads m id))
    end.

Lemma loops_sweep reads m m1 m2 refs results outputs :
  let entries := map_to_list refs in
  let probed := filter (λ e, skips reads m e.1 = false) entries in
  let skipped := filter (λ e, skips reads m e.1 = true) entries in
  results.*1 = probed.*1 →
  fold_left (select_entry reads) entries (m, ([], [])) = (m1, (probed, skipped)) →
  fold_left (record_result reads) results (m1, []) = (m2, outputs) →
  swept reads m refs results (fold_left keep_unreachable skipped m2)
  ∧ outputs = map (λ r, probe_output r.2) (filter (λ r, answered r.2 = true) results).
Proof.
  intros entries probed skipped Hids Hsel Hrec.
  assert (Hnd : NoDup entries.*1) by apply NoDup_fst_map_to_list.
  destruct (select_entries reads entries m [] [] Hnd) as (m1' & Heq & Hcache1 & Hconf1 & _ & Hcirc1).
  rewrite Hsel in Heq. injection Heq as <-.
  assert (Hndr : NoDup results.*1).
  { rewrite Hids. eapply sublist_NoDup; [exact Hnd|]. apply fmap_sublist, sublist_filter. }
  destruct (record_results reads results m1 [] Hndr) as (m2' & Heq & Hout2 & Hin2).
  rewrite Hrec in Heq. injection Heq as <- ->. split; [|done]. intros id.
  destruct (keep_all_unreachable skipped m2 id) as [-> ->].
  pose proof (filter_entries refs (skips reads m) false id) as Hprobed.
  change (filter _ (map_to_list refs)) with probed in Hprobed. rewrite <- Hids in Hprobed.
  pose proof (filter_entries refs (skips reads m) true id) as Hskipped.
  change (filter _ (map_to_list refs)) with skipped in Hskipped.
  pose proof (elem_of_keys refs id) as Hkeys. change (map_to_list refs) with entries in Hkeys.
  destruct (refs !! id) as [handle|] eqn:Eid; [destruct (skips reads m id) eqn:Eskip|].
  - destruct (Hout2 id) as [-> _]; [naive_solver|]. rewrite Hcirc1, !decide_True; naive_solver.
  - assert (id ∈ results.*1) as [[id' r] [-> Hr]]%list_elem_of_fmap by naive_solver.
    exists r. destruct (Hin2 _ Hr) as [-> ->]. rewrite decide_False by naive_solver.
    split_and!; [done..|]. f_equal. unfold recorded. cbn [fst snd] in *. unfold circuit_of at 1 2.
    rewrite Hconf1, Hcirc1, !decide_True by naive_solver. done.
  - rewrite decide_False by naive_solver. destruct (Hout2 id) as [-> ->]; [naive_solver|].
    rewrite Hcirc1, Hcache1, decide_False; naive_solver.
Qed.

(** The clusters that a sweep probes, and what the answered probes put out. *)
Definition probed_entries reads m (refs : ClusterRefs C) : list (Entry C) :=
  filter (λ e, skips reads m e.1 = false) (map_to_list refs).
Definition answers (results : list (C * ProbeResult Output)) : list Output :=
  map (λ r, probe_output r.2) (filter (λ r, answered r.2 = true) results).

Lemma check_all_clusters_sweeps reads m (refs : ClusterRefs C) (w : World) results shared :
  straverse (probe_entry (probe_timeout m)) (probed_entries reads m refs) (refs, w) = (results, shared) →
  swept reads m refs results (check_all_clusters reads m (refs, w)).1
  ∧ (check_all_clusters reads m (refs, w)).2
    = if is_empty (answers results) then shared else (on_successful_sweep (answers results) shared).2.
Proof.
  intros Eres. unfold check_all_clusters, sbind, sget, sret. simpl.
  destruct (is_empty (map_to_list refs)) eqn:Eempty.
  { assert (refs = ∅) as -> by (apply map_to_list_empty_iff; by destruct (map_to_list refs)).
    unfold probed_entries in Eres. rewrite map_to_list_empty in Eres. injection Eres as <- <-.
    split; [|done]. intros id. by rewrite lookup_empty. }
  destruct (select_entries reads (map_to_list refs) m [] []) as (m1 & Hsel & _ & _ & Htime & _);
    [apply NoDup_fst_map_to_list|].
  rewrite Hsel, Htime. cbn [app].
  change (straverse ?f (filter _ _) ?s) with (straverse f (probed_entries reads m refs) s). rewrite Eres.
  destruct (fold_left (record_result reads) results (m1, [])) as [m2 outputs'] eqn:Erec.
  destruct (loops_sweep reads m m1 m2 refs results outputs') as [Hswept ->]; [|done..|].
  { change (results.*1 = (probed_entries reads m refs).*1).
    by rewrite <- (probe_all_ids (probe_timeout m) (probed_entries reads m refs) (refs, w)), Eres. }
  fold (answers results). destruct (is_empty (answers results)); cbn [negb]; [done|].
  by destruct (on_successful_sweep (answers results) shared) as [[] shared'].
Qed.

(** A sweep probes the registered clusters whose circuits do not hold them
    back, and no other.  Every registered cluster gets a fresh entry in the
    cache, the result of its probe or [Unreachable], and its circuit is visited;
    nothing changes for other clusters.  The outputs of the answered probes, if
    there are any, are handed on. *)
Theorem sweep_updates_every_cluster reads m (refs : ClusterRefs C) (w : World) :
  let '(results, shared) := straverse (probe_entry (probe_timeout m)) (probed_entries reads m refs) (refs, w) in
  let '(m', shared') := check_all_clusters reads m (refs, w) in
  swept reads m refs results m'
  ∧ shared' = if is_empty (answers results) then shared else (on_successful_sweep (answers results) shared).2.
Proof.
  destruct (straverse _ _ (refs, w)) as [results shared] eqn:E.
  apply check_all_clusters_sweeps in E. by destruct (check_all_clusters reads m (refs, w)).
Qed.

(** A circuit that is reset does not hold the next sweep back, and until then
    nothing is delegated to its cluster. *)
Lemma reset_circuit_is_probed reads m id :
  skips reads (reset_circuit_breaker id m) id = false
  ∧ is_delegatable (health_cache (reset_circuit_breaker id m)) id = false.
Proof.
  split.
  - unfold skips, swept_circuit, circuit_of, reset_circuit_breaker. simpl.
    destruct (circuits m !! id) as [c|] eqn:Ec; [|by rewrite Ec].
    case_decide as Hc; simpl; rewrite ?lookup_insert_eq, ?Ec; [|done]. destruct c. simpl in Hc. by subst.
  - unfold is_delegatable. simpl. by rewrite lookup_delete_eq.
Qed.
End Sweep.

(** ** Routing *)

Section RoutingFacts.
Context {R C : Type} `{Countable R, Countable C}.
Implicit Types (index : ResourceIndex R C) (ids : list R).

Definition cluster_of index (id : R) : option C := loc_cluster_id <$> index !! id.

Lemma route_all index ids :
  let acc := fold_left (route index) ids ([], ∅) in
  acc.1 = filter (λ id, cluster_of index id = None) ids
  ∧ ∀ c, acc.2 !! c = match filter (λ id, cluster_of index id = Some c) ids with [] => None | l => Some l end.
Proof.
  induction ids as [|id ids IH] using rev_ind; [split; [done|]; intros c; apply lookup_empty|].
  simpl in IH |- *. rewrite fold_left_app. simpl. destruct IH as [IHl IHr].
  set (acc := fold_left (route index) ids ([], ∅)) in *.
  assert (route index acc id = match cluster_of index id with
    | Some c => (acc.1, <[c := default [] (acc.2 !! c) ++ [id]]> acc.2)
    | None => (acc.1 ++ [id], acc.2)
    end) as -> by (unfold route, cluster_of; by destruct (index !! id)).
  split; [|intros c]; rewrite filter_app, filter_cons, filter_nil; destruct (cluster_of index id) as [c'|]; simpl.
  - by rewrite IHl, app_nil_r.
  - by rewrite IHl.
  - destruct (decide (Some c' = Some c)) as [[= ->]|Hne].
    + rewrite lookup_insert_eq, IHr. generalize (filter (λ id0, cluster_of index id0 = Some c) ids). by intros [].
    + rewrite lookup_insert_ne, app_nil_r by naive_solver. apply IHr.
  - rewrite app_nil_r. apply IHr.
Qed.

(** Routing is a partition in order: the ids without a known location stay
    local, every other id is in the one group of its cluster, in the order and
    as often as it was asked for; no group is empty. *)
Theorem resolve_locality_partitions index ids :
  let d := resolve_locality index ids in
  local_ids d = filter (λ id, cluster_of index id = None) ids
  ∧ NoDup (map group_cluster_id (remote d))
  ∧ (∀ c l, MkGroup c l ∈ remote d ↔ l = filter (λ id, cluster_of index id = Some c) ids ∧ l ≠ []).
Proof.
  destruct (route_all index ids) as [Hl Hr]. unfold resolve_locality. simpl. split_and!; [done| |].
  - rewrite List.map_map. apply (NoDup_fst_map_to_list).
  - intros c l. rewrite list_elem_of_In, in_map_iff. setoid_rewrite <- list_elem_of_In. split.
    + intros ([c' l'] & [= -> ->] & Hin%elem_of_map_to_list). rewrite Hr in Hin.
      revert Hin. generalize (filter (λ id, cluster_of index id = Some c) ids).
      by intros [|x xs] [= <-].
    + intros [Hl' Hne]. exists (c, l). split; [done|]. apply elem_of_map_to_list. rewrite Hr, <- Hl'. by destruct l as [|x l].
Qed.

(** Requests go to a cluster exactly when the cache says that it is healthy
    or degraded and its handle has an endpoint. *)
Theorem healthy_endpoint_iff (refs : ClusterRefs C) (cache : HealthCache C) (id : C) (endpoint : string) (tls : bool) :
  get_healthy_endpoint refs cache id = Some (endpoint, tls) ↔
  (cache !! id = Some Healthy ∨ cache !! id = Some Degraded)
  ∧ ∃ handle, refs !! id = Some handle ∧ h_flight_endpoint handle = Some endpoint ∧ h_flight_tls handle = tls.
Proof.
  unfold get_healthy_endpoint, is_delegatable, get_handle.
  destruct (cache !! id) as [[]|]; simpl; try naive_solver.
  all: destruct (refs !! id) as [handle|]; [|naive_solver].
  all: destruct (h_flight_endpoint handle) eqn:E; naive_solver.
Qed.
End RoutingFacts.
