(* ===== verification/SchemaSync.v ===== *)
(** The federation host and the schema-sync protocol:
    [queryfabric-federation/src/] (messages.rs, host.rs, schema.rs).

    [FederationHost] is the trait through which a host injects its behaviour: a
    class of operations on an abstract world. *)
From S2P Require Import Prelude BTreeMap Contract Cluster.
Local Open Scope state_scope.

(** ** [messages.rs], and [messages.rs] of queryfabric-cluster *)

Record ClusterIdentity := {
  ci_name : string;
  ci_endpoint : string;
  ci_port : Z;
  ca_certificate_pem : option string;
  ci_description : option string;
  institution : option string;
  contact_email : option string
}.

Inductive CatalogAction := Added | Removed | Updated.

Record CatalogAnnouncement (T : Type) := MkAnnouncement {
  an_cluster_id : NodeId;
  an_resource_id : ResourceRef;
  an_action : CatalogAction;
  an_facets : list string;
  an_catalog_entry : option T
}.
Arguments MkAnnouncement {T}. Arguments an_cluster_id {T}. Arguments an_resource_id {T}.
Arguments an_action {T}. Arguments an_facets {T}. Arguments an_catalog_entry {T}.

(** ** [schema.rs]: data *)

Record SchemaMigration := { migration_version : Z; migration_name : string; migration_sql : string }.

Record SchemaSync := { target_version : Z; migrations : list SchemaMigration }.

Record SchemaSyncReply := { sync_success : bool; applied_version : Z; sync_errors : list string }.

(** ** [host.rs] *)

Record ClusterRegistration := { reg_cluster_id : NodeId; reg_api_key : string; reg_message : string }.

Inductive FederationHostError :=
| HUnsupported (operation : string)
| HRejected (operation reason : string)
| HFailed (operation reason : string).

(** [Display], derived from the messages of [#[error]]. *)
Definition show_host_error (e : FederationHostError) : string :=
  match e with
  | HUnsupported operation => operation +:+ " is not supported by this host"
  | HRejected operation reason => operation +:+ " rejected: " +:+ reason
  | HFailed operation reason => operation +:+ " failed: " +:+ reason
  end.

Class FederationHost (World DateTime CatalogEntry : Type) := {
  register_cluster : ClusterIdentity → string → state World (result ClusterRegistration FederationHostError);
  on_announce : CatalogAnnouncement CatalogEntry → state World unit;
  schema_version : World → Z;
  schema_migrations : World → Z → list SchemaMigration;
  storage_ok : state World bool;
  resource_count : state World N;
  catalog_entries : option DateTime → state World (list CatalogEntry);
  apply_ddl : SchemaMigration → state World (result unit FederationHostError);
  host_revision : World → Z
}.

(** The hooks that a host leaves at their defaults. *)
Definition default_host (World DateTime CatalogEntry : Type) : FederationHost World DateTime CatalogEntry :=
  {| register_cluster _ _ := sret (Err (HUnsupported "cluster registration"));
     on_announce _ := sret tt;
     schema_version _ := 0%Z;
     schema_migrations _ _ := [];
     storage_ok := sret true;
     resource_count := sret 0%N;
     catalog_entries _ := sret [];
     apply_ddl _ := sret (Ok tt);
     host_revision _ := 0%Z |}.

(** ** [schema.rs]: the protocol *)

Definition ddl_allowed (sql : string) : bool :=
  let upper := to_ascii_uppercase (trim_start sql) in
  str_starts_with "CREATE " upper || str_starts_with "ALTER " upper.

Definition migration_label (m : SchemaMigration) : string :=
  "Migration v" +:+ show_Z (migration_version m) +:+ " '" +:+ migration_name m +:+ "'".

Section Sync.
Context {World DateTime CatalogEntry : Type} `{!FederationHost World DateTime CatalogEntry}.

(** The loop over the migrations, from the version applied so far: the version
    and the errors it ends with. *)
Fixpoint apply_migrations (applied : Z) (ms : list SchemaMigration) : state World (Z * list string) :=
  match ms with
  | [] => sret (applied, [])
  | m :: ms =>
      if (migration_version m <=? applied)%Z then apply_migrations applied ms
      else if negb (ddl_allowed (migration_sql m)) then
        sret (applied, [migration_label m +:+ " rejected: only CREATE/ALTER DDL is allowed"])
      else
        let! r := apply_ddl m in
        match r with
        | Ok _ => apply_migrations (migration_version m) ms
        | Err e => sret (applied, [migration_label m +:+ " failed: " +:+ show_host_error e])
        end
  end.

(** The atomic version of the node is loaded before and stored after the loop. *)
Definition apply_schema_sync (version : Z) (sync : SchemaSync) : state World (SchemaSyncReply * Z) :=
  let! r := apply_migrations version (migrations sync) in
  sret ({| sync_success := is_empty r.2; applied_version := r.1; sync_errors := r.2 |}, r.1).
End Sync.
