(* ===== verification/Hub.v ===== *)
(** Hub and cluster nodes: [queryfabric-federation/src/] (hub_actor.rs,
    node_actor.rs, transport.rs).

    The hub's handlers act on the registry it shares with the health monitor;
    they reach the nodes through a transport.  The in-memory transport resolves
    the names of the registry to node actors in the same process. *)
From S2P Require Import Prelude BTreeMap Contract Cluster SchemaSync.
Local Open Scope state_scope.

Record RegisterCluster := { rc_identity : ClusterIdentity; rc_federation_password : string }.

Record RegisterClusterReply := {
  rcr_cluster_id : NodeId;
  rcr_api_key : string;
  rcr_schema_version : Z;
  rcr_schema_ddl : list SchemaMigration;
  rcr_accepted : bool;
  rcr_message : string
}.

Record HealthPong := {
  pong_status : Health;
  pong_schema_version : Z;
  pong_resource_count : N;
  pong_uptime_secs : N;
  pong_storage_ok : bool;
  pong_host_revision : Z
}.

Record EndpointReply := { reply_endpoint : string; reply_tls : bool }.

Inductive TransportError :=
| TNotFound (dht_name : string)
| TRequest (dht_name error : string).

(** ** [transport.rs]: the trait

    Messages to the nodes are operations on the world the nodes live in. *)
Class FederationTransport (World : Type) := {
  schema_sync : ClusterRemoteHandle NodeId → SchemaSync → state World (result SchemaSyncReply TransportError);
  health_ping : ClusterRemoteHandle NodeId → state World (result HealthPong TransportError);
  get_flight_endpoint : ClusterRemoteHandle NodeId → state World (result EndpointReply TransportError)
}.

(** ** [hub_actor.rs] *)

Definition Registry : Type := HubRegistryState ResourceRef NodeId.

Section Hub.
Context {HostWorld NetWorld DateTime CatalogEntry : Type}.
Context `{!FederationHost HostWorld DateTime CatalogEntry} `{!FederationTransport NetWorld}.

(** The hub, with the worlds of its host and of the nodes, and the clusters
    whose circuit breakers it has asked to reset. *)
Record HubActor := {
  registry : Registry;
  host_world : HostWorld;
  net_world : NetWorld;
  naming : DhtNaming;
  circuit_reset : option (list NodeId)
}.

(** [on_start]. *)
Definition hub_on_start (r : Registry) (w : HostWorld) (net : NetWorld) (n : DhtNaming)
    (hook : option (list NodeId)) : HubActor :=
  {| registry := r; host_world := w; net_world := net; naming := n; circuit_reset := hook |}.

Definition set_registry (r : Registry) (h : HubActor) : HubActor :=
  {| registry := r; host_world := host_world h; net_world := net_world h; naming := naming h;
     circuit_reset := circuit_reset h |}.
Definition set_host_world (w : HostWorld) (h : HubActor) : HubActor :=
  {| registry := registry h; host_world := w; net_world := net_world h; naming := naming h;
     circuit_reset := circuit_reset h |}.
Definition set_net_world (w : NetWorld) (h : HubActor) : HubActor :=
  {| registry := registry h; host_world := host_world h; net_world := w; naming := naming h;
     circuit_reset := circuit_reset h |}.

(** [hook.reset_circuit(node)], when there is a hook. *)
Definition reset_circuit (node : NodeId) (h : HubActor) : HubActor :=
  {| registry := registry h; host_world := host_world h; net_world := net_world h; naming := naming h;
     circuit_reset := (λ sent, sent ++ [node]) <$> circuit_reset h |}.

Definition registered_handle (n : DhtNaming) (identity : ClusterIdentity) (id : NodeId)
    : ClusterRemoteHandle NodeId :=
  MkHandle id (ci_name identity) (cluster_dht_name n (ci_name identity)) None false.

(** [Message<RegisterCluster>::handle]. *)
Definition handle_register (msg : RegisterCluster) (h : HubActor) : RegisterClusterReply * HubActor :=
  let '(r, w) := register_cluster (rc_identity msg) (rc_federation_password msg) (host_world h) in
  let h := set_host_world w h in
  match r with
  | Ok registration =>
      let handle := registered_handle (naming h) (rc_identity msg) (reg_cluster_id registration) in
      let h := set_registry (upsert_cluster handle (registry h)) h in
      let h := reset_circuit (reg_cluster_id registration) h in
      ({| rcr_cluster_id := reg_cluster_id registration; rcr_api_key := reg_api_key registration;
          rcr_schema_version := schema_version w; rcr_schema_ddl := schema_migrations w 0;
          rcr_accepted := true; rcr_message := reg_message registration |}, h)
  | Err e =>
      ({| rcr_cluster_id := {| node_uuid := Uuid_nil |}; rcr_api_key := ""; rcr_schema_version := 0;
          rcr_schema_ddl := []; rcr_accepted := false;
          rcr_message := "Registration failed: " +:+ show_host_error e |}, h)
  end.

(** [Message<ResourceAnnouncement>::handle]: the registry, then the host. *)
Definition announced (msg : CatalogAnnouncement CatalogEntry) (r : Registry) : Registry :=
  match an_action msg with
  | Added | Updated => upsert_resource (an_resource_id msg) (MkLocation (an_cluster_id msg) (an_facets msg)) r
  | Removed => remove_resource (an_resource_id msg) r
  end.

Definition handle_announcement (msg : CatalogAnnouncement CatalogEntry) (h : HubActor) : HubActor :=
  let h := set_registry (announced msg (registry h)) h in
  let '(_, w) := on_announce msg (host_world h) in
  set_host_world w h.

(** [Message<SyncAllSchemas>::handle]. *)
Definition sync_cluster (target : Z) (ms : list SchemaMigration) (handle : ClusterRemoteHandle NodeId)
    : state NetWorld (string * bool) :=
  let! r := schema_sync handle {| target_version := target; migrations := ms |} in
  sret (h_cluster_name handle, match r with Ok reply => sync_success reply | Err _ => false end).

Definition handle_sync_all (h : HubActor) : list (string * bool) * HubActor :=
  let ms := schema_migrations (host_world h) 0 in
  let target := schema_version (host_world h) in
  let entries := map snd (map_to_list (cluster_refs (registry h))) in
  let '(results, w) := straverse (sync_cluster target ms) entries (net_world h) in
  (results, set_net_world w h).
End Hub.
Arguments HubActor : clear implicits.

(** ** [node_actor.rs] *)

Section Node.
Context {World DateTime CatalogEntry : Type} `{!FederationHost World DateTime CatalogEntry}.

Record ClusterNodeActor := {
  identity : ClusterIdentity;
  node_world : World;
  flight_endpoint : option string;
  flight_tls : bool;
  node_schema_version : Z;
  started_at : Instant
}.

(** [on_start], at a reading of the clock. *)
Definition node_on_start (now : Instant) (id : ClusterIdentity) (w : World) (endpoint : option string)
    (tls : bool) (version : Z) : ClusterNodeActor :=
  {| identity := id; node_world := w; flight_endpoint := endpoint; flight_tls := tls;
     node_schema_version := version; started_at := now |}.

Definition set_node (w : World) (version : Z) (n : ClusterNodeActor) : ClusterNodeActor :=
  {| identity := identity n; node_world := w; flight_endpoint := flight_endpoint n; flight_tls := flight_tls n;
     node_schema_version := version; started_at := started_at n |}.

(** [Message<HealthPing>::handle]. *)
Definition node_health (now : Instant) (n : ClusterNodeActor) : HealthPong * ClusterNodeActor :=
  let '(ok, w) := storage_ok (node_world n) in
  let '(count, w) := if ok then resource_count w else (0%N, w) in
  ({| pong_status := if ok then Healthy else Degraded;
      pong_schema_version := node_schema_version n;
      pong_resource_count := count;
      pong_uptime_secs := elapsed now (started_at n) / 1000000000;
      pong_storage_ok := ok;
      pong_host_revision := host_revision w |}, set_node w (node_schema_version n) n).

(** [Message<SchemaSync>::handle]. *)
Definition node_sync (msg : SchemaSync) (n : ClusterNodeActor) : SchemaSyncReply * ClusterNodeActor :=
  let '((reply, version), w) := apply_schema_sync (node_schema_version n) msg (node_world n) in
  (reply, set_node w version n).

(** [Message<CatalogRequest>::handle]. *)
Definition node_catalog (since : option DateTime) (n : ClusterNodeActor) : list CatalogEntry * ClusterNodeActor :=
  let '(resources, w) := catalog_entries since (node_world n) in
  (resources, set_node w (node_schema_version n) n).

(** [Message<GetFlightEndpoint>::handle]. *)
Definition node_endpoint (n : ClusterNodeActor) : EndpointReply :=
  {| reply_endpoint := default "" (flight_endpoint n); reply_tls := flight_tls n |}.
End Node.
Arguments ClusterNodeActor : clear implicits.

(** ** [transport.rs]: the in-memory transport *)

Abbreviation InMemoryTransport World := (gmap string (ClusterNodeActor World)).

Section InMemory.
Context {World DateTime CatalogEntry : Type} `{!FederationHost World DateTime CatalogEntry}.
(** The reading of the clock for the uptimes. *)
Variable now : Instant.

(** [register]. *)
Definition transport_register (dht_name : string) (n : ClusterNodeActor World) (nodes : InMemoryTransport World)
    : InMemoryTransport World := <[dht_name := n]> nodes.

Definition transport_lookup (dht_name : string) (nodes : InMemoryTransport World)
    : result (ClusterNodeActor World) TransportError :=
  ok_or (nodes !! dht_name) (TNotFound dht_name).

(** [lookup], then [ask]: the node handles the message and replies. *)
Definition ask_node {A} (handler : ClusterNodeActor World → A * ClusterNodeActor World)
    (handle : ClusterRemoteHandle NodeId) : state (InMemoryTransport World) (result A TransportError) :=
  λ nodes,
    match transport_lookup (h_dht_name handle) nodes with
    | Err e => (Err e, nodes)
    | Ok n => let '(reply, n) := handler n in (Ok reply, <[h_dht_name handle := n]> nodes)
    end.

#[export] Instance in_memory_transport : FederationTransport (InMemoryTransport World) :=
  {| schema_sync handle sync := ask_node (node_sync sync) handle;
     health_ping := ask_node (node_health now);
     get_flight_endpoint := ask_node (λ n, (node_endpoint n, n)) |}.
End InMemory.

(** ** [transport.rs]: the probe of the health monitor *)

Section Probe.
Context {World : Type} `{!FederationTransport World}.

(** What the endpoint reply makes of the handle of the sweep. *)
Definition refreshed (handle : ClusterRemoteHandle NodeId) (reply : EndpointReply) : ClusterRemoteHandle NodeId :=
  MkHandle (h_cluster_id handle) (h_cluster_name handle) (h_dht_name handle)
    (Some (reply_endpoint reply)) (reply_tls reply).

Definition transport_probe (node : NodeId) (handle : ClusterRemoteHandle NodeId)
    : state (ClusterRefs NodeId * World) (ProbeResult (option HealthPong)) :=
  λ '(refs, w),
    let '(ping, w) := health_ping handle w in
    match ping with
    | Ok pong =>
        let '(endpoint, w) := get_flight_endpoint handle w in
        let refs :=
          match endpoint with
          | Ok reply => if String.eqb (reply_endpoint reply) "" then refs
                        else <[node := refreshed handle reply]> refs
          | Err _ => refs
          end in
        (MkProbeResult (pong_status pong) (Some pong), (refs, w))
    | Err _ => (MkProbeResult Unreachable None, (refs, w))
    end.

(** Nodes that answer in time; [on_successful_sweep] is the default. *)
#[export] Instance transport_cluster_probe : ClusterProbe NodeId World (option HealthPong) :=
  {| probe_within timeout node handle := sbind (transport_probe node handle) (λ r, sret (Some r));
     on_successful_sweep outputs := sret tt;
     output_default := None |}.
End Probe.

(** What schema syncs, announcements and health sweeps achieve together. *)

(** ** Schema syncs *)

(** The migrations a node at version [v] still has to apply: those above every
    version before them. *)
Fixpoint pending_migrations (v : Z) (ms : list SchemaMigration) : list SchemaMigration :=
  match ms with
  | [] => []
  | m :: ms =>
      if (migration_version m <=? v)%Z then pending_migrations v ms
      else m :: pending_migrations (migration_version m) ms
  end.

Definition last_version (v : Z) (ms : list SchemaMigration) : Z :=
  default v (migration_version <$> last ms).

Lemma last_version_cons v m ms : last_version v (m :: ms) = last_version (migration_version m) ms.
Proof. unfold last_version. rewrite last_cons. by destruct (last ms). Qed.

Lemma pending_prefix_grows v ms done rest : pending_migrations v ms = done ++ rest → (v ≤ last_version v done)%Z.
Proof.
  revert v done. induction ms as [|m ms IH]; intros v done; simpl.
  { intros Heq. destruct done; simplify_eq/=. unfold last_version. simpl. lia. }
  destruct (Z.leb_spec (migration_version m) v); [by apply IH|].
  destruct done as [|d done]; [unfold last_version; simpl; lia|]. intros [= -> Hd]. rewrite last_version_cons.
  specialize (IH _ _ Hd). lia.
Qed.

(** A node that has applied some of its pending migrations has the others
    pending. *)
Lemma pending_after v ms done rest :
  pending_migrations v ms = done ++ rest → pending_migrations (last_version v done) ms = rest.
Proof.
  revert v done. induction ms as [|m ms IH]; intros v done; simpl.
  { intros Heq. by destruct done; simplify_eq/=. }
  destruct (Z.leb_spec (migration_version m) v) as [Hle|Hgt].
  - intros Heq. pose proof (pending_prefix_grows _ _ _ _ Heq).
    destruct (Z.leb_spec (migration_version m) (last_version v done)); [|lia]. by apply IH.
  - destruct done as [|d done].
    + simpl. intros <-. unfold last_version. simpl. destruct (Z.leb_spec (migration_version m) v); [lia|done].
    + intros [= -> Heq]. rewrite last_version_cons. pose proof (pending_prefix_grows _ _ _ _ Heq).
      destruct (Z.leb_spec (migration_version d) (last_version (migration_version d) done)); [|lia]. by apply IH.
Qed.

Lemma pending_none v ms : pending_migrations v ms = [] ↔ Forall (λ m, (migration_version m ≤ v)%Z) ms.
Proof.
  induction ms as [|m ms IH]; simpl; [done|]. rewrite Forall_cons.
  destruct (Z.leb_spec (migration_version m) v); [naive_solver|]. split; [done|]. intros [? _]. lia.
Qed.

Section SyncFacts.
Context {World DateTime CatalogEntry : Type} `{!FederationHost World DateTime CatalogEntry}.
Implicit Types (w : World) (sync : SchemaSync).

(** The reference: run migrations in order, up to the first that is rejected or
    fails; those that were applied, and the error. *)
Fixpoint run_migrations (ms : list SchemaMigration) : state World (list SchemaMigration * option string) :=
  match ms with
  | [] => sret ([], None)
  | m :: ms =>
      if ddl_allowed (migration_sql m) then
        let! r := apply_ddl m in
        match r with
        | Ok _ => let! rest := run_migrations ms in sret (m :: rest.1, rest.2)
        | Err e => sret ([], Some (migration_label m +:+ " failed: " +:+ show_host_error e))
        end
      else sret ([], Some (migration_label m +:+ " rejected: only CREATE/ALTER DDL is allowed"))
  end.

Lemma apply_migrations_eq v ms w :
  apply_migrations v ms w
  = let '((done, error), w') := run_migrations (pending_migrations v ms) w in
    ((last_version v done, option_list error), w').
Proof.
  revert v w. induction ms as [|m ms IH]; intros v w; [done|]. simpl.
  destruct (migration_version m <=? v)%Z; [apply IH|]. simpl.
  destruct (ddl_allowed (migration_sql m)); simpl; [|done]. unfold sbind.
  destruct (apply_ddl m w) as [[u|e] w1]; [|done]. rewrite IH.
  destruct (run_migrations _ w1) as [[done error] w2]. simpl. by rewrite last_version_cons.
Qed.

Lemma run_migrations_prefix ms w :
  let '((done, error), _) := run_migrations ms w in
  ∃ rest, ms = done ++ rest ∧ Forall (λ m, ddl_allowed (migration_sql m) = true) done ∧ (error = None ↔ rest = []).
Proof.
  revert w. induction ms as [|m ms IH]; intros w; simpl; [by exists []|].
  destruct (ddl_allowed (migration_sql m)) eqn:Eddl; [|by exists (m :: ms)]. unfold sbind.
  destruct (apply_ddl m w) as [[u|e] w1]; [|by exists (m :: ms)]. specialize (IH w1).
  destruct (run_migrations ms w1) as [[done error] w2]. destruct IH as (rest & -> & Hok & Herr).
  exists rest. simpl. split_and!; [done|by constructor|done].
Qed.

Lemma apply_schema_sync_eq (version : Z) sync w :
  apply_schema_sync version sync w
  = let '((done, error), w') := run_migrations (pending_migrations version (migrations sync)) w in
    let version' := last_version version done in
    (({| sync_success := is_empty (option_list error); applied_version := version';
         sync_errors := option_list error |}, version'), w').
Proof.
  unfold apply_schema_sync, sbind, sret. rewrite apply_migrations_eq.
  by destruct (run_migrations _ w) as [[done error] w'].
Qed.

(** A sync applies the pending migrations in order up to the first that is
    rejected or fails: nothing that is not CREATE or ALTER is sent to the host,
    the version is that of the last applied migration, success is reported
    exactly when none is left, and what is left is what the next sync applies. *)
Theorem schema_sync_resumes (version : Z) sync w :
  let '((reply, version'), w') := apply_schema_sync version sync w in
  ∃ done rest,
    pending_migrations version (migrations sync) = done ++ rest
    ∧ (∃ error, run_migrations (pending_migrations version (migrations sync)) w = ((done, error), w')
                ∧ sync_errors reply = option_list error)
    ∧ Forall (λ m, ddl_allowed (migration_sql m) = true) done
    ∧ version' = last_version version done ∧ applied_version reply = version'
    ∧ (sync_success reply = true ↔ rest = [])
    ∧ pending_migrations version' (migrations sync) = rest.
Proof.
  rewrite apply_schema_sync_eq. pose proof (run_migrations_prefix (pending_migrations version (migrations sync)) w) as Hrun.
  destruct (run_migrations _ w) as [[done error] w']. destruct Hrun as (rest & Heq & Hok & Herr).
  exists done, rest. simpl. split_and!; [done| |done|done|done| |].
  - by exists error.
  - rewrite <- Herr. by destruct error.
  - by apply pending_after.
Qed.
End SyncFacts.

(** The guard looks at the first word only: statements that drop or delete, and
    second statements after a semicolon, pass. *)
Lemma destructive_ddl_is_allowed :
  ddl_allowed "ALTER TABLE records DROP COLUMN id" = true
  ∧ ddl_allowed "alter table records delete where 1" = true
  ∧ ddl_allowed "CREATE TABLE t (id UInt64); DROP TABLE records" = true
  ∧ ddl_allowed "DROP TABLE records" = false.
Proof. split_and!; vm_compute; reflexivity. Qed.

(** A migration that is listed after a higher version is never applied, and the
    sync reports success. *)
Lemma late_migrations_are_skipped {World DateTime CatalogEntry} `{!FederationHost World DateTime CatalogEntry}
    (version : Z) (target : Z) (m : SchemaMigration) (w : World) :
  (migration_version m ≤ version)%Z →
  apply_schema_sync version {| target_version := target; migrations := [m] |} w
  = (({| sync_success := true; applied_version := version; sync_errors := [] |}, version), w).
Proof. intros Hm. unfold apply_schema_sync, sbind, sret. simpl. by rewrite (proj2 (Z.leb_le _ _) Hm). Qed.

(** ** Announcements *)

Section HubFacts.
Context {HostWorld NetWorld DateTime CatalogEntry : Type}.
Context `{!FederationHost HostWorld DateTime CatalogEntry} `{!FederationTransport NetWorld}.
Implicit Types (h : HubActor HostWorld NetWorld) (msgs : list (CatalogAnnouncement CatalogEntry)).

(** Where an announcement puts its resource. *)
Definition announced_location (msg : CatalogAnnouncement CatalogEntry) : option (ResourceLocation NodeId) :=
  match an_action msg with
  | Added | Updated => Some (MkLocation (an_cluster_id msg) (an_facets msg))
  | Removed => None
  end.

Lemma announced_lookup (msg : CatalogAnnouncement CatalogEntry) (r : Registry) id :
  resource_index (announced msg r) !! id
  = if decide (an_resource_id msg = id) then announced_location msg else resource_index r !! id.
Proof.
  unfold announced, announced_location. case_decide as Hid; [subst id|]; destruct (an_action msg); simpl;
    by rewrite ?lookup_insert_eq, ?lookup_delete_eq, ?lookup_insert_ne, ?lookup_delete_ne.
Qed.

Lemma handle_announcement_registry msg h : registry (handle_announcement msg h) = announced msg (registry h).
Proof. unfold handle_announcement. simpl. by destruct (on_announce msg (host_world h)). Qed.

(** Whatever announcements the hub has handled, a resource is where the last
    one about it says, and nowhere when that was a removal; other resources and
    the clusters stay as they were. *)
Theorem announcements_route_to_the_last h msgs id :
  let h' := fold_left (λ h msg, handle_announcement msg h) msgs h in
  resource_index (registry h') !! id
  = match last (filter (λ msg, an_resource_id msg = id) msgs) with
    | Some msg => announced_location msg
    | None => resource_index (registry h) !! id
    end
  ∧ cluster_refs (registry h') = cluster_refs (registry h).
Proof.
  induction msgs as [|msg msgs IH] using rev_ind; [done|]. simpl in IH |- *.
  destruct IH as [IHi IHc]. rewrite fold_left_app, filter_app, filter_cons, filter_nil. simpl.
  rewrite handle_announcement_registry, announced_lookup. split.
  - case_decide; [by rewrite last_snoc|]. by rewrite app_nil_r.
  - rewrite <- IHc. unfold announced. by destruct (an_action msg).
Qed.

(** A registration that the host accepts puts a handle without endpoint
    under the assigned id, asks for the reset of that circuit, and answers with
    the host's versions; one that it refuses leaves the registry alone. *)
Theorem registration_outcome msg h :
  let '(r, w) := register_cluster (rc_identity msg) (rc_federation_password msg) (host_world h) in
  let '(reply, h') := handle_register msg h in
  match r with
  | Ok registration =>
      let id := reg_cluster_id registration in
      rcr_accepted reply = true ∧ rcr_cluster_id reply = id
      ∧ cluster_refs (registry h') = <[id := registered_handle (naming h) (rc_identity msg) id]> (cluster_refs (registry h))
      ∧ (∀ sent, circuit_reset h = Some sent → circuit_reset h' = Some (sent ++ [id]))
      ∧ rcr_schema_ddl reply = schema_migrations w 0
  | Err e => rcr_accepted reply = false ∧ registry h' = registry h ∧ circuit_reset h' = circuit_reset h
  end
  ∧ host_world h' = w ∧ net_world h' = net_world h ∧ resource_index (registry h') = resource_index (registry h).
Proof.
  unfold handle_register. destruct (register_cluster _ _ (host_world h)) as [[registration|e] w]; simpl; [|done].
  split_and!; try done. by intros sent ->.
Qed.
End HubFacts.

(** ** Broadcasts over the in-memory transport *)

Section Broadcast.
Context {HostWorld World DateTime CatalogEntry : Type}.
Context `{!FederationHost HostWorld DateTime CatalogEntry} `{!FederationHost World DateTime CatalogEntry}.
Implicit Types (nodes : InMemoryTransport World).
Variable now : Instant.
#[local] Existing Instance in_memory_transport.

(** A node is up to date when none of the migrations is above its version. *)
Definition up_to_date (ms : list SchemaMigration) nodes (name : string) : Prop :=
  ∃ n, nodes !! name = Some n ∧ Forall (λ m, (migration_version m ≤ node_schema_version n)%Z) ms.

Lemma node_sync_up_to_date target ms (n : ClusterNodeActor World) :
  let '(reply, n') := node_sync {| target_version := target; migrations := ms |} n in
  (sync_success reply = true → Forall (λ m, (migration_version m ≤ node_schema_version n')%Z) ms)
  ∧ (node_schema_version n ≤ node_schema_version n')%Z.
Proof.
  unfold node_sync. rewrite apply_schema_sync_eq. simpl.
  pose proof (run_migrations_prefix (pending_migrations (node_schema_version n) ms) (node_world n)) as Hrun.
  destruct (run_migrations _ _) as [[done error] w']. destruct Hrun as (rest & Heq & _ & Herr). simpl. split.
  - intros Hok. apply pending_none. rewrite (pending_after _ _ _ _ Heq). apply Herr. by destruct error.
  - by apply (pending_prefix_grows _ _ _ _ Heq).
Qed.

Lemma sync_cluster_up_to_date target ms handle nodes :
  let '((name, success), nodes') := @sync_cluster _ (in_memory_transport now) target ms handle nodes in
  name = h_cluster_name handle
  ∧ (success = true → up_to_date ms nodes' (h_dht_name handle))
  ∧ ∀ other, up_to_date ms nodes other → up_to_date ms nodes' other.
Proof.
  unfold sync_cluster, sbind, sret. simpl. unfold ask_node, transport_lookup.
  destruct (nodes !! h_dht_name handle) as [n|] eqn:En; simpl; [|by split_and!].
  pose proof (node_sync_up_to_date target ms n) as Hn. destruct (node_sync _ n) as [reply n'].
  destruct Hn as [Hok Hgrows]. split_and!; [done| |].
  - intros Hs. exists n'. rewrite lookup_insert_eq. auto.
  - intros other (o & Ho & Hall). destruct (decide (h_dht_name handle = other)) as [<-|Hne].
    + exists n'. rewrite lookup_insert_eq. split; [done|]. rewrite En in Ho. injection Ho as ->.
      eapply Forall_impl; [exact Hall|]. simpl. lia.
    + exists o. by rewrite lookup_insert_ne.
Qed.

Lemma sync_clusters_up_to_date target ms handles nodes :
  let '(results, nodes') := straverse (@sync_cluster _ (in_memory_transport now) target ms) handles nodes in
  Forall2 (λ handle r, r.1 = h_cluster_name handle ∧ (r.2 = true → up_to_date ms nodes' (h_dht_name handle)))
    handles results
  ∧ ∀ other, up_to_date ms nodes other → up_to_date ms nodes' other.
Proof.
  revert nodes. induction handles as [|handle handles IH]; intros nodes; [by split; [constructor|]|]. simpl.
  unfold sbind at 1. pose proof (sync_cluster_up_to_date target ms handle nodes) as H1.
  destruct (sync_cluster target ms handle nodes) as [[name success] nodes1]. destruct H1 as (-> & Hok & Hkeep).
  unfold sbind, sret. specialize (IH nodes1). destruct (straverse _ handles nodes1) as [results nodes'].
  destruct IH as [Hall Hkeep']. split; [|auto]. constructor; [|done]. simpl. auto.
Qed.

(** After a broadcast, every cluster that the hub reports in sync is at or
    above the version of every migration of the host, and no node has fallen
    behind; the registry is as before. *)
Theorem broadcast_brings_up_to_date (h : HubActor HostWorld (InMemoryTransport World)) :
  let ms := schema_migrations (host_world h) 0 in
  let handles := map snd (map_to_list (cluster_refs (registry h))) in
  let '(results, h') := @handle_sync_all _ _ _ _ _ (in_memory_transport now) h in
  Forall2 (λ handle r, r.1 = h_cluster_name handle ∧ (r.2 = true → up_to_date ms (net_world h') (h_dht_name handle)))
    handles results
  ∧ (∀ name, up_to_date ms (net_world h) name → up_to_date ms (net_world h') name)
  ∧ registry h' = registry h.
Proof.
  unfold handle_sync_all.
  pose proof (sync_clusters_up_to_date (schema_version (host_world h)) (schema_migrations (host_world h) 0)
    (map snd (map_to_list (cluster_refs (registry h)))) (net_world h)) as H.
  destruct (straverse _ _ _) as [results nodes']. simpl. by destruct H as [? ?].
Qed.
End Broadcast.

(** ** Sweeps over the in-memory transport *)

Section Sweeping.
Context {World DateTime CatalogEntry : Type} `{!FederationHost World DateTime CatalogEntry}.
Implicit Types (nodes : InMemoryTransport World) (refs : ClusterRefs NodeId).
Variable now : Instant.
#[local] Existing Instance in_memory_transport.
#[local] Instance sweep_probe : ClusterProbe NodeId (InMemoryTransport World) (option HealthPong) :=
  @transport_cluster_probe _ (in_memory_transport now).

(** Where a node serves its data. *)
Definition data_plane (n : ClusterNodeActor World) : option string * bool := (flight_endpoint n, flight_tls n).
Definition same_data_planes nodes nodes' : Prop := ∀ name, data_plane <$> nodes !! name = data_plane <$> nodes' !! name.

Lemma same_data_planes_insert nodes name n n' :
  nodes !! name = Some n → data_plane n' = data_plane n → same_data_planes nodes (<[name := n']> nodes).
Proof.
  intros Hn Heq other. destruct (decide (name = other)) as [<-|Hne].
  - rewrite lookup_insert_eq, Hn. simpl. by rewrite Heq.
  - by rewrite lookup_insert_ne.
Qed.

Lemma node_health_keeps n : data_plane (node_health now n).2 = data_plane n.
Proof. unfold node_health. destruct (storage_ok _) as [[] w]; simpl; [|done]. by destruct (resource_count w). Qed.

(** A node that answers may be asked, whether its storage is sound or not. *)
Lemma node_health_delegatable n : health_is_delegatable (pong_status (node_health now n).1) = true.
Proof. unfold node_health. destruct (storage_ok _) as [[] w]; simpl; [|done]. by destruct (resource_count w). Qed.

(** A probe of one cluster. *)
Lemma transport_probe_known (c : NodeId) handle refs nodes n :
  nodes !! h_dht_name handle = Some n →
  let '(r, (refs', nodes')) := @transport_probe _ (in_memory_transport now) c handle (refs, nodes) in
  r = MkProbeResult (pong_status (node_health now n).1) (Some (node_health now n).1)
  ∧ refs' = (if String.eqb (default "" (flight_endpoint n)) "" then refs
             else <[c := refreshed handle (node_endpoint n)]> refs)
  ∧ same_data_planes nodes nodes'.
Proof.
  intros Hn. unfold transport_probe. simpl. unfold ask_node at 1, transport_lookup. rewrite Hn. simpl.
  pose proof (node_health_keeps n) as Hkeep. destruct (node_health now n) as [pong n1]. simpl in *.
  unfold ask_node, transport_lookup. rewrite lookup_insert_eq. simpl.
  assert (node_endpoint n1 = node_endpoint n) as He by (unfold node_endpoint; by injection Hkeep as -> ->).
  rewrite He. split_and!; [done| |].
  - by injection Hkeep as -> _.
  - rewrite insert_insert_eq. by eapply same_data_planes_insert.
Qed.

Lemma transport_probe_keeps (c : NodeId) handle refs nodes :
  let '(r, (refs', nodes')) := @transport_probe _ (in_memory_transport now) c handle (refs, nodes) in
  (∀ other, other ≠ c → refs' !! other = refs !! other) ∧ same_data_planes nodes nodes'.
Proof.
  destruct (nodes !! h_dht_name handle) as [n|] eqn:En.
  - pose proof (transport_probe_known c handle refs nodes n En) as H.
    destruct (transport_probe c handle (refs, nodes)) as [r [refs' nodes']]. destruct H as (_ & -> & Hs).
    split; [|done]. intros other Hne. destruct (String.eqb _ _); [done|]. by rewrite lookup_insert_ne.
  - unfold transport_probe. simpl. unfold ask_node, transport_lookup. by rewrite En.
Qed.

Lemma probes_reach (c : NodeId) handle n e timeout (es : list (Entry NodeId)) refs nodes :
  NoDup es.*1 → data_plane <$> nodes !! h_dht_name handle = Some (data_plane n) →
  flight_endpoint n = Some e → e ≠ "" →
  let '(results, (refs', _)) := straverse (probe_entry timeout) es (refs, nodes) in
  ((c, handle) ∈ es →
     refs' !! c = Some (refreshed handle (node_endpoint n))
     ∧ ∀ r, (c, r) ∈ results → health_is_delegatable (probe_health r) = true)
  ∧ (c ∉ es.*1 → refs' !! c = refs !! c ∧ c ∉ results.*1).
Proof.
  revert refs nodes. induction es as [|x es IH]; intros refs nodes Hnd Hn He Hne.
  { simpl. split; [by intros ?%not_elem_of_nil|]. intros _. split; [done|apply not_elem_of_nil]. }
  rewrite fmap_cons in Hnd. apply NoDup_cons in Hnd as [Hx Hnd]. simpl. unfold sbind at 1.
  assert (∀ s, probe_entry timeout x s
    = let '(r, s') := @transport_probe _ (in_memory_transport now) x.1 x.2 s in ((x.1, r), s')) as Hentry.
  { intros s. unfold probe_entry, sbind, sret. simpl. unfold sbind, sret.
    by destruct (transport_probe x.1 x.2 s). }
  rewrite Hentry. pose proof (transport_probe_keeps x.1 x.2 refs nodes) as Hkeep.
  assert (x = (c, handle) → ∀ n', nodes !! h_dht_name handle = Some n' → data_plane n' = data_plane n →
    let '(r, (refs', _)) := @transport_probe _ (in_memory_transport now) x.1 x.2 (refs, nodes) in
    health_is_delegatable (probe_health r) = true ∧ refs' !! c = Some (refreshed handle (node_endpoint n))) as Hprobe.
  { intros -> n' Hn' Hdata. pose proof (transport_probe_known c handle refs nodes n' Hn') as H. cbn [fst snd].
    destruct (transport_probe c handle (refs, nodes)) as [r [refs' nodes']]. destruct H as (-> & -> & _).
    split; [apply node_health_delegatable|]. injection Hdata as He' Htls. rewrite He', He. simpl.
    apply String.eqb_neq in Hne as ->. rewrite lookup_insert_eq. unfold node_endpoint. by rewrite He', Htls. }
  destruct (transport_probe x.1 x.2 (refs, nodes)) as [r [refs1 nodes1]]. destruct Hkeep as [Hothers Hsame].
  specialize (IH refs1 nodes1 Hnd). rewrite Hsame in Hn. specialize (IH Hn He Hne).
  rewrite <- Hsame in Hn. unfold sbind, sret.
  destruct (straverse (probe_entry timeout) es (refs1, nodes1)) as [results [refs2 nodes2]].
  destruct IH as [IHin IHout]. split.
  - intros Hin. destruct (decide (x.1 = c)) as [Hc|Hc].
    + apply elem_of_cons in Hin as [<-|Hin];
        [|destruct Hx; rewrite Hc; by apply (list_elem_of_fmap_2 fst es (c, handle))].
      simpl in *. destruct (nodes !! h_dht_name handle) as [n'|]; [|done]. injection Hn as Hd1 Hd2.
      destruct (Hprobe eq_refl n' eq_refl) as [Hh Hr]; [unfold data_plane; congruence|].
      destruct (IHout Hx) as [-> Hno]. split; [done|]. intros r' [[= ->]|Hin']%elem_of_cons; [done|].
      destruct Hno. by apply (list_elem_of_fmap_2 fst results (c, r')).
    + apply elem_of_cons in Hin as [<-|Hin]; [done|]. destruct (IHin Hin) as [Hr Hh]. split; [done|].
      intros r' [[= Heq _]|Hin']%elem_of_cons; [by destruct Hc|]. by apply Hh.
  - rewrite fmap_cons, not_elem_of_cons. intros [Hc Hno]. destruct (IHout Hno) as [-> Hno'].
    rewrite (Hothers c) by done. split; [done|]. set_solver.
Qed.

(** C35: a registered cluster whose node is reachable and serves an endpoint is
    routed to after one sweep: if the circuit of the cluster does not hold it
    back, requests for it go to the node's endpoint, whatever the state of its
    storage and of the other nodes is. *)
Theorem swept_cluster_is_reachable (reads : NodeId → Readings) (m : HealthMonitor NodeId) refs nodes
    (c : NodeId) handle n e :
  refs !! c = Some handle → nodes !! h_dht_name handle = Some n →
  flight_endpoint n = Some e → e ≠ "" → skips reads m c = false →
  let '(m', (refs', _)) := check_all_clusters reads m (refs, nodes) in
  get_healthy_endpoint refs' (health_cache m') c = Some (e, flight_tls n).
Proof.
  intros Hc Hn He Hne Hskip.
  pose proof (probes_reach c handle n e (probe_timeout m)
    (filter (λ e, skips reads m e.1 = false) (map_to_list refs)) refs nodes) as Hreach.
  destruct (straverse _ _ (refs, nodes)) as [results [refs1 nodes1]] eqn:Eres.
  destruct (check_all_clusters_sweeps reads m refs nodes _ _ Eres) as [Hswept Hshared].
  destruct (check_all_clusters reads m (refs, nodes)) as [m' [refs' nodes']]. cbn [fst snd] in *.
  assert (refs' = refs1) as -> by (destruct (is_empty _); by injection Hshared).
  destruct Hreach as [Hin _]; [|by rewrite Hn|done..|].
  { eapply sublist_NoDup; [apply (NoDup_fst_map_to_list refs)|]. apply fmap_sublist, sublist_filter. }
  destruct Hin as [Hr Hh].
  { apply list_elem_of_filter. split; [done|]. by apply elem_of_map_to_list. }
  specialize (Hswept c). rewrite Hc, Hskip in Hswept. destruct Hswept as (r & Hrin & Hcache & _).
  unfold get_healthy_endpoint, is_delegatable, get_handle. rewrite Hcache, (Hh r Hrin), Hr. simpl. by rewrite He.
Qed.
End Sweeping.

(** The probe writes back the handle it was given at the start of the sweep: a
    cluster that registers again meanwhile, under a new name, gets its old name
    back. *)
Lemma probe_restores_the_old_handle {World} `{!FederationTransport World} (c : NodeId) old refs w :
  let '(r, (refs', _)) := transport_probe c old (refs, w) in
  ∀ handle, refs' !! c = Some handle → refs !! c ≠ Some handle → h_dht_name handle = h_dht_name old.
Proof.
  unfold transport_probe. destruct (health_ping old w) as [[pong|] w1]; [|naive_solver].
  destruct (get_flight_endpoint old w1) as [[reply|] w2]; [|naive_solver].
  destruct (String.eqb _ _); [naive_solver|]. intros handle. rewrite lookup_insert_eq. by intros [= <-].
Qed.
