(* ===== verification/HubExamples.v ===== *)
(** A hub and a node in one process: registration, announcement, sweep and
    routing on a concrete host, as in the crate's own two-node test. *)
From S2P Require Import Prelude BTreeMap Contract Cluster SchemaSync Hub.
Local Open Scope state_scope.

(** The host keeps the DDL it was given; its storage is sound. *)
Record TestWorld := { applied_ddl : list string; next_id : Uuid }.

Definition init_migration : SchemaMigration :=
  {| migration_version := 1%Z; migration_name := "init"; migration_sql := "CREATE TABLE resources (id UUID)" |}.

#[local] Instance test_host : FederationHost TestWorld unit unit :=
  {| register_cluster identity password w :=
       if String.eqb password "open-sesame" then
         (Ok {| reg_cluster_id := {| node_uuid := next_id w |};
                reg_api_key := "key-" +:+ ci_name identity; reg_message := "welcome" |},
          {| applied_ddl := applied_ddl w; next_id := (next_id w + 1)%N |})
       else (Err (HRejected "cluster registration" "bad federation password"), w);
     on_announce _ := sret tt;
     schema_version _ := 1%Z;
     schema_migrations _ from := if (1 <=? from)%Z then [] else [init_migration];
     storage_ok := sret true;
     resource_count := sret 2%N;
     catalog_entries _ := sret [];
     apply_ddl m w := (Ok tt, {| applied_ddl := applied_ddl w ++ [migration_sql m]; next_id := next_id w |});
     host_revision _ := 0%Z |}.

Definition alpha_identity : ClusterIdentity :=
  {| ci_name := "alpha"; ci_endpoint := "alpha:50051"; ci_port := 50051%Z; ca_certificate_pem := None;
     ci_description := None; institution := None; contact_email := None |}.
Definition alpha : ClusterNodeActor TestWorld :=
  node_on_start 0%N alpha_identity {| applied_ddl := []; next_id := 0%N |} (Some "alpha:50052") true 0%Z.
Definition alpha_nodes : InMemoryTransport TestWorld := transport_register "fabric-cluster:alpha" alpha ∅.
Definition alpha_id : NodeId := {| node_uuid := 7%N |}.

Definition hub : HubActor TestWorld (InMemoryTransport TestWorld) :=
  hub_on_start {| cluster_refs := ∅; resource_index := ∅ |} {| applied_ddl := []; next_id := 7%N |} alpha_nodes
    {| cluster_prefix := "fabric-cluster"; hub_name := "fabric-hub" |} (Some []).

Definition register_alpha (password : string) : RegisterCluster :=
  {| rc_identity := alpha_identity; rc_federation_password := password |}.
Definition registered_hub : HubActor TestWorld (InMemoryTransport TestWorld) :=
  (handle_register (register_alpha "open-sesame") hub).2.

Definition alpha_handle : ClusterRemoteHandle NodeId :=
  MkHandle alpha_id "alpha" "fabric-cluster:alpha" None false.

Lemma wrong_passwords_are_refused :
  let '(reply, h) := handle_register (register_alpha "guess") hub in
  rcr_accepted reply = false ∧ registry h = registry hub
  ∧ rcr_message reply = "Registration failed: cluster registration rejected: bad federation password".
Proof. split_and!; vm_compute; reflexivity. Qed.

Definition monitor : HealthMonitor NodeId := spawn_with_refs.
Definition at_once : NodeId → Readings := λ _, {| at_transition := 1; at_skip := 1; at_failure := 2 |}%N.

#[local] Instance net_transport : FederationTransport (InMemoryTransport TestWorld) := in_memory_transport 1%N.

Definition swept_hub : HealthMonitor NodeId * (ClusterRefs NodeId * InMemoryTransport TestWorld) :=
  check_all_clusters at_once monitor (cluster_refs (registry registered_hub), net_world registered_hub).

Lemma swept_cluster_is_reachable_witness :
  cluster_refs (registry registered_hub) !! alpha_id = Some alpha_handle
  ∧ alpha_nodes !! h_dht_name alpha_handle = Some alpha
  ∧ skips at_once monitor alpha_id = false
  ∧ get_healthy_endpoint swept_hub.2.1 (health_cache swept_hub.1) alpha_id = Some ("alpha:50052", true).
Proof.
  assert (Hc : cluster_refs (registry registered_hub) !! alpha_id = Some alpha_handle) by (vm_compute; reflexivity).
  assert (Hn : alpha_nodes !! h_dht_name alpha_handle = Some alpha) by (vm_compute; reflexivity).
  assert (Hs : skips at_once monitor alpha_id = false) by (vm_compute; reflexivity).
  split; [exact Hc|]. split; [exact Hn|]. split; [exact Hs|].
  pose proof (swept_cluster_is_reachable 1%N at_once monitor (cluster_refs (registry registered_hub)) alpha_nodes
    alpha_id alpha_handle alpha "alpha:50052" Hc Hn eq_refl (λ H, ltac:(discriminate H)) Hs) as H.
  unfold swept_hub. change (net_world registered_hub) with alpha_nodes.
  unfold net_transport. destruct (check_all_clusters at_once monitor (cluster_refs (registry registered_hub), alpha_nodes))
    as [m' [refs' nodes']]. exact H.
Defined.

(** After the announcement of two resources, both are routed to the cluster;
    a broadcast leaves the node with the host's migration. *)
Definition resource (id : Uuid) : ResourceRef := ResourceRef_new 1%N id.
Definition announce (id : Uuid) (action : CatalogAction) : CatalogAnnouncement unit :=
  MkAnnouncement alpha_id (resource id) action ["t"] None.

Lemma two_node_flow :
  let h := fold_left (λ h msg, handle_announcement msg h)
    [announce 1 Added; announce 2 Added; announce 3 Added; announce 3 Removed]%N registered_hub in
  let '(results, h') := handle_sync_all h in
  resolve_locality (resource_index (registry h)) [resource 1; resource 2; resource 3]%N
  = MkDecision [resource 3%N] [MkGroup alpha_id [resource 1; resource 2]%N]
  ∧ results = [("alpha", true)]
  ∧ (λ n, (node_schema_version n, applied_ddl (node_world n))) <$> net_world h' !! "fabric-cluster:alpha"
    = Some (1%Z, ["CREATE TABLE resources (id UUID)"]).
Proof. vm_compute. split_and!; reflexivity. Qed.
