(* ===== verification/Provenance.v ===== *)
(** The provenance log: [queryfabric-provenance/src/] (entry.rs, store.rs).

    [ProvenanceStore] is the trait of the source; [LawfulStore] states what its
    documentation asks of every implementation, and is what clients are proved
    against; the in-memory store keeps it. *)
From S2P Require Import Prelude BTreeMap Contract.
From Stdlib Require Import Sorted.
Local Open Scope state_scope.

(** ** [entry.rs] *)

(** [Json] is the type of serialized payloads, which are never interpreted. *)
Inductive RecordedActivity (Json : Type) :=
| Core (activity : Activity)
| Domain (kind : string) (payload : Json).
Arguments Core {Json}. Arguments Domain {Json}.

(** [serde_json::to_value] may fail. *)
Definition from_domain {Json E} (activity_kind : string) (to_value : result Json E) : result (RecordedActivity Json) E :=
  rbind to_value (λ payload, Ok (Domain activity_kind payload)).

Definition recorded_tag {Json} (a : RecordedActivity Json) : string :=
  match a with Core activity => activity_tag activity | Domain kind _ => kind end.

Record ProvenanceEntry (Json : Type) := {
  pe_id : Uuid;
  pe_resource : ResourceRef;
  pe_actor : option Subject;
  pe_activity : RecordedActivity Json;
  pe_description : option string;
  occurred_at_unix_ms : Z
}.
Arguments pe_id {Json}. Arguments pe_resource {Json}. Arguments pe_actor {Json}.
Arguments pe_activity {Json}. Arguments pe_description {Json}. Arguments occurred_at_unix_ms {Json}.

Record ProvenanceHistory (Json : Type) := {
  ph_resource : ResourceRef;
  ph_entries : list (ProvenanceEntry Json)
}.
Arguments ph_resource {Json}. Arguments ph_entries {Json}.

(** ** [store.rs] *)

Inductive ProvenanceError :=
| PStorage (message : string)
| PSerialization (message : string).

Record HistoryFilter := {
  activity_tag_is : option string;
  actor_is : option Uuid;
  from_unix_ms : option Z;
  until_unix_ms : option Z
}.
Definition HistoryFilter_default : HistoryFilter :=
  {| activity_tag_is := None; actor_is := None; from_unix_ms := None; until_unix_ms := None |}.

(** [Option::is_none_or]. *)
Definition is_none_or {A} (o : option A) (f : A → bool) : bool :=
  match o with Some x => f x | None => true end.

Definition filter_matches {Json} (self : HistoryFilter) (entry : ProvenanceEntry Json) : bool :=
  let tag_ok := is_none_or (activity_tag_is self) (String.eqb (recorded_tag (pe_activity entry))) in
  let actor_ok := is_none_or (actor_is self) (λ actor, bool_decide (subject_id <$> pe_actor entry = Some actor)) in
  let from_ok := is_none_or (from_unix_ms self) (λ from, from <=? occurred_at_unix_ms entry)%Z in
  let until_ok := is_none_or (until_unix_ms self) (λ until, occurred_at_unix_ms entry <? until)%Z in
  tag_ok && actor_ok && from_ok && until_ok.

Class ProvenanceStore (Json World : Type) := {
  append : ProvenanceEntry Json → state World (result unit ProvenanceError);
  history : ResourceRef → HistoryFilter → state World (result (ProvenanceHistory Json) ProvenanceError)
}.

(** The in-memory store: a mutex, poisoned when a holder panicked, around the
    entries. *)
Record VecProvenanceStore (Json : Type) := { log_entries : list (ProvenanceEntry Json); poisoned : bool }.
Arguments log_entries {Json}. Arguments poisoned {Json}.

Section Vec.
Context {Json : Type}.
Implicit Types (s : VecProvenanceStore Json).

Definition VecProvenanceStore_new : VecProvenanceStore Json := {| log_entries := []; poisoned := false |}.

Definition vec_lock s : result (list (ProvenanceEntry Json)) ProvenanceError :=
  if poisoned s then Err (PStorage "provenance store mutex poisoned") else Ok (log_entries s).

Definition vec_append (entry : ProvenanceEntry Json) : state (VecProvenanceStore Json) (result unit ProvenanceError) :=
  λ s,
    match vec_lock s with
    | Err e => (Err e, s)
    | Ok entries => (Ok tt, {| log_entries := entries ++ [entry]; poisoned := poisoned s |})
    end.

Definition vec_history (resource : ResourceRef) (f : HistoryFilter)
    : state (VecProvenanceStore Json) (result (ProvenanceHistory Json) ProvenanceError) :=
  λ s,
    match vec_lock s with
    | Err e => (Err e, s)
    | Ok entries =>
        let matched :=
          List.filter (λ entry, bool_decide (pe_resource entry = resource) && filter_matches f entry) entries in
        (Ok {| ph_resource := resource; ph_entries := sort_by_key occurred_at_unix_ms matched |}, s)
    end.

#[export] Instance vec_store : ProvenanceStore Json (VecProvenanceStore Json) :=
  {| append := vec_append; history := vec_history |}.
End Vec.
Arguments VecProvenanceStore_new : clear implicits.

(** ** What the trait's documentation promises *)

(** An entry is in the history of a resource under a filter. *)
Definition selected {Json} (resource : ResourceRef) (f : HistoryFilter) (e : ProvenanceEntry Json) : Prop :=
  pe_resource e = resource ∧ filter_matches f e = true.
#[export] Instance selected_dec {Json} resource f (e : ProvenanceEntry Json) : Decision (selected resource f e).
Proof. unfold selected. apply _. Defined.

(** A history: the selected entries of a log, ordered by their time, those of one
    time in the order in which they were appended. *)
Definition is_history {Json} (log : list (ProvenanceEntry Json)) (resource : ResourceRef) (f : HistoryFilter)
    (h : ProvenanceHistory Json) : Prop :=
  ph_resource h = resource
  ∧ StronglySorted (key_le occurred_at_unix_ms) (ph_entries h)
  ∧ ∀ t, at_key occurred_at_unix_ms t (ph_entries h) = at_key occurred_at_unix_ms t (filter (selected resource f) log).

(** Appending adds the entry or nothing; reading changes nothing. *)
Class LawfulStore (Json World : Type) `{!ProvenanceStore Json World} := {
  store_log : World → list (ProvenanceEntry Json);
  append_log : ∀ e w, match append e w with
    | (Ok _, w') => store_log w' = store_log w ++ [e]
    | (Err _, w') => store_log w' = store_log w
    end;
  history_log : ∀ resource f w, match history resource f w with
    | (Ok h, w') => store_log w' = store_log w ∧ is_history (store_log w) resource f h
    | (Err _, w') => store_log w' = store_log w
    end
}.

Section Facts.
Context {Json : Type}.
Implicit Types (log : list (ProvenanceEntry Json)) (h : ProvenanceHistory Json).

Lemma is_history_unique log resource f h1 h2 :
  is_history log resource f h1 → is_history log resource f h2 → h1 = h2.
Proof.
  destruct h1 as [r1 es1], h2 as [r2 es2]. intros (<- & Hs1 & Hk1) (Hr & Hs2 & Hk2). simpl in *. subst r2.
  f_equal. apply (sorted_at_key_unique occurred_at_unix_ms); [done..|]. intros k. by rewrite Hk1, Hk2.
Qed.

Lemma is_history_elem log resource f h e :
  is_history log resource f h → e ∈ ph_entries h ↔ e ∈ log ∧ selected resource f e.
Proof.
  intros (_ & _ & Hk). specialize (Hk (occurred_at_unix_ms e)). unfold at_key in Hk.
  transitivity (e ∈ filter (λ x, occurred_at_unix_ms x = occurred_at_unix_ms e) (ph_entries h)).
  { rewrite list_elem_of_filter. tauto. }
  rewrite Hk, !list_elem_of_filter. tauto.
Qed.

Lemma filter_bool {A} (P : A → Prop) `{∀ x, Decision (P x)} (f : A → bool) (l : list A) :
  (∀ x, f x = true ↔ P x) → List.filter f l = filter P l.
Proof.
  intros Hf. induction l as [|x l IH]; [done|]. simpl. rewrite filter_cons, IH.
  specialize (Hf x). destruct (f x), (decide (P x)); naive_solver.
Qed.

Lemma sorted_selection_is_history log resource f :
  is_history log resource f
    {| ph_resource := resource; ph_entries := sort_by_key occurred_at_unix_ms
         (List.filter (λ entry, bool_decide (pe_resource entry = resource) && filter_matches f entry) log) |}.
Proof.
  split_and!; simpl; [done|apply sort_by_key_sorted|]. intros t. rewrite sort_by_key_at.
  f_equal. apply filter_bool. intros e. unfold selected. by rewrite andb_true_iff, bool_decide_eq_true.
Qed.

#[export] Program Instance vec_lawful : LawfulStore Json (VecProvenanceStore Json) := {| store_log := log_entries |}.
Next Obligation. intros e s. simpl. unfold vec_append, vec_lock. by destruct (poisoned s). Qed.
Next Obligation.
  intros resource f s. simpl. unfold vec_history, vec_lock. destruct (poisoned s); [done|].
  split; [done|]. apply sorted_selection_is_history.
Qed.

(** A history that the in-memory store returns is the one list of the
    selected entries in the order of their times, with insertion order for equal
    times; reading changes nothing, and fails exactly when the mutex is poisoned. *)
Theorem vec_history_is_the_history (s : VecProvenanceStore Json) (resource : ResourceRef) (f : HistoryFilter) h s' :
  history resource f s = (Ok h, s') ↔
  poisoned s = false ∧ s' = s ∧ is_history (log_entries s) resource f h.
Proof.
  simpl. unfold vec_history, vec_lock. destruct (poisoned s); [naive_solver|].
  pose proof (sorted_selection_is_history (log_entries s) resource f) as Hh. split.
  - by intros [= <- <-].
  - intros (_ & -> & Hh'). by rewrite (is_history_unique _ _ _ _ _ Hh' Hh).
Qed.
End Facts.
