(* ===== verification/Access.v ===== *)
(** Access decisions and data rights: [queryfabric-access/src/] (decision.rs,
    policy.rs, license.rs, rights.rs). *)
From S2P Require Import Prelude BTreeMap Contract Provenance.
From Stdlib Require Import Sorted.
Local Open Scope state_scope.

(** ** [license.rs] *)

Inductive DataLicense := Cc0 | CcBy | CcBySa | CcByNc | CcByNcSa | Pddl | OdcBy | OdcOdbl.

Record LicenseMeta := { spdx : string; uri : string; license_name : string }.

Definition license_meta (l : DataLicense) : LicenseMeta :=
  match l with
  | Cc0 => {| spdx := "CC0-1.0"; uri := "https://creativecommons.org/publicdomain/zero/1.0/";
              license_name := "Creative Commons Zero v1.0 Universal" |}
  | CcBy => {| spdx := "CC-BY-4.0"; uri := "https://creativecommons.org/licenses/by/4.0/";
               license_name := "Creative Commons Attribution 4.0 International" |}
  | CcBySa => {| spdx := "CC-BY-SA-4.0"; uri := "https://creativecommons.org/licenses/by-sa/4.0/";
                 license_name := "Creative Commons Attribution-ShareAlike 4.0 International" |}
  | CcByNc => {| spdx := "CC-BY-NC-4.0"; uri := "https://creativecommons.org/licenses/by-nc/4.0/";
                 license_name := "Creative Commons Attribution-NonCommercial 4.0 International" |}
  | CcByNcSa => {| spdx := "CC-BY-NC-SA-4.0"; uri := "https://creativecommons.org/licenses/by-nc-sa/4.0/";
                   license_name := "Creative Commons Attribution-NonCommercial-ShareAlike 4.0 International" |}
  | Pddl => {| spdx := "PDDL-1.0"; uri := "https://opendatacommons.org/licenses/pddl/1-0/";
               license_name := "Open Data Commons Public Domain Dedication and License v1.0" |}
  | OdcBy => {| spdx := "ODC-By-1.0"; uri := "https://opendatacommons.org/licenses/by/1-0/";
                license_name := "Open Data Commons Attribution License v1.0" |}
  | OdcOdbl => {| spdx := "ODbL-1.0"; uri := "https://opendatacommons.org/licenses/odbl/1-0/";
                  license_name := "Open Data Commons Open Database License v1.0" |}
  end.

Definition spdx_id (l : DataLicense) : string := spdx (license_meta l).
Definition rights_uri (l : DataLicense) : string := uri (license_meta l).
Definition license_display_name (l : DataLicense) : string := license_name (license_meta l).

(** ** [policy.rs] *)

Record DataUseRestriction := {
  restriction_kind : string;
  restriction_summary : option string;
  restriction_source_url : option string
}.

Record ResourcePolicy := {
  rp_policy : AccessPolicy;
  rp_license : option DataLicense;
  rp_restriction : option DataUseRestriction
}.

Definition ResourcePolicy_open : ResourcePolicy :=
  {| rp_policy := Open_; rp_license := None; rp_restriction := None |}.

(** ** [decision.rs] *)

(** A newtype over [Uuid]. *)
Record GroupId := { group_uuid : Uuid }.
#[export] Instance GroupId_eq_dec : EqDecision GroupId.
Proof. solve_decision. Defined.
#[export] Program Instance GroupId_countable : Countable GroupId :=
  inj_countable' group_uuid (λ u, {| group_uuid := u |}) _.
Next Obligation. by intros []. Qed.

(** The lookups of the host, one at a time. *)
Class OwnershipSource (World : Type) := {
  owner : ResourceRef → state World (option Subject);
  groups_for : Subject → state World (list GroupId);
  resource_groups : ResourceRef → state World (list GroupId);
  has_accepted_agreement : Subject → ResourceRef → state World bool
}.

(** The default method of the trait. *)
Definition member_of {World} `{!OwnershipSource World} (subject : Subject) (group : GroupId) : state World bool :=
  let! groups := groups_for subject in
  sret (bool_decide (group ∈ groups)).

Record OwnershipSnapshot := {
  is_owner : bool;
  in_authorized_group : bool;
  accepted_agreement : bool
}.

Definition OwnershipSnapshot_none : OwnershipSnapshot :=
  {| is_owner := false; in_authorized_group := false; accepted_agreement := false |}.

Definition evaluate_with_snapshot (subject : Subject) (policy : AccessPolicy) (ownership : OwnershipSnapshot)
    : AccessOutcome :=
  match policy with
  | Open_ => Allow
  | Registered =>
      if registered subject then Allow else Deny "resource requires a registered account"
  | Restricted _ =>
      if is_owner ownership || in_authorized_group ownership || accepted_agreement ownership then Allow
      else Deny "restricted resource: no ownership, group membership, or accepted agreement"
  end.

Section Decision.
Context {World : Type} `{!OwnershipSource World}.

Definition snapshot_for (subject : Subject) (resource : ResourceRef) : state World OwnershipSnapshot :=
  let! o := owner resource in
  if match o with Some o => bool_decide (subject_id o = subject_id subject) | None => false end then
    sret {| is_owner := true; in_authorized_group := false; accepted_agreement := false |}
  else
    let! subject_groups := groups_for subject in
    let! in_group :=
      if is_empty subject_groups then sret false
      else
        let! authorized := resource_groups resource in
        sret (existsb (λ group, bool_decide (group ∈ subject_groups)) authorized) in
    if in_group then
      sret {| is_owner := false; in_authorized_group := true; accepted_agreement := false |}
    else
      let! agreement := has_accepted_agreement subject resource in
      sret {| is_owner := false; in_authorized_group := false; accepted_agreement := agreement |}.

Definition evaluate_access (subject : Subject) (resource : ResourceRef) (policy : AccessPolicy)
    : state World AccessOutcome :=
  let! snapshot :=
    match policy with
    | Restricted _ => snapshot_for subject resource
    | _ => sret OwnershipSnapshot_none
    end in
  sret (evaluate_with_snapshot subject policy snapshot).
End Decision.

(** ** [rights.rs] *)

Record AccessExportRecord (Json : Type) := {
  export_resource : ResourceRef;
  export_subject_id : Uuid;
  export_policy : ResourcePolicy;
  export_history : ProvenanceHistory Json;
  exported_at_unix_ms : Z
}.
Arguments export_resource {Json}. Arguments export_subject_id {Json}. Arguments export_policy {Json}.
Arguments export_history {Json}. Arguments exported_at_unix_ms {Json}.

Record RectifyReceipt := {
  rectified_resource : ResourceRef;
  rectified_field : string;
  rectified_at_unix_ms : Z
}.

Record SoftDeletion := {
  deleted_resource : ResourceRef;
  deletion_reason : string;
  deleted_at_unix_ms : Z
}.

Section DataRights.
Context {Json World : Type} `{!ProvenanceStore Json World}.
(** [Uuid::now_v7()], read for every record. *)
Variable now_v7 : Uuid.

Local Abbreviation M A := (state World (result A ProvenanceError)).

(** [?] *)
Definition try {A B} (m : M A) (k : A → M B) : M B :=
  let! r := m in
  match r with Ok a => k a | Err e => sret (Err e) end.

Definition activity_entry (resource : ResourceRef) (actor : option Subject) (activity : Activity)
    (now_unix_ms : Z) : ProvenanceEntry Json :=
  {| pe_id := now_v7; pe_resource := resource; pe_actor := actor; pe_activity := Core activity;
     pe_description := None; occurred_at_unix_ms := now_unix_ms |}.

Definition record (resource : ResourceRef) (actor : option Subject) (activity : Activity) (now_unix_ms : Z) : M unit :=
  append (activity_entry resource actor activity now_unix_ms).

Definition access_export (resource : ResourceRef) (subject : Subject) (policy : ResourcePolicy) (now_unix_ms : Z)
    : M (AccessExportRecord Json) :=
  try (history resource HistoryFilter_default) (λ h,
  try (record resource (Some subject) (AAccessed (vec_len (ph_entries h))) now_unix_ms) (λ _,
  sret (Ok {| export_resource := resource; export_subject_id := subject_id subject; export_policy := policy;
              export_history := h; exported_at_unix_ms := now_unix_ms |}))).

Definition rectify (resource : ResourceRef) (actor : option Subject) (field : string) (now_unix_ms : Z)
    : M RectifyReceipt :=
  try (record resource actor (AModified field) now_unix_ms) (λ _,
  sret (Ok {| rectified_resource := resource; rectified_field := field; rectified_at_unix_ms := now_unix_ms |})).

Definition soft_delete (resource : ResourceRef) (actor : option Subject) (reason : string) (now_unix_ms : Z)
    : M SoftDeletion :=
  try (record resource actor (ADeleted reason) now_unix_ms) (λ _,
  sret (Ok {| deleted_resource := resource; deletion_reason := reason; deleted_at_unix_ms := now_unix_ms |})).

Definition restore (resource : ResourceRef) (actor : option Subject) (now_unix_ms : Z) : M unit :=
  record resource actor ARestored now_unix_ms.
End DataRights.

(** Who is let in, and what the data-rights operations leave in the log: both
    against the interfaces, for every lawful source of ownership and store of
    provenance. *)

(** ** Decisions *)

(** A source whose lookups read the state of a world and leave it alone. *)
Class LawfulOwnership (World : Type) `{!OwnershipSource World} := {
  the_owner : World → ResourceRef → option Subject;
  the_groups : World → Subject → list GroupId;
  the_resource_groups : World → ResourceRef → list GroupId;
  the_agreement : World → Subject → ResourceRef → bool;
  owner_reads : ∀ r w, owner r w = (the_owner w r, w);
  groups_reads : ∀ s w, groups_for s w = (the_groups w s, w);
  resource_groups_reads : ∀ r w, resource_groups r w = (the_resource_groups w r, w);
  agreement_reads : ∀ s r w, has_accepted_agreement s r w = (the_agreement w s r, w)
}.

Section Decisions.
Context {World : Type} `{LawfulOwnership World}.

(** The grounds on which a restricted resource is open to a subject. *)
Definition owns (w : World) (subject : Subject) (resource : ResourceRef) : Prop :=
  ∃ o, the_owner w resource = Some o ∧ subject_id o = subject_id subject.
Definition shares_group (w : World) (subject : Subject) (resource : ResourceRef) : Prop :=
  ∃ g, g ∈ the_groups w subject ∧ g ∈ the_resource_groups w resource.

Lemma snapshot_grounds subject resource w :
  let '(snapshot, w') := snapshot_for subject resource w in
  w' = w
  ∧ (is_owner snapshot || in_authorized_group snapshot || accepted_agreement snapshot = true
     ↔ owns w subject resource ∨ shares_group w subject resource ∨ the_agreement w subject resource = true).
Proof.
  unfold snapshot_for, sbind, sret. rewrite owner_reads.
  assert (Howner : (match the_owner w resource with Some o => bool_decide (subject_id o = subject_id subject)
    | None => false end) = true ↔ owns w subject resource).
  { unfold owns. destruct (the_owner w resource) as [o|]; [|naive_solver].
    rewrite bool_decide_eq_true. naive_solver. }
  destruct (match the_owner w resource with Some _ => _ | None => _ end) eqn:Eowner; [naive_solver|].
  rewrite groups_reads.
  assert (Hgroup : existsb (λ g, bool_decide (g ∈ the_groups w subject)) (the_resource_groups w resource) = true
    ↔ shares_group w subject resource).
  { rewrite existsb_exists. unfold shares_group. setoid_rewrite <- list_elem_of_In.
    setoid_rewrite bool_decide_eq_true. naive_solver. }
  destruct (is_empty (the_groups w subject)) eqn:Eempty.
  - assert (¬ shares_group w subject resource).
    { intros (g & Hg & _). destruct (the_groups w subject); [by apply not_elem_of_nil in Hg|done]. }
    rewrite agreement_reads. simpl. naive_solver.
  - rewrite resource_groups_reads. destruct (existsb _ _); [naive_solver|].
    rewrite agreement_reads. simpl. naive_solver.
Qed.

(** Deny by default.  An open resource is open to everyone, a registered
    one to registered subjects, and a restricted one exactly to its owner, to
    the members of a group that is authorized for it, and to who accepted its
    agreement; the decision changes nothing. *)
Theorem access_allowed_iff (subject : Subject) (resource : ResourceRef) (policy : AccessPolicy) (w : World) :
  let '(outcome, w') := evaluate_access subject resource policy w in
  w' = w
  ∧ (is_allowed outcome = true ↔
     match policy with
     | Open_ => True
     | Registered => registered subject = true
     | Restricted _ =>
         owns w subject resource ∨ shares_group w subject resource ∨ the_agreement w subject resource = true
     end).
Proof.
  unfold evaluate_access, sbind, sret. destruct policy as [| |codes]; simpl.
  - done.
  - by destruct (registered subject).
  - pose proof (snapshot_grounds subject resource w) as Hs.
    destruct (snapshot_for subject resource w) as [snapshot w']. destruct Hs as [-> <-].
    by destruct (is_owner snapshot || in_authorized_group snapshot || accepted_agreement snapshot).
Qed.
End Decisions.

(** ** Data rights *)

Inductive RightsCall :=
| CExport (subject : Subject) (policy : ResourcePolicy)
| CRectify (actor : option Subject) (field : string)
| CSoftDelete (actor : option Subject) (reason : string)
| CRestore (actor : option Subject).

(** A call on a resource at a time; the id is the one the clock gives. *)
Record Request := { req_resource : ResourceRef; req_now : Z; req_id : Uuid; req_call : RightsCall }.

Section Rights.
Context {Json World : Type} `{LawfulStore Json World}.
Implicit Types (w : World) (q : Request).

(** Whether a call succeeds. *)
Definition request q : state World bool :=
  match req_call q with
  | CExport subject policy =>
      let! r := access_export (req_id q) (req_resource q) subject policy (req_now q) in sret (is_ok r)
  | CRectify actor field =>
      let! r := rectify (req_id q) (req_resource q) actor field (req_now q) in sret (is_ok r)
  | CSoftDelete actor reason =>
      let! r := soft_delete (req_id q) (req_resource q) actor reason (req_now q) in sret (is_ok r)
  | CRestore actor =>
      let! r := restore (req_id q) (req_resource q) actor (req_now q) in sret (is_ok r)
  end.

(** The entry that a call leaves, on a log. *)
Definition request_entry (log : list (ProvenanceEntry Json)) q : ProvenanceEntry Json :=
  match req_call q with
  | CExport subject _ =>
      let rows := length (filter (selected (req_resource q) HistoryFilter_default) log) in
      activity_entry (req_id q) (req_resource q) (Some subject) (AAccessed (N.of_nat rows)) (req_now q)
  | CRectify actor field => activity_entry (req_id q) (req_resource q) actor (AModified field) (req_now q)
  | CSoftDelete actor reason => activity_entry (req_id q) (req_resource q) actor (ADeleted reason) (req_now q)
  | CRestore actor => activity_entry (req_id q) (req_resource q) actor ARestored (req_now q)
  end.

Lemma is_history_length (log : list (ProvenanceEntry Json)) resource f h :
  is_history log resource f h → length (ph_entries h) = length (filter (selected resource f) log).
Proof.
  intros (_ & Hs & Hk). rewrite (proj2 (sort_by_key_spec occurred_at_unix_ms _ _) (conj Hs Hk)).
  apply Permutation_length, sort_by_key_perm.
Qed.

Lemma record_log id resource actor activity now w :
  let '(r, w') := record (Json:=Json) id resource actor activity now w in
  store_log w' = if is_ok r then store_log w ++ [activity_entry id resource actor activity now] else store_log w.
Proof.
  unfold record. pose proof (append_log (activity_entry id resource actor activity now) w) as Ha.
  by destruct (append _ w) as [[u|e] w'].
Qed.

Lemma request_log q w :
  let '(ok, w') := request q w in
  store_log w' = if ok then store_log w ++ [request_entry (store_log w) q] else store_log w.
Proof.
  destruct q as [resource now id []]; unfold request, request_entry; simpl;
    unfold access_export, rectify, soft_delete, restore, try, sbind, sret.
  - pose proof (history_log resource HistoryFilter_default w) as Hh.
    destruct (history resource HistoryFilter_default w) as [[h|e] w1]; [|done]. destruct Hh as [Hlog Hh].
    pose proof (record_log id resource (Some subject) (AAccessed (vec_len (ph_entries h))) now w1) as Hr.
    destruct (record _ _ _ _ _ w1) as [[u|e] w2]; simpl in *; rewrite Hr, Hlog; [|done].
    unfold vec_len. by rewrite (is_history_length _ _ _ _ Hh).
  - pose proof (record_log id resource actor (AModified field) now w) as Hr. by destruct (record _ _ _ _ _ w) as [[u|e] w'].
  - pose proof (record_log id resource actor (ADeleted reason) now w) as Hr. by destruct (record _ _ _ _ _ w) as [[u|e] w'].
  - pose proof (record_log id resource actor ARestored now w) as Hr. by destruct (record _ _ _ _ _ w) as [[u|e] w'].
Qed.

(** The log after requests with these outcomes. *)
Fixpoint log_after (log : list (ProvenanceEntry Json)) (qs : list Request) (oks : list bool)
    : list (ProvenanceEntry Json) :=
  match qs, oks with
  | q :: qs, ok :: oks => log_after (if ok then log ++ [request_entry log q] else log) qs oks
  | _, _ => log
  end.

Lemma requests_log qs w :
  let '(oks, w') := straverse request qs w in
  store_log w' = log_after (store_log w) qs oks ∧ length oks = length qs.
Proof.
  revert w. induction qs as [|q qs IH]; intros w; [done|]. simpl. unfold sbind at 1.
  pose proof (request_log q w) as Hq. destruct (request q w) as [ok w1]. unfold sbind, sret.
  specialize (IH w1). destruct (straverse request qs w1) as [oks w2]. simpl. rewrite <- Hq. by destruct IH as [-> ->].
Qed.

(** The log is exactly the audit of what succeeded: every request that
    reports success has appended its one entry, in the order of the requests, and
    one that reports an error has left nothing. *)
Theorem every_success_is_recorded qs w :
  let '(oks, w') := straverse request qs w in
  store_log w' = log_after (store_log w) qs oks.
Proof.
  pose proof (requests_log qs w) as H'. destruct (straverse request qs w) as [oks w']. by destruct H'.
Qed.

Lemma log_after_prefix log qs oks : log `prefix_of` log_after log qs oks.
Proof.
  revert log oks. induction qs as [|q qs IH]; intros log [|ok oks]; simpl; try done.
  destruct ok; [|apply IH]. etransitivity; [|apply IH]. by apply prefix_app_r.
Qed.

(** An erasure stays auditable: whatever requests follow a soft deletion
    that reported success, a later access export of the resource shows the
    deletion with its reason, actor and time. *)
Theorem erasure_stays_auditable (resource : ResourceRef) (actor : option Subject) (reason : string) (now : Z)
    (id id' : Uuid) qs (subject : Subject) (policy : ResourcePolicy) (later : Z) w w1 receipt oks w2 exported w3 :
  soft_delete id resource actor reason now w = (Ok receipt, w1) →
  straverse request qs w1 = (oks, w2) →
  access_export id' resource subject policy later w2 = (Ok exported, w3) →
  ∃ e : ProvenanceEntry Json, e ∈ ph_entries (export_history exported)
  ∧ pe_activity e = Core (ADeleted reason) ∧ pe_actor e = actor ∧ occurred_at_unix_ms e = now.
Proof.
  intros Hdel Hqs Hexp. exists (activity_entry id resource actor (ADeleted reason) now). split; [|done].
  pose proof (request_log {| req_resource := resource; req_now := now; req_id := id; req_call := CSoftDelete actor reason |} w)
    as Hlog1. unfold request, sbind, sret in Hlog1. simpl in Hlog1. rewrite Hdel in Hlog1. simpl in Hlog1.
  pose proof (requests_log qs w1) as Hlog2. rewrite Hqs in Hlog2. destruct Hlog2 as [Hlog2 _].
  unfold access_export, try, sbind, sret in Hexp.
  pose proof (history_log resource HistoryFilter_default w2) as Hh.
  destruct (history resource HistoryFilter_default w2) as [[h|e] w2']; [|done]. destruct Hh as [_ Hh].
  destruct (record _ _ _ _ _ w2') as [[u|e] w3']; [|done]. injection Hexp as <- _. simpl.
  apply (is_history_elem _ _ _ _ _ Hh). split; [|done]. rewrite Hlog2, Hlog1.
  destruct (log_after_prefix (store_log w ++ [activity_entry id resource actor (ADeleted reason) now]) qs oks) as [rest Hrest].
  unfold request_entry. simpl. rewrite Hrest. set_solver.
Qed.
End Rights.

(** ** A resource deleted, read, restored and exported *)

Definition a_resource : ResourceRef := ResourceRef_new 1%N 2%N.
Definition a_subject : Subject := {| subject_id := 9%N; registered := true; attributes := [] |}.
Definition some_requests : list Request :=
  [{| req_resource := a_resource; req_now := 20; req_id := 2%N; req_call := CExport a_subject ResourcePolicy_open |};
   {| req_resource := a_resource; req_now := 30; req_id := 3%N; req_call := CRestore None |}]%Z.

Definition empty_store : VecProvenanceStore unit := VecProvenanceStore_new unit.
Definition deleted : result SoftDeletion ProvenanceError * VecProvenanceStore unit :=
  soft_delete 1%N a_resource (Some a_subject) "consent withdrawn" 10%Z empty_store.
Definition later : list bool * VecProvenanceStore unit := straverse request some_requests deleted.2.
Definition export_later : result (AccessExportRecord unit) ProvenanceError * VecProvenanceStore unit :=
  access_export 4%N a_resource a_subject ResourcePolicy_open 40%Z later.2.

Lemma erasure_stays_auditable_witness :
  later.1 = [true; true] ∧
  match export_later with
  | (Ok exported, _) => length (ph_entries (export_history exported)) = 3
      ∧ ∃ e : ProvenanceEntry unit, e ∈ ph_entries (export_history exported)
        ∧ pe_activity e = Core (ADeleted "consent withdrawn") ∧ pe_actor e = Some a_subject ∧ occurred_at_unix_ms e = 10%Z
  | _ => False
  end.
Proof.
  split; [reflexivity|].
  destruct export_later as [[exported|e] w3] eqn:E; [|discriminate E].
  split; [injection E as <- _; reflexivity|].
  apply (erasure_stays_auditable a_resource (Some a_subject) "consent withdrawn" 10%Z 1%N 4%N some_requests
    a_subject ResourcePolicy_open 40%Z empty_store deleted.2
    {| deleted_resource := a_resource; deletion_reason := "consent withdrawn"; deleted_at_unix_ms := 10%Z |}
    later.1 later.2 exported w3).
  - reflexivity.
  - reflexivity.
  - exact E.
Defined.
