(* ===== verification/Tenancy.v ===== *)
(** Accounts, groups and ownership in memory: [queryfabric-tenancy/src/]
    (model.rs, ownership.rs), and the access decision over them. *)
From S2P Require Import Prelude BTreeMap Contract Provenance Access.
Local Open Scope state_scope.

(** ** [model.rs] *)

Inductive AccountKind := Human | Service.

Record Account := {
  account_id : Uuid;
  email : string;
  active : bool;
  verified : bool;
  account_kind : AccountKind
}.

Definition account_subject (a : Account) : Subject :=
  {| subject_id := account_id a; registered := verified a; attributes := [] |}.

Record Collection := {
  collection_id : Uuid;
  collection_name : string;
  collection_owner : Uuid;
  collection_notes : option string
}.

Record Group := {
  group_id : GroupId;
  group_name : string;
  group_admin : Uuid;
  group_institution : option string;
  group_members : list Uuid
}.

(** ** [ownership.rs]

    The state behind the lock; a poisoned lock is entered all the same. *)
Record Ownership := {
  accounts : gmap Uuid Account;
  groups : gmap GroupId Group;
  resource_owner : gmap ResourceRef Uuid;
  authorized : gmap ResourceRef (list GroupId);
  agreements : gset (Uuid * ResourceRef)
}.

Definition InMemoryOwnership_new : Ownership :=
  {| accounts := ∅; groups := ∅; resource_owner := ∅; authorized := ∅; agreements := ∅ |}.

Definition add_account (a : Account) (s : Ownership) : Ownership :=
  {| accounts := <[account_id a := a]> (accounts s); groups := groups s; resource_owner := resource_owner s;
     authorized := authorized s; agreements := agreements s |}.

Definition add_group (g : Group) (s : Ownership) : Ownership :=
  {| accounts := accounts s; groups := <[group_id g := g]> (groups s); resource_owner := resource_owner s;
     authorized := authorized s; agreements := agreements s |}.

Definition set_owner (resource : ResourceRef) (o : Uuid) (s : Ownership) : Ownership :=
  {| accounts := accounts s; groups := groups s; resource_owner := <[resource := o]> (resource_owner s);
     authorized := authorized s; agreements := agreements s |}.

Definition authorize_group (resource : ResourceRef) (g : GroupId) (s : Ownership) : Ownership :=
  {| accounts := accounts s; groups := groups s; resource_owner := resource_owner s;
     authorized := <[resource := default [] (authorized s !! resource) ++ [g]]> (authorized s);
     agreements := agreements s |}.

Definition accept_agreement (account : Uuid) (resource : ResourceRef) (s : Ownership) : Ownership :=
  {| accounts := accounts s; groups := groups s; resource_owner := resource_owner s;
     authorized := authorized s; agreements := {[(account, resource)]} ∪ agreements s |}.

(** [OwnershipSource for InMemoryOwnership]. *)
Definition tenancy_owner (resource : ResourceRef) (s : Ownership) : option Subject :=
  o ← resource_owner s !! resource;
  account_subject <$> accounts s !! o.

Definition tenancy_groups_for (subject : Subject) (s : Ownership) : list GroupId :=
  map group_id (List.filter (λ g, bool_decide (subject_id subject ∈ group_members g)) (map snd (map_to_list (groups s)))).

Definition tenancy_resource_groups (resource : ResourceRef) (s : Ownership) : list GroupId :=
  default [] (authorized s !! resource).

Definition tenancy_has_agreement (subject : Subject) (resource : ResourceRef) (s : Ownership) : bool :=
  bool_decide ((subject_id subject, resource) ∈ agreements s).

#[export] Instance in_memory_ownership : OwnershipSource Ownership :=
  {| owner resource s := (tenancy_owner resource s, s);
     groups_for subject s := (tenancy_groups_for subject s, s);
     resource_groups resource s := (tenancy_resource_groups resource s, s);
     has_accepted_agreement subject resource s := (tenancy_has_agreement subject resource s, s) |}.

#[export] Program Instance in_memory_lawful : LawfulOwnership Ownership :=
  {| the_owner s r := tenancy_owner r s; the_groups s u := tenancy_groups_for u s;
     the_resource_groups s r := tenancy_resource_groups r s; the_agreement s u r := tenancy_has_agreement u r s |}.
Next Obligation. done. Qed.
Next Obligation. done. Qed.
Next Obligation. done. Qed.
Next Obligation. done. Qed.

(** ** Who gets in *)

(** The registry keeps every account and group under its own id. *)
Definition ownership_wf (s : Ownership) : Prop :=
  map_Forall (λ id a, account_id a = id) (accounts s) ∧ map_Forall (λ id g, group_id g = id) (groups s).

Inductive TenancyCall :=
| TAddAccount (a : Account)
| TAddGroup (g : Group)
| TSetOwner (resource : ResourceRef) (o : Uuid)
| TAuthorizeGroup (resource : ResourceRef) (g : GroupId)
| TAcceptAgreement (account : Uuid) (resource : ResourceRef).

Definition tenancy_call (c : TenancyCall) : Ownership → Ownership :=
  match c with
  | TAddAccount a => add_account a
  | TAddGroup g => add_group g
  | TSetOwner r o => set_owner r o
  | TAuthorizeGroup r g => authorize_group r g
  | TAcceptAgreement a r => accept_agreement a r
  end.

Definition built (cs : list TenancyCall) : Ownership :=
  fold_left (λ s c, tenancy_call c s) cs InMemoryOwnership_new.

Lemma tenancy_call_wf c s : ownership_wf s → ownership_wf (tenancy_call c s).
Proof.
  intros [Ha Hg]. destruct c; split; simpl; try done; apply map_Forall_insert_2; done.
Qed.

Lemma built_wf cs : ownership_wf (built cs).
Proof.
  unfold built. assert (ownership_wf InMemoryOwnership_new) as H by (split; apply map_Forall_empty).
  revert H. generalize InMemoryOwnership_new. induction cs as [|c cs IH]; intros s Hs; simpl; [done|].
  by apply IH, tenancy_call_wf.
Qed.

Lemma groups_for_member s subject g :
  ownership_wf s → g ∈ tenancy_groups_for subject s ↔ ∃ group, groups s !! g = Some group ∧ subject_id subject ∈ group_members group.
Proof.
  intros [_ Hg]. unfold tenancy_groups_for. rewrite list_elem_of_In, in_map_iff.
  setoid_rewrite filter_In. setoid_rewrite in_map_iff. setoid_rewrite bool_decide_eq_true. split.
  - intros (group & <- & ([id group'] & Heq & Hin) & Hm). simpl in Heq. subst group'.
    apply list_elem_of_In, elem_of_map_to_list in Hin. exists group. split; [|done].
    by rewrite (Hg id group Hin).
  - intros (group & Hgroup & Hm). exists group. split; [by apply (Hg g group)|]. split; [|done].
    exists (g, group). split; [done|]. by apply list_elem_of_In, elem_of_map_to_list.
Qed.

(** Over the in-memory registry, whatever calls built it, a restricted
    resource is open exactly to: the registered account that was last set as its
    owner; the members, as last listed, of a group that was authorized for it;
    and the accounts that accepted its agreement. *)
Theorem tenancy_access_iff (cs : list TenancyCall) (subject : Subject) (resource : ResourceRef) (codes : list string) :
  let s := built cs in
  is_allowed (evaluate_access subject resource (Restricted codes) s).1 = true ↔
  (resource_owner s !! resource = Some (subject_id subject) ∧ is_Some (accounts s !! subject_id subject))
  ∨ (∃ g group, g ∈ default [] (authorized s !! resource) ∧ groups s !! g = Some group
       ∧ subject_id subject ∈ group_members group)
  ∨ (subject_id subject, resource) ∈ agreements s.
Proof.
  intros s. pose proof (built_wf cs) as Hwf. fold s in Hwf. unfold evaluate_access, sbind, sret.
  pose proof (snapshot_grounds subject resource s) as Hs.
  destruct (snapshot_for subject resource s) as [snapshot s']. destruct Hs as [-> Hs]. simpl.
  transitivity (is_owner snapshot || in_authorized_group snapshot || accepted_agreement snapshot = true).
  { by destruct (is_owner snapshot || in_authorized_group snapshot || accepted_agreement snapshot). }
  rewrite Hs. unfold owns, shares_group. simpl. unfold tenancy_owner, tenancy_has_agreement.
  rewrite bool_decide_eq_true. setoid_rewrite groups_for_member; [|done].
  assert (∀ A A' B B' : Prop, (A ↔ A') → (B ↔ B') → (A ∨ B ↔ A' ∨ B')) as Hor by tauto. apply Hor; [|naive_solver].
  destruct (resource_owner s !! resource) as [o|]; simpl; [|naive_solver].
  destruct Hwf as [Ha _]. split.
  - intros (u & Hu & Heq). destruct (accounts s !! o) as [a|] eqn:Eo; [|done]. injection Hu as <-.
    simpl in Heq. rewrite (Ha o a Eo) in Heq. subst o. rewrite Eo. eauto.
  - intros [[= ->] [a Eo]]. rewrite Eo. exists (account_subject a). split; [done|]. simpl. by apply (Ha _ a).
Qed.
