(* ===== verification/ClickHouseScope.v ===== *)
(** Materialized views of ClickHouse: the scope of a select, the functions that
    merge aggregate states, and what the rewriting records
    ([queryfabric-adapter-clickhouse/src/rewrite/scope.rs]). *)
From S2P Require Import Prelude BTreeMap Types Diagnostics Syntax Bound Catalog.

Record ScopeBinding := {
  sb_binding_name : string;
  sb_relation_display : string;
  sb_relation : RelationSchema
}.

Record SelectScope := { scope_bindings : list ScopeBinding }.
Definition SelectScope_default : SelectScope := {| scope_bindings := [] |}.

Definition scope_push (binding_name relation_display : string) (relation : RelationSchema) (s : SelectScope)
    : SelectScope :=
  {| scope_bindings := scope_bindings s ++
       [{| sb_binding_name := binding_name; sb_relation_display := relation_display; sb_relation := relation |}] |}.

Definition target_binding_name (s : SelectScope) (qualifier : option string) : option string :=
  match qualifier with
  | Some qualifier =>
      sb_binding_name <$> List.find (λ b, eq_ignore_ascii_case (sb_binding_name b) qualifier) (scope_bindings s)
  | None =>
      match scope_bindings s with
      | [b] => Some (sb_binding_name b)
      | _ => None
      end
  end.

(** ** Merge functions *)

Record WrapperSpec := { ws_namespace : option string; ws_name : string }.

#[export] Instance WrapperSpec_eq_dec : EqDecision WrapperSpec.
Proof. solve_decision. Defined.

Definition ch (name : string) : WrapperSpec := {| ws_namespace := Some "ch"; ws_name := name |}.
Definition plain (name : string) : WrapperSpec := {| ws_namespace := None; ws_name := name |}.

(** The value of a text in a list of cases. *)
Definition case_of {A} (cases : list (string * A)) (s : string) : option A :=
  snd <$> List.find (λ c, String.eqb c.1 s) cases.

Definition merge_fn_cases : list (string * WrapperSpec) :=
  [("summerge", ch "sum_merge"); ("countmerge", ch "count_merge"); ("avgmerge", ch "avg_merge");
   ("stddevpopmerge", ch "stddevpop_merge");
   ("sum", plain "sum"); ("count", plain "count"); ("min", plain "min"); ("max", plain "max");
   ("avg", plain "avg")].

Definition from_merge_fn (name : string) : option WrapperSpec :=
  case_of merge_fn_cases (to_ascii_lowercase name).

Definition ch_function_cases : list (string * WrapperSpec) :=
  [("avg_merge", ch "avg_merge"); ("count_merge", ch "count_merge"); ("sum_merge", ch "sum_merge");
   ("stddevpop_merge", ch "stddevpop_merge"); ("varpop_merge", ch "varpop_merge")].
Definition plain_function_cases : list (string * WrapperSpec) :=
  [("min", plain "min"); ("max", plain "max")].

Definition from_function (function : FunctionRef) : option WrapperSpec :=
  let name := to_ascii_lowercase (fn_name function) in
  match to_ascii_lowercase <$> fn_namespace function with
  | Some namespace => if String.eqb namespace "ch" then case_of ch_function_cases name else None
  | None => case_of plain_function_cases name
  end.

Definition ws_function_ref (w : WrapperSpec) : FunctionRef :=
  {| fn_namespace := ws_namespace w; fn_name := ws_name w |}.

Definition ws_matches (w : WrapperSpec) (function : FunctionRef) : bool :=
  eq_ignore_ascii_case (fn_name function) (ws_name w)
  && match ws_namespace w, fn_namespace function with
     | None, None => true
     | Some lhs, Some rhs => eq_ignore_ascii_case lhs rhs
     | _, _ => false
     end.

(** ** Aggregate states in scope *)

Record ResolvedWrapper := {
  rw_relation_display : string;
  rw_binding_name : string;
  rw_column_name : string;
  rw_wrapper : WrapperSpec
}.

(** The merge function of a column of one binding, if the binding has it. *)
Definition binding_wrapper (name : string) (b : ScopeBinding) : option ResolvedWrapper :=
  match List.find (λ c, eq_ignore_ascii_case (column_name c) name) (rel_columns (sb_relation b)) with
  | Some column =>
      match rel_kind (sb_relation b), bt_get "clickhouse.mv.merge_fn" (extensions (column_metadata column)) with
      | RMaterializedView, Some merge_fn =>
          (λ wrapper, {| rw_relation_display := sb_relation_display b; rw_binding_name := sb_binding_name b;
                         rw_column_name := column_name column; rw_wrapper := wrapper |}) <$> from_merge_fn merge_fn
      | _, _ => None
      end
  | None => None
  end.

Definition qualifies (relation : option string) (b : ScopeBinding) : bool :=
  match relation with Some want => eq_ignore_ascii_case (sb_binding_name b) want | None => true end.

Definition resolve_wrapper (s : SelectScope) (relation : option string) (name : string) : option ResolvedWrapper :=
  head (omap (binding_wrapper name) (List.filter (qualifies relation) (scope_bindings s))).

(** A call of one argument, without DISTINCT, FILTER and OVER: its argument. *)
Definition sole_argument (f : BoundFunctionCall) : option BoundExpr :=
  if bfc_distinct f || is_some (bfc_filter f) || is_some (bfc_over f) then None
  else match bfc_args f with [arg] => Some arg | _ => None end.

Definition as_column (e : BoundExpr) : option BoundColumnRef :=
  match be_kind e with BColumn column => Some column | _ => None end.

Record WrapperNearMiss := {
  nm_relation_display : string;
  nm_binding_name : string;
  nm_column_name : string;
  nm_current_wrapper : WrapperSpec;
  nm_expected_wrapper : WrapperSpec
}.

Definition detect_wrapper_near_miss (s : SelectScope) (f : BoundFunctionCall) : option WrapperNearMiss :=
  arg ← sole_argument f;
  actual ← from_function (bfc_function f);
  column ← as_column arg;
  expected ← resolve_wrapper s (col_relation column) (col_name column);
  if decide (actual = rw_wrapper expected) then None
  else Some {| nm_relation_display := rw_relation_display expected; nm_binding_name := rw_binding_name expected;
               nm_column_name := rw_column_name expected; nm_current_wrapper := actual;
               nm_expected_wrapper := rw_wrapper expected |}.

(** ** What the rewriting records *)

Record WrapEvent := {
  we_relation_display : string;
  we_binding_name : string;
  we_column_name : string;
  we_wrapper : WrapperSpec
}.

Record NearMissEvent := { ne_near_miss : WrapperNearMiss; ne_column_name : string; ne_node : SyntaxNode }.

(** [rewritten_relations] is a [BTreeSet]. *)
Record ClickHouseMvSummary := {
  rewritten_relations : BTreeMap string unit;
  wrap_events : list WrapEvent;
  near_misses : list NearMissEvent
}.
Definition MvSummary_default : ClickHouseMvSummary :=
  {| rewritten_relations := []; wrap_events := []; near_misses := [] |}.

Definition record_wrap (resolved : ResolvedWrapper) (s : ClickHouseMvSummary) : ClickHouseMvSummary :=
  {| rewritten_relations := bt_insert (rw_relation_display resolved) tt (rewritten_relations s);
     wrap_events := wrap_events s ++
       [{| we_relation_display := rw_relation_display resolved; we_binding_name := rw_binding_name resolved;
           we_column_name := rw_column_name resolved; we_wrapper := rw_wrapper resolved |}];
     near_misses := near_misses s |}.

Definition record_near_miss (mismatch : WrapperNearMiss) (node : SyntaxNode) (s : ClickHouseMvSummary)
    : ClickHouseMvSummary :=
  {| rewritten_relations := rewritten_relations s; wrap_events := wrap_events s;
     near_misses := near_misses s ++
       [{| ne_near_miss := mismatch; ne_column_name := nm_column_name mismatch; ne_node := node |}] |}.

Definition rewritten_to_metadata (s : ClickHouseMvSummary) : option string :=
  if is_empty (rewritten_relations s) then None else Some (string_join "," (bt_keys (rewritten_relations s))).

Definition diagnostic_with_node (d : QueryDiagnostic) (node : SyntaxNode) : QueryDiagnostic :=
  with_node_id d (node_id node).

Definition wrap_key (e : WrapEvent) : string :=
  we_relation_display e +:+ "|" +:+ we_binding_name e +:+ "|" +:+ we_column_name e +:+ "|"
  +:+ ws_name (we_wrapper e) +:+ "|" +:+ ws_name (we_wrapper e).

Definition wrap_note (e : WrapEvent) : QueryDiagnostic :=
  diagnostic_with_node
    (diagnostic_note "QFCH201"
       ("ClickHouse emission will wrap materialized-view column `" +:+ we_binding_name e +:+ "."
        +:+ we_column_name e +:+ "` from `" +:+ we_relation_display e +:+ "` with `"
        +:+ ws_name (we_wrapper e) +:+ "`."))
    (SyntaxNode_new None "").

(** The loop over the wrap events, which notes every key once. *)
Fixpoint wrap_notes (seen : gset string) (events : list WrapEvent) : list QueryDiagnostic :=
  match events with
  | [] => []
  | e :: events =>
      if decide (wrap_key e ∈ seen) then wrap_notes seen events
      else wrap_note e :: wrap_notes ({[wrap_key e]} ∪ seen) events
  end.

(** The [Debug] text of a name of the tables above: they hold no character that
    is escaped. *)
Definition debug_name (s : string) : string :=
  let quote := String (Ascii.ascii_of_N 34) "" in quote +:+ s +:+ quote.

Definition near_miss_warning (m : NearMissEvent) : QueryDiagnostic :=
  let miss := ne_near_miss m in
  let msg :=
    if String.eqb (nm_relation_display miss) "" then "MV relation not found for column " +:+ ne_column_name m
    else "column " +:+ nm_binding_name miss +:+ "." +:+ ne_column_name m +:+ " expects wrapper "
         +:+ debug_name (ws_name (nm_expected_wrapper miss)) +:+ " but found "
         +:+ debug_name (ws_name (nm_current_wrapper miss)) in
  diagnostic_with_node (diagnostic_warning "QFCH202" msg) (ne_node m).

Definition analysis_diagnostics (s : ClickHouseMvSummary) : list QueryDiagnostic :=
  wrap_notes ∅ (wrap_events s) ++ List.map near_miss_warning (near_misses s).
