(* ===== verification/ClickHouseRewrite.v ===== *)
(** The rewriting of bound plans for ClickHouse:
    [queryfabric-adapter-clickhouse/src/rewrite/mod.rs].  Columns of materialized
    views that hold aggregate states are merged where they are projected, and
    UUIDs are projected as text. *)
From S2P Require Import Prelude BTreeMap Types Diagnostics Syntax Bound Catalog ClickHouseScope.
Local Open Scope state_scope.

(** ** UUIDs as text *)

Definition is_to_string_call (e : BoundExpr) : bool :=
  match be_kind e with
  | BFunction f =>
      negb (is_some (fn_namespace (bfc_function f)))
      && eq_ignore_ascii_case (fn_name (bfc_function f)) "toString"
      && Nat.eqb (length (bfc_args f)) 1 && negb (bfc_distinct f)
      && negb (is_some (bfc_filter f)) && negb (is_some (bfc_over f))
  | _ => false
  end.

Definition string_result_field (f : ResultField) : ResultField :=
  MkField (field_name f) TUtf8 (field_nullable f) (field_metadata f).

(** A call without DISTINCT, FILTER and OVER. *)
Definition plain_bound_call (function : FunctionRef) (args : list BoundExpr) (signature : string) : BoundExprKind :=
  BFunction (MkBoundFunctionCall function None args false None None (Some signature)).

Definition rewrite_uuid_arrow_expr (enabled : bool) (e : BoundExpr) : BoundExpr * bool :=
  if negb enabled || negb (DataType_eqb (be_data_type e) TUuid) || is_to_string_call e then (e, false)
  else
    (MkBoundExpr (plain_bound_call {| fn_namespace := None; fn_name := "toString" |} [e] "toString")
       TUtf8 (be_nullable e) (be_node e), true).

(** ** The scope of a select *)

Section Rewrite.
Variable catalog : Catalog.
Variable uuid_arrow_workaround_enabled : bool.

Fixpoint collect_relation_bindings (r : BoundRelation) (scope : SelectScope) : SelectScope :=
  match r with
  | BTable binding _ =>
      match relation_name binding with
      | None => scope
      | Some name =>
          match resolve_relation catalog (nr_namespace name) (nr_name name) with
          | None => scope
          | Some schema => scope_push (binding_name binding) (NameRef_display_name name) schema scope
          end
      end
  | BNestedJoin _ (MkBoundTableWithJoins relation joins _) _ =>
      fold_left (λ scope join, collect_relation_bindings (bjoin_relation join) scope) joins
        (collect_relation_bindings relation scope)
  | BDerived _ _ _ | BRelUnsupported _ _ _ => scope
  end.

Definition scope_from_from_clause (from : list BoundTableWithJoins) : SelectScope :=
  fold_left (λ scope table,
    fold_left (λ scope join, collect_relation_bindings (bjoin_relation join) scope) (bt_joins table)
      (collect_relation_bindings (bt_relation table) scope)) from SelectScope_default.

Definition is_existing_wrapper (function : BoundFunctionCall) (scope : SelectScope) : bool :=
  match column ← sole_argument function ≫= as_column;
        resolve_wrapper scope (col_relation column) (col_name column) with
  | Some resolved => ws_matches (rw_wrapper resolved) (bfc_function function)
  | None => false
  end.

(** ** Expressions *)

(** The scope in which columns are wrapped, if they are. *)
Definition wrapping (scope : option SelectScope) (allow_column_wrap : bool) : option SelectScope :=
  if allow_column_wrap then scope else None.

Definition wrapper_call (resolved : ResolvedWrapper) (e : BoundExpr) : BoundExprKind :=
  plain_bound_call (ws_function_ref (rw_wrapper resolved)) [e] (ws_name (rw_wrapper resolved)).

Definition rewrite_column (scope : option SelectScope) (allow : bool) (e : BoundExpr) (column : BoundColumnRef)
    : state ClickHouseMvSummary BoundExprKind :=
  match s ← wrapping scope allow; resolve_wrapper s (col_relation column) (col_name column) with
  | Some resolved => smodify (record_wrap resolved) ;; sret (wrapper_call resolved e)
  | None => sret (be_kind e)
  end.

Definition keeps_args (scope : option SelectScope) (allow : bool) (function : BoundFunctionCall) : bool :=
  match wrapping scope allow with Some s => is_existing_wrapper function s | None => false end.

Definition note_near_miss (scope : option SelectScope) (allow : bool) (function : BoundFunctionCall)
    (node : SyntaxNode) : state ClickHouseMvSummary unit :=
  match s ← wrapping scope allow; detect_wrapper_near_miss s function with
  | Some mismatch => smodify (record_near_miss mismatch node)
  | None => sret tt
  end.

Section Expressions.
Variable rewrite_expr : option SelectScope → bool → BoundExpr → state ClickHouseMvSummary BoundExpr.

Definition rewrite_order_by_expr (scope : option SelectScope) (allow : bool) (o : BoundOrderByExpr)
    : state ClickHouseMvSummary BoundOrderByExpr :=
  let! e := rewrite_expr scope allow (bob_expr o) in
  sret (MkBoundOrderByExpr e (bob_asc o) (bob_nulls_first o) (bob_node o)).

Definition rewrite_window (scope : option SelectScope) (w : BoundWindowSpec)
    : state ClickHouseMvSummary BoundWindowSpec :=
  let! partition_by := straverse (rewrite_expr scope false) (bwin_partition_by w) in
  let! order_by := straverse (rewrite_order_by_expr scope false) (bwin_order_by w) in
  sret (MkBoundWindowSpec partition_by order_by (bwin_node w)).

Definition rewrite_function (scope : option SelectScope) (allow : bool) (function : BoundFunctionCall)
    (node : SyntaxNode) : state ClickHouseMvSummary BoundExprKind :=
  let keep_args := keeps_args scope allow function in
  (if keep_args then sret tt else note_near_miss scope allow function node) ;;
  let! args := if keep_args then sret (bfc_args function)
               else straverse (rewrite_expr scope allow) (bfc_args function) in
  let! filter := soption (rewrite_expr scope false) (bfc_filter function) in
  let! over := soption (rewrite_window scope) (bfc_over function) in
  sret (BFunction (MkBoundFunctionCall (bfc_function function) (bfc_resolved_backend_name function) args
          (bfc_distinct function) filter over (bfc_resolved_signature_name function))).

Definition rewrite_when_then (scope : option SelectScope) (allow : bool) (branch : BoundWhenThen)
    : state ClickHouseMvSummary BoundWhenThen :=
  let! condition := rewrite_expr scope allow (bwt_condition branch) in
  let! result := rewrite_expr scope allow (bwt_result branch) in
  sret (MkBoundWhenThen condition result).

Definition rewrite_case (scope : option SelectScope) (allow : bool) (operand : option BoundExpr)
    (when_then : list BoundWhenThen) (else_result : option BoundExpr) : state ClickHouseMvSummary BoundExprKind :=
  let! operand := soption (rewrite_expr scope allow) operand in
  let! when_then := straverse (rewrite_when_then scope allow) when_then in
  let! else_result := soption (rewrite_expr scope allow) else_result in
  sret (BCase operand when_then else_result).

Definition rewrite_between (scope : option SelectScope) (allow : bool) (input low high : BoundExpr) (negated : bool)
    : state ClickHouseMvSummary BoundExprKind :=
  let! input := rewrite_expr scope allow input in
  let! low := rewrite_expr scope allow low in
  let! high := rewrite_expr scope allow high in
  sret (BBetween input low high negated).

Definition rewrite_in_list (scope : option SelectScope) (allow : bool) (input : BoundExpr) (items : list BoundExpr)
    (negated : bool) : state ClickHouseMvSummary BoundExprKind :=
  let! input := rewrite_expr scope allow input in
  let! items := straverse (rewrite_expr scope allow) items in
  sret (BInList input items negated).

Definition rewrite_like (scope : option SelectScope) (allow : bool) (input pattern : BoundExpr)
    (negated case_insensitive : bool) : state ClickHouseMvSummary BoundExprKind :=
  let! input := rewrite_expr scope allow input in
  let! pattern := rewrite_expr scope allow pattern in
  sret (BLike input pattern negated case_insensitive).

Definition rewrite_items (scope : option SelectScope) (allow : bool) (build : list BoundExpr → BoundExprKind)
    (items : list BoundExpr) : state ClickHouseMvSummary BoundExprKind :=
  let! items := straverse (rewrite_expr scope allow) items in
  sret (build items).
End Expressions.

(** ** Selects *)

Definition expand_wildcard_projection (qualifier : option string) (fields : list ResultField) (node : SyntaxNode)
    (scope : SelectScope) : option (list BoundProjectionItem) :=
  (λ binding_name,
    List.map (λ field,
      let e := MkBoundExpr (BColumn {| col_relation := Some binding_name; col_name := field_name field |})
                 (field_type field) (field_nullable field) node in
      let '(e, wrapped_for_arrow) := rewrite_uuid_arrow_expr uuid_arrow_workaround_enabled e in
      BPExpr (MkBoundProjectionExpr e (Some (field_name field))
                (if wrapped_for_arrow : bool then string_result_field field else field) node)) fields)
  <$> target_binding_name scope qualifier.

Section Selects.
Variable rewrite_expr : option SelectScope → bool → BoundExpr → state ClickHouseMvSummary BoundExpr.
Variable rewrite_table_with_joins : BoundTableWithJoins → state ClickHouseMvSummary BoundTableWithJoins.

Definition rewrite_projection_item (scope : SelectScope) (item : BoundProjectionItem)
    : state ClickHouseMvSummary (list BoundProjectionItem) :=
  match item with
  | BPExpr details =>
      let! rewritten := rewrite_expr (Some scope) true (bpe_expr details) in
      let '(e, wrapped_for_arrow) := rewrite_uuid_arrow_expr uuid_arrow_workaround_enabled rewritten in
      let field := if wrapped_for_arrow : bool then string_result_field (bpe_field details) else bpe_field details in
      let alias := option_or_else (bpe_alias details)
                     (if wrapped_for_arrow then Some (field_name (bpe_field details)) else None) in
      sret [BPExpr (MkBoundProjectionExpr e alias field (bpe_node details))]
  | BPWildcard qualifier fields node =>
      sret (default [BPWildcard qualifier fields node] (expand_wildcard_projection qualifier fields node scope))
  | BPUnsupported description node => sret [BPUnsupported description node]
  end.

Definition projection_fields (projection : list BoundProjectionItem) : list ResultField :=
  mjoin (List.map (λ item,
    match item with
    | BPExpr details => [bpe_field details]
    | BPWildcard _ fields _ => fields
    | BPUnsupported _ _ => []
    end) projection).

Definition rewrite_group_key (scope : SelectScope) (e : BoundExpr) : state ClickHouseMvSummary BoundExpr :=
  let! rewritten := rewrite_expr (Some scope) false e in
  sret (rewrite_uuid_arrow_expr uuid_arrow_workaround_enabled rewritten).1.

Definition rewrite_select (select : BoundSelect) : state ClickHouseMvSummary BoundSelect :=
  let! from := straverse rewrite_table_with_joins (bsel_from select) in
  let scope := scope_from_from_clause from in
  let! items := straverse (rewrite_projection_item scope) (bsel_projection select) in
  let projection := mjoin items in
  let result_schema := {| fields := projection_fields projection;
                          schema_metadata := schema_metadata (bsel_result_schema select) |} in
  let! selection := soption (rewrite_expr (Some scope) false) (bsel_selection select) in
  let! group_by := straverse (rewrite_group_key scope) (bsel_group_by select) in
  let! having := soption (rewrite_expr (Some scope) true) (bsel_having select) in
  sret (MkBoundSelect (bsel_distinct select) projection from selection group_by having result_schema
          (bsel_node select)).
End Selects.

(** ** Plans *)

Fixpoint rewrite_query_plan (plan : BoundQueryPlan) : state ClickHouseMvSummary BoundQueryPlan :=
  match plan with
  | MkBoundQueryPlan node ctes body order_by limit offset backend_clauses _ =>
      let! body := rewrite_set_expr body in
      let result_schema := set_expr_result_schema body in
      let! ctes := straverse (λ cte,
        let! query := rewrite_query_plan (bcte_query cte) in
        sret (MkBoundCte (bcte_name cte) (bcte_columns cte) query (bq_result_schema query) (bcte_node cte))) ctes in
      let! order_by := straverse (rewrite_order_by_expr rewrite_expr None false) order_by in
      let! limit := soption (rewrite_expr None false) limit in
      let! offset := soption (rewrite_expr None false) offset in
      sret (MkBoundQueryPlan node ctes body order_by limit offset backend_clauses result_schema)
  end
with rewrite_set_expr (e : BoundSetExpr) : state ClickHouseMvSummary BoundSetExpr :=
  match e with
  | BSelect select =>
      let! select := rewrite_select rewrite_expr rewrite_table_with_joins select in
      sret (BSelect select)
  | BUnionAll lhs rhs node _ =>
      let! lhs := rewrite_set_expr lhs in
      let! rhs := rewrite_set_expr rhs in
      sret (BUnionAll lhs rhs node (set_expr_result_schema lhs))
  | BSetUnsupported description node result_schema => sret (BSetUnsupported description node result_schema)
  end
with rewrite_table_with_joins (table : BoundTableWithJoins) : state ClickHouseMvSummary BoundTableWithJoins :=
  match table with
  | MkBoundTableWithJoins relation joins node =>
      let! relation := rewrite_relation relation in
      let! joins := straverse (λ join,
        let! relation := rewrite_relation (bjoin_relation join) in
        let! on := soption (rewrite_expr None false) (bjoin_on join) in
        sret (MkBoundJoin (bjoin_kind join) relation on (bjoin_node join))) joins in
      sret (MkBoundTableWithJoins relation joins node)
  end
with rewrite_relation (relation : BoundRelation) : state ClickHouseMvSummary BoundRelation :=
  match relation with
  | BTable binding node => sret (BTable binding node)
  | BDerived binding query node =>
      let! query := rewrite_query_plan query in
      sret (BDerived binding query node)
  | BNestedJoin binding table node =>
      let! table := rewrite_table_with_joins table in
      sret (BNestedJoin binding table node)
  | BRelUnsupported description binding_name node => sret (BRelUnsupported description binding_name node)
  end
with rewrite_expr (scope : option SelectScope) (allow : bool) (e : BoundExpr)
    : state ClickHouseMvSummary BoundExpr :=
  match e with
  | MkBoundExpr kind data_type nullable node =>
      let go := rewrite_expr scope allow in
      let! kind :=
        match kind with
        | BColumn column => rewrite_column scope allow e column
        | BLiteral _ | BParameter _ | BUnsupported _ => sret kind
        | BUnary op inner => let! inner := go inner in sret (BUnary op inner)
        | BBinary op lhs rhs => let! lhs := go lhs in let! rhs := go rhs in sret (BBinary op lhs rhs)
        | BFunction function => rewrite_function rewrite_expr scope allow function node
        | BCase operand when_then else_result => rewrite_case rewrite_expr scope allow operand when_then else_result
        | BCast inner t => let! inner := go inner in sret (BCast inner t)
        | BBetween input low high negated => rewrite_between rewrite_expr scope allow input low high negated
        | BInList input items negated => rewrite_in_list rewrite_expr scope allow input items negated
        | BInSubquery input subquery negated =>
            let! input := go input in
            let! subquery := rewrite_query_plan subquery in
            sret (BInSubquery input subquery negated)
        | BScalarSubquery subquery => let! q := rewrite_query_plan subquery in sret (BScalarSubquery q)
        | BExists subquery => let! q := rewrite_query_plan subquery in sret (BExists q)
        | BLike input pattern negated case_insensitive =>
            rewrite_like rewrite_expr scope allow input pattern negated case_insensitive
        | BIsNull inner negated => let! inner := go inner in sret (BIsNull inner negated)
        | BTuple items => rewrite_items rewrite_expr scope allow BTuple items
        | BArray items => rewrite_items rewrite_expr scope allow BArray items
        end in
      sret (MkBoundExpr kind data_type nullable node)
  end.

Definition rewrite_query_for_clickhouse (query : BoundQuery) : BoundQuery * ClickHouseMvSummary :=
  let '(plan, summary) := rewrite_query_plan (bound_plan query) MvSummary_default in
  (bound_with_plan query plan, summary).
End Rewrite.
