(* ===== verification/ClickHouse.v ===== *)
(** The ClickHouse adapter ([queryfabric-adapter-clickhouse/src/lib.rs]), the
    casts of Arrow output ([arrow.rs]) and its column types ([types.rs]). *)
From S2P Require Import Prelude BTreeMap Types Diagnostics Syntax Bound Catalog Features Cost Render Adapters.
From S2P Require Import ClickHouseScope ClickHouseRewrite.
Local Open Scope result_scope.

(** ** The adapter *)

Definition clickhouse_capabilities : CapabilitySet :=
  let c := from_features
    [BFCommonTableExpressions; BFDerivedTables; BFJoins; BFWindows; BFSetOperations; BFAggregates;
     BFDistinctAggregates; BFScalarSubqueries; BFInSubqueries; BFNamespacedFunctions; BFApproximateAggregates;
     BFExplain; BFLimitOffset; BFIsolatedExecution; BFUuidToStringInArrowOutput] in
  let c := with_limits c
    {| max_rows := None; max_bytes_scanned := None; max_result_bytes := None;
       max_concurrent_queries := None; interactive_byte_limit := 512 * 1024 * 1024;
       batch_byte_limit := 4 * 1024 * 1024 * 1024 |} in
  let c := with_result_formats c [ArrowIpc; Parquet; Csv; JsonFormat] in
  let c := with_async_export c true in
  with_federated_execution c true.

Definition clickhouse_uuid_workaround : bool := supports clickhouse_capabilities BFUuidToStringInArrowOutput.

Definition clickhouse_analyze (query : BoundQuery) (catalog : Catalog) : BackendAnalysis :=
  let analysis := analyze_backend_support catalog "clickhouse" clickhouse_capabilities query true in
  let '(_, mv_summary) := rewrite_query_for_clickhouse catalog clickhouse_uuid_workaround query in
  let ds := an_diagnostics analysis ++ analysis_diagnostics mv_summary in
  {| an_supported := negb (has_error ds); an_diagnostics := ds;
     an_estimated_cost_class := an_estimated_cost_class analysis; an_result_schema := an_result_schema analysis;
     an_provenance := an_provenance analysis |}.

(** [artifact.metadata.insert]. *)
Definition with_sql_metadata (a : SqlArtifact) (key value : string) : SqlArtifact :=
  {| sql_dialect := sql_dialect a; sql_text := sql_text a; sql_parameters := sql_parameters a;
     sql_result_schema := sql_result_schema a; sql_metadata := bt_insert key value (sql_metadata a);
     sql_provenance := sql_provenance a |}.

Definition clickhouse_emit (query : BoundQuery) (catalog : Catalog) : Result EmitArtifact :=
  let analysis := clickhouse_analyze query catalog in
  if negb (an_supported analysis) then
    Err (unsupported "clickhouse-emission" (diagnostic_summary (an_diagnostics analysis)))
  else
    let '(rewritten_query, mv_summary) := rewrite_query_for_clickhouse catalog clickhouse_uuid_workaround query in
    let? artifact := emit_sql_artifact rewritten_query catalog ClickHouse in
    Ok (ASql
      match rewritten_to_metadata mv_summary with
      | Some rewritten_to => with_sql_metadata artifact "clickhouse.rewritten_to" rewritten_to
      | None => artifact
      end).

Definition ClickHouseAdapter : BackendAdapter :=
  {| adapter_name := "clickhouse"; adapter_capabilities := clickhouse_capabilities;
     adapter_analyze := clickhouse_analyze; adapter_emit := clickhouse_emit |}.

(** ** Casts of Arrow output *)

Definition clickhouse_quote_identifier (identifier : string) : string :=
  char_text dquote +:+ double_char dquote identifier +:+ char_text dquote.

Definition result_field_needs_arrow_cast (f : ResultField) : bool :=
  match field_type f with TUuid | TJson => true | _ => false end.

Definition arrow_safe_projection_expr (f : ResultField) : string :=
  let ident := clickhouse_quote_identifier (field_name f) in
  match field_type f with
  | TUuid => "toString(" +:+ ident +:+ ") AS " +:+ ident
  | TJson => "toJSONString(" +:+ ident +:+ ") AS " +:+ ident
  | _ => ident +:+ " AS " +:+ ident
  end.

Definition clickhouse_arrow_safe_sql (sql : string) (result_schema : ResultSchema) : string :=
  if negb (existsb result_field_needs_arrow_cast (fields result_schema)) then sql
  else
    "SELECT " +:+ string_join ", " (List.map arrow_safe_projection_expr (fields result_schema))
    +:+ " FROM (" +:+ sql +:+ ") AS " +:+ clickhouse_quote_identifier "_syndb_arrow_safe".

Definition clickhouse_arrow_safe_artifact_sql (artifact : SqlArtifact) : string :=
  clickhouse_arrow_safe_sql (sql_text artifact) (sql_result_schema artifact).

(** ** Column types *)

Inductive ChType :=
| ChBool | ChInt16 | ChInt32 | ChUInt16 | ChUInt64 | ChFloat64 | ChString | ChUuid | ChJson
| ChDateTime64 (precision : N) | ChLowCardinalityString | ChEnum8 (variants : string).

Inductive SimpleColumnType := SInt | SFloat | SAscii | SUuid | SBoolean | STimestamp | SText | SUnknown.

Definition needs_arrow_cast (t : ChType) : bool := match t with ChUuid | ChJson => true | _ => false end.

Definition to_simple (t : ChType) : SimpleColumnType :=
  match t with
  | ChInt16 | ChInt32 | ChUInt16 | ChUInt64 => SInt
  | ChFloat64 => SFloat
  | ChString | ChLowCardinalityString => SAscii
  | ChUuid => SUuid
  | ChBool => SBoolean
  | ChDateTime64 _ => STimestamp
  | ChEnum8 _ => SAscii
  | ChJson => SText
  end.

Definition show_ch_type (t : ChType) : string :=
  match t with
  | ChBool => "Bool" | ChInt16 => "Int16" | ChInt32 => "Int32" | ChUInt16 => "UInt16"
  | ChUInt64 => "UInt64" | ChFloat64 => "Float64" | ChString => "String" | ChUuid => "UUID"
  | ChJson => "JSON"
  | ChDateTime64 p => "DateTime64(" +:+ show_N p +:+ ")"
  | ChLowCardinalityString => "LowCardinality(String)"
  | ChEnum8 variants => "Enum8(" +:+ variants +:+ ")"
  end.

Definition show_simple_type (t : SimpleColumnType) : string :=
  match t with
  | SInt => "int" | SFloat => "float" | SAscii => "ascii" | SUuid => "uuid"
  | SBoolean => "boolean" | STimestamp => "timestamp" | SText => "text" | SUnknown => "unknown"
  end.
