(* ===== verification/ClickHouseFacts.v ===== *)
(** What the rewriting for ClickHouse guarantees: it merges every aggregate state
    exactly once and changes nothing else, it settles after one pass, and leaves
    no UUID in an output column. *)
From S2P Require Import Prelude BTreeMap Types Diagnostics Syntax Bound Catalog PlanFacts.
From S2P Require Import ClickHouseScope ClickHouseRewrite.
Local Open Scope state_scope.

(** ** Selects of a plan *)

Section AllSelects.
Variable P : BoundSelect → Prop.

Fixpoint selects_query (q : BoundQueryPlan) : Prop :=
  match q with
  | MkBoundQueryPlan _ cs body order_by limit offset _ _ =>
      each (λ c, selects_query (bcte_query c)) cs ∧ selects_set_expr body
      ∧ each (λ o, selects_expr (bob_expr o)) order_by ∧ here selects_expr limit ∧ here selects_expr offset
  end
with selects_set_expr (s : BoundSetExpr) : Prop :=
  match s with
  | BSelect select =>
      P select
      ∧ each (λ i, match i with BPExpr d => selects_expr (bpe_expr d) | _ => True end) (bsel_projection select)
      ∧ each selects_table (bsel_from select) ∧ here selects_expr (bsel_selection select)
      ∧ each selects_expr (bsel_group_by select) ∧ here selects_expr (bsel_having select)
  | BUnionAll l r _ _ => selects_set_expr l ∧ selects_set_expr r
  | BSetUnsupported _ _ _ => True
  end
with selects_table (t : BoundTableWithJoins) : Prop :=
  match t with
  | MkBoundTableWithJoins r js _ =>
      selects_relation r
      ∧ each (λ j, selects_relation (bjoin_relation j) ∧ here selects_expr (bjoin_on j)) js
  end
with selects_relation (r : BoundRelation) : Prop :=
  match r with
  | BTable _ _ | BRelUnsupported _ _ _ => True
  | BDerived _ q _ => selects_query q
  | BNestedJoin _ t _ => selects_table t
  end
with selects_expr (e : BoundExpr) : Prop :=
  match e with
  | MkBoundExpr kind _ _ _ =>
      match kind with
      | BUnary _ e | BCast e _ | BIsNull e _ => selects_expr e
      | BBinary _ l r => selects_expr l ∧ selects_expr r
      | BFunction f =>
          each selects_expr (bfc_args f) ∧ here selects_expr (bfc_filter f)
          ∧ here (λ w, each selects_expr (bwin_partition_by w)
                       ∧ each (λ o, selects_expr (bob_expr o)) (bwin_order_by w)) (bfc_over f)
      | BCase operand pairs else_result =>
          here selects_expr operand
          ∧ each (λ p, selects_expr (bwt_condition p) ∧ selects_expr (bwt_result p)) pairs
          ∧ here selects_expr else_result
      | BBetween e low high _ => selects_expr e ∧ selects_expr low ∧ selects_expr high
      | BInList e items _ => selects_expr e ∧ each selects_expr items
      | BInSubquery e q _ => selects_expr e ∧ selects_query q
      | BScalarSubquery q | BExists q => selects_query q
      | BLike e p _ _ => selects_expr e ∧ selects_expr p
      | BTuple items | BArray items => each selects_expr items
      | BColumn _ | BLiteral _ | BParameter _ | BUnsupported _ => True
      end
  end.
End AllSelects.

(** Every select satisfies what every select satisfies. *)
Lemma selects_everywhere :
  (∀ q, selects_query (λ _, True) q) ∧ (∀ s, selects_set_expr (λ _, True) s) ∧ (∀ t, selects_table (λ _, True) t)
  ∧ (∀ r, selects_relation (λ _, True) r) ∧ (∀ e, selects_expr (λ _, True) e).
Proof.
  assert (Heach : ∀ A (R : A → Prop) l, Forall R l → each R l) by (intros; by apply each_Forall).
  assert (Hhere : ∀ A (R : A → Prop) o, opt_all R o → here R o) by (intros A R [x|] H; [by apply H|done]).
  apply Bound_induction; simpl; intros; unfold bound_select_all, bound_call_all in *; destruct_and?; split_and?; auto.
  - apply Heach. eapply Forall_impl; [eassumption|].
    intros [| d |] Hi; [done|by apply Hi|done].
  - apply Heach. eapply Forall_impl; [eassumption|]. intros j [? ?]. auto.
  - destruct k; simpl in *; unfold bound_call_all in *; destruct_and?; split_and?; auto.
    apply Hhere. intros w Hw. match goal with H : opt_all (bound_window_all _) _ |- _ => destruct (H w Hw) end. auto.
Qed.

(** *** Induction over the plans whose selects satisfy a predicate *)

Section SelectInduction.
Variable Q : BoundSelect → Prop.

(** From the hypotheses on the parts of a node to those of which the selects
    satisfy the predicate. *)
Lemma each_parts (R : BoundExpr → Prop) l :
  Forall (λ e, selects_expr Q e → R e) l → each (selects_expr Q) l → Forall R l.
Proof. rewrite each_Forall. induction 1; inversion 1; constructor; auto. Qed.

Lemma here_parts (R : BoundExpr → Prop) o : opt_all (λ e, selects_expr Q e → R e) o → here (selects_expr Q) o → opt_all R o.
Proof. intros Ho Hh e ->. by apply (Ho e). Qed.

Lemma orders_parts (R : BoundExpr → Prop) l :
  Forall (λ o, selects_expr Q (bob_expr o) → R (bob_expr o)) l → each (λ o, selects_expr Q (bob_expr o)) l →
  Forall (λ o, R (bob_expr o)) l.
Proof. rewrite each_Forall. induction 1; inversion 1; constructor; auto. Qed.

Lemma kind_parts (RQ : BoundQueryPlan → Prop) (RE : BoundExpr → Prop) k dt nl node :
  bound_kind_all (λ q, selects_query Q q → RQ q) (λ e, selects_expr Q e → RE e) k →
  selects_expr Q (MkBoundExpr k dt nl node) → bound_kind_all RQ RE k.
Proof.
  intros Hk Hw. destruct k; simpl in *; destruct_and?; split_and?; eauto using each_parts, here_parts.
  - match goal with H : bound_call_all _ _ |- _ => destruct H as (Ha & Hf & Ho) end. split_and!; eauto using each_parts, here_parts.
    intros w Hw. destruct (Ho w Hw) as [Hp Hob]. rewrite Hw in *. simpl in *. destruct_and?.
    split; eauto using each_parts, orders_parts.
  - match goal with Hp : Forall _ when_then, Hw : each _ when_then |- _ =>
      apply each_Forall in Hw; eapply Forall_impl; [exact (List.Forall_and Hp Hw)|] end.
    intros p [[? ?] [? ?]]. auto.
Qed.

Variables (RQ : BoundQueryPlan → Prop) (RS : BoundSetExpr → Prop) (RT : BoundTableWithJoins → Prop)
  (RR : BoundRelation → Prop) (RE : BoundExpr → Prop).

Hypothesis HQuery : ∀ node cs body ob lim off bc schema,
  Forall (λ c, RQ (bcte_query c)) cs → RS body → Forall (λ o, RE (bob_expr o)) ob →
  opt_all RE lim → opt_all RE off → RQ (MkBoundQueryPlan node cs body ob lim off bc schema).
Hypothesis HSelect : ∀ s, Q s → bound_select_all RT RE s → RS (BSelect s).
Hypothesis HUnion : ∀ l r node schema, RS l → RS r → RS (BUnionAll l r node schema).
Hypothesis HSetUnsupported : ∀ d node schema, RS (BSetUnsupported d node schema).
Hypothesis HTable : ∀ r js node,
  RR r → Forall (λ j, RR (bjoin_relation j) ∧ opt_all RE (bjoin_on j)) js → RT (MkBoundTableWithJoins r js node).
Hypothesis HRelTable : ∀ b node, RR (BTable b node).
Hypothesis HRelDerived : ∀ b q node, RQ q → RR (BDerived b q node).
Hypothesis HRelNested : ∀ b t node, RT t → RR (BNestedJoin b t node).
Hypothesis HRelUnsupported : ∀ d b node, RR (BRelUnsupported d b node).
Hypothesis HExpr : ∀ k dt nl node, bound_kind_all RQ RE k → RE (MkBoundExpr k dt nl node).

Theorem Bound_induction_where :
  (∀ q, selects_query Q q → RQ q) ∧ (∀ s, selects_set_expr Q s → RS s) ∧ (∀ t, selects_table Q t → RT t)
  ∧ (∀ r, selects_relation Q r → RR r) ∧ (∀ e, selects_expr Q e → RE e).
Proof.
  apply Bound_induction.
  - intros node cs body ob lim off bc schema Hcs Hb Hob Hlim Hoff (Hwc & Hwb & Hwo & Hwl & Hwf).
    apply HQuery; eauto using here_parts, orders_parts. apply each_Forall in Hwc.
    eapply Forall_impl; [exact (List.Forall_and Hcs Hwc)|]. intros c [? ?]. auto.
  - intros select (Hp & Hf & Hs & Hg & Hh) (Hq & Hwp & Hwf & Hws & Hwg & Hwh). apply HSelect; [done|].
    split_and!; eauto using each_parts, here_parts.
    + apply each_Forall in Hwp. eapply Forall_impl; [exact (List.Forall_and Hp Hwp)|]. intros i [Hi Hw] d ->. by apply Hi.
    + apply each_Forall in Hwf. eapply Forall_impl; [exact (List.Forall_and Hf Hwf)|]. intros t [? ?]. auto.
  - intros l r node schema Hl Hr [? ?]. auto.
  - auto.
  - intros r js node Hr Hjs [Hwr Hwj]. apply HTable; [auto|]. apply each_Forall in Hwj.
    eapply Forall_impl; [exact (List.Forall_and Hjs Hwj)|]. intros j [[? ?] [? ?]]. eauto using here_parts.
  - auto.
  - auto.
  - auto.
  - auto.
  - intros k dt nl node Hk Hw. apply HExpr. by eapply kind_parts.
Qed.
End SelectInduction.

(** ** Results of computations *)

(** Whatever the state, the computation ensures something with [P]. *)
Definition ensures {S A} (m : state S A) (P : A → Prop) : Prop := ∀ s, P (m s).1.

Section Ensures.
Context {S : Type}.

Lemma ensures_ret {A} (a : A) (P : A → Prop) : P a → ensures (S:=S) (sret a) P.
Proof. by intros Ha s. Qed.

Lemma ensures_bind {A B} (m : state S A) (k : A → state S B) (P : A → Prop) (Q : B → Prop) :
  ensures m P → (∀ a, P a → ensures (k a) Q) → ensures (sbind m k) Q.
Proof. intros Hm Hk s. unfold sbind. specialize (Hm s). destruct (m s) as [a s']. by apply Hk. Qed.

Lemma ensures_any {A} (m : state S A) : ensures m (λ _, True).
Proof. done. Qed.

Lemma ensures_mono {A} (m : state S A) (P Q : A → Prop) : ensures m P → (∀ a, P a → Q a) → ensures m Q.
Proof. intros Hm HPQ s. apply HPQ, Hm. Qed.

Lemma ensures_and {A} (m : state S A) (P Q : A → Prop) : ensures m P → ensures m Q → ensures m (λ a, P a ∧ Q a).
Proof. intros HP HQ s. split; [apply HP|apply HQ]. Qed.

Lemma ensures_straverse {A B} (f : A → state S B) (P : B → Prop) l :
  Forall (λ x, ensures (f x) P) l → ensures (straverse f l) (Forall P).
Proof.
  induction 1 as [|x l Hx _ IH]; [by apply ensures_ret|]. simpl.
  eapply ensures_bind; [exact Hx|]. intros y Hy. eapply ensures_bind; [exact IH|]. intros ys Hys.
  apply ensures_ret. by constructor.
Qed.

Lemma ensures_soption {A B} (f : A → state S B) (P : B → Prop) o :
  opt_all (λ x, ensures (f x) P) o → ensures (soption f o) (here P).
Proof.
  destruct o as [x|]; intros Ho; [|by apply ensures_ret]. simpl.
  eapply ensures_bind; [by apply Ho|]. intros y Hy. by apply ensures_ret.
Qed.

Lemma ensures_straverse2 {A B} (f : A → state S B) (R : A → B → Prop) l :
  Forall (λ x, ensures (f x) (R x)) l → ensures (straverse f l) (Forall2 R l).
Proof.
  induction 1 as [|x l Hx _ IH]; [by apply ensures_ret|]. simpl.
  eapply ensures_bind; [exact Hx|]. intros y Hy. eapply ensures_bind; [exact IH|]. intros ys Hys.
  apply ensures_ret. by constructor.
Qed.

Lemma ensures_soption2 {A B} (f : A → state S B) (R : A → B → Prop) o :
  opt_all (λ x, ensures (f x) (R x)) o → ensures (soption f o) (option_Forall2 R o).
Proof.
  destruct o as [x|]; intros Ho; [|by apply ensures_ret; constructor]. simpl.
  eapply ensures_bind; [by apply Ho|]. intros y Hy. apply ensures_ret. by constructor.
Qed.

(** A computation from a value that ensures the value and leaves the state. *)
Definition fixed {A} (f : A → state S A) (a : A) : Prop := ∀ s, f a s = (a, s).

Lemma fixed_straverse {A} (f : A → state S A) l : Forall (fixed f) l → fixed (straverse f) l.
Proof.
  intros Hl s. induction Hl as [|x l Hx _ IH]; [done|]. simpl. unfold sbind. rewrite Hx. by rewrite IH.
Qed.

Lemma fixed_soption {A} (f : A → state S A) o : here (fixed f) o → fixed (soption f) o.
Proof. intros Ho s. destruct o as [x|]; [|done]. simpl in *. unfold sbind. by rewrite Ho. Qed.
End Ensures.

(** ** One pass settles *)

Section Idempotence.
Variable catalog : Catalog.
Variable enabled : bool.

Abbreviation rw_query := (rewrite_query_plan catalog enabled).
Abbreviation rw_set := (rewrite_set_expr catalog enabled).
Abbreviation rw_table := (rewrite_table_with_joins catalog enabled).
Abbreviation rw_relation := (rewrite_relation catalog enabled).
Abbreviation rw_expr := (rewrite_expr catalog enabled).

(** The projection has no wildcard. *)
Definition no_wildcard (select : BoundSelect) : Prop :=
  each (λ i, match i with BPWildcard _ _ _ => False | _ => True end) (bsel_projection select).

(** The merge function that a column still waits for. *)
Definition raw (scope : option SelectScope) (allow : bool) (e : BoundExpr) : option ResolvedWrapper :=
  s ← wrapping scope allow; column ← as_column e; resolve_wrapper s (col_relation column) (col_name column).

Definition settled scope allow (e : BoundExpr) : Prop := fixed (rw_expr scope allow) e ∧ raw scope allow e = None.
Definition settles (e : BoundExpr) : Prop := ∀ scope allow, ensures (rw_expr scope allow e) (settled scope allow).

Lemma raw_not_column scope allow e : as_column e = None → raw scope allow e = None.
Proof. unfold raw. intros ->. by destruct (wrapping scope allow). Qed.

Lemma settles_list scope allow l :
  Forall settles l → ensures (straverse (rw_expr scope allow) l) (Forall (settled scope allow)).
Proof. intros Hl. apply ensures_straverse. eapply Forall_impl; [exact Hl|]. intros e He. apply He. Qed.

Lemma settles_option scope allow o :
  opt_all settles o → ensures (soption (rw_expr scope allow) o) (here (settled scope allow)).
Proof. intros Ho. apply ensures_soption. intros e ->. by apply Ho. Qed.

Lemma settled_list scope allow l : Forall (settled scope allow) l → fixed (straverse (rw_expr scope allow)) l.
Proof. intros Hl. apply fixed_straverse. eapply Forall_impl; [exact Hl|]. by intros e []. Qed.

Lemma settled_option scope allow o : here (settled scope allow) o → fixed (soption (rw_expr scope allow)) o.
Proof. intros Ho. apply fixed_soption. by destruct o as [e|]; [destruct Ho|]. Qed.

Lemma ws_matches_itself w : ws_matches w (ws_function_ref w) = true.
Proof.
  assert (∀ s, eq_ignore_ascii_case s s = true) as Hrefl by (intros s; unfold eq_ignore_ascii_case; apply String.eqb_refl).
  unfold ws_matches. destruct w as [[n|] name]; simpl; by rewrite !Hrefl.
Qed.

(** A merged column is kept, and not merged again. *)
Lemma wrapper_call_fixed scope allow e resolved dt nl node :
  raw scope allow e = Some resolved →
  settled scope allow (MkBoundExpr (wrapper_call resolved e) dt nl node).
Proof.
  intros Hraw. unfold raw in Hraw. split; [|by apply raw_not_column].
  destruct (wrapping scope allow) as [s|] eqn:Ew; [|done]. destruct (as_column e) as [column|] eqn:Ec; [|done].
  simpl in Hraw. intros st. simpl. unfold rewrite_function, sbind, sret. simpl.
  unfold keeps_args, is_existing_wrapper. rewrite Ew. simpl. rewrite Ec. simpl. rewrite Hraw, ws_matches_itself. done.
Qed.

Definition settles_window (w : BoundWindowSpec) : Prop :=
  Forall settles (bwin_partition_by w) ∧ Forall (λ o, settles (bob_expr o)) (bwin_order_by w).

Lemma order_settles scope o :
  settles (bob_expr o) →
  ensures (rewrite_order_by_expr rw_expr scope false o) (fixed (rewrite_order_by_expr rw_expr scope false)).
Proof.
  intros Ho. unfold rewrite_order_by_expr. eapply ensures_bind; [apply Ho|]. intros e [He _].
  apply ensures_ret. intros s. simpl. unfold sbind. by rewrite He.
Qed.

Lemma orders_settle scope l :
  Forall (λ o, settles (bob_expr o)) l →
  ensures (straverse (rewrite_order_by_expr rw_expr scope false) l)
    (fixed (straverse (rewrite_order_by_expr rw_expr scope false))).
Proof.
  intros Hl. eapply ensures_mono; [|apply fixed_straverse]. apply ensures_straverse.
  eapply Forall_impl; [exact Hl|]. intros o Ho. by apply order_settles.
Qed.

Lemma window_settles scope w :
  settles_window w → ensures (rewrite_window rw_expr scope w) (fixed (rewrite_window rw_expr scope)).
Proof.
  intros [Hp Ho]. unfold rewrite_window. eapply ensures_bind; [by apply settles_list|].
  intros ps Hps%settled_list. eapply ensures_bind; [by apply orders_settle|]. intros os Hos.
  apply ensures_ret. intros s. simpl. unfold sbind. rewrite Hps. by rewrite Hos.
Qed.

(** Of a call whose arguments are settled, no near miss is noted. *)
Lemma settled_call_is_silent scope allow f node :
  Forall (settled scope allow) (bfc_args f) → note_near_miss scope allow f node = sret tt.
Proof.
  intros Hargs. unfold note_near_miss, detect_wrapper_near_miss.
  destruct (wrapping scope allow) as [sc|] eqn:Ew; [|done]. simpl.
  destruct (sole_argument f) as [arg|] eqn:Es; [|done]. simpl.
  destruct (from_function (bfc_function f)); [|done]. simpl.
  assert (settled scope allow arg) as [_ Hraw].
  { unfold sole_argument in Es. destruct (_ || _ || _); [done|]. destruct (bfc_args f) as [|? []]; try done.
    injection Es as <-. by inversion Hargs. }
  unfold raw in Hraw. rewrite Ew in Hraw. simpl in Hraw.
  destruct (as_column arg); [|done]. simpl in *. by rewrite Hraw.
Qed.

Definition settled_function scope allow node (k : BoundExprKind) : Prop :=
  ∃ f, k = BFunction f ∧ ∀ s, rewrite_function rw_expr scope allow f node s = (BFunction f, s).

Lemma function_fixed scope allow f node :
  (keeps_args scope allow f = true ∨ Forall (settled scope allow) (bfc_args f)) →
  fixed (soption (rw_expr scope false)) (bfc_filter f) →
  fixed (soption (rewrite_window rw_expr scope)) (bfc_over f) →
  settled_function scope allow node (BFunction f).
Proof.
  intros Hargs Hf Ho. exists f. split; [done|]. intros s. unfold rewrite_function, sbind.
  assert ((if keeps_args scope allow f then sret tt else note_near_miss scope allow f node) s = (tt, s)) as ->.
  { destruct (keeps_args scope allow f) eqn:E; [done|]. destruct Hargs as [[=]|Hargs].
    by rewrite settled_call_is_silent. }
  assert ((if keeps_args scope allow f then sret (bfc_args f) else straverse (rw_expr scope allow) (bfc_args f)) s
          = (bfc_args f, s)) as ->.
  { destruct (keeps_args scope allow f) eqn:E; [done|]. destruct Hargs as [[=]|Hargs]. by apply settled_list. }
  rewrite Hf, Ho. unfold sret. by destruct f.
Qed.

Lemma function_settles scope allow f node :
  bound_call_all settles f →
  ensures (rewrite_function rw_expr scope allow f node) (settled_function scope allow node).
Proof.
  intros (Ha & Hf & Ho). unfold rewrite_function. eapply ensures_bind; [apply ensures_any|]. intros _ _.
  destruct (keeps_args scope allow f) eqn:Ek.
  - assert (bfc_filter f = None ∧ bfc_over f = None) as [Ef Eo].
    { unfold keeps_args, is_existing_wrapper, sole_argument in Ek. destruct (wrapping scope allow); [|done].
      destruct (bfc_filter f), (bfc_over f); try done; by rewrite ?orb_true_r in Ek. }
    rewrite Ef, Eo. intros s. unfold sbind, sret. simpl.
    assert (MkBoundFunctionCall (bfc_function f) (bfc_resolved_backend_name f) (bfc_args f) (bfc_distinct f) None None
              (bfc_resolved_signature_name f) = f) as -> by (destruct f; simpl in *; by subst).
    apply function_fixed; [by left|by rewrite Ef|by rewrite Eo].
  - eapply ensures_bind; [by apply settles_list|]. intros args Hargs.
    eapply ensures_bind; [by apply settles_option|]. intros filter Hfilter%settled_option.
    eapply ensures_bind.
    { apply ensures_soption with (P := fixed (rewrite_window rw_expr scope)). intros w Hw.
      apply window_settles. by apply Ho. }
    intros over Hover%fixed_soption. apply ensures_ret. apply function_fixed; [by right|done|done].
Qed.

(** *** Expressions *)

Definition query_settles (q : BoundQueryPlan) : Prop := ensures (rw_query q) (fixed rw_query).

(** The steps of a kind: run the recursive calls, then run them again. *)
Ltac settle_steps :=
  repeat match goal with
  | H : settles ?e |- ensures (sbind (rewrite_expr _ _ _ _ ?e) _) _ =>
      eapply ensures_bind; [apply H|]; intros ? [? _]
  | H : Forall settles ?l |- ensures (sbind (straverse (rewrite_expr _ _ _ _) ?l) _) _ =>
      eapply ensures_bind; [apply (settles_list _ _ _ H)|]; intros ? ?%settled_list
  | H : opt_all settles ?o |- ensures (sbind (soption (rewrite_expr _ _ _ _) ?o) _) _ =>
      eapply ensures_bind; [apply (settles_option _ _ _ H)|]; intros ? ?%settled_option
  | H : query_settles ?q |- ensures (sbind (rewrite_query_plan _ _ ?q) _) _ =>
      eapply ensures_bind; [apply H|]; intros ? ?
  | H : ensures ?m _ |- ensures (sbind ?m _) _ => eapply ensures_bind; [apply H|]; intros ? ?
  end.
Ltac unfold_kinds := unfold rewrite_case, rewrite_between, rewrite_in_list, rewrite_like, rewrite_items in *.
Ltac run_again :=
  apply ensures_ret; split; [|by apply raw_not_column];
  intros ?; simpl; unfold_kinds; unfold sbind; unfold fixed in *;
  repeat match goal with H : ∀ s, _ = (_, s) |- _ => rewrite H; clear H end; done.

Lemma when_then_settles scope allow p :
  settles (bwt_condition p) → settles (bwt_result p) →
  ensures (rewrite_when_then rw_expr scope allow p) (fixed (rewrite_when_then rw_expr scope allow)).
Proof.
  intros Hc Hr. unfold rewrite_when_then. settle_steps. apply ensures_ret. intros s. simpl. unfold sbind.
  unfold fixed in *. repeat match goal with H : ∀ s, _ = (_, s) |- _ => rewrite H; clear H end. done.
Qed.

Lemma when_thens_settle scope allow pairs :
  Forall (λ p, settles (bwt_condition p) ∧ settles (bwt_result p)) pairs →
  ensures (straverse (rewrite_when_then rw_expr scope allow) pairs)
    (fixed (straverse (rewrite_when_then rw_expr scope allow))).
Proof.
  intros Hp. eapply ensures_mono; [|apply fixed_straverse]. apply ensures_straverse.
  eapply Forall_impl; [exact Hp|]. intros p [Hc Hr]. by apply when_then_settles.
Qed.

Lemma column_settles scope allow e column dt nl node :
  as_column e = Some column → be_kind e = BColumn column →
  e = MkBoundExpr (BColumn column) dt nl node →
  ensures (rewrite_column scope allow e column) (λ k, settled scope allow (MkBoundExpr k dt nl node)).
Proof.
  intros Hc Hk He. unfold rewrite_column.
  assert ((s ← wrapping scope allow; resolve_wrapper s (col_relation column) (col_name column)) = raw scope allow e) as ->
    by (unfold raw; by rewrite Hc).
  destruct (raw scope allow e) as [resolved|] eqn:Er.
  - eapply ensures_bind; [apply ensures_any|]. intros _ _. by apply ensures_ret, wrapper_call_fixed.
  - apply ensures_ret. rewrite Hk, <- He. split; [|done]. intros s. rewrite He. simpl. unfold rewrite_column, sbind.
    unfold raw in Er. rewrite Hc in Er. simpl in Er. by rewrite Er.
Qed.

Lemma kind_settles k dt nl node : bound_kind_all query_settles settles k → settles (MkBoundExpr k dt nl node).
Proof.
  intros Hk scope allow. simpl.
  assert (∀ m : state ClickHouseMvSummary BoundExprKind,
    ensures m (λ k', settled scope allow (MkBoundExpr k' dt nl node)) →
    ensures (sbind m (λ k', sret (MkBoundExpr k' dt nl node))) (settled scope allow)) as Hlift.
  { intros m Hm. eapply ensures_bind; [exact Hm|]. intros k' Hk'. by apply ensures_ret. }
  destruct k; simpl in Hk; apply Hlift; clear Hlift; unfold_kinds; try (destruct_and?; settle_steps; run_again).
  - by apply column_settles.
  - eapply ensures_mono; [by apply function_settles|]. intros k (f & -> & Hf).
    split; [|by apply raw_not_column]. intros s. simpl. unfold sbind. by rewrite Hf.
  - destruct Hk as (Ho & Hp & He). pose proof (when_thens_settle scope allow _ Hp). settle_steps. run_again.
Qed.

(** *** Selects *)

Lemma rewrite_uuid_again e :
  rewrite_uuid_arrow_expr enabled (rewrite_uuid_arrow_expr enabled e).1 = ((rewrite_uuid_arrow_expr enabled e).1, false).
Proof.
  unfold rewrite_uuid_arrow_expr. destruct (negb enabled || negb (DataType_eqb (be_data_type e) TUuid) || is_to_string_call e) eqn:E; simpl.
  - by rewrite E.
  - by rewrite orb_true_r.
Qed.

(** The text of a settled expression is settled. *)
Lemma uuid_fixed scope allow e :
  settled scope allow e → fixed (rw_expr scope allow) (rewrite_uuid_arrow_expr enabled e).1.
Proof.
  intros Hs. unfold rewrite_uuid_arrow_expr. destruct (_ || _ || _); [by destruct Hs|].
  intros s. simpl. unfold sbind.
  destruct (function_fixed scope allow
    (MkBoundFunctionCall {| fn_namespace := None; fn_name := "toString" |} None [e] false None None (Some "toString"))
    (be_node e)) as (f & Hf & Hfix); [right; by apply List.Forall_cons|by apply fixed_soption..|].
  injection Hf as <-. by rewrite Hfix.
Qed.

Abbreviation rw_item := (rewrite_projection_item enabled rw_expr).
Definition fixed_item scope (i : BoundProjectionItem) : Prop := ∀ s, rw_item scope i s = ([i], s).

Lemma item_settles scope i :
  (∀ d, i = BPExpr d → settles (bpe_expr d)) → (∀ q fs node, i ≠ BPWildcard q fs node) →
  ensures (rw_item scope i) (Forall (fixed_item scope)).
Proof.
  intros He Hw. destruct i as [q fs node|d|]; [by destruct (Hw q fs node)| |].
  - simpl. eapply ensures_bind; [by apply He|]. intros e Hs.
    pose proof (uuid_fixed _ _ _ Hs) as Hfix. pose proof (rewrite_uuid_again e) as Hag.
    destruct (rewrite_uuid_arrow_expr enabled e) as [e' wrapped]. simpl in Hfix, Hag.
    apply ensures_ret. constructor; [|done]. intros s. simpl. unfold sbind. rewrite Hfix. rewrite Hag. unfold sret.
    by destruct (bpe_alias d), wrapped.
  - apply ensures_ret. by repeat constructor.
Qed.

Lemma fixed_items scope items :
  Forall (fixed_item scope) items → ∀ s, straverse (rw_item scope) items s = (map (λ i, [i]) items, s).
Proof.
  intros Hi s. induction Hi as [|i items Hi _ IH]; [done|]. simpl. unfold sbind. rewrite Hi, IH. done.
Qed.

Lemma mjoin_singletons {A} (l : list A) : mjoin (map (λ i, [i]) l) = l.
Proof. induction l as [|x l IH]; [done|]. simpl. by rewrite IH. Qed.

Lemma group_key_settles scope e :
  settles e → ensures (rewrite_group_key enabled rw_expr scope e) (fixed (rewrite_group_key enabled rw_expr scope)).
Proof.
  intros He. unfold rewrite_group_key. eapply ensures_bind; [apply He|]. intros e' Hs%uuid_fixed. apply ensures_ret.
  intros s. unfold sbind. rewrite Hs. unfold sret. by rewrite rewrite_uuid_again.
Qed.

Definition table_settles (t : BoundTableWithJoins) : Prop := ensures (rw_table t) (fixed rw_table).
Definition relation_settles (r : BoundRelation) : Prop := ensures (rw_relation r) (fixed rw_relation).
Definition set_settles (s : BoundSetExpr) : Prop := ensures (rw_set s) (fixed rw_set).

Lemma select_settles select :
  no_wildcard select → bound_select_all table_settles settles select → set_settles (BSelect select).
Proof.
  intros Hn (Hp & Hf & Hs & Hg & Hh). unfold set_settles.
  simpl. eapply ensures_bind with (P := fixed (rewrite_select catalog enabled rw_expr rw_table)).
  2: { intros select' Hfix. apply ensures_ret. intros s. simpl. unfold sbind. by rewrite Hfix. }
  unfold rewrite_select.
  eapply ensures_bind.
  { by apply ensures_straverse with (P := fixed rw_table). }
  intros from Hfrom%fixed_straverse. set (scope := scope_from_from_clause catalog from).
  eapply ensures_bind.
  { apply ensures_straverse with (P := Forall (fixed_item scope)). apply each_Forall in Hn.
    eapply Forall_impl; [exact (List.Forall_and Hp Hn)|].
    intros i (He & Hni). apply item_settles; [exact He|by intros ??? ->]. }
  intros items Hitems%Forall_join.
  eapply ensures_bind; [by apply settles_option|]. intros selection Hsel%settled_option.
  eapply ensures_bind.
  { apply ensures_straverse with (P := fixed (rewrite_group_key enabled rw_expr scope)).
    eapply Forall_impl; [eassumption|]. apply group_key_settles. }
  intros group_by Hgroup%fixed_straverse.
  eapply ensures_bind; [by apply settles_option|]. intros having Hhaving%settled_option.
  apply ensures_ret. intros s. unfold rewrite_select, sbind. simpl. rewrite Hfrom. fold scope.
  rewrite (fixed_items _ _ Hitems), mjoin_singletons, Hsel, Hgroup, Hhaving. done.
Qed.

(** *** Plans *)

Lemma plans_settle :
  (∀ q, selects_query no_wildcard q → query_settles q) ∧ (∀ s, selects_set_expr no_wildcard s → set_settles s)
  ∧ (∀ t, selects_table no_wildcard t → table_settles t) ∧ (∀ r, selects_relation no_wildcard r → relation_settles r)
  ∧ (∀ e, selects_expr no_wildcard e → settles e).
Proof.
  apply Bound_induction_where; unfold query_settles, set_settles, table_settles, relation_settles.
  - intros node cs body ob lim off bc schema Hcs Hb Hob Hlim Hoff. simpl.
    eapply ensures_bind; [by apply Hb|]. intros body' Hbody.
    eapply ensures_bind.
    { apply ensures_straverse with (P := fixed (λ cte,
        let! query := rw_query (bcte_query cte) in
        sret (MkBoundCte (bcte_name cte) (bcte_columns cte) query (bq_result_schema query) (bcte_node cte)))).
      eapply Forall_impl; [exact Hcs|]. intros c Hc.
      eapply ensures_bind; [by apply Hc|]. intros q Hq. apply ensures_ret. intros s. simpl. unfold sbind. by rewrite Hq. }
    intros ctes Hctes%fixed_straverse.
    eapply ensures_bind; [by apply orders_settle|]. intros order_by Horder.
    eapply ensures_bind; [by apply settles_option|]. intros limit Hlimit%settled_option.
    eapply ensures_bind; [by apply settles_option|]. intros offset Hoffset%settled_option.
    apply ensures_ret. intros s. simpl. unfold sbind at 1. rewrite Hbody. unfold sbind at 1. rewrite Hctes.
    unfold sbind. rewrite Horder, Hlimit, Hoffset. done.
  - apply select_settles.
  - intros l r node schema Hl Hr. simpl.
    eapply ensures_bind; [by apply Hl|]. intros l' Hl'. eapply ensures_bind; [by apply Hr|]. intros r' Hr'.
    apply ensures_ret. intros s. simpl. unfold sbind. by rewrite Hl', Hr'.
  - intros d node schema. by apply ensures_ret.
  - intros r js node Hr Hjs. simpl. eapply ensures_bind; [by apply Hr|]. intros r' Hr'.
    eapply ensures_bind.
    { apply ensures_straverse with (P := fixed (λ join,
        let! relation := rw_relation (bjoin_relation join) in
        let! on := soption (rw_expr None false) (bjoin_on join) in
        sret (MkBoundJoin (bjoin_kind join) relation on (bjoin_node join)))).
      eapply Forall_impl; [exact Hjs|]. intros j [Hjr Hon].
      eapply ensures_bind; [by apply Hjr|]. intros rel Hrel.
      eapply ensures_bind; [by apply settles_option|]. intros on Hon'%settled_option.
      apply ensures_ret. intros s. simpl. unfold sbind. by rewrite Hrel, Hon'. }
    intros joins Hjoins%fixed_straverse. apply ensures_ret. intros s. simpl. unfold sbind at 1. rewrite Hr'.
    unfold sbind at 1. rewrite Hjoins. done.
  - intros b node. by apply ensures_ret.
  - intros b q node Hq. simpl. eapply ensures_bind; [by apply Hq|]. intros q' Hq'.
    apply ensures_ret. intros s. simpl. unfold sbind. by rewrite Hq'.
  - intros b t node Ht. simpl. eapply ensures_bind; [by apply Ht|]. intros t' Ht'.
    apply ensures_ret. intros s. simpl. unfold sbind. by rewrite Ht'.
  - intros d b node. by apply ensures_ret.
  - apply kind_settles.
Qed.

(** ** Every select of a rewritten plan *)

Section Rewritten.
Variables Q P : BoundSelect → Prop.
Hypothesis HP : ∀ select, Q select → ensures (rewrite_select catalog enabled rw_expr rw_table select) P.

Definition expr_good (e : BoundExpr) : Prop := ∀ scope allow, ensures (rw_expr scope allow e) (selects_expr P).
Definition query_good (q : BoundQueryPlan) : Prop := ensures (rw_query q) (selects_query P).

Lemma good_list scope allow l : Forall expr_good l → ensures (straverse (rw_expr scope allow) l) (each (selects_expr P)).
Proof.
  intros Hl. eapply ensures_mono; [|intros l'; apply each_Forall]. apply ensures_straverse.
  eapply Forall_impl; [exact Hl|]. intros e He. apply He.
Qed.

Lemma good_option scope allow o : opt_all expr_good o → ensures (soption (rw_expr scope allow) o) (here (selects_expr P)).
Proof. intros Ho. apply ensures_soption. intros e He. by apply Ho. Qed.

Lemma good_orders scope l :
  Forall (λ o, expr_good (bob_expr o)) l →
  ensures (straverse (rewrite_order_by_expr rw_expr scope false) l) (each (λ o, selects_expr P (bob_expr o))).
Proof.
  intros Hl. eapply ensures_mono; [|intros l'; apply each_Forall]. apply ensures_straverse.
  eapply Forall_impl; [exact Hl|]. intros o Ho. unfold rewrite_order_by_expr.
  eapply ensures_bind; [apply Ho|]. intros e He. by apply ensures_ret.
Qed.

(** The steps of a rewriting, each with what it ensures. *)
Ltac good_steps :=
  repeat match goal with
  | H : expr_good ?e |- ensures (sbind (rewrite_expr _ _ _ _ ?e) _) _ => eapply ensures_bind; [apply H|]; intros ? ?
  | H : Forall expr_good ?l |- ensures (sbind (straverse (rewrite_expr _ _ _ _) ?l) _) _ =>
      eapply ensures_bind; [apply (good_list _ _ _ H)|]; intros ? ?
  | H : opt_all expr_good ?o |- ensures (sbind (soption (rewrite_expr _ _ _ _) ?o) _) _ =>
      eapply ensures_bind; [apply (good_option _ _ _ H)|]; intros ? ?
  | H : Forall (λ o, expr_good (bob_expr o)) ?l |- ensures (sbind (straverse _ ?l) _) _ =>
      eapply ensures_bind; [apply (good_orders _ _ H)|]; intros ? ?
  | H : query_good ?q |- ensures (sbind (rewrite_query_plan _ _ ?q) _) _ => eapply ensures_bind; [apply H|]; intros ? ?
  | H : ensures ?m _ |- ensures (sbind ?m _) _ => eapply ensures_bind; [apply H|]; intros ? ?
  end.

Lemma good_function scope allow f node :
  bound_call_all expr_good f →
  ensures (rewrite_function rw_expr scope allow f node)
    (λ k, ∀ dt nl n, selects_expr P (MkBoundExpr k dt nl n)).
Proof.
  intros (Ha & Hf & Ho). unfold rewrite_function. eapply ensures_bind; [apply ensures_any|]. intros _ _.
  eapply ensures_bind with (P := each (selects_expr P)).
  { destruct (keeps_args scope allow f) eqn:Ek; [|by apply good_list]. apply ensures_ret.
    unfold keeps_args, is_existing_wrapper, sole_argument in Ek. destruct (wrapping scope allow); [|done].
    destruct (_ || _ || _); [done|]. destruct (bfc_args f) as [|[[] ???] []]; done. }
  intros args Hargs. good_steps. eapply ensures_bind.
  { apply ensures_soption with (P := λ w, each (selects_expr P) (bwin_partition_by w)
                                       ∧ each (λ o, selects_expr P (bob_expr o)) (bwin_order_by w)).
    intros w Hw. destruct (Ho w Hw) as [Hp Hob]. unfold rewrite_window. good_steps. by apply ensures_ret. }
  intros over Hover. apply ensures_ret. simpl. auto.
Qed.

Lemma good_kind k dt nl node : bound_kind_all query_good expr_good k → expr_good (MkBoundExpr k dt nl node).
Proof.
  intros Hk scope allow. simpl.
  eapply ensures_bind with (P := λ k, ∀ dt nl n, selects_expr P (MkBoundExpr k dt nl n));
    [|intros k' Hk'; by apply ensures_ret].
  destruct k; simpl in Hk; unfold_kinds; try (destruct_and?; good_steps; by apply ensures_ret).
  - unfold rewrite_column. destruct (_ ≫= _) as [resolved|]; [|by apply ensures_ret].
    eapply ensures_bind; [apply ensures_any|]. intros _ _. apply ensures_ret. by repeat split.
  - by apply good_function.
  - destruct Hk as (Ho & Hp & He). good_steps. eapply ensures_bind.
    { apply ensures_straverse with (P := λ p, selects_expr P (bwt_condition p) ∧ selects_expr P (bwt_result p)).
      eapply Forall_impl; [exact Hp|]. intros p [Hc Hr]. unfold rewrite_when_then. good_steps. by apply ensures_ret. }
    intros pairs Hpairs%each_Forall. good_steps. by apply ensures_ret.
Qed.

Lemma good_item scope i :
  (∀ d, i = BPExpr d → expr_good (bpe_expr d)) →
  ensures (rw_item scope i) (Forall (λ i, match i with BPExpr d => selects_expr P (bpe_expr d) | _ => True end)).
Proof.
  assert (∀ e, selects_expr P e → selects_expr P (rewrite_uuid_arrow_expr enabled e).1) as Huuid.
  { intros e He. unfold rewrite_uuid_arrow_expr. destruct (_ || _ || _); simpl; auto. }
  intros He. destruct i as [q fs node|d|]; simpl; [|specialize (He d eq_refl)|by apply ensures_ret, Forall_singleton].
  - apply ensures_ret. unfold expand_wildcard_projection.
    destruct (target_binding_name scope q) as [b|]; simpl; [|by apply Forall_singleton].
    apply Forall_fmap, Forall_true. intros f. simpl.
    pose proof (Huuid (MkBoundExpr (BColumn {| col_relation := Some b; col_name := field_name f |})
                  (field_type f) (field_nullable f) node) I) as H.
    by destruct (rewrite_uuid_arrow_expr _ _).
  - eapply ensures_bind; [apply He|]. intros e Hgood%Huuid.
    destruct (rewrite_uuid_arrow_expr enabled e). by apply ensures_ret, Forall_singleton.
Qed.

Definition table_good (t : BoundTableWithJoins) : Prop := ensures (rw_table t) (selects_table P).
Definition relation_good (r : BoundRelation) : Prop := ensures (rw_relation r) (selects_relation P).
Definition set_good (s : BoundSetExpr) : Prop := ensures (rw_set s) (selects_set_expr P).

Lemma good_select select :
  Q select → bound_select_all table_good expr_good select → set_good (BSelect select).
Proof.
  intros HQ (Hp & Hf & Hs & Hg & Hh). unfold set_good. simpl.
  eapply ensures_bind with (P := λ select', selects_set_expr P (BSelect select')); [|intros s' Hs'; by apply ensures_ret].
  simpl. apply ensures_and; [by apply HP|]. unfold rewrite_select.
  eapply ensures_bind; [by apply ensures_straverse with (P := selects_table P)|]. intros from Hfrom%each_Forall.
  eapply ensures_bind; [apply ensures_straverse; eapply Forall_impl; [exact Hp|]; intros i Hi; by apply good_item|].
  intros items Hitems%Forall_join%each_Forall. good_steps.
  eapply ensures_bind.
  { apply ensures_straverse with (P := selects_expr P). eapply Forall_impl; [exact Hg|]. intros e He.
    unfold rewrite_group_key. good_steps. apply ensures_ret.
    unfold rewrite_uuid_arrow_expr. destruct (_ || _ || _); simpl; auto. }
  intros group_by Hgroup%each_Forall. good_steps. apply ensures_ret. simpl. by split_and!.
Qed.

Lemma rewritten_good :
  (∀ q, selects_query Q q → query_good q) ∧ (∀ s, selects_set_expr Q s → set_good s)
  ∧ (∀ t, selects_table Q t → table_good t) ∧ (∀ r, selects_relation Q r → relation_good r)
  ∧ (∀ e, selects_expr Q e → expr_good e).
Proof.
  apply Bound_induction_where.
  - intros node cs body ob lim off bc schema Hcs Hb Hob Hlim Hoff. unfold query_good. simpl.
    eapply ensures_bind; [apply Hb|]. intros body' Hbody. eapply ensures_bind.
    { apply ensures_straverse with (P := λ c, selects_query P (bcte_query c)).
      eapply Forall_impl; [exact Hcs|]. intros c Hc. eapply ensures_bind; [apply Hc|]. intros q Hq. by apply ensures_ret. }
    intros ctes Hctes%each_Forall. good_steps. apply ensures_ret. simpl. by split_and!.
  - apply good_select.
  - intros l r node schema Hl Hr. unfold set_good. simpl. eapply ensures_bind; [apply Hl|]. intros l' Hl'.
    eapply ensures_bind; [apply Hr|]. intros r' Hr'. by apply ensures_ret.
  - intros d node schema. by apply ensures_ret.
  - intros r js node Hr Hjs. unfold table_good. simpl. eapply ensures_bind; [apply Hr|]. intros r' Hr'.
    eapply ensures_bind.
    { apply ensures_straverse with (P := λ j, selects_relation P (bjoin_relation j) ∧ here (selects_expr P) (bjoin_on j)).
      eapply Forall_impl; [exact Hjs|]. intros j [Hjr Hon].
      eapply ensures_bind; [apply Hjr|]. intros rel Hrel. good_steps. by apply ensures_ret. }
    intros joins Hjoins%each_Forall. by apply ensures_ret.
  - intros b node. by apply ensures_ret.
  - intros b q node Hq. unfold relation_good. simpl. good_steps. by apply ensures_ret.
  - intros b t node Ht. unfold relation_good. simpl. eapply ensures_bind; [apply Ht|]. intros t' Ht'. by apply ensures_ret.
  - intros d b node. by apply ensures_ret.
  - apply good_kind.
Qed.
End Rewritten.

(** UUIDs are projected as text. *)
Definition text_item (i : BoundProjectionItem) : Prop :=
  match i with
  | BPExpr d => be_data_type (bpe_expr d) = TUuid → is_to_string_call (bpe_expr d) = true
  | _ => True
  end.

Lemma text_uuid e : enabled = true →
  be_data_type (rewrite_uuid_arrow_expr enabled e).1 = TUuid → is_to_string_call (rewrite_uuid_arrow_expr enabled e).1 = true.
Proof.
  intros -> Ht. unfold rewrite_uuid_arrow_expr in *. simpl in *.
  destruct (DataType_eqb_spec (be_data_type e) TUuid) as [E|E]; simpl in *; [|done].
  by destruct (is_to_string_call e) eqn:E'.
Qed.

Lemma select_projects_text select : enabled = true →
  ensures (rewrite_select catalog enabled rw_expr rw_table select) (λ s, each text_item (bsel_projection s)).
Proof.
  intros He. unfold rewrite_select. eapply ensures_bind; [apply ensures_any|]. intros from _.
  set (scope := scope_from_from_clause catalog from).
  eapply ensures_bind.
  { apply ensures_straverse with (P := Forall text_item), Forall_true. intros [q fs node|d|]; simpl.
    - apply ensures_ret. unfold expand_wildcard_projection.
      destruct (target_binding_name scope q) as [b|]; simpl; [|by apply Forall_singleton].
      apply Forall_fmap, Forall_true. intros f. simpl.
      pose proof (text_uuid (MkBoundExpr (BColumn {| col_relation := Some b; col_name := field_name f |})
                  (field_type f) (field_nullable f) node) He) as H.
      by destruct (rewrite_uuid_arrow_expr _ _).
    - eapply ensures_bind; [apply ensures_any|]. intros e _. pose proof (text_uuid e He) as H.
      destruct (rewrite_uuid_arrow_expr enabled e). by apply ensures_ret, Forall_singleton.
    - by apply ensures_ret, Forall_singleton. }
  intros items Hitems%Forall_join%each_Forall. do 3 (eapply ensures_bind; [apply ensures_any|]; intros ? _).
  by apply ensures_ret.
Qed.

(** *** The columns of the result *)

Definition column_names (fs : list ResultField) : list string := List.map field_name fs.

Lemma text_field_name (b : bool) f : field_name (if b then string_result_field f else f) = field_name f.
Proof. by destruct b. Qed.

Lemma item_keeps_names scope i :
  ensures (rw_item scope i) (λ items, column_names (projection_fields items) = column_names (projection_fields [i])).
Proof.
  destruct i as [q fs node|d|]; simpl; [| |by apply ensures_ret].
  - apply ensures_ret. unfold expand_wildcard_projection.
    destruct (target_binding_name scope q) as [b|]; simpl; [|done].
    change (projection_fields [BPWildcard q fs node]) with (fs ++ []). rewrite app_nil_r.
    induction fs as [|f fs IH]; [done|]. unfold projection_fields in *. simpl.
    destruct (rewrite_uuid_arrow_expr _ _) as [e wrapped]. simpl. by rewrite IH, text_field_name.
  - eapply ensures_bind; [apply ensures_any|]. intros e _.
    destruct (rewrite_uuid_arrow_expr enabled e) as [e' wrapped]. apply ensures_ret. simpl. by rewrite text_field_name.
Qed.

Lemma column_names_app fs gs : column_names (fs ++ gs) = column_names fs ++ column_names gs.
Proof. apply List.map_app. Qed.

Lemma projection_fields_app l k : projection_fields (l ++ k) = projection_fields l ++ projection_fields k.
Proof. unfold projection_fields. rewrite List.map_app. induction (List.map _ l) as [|x xs IH]; [done|]. simpl. by rewrite IH, app_assoc. Qed.

Lemma items_keep_names scope items :
  ensures (straverse (rw_item scope) items)
    (λ itemss, column_names (projection_fields (mjoin itemss)) = column_names (projection_fields items)).
Proof.
  induction items as [|i items IH]; [by apply ensures_ret|]. simpl.
  eapply ensures_bind; [apply item_keeps_names|]. intros is' Hi. eapply ensures_bind; [exact IH|]. intros itemss His.
  apply ensures_ret. simpl. rewrite projection_fields_app, column_names_app, Hi, His, <- column_names_app.
  by rewrite <- projection_fields_app.
Qed.

Lemma select_keeps_names select :
  ensures (rewrite_select catalog enabled rw_expr rw_table select)
    (λ s, column_names (fields (bsel_result_schema s)) = column_names (projection_fields (bsel_projection select))).
Proof.
  unfold rewrite_select. eapply ensures_bind; [apply ensures_any|]. intros from _.
  eapply ensures_bind; [apply items_keep_names|]. intros items Hitems.
  do 3 (eapply ensures_bind; [apply ensures_any|]; intros ? _). by apply ensures_ret.
Qed.
(** ** Every aggregate state is merged *)

(** The merge function that the metadata of a column names: that of a state, or
    that of a value that is aggregated as it is. *)
Inductive merges : string → FunctionRef → Prop :=
| merges_state f : f ∈ ["sum"; "count"; "avg"; "stddevpop"] →
    merges (f +:+ "merge") {| fn_namespace := Some "ch"; fn_name := f +:+ "_merge" |}
| merges_value f : f ∈ ["sum"; "count"; "min"; "max"; "avg"] → merges f {| fn_namespace := None; fn_name := f |}.

(** The column of that name of a materialized view is to be merged by the
    function. *)
Record state_column (b : ScopeBinding) (name : string) (function : FunctionRef) : Prop := {
  sc_view : rel_kind (sb_relation b) = RMaterializedView;
  sc_column : ∃ c merge_fn,
    List.find (λ c, eq_ignore_ascii_case (column_name c) name) (rel_columns (sb_relation b)) = Some c
    ∧ bt_get "clickhouse.mv.merge_fn" (extensions (column_metadata c)) = Some merge_fn
    ∧ merges (to_ascii_lowercase merge_fn) function
}.

(** A reference to a column means such a column of the first table in scope that
    has one, among the tables it may mean. *)
Definition state_in_scope (scope : SelectScope) (column : BoundColumnRef) (function : FunctionRef) : Prop :=
  ∃ before b after,
    scope_bindings scope = before ++ b :: after
    ∧ qualifies (col_relation column) b = true ∧ state_column b (col_name column) function
    ∧ ∀ b' f, b' ∈ before → qualifies (col_relation column) b' = true → ¬ state_column b' (col_name column) f.

Lemma from_merge_fn_merges merge_fn f :
  merges (to_ascii_lowercase merge_fn) f ↔ ∃ w, from_merge_fn merge_fn = Some w ∧ ws_function_ref w = f.
Proof.
  unfold from_merge_fn, case_of. generalize (to_ascii_lowercase merge_fn) as m. intros m. split.
  - destruct 1 as [f Hf|f Hf]; repeat (apply elem_of_cons in Hf as [->|Hf]; [by eexists|]); by apply elem_of_nil in Hf.
  - intros (w & Hw & <-). destruct (List.find _ merge_fn_cases) as [[k w']|] eqn:Hf; [|done]. injection Hw as <-.
    apply find_some in Hf as [Hin Hk%String.eqb_eq]. simpl in Hk. subst k.
    repeat (destruct Hin as [[= <- <-]|Hin];
      [first [ apply (merges_state "sum") | apply (merges_state "count") | apply (merges_state "avg")
             | apply (merges_state "stddevpop") | apply merges_value ]; set_solver|]). done.
Qed.

Lemma binding_wrapper_state name b f :
  state_column b name f ↔ ∃ r, binding_wrapper name b = Some r ∧ ws_function_ref (rw_wrapper r) = f.
Proof.
  unfold binding_wrapper. split.
  - intros [Hv (c & m & Hc & Hm & (w & Hw & Hf)%from_merge_fn_merges)]. rewrite Hc, Hv, Hm, Hw. by eexists.
  - intros (r & Hr & Hf). destruct (List.find _ _) as [c|] eqn:Hc; [|done].
    destruct (rel_kind _) eqn:Hv; try done. destruct (bt_get _ _) as [m|] eqn:Hm; [|done].
    destruct (from_merge_fn m) as [w|] eqn:Hw; [|done]. injection Hr as <-.
    constructor; [done|]. exists c, m. split_and!; [done..|]. apply from_merge_fn_merges. by exists w.
Qed.

Lemma resolve_wrapper_state scope column f :
  state_in_scope scope column f
  ↔ ∃ r, resolve_wrapper scope (col_relation column) (col_name column) = Some r ∧ ws_function_ref (rw_wrapper r) = f.
Proof.
  unfold state_in_scope, resolve_wrapper. induction (scope_bindings scope) as [|b bs IH]; simpl.
  { split; [by intros ([|??] & ? & ? & ? & _)|by intros (? & ? & _)]. }
  destruct (qualifies (col_relation column) b) eqn:Hq; simpl.
  - destruct (binding_wrapper (col_name column) b) as [r|] eqn:Hr; simpl.
    + split.
      * intros (before & b' & after & Heq & _ & Hs & Hno). destruct before as [|x before].
        { injection Heq as <- _. apply binding_wrapper_state in Hs as (r' & Hr' & Hf). exists r'. split; [congruence|done]. }
        injection Heq as <- _. destruct (Hno b (ws_function_ref (rw_wrapper r))); [set_solver|done|].
        apply binding_wrapper_state. by exists r.
      * intros (r' & [= <-] & Hf). exists [], b, bs. split_and!; [done|done| |set_solver].
        apply binding_wrapper_state. by exists r.
    + rewrite <- IH. split.
      * intros (before & b' & after & Heq & Hq' & Hs & Hno). destruct before as [|x before].
        { injection Heq as <- _. apply binding_wrapper_state in Hs as (r' & Hr' & _). congruence. }
        injection Heq as <- Heq. exists before, b', after. split_and!; [done..|]. intros b0 g Hb0. apply Hno. set_solver.
      * intros (before & b' & after & Heq & Hq' & Hs & Hno). exists (b :: before), b', after.
        split_and!; [by rewrite Heq|done..|]. intros b0 g [->|Hb0]%elem_of_cons; [|by apply Hno].
        intros _ (r' & Hr' & _)%binding_wrapper_state. congruence.
  - rewrite <- IH. split.
    + intros (before & b' & after & Heq & Hq' & Hs & Hno). destruct before as [|x before].
      { injection Heq as <- _. congruence. }
      injection Heq as <- Heq. exists before, b', after. split_and!; [done..|]. intros b0 g Hb0. apply Hno. set_solver.
    + intros (before & b' & after & Heq & Hq' & Hs & Hno). exists (b :: before), b', after.
      split_and!; [by rewrite Heq|done..|]. intros b0 g [->|Hb0]%elem_of_cons; [congruence|by apply Hno].
Qed.

Definition same_function (f g : FunctionRef) : Prop :=
  to_ascii_lowercase (fn_name f) = to_ascii_lowercase (fn_name g)
  ∧ to_ascii_lowercase <$> fn_namespace f = to_ascii_lowercase <$> fn_namespace g.

(** The call is the merge function of the one column it is applied to. *)
Definition merge_call (scope : SelectScope) (f : BoundFunctionCall) : Prop :=
  ∃ arg column function,
    sole_argument f = Some arg ∧ as_column arg = Some column ∧ state_in_scope scope column function
    ∧ same_function (bfc_function f) function.

(** No aggregate state occurs other than in a call of its merge function.  The
    filter and the window of a call, and the selects of subqueries, have their
    own rules. *)
Fixpoint merged (scope : SelectScope) (e : BoundExpr) : Prop :=
  match e with
  | MkBoundExpr kind _ _ _ =>
      match kind with
      | BColumn column => ∀ function, ¬ state_in_scope scope column function
      | BFunction f => merge_call scope f ∨ each (merged scope) (bfc_args f)
      | BUnary _ e | BCast e _ | BIsNull e _ => merged scope e
      | BBinary _ l r => merged scope l ∧ merged scope r
      | BCase operand pairs else_result =>
          here (merged scope) operand
          ∧ each (λ p, merged scope (bwt_condition p) ∧ merged scope (bwt_result p)) pairs
          ∧ here (merged scope) else_result
      | BBetween e low high _ => merged scope e ∧ merged scope low ∧ merged scope high
      | BInList e items _ => merged scope e ∧ each (merged scope) items
      | BInSubquery e _ _ => merged scope e
      | BLike e p _ _ => merged scope e ∧ merged scope p
      | BTuple items | BArray items => each (merged scope) items
      | BScalarSubquery _ | BExists _ | BLiteral _ | BParameter _ | BUnsupported _ => True
      end
  end.

(** The select merges the states it projects and those in its [HAVING]. *)
Definition merged_select (select : BoundSelect) : Prop :=
  let scope := scope_from_from_clause catalog (bsel_from select) in
  each (λ i, match i with BPExpr d => merged scope (bpe_expr d) | _ => True end) (bsel_projection select)
  ∧ here (merged scope) (bsel_having select).

Lemma ws_matches_same w f : ws_matches w f = true → same_function f (ws_function_ref w).
Proof.
  unfold ws_matches, same_function, eq_ignore_ascii_case. intros [Hn%String.eqb_eq Hns]%andb_true_iff. split; [done|]. simpl.
  destruct (ws_namespace w), (fn_namespace f); try done. simpl. apply String.eqb_eq in Hns. by rewrite Hns.
Qed.

Section Merged.
Variable scope : SelectScope.
#[local] Abbreviation merges_to := (λ e, ensures (rw_expr (Some scope) true e) (merged scope)).

Lemma merged_list l :
  Forall merges_to l → ensures (straverse (rw_expr (Some scope) true) l) (each (merged scope)).
Proof. intros Hl. eapply ensures_mono; [|intros l'; apply each_Forall]. by apply ensures_straverse. Qed.

Lemma merged_function f node :
  Forall merges_to (bfc_args f) →
  ensures (rewrite_function rw_expr (Some scope) true f node) (λ k, ∀ dt nl n, merged scope (MkBoundExpr k dt nl n)).
Proof.
  intros Ha. unfold rewrite_function, keeps_args. simpl. eapply ensures_bind; [apply ensures_any|]. intros _ _.
  destruct (is_existing_wrapper f scope) eqn:Ew.
  - unfold is_existing_wrapper in Ew. destruct (sole_argument f) as [arg|] eqn:Es; [|done]. simpl in Ew.
    destruct (as_column arg) as [column|] eqn:Ec; [|done]. simpl in Ew.
    destruct (resolve_wrapper _ _ _) as [r|] eqn:Er; [|done].
    assert (bfc_filter f = None ∧ bfc_over f = None) as [Ef Eo].
    { unfold sole_argument in Es. destruct (bfc_filter f), (bfc_over f); try done; by rewrite ?orb_true_r in Es. }
    rewrite Ef, Eo. intros s. unfold sbind, sret. simpl. intros _ _ _. left. exists arg, column, (ws_function_ref (rw_wrapper r)).
    split_and!; [|done|by apply resolve_wrapper_state; eexists|by apply ws_matches_same].
    rewrite <- Es. unfold sole_argument. simpl. by rewrite Ef, Eo.
  - eapply ensures_bind; [by apply merged_list|]. intros args Hargs.
    do 2 (eapply ensures_bind; [apply ensures_any|]; intros ? _). apply ensures_ret. intros _ _ _. by right.
Qed.

Ltac merged_steps :=
  repeat match goal with
  | H : ensures ?m _ |- ensures (sbind ?m _) _ => eapply ensures_bind; [apply H|]; intros ? ?
  | H : Forall merges_to ?l |- ensures (sbind (straverse (rewrite_expr _ _ _ _) ?l) _) _ =>
      eapply ensures_bind; [apply (merged_list _ H)|]; intros ? ?
  | H : opt_all merges_to ?o |- ensures (sbind (soption (rewrite_expr _ _ _ _) ?o) _) _ =>
      eapply ensures_bind; [apply (ensures_soption _ _ _ H)|]; intros ? ?
  | |- ensures (sbind (rewrite_query_plan _ _ _) _) _ => eapply ensures_bind; [apply ensures_any|]; intros ? _
  end.

Lemma rewritten_merged : ∀ e, merges_to e.
Proof.
  apply (Bound_induction (λ _, True) (λ _, True) (λ _, True) (λ _, True) merges_to); try done.
  intros k dt nl node Hk. simpl.
  eapply ensures_bind with (P := λ k, ∀ dt nl n, merged scope (MkBoundExpr k dt nl n));
    [|intros k' Hk'; by apply ensures_ret].
  destruct k; simpl in Hk; unfold_kinds; try (destruct_and?; merged_steps; by apply ensures_ret).
  - unfold rewrite_column. simpl. destruct (resolve_wrapper _ _ _) as [r|] eqn:Er.
    + eapply ensures_bind; [apply ensures_any|]. intros _ _. apply ensures_ret. intros _ _ _. left.
      eexists _, column, (ws_function_ref (rw_wrapper r)).
      split_and!; [done|done|by apply resolve_wrapper_state; eexists|by apply ws_matches_same, ws_matches_itself].
    + apply ensures_ret. simpl. intros _ _ _ f (r & Hr & _)%resolve_wrapper_state. congruence.
  - destruct Hk as (Ha & _). by apply merged_function.
  - destruct Hk as (Ho & Hp & He). merged_steps. eapply ensures_bind.
    { apply ensures_straverse with (P := λ p, merged scope (bwt_condition p) ∧ merged scope (bwt_result p)).
      eapply Forall_impl; [exact Hp|]. intros p [Hc Hr]. unfold rewrite_when_then. merged_steps. by apply ensures_ret. }
    intros pairs Hpairs%each_Forall. merged_steps. by apply ensures_ret.
Qed.

Lemma merged_item i :
  (∀ q fs node, i ≠ BPWildcard q fs node) →
  ensures (rw_item scope i) (Forall (λ i, match i with BPExpr d => merged scope (bpe_expr d) | _ => True end)).
Proof.
  intros Hw. destruct i as [q fs node|d|]; [by destruct (Hw q fs node)| |by apply ensures_ret, Forall_singleton]. simpl.
  eapply ensures_bind; [apply rewritten_merged|]. intros e He.
  assert (Hu : merged scope (rewrite_uuid_arrow_expr enabled e).1).
  { unfold rewrite_uuid_arrow_expr. destruct (_ || _ || _); simpl; auto. }
  destruct (rewrite_uuid_arrow_expr enabled e). by apply ensures_ret, Forall_singleton.
Qed.
End Merged.

Lemma select_merges select :
  no_wildcard select → ensures (rewrite_select catalog enabled rw_expr rw_table select) merged_select.
Proof.
  intros Hn%each_Forall. unfold rewrite_select. eapply ensures_bind; [apply ensures_any|]. intros from _.
  set (scope := scope_from_from_clause catalog from). eapply ensures_bind.
  { apply ensures_straverse with
      (P := Forall (λ i, match i with BPExpr d => merged scope (bpe_expr d) | _ => True end)).
    eapply Forall_impl; [exact Hn|]. intros i Hi. apply merged_item. by intros ??? ->. }
  intros items Hitems%Forall_join%each_Forall. do 2 (eapply ensures_bind; [apply ensures_any|]; intros ? _).
  eapply ensures_bind; [apply ensures_soption with (P := merged scope); intros e _; apply rewritten_merged|].
  intros having Hhaving. by apply ensures_ret.
Qed.
(** ** Nothing else is changed

    [erase_query] takes the calls that the rewriting adds out of a plan: a merge
    function where it is applied to a column it merges, and [toString] of a
    UUID; and it forgets the schemas, and the name and the type that an output
    column is given with such a call. *)

Definition text_of_uuid (f : BoundFunctionCall) : bool :=
  match sole_argument f with
  | Some arg => bool_decide (bfc_function f = {| fn_namespace := None; fn_name := "toString" |})
                && DataType_eqb (be_data_type arg) TUuid
  | None => false
  end.

Definition merge_of_state (scope : option SelectScope) (allow : bool) (f : BoundFunctionCall) : bool :=
  match arg ← sole_argument f; resolved ← raw scope allow arg; Some (ws_function_ref (rw_wrapper resolved)) with
  | Some function => bool_decide (bfc_function f = function)
  | None => false
  end.

Definition no_schema : ResultSchema := {| fields := []; schema_metadata := [] |}.

Fixpoint erase_query (q : BoundQueryPlan) : BoundQueryPlan :=
  match q with
  | MkBoundQueryPlan node cs body order_by limit offset clauses _ =>
      MkBoundQueryPlan node
        (List.map (λ c, MkBoundCte (bcte_name c) (bcte_columns c) (erase_query (bcte_query c)) no_schema (bcte_node c)) cs)
        (erase_set body)
        (List.map (λ o, MkBoundOrderByExpr (erase_expr None false (bob_expr o)) (bob_asc o) (bob_nulls_first o) (bob_node o))
           order_by)
        (option_map (erase_expr None false) limit) (option_map (erase_expr None false) offset) clauses no_schema
  end
with erase_set (s : BoundSetExpr) : BoundSetExpr :=
  match s with
  | BSelect select =>
      let scope := Some (scope_from_from_clause catalog (bsel_from select)) in
      BSelect (MkBoundSelect (bsel_distinct select)
        (List.map (λ i,
           match i with
           | BPExpr d =>
               BPExpr (MkBoundProjectionExpr (erase_expr scope true (bpe_expr d))
                         (Some (default (field_name (bpe_field d)) (bpe_alias d))) (string_result_field (bpe_field d))
                         (bpe_node d))
           | i => i
           end) (bsel_projection select))
        (List.map erase_table (bsel_from select)) (option_map (erase_expr scope false) (bsel_selection select))
        (List.map (erase_expr scope false) (bsel_group_by select)) (option_map (erase_expr scope true) (bsel_having select))
        no_schema (bsel_node select))
  | BUnionAll l r node _ => BUnionAll (erase_set l) (erase_set r) node no_schema
  | BSetUnsupported description node schema => BSetUnsupported description node schema
  end
with erase_table (t : BoundTableWithJoins) : BoundTableWithJoins :=
  match t with
  | MkBoundTableWithJoins r js node =>
      MkBoundTableWithJoins (erase_relation r)
        (List.map (λ j, MkBoundJoin (bjoin_kind j) (erase_relation (bjoin_relation j))
                          (option_map (erase_expr None false) (bjoin_on j)) (bjoin_node j)) js) node
  end
with erase_relation (r : BoundRelation) : BoundRelation :=
  match r with
  | BTable b node => BTable b node
  | BDerived b q node => BDerived b (erase_query q) node
  | BNestedJoin b t node => BNestedJoin b (erase_table t) node
  | BRelUnsupported description b node => BRelUnsupported description b node
  end
with erase_expr (scope : option SelectScope) (allow : bool) (e : BoundExpr) : BoundExpr :=
  match e with
  | MkBoundExpr kind data_type nullable node =>
      let go := erase_expr scope allow in
      let keep k := MkBoundExpr k data_type nullable node in
      match kind with
      | BUnary op e => keep (BUnary op (go e))
      | BBinary op l r => keep (BBinary op (go l) (go r))
      | BFunction f =>
          let call := keep (BFunction (MkBoundFunctionCall (bfc_function f) (bfc_resolved_backend_name f)
            (List.map go (bfc_args f)) (bfc_distinct f) (option_map (erase_expr scope false) (bfc_filter f))
            (option_map (λ w, MkBoundWindowSpec (List.map (erase_expr scope false) (bwin_partition_by w))
               (List.map (λ o, MkBoundOrderByExpr (erase_expr scope false (bob_expr o)) (bob_asc o) (bob_nulls_first o)
                                 (bob_node o)) (bwin_order_by w)) (bwin_node w)) (bfc_over f))
            (bfc_resolved_signature_name f))) in
          match bfc_args f with
          | [arg] => if merge_of_state scope allow f || text_of_uuid f then go arg else call
          | _ => call
          end
      | BCase operand pairs else_result =>
          keep (BCase (option_map go operand)
                  (List.map (λ p, MkBoundWhenThen (go (bwt_condition p)) (go (bwt_result p))) pairs)
                  (option_map go else_result))
      | BCast e t => keep (BCast (go e) t)
      | BBetween e low high negated => keep (BBetween (go e) (go low) (go high) negated)
      | BInList e items negated => keep (BInList (go e) (List.map go items) negated)
      | BInSubquery e q negated => keep (BInSubquery (go e) (erase_query q) negated)
      | BScalarSubquery q => keep (BScalarSubquery (erase_query q))
      | BExists q => keep (BExists (erase_query q))
      | BLike e p negated case_insensitive => keep (BLike (go e) (go p) negated case_insensitive)
      | BIsNull e negated => keep (BIsNull (go e) negated)
      | BTuple items => keep (BTuple (List.map go items))
      | BArray items => keep (BArray (List.map go items))
      | BColumn _ | BLiteral _ | BParameter _ | BUnsupported _ => keep kind
      end
  end.
Lemma map_same {A B} (f : A → B) (R : A → A → Prop) l l' :
  (∀ x y, R x y → f y = f x) → Forall2 R l l' → List.map f l' = List.map f l.
Proof. intros HR. induction 1 as [|x y l l' Hx _ IH]; [done|]. simpl. by rewrite IH, (HR x y). Qed.

Lemma option_same {A B} (f : A → B) (R : A → A → Prop) o o' :
  (∀ x y, R x y → f y = f x) → option_Forall2 R o o' → option_map f o' = option_map f o.
Proof. intros HR. destruct 1 as [x y Hx|]; [|done]. simpl. by rewrite (HR x y). Qed.

(** A rewritten expression: the same but for the calls, of the same type, and no
    state that still waits for its merge function. *)
Record erases scope allow (e e' : BoundExpr) : Prop := {
  er_same : erase_expr scope allow e' = erase_expr scope allow e;
  er_type : be_data_type e' = be_data_type e;
  er_raw : raw scope allow e' = None
}.
Definition expr_erases (e : BoundExpr) : Prop := ∀ scope allow, ensures (rw_expr scope allow e) (erases scope allow e).

Lemma erased_list scope allow l :
  Forall expr_erases l →
  ensures (straverse (rw_expr scope allow) l) (Forall2 (erases scope allow) l).
Proof. intros Hl. apply ensures_straverse2. eapply Forall_impl; [exact Hl|]. intros e He. apply He. Qed.

Lemma erased_option scope allow o :
  opt_all expr_erases o → ensures (soption (rw_expr scope allow) o) (option_Forall2 (erases scope allow) o).
Proof. intros Ho. apply ensures_soption2. intros e He. by apply Ho. Qed.

Lemma list_same scope allow l l' :
  Forall2 (erases scope allow) l l' → List.map (erase_expr scope allow) l' = List.map (erase_expr scope allow) l.
Proof. apply map_same. by intros x y []. Qed.

Lemma opt_same scope allow o o' :
  option_Forall2 (erases scope allow) o o' → option_map (erase_expr scope allow) o' = option_map (erase_expr scope allow) o.
Proof. apply option_same. by intros x y []. Qed.

#[local] Abbreviation erase_order := (λ scope o,
  MkBoundOrderByExpr (erase_expr scope false (bob_expr o)) (bob_asc o) (bob_nulls_first o) (bob_node o)).
#[local] Abbreviation erase_window := (λ scope w,
  MkBoundWindowSpec (List.map (erase_expr scope false) (bwin_partition_by w))
    (List.map (erase_order scope) (bwin_order_by w)) (bwin_node w)).

Lemma orders_erase scope l :
  Forall (λ o, expr_erases (bob_expr o)) l →
  ensures (straverse (rewrite_order_by_expr rw_expr scope false) l)
    (λ l', List.map (erase_order scope) l' = List.map (erase_order scope) l).
Proof.
  intros Hl. eapply ensures_mono; [|intros l'; apply (map_same _ (λ o o', erase_order scope o' = erase_order scope o)); done].
  apply ensures_straverse2. eapply Forall_impl; [exact Hl|]. intros o Ho. unfold rewrite_order_by_expr.
  eapply ensures_bind; [apply Ho|]. intros e [He _ _]. apply ensures_ret. simpl. by rewrite He.
Qed.

Lemma window_erases scope w :
  bound_window_all expr_erases w →
  ensures (rewrite_window rw_expr scope w) (λ w', erase_window scope w' = erase_window scope w).
Proof.
  intros [Hp Ho]. unfold rewrite_window. eapply ensures_bind; [by apply erased_list|]. intros ps Hps%list_same.
  eapply ensures_bind; [by apply orders_erase|]. intros os Hos. apply ensures_ret. simpl. by rewrite Hps, Hos.
Qed.

(** A call whose arguments were rewritten is erased exactly if the call was. *)
Lemma same_call_erased scope allow f f' arg arg' :
  bfc_args f = [arg] → bfc_args f' = [arg'] → erases scope allow arg arg' → keeps_args scope allow f = false →
  bfc_function f' = bfc_function f → bfc_distinct f' = bfc_distinct f →
  is_some (bfc_filter f') = is_some (bfc_filter f) → is_some (bfc_over f') = is_some (bfc_over f) →
  merge_of_state scope allow f' || text_of_uuid f' = merge_of_state scope allow f || text_of_uuid f.
Proof.
  intros Ha Ha' [_ Ht Hr] Hk Hf Hd Hfi Ho.
  assert (merge_of_state scope allow f' = false) as ->.
  { unfold merge_of_state, sole_argument. destruct (_ || _ || _); [done|]. rewrite Ha'. simpl. by rewrite Hr. }
  assert (merge_of_state scope allow f = false) as ->.
  { unfold merge_of_state, sole_argument. destruct (_ || _ || _) eqn:Es; [done|]. rewrite Ha. simpl.
    destruct (raw scope allow arg) as [r|] eqn:Er; [|done]. simpl. case_bool_decide as Hfn; [|done].
    unfold keeps_args, is_existing_wrapper, sole_argument in Hk. rewrite Es, Ha in Hk. unfold raw in Er.
    destruct (wrapping scope allow) as [s|]; [|done]. simpl in *. destruct (as_column arg) as [c|]; [|done]. simpl in *.
    rewrite Er, Hfn, ws_matches_itself in Hk. done. }
  simpl. unfold text_of_uuid, sole_argument. rewrite Hd, Hfi, Ho, Ha, Ha', Hf. destruct (_ || _ || _); [done|]. by rewrite Ht.
Qed.

Lemma function_erases scope allow f node dt nl :
  bound_call_all expr_erases f →
  ensures (rewrite_function rw_expr scope allow f node)
    (λ k, erases scope allow (MkBoundExpr (BFunction f) dt nl node) (MkBoundExpr k dt nl node)).
Proof.
  intros (Ha & Hf & Ho). unfold rewrite_function. eapply ensures_bind; [apply ensures_any|]. intros _ _.
  destruct (keeps_args scope allow f) eqn:Ek.
  - assert (bfc_filter f = None ∧ bfc_over f = None) as [Ef Eo].
    { unfold keeps_args, is_existing_wrapper, sole_argument in Ek. destruct (wrapping scope allow); [|done].
      destruct (bfc_filter f), (bfc_over f); try done; by rewrite ?orb_true_r in Ek. }
    rewrite Ef, Eo. intros s. unfold sbind, sret. simpl.
    assert (MkBoundFunctionCall (bfc_function f) (bfc_resolved_backend_name f) (bfc_args f) (bfc_distinct f) None None
              (bfc_resolved_signature_name f) = f) as -> by (destruct f; simpl in *; by subst).
    constructor; [done|done|by apply raw_not_column].
  - eapply ensures_bind; [by apply erased_list|]. intros args Hargs.
    eapply ensures_bind; [by apply erased_option|]. intros filter Hfilter.
    eapply ensures_bind with (P := option_Forall2 (λ w w', erase_window scope w' = erase_window scope w) (bfc_over f)).
    { apply ensures_soption2. intros w Hw. apply window_erases. by apply Ho. }
    intros over Hover. apply ensures_ret. constructor; [|done|by apply raw_not_column].
    pose proof (list_same _ _ _ _ Hargs) as Ea. pose proof (opt_same _ _ _ _ Hfilter) as Ef.
    pose proof (option_same (erase_window scope) _ _ _ (λ x y H, H) Hover) as Eo.
    simpl. rewrite Ea, Ef, Eo. remember (bfc_args f) as fargs eqn:Eargs.
    destruct Hargs as [|arg arg' l l' Harg Hl]; [done|]. destruct Hl; [|done].
    rewrite (same_call_erased scope allow f _ arg arg'); try done; simpl.
    + by rewrite (er_same _ _ _ _ Harg).
    + by destruct Hfilter.
    + by destruct Hover.
Qed.

(** The steps of a rewriting, each with what it keeps. *)
Ltac erase_steps :=
  repeat match goal with
  | H : expr_erases ?e |- ensures (sbind (rewrite_expr _ _ _ _ ?e) _) _ =>
      eapply ensures_bind; [apply H|]; intros ? [? _ _]
  | H : Forall expr_erases ?l |- ensures (sbind (straverse (rewrite_expr _ _ _ _) ?l) _) _ =>
      eapply ensures_bind; [apply (erased_list _ _ _ H)|]; intros ? ?%list_same
  | H : opt_all expr_erases ?o |- ensures (sbind (soption (rewrite_expr _ _ _ _) ?o) _) _ =>
      eapply ensures_bind; [apply (erased_option _ _ _ H)|]; intros ? ?%opt_same
  | H : Forall (λ o, expr_erases (bob_expr o)) ?l |- ensures (sbind (straverse _ ?l) _) _ =>
      eapply ensures_bind; [apply (orders_erase _ _ H)|]; intros ? ?
  | H : ensures ?m _ |- ensures (sbind ?m _) _ => eapply ensures_bind; [apply H|]; intros ? ?
  end.
Ltac same_parts := simpl; cbn beta in *; repeat match goal with H : _ = _ |- _ => rewrite H; clear H end; done.

Definition query_erases (q : BoundQueryPlan) : Prop := ensures (rw_query q) (λ q', erase_query q' = erase_query q).

Lemma kind_erases k dt nl node : bound_kind_all query_erases expr_erases k → expr_erases (MkBoundExpr k dt nl node).
Proof.
  intros Hk scope allow. simpl.
  eapply ensures_bind with (P := λ k', erases scope allow (MkBoundExpr k dt nl node) (MkBoundExpr k' dt nl node));
    [|intros k' Hk'; by apply ensures_ret].
  destruct k; simpl in Hk; unfold_kinds; unfold query_erases in *;
    try (destruct_and?; erase_steps; apply ensures_ret; constructor; [same_parts|done|by apply raw_not_column]).
  - unfold rewrite_column. destruct (_ ≫= _) as [r|] eqn:Er.
    + eapply ensures_bind; [apply ensures_any|]. intros _ _. apply ensures_ret.
      constructor; [|done|by apply raw_not_column]. simpl. unfold merge_of_state. simpl. unfold raw. simpl. rewrite Er. simpl.
      by rewrite bool_decide_true.
    + apply ensures_ret. by constructor.
  - by apply function_erases.
  - destruct Hk as (Ho & Hp & He). erase_steps.
    eapply ensures_bind.
    { apply ensures_straverse2 with (R := λ p p', erase_expr scope allow (bwt_condition p') = erase_expr scope allow (bwt_condition p)
        ∧ erase_expr scope allow (bwt_result p') = erase_expr scope allow (bwt_result p)).
      eapply Forall_impl; [exact Hp|]. intros p [Hc Hr]. unfold rewrite_when_then. erase_steps. by apply ensures_ret. }
    intros pairs Hpairs. eapply (map_same (λ p, MkBoundWhenThen (erase_expr scope allow (bwt_condition p))
      (erase_expr scope allow (bwt_result p)))) in Hpairs; [|intros p p' [-> ->]; done].
    erase_steps. apply ensures_ret. constructor; [same_parts|done|by apply raw_not_column].
Qed.

Lemma uuid_erased scope allow e :
  raw scope allow e = None →
  erase_expr scope allow (rewrite_uuid_arrow_expr enabled e).1 = erase_expr scope allow e.
Proof.
  intros Hr. unfold rewrite_uuid_arrow_expr. destruct (_ || _ || _) eqn:E; [done|]. simpl.
  unfold merge_of_state, text_of_uuid. simpl. rewrite Hr. simpl.
  apply orb_false_iff in E as [[_ E%negb_false_iff]%orb_false_iff _]. by rewrite E.
Qed.

(** *** The tables of a select keep the columns in scope *)

Definition binds_table (t : BoundTableWithJoins) (sc : SelectScope) : SelectScope :=
  fold_left (λ scope join, collect_relation_bindings catalog (bjoin_relation join) scope) (bt_joins t)
    (collect_relation_bindings catalog (bt_relation t) sc).

Record relation_kept (r r' : BoundRelation) : Prop := {
  rk_same : erase_relation r' = erase_relation r;
  rk_binds : ∀ sc, collect_relation_bindings catalog r' sc = collect_relation_bindings catalog r sc
}.
Record table_kept (t t' : BoundTableWithJoins) : Prop := {
  tk_same : erase_table t' = erase_table t;
  tk_binds : ∀ sc, binds_table t' sc = binds_table t sc
}.

Lemma from_binds from from' :
  Forall2 table_kept from from' → scope_from_from_clause catalog from' = scope_from_from_clause catalog from.
Proof.
  intros H. unfold scope_from_from_clause. generalize SelectScope_default as sc.
  induction H as [|t t' from from' Ht _ IH]; intros sc; [done|]. simpl. rewrite IH. f_equal. apply (tk_binds _ _ Ht).
Qed.

Lemma table_is_kept r js node r' js' :
  relation_kept r r' →
  Forall2 (λ j j', relation_kept (bjoin_relation j) (bjoin_relation j')
    ∧ option_map (erase_expr None false) (bjoin_on j') = option_map (erase_expr None false) (bjoin_on j)
    ∧ bjoin_kind j' = bjoin_kind j ∧ bjoin_node j' = bjoin_node j) js js' →
  table_kept (MkBoundTableWithJoins r js node) (MkBoundTableWithJoins r' js' node).
Proof.
  intros [Hr Hb] Hjs. constructor.
  - simpl. rewrite Hr. f_equal. eapply map_same; [|exact Hjs]. intros j j' ([Hjr _] & Hon & Hk & Hn).
    by rewrite Hjr, Hon, Hk, Hn.
  - intros sc. unfold binds_table. simpl. rewrite Hb. generalize (collect_relation_bindings catalog r sc) as sc'.
    induction Hjs as [|j j' js js' ([_ Hj] & _) _ IH]; intros sc'; [done|]. simpl. by rewrite Hj, IH.
Qed.
Definition relation_erases (r : BoundRelation) : Prop := ensures (rw_relation r) (relation_kept r).
Definition table_erases (t : BoundTableWithJoins) : Prop := ensures (rw_table t) (table_kept t).
Definition set_erases (s : BoundSetExpr) : Prop := ensures (rw_set s) (λ s', erase_set s' = erase_set s).

#[local] Abbreviation erase_item := (λ scope i,
  match i with
  | BPExpr d =>
      BPExpr (MkBoundProjectionExpr (erase_expr scope true (bpe_expr d))
                (Some (default (field_name (bpe_field d)) (bpe_alias d))) (string_result_field (bpe_field d)) (bpe_node d))
  | i => i
  end).

Lemma item_erases scope i :
  (∀ d, i = BPExpr d → expr_erases (bpe_expr d)) → (∀ q fs node, i ≠ BPWildcard q fs node) →
  ensures (rw_item scope i) (λ is', List.map (erase_item (Some scope)) is' = [erase_item (Some scope) i]).
Proof.
  intros He Hw. destruct i as [q fs node|d|]; [by destruct (Hw q fs node)| |by apply ensures_ret]. simpl.
  eapply ensures_bind; [by apply He|]. intros e [Hs _ Hr]. pose proof (uuid_erased _ _ _ Hr) as Hu.
  destruct (rewrite_uuid_arrow_expr enabled e) as [e' wrapped]. simpl in Hu. apply ensures_ret. simpl. rewrite Hu, Hs.
  by destruct wrapped, (bpe_alias d).
Qed.

Lemma items_erase scope items :
  Forall (λ i, ensures (rw_item scope i) (λ is', List.map (erase_item (Some scope)) is' = [erase_item (Some scope) i])) items →
  ensures (straverse (rw_item scope) items)
    (λ itemss, List.map (erase_item (Some scope)) (mjoin itemss) = List.map (erase_item (Some scope)) items).
Proof.
  induction 1 as [|i items Hi _ IH]; [by apply ensures_ret|]. simpl.
  eapply ensures_bind; [exact Hi|]. intros is' His. eapply ensures_bind; [exact IH|]. intros itemss Hitems.
  apply ensures_ret. simpl. rewrite List.map_app, His. simpl in *. by rewrite Hitems.
Qed.

Lemma group_keys_erase scope l :
  Forall expr_erases l →
  ensures (straverse (rewrite_group_key enabled rw_expr scope) l)
    (λ l', List.map (erase_expr (Some scope) false) l' = List.map (erase_expr (Some scope) false) l).
Proof.
  intros Hl. eapply ensures_mono; [|intros l'; apply (map_same _ (λ e e', erase_expr (Some scope) false e' = erase_expr (Some scope) false e)); done].
  apply ensures_straverse2. eapply Forall_impl; [exact Hl|]. intros e He. unfold rewrite_group_key.
  eapply ensures_bind; [apply He|]. intros e' [Hs _ Hr]. apply ensures_ret. by rewrite uuid_erased.
Qed.

Lemma select_erases select :
  no_wildcard select → bound_select_all table_erases expr_erases select → set_erases (BSelect select).
Proof.
  intros Hn%each_Forall (Hp & Hf & Hs & Hg & Hh). unfold set_erases. simpl.
  eapply ensures_bind with (P := λ select', erase_set (BSelect select') = erase_set (BSelect select));
    [|intros s' Hs'; by apply ensures_ret].
  unfold rewrite_select. eapply ensures_bind; [by apply ensures_straverse2 with (R := table_kept)|]. intros from Hfrom.
  rewrite (from_binds _ _ Hfrom). set (scope := scope_from_from_clause catalog (bsel_from select)).
  eapply ensures_bind.
  { apply items_erase. eapply Forall_impl; [exact (List.Forall_and Hp Hn)|]. intros i [He Hi].
    apply item_erases; [exact He|by intros ??? ->]. }
  intros items Hitems. eapply ensures_bind; [by apply erased_option|]. intros selection Hsel%opt_same.
  eapply ensures_bind; [by apply group_keys_erase|]. intros group_by Hgroup.
  eapply ensures_bind; [by apply erased_option|]. intros having Hhaving%opt_same.
  apply ensures_ret. simpl. rewrite (from_binds _ _ Hfrom). fold scope. f_equal.
  rewrite Hitems, Hsel, Hgroup, Hhaving. f_equal. eapply map_same; [|exact Hfrom]. by intros t t' [].
Qed.

Lemma plans_erase :
  (∀ q, selects_query no_wildcard q → query_erases q) ∧ (∀ s, selects_set_expr no_wildcard s → set_erases s)
  ∧ (∀ t, selects_table no_wildcard t → table_erases t) ∧ (∀ r, selects_relation no_wildcard r → relation_erases r)
  ∧ (∀ e, selects_expr no_wildcard e → expr_erases e).
Proof.
  apply Bound_induction_where; unfold query_erases, set_erases, table_erases, relation_erases.
  - intros node cs body ob lim off bc schema Hcs Hb Hob Hlim Hoff. simpl. erase_steps.
    eapply ensures_bind.
    { apply ensures_straverse2 with (R := λ c c', erase_query (bcte_query c') = erase_query (bcte_query c)
        ∧ bcte_name c' = bcte_name c ∧ bcte_columns c' = bcte_columns c ∧ bcte_node c' = bcte_node c).
      eapply Forall_impl; [exact Hcs|]. intros c Hc. eapply ensures_bind; [apply Hc|]. intros q Hq. by apply ensures_ret. }
    intros ctes Hctes.
    eapply (map_same (λ c, MkBoundCte (bcte_name c) (bcte_columns c) (erase_query (bcte_query c)) no_schema (bcte_node c)))
      in Hctes; [|by intros c c' (-> & -> & -> & ->)].
    erase_steps. apply ensures_ret. same_parts.
  - apply select_erases.
  - intros l r node schema Hl Hr. simpl. erase_steps. apply ensures_ret. same_parts.
  - intros d node schema. by apply ensures_ret.
  - intros r js node Hr Hjs. simpl. eapply ensures_bind; [apply Hr|]. intros r' Hr'.
    eapply ensures_bind; [|intros joins Hjoins; apply ensures_ret; by apply table_is_kept].
    apply ensures_straverse2. eapply Forall_impl; [exact Hjs|]. intros j [Hjr Hon].
    eapply ensures_bind; [apply Hjr|]. intros rel Hrel. erase_steps. by apply ensures_ret.
  - intros b node. by apply ensures_ret.
  - intros b q node Hq. simpl. erase_steps. apply ensures_ret. constructor; [same_parts|done].
  - intros b t node Ht. simpl. eapply ensures_bind; [apply Ht|]. intros t' [Hs Hb]. apply ensures_ret.
    constructor; [simpl; by rewrite Hs|]. intros sc. specialize (Hb sc). unfold binds_table in Hb.
    by destruct t, t'.
  - intros d b node. by apply ensures_ret.
  - apply kind_erases.
Qed.
End Idempotence.


(** With the workaround, no select of the rewritten plan, in any clause and
    any subquery, projects a UUID other than as a call of [toString]. *)
Theorem uuids_are_projected_as_text (catalog : Catalog) (query : BoundQuery) :
  let '(query', _) := rewrite_query_for_clickhouse catalog true query in
  selects_query (λ select, each text_item (bsel_projection select)) (bound_plan query').
Proof.
  unfold rewrite_query_for_clickhouse.
  pose proof (rewritten_good catalog true (λ _, True) _
    (λ select _, select_projects_text catalog true select eq_refl)) as [Hq _].
  specialize (Hq (bound_plan query) (proj1 selects_everywhere _) MvSummary_default).
  by destruct (rewrite_query_plan catalog true (bound_plan query) _).
Qed.
