(* ===== verification/ClickHouseAdapterFacts.v ===== *)
(** What the ClickHouse adapter emits for accepted queries, and behaviours of the
    rewriting that only whole queries show. *)
From S2P Require Import Prelude BTreeMap Types Diagnostics Syntax Bound Catalog CatalogFacts Features Cost Suggest.
From S2P Require Import Scope Bind Render SqlText RenderText Validate BindLogic Elab BindSound PlanFacts ValidateFacts Adapters Behaviours.
From S2P Require Import ClickHouseScope ClickHouseRewrite ClickHouse ClickHouseFacts.
From Stdlib Require Import Ascii.
Local Open Scope result_scope.

(** ** Columns of elaborated plans *)

Section Columns.
Variable catalog : Catalog.
Variable Γ : BTreeMap ParameterRef ParameterConstraint.

Lemma elab_items_fields sc items bitems fs :
  elab_items catalog Γ sc items bitems fs → projection_fields bitems = fs.
Proof.
  induction items as [|i items IH] in bitems, fs |- * using rev_ind; intros He.
  - by apply elab_items_nil_inv in He as [-> ->].
  - apply elab_items_snoc_inv in He as (bitems' & b & fs' & f & -> & -> & He & Hb).
    rewrite projection_fields_app, (IH _ _ He). f_equal. destruct Hb; [|done].
    unfold projection_fields. simpl. apply app_nil_r.
Qed.

Lemma zip_with_fields_names ls rs :
  length ls = length rs → column_names (zip_with_fields ls rs) = column_names ls.
Proof.
  revert rs. induction ls as [|l ls IH]; intros [|r rs] Hlen; try done. unfold zip_with_fields, column_names in *. simpl.
  f_equal. apply IH. by injection Hlen.
Qed.

Lemma elaborated_set_keeps_names ctes s b :
  elab_set_expr catalog Γ ctes s b → ∀ enabled, ensures (rewrite_set_expr catalog enabled b)
    (λ b', column_names (fields (set_expr_result_schema b')) = column_names (fields (set_expr_result_schema b))).
Proof.
  induction 1 as [ctes s b Hs|ctes l r bl br node Hl IHl Hr IHr Hlen]; intros enabled; simpl.
  - eapply ensures_bind; [apply select_keeps_names|]. intros select Hsel. apply ensures_ret. simpl. rewrite Hsel.
    inversion Hs; subst. simpl. by erewrite elab_items_fields.
  - eapply ensures_bind; [apply IHl|]. intros l' Hl'. eapply ensures_bind; [apply ensures_any|]. intros r' _.
    apply ensures_ret. simpl. by rewrite Hl', zip_with_fields_names.
Qed.

Lemma elaborated_plan_keeps_names q p enabled :
  elab_query catalog Γ q p → ensures (rewrite_query_plan catalog enabled p)
    (λ p', column_names (fields (bq_result_schema p')) = column_names (fields (bq_result_schema p))).
Proof.
  intros He. inversion He as [? ? ? ? ? ? ? ? bbody ? ? ? ? _ Hb]; subst. simpl.
  eapply ensures_bind; [by eapply elaborated_set_keeps_names|]. intros body' Hbody.
  do 4 (eapply ensures_bind; [apply ensures_any|]; intros ? _). by apply ensures_ret.
Qed.
End Columns.

(** The artifact that is emitted for an accepted query has the columns of
    the analysis, name for name, takes the parameters of the query, and names
    the merged views exactly when a column was merged; and nothing is emitted
    that the analysis does not support. *)
Theorem clickhouse_artifact_fits `{Blake3} `{Unicode} catalog parsed parameters query artifact :
  bind_and_validate catalog parsed parameters = Ok query →
  adapter_emit ClickHouseAdapter query catalog = Ok artifact →
  let analysis := adapter_analyze ClickHouseAdapter query catalog in
  let summary := (rewrite_query_for_clickhouse catalog clickhouse_uuid_workaround query).2 in
  an_supported analysis = true
  ∧ ∃ sql, artifact = ASql sql
    ∧ column_names (fields (sql_result_schema sql)) = column_names (fields (an_result_schema analysis))
    ∧ sql_parameters sql = ordered_parameters query
    ∧ (bt_get "clickhouse.rewritten_to" (sql_metadata sql) = None ↔ rewritten_relations summary = []).
Proof.
  intros (s & [_ _ _ Hb _ He])%accepted Hemit analysis summary.
  cbn [adapter_emit ClickHouseAdapter] in Hemit. unfold clickhouse_emit in Hemit.
  assert (Hsum : summary = (rewrite_query_for_clickhouse catalog clickhouse_uuid_workaround query).2) by done.
  fold analysis in Hemit. change (clickhouse_analyze query catalog) with analysis in Hemit.
  destruct (an_supported analysis); cbn [negb] in Hemit; [|done]. split; [done|].
  assert (Hschema : an_result_schema analysis = bq_result_schema (bound_plan query)).
  { unfold analysis. simpl. unfold clickhouse_analyze.
    destruct (rewrite_query_for_clickhouse _ _ _). simpl. rewrite Hb at 1. done. }
  pose proof (elaborated_plan_keeps_names _ _ _ _ clickhouse_uuid_workaround He MvSummary_default) as Hnames.
  unfold rewrite_query_for_clickhouse in *.
  destruct (rewrite_query_plan catalog clickhouse_uuid_workaround (bound_plan query) MvSummary_default) as [plan' summary'].
  simpl in Hnames, Hsum. subst summary. unfold emit_sql_artifact in Hemit.
  destruct (render_query _ _ _ _) as [text|] eqn:Er; [|done]. simpl in Hemit. injection Hemit as <-.
  rewrite Hschema.
  eexists. split; [done|]. unfold rewritten_to_metadata. cbn [snd]. split_and!.
  - by destruct (rewritten_relations summary').
  - by destruct (rewritten_relations summary').
  - by destruct (rewritten_relations summary') as [|[r []] rs].
Qed.

(** ** Casts of Arrow output *)

Lemma sealed_ch_identifier name : sealed (clickhouse_quote_identifier name).
Proof. apply sealed_quoted. Qed.
#[local] Hint Resolve sealed_ch_identifier tail_glue : seal.

Lemma sealed_cast_item f : sealed (arrow_safe_projection_expr f).
Proof.
  unfold arrow_safe_projection_expr. set (ident := clickhouse_quote_identifier (field_name f)).
  assert (tail (" AS " +:+ ident)) as Has by (apply tail_glue; unfold ident; auto with seal).
  assert (∀ o, opens o ")"%char → sealed (o +:+ ident +:+ ") AS " +:+ ident)) as Hcast.
  { intros o Ho. change (") AS " +:+ ident) with (char_text ")" +:+ (" AS " +:+ ident)).
    apply sealed_enclosed; unfold ident; auto with seal. }
  destruct (field_type f); try (apply sealed_app; unfold ident; solve [auto with seal]).
  - apply (Hcast "toString("). auto with seal.
  - apply (Hcast "toJSONString("). auto with seal.
Qed.

(** The statement that casts the output columns is whole code whatever the
    columns are called, as soon as the query in it is; and when no column needs a
    cast the query is left alone. *)
Theorem arrow_safe_sql_is_sealed (sql : string) (schema : ResultSchema) :
  sealed sql →
  sealed (clickhouse_arrow_safe_sql sql schema)
  ∧ (Forall (λ f, field_type f ≠ TUuid ∧ field_type f ≠ TJson) (fields schema) →
     clickhouse_arrow_safe_sql sql schema = sql).
Proof.
  intros Hsql. unfold clickhouse_arrow_safe_sql. split.
  - destruct (existsb _ _); [|done]. cbn [negb]. apply sealed_glue; [auto with seal|].
    assert (Hjoin : sealed (string_join ", " (List.map arrow_safe_projection_expr (fields schema)))).
    { apply sealed_join; [auto with seal|]. apply Forall_fmap, Forall_true. intros f. apply sealed_cast_item. }
    apply sealed_app; [exact Hjoin|].
    change (") AS " +:+ clickhouse_quote_identifier "_syndb_arrow_safe")
      with (char_text ")" +:+ (" AS " +:+ clickhouse_quote_identifier "_syndb_arrow_safe")).
    apply tail_enclosed; auto with seal.
  - intros Hall. destruct (existsb result_field_needs_arrow_cast (fields schema)) eqn:E; [|done].
    apply existsb_exists in E as (f & Hf%list_elem_of_In & Hn). rewrite Forall_forall in Hall.
    destruct (Hall f Hf) as [Hu Hj]. unfold result_field_needs_arrow_cast in Hn. by destruct (field_type f).
Qed.

(** ** Fixtures *)

#[local] Existing Instance ascii_unicode.
#[local] Existing Instance text_hash.

(** The small catalog with a materialized view [totals (id, n)] whose [n] is a
    state of [count]. *)
Definition state_column (name merge_fn : string) : ColumnSchema :=
  {| column_name := name; column_type := TInt64; column_nullable := true;
     column_metadata :=
       {| unit_ := None; coordinate_reference_system := None; ontology_id := None; modality := None;
          provenance_ := None; measurement_scale := None; shape := [];
          extensions := [("clickhouse.mv.merge_fn", merge_fn)] |} |}.
Definition view_catalog : Catalog :=
  memory_catalog
    (register_relation
       (register_relation
          (register_relation MemoryCatalog_default
             (table_of "records" [column "id" TUuid false; column "score" TFloat64 false; column "name" TUtf8 true]))
          (table_of "links" [column "id" TUuid false; column "target" TUuid false]))
       {| rel_namespace := None; rel_name := "totals"; rel_aliases := []; rel_kind := RMaterializedView;
          rel_columns := [column "id" TUuid false; state_column "n" "countMerge"]; rel_metadata := [] |}).

Definition bind_views (p : ParsedQuery) : BoundQuery :=
  bound_or_default p (bind_and_validate view_catalog p QueryParameters_default).
Definition emit_views (p : ParsedQuery) : option string :=
  match adapter_emit ClickHouseAdapter (bind_views p) view_catalog with
  | Ok (ASql sql) => Some (sql_text sql)
  | _ => None
  end.
Definition from_table (table : string) (items : list SyntaxProjectionItem) : ParsedQuery :=
  parsed (query [] (select items [named_table table] None) []).

Definition totals_query : ParsedQuery := from_table "totals" [item (col "id"); item (col "n")].

Definition totals_bound : BoundQuery := bind_views totals_query.
Definition totals_artifact : EmitArtifact :=
  match adapter_emit ClickHouseAdapter totals_bound view_catalog with
  | Ok a => a
  | Err _ => AOpaque {| opaque_kind := ""; opaque_description := ""; opaque_provenance := bound_provenance totals_bound |}
  end.

(** ** Witnesses *)


Lemma clickhouse_artifact_fits_witness :
  bind_and_validate view_catalog totals_query QueryParameters_default = Ok totals_bound
  ∧ adapter_emit ClickHouseAdapter totals_bound view_catalog = Ok totals_artifact
  ∧ emit_views totals_query = Some "SELECT toString(totals.id) AS id, countMerge(totals.n) FROM totals"
  ∧ an_supported (adapter_analyze ClickHouseAdapter totals_bound view_catalog) = true.
Proof.
  assert (Hb : bind_and_validate view_catalog totals_query QueryParameters_default = Ok totals_bound)
    by (vm_compute; reflexivity).
  assert (He : adapter_emit ClickHouseAdapter totals_bound view_catalog = Ok totals_artifact) by (vm_compute; reflexivity).
  split; [exact Hb|]. split; [exact He|]. split; [vm_compute; reflexivity|].
  exact (proj1 (clickhouse_artifact_fits view_catalog totals_query QueryParameters_default totals_bound totals_artifact Hb He)).
Defined.

Lemma arrow_safe_sql_is_sealed_witness :
  sealed "SELECT id FROM t"
  ∧ sealed (clickhouse_arrow_safe_sql "SELECT id FROM t" (ResultSchema_new [ResultField_new "id" TUuid false])).
Proof.
  assert (Hs : sealed "SELECT id FROM t") by (intros st; exists LWord; split; [auto with seal|reflexivity]).
  split; [exact Hs|]. apply (arrow_safe_sql_is_sealed "SELECT id FROM t" _ Hs).
Defined.

(** ** Behaviours *)

(** UUIDs are also cast in subqueries, whose columns are not output: the operand
    of IN stays a UUID and is compared with text. *)
Lemma in_subquery_compares_uuid_with_text :
  emit_views (parsed (query [] (select [item (col "name")] [named_table "records"]
    (Some (ex (SInSubquery (col "id")
       (query [] (select [item (col "id")] [named_table "links"] None) []) false)))) []))
  = Some "SELECT records.name FROM records WHERE records.id IN (SELECT toString(links.id) AS id FROM links)".
Proof. vm_compute. reflexivity. Qed.

(** A wildcard is expanded without the merge functions that the same columns get
    by name. *)
Lemma wildcards_project_raw_states :
  emit_views (from_table "totals" [star]) = Some "SELECT toString(totals.id) AS id, totals.n AS n FROM totals"
  ∧ emit_views (from_table "totals" [item (col "n")]) = Some "SELECT countMerge(totals.n) FROM totals".
Proof. split; vm_compute; reflexivity. Qed.

(** The schema of a rewritten UNION ALL is that of its first branch: a column
    that is null in the second one is announced as never null. *)
Definition union_query : ParsedQuery :=
  parsed (query [] (SUnionAll (select [item (ex (SLiteral (LUtf8 "x")))] [named_table "records"] None)
                              (select [item (col "name")] [named_table "records"] None) n0) []).
Lemma union_schema_forgets_nulls :
  List.map field_nullable (fields (bound_result_schema (bind_views union_query))) = [true]
  ∧ List.map field_nullable (fields (bound_result_schema
      (rewrite_query_for_clickhouse view_catalog true (bind_views union_query)).1)) = [false].
Proof. split; vm_compute; reflexivity. Qed.

(** The casts call [toString], which the catalog may not have: the analysis, made
    before the rewriting, supports a query that cannot be emitted. *)
Definition bare_catalog : Catalog :=
  {| resolve_function := λ _ _, None; functions := []; cat_snapshot_id := cat_snapshot_id view_catalog;
     resolve_relation := resolve_relation view_catalog; relations := relations view_catalog;
     relation_statistics := λ _ _, None |}.
Lemma supported_uuid_query_is_not_emitted :
  let p := from_table "records" [item (col "id")] in
  let q := bound_or_default p (bind_and_validate bare_catalog p QueryParameters_default) in
  bind_and_validate bare_catalog p QueryParameters_default = Ok q
  ∧ an_supported (adapter_analyze ClickHouseAdapter q bare_catalog) = true
  ∧ adapter_emit ClickHouseAdapter q bare_catalog = Err (unsupported "render" "unknown function `toString`").
Proof. split_and!; vm_compute; reflexivity. Qed.
