(* ===== verification/ClickHouseCost.v ===== *)
(** The cost estimate of the ClickHouse adapter:
    [queryfabric-adapter-clickhouse/src/cost.rs].  Sums of iterators wrap around
    in the release profile, the other operations saturate. *)
From S2P Require Import Prelude BTreeMap Types Diagnostics Syntax Bound Catalog Cost CatalogFacts Suggest Scope Bind Validate PlanFacts Behaviours ClickHouseAdapterFacts.
Local Open Scope N_scope.
Local Open Scope result_scope.

(** [CostEstimateError] of queryfabric-catalog. *)
Inductive CostEstimateError :=
| CEUnsupported
| CEMissingStatistics (what : string)
| CEBackend (what : string).

Record RelationCostContext := {
  rc_namespace : option string;
  rc_name : string;
  rc_binding_name : string;
  rc_estimated_rows : N;
  rc_average_row_bytes : N;
  rc_partition_columns : gset string;
  rc_partition_count : N
}.

Definition u64_saturating_add (a b : N) : N := N.min (a + b) u64_max.
Definition sum_u32 (l : list N) : N := foldl u32_wrapping_add 0 l.

(** ** The relations of a plan *)

Definition partition_columns (relation : RelationSchema) : gset string :=
  match option_or_else (bt_get "partition_columns" (rel_metadata relation))
                       (bt_get "partition_column" (rel_metadata relation)) with
  | Some value =>
      list_to_set (List.map to_ascii_lowercase
        (List.filter (λ name, negb (String.eqb name "")) (List.map trim (split_char (Ascii.ascii_of_N 44) value))))
  | None => ∅
  end.

Definition relation_partition_count (relation : RelationSchema) : N :=
  N.max (default 1 (bt_get "partition_count" (rel_metadata relation) ≫= parse_unsigned u32_max)) 1.

Section Contexts.
Variable catalog : Catalog.

Definition table_context (binding : BoundRelationBinding) : result RelationCostContext CostEstimateError :=
  let? name := ok_or (relation_name binding)
    (CEMissingStatistics ("table binding " +:+ binding_name binding +:+ " has no relation name")) in
  let? stats := ok_or (relation_statistics catalog (nr_namespace name) (nr_name name))
    (CEMissingStatistics (NameRef_display_name name)) in
  let? schema := ok_or (resolve_relation catalog (nr_namespace name) (nr_name name))
    (CEMissingStatistics (NameRef_display_name name)) in
  Ok {| rc_namespace := nr_namespace name; rc_name := nr_name name; rc_binding_name := binding_name binding;
        rc_estimated_rows := estimated_rows stats; rc_average_row_bytes := average_row_bytes stats;
        rc_partition_columns := partition_columns schema;
        rc_partition_count := relation_partition_count schema |}.

(** The source pushes to one vector; these return what they push. *)
Abbreviation Contexts := (result (list RelationCostContext) CostEstimateError).

Definition then_contexts (a b : Contexts) : Contexts := let? xs := a in let? ys := b in Ok (xs ++ ys).
Definition each_contexts {A} (f : A → Contexts) (l : list A) : Contexts :=
  let? xss := rcollect f l in Ok (mjoin xss).

Fixpoint collect_relation_cost_contexts (plan : BoundQueryPlan) : Contexts :=
  match plan with
  | MkBoundQueryPlan _ ctes body _ _ _ _ _ =>
      then_contexts (each_contexts (λ cte, collect_relation_cost_contexts (bcte_query cte)) ctes)
        (collect_set_expr_relations body)
  end
with collect_set_expr_relations (e : BoundSetExpr) : Contexts :=
  match e with
  | BSelect select => each_contexts collect_table_relations (bsel_from select)
  | BUnionAll lhs rhs _ _ => then_contexts (collect_set_expr_relations lhs) (collect_set_expr_relations rhs)
  | BSetUnsupported description _ _ => Err (CEBackend ("unsupported bound set expression: " +:+ description))
  end
with collect_table_relations (t : BoundTableWithJoins) : Contexts :=
  match t with
  | MkBoundTableWithJoins relation joins _ =>
      then_contexts (collect_relation relation) (each_contexts (λ join, collect_relation (bjoin_relation join)) joins)
  end
with collect_relation (r : BoundRelation) : Contexts :=
  match r with
  | BTable binding _ => let? context := table_context binding in Ok [context]
  | BDerived _ query _ => collect_relation_cost_contexts query
  | BNestedJoin _ table _ => collect_table_relations table
  | BRelUnsupported description _ _ => Err (CEBackend ("unsupported bound relation: " +:+ description))
  end.
End Contexts.

(** ** Partitions *)

Definition is_partition_column (e : BoundExpr) (relation : RelationCostContext) (column : string) : bool :=
  match be_kind e with
  | BColumn ref =>
      eq_ignore_ascii_case (col_name ref) column
      && match col_relation ref with
         | None => true
         | Some qualifier =>
             eq_ignore_ascii_case qualifier (rc_binding_name relation)
             || eq_ignore_ascii_case qualifier (rc_name relation)
             || match rc_namespace relation with
                | Some namespace => eq_ignore_ascii_case qualifier namespace
                | None => false
                end
         end
  | _ => false
  end.

Definition is_literal_expr (e : BoundExpr) : bool :=
  match be_kind e with
  | BLiteral (LBoolean _) | BLiteral (LInt64 _) | BLiteral (LFloat64 _) | BLiteral (LUtf8 _) => true
  | _ => false
  end.

Definition compares_partition_to_literal (maybe_column maybe_literal : BoundExpr) (relation : RelationCostContext)
    (column : string) : bool :=
  is_partition_column maybe_column relation column && is_literal_expr maybe_literal.

(** Both spans joined by [f], or the one there is. *)
Definition either_span (f : N → N → N) (a b : option N) : option N :=
  match a, b with
  | Some a, Some b => Some (f a b)
  | Some n, None | None, Some n => Some n
  | None, None => None
  end.

Section Spans.
Variable relation : RelationCostContext.
Variable column : string.

Fixpoint partition_expr_span (e : BoundExpr) : option N :=
  match e with
  | MkBoundExpr (BBinary op lhs rhs) _ _ _ =>
      match op with
      | And => either_span N.min (partition_expr_span lhs) (partition_expr_span rhs)
      | Or =>
          match partition_expr_span lhs, partition_expr_span rhs with
          | Some a, Some b => Some (u32_saturating_add a b)
          | _, _ => None
          end
      | Eq_ | Lt_ | LtEq | Gt_ | GtEq =>
          if compares_partition_to_literal lhs rhs relation column
             || compares_partition_to_literal rhs lhs relation column
          then Some 1 else None
      | _ => None
      end
  | MkBoundExpr (BBetween e low high false) _ _ _ =>
      if is_partition_column e relation column && is_literal_expr low && is_literal_expr high then Some 2 else None
  | MkBoundExpr (BInList e items false) _ _ _ =>
      if is_partition_column e relation column then
        let literal_count := vec_len (List.filter is_literal_expr items) in
        if 0 <? literal_count then Some (N.min literal_count u32_max) else None
      else None
  | _ => None
  end.

Fixpoint partition_predicate_span (e : BoundSetExpr) : option N :=
  match e with
  | BSelect select => bsel_selection select ≫= partition_expr_span
  | BUnionAll lhs rhs _ _ =>
      either_span u32_saturating_add (partition_predicate_span lhs) (partition_predicate_span rhs)
  | BSetUnsupported _ _ _ => None
  end.
End Spans.

(** [Iterator::min]. *)
Definition min_of (l : list N) : option N := reduce N.min l.

Definition pruned_partitions (body : BoundSetExpr) (relation : RelationCostContext) : N :=
  default (rc_partition_count relation)
    (min_of (omap (λ column, partition_predicate_span relation column body)
               (elements (rc_partition_columns relation)))).

Definition estimate_partitions_touched (plan : BoundQueryPlan) (relations : list RelationCostContext) : N :=
  foldl (λ touched relation, u32_saturating_add touched (pruned_partitions (bq_body plan) relation)) 0 relations.

(** ** Memory *)

Fixpoint data_type_size (t : DataType) : N :=
  match t with
  | TBoolean => 1 | TInt32 => 4 | TInt64 => 8 | TFloat64 => 8 | TUtf8 => 32 | TUuid => 16 | TJson => 64
  | TDate => 4 | TDecimal _ _ => 16 | TTimestamp _ => 8
  | TList inner => u64_wrapping_add 8 (data_type_size inner)
  | TStruct fields => sum_u64 (List.map (λ f, data_type_size (field_type f)) fields)
  | TUnknown => 8
  end.

Definition aggregate_names : list string :=
  ["avg"; "count"; "countmerge"; "count_merge"; "max"; "min"; "sum"; "summerge"; "sum_merge"; "uniq";
   "uniqexact"; "uniq_exact"].

Definition is_aggregate_function (f : BoundFunctionCall) : bool :=
  existsb (String.eqb (to_ascii_lowercase (fn_name (bfc_function f)))) aggregate_names || bfc_distinct f.

Fixpoint expr_aggregate_count (e : BoundExpr) : N :=
  match e with
  | MkBoundExpr kind _ _ _ =>
      match kind with
      | BFunction f =>
          let nested := u32_saturating_add (sum_u32 (List.map expr_aggregate_count (bfc_args f)))
                          (match bfc_filter f with Some e => expr_aggregate_count e | None => 0 end) in
          if is_aggregate_function f then u32_saturating_add nested 1 else nested
      | BUnary _ e | BCast e _ => expr_aggregate_count e
      | BBinary _ lhs rhs => u32_saturating_add (expr_aggregate_count lhs) (expr_aggregate_count rhs)
      | BCase operand when_then else_result =>
          u32_saturating_add
            (u32_saturating_add (match operand with Some e => expr_aggregate_count e | None => 0 end)
              (sum_u32 (List.map (λ b, u32_saturating_add (expr_aggregate_count (bwt_condition b))
                                         (expr_aggregate_count (bwt_result b))) when_then)))
            (match else_result with Some e => expr_aggregate_count e | None => 0 end)
      | BBetween e low high _ =>
          u32_saturating_add (u32_saturating_add (expr_aggregate_count e) (expr_aggregate_count low))
            (expr_aggregate_count high)
      | BInList e items _ => u32_saturating_add (expr_aggregate_count e) (sum_u32 (List.map expr_aggregate_count items))
      | BTuple items | BArray items => sum_u32 (List.map expr_aggregate_count items)
      | BLike e pattern _ _ => u32_saturating_add (expr_aggregate_count e) (expr_aggregate_count pattern)
      | BIsNull e _ => expr_aggregate_count e
      | BInSubquery e _ _ => expr_aggregate_count e
      | BColumn _ | BLiteral _ | BParameter _ | BScalarSubquery _ | BExists _ | BUnsupported _ => 0
      end
  end.

Definition select_aggregate_count (select : BoundSelect) : N :=
  let count := foldl (λ count item,
      match bound_projection_as_expr item with
      | Some d => u32_saturating_add count (expr_aggregate_count (bpe_expr d))
      | None => count
      end) 0 (bsel_projection select) in
  match bsel_having select with
  | Some having => u32_saturating_add count (expr_aggregate_count having)
  | None => count
  end.

Definition estimate_select_memory (select : BoundSelect) (rows_scanned bytes_scanned : N) : N :=
  let aggregate_count := select_aggregate_count select in
  if is_empty (bsel_group_by select) then
    if 0 <? aggregate_count then u64_saturating_add (u64_saturating_mul aggregate_count 64) 128 else bytes_scanned
  else
    let group_key_bytes := N.max (sum_u64 (List.map (λ e, data_type_size (be_data_type e)) (bsel_group_by select))) 8 in
    let groups := N.max (N.min (foldl (λ acc _, u64_saturating_mul acc 1000) 1 (bsel_group_by select)) rows_scanned) 1 in
    let aggregate_state_bytes := u64_saturating_mul (N.max aggregate_count 1) 64 in
    u64_saturating_mul groups (u64_saturating_add (u64_saturating_add group_key_bytes aggregate_state_bytes) 32).

Fixpoint estimate_set_expr_memory (e : BoundSetExpr) (rows_scanned bytes_scanned : N) : N :=
  match e with
  | BSelect select => estimate_select_memory select rows_scanned bytes_scanned
  | BUnionAll lhs rhs _ _ =>
      u64_saturating_add (estimate_set_expr_memory lhs rows_scanned bytes_scanned)
        (estimate_set_expr_memory rhs rows_scanned bytes_scanned)
  | BSetUnsupported _ _ _ => 1
  end.

Definition estimate_memory_bytes (plan : BoundQueryPlan) (rows_scanned bytes_scanned : N) : N :=
  estimate_set_expr_memory (bq_body plan) rows_scanned bytes_scanned.

(** ** The estimate *)

(** [u64::div_ceil]. *)
Definition div_ceil (a b : N) : N := if a mod b =? 0 then a / b else a / b + 1.

Definition estimate_clickhouse_cost (query : BoundQuery) (catalog : Catalog) : result EstimatedCost CostEstimateError :=
  let? relations := collect_relation_cost_contexts catalog (bound_plan query) in
  if is_empty relations then Err (CEMissingStatistics "query does not reference a catalog relation")
  else
    let rows_scanned := N.max (sum_u64 (List.map rc_estimated_rows relations)) 1 in
    let bytes_scanned :=
      N.max (sum_u64 (List.map (λ r, u64_saturating_mul (rc_estimated_rows r) (rc_average_row_bytes r)) relations)) 1 in
    let partitions_touched := N.max (estimate_partitions_touched (bound_plan query) relations) 1 in
    let memory_bytes := N.max (estimate_memory_bytes (bound_plan query) rows_scanned bytes_scanned) 1 in
    let wallclock_estimate_ms := N.max (div_ceil rows_scanned 5000000) 1 in
    Ok {| ec_memory_bytes := memory_bytes; ec_rows_scanned := rows_scanned;
          ec_partitions_touched := partitions_touched; ec_wallclock_estimate_ms := wallclock_estimate_ms |}.

(** The cost estimate of the ClickHouse adapter stays within its widths, and
    counts every partition that no condition excludes. *)

(** ** Widths *)

Lemma wrapping_sum_bound (modulus : N) (l : list N) acc :
  acc < modulus → foldl (λ a b, (a + b) mod modulus) acc l < modulus.
Proof.
  revert acc. induction l as [|x l IH]; intros acc Hacc; simpl; [done|]. apply IH. apply N.mod_lt. lia.
Qed.

Lemma sum_u64_bound l : sum_u64 l ≤ u64_max.
Proof. pose proof (wrapping_sum_bound (2 ^ 64) l 0). unfold sum_u64, u64_wrapping_add, u64_max in *. lia. Qed.

Lemma sum_u64_exact l acc :
  acc + foldr N.add 0 l ≤ u64_max → foldl u64_wrapping_add acc l = acc + foldr N.add 0 l.
Proof.
  revert acc. induction l as [|x l IH]; intros acc Hl; simpl in *; [lia|].
  assert (u64_wrapping_add acc x = acc + x) as ->.
  { unfold u64_wrapping_add, u64_max in *. rewrite N.mod_small; lia. }
  rewrite IH; lia.
Qed.

Lemma saturating_u64_bounds a b : u64_saturating_add a b ≤ u64_max ∧ u64_saturating_mul a b ≤ u64_max.
Proof. unfold u64_saturating_add, u64_saturating_mul. lia. Qed.

Lemma estimate_memory_bound e rows bytes : bytes ≤ u64_max → estimate_set_expr_memory e rows bytes ≤ u64_max.
Proof.
  intros Hb. destruct e; simpl; [|apply saturating_u64_bounds|unfold u64_max; lia].
  unfold estimate_select_memory. destruct (is_empty _); [|apply saturating_u64_bounds].
  destruct (0 <? _); [apply saturating_u64_bounds|done].
Qed.

Lemma div_ceil_spec a b : 0 < b → a ≤ b * div_ceil a b ∧ b * div_ceil a b < a + b.
Proof.
  intros Hb. unfold div_ceil. pose proof (N.div_mod a b ltac:(lia)) as H. pose proof (N.mod_lt a b ltac:(lia)).
  generalize dependent (a mod b). generalize (a / b). intros q r H Hr. destruct (N.eqb_spec r 0); rewrite ?N.mul_add_distr_l; lia.
Qed.

Lemma partitions_bound body relations :
  foldl (λ touched r, u32_saturating_add touched (pruned_partitions body r)) 0 relations ≤ u32_max.
Proof.
  induction relations as [|r relations _] using rev_ind; [unfold u32_max; simpl; lia|].
  rewrite foldl_app. simpl. unfold u32_saturating_add. lia.
Qed.

(** C24: bounds.  An estimate comes from at least one relation.  Its four numbers
    are positive and fit their types; the rows are the sum of the rows of the
    relations when that sum fits, and the time is the rows at five thousand a
    millisecond, rounded up. *)
Theorem clickhouse_cost_fits (query : BoundQuery) (catalog : Catalog) cost :
  estimate_clickhouse_cost query catalog = Ok cost →
  ∃ relations, collect_relation_cost_contexts catalog (bound_plan query) = Ok relations ∧ relations ≠ []
  ∧ let rows := foldr N.add 0 (List.map rc_estimated_rows relations) in
    (rows ≤ u64_max → ec_rows_scanned cost = N.max rows 1)
  ∧ 1 ≤ ec_rows_scanned cost ≤ u64_max
  ∧ 1 ≤ ec_memory_bytes cost ≤ u64_max
  ∧ 1 ≤ ec_partitions_touched cost ≤ u32_max
  ∧ ec_rows_scanned cost ≤ 5000000 * ec_wallclock_estimate_ms cost < ec_rows_scanned cost + 5000000.
Proof.
  unfold estimate_clickhouse_cost. destruct (collect_relation_cost_contexts _ _) as [relations|]; [|done]. simpl.
  destruct (is_empty relations) eqn:E; [done|]. intros [= <-]. exists relations.
  cbn [ec_rows_scanned ec_memory_bytes ec_partitions_touched ec_wallclock_estimate_ms].
  set (rows := N.max (sum_u64 (List.map rc_estimated_rows relations)) 1).
  assert (1 ≤ rows ≤ u64_max) as Hrows.
  { pose proof (sum_u64_bound (List.map rc_estimated_rows relations)). unfold rows, u64_max in *. lia. }
  split; [done|]. split; [by intros ->|]. split_and!; try lia.
  - intros Hfit. unfold rows, sum_u64. by rewrite sum_u64_exact.
  - apply N.max_lub; [|unfold u64_max; lia]. apply estimate_memory_bound. apply N.max_lub; [|unfold u64_max; lia].
    apply sum_u64_bound.
  - apply N.max_lub; [|unfold u32_max; lia]. apply partitions_bound.
  - pose proof (div_ceil_spec rows 5000000). lia.
  - pose proof (div_ceil_spec rows 5000000). assert (div_ceil rows 5000000 ≠ 0) by lia. lia.
Qed.

(** ** Pruning *)

Section Pruning.
Variable relation : RelationCostContext.
Variable column : string.

Definition elsewhere (e : BoundExpr) : Prop := is_partition_column e relation column = false.

Lemma no_span_without_the_column e : all_expr elsewhere e → partition_expr_span relation column e = None.
Proof.
  assert (∀ e, all_expr elsewhere e → is_partition_column e relation column = false) as Hhead by (by intros [] []).
  revert e. apply (Bound_induction (λ _, True) (λ _, True) (λ _, True) (λ _, True)
    (λ e, all_expr elsewhere e → partition_expr_span relation column e = None)); try done.
  intros k t n node Hk [_ Ha]. destruct k; try done; simpl in Ha, Hk |- *.
  - destruct Hk as [Hl Hr], Ha as [Hal Har].
    destruct op; try done; unfold compares_partition_to_literal; rewrite ?Hhead by done; try done;
      by rewrite Hl, ?Hr.
  - destruct negated; [done|]. destruct Ha as [Ha _]. by rewrite Hhead.
  - destruct negated; [done|]. destruct Ha as [Ha _]. by rewrite Hhead.
Qed.

(** The WHERE clauses of a body. *)
Fixpoint all_selections (P : BoundExpr → Prop) (body : BoundSetExpr) : Prop :=
  match body with
  | BSelect select => here P (bsel_selection select)
  | BUnionAll l r _ _ => all_selections P l ∧ all_selections P r
  | BSetUnsupported _ _ _ => True
  end.

Lemma no_body_span body :
  all_selections (all_expr elsewhere) body → partition_predicate_span relation column body = None.
Proof.
  induction body as [select|l IHl r IHr node schema|]; simpl; [| |done].
  - intros Hs. destruct (bsel_selection select); [|done]. by apply no_span_without_the_column.
  - intros [Hl Hr]. by rewrite IHl, IHr.
Qed.
End Pruning.

(** What no condition restricts is scanned in full.  When the WHERE
    clauses of the body mention no partition column of a relation, all
    partitions of the relation are counted. *)
Theorem unrestricted_partitions_are_counted relation body :
  (∀ column, column ∈ rc_partition_columns relation → all_selections (all_expr (elsewhere relation column)) body) →
  pruned_partitions body relation = rc_partition_count relation.
Proof.
  intros Hall. unfold pruned_partitions.
  assert (omap (λ column, partition_predicate_span relation column body) (elements (rc_partition_columns relation)) = [])
    as ->; [|done].
  assert (∀ column, column ∈ elements (rc_partition_columns relation) →
            partition_predicate_span relation column body = None) as Hnone.
  { intros column Hc%elem_of_elements. by apply no_body_span, Hall. }
  induction (elements (rc_partition_columns relation)) as [|c cs IH]; [done|]. simpl.
  rewrite (Hnone c) by set_solver. apply IH. set_solver.
Qed.

(** ** Fixtures and witnesses *)

#[local] Existing Instance ascii_unicode.
#[local] Existing Instance text_hash.

(** [events (tenant)] and [archive (tenant)], each in eight partitions by tenant. *)
Definition sized_table (name rows : string) : RelationSchema :=
  {| rel_namespace := None; rel_name := name; rel_aliases := []; rel_kind := RTable;
     rel_columns := [column "tenant" TUtf8 false];
     rel_metadata := [("estimated_rows", rows); ("partition_column", "Tenant"); ("partition_count", "8")] |}.
Definition sized_catalog : Catalog :=
  memory_catalog (register_relation (register_relation MemoryCatalog_default (sized_table "events" "1000"))
                    (sized_table "archive" "18446744073709551615")).
Definition bind_sized (p : ParsedQuery) : BoundQuery :=
  bound_or_default p (bind_and_validate sized_catalog p QueryParameters_default).
Definition estimate_sized (p : ParsedQuery) : option (N * N) :=
  match estimate_clickhouse_cost (bind_sized p) sized_catalog with
  | Ok cost => Some (ec_rows_scanned cost, ec_partitions_touched cost)
  | Err _ => None
  end.
Definition select_tenants (table : string) (selection : option SyntaxExpr) : SyntaxSetExpr :=
  select [item (col "tenant")] [named_table table] selection.
Definition tenant_in (tenants : list string) : SyntaxExpr :=
  ex (SInList (col "tenant") (List.map (λ t, ex (SLiteral (LUtf8 t))) tenants) false).

Definition events_bound : BoundQuery := bind_sized (parsed (query [] (select_tenants "events" None) [])).
Definition events_context : RelationCostContext :=
  {| rc_namespace := None; rc_name := "events"; rc_binding_name := "events"; rc_estimated_rows := 1000;
     rc_average_row_bytes := 64; rc_partition_columns := {["tenant"]}; rc_partition_count := 8 |}.

Lemma clickhouse_cost_fits_witness :
  let cost := {| ec_memory_bytes := 64000; ec_rows_scanned := 1000; ec_partitions_touched := 8;
                 ec_wallclock_estimate_ms := 1 |} in
  estimate_clickhouse_cost events_bound sized_catalog = Ok cost
  ∧ ∃ relations, collect_relation_cost_contexts sized_catalog (bound_plan events_bound) = Ok relations ∧ relations ≠ [].
Proof.
  intros cost. assert (He : estimate_clickhouse_cost events_bound sized_catalog = Ok cost) by (vm_compute; reflexivity).
  split; [exact He|].
  destruct (clickhouse_cost_fits events_bound sized_catalog cost He) as (relations & Hr & Hne & _).
  exists relations. split; [exact Hr|exact Hne].
Defined.

Lemma unrestricted_partitions_are_counted_witness :
  collect_relation_cost_contexts sized_catalog (bound_plan events_bound) = Ok [events_context]
  ∧ pruned_partitions (bq_body (bound_plan events_bound)) events_context = 8.
Proof.
  split; [vm_compute; reflexivity|].
  apply (unrestricted_partitions_are_counted events_context (bq_body (bound_plan events_bound))).
  intros column _. exact I.
Defined.

(** ** Behaviours *)

(** Rows wrap around: scanning the archive and the events together is estimated
    to scan fewer rows than the events alone. *)
Lemma rows_wrap_around :
  estimate_sized (parsed (query [] (SUnionAll (select_tenants "events" None) (select_tenants "archive" None) n0) []))
  = Some (999, 16)
  ∧ estimate_sized (parsed (query [] (select_tenants "events" None) [])) = Some (1000, 8).
Proof. split; vm_compute; reflexivity. Qed.

(** A condition in one branch of a UNION ALL prunes the scan of the same table in
    the other branch, and a list of values counts more partitions than there are. *)
Lemma branches_prune_each_other :
  estimate_sized (parsed (query []
    (SUnionAll (select_tenants "events" (Some (tenant_in ["a"]))) (select_tenants "events" None) n0) []))
  = Some (2000, 2)
  ∧ estimate_sized (parsed (query []
      (select_tenants "events" (Some (tenant_in ["a"; "b"; "c"; "d"; "e"; "f"; "g"; "h"; "i"; "a"]))) []))
    = Some (1000, 10).
Proof. split; vm_compute; reflexivity. Qed.

(** Relations of subqueries in expressions are not counted. *)
Lemma subqueries_cost_nothing :
  estimate_sized (parsed (query [] (select_tenants "events"
    (Some (ex (SInSubquery (col "tenant") (query [] (select_tenants "archive" None) []) false)))) []))
  = Some (1000, 8).
Proof. vm_compute. reflexivity. Qed.
