(* ===== verification/SourceMap.v ===== *)
(** Source maps: [queryfabric-dialect-sql/src/source_map.rs].

    A frontend may rewrite its text before it hands it to the SQL parser.  A
    source map remembers where the pieces of the rewritten text come from, so
    that the parser's spans, lines and columns of the rewritten text, become
    byte ranges of the text the user wrote.

    The lines and columns are those of the third-party parser [sqlparser]; its
    empty span is a parameter. *)
From S2P Require Import Prelude Types Diagnostics.
From Stdlib Require Import Sorting.Sorted.

(** ** Slices of strings, by byte offsets *)

Fixpoint str_drop (n : nat) (s : string) : string :=
  match n, s with
  | S n, String _ s => str_drop n s
  | _, _ => s
  end.

Fixpoint str_take (n : nat) (s : string) : string :=
  match n, s with
  | S n, String c s => String c (str_take n s)
  | _, _ => EmptyString
  end.

(** The bytes of [s] in a span. *)
Definition slice (s : string) (at_ : QuerySourceSpan) : string :=
  str_take (N.to_nat (len at_)) (str_drop (N.to_nat (offset at_)) s).

(** ** The map *)

Definition newline : Ascii.ascii := Ascii.ascii_of_N 10.

(** [sqlparser]'s [Location] and [Span]. *)
Record Location := { line : N; column : N }.
Record SqlSpan := { span_start : Location; span_stop : Location }.

#[export] Instance Location_eq_dec : EqDecision Location.
Proof. solve_decision. Defined.
#[export] Instance SqlSpan_eq_dec : EqDecision SqlSpan.
Proof. solve_decision. Defined.

Record SourcePiece := {
  rewritten_start : N;
  rewritten_len : N;
  origin : option QuerySourceSpan
}.

Record SourceMap := {
  rewritten_sql : string;
  pieces : list SourcePiece;
  line_starts : list N
}.

(** The offsets after the newlines of [s], which starts at [idx]. *)
Fixpoint starts_after_newlines (idx : N) (s : string) : list N :=
  match s with
  | EmptyString => []
  | String c s =>
      if Ascii.eqb c newline then (idx + 1)%N :: starts_after_newlines (idx + 1) s
      else starts_after_newlines (idx + 1) s
  end.

Definition compute_line_starts (input : string) : list N := 0%N :: starts_after_newlines 0 input.

Definition SourceMap_new (sql : string) (ps : list SourcePiece) : SourceMap :=
  {| rewritten_sql := sql; pieces := ps; line_starts := compute_line_starts sql |}.

Definition SourceMap_identity (body : string) (body_offset : N) : SourceMap :=
  SourceMap_new body
    [{| rewritten_start := 0; rewritten_len := string_len body;
        origin := Some {| offset := body_offset; len := string_len body |} |}].

(** Lines and columns count from one; zero stands for no location. *)
Definition location_to_offset (self : SourceMap) (location : Location) : option N :=
  if (line location =? 0)%N || (column location =? 0)%N then None
  else
    match nth_error (line_starts self) (N.to_nat (line location - 1)) with
    | Some line_start => Some (line_start + (column location - 1))%N
    | None => None
    end.

(** A piece and a range of the rewritten text share a byte. *)
Definition overlaps (piece : SourcePiece) (rewritten : QuerySourceSpan) : bool :=
  ((rewritten_start piece <? span_end rewritten)
   && (offset rewritten <? rewritten_start piece + rewritten_len piece))%N.

Definition overlapping_origins (self : SourceMap) (rewritten : QuerySourceSpan) : list QuerySourceSpan :=
  omap (λ piece, if overlaps piece rewritten then origin piece else None) (pieces self).

Section Spans.
(** [sqlparser]'s [Span::empty()]. *)
Context (span_empty : SqlSpan).

Definition span_to_rewritten (self : SourceMap) (span : SqlSpan) : option QuerySourceSpan :=
  if decide (span = span_empty) then None
  else
    match location_to_offset self (span_start span), location_to_offset self (span_stop span) with
    | Some start, Some stop => Some {| offset := start; len := N.max (stop - start) 1 |}
    | _, _ => None
    end.

Definition map_sql_span (self : SourceMap) (span : SqlSpan) : option QuerySourceSpan :=
  match span_to_rewritten self span with
  | Some rewritten => reduce span_union (overlapping_origins self rewritten)
  | None => None
  end.
End Spans.

(** ** Slices *)

Lemma str_drop_app a b : str_drop (String.length a) (a +:+ b) = b.
Proof. induction a as [|c a IH]; [by destruct b|]. apply IH. Qed.

Lemma str_take_app a b : str_take (String.length a) (a +:+ b) = a.
Proof. induction a as [|c a IH]; [by destruct b|]. rewrite string_app_cons. simpl. by rewrite IH. Qed.

Lemma str_take_all s : str_take (String.length s) s = s.
Proof. rewrite <- (string_app_nil_r s) at 2. apply str_take_app. Qed.

Lemma string_length_app a b : String.length (a +:+ b) = String.length a + String.length b.
Proof. induction a as [|c a IH]; [done|]. rewrite string_app_cons. simpl. by rewrite IH. Qed.

Lemma string_len_app a b : string_len (a +:+ b) = (string_len a + string_len b)%N.
Proof. unfold string_len. rewrite string_length_app. lia. Qed.

(** The slice of the middle of three strings. *)
Lemma slice_middle a b c :
  slice (a +:+ b +:+ c) {| offset := string_len a; len := string_len b |} = b.
Proof.
  unfold slice, string_len. simpl. rewrite !Nat2N.id, str_drop_app. apply str_take_app.
Qed.

Lemma slice_at a b c s o l :
  s = a +:+ b +:+ c → o = string_len a → l = string_len b → slice s {| offset := o; len := l |} = b.
Proof. intros -> -> ->. apply slice_middle. Qed.

(** ** Lines *)

Lemma starts_after_newlines_shift idx s :
  starts_after_newlines idx s = List.map (N.add idx) (starts_after_newlines 0 s).
Proof.
  revert idx. assert (∀ k idx, starts_after_newlines (idx + k) s
    = List.map (N.add idx) (starts_after_newlines k s)) as H; [|by intros; rewrite <- (H 0%N), N.add_0_r].
  induction s as [|c s IH]; intros k idx; [done|]. simpl. rewrite <- N.add_assoc, IH.
  destruct (Ascii.eqb c newline); done.
Qed.

Lemma split_char_not_nil sep s : split_char sep s ≠ [].
Proof. destruct s as [|c s]; simpl; [done|]. destruct (Ascii.eqb c sep); [done|]. by destruct (split_char sep s). Qed.

(** The lines of a text start where [compute_line_starts] says. *)
Lemma compute_line_starts_spec s i text :
  split_char newline s !! i = Some text →
  ∃ start before after, nth_error (compute_line_starts s) i = Some start
    ∧ s = before +:+ text +:+ after ∧ string_len before = start.
Proof.
  revert i text. induction s as [|c s IH]; intros i text; simpl.
  - intros H. destruct i as [|i]; [|done]. simplify_eq/=. by exists 0%N, "", "".
  - destruct (Ascii.eqb_spec c newline) as [->|Hc]; simpl.
    + destruct i as [|i]; simpl.
      * intros [= <-]. by exists 0%N, "", (String newline s).
      * intros H. destruct (IH i text H) as (start & before & after & Hn & -> & Hlen).
        exists (N.succ start), (String newline before), after.
        split; [|split; [done|unfold string_len in *; simpl; lia]].
        rewrite starts_after_newlines_shift. unfold compute_line_starts in Hn.
        destruct i as [|i]; simpl in *; [by injection Hn as <-|].
        rewrite List.nth_error_map, Hn. simpl. f_equal. lia.
    + destruct (split_char newline s) as [|first rest] eqn:Hsplit; [by apply split_char_not_nil in Hsplit|].
      destruct i as [|i]; simpl; intros H.
      * injection H as <-. destruct (IH 0 first eq_refl) as (start & before & after & Hn & Hs & Hlen).
        injection Hn as <-. destruct before; [|done]. exists 0%N, "", after.
        split; [done|]. split; [|done]. by rewrite Hs.
      * destruct (IH (S i) text H) as (start & before & after & Hn & -> & Hlen).
        exists (N.succ start), (String c before), after.
        split; [|split; [done|unfold string_len in *; simpl; lia]].
        simpl in Hn |- *. destruct (Ascii.eqb_spec c newline) as [|_]; [done|].
        rewrite starts_after_newlines_shift, List.nth_error_map, Hn. simpl. f_equal. lia.
Qed.

(** A location in the [i]-th line, counted from zero, and at its [j]-th byte,
    names that byte of the rewritten text. *)
Theorem location_names_its_byte (sql : string) (ps : list SourcePiece) (i : nat) (text : string) (j : N) :
  split_char newline sql !! i = Some text →
  ∃ start, location_to_offset (SourceMap_new sql ps) {| line := N.of_nat i + 1; column := j + 1 |}
             = Some (start + j)%N
  ∧ slice sql {| offset := start; len := string_len text |} = text.
Proof.
  intros H. destruct (compute_line_starts_spec sql i text H) as (start & before & after & Hn & Hs & Hlen).
  exists start. split; [|by eapply slice_at].
  unfold location_to_offset. simpl line. simpl column.
  destruct (N.eqb_spec (N.of_nat i + 1) 0); [lia|]. destruct (N.eqb_spec (j + 1) 0); [lia|]. simpl orb. cbn iota.
  replace (N.of_nat i + 1 - 1)%N with (N.of_nat i) by lia. replace (j + 1 - 1)%N with j by lia.
  rewrite Nat2N.id. change (line_starts _) with (compute_line_starts sql). by rewrite Hn.
Qed.

(** ** Mapping back *)

Definition within (a b : QuerySourceSpan) : Prop :=
  (offset b ≤ offset a ∧ span_end a ≤ span_end b)%N.

Lemma union_start a b : offset (span_union a b) = N.min (offset a) (offset b).
Proof. done. Qed.
Lemma union_end a b : span_end (span_union a b) = N.max (span_end a) (span_end b).
Proof. unfold span_union, span_end. simpl. lia. Qed.

Lemma fold_union_spec l s :
  let u := foldl span_union s l in
  (∀ t, t ∈ s :: l → within t u)
  ∧ (∃ t, t ∈ s :: l ∧ offset u = offset t) ∧ (∃ t, t ∈ s :: l ∧ span_end u = span_end t).
Proof.
  revert s. induction l as [|x l IH]; intros s; simpl.
  - split_and!; [|by exists s; rewrite list_elem_of_singleton..].
    intros t ->%list_elem_of_singleton. unfold within. lia.
  - destruct (IH (span_union s x)) as (Hall & (t1 & H1 & E1) & (t2 & H2 & E2)). split_and!.
    + pose proof (Hall (span_union s x) (list_elem_of_here _ _)) as [Hlo Hhi].
      rewrite union_start, union_end in *.
      intros t [->|[->|H]%elem_of_cons]%elem_of_cons; [unfold within; lia..|].
      apply Hall. by right.
    + apply elem_of_cons in H1 as [->|H1]; [|exists t1; by split; [right; right|]].
      rewrite E1, union_start. destruct (N.min_spec (offset s) (offset x)) as [[_ ->]|[_ ->]];
        [exists s|exists x]; (split; [set_solver|done]).
    + apply elem_of_cons in H2 as [->|H2]; [|exists t2; by split; [right; right|]].
      rewrite E2, union_end. destruct (N.max_spec (span_end s) (span_end x)) as [[_ ->]|[_ ->]];
        [exists x|exists s]; (split; [set_solver|done]).
Qed.

(** What [map_sql_span] returns is the smallest range with the origins of all
    the pieces the span touches. *)
Theorem map_sql_span_is_the_hull (span_empty : SqlSpan) (self : SourceMap) (span : SqlSpan)
    (result : QuerySourceSpan) :
  map_sql_span span_empty self span = Some result →
  ∃ rewritten, span_to_rewritten span_empty self span = Some rewritten
  ∧ (∀ t, t ∈ overlapping_origins self rewritten → within t result)
  ∧ (∃ t, t ∈ overlapping_origins self rewritten ∧ offset result = offset t)
  ∧ (∃ t, t ∈ overlapping_origins self rewritten ∧ span_end result = span_end t).
Proof.
  unfold map_sql_span. destruct (span_to_rewritten _ _ _) as [rewritten|]; [|done].
  destruct (overlapping_origins self rewritten) as [|s l] eqn:Ho; [done|]. intros [= <-].
  exists rewritten. rewrite Ho. split; [done|]. apply fold_union_spec.
Qed.

(** ** Faithful maps *)

(** The pieces follow each other from [start] and cover the text. *)
Fixpoint tile (start : N) (ps : list SourcePiece) (stop : N) : Prop :=
  match ps with
  | [] => start = stop
  | p :: ps => rewritten_start p = start ∧ tile (start + rewritten_len p) ps stop
  end.

(** The text of a piece is the text at its origin. *)
Definition faithful_piece (source sql : string) (p : SourcePiece) : Prop :=
  ∀ o, origin p = Some o →
    len o = rewritten_len p ∧ (span_end o ≤ string_len source)%N
    ∧ slice sql {| offset := rewritten_start p; len := rewritten_len p |} = slice source o.

Definition faithful (source : string) (self : SourceMap) : Prop :=
  tile 0 (pieces self) (string_len (rewritten_sql self))
  ∧ Forall (faithful_piece source (rewritten_sql self)) (pieces self).

(** The ranges a faithful map returns lie in the source. *)
Lemma faithful_in_source span_empty source self span result :
  faithful source self → map_sql_span span_empty self span = Some result →
  (span_end result ≤ string_len source)%N.
Proof.
  intros [_ Hf] (rewritten & _ & _ & _ & t & Ht & ->)%map_sql_span_is_the_hull.
  unfold overlapping_origins in Ht. apply list_elem_of_omap in Ht as (p & Hp & Ho).
  destruct (overlaps p rewritten); [|done]. rewrite Forall_forall in Hf.
  by destruct (Hf p Hp t Ho) as (_ & ? & _).
Qed.
