(* ===== verification/SqlDialect.v ===== *)
(** The SQL frontend up to the third-party parser:
    [queryfabric-dialect-sql/src/lib.rs], [lower.rs] and the helpers on strings
    of [helpers.rs].

    The text is tokenised and parsed by the crate [sqlparser]; the traversal
    that lowers its tree matches on the constructors of that crate.  Both are
    the class [SqlParser].  Everything before and after is defined here: the
    [EXPLAIN] keyword, the source map, the choice of the statement, the
    assembly of the parsed query, names and placeholders. *)
From Stdlib Require Import Ascii.
From S2P Require Import Prelude BTreeMap Types Diagnostics Syntax Bound Catalog SourceMap.
Local Open Scope result_scope.

(** ** The trait [Dialect] of [queryfabric-ir] *)

Record Dialect := {
  dialect_name : string;
  dialect_parse : string → Result ParsedQuery
}.

(** ** Helpers *)

(** [str::starts_with] of [char::is_whitespace]. *)
Definition starts_with_white (s : string) : bool :=
  match s with
  | EmptyString => false
  | String a s =>
      white_1 a
      || match s with
         | EmptyString => false
         | String b s =>
             white_2 a b || match s with EmptyString => false | String c _ => white_3 a b c end
         end
  end.

(** Whether the query is explained, the text after the keyword, and where that
    text starts.  The crate of the SyQL frontend has a copy of this function. *)
Definition strip_leading_explain (input : string) : bool * string * N :=
  let trimmed := trim_start input in
  let trimmed_start := (string_len input - string_len trimmed)%N in
  let upper := to_ascii_uppercase trimmed in
  if String.eqb upper "EXPLAIN" then (true, "", string_len input)
  else if str_starts_with "EXPLAIN" upper
          && (let rest := str_drop 7 trimmed in String.eqb rest "" || starts_with_white rest) then
    let rest_trimmed := trim_start (str_drop 7 trimmed) in
    (true, rest_trimmed, (string_len input - string_len rest_trimmed)%N)
  else (false, trimmed, trimmed_start).

(** [lower_name_ref] and [lower_function_ref] after the texts of the parts of
    the parser's name have been collected. *)
Definition name_ref_of_parts (parts : list string) : NameRef :=
  match parts with
  | [name] => {| nr_namespace := None; nr_name := name |}
  | [namespace; name] => {| nr_namespace := Some namespace; nr_name := name |}
  | _ => {| nr_namespace := None; nr_name := string_join "." parts |}
  end.

Definition function_ref_of_parts (parts : list string) : FunctionRef :=
  match parts with
  | [name] => {| fn_namespace := None; fn_name := to_ascii_lowercase name |}
  | [namespace; name] =>
      {| fn_namespace := Some (to_ascii_lowercase namespace); fn_name := to_ascii_lowercase name |}
  | _ => {| fn_namespace := None; fn_name := to_ascii_lowercase (string_join "." parts) |}
  end.

(** [str::trim_start_matches] of a set of one-byte characters. *)
Fixpoint trim_start_matches (cs : list Ascii.ascii) (s : string) : string :=
  match s with
  | String c s' => if existsb (Ascii.eqb c) cs then trim_start_matches cs s' else s
  | EmptyString => EmptyString
  end.

Definition placeholder_to_parameter_ref (placeholder : string) : ParameterRef :=
  if String.eqb placeholder "?" then Positional 0
  else
    match strip_prefix "$" placeholder with
    | Some number =>
        match parse_unsigned u32_max number with
        | Some position => Positional position
        | None => Named number
        end
    | None => Named (trim_start_matches [":"; "@"]%char placeholder)
    end.

(** ** Parsing *)

Class SqlParser := {
  AstQuery : Type;
  AstOther : Type;
  (** [Parser::parse_sql] with the generic dialect; an error is its text. *)
  Parser_parse_sql : string → result (list (AstQuery + AstOther)) string;
  (** [Query::to_string]. *)
  ast_to_string : AstQuery → string;
  (** [Lowerer::lower_query] with the path, and the diagnostics it leaves. *)
  lower_query : SourceMap → AstQuery → string → SyntaxQuery * list QueryDiagnostic
}.

Section Parse.
Context `{!SqlParser}.

(** [lower::parse_sql_with_source_map]. *)
Definition parse_sql_with_source_map (dialect source_sql : string) (source_map : SourceMap)
    (explain : bool) (dialect_metadata : DialectMetadata) : Result ParsedQuery :=
  if String.eqb (trim (rewritten_sql source_map)) "" then Err (EParse "empty query body")
  else
    let? statements :=
      match Parser_parse_sql (rewritten_sql source_map) with
      | Ok statements => Ok statements
      | Err error => Err (EParse error)
      end in
    let? statement := ok_or (head statements) (EParse "no statement found") in
    match statement with
    | inr _ =>
        Err (EUnsupportedFeature "non-query statement"
               "QueryFabric currently accepts only SELECT/UNION query statements.")
    | inl query =>
        let '(syntax, diagnostics) := lower_query source_map query "query" in
        let canonical_sql := ast_to_string query in
        Ok (with_lowering_diagnostics
              (with_syntax
                 (with_dialect_metadata
                    (with_explain (ParsedQuery_new dialect source_sql canonical_sql) explain)
                    dialect_metadata)
                 syntax)
              diagnostics)
    end.

Definition parse_sql_query (input : string) : Result ParsedQuery :=
  if String.eqb (trim input) "" then Err (EParse "empty query")
  else
    let '(explain, body, body_offset) := strip_leading_explain input in
    parse_sql_with_source_map "sql" input (SourceMap_identity body body_offset) explain
      DialectMetadata_default.

Definition GenericSqlDialect : Dialect :=
  {| dialect_name := "sql"; dialect_parse := parse_sql_query |}.
End Parse.

(** ** Trimming *)

Local Arguments str_drop : simpl never.

Lemma trim_start_suffix s : ∃ p, s = p +:+ trim_start s.
Proof.
  revert s. fix IH 1. intros [|a s1]; [by exists ""|]. cbn [trim_start]. destruct (white_1 a).
  { destruct (IH s1) as [p Hp]. exists (String a p). rewrite string_app_cons. by f_equal. }
  destruct s1 as [|b s2]; [by exists ""|]. destruct (white_2 a b).
  { destruct (IH s2) as [p Hp]. exists (String a (String b p)). rewrite !string_app_cons. by repeat f_equal. }
  destruct s2 as [|c s3]; [by exists ""|]. destruct (white_3 a b c); [|by exists ""].
  destruct (IH s3) as [p Hp]. exists (String a (String b (String c p))).
  rewrite !string_app_cons. by repeat f_equal.
Qed.

Lemma trim_end_prefix s : ∃ q, s = trim_end s +:+ q.
Proof.
  induction s as [|a s [q Hq]]; [by exists ""|]. cbn [trim_end].
  destruct (String.eqb (trim_start (String a s)) ""); [by exists (String a s)|].
  exists q. rewrite string_app_cons. by f_equal.
Qed.

(** A trimmed text is in the middle of the text, after the bytes that
    [trim_start] removes. *)
Lemma trim_middle s :
  ∃ p q, s = p +:+ trim s +:+ q ∧ string_len p = (string_len s - string_len (trim_start s))%N.
Proof.
  destruct (trim_start_suffix s) as [p Hp]. destruct (trim_end_prefix (trim_start s)) as [q Hq].
  exists p, q. unfold trim. rewrite <- Hq. split; [done|].
  apply (f_equal string_len) in Hp. rewrite string_len_app in Hp. lia.
Qed.

Lemma trim_start_fixed s : starts_with_white s = false → trim_start s = s.
Proof.
  destruct s as [|a s]; [done|]. cbn [starts_with_white trim_start]. intros [-> H]%orb_false_iff.
  destruct s as [|b s]; [done|]. apply orb_false_iff in H as [-> H]. destruct s as [|c s]; [done|]. by rewrite H.
Qed.

(** The text after [EXPLAIN] is a suffix of the input, at the offset told. *)
Lemma strip_leading_explain_suffix input explain rest rest_offset :
  strip_leading_explain input = (explain, rest, rest_offset) →
  ∃ before, input = before +:+ rest ∧ string_len before = rest_offset.
Proof.
  unfold strip_leading_explain. destruct (trim_start_suffix input) as [p Hp].
  destruct (String.eqb _ "EXPLAIN").
  { intros [= <- <- <-]. exists input. by rewrite string_app_nil_r. }
  destruct (str_starts_with "EXPLAIN" _ && _).
  - intros [= <- <- <-]. destruct (trim_start_suffix (str_drop 7 (trim_start input))) as [q Hq].
    assert (∃ r, trim_start input = r +:+ str_drop 7 (trim_start input)) as [r Hr].
    { generalize (trim_start input) 7. intros s n. revert s. clear.
      induction n as [|n IH]; intros s; [by exists ""|]. destruct s as [|c s]; [by exists ""|].
      destruct (IH s) as [r Hr]. exists (String c r). rewrite string_app_cons. by f_equal. }
    exists (p +:+ r +:+ q).
    assert (input = (p +:+ r +:+ q) +:+ trim_start (str_drop 7 (trim_start input))) as Hi.
    { rewrite !string_app_assoc, <- Hq, <- Hr. done. }
    split; [done|]. apply (f_equal string_len) in Hi. rewrite string_len_app in Hi. lia.
  - intros [= <- <- <-]. exists p. split; [done|]. apply (f_equal string_len) in Hp. rewrite string_len_app in Hp. lia.
Qed.

(** The map of the SQL frontend is the identity on the text after [EXPLAIN]. *)
Lemma identity_faithful source before body after :
  source = before +:+ body +:+ after →
  faithful source (SourceMap_identity body (string_len before)).
Proof.
  intros ->. split; [done|]. constructor; [|done]. intros o [= <-]. simpl. split; [done|].
  unfold span_end. simpl. rewrite !string_len_app. split; [lia|].
  rewrite slice_middle. apply (slice_at "" body ""); [by rewrite string_app_nil_r|done..].
Qed.

(** ** The result of parsing *)

(** The SQL frontend accepts exactly the texts that are not blank, have
    something after [EXPLAIN], and whose first statement is a query to the
    parser; the result keeps the text, the flag and the parser's canonical
    text, and the map it was lowered with is faithful to the input. *)
Theorem parse_sql_query_Ok `{!SqlParser} (input : string) (parsed : ParsedQuery) :
  parse_sql_query input = Ok parsed →
  ∃ explain body body_offset query rest,
    strip_leading_explain input = (explain, body, body_offset)
    ∧ trim body ≠ "" ∧ Parser_parse_sql body = Ok (inl query :: rest)
    ∧ faithful input (SourceMap_identity body body_offset)
    ∧ pq_dialect parsed = "sql" ∧ pq_source_sql parsed = input ∧ pq_explain parsed = explain
    ∧ pq_canonical_sql parsed = ast_to_string query
    ∧ (pq_syntax parsed, pq_lowering_diagnostics parsed)
      = lower_query (SourceMap_identity body body_offset) query "query".
Proof.
  unfold parse_sql_query. destruct (String.eqb_spec (trim input) ""); [done|].
  destruct (strip_leading_explain input) as [[explain body] body_offset] eqn:Hs.
  unfold parse_sql_with_source_map. cbn [rewritten_sql SourceMap_identity SourceMap_new].
  destruct (String.eqb_spec (trim body) ""); [done|].
  destruct (Parser_parse_sql body) as [statements|] eqn:Hparse; [|done]. simpl.
  destruct statements as [|[query|other] rest]; [done| |done]. simpl.
  destruct (lower_query _ query "query") as [syntax ds] eqn:Hl. intros [= <-].
  exists explain, body, body_offset, query, rest.
  destruct (strip_leading_explain_suffix _ _ _ _ Hs) as (before & Hi & <-).
  split_and!; try done. eapply (identity_faithful _ _ _ ""). by rewrite string_app_nil_r.
Qed.
