(* ===== verification/Syql.v ===== *)
(** The SyQL frontend: [queryfabric-dialect-syql/src/lib.rs].

    SyQL is SQL with a [FROM] that may come first, and with the directives
    [SCOPE] and [DOWNLOAD], on lines of their own or at the end.  The frontend
    rewrites it to SQL, line by line, and remembers where every piece comes
    from.

    The loop that strips trailing directives takes as fuel one more than the
    number of bytes that are left: every turn removes some, which
    [strip_directives_reaches_the_end] states. *)
From Stdlib Require Import Ascii.
From S2P Require Import Prelude BTreeMap Types Diagnostics Syntax Bound Catalog SourceMap SqlDialect.

Record Fragment := { text : string; fragment_origin : QuerySourceSpan }.

(** [str::rfind] of a text. *)
Fixpoint rfind (needle s : string) : option nat :=
  match s with
  | EmptyString => if str_starts_with needle "" then Some 0 else None
  | String _ s' =>
      match rfind needle s' with
      | Some i => Some (S i)
      | None => if str_starts_with needle s then Some 0 else None
      end
  end.

(** [str::contains] of [char::is_whitespace]. *)
Fixpoint contains_white (s : string) : bool :=
  match s with
  | EmptyString => false
  | String _ s' => starts_with_white s || contains_white s'
  end.

(** ** Lines *)

(** The loop over the lines: [line_offset] is where the first one starts. *)
Fixpoint read_lines (line_offset : N) (lines : list string) (metadata : DialectMetadata)
    (fragments : list Fragment) : DialectMetadata * list Fragment :=
  match lines with
  | [] => (metadata, fragments)
  | line :: lines =>
      let next := (line_offset + (string_len line + 1))%N in
      let trimmed_start := (string_len line - string_len (trim_start line))%N in
      let trimmed := trim line in
      if String.eqb trimmed "" then read_lines next lines metadata fragments
      else
        let trimmed_offset := (line_offset + trimmed_start)%N in
        let uppercase := to_ascii_uppercase trimmed in
        match strip_prefix "SCOPE " uppercase with
        | Some value =>
            read_lines next lines
              (DialectMetadata_insert metadata "syql.scope" (to_ascii_lowercase value)) fragments
        | None =>
            match strip_prefix "DOWNLOAD " uppercase with
            | Some value =>
                read_lines next lines
                  (DialectMetadata_insert metadata "syql.download" (to_ascii_lowercase value)) fragments
            | None =>
                read_lines next lines metadata
                  (fragments ++ [{| text := trimmed;
                                    fragment_origin :=
                                      {| offset := trimmed_offset; len := string_len trimmed |} |}])
            end
        end
  end.

(** ** Trailing directives *)

Definition try_directive (input upper needle key : string) : option (string * string * string) :=
  match rfind needle upper with
  | Some idx =>
      let prefix := trim_end (str_take idx input) in
      let value := trim (str_drop (idx + String.length needle) input) in
      if negb (String.eqb value "") && negb (contains_white value) then Some (prefix, value, key)
      else None
  | None => None
  end.

(** The text before the directive, its value and its key; the length the source
    also returns is that of the text. *)
Definition strip_trailing_directive (input : string) : option (string * string * string) :=
  let upper := to_ascii_uppercase input in
  option_or_else (try_directive input upper " DOWNLOAD " "syql.download")
                 (try_directive input upper " SCOPE " "syql.scope").

(** The [while let] loop, on the fragments in reverse. *)
Fixpoint strip_directives (fuel : nat) (metadata : DialectMetadata) (reversed : list Fragment)
    : DialectMetadata * list Fragment :=
  match fuel, reversed with
  | S fuel, last :: rest =>
      match strip_trailing_directive (text last) with
      | Some (prefix, value, key) =>
          let metadata := DialectMetadata_insert metadata key (to_ascii_lowercase value) in
          let last := {| text := prefix;
                         fragment_origin := {| offset := offset (fragment_origin last);
                                               len := string_len prefix |} |} in
          strip_directives fuel metadata (if String.eqb prefix "" then rest else last :: rest)
      | None => (metadata, reversed)
      end
  | _, _ => (metadata, reversed)
  end.

Definition fragments_bytes (fragments : list Fragment) : nat :=
  list_sum (List.map (λ f, String.length (text f)) fragments).

(** ** The rewritten text *)

Definition piece_of (rewritten piece_text : string) (o : option QuerySourceSpan) : SourcePiece :=
  {| rewritten_start := string_len rewritten; rewritten_len := string_len piece_text; origin := o |}.

Definition push_piece (acc : string * list SourcePiece) (piece_text : string)
    (o : option QuerySourceSpan) : string * list SourcePiece :=
  (acc.1 +:+ piece_text, acc.2 ++ [piece_of acc.1 piece_text o]).

Definition push_fragment (acc : string * list SourcePiece) (indexed : nat * Fragment)
    : string * list SourcePiece :=
  let '(idx, fragment) := indexed in
  let acc := if (0 <? idx)%nat then push_piece acc " " None else acc in
  push_piece acc (text fragment) (Some (fragment_origin fragment)).

Definition from_first (fragments : list Fragment) : bool :=
  match fragments with
  | fragment :: _ => str_starts_with "FROM " (to_ascii_uppercase (text fragment))
  | [] => false
  end.

Definition rewrite_fragments (fragments : list Fragment) : string * list SourcePiece :=
  let start := ("", []) in
  let start := if from_first fragments then push_piece start "SELECT * " None else start in
  foldl push_fragment start (imap pair fragments).

(** What [parse_syql] computes before it calls the SQL frontend. *)
Definition syql_source (input : string) : bool * DialectMetadata * SourceMap :=
  let '(explain, rest, rest_offset) := strip_leading_explain input in
  let '(metadata, fragments) :=
    read_lines rest_offset (split_char newline rest) DialectMetadata_default [] in
  let '(metadata, reversed) :=
    strip_directives (S (fragments_bytes fragments)) metadata (rev fragments) in
  let '(rewritten, ps) := rewrite_fragments (rev reversed) in
  (explain, metadata, SourceMap_new rewritten ps).

Definition parse_syql `{!SqlParser} (input : string) : Result ParsedQuery :=
  let '(explain, metadata, source_map) := syql_source input in
  parse_sql_with_source_map "syql" input source_map explain metadata.

Definition SyqlDialect `{!SqlParser} : Dialect :=
  {| dialect_name := "syql"; dialect_parse := parse_syql |}.

(** The two tests of the source. *)
Definition lf : string := String newline "".
Example source_of_lines :
  (let '(explain, metadata, map) :=
     syql_source ("EXPLAIN" +:+ lf +:+ "FROM records" +:+ lf +:+ "WHERE score > 100" +:+ lf
                  +:+ "SCOPE federation" +:+ lf +:+ "DOWNLOAD parquet") in
   (explain, DialectMetadata_get metadata "syql.scope", DialectMetadata_get metadata "syql.download",
    rewritten_sql map))
  = (true, Some "federation", Some "parquet", "SELECT * FROM records WHERE score > 100").
Proof. vm_compute. reflexivity. Qed.

Example source_of_one_line :
  (let '(explain, metadata, map) := syql_source "FROM records WHERE score > 100 SCOPE remote DOWNLOAD csv" in
   (explain, DialectMetadata_get metadata "syql.scope", DialectMetadata_get metadata "syql.download",
    rewritten_sql map, pieces map))
  = (false, Some "remote", Some "csv", "SELECT * FROM records WHERE score > 100",
     [{| rewritten_start := 0; rewritten_len := 9; origin := None |};
      {| rewritten_start := 9; rewritten_len := 30; origin := Some {| offset := 0; len := 30 |} |}]).
Proof. vm_compute. reflexivity. Qed.

(** The SyQL frontend ([Syql]): the source map it builds, the end of its loop
    and the directives it reads. *)

(** ** Fragments are pieces of the input *)

Definition fragment_in (input : string) (f : Fragment) : Prop :=
  ∃ before after, input = before +:+ text f +:+ after
  ∧ offset (fragment_origin f) = string_len before ∧ len (fragment_origin f) = string_len (text f).

Lemma join_split s : string_join lf (split_char newline s) = s.
Proof.
  induction s as [|c s IH]; [done|]. cbn [split_char]. destruct (Ascii.eqb_spec c newline) as [->|].
  - destruct (split_char newline s) eqn:Hs; [by apply split_char_not_nil in Hs|].
    cbn [string_join]. by rewrite <- IH.
  - destruct (split_char newline s) as [|first [|second rest]] eqn:Hs; [by apply split_char_not_nil in Hs|..].
    + simpl in *. by rewrite IH.
    + cbn [string_join] in *. rewrite string_app_cons. by rewrite IH.
Qed.

Lemma read_lines_in input lines : ∀ before line_offset metadata fragments,
  lines ≠ [] → input = before +:+ string_join lf lines → line_offset = string_len before →
  Forall (fragment_in input) fragments →
  Forall (fragment_in input) (read_lines line_offset lines metadata fragments).2.
Proof.
  induction lines as [|line lines IH]; intros before off metadata fragments Hne Hin -> Hf; [done|].
  assert (∀ metadata fragments, Forall (fragment_in input) fragments →
    Forall (fragment_in input)
      (read_lines (string_len before + (string_len line + 1)) lines metadata fragments).2) as Hnext.
  { intros m fs Hfs. destruct lines as [|line' lines]; [done|].
    apply (IH (before +:+ line +:+ lf)); [done| | |done].
    - rewrite Hin. cbn [string_join]. by rewrite !string_app_assoc.
    - rewrite !string_len_app. done. }
  cbn [read_lines]. destruct (String.eqb (trim line) ""); [auto|].
  destruct (strip_prefix "SCOPE " _); [auto|]. destruct (strip_prefix "DOWNLOAD " _); [auto|].
  apply Hnext, Forall_app. split; [done|]. constructor; [|done].
  destruct (trim_middle line) as (p & q & Hline & Hp).
  assert (∃ after, input = before +:+ line +:+ after) as [after ->].
  { rewrite Hin. destruct lines; cbn [string_join]; [exists ""; by rewrite string_app_nil_r|by eexists]. }
  exists (before +:+ p), (q +:+ after). simpl. split; [|by rewrite string_len_app, Hp].
  rewrite Hline at 1. by rewrite !string_app_assoc.
Qed.

(** ** Directives *)

Lemma str_take_drop n s : s = str_take n s +:+ str_drop n s.
Proof.
  revert s. induction n as [|n IH]; intros s; [done|]. destruct s as [|c s]; [done|].
  cbn [str_take str_drop]. rewrite string_app_cons. by f_equal.
Qed.

Lemma string_length_zero s : String.length s = 0 → s = "".
Proof. by destruct s. Qed.

(** What is left is a part of the front of the text, and shorter. *)
Lemma try_directive_front input upper needle key prefix value key' :
  needle ≠ "" → String.length upper = String.length input →
  try_directive input upper needle key = Some (prefix, value, key') →
  ∃ after, input = prefix +:+ after ∧ after ≠ "".
Proof.
  intros Hneedle Hlen. unfold try_directive. destruct (rfind needle upper) as [idx|]; [|done].
  destruct (String.eqb_spec (trim (str_drop (idx + String.length needle) input)) "") as [|Hv]; [done|].
  destruct (contains_white _); [done|]. cbn [negb andb]. intros [= <- _ _].
  destruct (trim_end_prefix (str_take idx input)) as [q Hq].
  exists (q +:+ str_drop idx input). split.
  - by rewrite <- string_app_assoc, <- Hq, <- str_take_drop.
  - intros E%(f_equal String.length). rewrite string_length_app in E. simpl in E. apply Hv.
    assert (str_drop idx input = "") as Hd by (apply string_length_zero; lia).
    assert (∀ n s, str_drop n s = "" → ∀ m, str_drop (n + m) s = "") as Hmore.
    { clear. induction n as [|n IH]; intros s H m; destruct s; simpl in *; [by destruct m|done..|by apply IH]. }
    by rewrite (Hmore _ _ Hd).
Qed.

Lemma upper_length s : String.length (to_ascii_uppercase s) = String.length s.
Proof. induction s; simpl; congruence. Qed.

Lemma strip_trailing_front input prefix value key :
  strip_trailing_directive input = Some (prefix, value, key) → ∃ after, input = prefix +:+ after ∧ after ≠ "".
Proof.
  unfold strip_trailing_directive, option_or_else.
  destruct (try_directive input _ " DOWNLOAD " _) as [[[p v] k]|] eqn:Hd.
  - intros [= -> -> ->]. eapply try_directive_front; [..|exact Hd]; [done|apply upper_length].
  - intros H. eapply try_directive_front; [..|exact H]; [done|apply upper_length].
Qed.

Lemma strip_directives_in input fuel metadata reversed :
  Forall (fragment_in input) reversed →
  Forall (fragment_in input) (strip_directives fuel metadata reversed).2.
Proof.
  revert metadata reversed. induction fuel as [|fuel IH]; intros metadata reversed H; [done|].
  destruct reversed as [|last rest]; [done|]. cbn [strip_directives].
  destruct (strip_trailing_directive (text last)) as [[[prefix value] key]|] eqn:Hs; [|done].
  apply Forall_cons in H as [(before & after & Hi & Ho & Hl) Hrest]. apply IH.
  destruct (String.eqb prefix ""); [done|]. constructor; [|done].
  apply strip_trailing_front in Hs as (back & Ht & _).
  exists before, (back +:+ after). simpl. split_and!; [|done..].
  by rewrite Hi, Ht, string_app_assoc.
Qed.

Lemma fragments_bytes_rev l : fragments_bytes (rev l) = fragments_bytes l.
Proof.
  unfold fragments_bytes. rewrite List.map_rev. induction l as [|f l IH]; [done|]. simpl.
  rewrite list_sum_app. simpl in *. lia.
Qed.

(** The loop ends because no directive is left, never for lack of fuel. *)
Theorem strip_directives_reaches_the_end (fuel : nat) (metadata : DialectMetadata) (reversed : list Fragment) :
  fragments_bytes reversed < fuel →
  match (strip_directives fuel metadata reversed).2 with
  | [] => True
  | last :: _ => strip_trailing_directive (text last) = None
  end.
Proof.
  revert metadata reversed. induction fuel as [|fuel IH]; intros metadata reversed Hb; [lia|].
  destruct reversed as [|last rest]; [done|]. cbn [strip_directives].
  destruct (strip_trailing_directive (text last)) as [[[prefix value] key]|] eqn:Hs; [|done].
  apply IH. apply strip_trailing_front in Hs as (back & Ht & Hne).
  unfold fragments_bytes in *. simpl in Hb. rewrite Ht, string_length_app in Hb.
  assert (String.length back ≠ 0) by (intros ?%string_length_zero; done).
  destruct (String.eqb prefix ""); simpl; lia.
Qed.

(** ** The source map *)

(** The pieces so far tile the text so far, and each is a part of it that is
    also the part of the input at its origin. *)
Definition built_piece (input sql : string) (p : SourcePiece) : Prop :=
  ∃ before part after, sql = before +:+ part +:+ after
  ∧ rewritten_start p = string_len before ∧ rewritten_len p = string_len part
  ∧ ∀ o, origin p = Some o → len o = string_len part ∧ (span_end o ≤ string_len input)%N
                             ∧ slice input o = part.

Definition built (input : string) (acc : string * list SourcePiece) : Prop :=
  tile 0 acc.2 (string_len acc.1) ∧ Forall (built_piece input acc.1) acc.2.

Lemma built_faithful input acc : built input acc → faithful input (SourceMap_new acc.1 acc.2).
Proof.
  intros [Ht Hp]. split; [done|]. eapply Forall_impl; [exact Hp|].
  intros p (before & part & after & Hsql & Hs & Hl & Ho) o Horigin.
  destruct (Ho o Horigin) as (Hlen & Hend & Hslice). split_and!; [congruence|done|].
  rewrite Hslice. by eapply slice_at.
Qed.

Lemma tile_app start ps qs middle stop :
  tile start ps middle → tile middle qs stop → tile start (ps ++ qs) stop.
Proof.
  revert start. induction ps as [|p ps IH]; intros start; simpl; [by intros ->|].
  intros [? ?] ?. split; auto.
Qed.

Lemma push_piece_built input acc part o :
  built input acc →
  (∀ o', o = Some o' → len o' = string_len part ∧ (span_end o' ≤ string_len input)%N
                       ∧ slice input o' = part) →
  built input (push_piece acc part o).
Proof.
  intros [Ht Hp] Ho. split; simpl.
  - eapply tile_app; [exact Ht|]. simpl. by rewrite string_len_app.
  - apply Forall_app. split.
    + eapply Forall_impl; [exact Hp|]. intros p (before & t & after & -> & H).
      exists before, t, (after +:+ part). by rewrite !string_app_assoc.
    + constructor; [|done]. exists acc.1, part, "". by rewrite string_app_nil_r.
Qed.

Lemma push_fragment_built input acc idx f :
  built input acc → fragment_in input f → built input (push_fragment acc (idx, f)).
Proof.
  intros Hb (before & after & Hi & Ho & Hl). simpl. apply push_piece_built.
  - destruct (0 <? idx)%nat; [by apply push_piece_built|done].
  - intros o' [= <-]. split_and!; [done| |].
    + unfold span_end. rewrite Ho, Hl, Hi, !string_len_app. lia.
    + destruct (fragment_origin f) as [o l]. simpl in *. by eapply slice_at.
Qed.

Lemma rewrite_fragments_built input fragments :
  Forall (fragment_in input) fragments → built input (rewrite_fragments fragments).
Proof.
  intros Hf. unfold rewrite_fragments.
  set (start := if from_first fragments then _ else _).
  assert (built input start) as Hstart.
  { subst start. assert (built input ("", [])) by (split; [done|constructor]).
    destruct (from_first fragments); [by apply push_piece_built|done]. }
  clearbody start.
  assert (∀ k acc, built input acc →
    built input (foldl push_fragment acc (imap (λ i f, (k + i, f)) fragments))) as H.
  { clear start Hstart. induction Hf as [|f fragments Hf _ IH]; intros k acc Hacc; [done|].
    simpl. rewrite (imap_ext _ (λ i f, (S k + i, f))) by (intros; simpl; f_equal; lia).
    apply IH. by apply push_fragment_built. }
  apply (H 0 start Hstart).
Qed.

(** Whatever the input, the pieces of the source map follow each other and
    cover the SQL text, and each piece that has an origin is, byte for byte,
    the text of the input at that origin. *)
Theorem syql_source_is_faithful (input : string) : faithful input (syql_source input).2.
Proof.
  unfold syql_source. destruct (strip_leading_explain input) as [[explain rest] rest_offset] eqn:He.
  apply strip_leading_explain_suffix in He as (before & Hi & <-).
  pose proof (read_lines_in input (split_char newline rest) before (string_len before)
    DialectMetadata_default [] (split_char_not_nil _ _)) as Hr.
  rewrite join_split in Hr. specialize (Hr Hi eq_refl (Forall_nil_2 _)).
  destruct (read_lines _ _ _ _) as [metadata fragments]. simpl in Hr.
  apply Forall_rev in Hr.
  apply (strip_directives_in _ (S (fragments_bytes fragments)) metadata) in Hr.
  destruct (strip_directives _ _ _) as [metadata' reversed]. simpl in Hr.
  apply Forall_rev, rewrite_fragments_built in Hr.
  destruct (rewrite_fragments (rev reversed)) as [sql ps]. by apply built_faithful in Hr.
Qed.

(** C8: a span the SyQL frontend reports lies in the user's text, and covers,
    for every piece the span touches, the very text of that piece there. *)
Theorem syql_spans_point_at_the_input (span_empty : SqlSpan) (input : string) (span : SqlSpan)
    (result : QuerySourceSpan) :
  map_sql_span span_empty (syql_source input).2 span = Some result →
  (span_end result ≤ string_len input)%N
  ∧ ∃ rewritten, span_to_rewritten span_empty (syql_source input).2 span = Some rewritten
  ∧ ∀ piece o, piece ∈ pieces (syql_source input).2 → overlaps piece rewritten = true →
      origin piece = Some o →
      within o result
      ∧ slice input o = slice (rewritten_sql (syql_source input).2)
                          {| offset := rewritten_start piece; len := rewritten_len piece |}.
Proof.
  intros H. pose proof (syql_source_is_faithful input) as Hf.
  split; [by eapply faithful_in_source|].
  destruct (map_sql_span_is_the_hull _ _ _ _ H) as (rewritten & Hr & Hall & _). exists rewritten.
  split; [done|]. intros piece o Hp Hov Ho. destruct Hf as [_ Hf]. rewrite Forall_forall in Hf.
  destruct (Hf piece Hp o Ho) as (_ & _ & ->). split; [|done]. apply Hall.
  apply list_elem_of_omap. exists piece. by rewrite Hov.
Qed.

Definition spanned : string :=
  "  FROM records" +:+ lf +:+ "SCOPE remote" +:+ lf +:+ "  WHERE score > 100".

Lemma syql_spans_point_at_the_input_witness :
  let location := λ c, {| line := 1; column := c |} in
  let span_empty := {| span_start := {| line := 0; column := 0 |};
                       span_stop := {| line := 0; column := 0 |} |} in
  let span := {| span_start := location 29%N; span_stop := location 34%N |} in
  map_sql_span span_empty (syql_source spanned).2 span = Some {| offset := 30; len := 17 |}
  ∧ slice spanned {| offset := 30; len := 17 |} = "WHERE score > 100"
  ∧ (47 ≤ string_len spanned)%N.
Proof.
  intros location span_empty span. assert (map_sql_span span_empty (syql_source spanned).2 span
    = Some {| offset := 30; len := 17 |}) as H by (vm_compute; reflexivity).
  split; [exact H|]. split; [vm_compute; reflexivity|].
  exact (proj1 (syql_spans_point_at_the_input span_empty spanned span _ H)).
Defined.

(** ** Directives at the end *)

Lemma rfind_app needle a s i : rfind needle s = Some i → rfind needle (a +:+ s) = Some (String.length a + i).
Proof.
  intros H. induction a as [|c a IH]; [done|]. rewrite string_app_cons. cbn [rfind]. by rewrite IH.
Qed.

Lemma white_space_char c : white_1 c = false → c ≠ " "%char.
Proof. by intros H ->. Qed.

Lemma upper_space c : ascii_to_upper c = " "%char → c = " "%char.
Proof. destruct c as [[] [] [] [] [] [] [] []]; vm_compute; congruence. Qed.

(** Without white space there is no space, in capitals either. *)
Lemma find_space_upper v : contains_white v = false → find_char " " (to_ascii_uppercase v) = None.
Proof.
  induction v as [|c v IH]; [done|]. cbn [contains_white starts_with_white].
  intros [[Hc _]%orb_false_iff Hv]%orb_false_iff. cbn [to_ascii_uppercase find_char].
  destruct (Ascii.eqb_spec (ascii_to_upper c) " ") as [E|_]; [|by rewrite IH].
  by apply upper_space, white_space_char in E.
Qed.

Lemma rfind_no_space needle s : find_char " " s = None → rfind (String " " needle) s = None.
Proof.
  induction s as [|c s IH]; [done|]. cbn [find_char rfind]. destruct (Ascii.eqb_spec c " ") as [|Hc]; [done|].
  intros H. rewrite IH by (by destruct (find_char " " s)).
  unfold str_starts_with. cbn [strip_prefix]. by destruct (Ascii.eqb_spec " " c) as [<-|].
Qed.

Lemma strip_prefix_no_space a b s : find_char " " s = None → strip_prefix (a +:+ String " " b) s = None.
Proof.
  revert s. induction a as [|x a IH]; intros [|c s]; [done| |done|]; cbn [find_char].
  - destruct (Ascii.eqb_spec c " ") as [|Hc]; [done|]. intros _. rewrite string_app_nil_l. cbn [strip_prefix]. by destruct (Ascii.eqb_spec " " c) as [<-|].
  - destruct (Ascii.eqb_spec c " "); [done|]. intros H. rewrite string_app_cons. cbn [strip_prefix].
    destruct (Ascii.eqb x c); [|done]. apply IH. by destruct (find_char " " s).
Qed.

Lemma upper_app a b : to_ascii_uppercase (a +:+ b) = to_ascii_uppercase a +:+ to_ascii_uppercase b.
Proof. induction a as [|c a IH]; [done|]. rewrite !string_app_cons. cbn. by rewrite IH. Qed.

Lemma trim_no_white v : contains_white v = false → trim v = v.
Proof.
  intros H. unfold trim. assert (∀ s, contains_white s = false → trim_start s = s) as Hstart.
  { intros [|c s]; [done|]. cbn [contains_white]. intros [H' _]%orb_false_iff. by apply trim_start_fixed. }
  rewrite Hstart by done. induction v as [|c v IH]; [done|]. cbn [trim_end]. rewrite Hstart by done.
  cbn [String.eqb]. f_equal. apply IH. cbn [contains_white] in H. by apply orb_false_iff in H as [_ ?].
Qed.

Lemma str_take_length_app a b : str_take (String.length a) (a +:+ b) = a.
Proof. apply str_take_app. Qed.

(** A directive word, between spaces, and a value without white space at the
    end of a text are found. *)
Lemma try_directive_last body word v key :
  find_char " " word = None → word ≠ "" → to_ascii_uppercase word = word →
  v ≠ "" → contains_white v = false →
  let input := body +:+ " " +:+ word +:+ " " +:+ v in
  try_directive input (to_ascii_uppercase input) (" " +:+ word +:+ " ") key = Some (trim_end body, v, key).
Proof.
  intros Hword Hne Hupper Hv Hwhite input. unfold try_directive.
  assert (rfind (" " +:+ word +:+ " ") (to_ascii_uppercase input) = Some (String.length body)) as ->.
  { subst input. rewrite !upper_app. change (to_ascii_uppercase " ") with " ". rewrite Hupper.
    rewrite <- (upper_length body), <- (Nat.add_0_r (String.length _)). apply rfind_app.
    assert (str_starts_with (" " +:+ word +:+ " ") (" " +:+ word +:+ " " +:+ to_ascii_uppercase v) = true) as Hs.
    { unfold str_starts_with.
      replace (" " +:+ word +:+ " " +:+ to_ascii_uppercase v)
        with ((" " +:+ word +:+ " ") +:+ to_ascii_uppercase v) by (by rewrite !string_app_assoc).
      by rewrite strip_prefix_app. }
    assert (rfind (" " +:+ word +:+ " ") (word +:+ " " +:+ to_ascii_uppercase v) = None) as Hnone.
    { apply find_space_upper in Hwhite. clear - Hword Hne Hwhite.
      assert (rfind (" " +:+ word +:+ " ") (" " +:+ to_ascii_uppercase v) = None) as Hlast.
      { change (" " +:+ to_ascii_uppercase v) with (String " " (to_ascii_uppercase v)).
        change (" " +:+ word +:+ " ") with (String " " (word +:+ " ")). cbn [rfind].
        rewrite rfind_no_space by done. unfold str_starts_with. cbn [strip_prefix].
        rewrite Ascii.eqb_refl. by rewrite (strip_prefix_no_space word "") by done. }
      revert Hlast. generalize (" " +:+ to_ascii_uppercase v). intros rest Hlast.
      assert (∀ w, find_char " " w = None →
        rfind (String " " (word +:+ " ")) (w +:+ rest) = None) as H; [|by apply H].
      induction w as [|c w IH]; [done|]. cbn [find_char]. destruct (Ascii.eqb_spec c " ") as [|Hc]; [done|].
      intros Hw. rewrite string_app_cons. cbn [rfind]. rewrite IH by (by destruct (find_char " " w)).
      unfold str_starts_with. cbn [strip_prefix]. by destruct (Ascii.eqb_spec " " c) as [<-|]. }
    change (" " +:+ word +:+ " " +:+ to_ascii_uppercase v)
      with (String " " (word +:+ " " +:+ to_ascii_uppercase v)) in Hs |- *.
    cbn [rfind]. by rewrite Hnone, Hs. }
  subst input. rewrite str_take_app, <- string_length_app.
  replace (body +:+ " " +:+ word +:+ " " +:+ v) with ((body +:+ " " +:+ word +:+ " ") +:+ v)
    by (by rewrite !string_app_assoc).
  rewrite str_drop_app, trim_no_white, Hwhite by done. by destruct (String.eqb_spec v "").
Qed.

(** A value: not empty, without white space, and starting at a character (not
    with one of the bytes 128 to 191, which continue one). *)
Definition starts_char (v : string) : Prop :=
  match v with EmptyString => True | String c _ => (N_of_ascii c < 128 ∨ 192 ≤ N_of_ascii c)%N end.

Definition token (v : string) : Prop := v ≠ "" ∧ contains_white v = false ∧ starts_char v.

Lemma strip_download body v :
  token v → strip_trailing_directive (body +:+ " DOWNLOAD " +:+ v) = Some (trim_end body, v, "syql.download").
Proof.
  intros (Hne & Hw & _). unfold strip_trailing_directive.
  pose proof (try_directive_last body "DOWNLOAD" v "syql.download" eq_refl ltac:(done) eq_refl Hne Hw) as H.
  change (" " +:+ "DOWNLOAD" +:+ " " +:+ v) with (" DOWNLOAD " +:+ v) in H.
  change (" " +:+ "DOWNLOAD" +:+ " ") with " DOWNLOAD " in H. cbv zeta in H. by rewrite H.
Qed.

Lemma strip_scope body v :
  token v → rfind " DOWNLOAD " (to_ascii_uppercase (body +:+ " SCOPE " +:+ v)) = None →
  strip_trailing_directive (body +:+ " SCOPE " +:+ v) = Some (trim_end body, v, "syql.scope").
Proof.
  intros (Hne & Hw & _) Hd. unfold strip_trailing_directive. unfold try_directive at 1. rewrite Hd.
  pose proof (try_directive_last body "SCOPE" v "syql.scope" eq_refl ltac:(done) eq_refl Hne Hw) as H.
  change (" " +:+ "SCOPE" +:+ " " +:+ v) with (" SCOPE " +:+ v) in H.
  change (" " +:+ "SCOPE" +:+ " ") with " SCOPE " in H. cbv zeta in H. by rewrite H.
Qed.

(** The text stays as it is when its last fragment has no directive. *)
Lemma strip_directives_stop fuel metadata last rest :
  strip_trailing_directive (text last) = None →
  strip_directives fuel metadata (last :: rest) = (metadata, last :: rest).
Proof. intros H. destruct fuel; [done|]. cbn [strip_directives]. by rewrite H. Qed.

(** A byte that starts a character does not continue white space. *)
Lemma white_2_start a b : (N_of_ascii b < 128 ∨ 192 ≤ N_of_ascii b)%N → white_2 a b = false.
Proof. unfold white_2. intros H. destruct (N.eqb_spec (N_of_ascii b) 133), (N.eqb_spec (N_of_ascii b) 160); [lia..|].
  apply andb_false_r. Qed.

Lemma white_3_start2 a b c : (N_of_ascii b < 128 ∨ 192 ≤ N_of_ascii b)%N → white_3 a b c = false.
Proof.
  unfold white_3. intros H. destruct (N.eqb_spec (N_of_ascii b) 154), (N.eqb_spec (N_of_ascii b) 128),
    (N.eqb_spec (N_of_ascii b) 129); try lia; by rewrite ?andb_false_r.
Qed.

Lemma white_3_start3 a b c : (N_of_ascii c < 128 ∨ 192 ≤ N_of_ascii c)%N → white_3 a b c = false.
Proof.
  unfold white_3. intros H. apply not_true_is_false. rewrite !orb_true_iff, !andb_true_iff.
  rewrite !orb_true_iff, !andb_true_iff, !N.eqb_eq, !N.leb_le. lia.
Qed.

Lemma trim_start_token a v : token v → trim_start (a +:+ v) ≠ "".
Proof.
  intros (Hne & Hw & Hc). destruct v as [|x v]; [done|]. simpl in Hc.
  assert (starts_with_white (String x v) = false) as Hs by (cbn [contains_white] in Hw; by apply orb_false_iff in Hw as [? _]).
  induction a as [[|a l] IH] using (induction_ltof1 _ String.length); unfold ltof in IH.
  { rewrite string_app_nil_l. by rewrite trim_start_fixed. }
  rewrite string_app_cons. cbn [trim_start]. destruct (white_1 a); [apply IH; simpl; lia|].
  destruct l as [|b l].
  - rewrite string_app_nil_l. rewrite white_2_start by done. destruct v as [|y v]; [done|].
    by rewrite white_3_start2.
  - rewrite string_app_cons. destruct (white_2 a b); [apply IH; simpl; lia|]. destruct l as [|d l].
    + rewrite string_app_nil_l. by rewrite white_3_start3.
    + rewrite string_app_cons. destruct (white_3 a b d); [apply IH; simpl; lia|done].
Qed.

Lemma trim_end_token body v : token v → trim_end (body +:+ v) = body +:+ v.
Proof.
  intros Ht. induction body as [|c body IH].
  - destruct Ht as (_ & Hw & _). rewrite string_app_nil_l. rewrite <- (trim_no_white v Hw) at 2. unfold trim.
    rewrite trim_start_fixed; [done|]. destruct v; [done|]. cbn [contains_white] in Hw.
    by apply orb_false_iff in Hw as [? _].
  - rewrite string_app_cons. cbn [trim_end]. rewrite IH. rewrite <- string_app_cons.
    destruct (String.eqb_spec (trim_start (String c body +:+ v)) "") as [E|]; [|done].
    by apply trim_start_token in E.
Qed.

(** Directives at the end of a query of one line are read: the words after
    [SCOPE] and [DOWNLOAD] become the metadata, in lower case, and the SQL text
    is the query before them, after [SELECT *] when it starts with [FROM]. *)
Theorem trailing_directives_are_read (query scope download : string) :
  let front := query +:+ " SCOPE " +:+ scope in
  let input := front +:+ " DOWNLOAD " +:+ download in
  token scope → token download →
  strip_leading_explain input = (false, input, 0%N) → trim_start input = input →
  split_char newline input = [input] →
  strip_prefix "SCOPE " (to_ascii_uppercase input) = None →
  strip_prefix "DOWNLOAD " (to_ascii_uppercase input) = None →
  rfind " DOWNLOAD " (to_ascii_uppercase front) = None →
  query ≠ "" → trim_end query = query → strip_trailing_directive query = None →
  ∃ metadata map, syql_source input = (false, metadata, map)
  ∧ DialectMetadata_get metadata "syql.scope" = Some (to_ascii_lowercase scope)
  ∧ DialectMetadata_get metadata "syql.download" = Some (to_ascii_lowercase download)
  ∧ rewritten_sql map
    = (if str_starts_with "FROM " (to_ascii_uppercase query) then "SELECT * " else "") +:+ query.
Proof.
  intros front input Hscope Hdownload Hexplain Hstart Hline Hs Hd Hfront Hne Htrim Hquery.
  unfold syql_source. rewrite Hexplain, Hline. cbn [read_lines].
  assert (trim input = input) as ->.
  { unfold trim. rewrite Hstart. subst input. rewrite <- string_app_assoc. by apply trim_end_token. }
  destruct (String.eqb_spec input "") as [E|_].
  { apply (f_equal String.length) in E. subst input front. rewrite !string_length_app in E. simpl in E. lia. }
  rewrite Hs, Hd. cbn [read_lines app rev].
  set (f := {| text := input; fragment_origin := _ |}).
  assert (2 ≤ fragments_bytes [f]) as Hbytes.
  { unfold fragments_bytes. simpl. subst input front. rewrite !string_length_app. simpl. lia. }
  destruct (fragments_bytes [f]) as [|[|n]]; [lia..|]. clear Hbytes.
  cbn [strip_directives]. change (text f) with input. unfold input at 1.
  rewrite strip_download by done. assert (trim_end front = front) as ->.
  { subst front. rewrite <- string_app_assoc. by apply trim_end_token. }
  destruct (String.eqb_spec front "") as [E|_].
  { apply (f_equal String.length) in E. subst front. rewrite !string_length_app in E. simpl in E. lia. }
  cbn [text]. unfold front at 1. rewrite strip_scope by done. rewrite Htrim.
  destruct (String.eqb_spec query ""); [done|].
  cbn [text]. rewrite Hquery. cbn [rev app].
  eexists _, _. split; [reflexivity|].
  unfold DialectMetadata_get, DialectMetadata_insert. cbn [entries].
  split; [by rewrite bt_get_insert_eq|]. split; [by rewrite bt_get_insert_ne, bt_get_insert_eq|].
  unfold rewrite_fragments, from_first. cbn [text imap foldl push_fragment].
  destruct (str_starts_with "FROM " _); done.
Qed.

Lemma trailing_directives_are_read_witness :
  ∃ metadata map, syql_source "FROM records WHERE score > 100 SCOPE remote DOWNLOAD csv" = (false, metadata, map)
  ∧ DialectMetadata_get metadata "syql.scope" = Some "remote"
  ∧ DialectMetadata_get metadata "syql.download" = Some "csv"
  ∧ rewritten_sql map = "SELECT * FROM records WHERE score > 100".
Proof.
  apply (trailing_directives_are_read "FROM records WHERE score > 100" "remote" "csv");
    vm_compute; first [reflexivity | split_and!; first [left; reflexivity | discriminate | reflexivity] | discriminate].
Defined.

(** A run of SyQL: what reaches the SQL frontend, and a map faithful to it. *)
Theorem parse_syql_Ok `{!SqlParser} (input : string) (parsed : ParsedQuery) :
  parse_syql input = Ok parsed →
  ∃ explain metadata map query rest,
    syql_source input = (explain, metadata, map) ∧ faithful input map
    ∧ trim (rewritten_sql map) ≠ "" ∧ Parser_parse_sql (rewritten_sql map) = Ok (inl query :: rest)
    ∧ pq_dialect parsed = "syql" ∧ pq_source_sql parsed = input ∧ pq_explain parsed = explain
    ∧ pq_dialect_metadata parsed = metadata ∧ pq_canonical_sql parsed = ast_to_string query
    ∧ (pq_syntax parsed, pq_lowering_diagnostics parsed) = lower_query map query "query".
Proof.
  unfold parse_syql. pose proof (syql_source_is_faithful input) as Hf.
  destruct (syql_source input) as [[explain metadata] map]. unfold parse_sql_with_source_map.
  destruct (String.eqb_spec (trim (rewritten_sql map)) ""); [done|].
  destruct (Parser_parse_sql (rewritten_sql map)) as [statements|] eqn:Hparse; [|done]. simpl.
  destruct statements as [|[query|other] rest]; [done| |done]. simpl.
  destruct (lower_query map query "query") as [syntax ds] eqn:Hl. intros [= <-].
  by exists explain, metadata, map, query, rest.
Qed.

(** ** What joining the lines does

    The lines become one: a comment to the end of its line hides the lines
    after it, and a directive is recognised inside a string literal. *)
Example comment_hides_the_condition :
  rewritten_sql (syql_source ("FROM records -- all of them" +:+ lf +:+ "WHERE score > 100")).2
  = "SELECT * FROM records -- all of them WHERE score > 100".
Proof. vm_compute. reflexivity. Qed.

Example directive_inside_a_literal :
  (let '(_, metadata, map) := syql_source "FROM records WHERE note = 'the SCOPE remote'" in
   (DialectMetadata_get metadata "syql.scope", rewritten_sql map))
  = (Some "remote'", "SELECT * FROM records WHERE note = 'the").
Proof. vm_compute. reflexivity. Qed.
