(* ===== verification/Json.v ===== *)
(** JSON documents: the values of the third-party crate [serde_json], as the
    code under src/ matches on them.

    A number is abstract.  An object is the list of its entries, with distinct
    keys, in the order in which the crate iterates them: by key, or, with a
    feature of the crate, as they were inserted. *)
From S2P Require Import Prelude.

Inductive Json (Number : Type) : Type :=
| JNull
| JBool (value : bool)
| JNumber (number : Number)
| JString (value : string)
| JArray (values : list (Json Number))
| JObject (entries : list (string * Json Number)).
Arguments JNull {Number}. Arguments JBool {Number}. Arguments JNumber {Number}.
Arguments JString {Number}. Arguments JArray {Number}. Arguments JObject {Number}.

(** [Map::get]. *)
Fixpoint json_get {V} (key : string) (entries : list (string * V)) : option V :=
  match entries with
  | [] => None
  | (k, v) :: entries => if String.eqb k key then Some v else json_get key entries
  end.

(** Induction through arrays and objects. *)
Section JsonInduction.
Context {Number : Type} (P : Json Number → Prop).
Hypothesis HNull : P JNull.
Hypothesis HBool : ∀ b, P (JBool b).
Hypothesis HNumber : ∀ n, P (JNumber n).
Hypothesis HString : ∀ s, P (JString s).
Hypothesis HArray : ∀ values, Forall P values → P (JArray values).
Hypothesis HObject : ∀ entries, Forall (λ kv, P kv.2) entries → P (JObject entries).

Fixpoint Json_nested_ind (value : Json Number) : P value.
Proof.
  destruct value as [|b|n|s|values|entries]; [apply HNull|apply HBool|apply HNumber|apply HString| |].
  - apply HArray. induction values as [|v values IH]; constructor; [apply Json_nested_ind|exact IH].
  - apply HObject. induction entries as [|[k v] entries IH]; constructor; [apply Json_nested_ind|exact IH].
Qed.
End JsonInduction.

(** ** Equality of documents: objects up to the order of their entries *)

Inductive json_equiv {Number} : Json Number → Json Number → Prop :=
| equiv_null : json_equiv JNull JNull
| equiv_bool b : json_equiv (JBool b) (JBool b)
| equiv_number n : json_equiv (JNumber n) (JNumber n)
| equiv_string s : json_equiv (JString s) (JString s)
| equiv_array vs ws : Forall2 json_equiv vs ws → json_equiv (JArray vs) (JArray ws)
| equiv_object es fs gs hs :
    es ≡ₚ fs → Forall2 (λ f g, f.1 = g.1 ∧ json_equiv f.2 g.2) fs gs → gs ≡ₚ hs →
    json_equiv (JObject es) (JObject hs).

(** Every object in the document has distinct keys. *)
Inductive json_wf {Number} : Json Number → Prop :=
| wf_null : json_wf JNull
| wf_bool b : json_wf (JBool b)
| wf_number n : json_wf (JNumber n)
| wf_string s : json_wf (JString s)
| wf_array vs : Forall json_wf vs → json_wf (JArray vs)
| wf_object es : NoDup es.*1 → Forall (λ e, json_wf e.2) es → json_wf (JObject es).

Lemma json_get_elem {V} key (entries : list (string * V)) v :
  NoDup entries.*1 → (json_get key entries = Some v ↔ (key, v) ∈ entries).
Proof.
  induction entries as [|[k w] entries IH]; simpl; [split; [done|by intros ?%elem_of_nil]|].
  intros [Hk Hnd]%NoDup_cons. rewrite elem_of_cons. destruct (String.eqb_spec k key) as [->|Hne].
  - split; [intros [= ->]; by left|]. intros [[= ->]|Hin]; [done|].
    destruct Hk. apply list_elem_of_fmap. by exists (key, v).
  - rewrite IH by done. split; [by right|]. intros [[= -> ->]|]; done.
Qed.

(** ** Construction of objects *)

(** [Map::insert] and indexed assignment, in the order of iteration of the
    crate. *)
Class JsonMap (Number : Type) := {
  map_insert : string → Json Number → list (string * Json Number) → list (string * Json Number)
}.

(** A new key adds an entry. *)
Class LawfulJsonMap (Number : Type) `{!JsonMap Number} := {
  map_insert_new : ∀ key value entries, key ∉ entries.*1 → map_insert key value entries ≡ₚ (key, value) :: entries
}.

Section Construction.
Context {Number : Type} `{!JsonMap Number}.

(** The entries in the order in which they are inserted. *)
Definition json_object (entries : list (string * Json Number)) : list (string * Json Number) :=
  List.fold_left (λ es e, map_insert e.1 e.2 es) entries [].

Context `{!LawfulJsonMap Number}.

Lemma fold_insert_perm entries : ∀ es,
  NoDup (es.*1 ++ entries.*1) →
  List.fold_left (λ es e, map_insert e.1 e.2 es) entries es ≡ₚ es ++ entries.
Proof.
  induction entries as [|[k v] entries IH]; intros es Hnd; [by rewrite app_nil_r|]. csimpl in *.
  apply NoDup_app in Hnd as (Hes & Hdisj & [Hk Hnd]%NoDup_cons).
  assert (k ∉ es.*1) as Hnew by (intros H; by apply (Hdisj k H); left).
  assert (map_insert k v es ≡ₚ (k, v) :: es) as Hins by (by apply map_insert_new).
  rewrite IH.
  - rewrite Hins. simpl. by rewrite Permutation_middle.
  - assert ((map_insert k v es).*1 ≡ₚ k :: es.*1) as -> by (by rewrite Hins).
    simpl. apply NoDup_cons. split; [set_solver|]. apply NoDup_app. split_and!; [done| |done].
    intros x Hx. specialize (Hdisj x Hx). set_solver.
Qed.

Lemma json_object_perm entries : NoDup entries.*1 → json_object entries ≡ₚ entries.
Proof. intros H. apply (fold_insert_perm entries []). exact H. Qed.

Lemma json_wf_perm (es fs : list (string * Json Number)) : es ≡ₚ fs → json_wf (JObject fs) → json_wf (JObject es).
Proof. intros Hp. inversion 1; subst. constructor; by rewrite Hp. Qed.

Lemma json_object_wf entries :
  NoDup entries.*1 → Forall (λ e, json_wf e.2) entries → json_wf (JObject (json_object entries)).
Proof. intros Hnd Hf. eapply json_wf_perm; [by apply json_object_perm|by constructor]. Qed.

Lemma map_insert_wf key value entries :
  key ∉ entries.*1 → json_wf value → json_wf (JObject entries) → json_wf (JObject (map_insert key value entries)).
Proof.
  intros Hk Hv He. eapply json_wf_perm; [by apply map_insert_new|]. inversion He; subst. constructor; csimpl.
  - by constructor.
  - by constructor.
Qed.
End Construction.
