(* ===== verification/Inspect.v ===== *)
(** Inspection of parsed queries and JSON parameters:
    [queryfabric/src/inspect.rs].

    The summary of the parameters is threaded through the tree, in the order of
    the source.  A JSON document is the tree of the third-party crate
    [serde_json]; its numbers and the text it prints are the class
    [SerdeJson]. *)
From Stdlib Require Import Ascii.
From Stdlib Require Import Sorted.
From S2P Require Import Prelude BTreeMap Types Diagnostics Syntax Bound Json Catalog Bind Budget.
Local Open Scope result_scope.

(** ** Parameters of a query *)

Record ParameterSummary := { positional_count : N; named_params : list string }.

Definition ParameterSummary_default : ParameterSummary :=
  {| positional_count := 0; named_params := [] |}.

(** A [BTreeSet] is a map to the unit type. *)
Definition record_parameter (reference : ParameterRef) (summary : ParameterSummary) : ParameterSummary :=
  match reference with
  | Positional position =>
      {| positional_count := N.max (positional_count summary) position;
         named_params := named_params summary |}
  | Named name =>
      let names := bt_from_list (List.map (λ n, (n, tt)) (named_params summary)) in
      let names := bt_insert name tt names in
      {| positional_count := positional_count summary; named_params := bt_keys names |}
  end.

(** [for x in l { f(x, summary) }] and its [if let Some] form. *)
Definition visit_each {A} (f : A → ParameterSummary → ParameterSummary) (l : list A)
    (summary : ParameterSummary) : ParameterSummary :=
  List.fold_left (λ s x, f x s) l summary.

Definition visit_some {A} (f : A → ParameterSummary → ParameterSummary) (o : option A)
    (summary : ParameterSummary) : ParameterSummary :=
  match o with Some x => f x summary | None => summary end.

Fixpoint visit_query (query : SyntaxQuery) (s : ParameterSummary) : ParameterSummary :=
  match query with
  | MkSyntaxQuery _ ctes _ body order_by limit offset _ =>
      let s := visit_each (λ cte, visit_query (cte_query cte)) ctes s in
      let s := visit_set_expr body s in
      let s := visit_each (λ o, visit_expr (ob_expr o)) order_by s in
      let s := visit_some visit_expr limit s in
      visit_some visit_expr offset s
  end
with visit_set_expr (expr : SyntaxSetExpr) (s : ParameterSummary) : ParameterSummary :=
  match expr with
  | SSelect select =>
      let s := visit_each
        (λ item s, match item with PExpr details => visit_expr (pe_expr details) s | _ => s end)
        (sel_projection select) s in
      let s := visit_each visit_table_with_joins (sel_from select) s in
      let s := visit_some visit_expr (sel_selection select) s in
      let s := visit_each visit_expr (sel_group_by select) s in
      visit_some visit_expr (sel_having select) s
  | SUnionAll lhs rhs _ => visit_set_expr rhs (visit_set_expr lhs s)
  | SSetUnsupported _ _ => s
  end
with visit_table_with_joins (table : SyntaxTableWithJoins) (s : ParameterSummary) : ParameterSummary :=
  match table with
  | MkSyntaxTableWithJoins relation joins _ =>
      let s := visit_relation relation s in
      visit_each (λ join s, visit_some visit_expr (join_on join) (visit_relation (join_relation join) s))
        joins s
  end
with visit_relation (relation : SyntaxRelation) (s : ParameterSummary) : ParameterSummary :=
  match relation with
  | SDerived query _ _ => visit_query query s
  | SNestedJoin table_with_joins _ _ => visit_table_with_joins table_with_joins s
  | STable _ _ _ | SRelUnsupported _ _ => s
  end
with visit_expr (expr : SyntaxExpr) (s : ParameterSummary) : ParameterSummary :=
  match expr with MkSyntaxExpr kind _ => visit_kind kind s end
with visit_kind (kind : SyntaxExprKind) (s : ParameterSummary) : ParameterSummary :=
  match kind with
  | SParameter reference => record_parameter reference s
  | SUnary _ e | SCast e _ | SIsNull e _ => visit_expr e s
  | SBinary _ lhs rhs => visit_expr rhs (visit_expr lhs s)
  | SFunction function =>
      let s := visit_each visit_expr (fc_args function) s in
      let s := visit_some visit_expr (fc_filter function) s in
      visit_some (λ over s,
        visit_each (λ o, visit_expr (ob_expr o)) (win_order_by over)
          (visit_each visit_expr (win_partition_by over) s)) (fc_over function) s
  | SCase operand when_then else_result =>
      let s := visit_some visit_expr operand s in
      let s := visit_each
        (λ pair s, visit_expr (wt_result pair) (visit_expr (wt_condition pair) s)) when_then s in
      visit_some visit_expr else_result s
  | SBetween e low high _ => visit_expr high (visit_expr low (visit_expr e s))
  | SInList e items _ => visit_each visit_expr items (visit_expr e s)
  | SInSubquery e subquery _ => visit_query subquery (visit_expr e s)
  | SScalarSubquery subquery | SExists subquery => visit_query subquery s
  | SLike e pattern _ _ => visit_expr pattern (visit_expr e s)
  | STuple items | SArray items => visit_each visit_expr items s
  | SColumn _ _ | SLiteral _ | SUnsupported _ => s
  end.

Definition inspect_parameters (parsed : ParsedQuery) : ParameterSummary :=
  visit_query (pq_syntax parsed) ParameterSummary_default.

(** ** The summary of a query *)

Record ParsedQuerySummary := {
  primary_relation : option string;
  projected_columns : option (list string);
  predicate_count : N;
  row_limit : option N;
  sum_scope : string;
  output_format : string
}.

Fixpoint first_select_in_set_expr (set_expr : SyntaxSetExpr) : option SyntaxSelect :=
  match set_expr with
  | SSelect select => Some select
  | SUnionAll lhs rhs _ =>
      option_or_else (first_select_in_set_expr lhs) (first_select_in_set_expr rhs)
  | SSetUnsupported _ _ => None
  end.

Definition first_select (query : SyntaxQuery) : option SyntaxSelect :=
  first_select_in_set_expr (sq_body query).

Definition table_relation (t : SyntaxTableWithJoins) : SyntaxRelation :=
  match t with MkSyntaxTableWithJoins relation _ _ => relation end.

Definition summary_table (select : SyntaxSelect) : option string :=
  (λ table, match table_relation table with
            | STable name _ _ => NameRef_display_name name
            | SDerived _ _ _ => "<subquery>"
            | SNestedJoin _ _ _ => "<join>"
            | SRelUnsupported _ _ => "<unsupported>"
            end) <$> head (sel_from select).

Definition expression_label (expr : SyntaxExpr) : string :=
  match se_kind expr with
  | SColumn _ name => name
  | SFunction call => FunctionRef_display_name (fc_function call)
  | _ => "<expr>"
  end.

(** The loop over the items, with the columns pushed so far. *)
Fixpoint summary_columns_loop (items : list SyntaxProjectionItem) (columns : list string)
    : option (list string) :=
  match items with
  | [] => if is_empty columns then None else Some columns
  | PWildcard _ _ :: _ => None
  | PExpr details :: items =>
      let label := match pe_alias details with
                   | Some alias => alias
                   | None => expression_label (pe_expr details)
                   end in
      summary_columns_loop items (columns ++ [label])
  | PUnsupported _ _ :: items => summary_columns_loop items (columns ++ ["<expr>"])
  end.

Definition summary_columns (select : SyntaxSelect) : option (list string) :=
  if is_empty (sel_projection select) then None else summary_columns_loop (sel_projection select) [].

Fixpoint count_predicates (expr : SyntaxExpr) : N :=
  match expr with
  | MkSyntaxExpr (SBinary And lhs rhs) _ => (count_predicates lhs + count_predicates rhs)%N
  | _ => 1
  end.

(** [u64::try_from] of an [i64]. *)
Definition u64_try_from (i : Z) : option N := if (0 <=? i)%Z then Some (Z.to_N i) else None.

Definition extract_limit (expr : SyntaxExpr) (parameters : option QueryParameters) : option N :=
  match se_kind expr with
  | SLiteral (LInt64 value) => u64_try_from value
  | SParameter reference =>
      match parameters ≫= λ p, lookup_parameter p reference with
      | Some (VInt64 value) => u64_try_from value
      | _ => None
      end
  | _ => None
  end.

Definition inspect_query (parsed : ParsedQuery) (parameters : option QueryParameters) : ParsedQuerySummary :=
  let select := first_select (pq_syntax parsed) in
  {| primary_relation := select ≫= summary_table;
     projected_columns := select ≫= summary_columns;
     predicate_count := default 0%N (count_predicates <$> (select ≫= sel_selection));
     row_limit := sq_limit (pq_syntax parsed) ≫= λ expr, extract_limit expr parameters;
     sum_scope := default "local" (DialectMetadata_get (pq_dialect_metadata parsed) "syql.scope");
     output_format := default "arrow" (DialectMetadata_get (pq_dialect_metadata parsed) "syql.download") |}.

(** ** Parameters from JSON *)

Class SerdeJson := {
  JsonNumber : Type;
  number_as_i64 : JsonNumber → option Z;
  number_as_u64 : JsonNumber → option N;
  (** [as_f64], as the text of the float. *)
  number_as_f64 : JsonNumber → option string;
  number_to_string : JsonNumber → string;
  (** [Value::to_string] of an object. *)
  object_to_string : list (string * Json JsonNumber) → string
}.

(** The test of one byte by its index. *)
Definition uuid_byte (index : nat) (byte : Ascii.ascii) : bool :=
  match index with
  | 8 | 13 | 18 | 23 => Ascii.eqb byte "-"
  | _ => is_ascii_hexdigit byte
  end.

Definition looks_like_uuid (value : string) : bool :=
  if negb (string_len value =? 36)%N then false
  else forallb (λ ib, uuid_byte ib.1 ib.2) (imap pair (String.list_ascii_of_string value)).

Section FromJson.
Context `{!SerdeJson}.

Definition unsupported_number (number : JsonNumber) : QueryFabricError :=
  EEmission ("unsupported numeric parameter value `" +:+ number_to_string number +:+ "`").

(** [i64::try_from] of a [u64]. *)
Definition i64_try_from (n : N) : option Z := if (n <? 2 ^ 63)%N then Some (Z.of_N n) else None.

Fixpoint parameter_value_from_json (value : Json JsonNumber) : Result ParameterValue :=
  match value with
  | JNull => Ok VNull
  | JBool value => Ok (VBoolean value)
  | JNumber number =>
      match number_as_i64 number with
      | Some value => Ok (VInt64 value)
      | None =>
          match number_as_u64 number with
          | Some value =>
              let? value := ok_or (i64_try_from value) (unsupported_number number) in
              Ok (VInt64 value)
          | None =>
              match number_as_f64 number with
              | Some value => Ok (VFloat64 value)
              | None => Err (unsupported_number number)
              end
          end
      end
  | JString value => Ok (if looks_like_uuid value then VUuid value else VUtf8 value)
  | JArray values =>
      let? values := rcollect parameter_value_from_json values in
      Ok (VList values)
  | JObject object => Ok (VJson (object_to_string object))
  end.

(** The loops over the two kinds of parameters; a [HashMap] is the list of its
    entries in the order in which it happens to be iterated. *)
Fixpoint insert_positionals (index : N) (values : list (Json JsonNumber))
    (parameters : QueryParameters) : Result QueryParameters :=
  match values with
  | [] => Ok parameters
  | value :: values =>
      let? v := parameter_value_from_json value in
      insert_positionals (index + 1) values
        (insert_positional parameters ((index + 1) mod u32_modulus) v)
  end.

Fixpoint insert_nameds (entries : list (string * Json JsonNumber))
    (parameters : QueryParameters) : Result QueryParameters :=
  match entries with
  | [] => Ok parameters
  | (name, value) :: entries =>
      let? v := parameter_value_from_json value in
      insert_nameds entries (insert_named parameters name v)
  end.

Definition build_query_parameters (positional : option (list (Json JsonNumber)))
    (named : option (list (string * Json JsonNumber))) : Result QueryParameters :=
  if is_some positional && is_some named then
    Err (EEmission "mixed positional and named parameters are not supported")
  else
    let parameters := QueryParameters_default in
    let? parameters :=
      match positional with
      | Some positional => insert_positionals 0 positional parameters
      | None => Ok parameters
      end in
    match named with
    | Some named => insert_nameds named parameters
    | None => Ok parameters
    end.
End FromJson.

(** Inspection ([Inspect]): the summary of the parameters is exact, the
    parameters built from JSON are those supplied, and what the summary of a
    query means. *)

(** ** The parameters of a tree, in the order of the text *)

Definition list_of_option {A B} (f : A → list B) (o : option A) : list B :=
  match o with Some x => f x | None => [] end.

Fixpoint query_parameters (query : SyntaxQuery) : list ParameterRef :=
  match query with
  | MkSyntaxQuery _ cs _ body order_by limit offset _ =>
      List.flat_map (λ c, query_parameters (cte_query c)) cs ++ set_expr_parameters body
      ++ List.flat_map (λ o, expr_parameters (ob_expr o)) order_by
      ++ list_of_option expr_parameters limit ++ list_of_option expr_parameters offset
  end
with set_expr_parameters (expr : SyntaxSetExpr) : list ParameterRef :=
  match expr with
  | SSelect s =>
      List.flat_map (λ i, match i with PExpr d => expr_parameters (pe_expr d) | _ => [] end) (sel_projection s)
      ++ List.flat_map table_parameters (sel_from s) ++ list_of_option expr_parameters (sel_selection s)
      ++ List.flat_map expr_parameters (sel_group_by s) ++ list_of_option expr_parameters (sel_having s)
  | SUnionAll lhs rhs _ => set_expr_parameters lhs ++ set_expr_parameters rhs
  | SSetUnsupported _ _ => []
  end
with table_parameters (table : SyntaxTableWithJoins) : list ParameterRef :=
  match table with
  | MkSyntaxTableWithJoins relation js _ =>
      relation_parameters relation
      ++ List.flat_map (λ j, relation_parameters (join_relation j)
                             ++ list_of_option expr_parameters (join_on j)) js
  end
with relation_parameters (relation : SyntaxRelation) : list ParameterRef :=
  match relation with
  | STable _ _ _ | SRelUnsupported _ _ => []
  | SDerived query _ _ => query_parameters query
  | SNestedJoin t _ _ => table_parameters t
  end
with expr_parameters (expr : SyntaxExpr) : list ParameterRef :=
  match expr with MkSyntaxExpr kind _ => kind_parameters kind end
with kind_parameters (kind : SyntaxExprKind) : list ParameterRef :=
  match kind with
  | SParameter r => [r]
  | SUnary _ e | SIsNull e _ | SCast e _ => expr_parameters e
  | SBinary _ lhs rhs => expr_parameters lhs ++ expr_parameters rhs
  | SFunction f =>
      List.flat_map expr_parameters (fc_args f) ++ list_of_option expr_parameters (fc_filter f)
      ++ list_of_option (λ w, List.flat_map expr_parameters (win_partition_by w)
                              ++ List.flat_map (λ o, expr_parameters (ob_expr o)) (win_order_by w))
           (fc_over f)
  | SCase operand when_then else_result =>
      list_of_option expr_parameters operand
      ++ List.flat_map (λ p, expr_parameters (wt_condition p) ++ expr_parameters (wt_result p)) when_then
      ++ list_of_option expr_parameters else_result
  | SBetween e low high _ => expr_parameters e ++ expr_parameters low ++ expr_parameters high
  | SInList e items _ => expr_parameters e ++ List.flat_map expr_parameters items
  | SInSubquery e q _ => expr_parameters e ++ query_parameters q
  | SScalarSubquery q | SExists q => query_parameters q
  | SLike e pattern _ _ => expr_parameters e ++ expr_parameters pattern
  | STuple items | SArray items => List.flat_map expr_parameters items
  | SColumn _ _ | SLiteral _ | SUnsupported _ => []
  end.

(** A visit that records the parameters of a list. *)
Definition records (f : ParameterSummary → ParameterSummary) (l : list ParameterRef) : Prop :=
  ∀ s, f s = List.fold_left (λ s r, record_parameter r s) l s.

Lemma records_each {A} (f : A → ParameterSummary → ParameterSummary) (g : A → list ParameterRef) l :
  Forall (λ x, records (f x) (g x)) l → records (visit_each f l) (List.flat_map g l).
Proof.
  unfold visit_each. induction 1 as [|x l Hx _ IH]; intros s; [done|]. simpl.
  by rewrite List.fold_left_app, <- Hx, <- IH.
Qed.

Lemma records_some {A} (f : A → ParameterSummary → ParameterSummary) (g : A → list ParameterRef) o :
  opt_all (λ x, records (f x) (g x)) o → records (visit_some f o) (list_of_option g o).
Proof. destruct o as [x|]; [|done]. intros H. exact (opt_all_Some _ _ H). Qed.

Lemma records_item (i : SyntaxProjectionItem) :
  (∀ d, i = PExpr d → records (visit_expr (pe_expr d)) (expr_parameters (pe_expr d))) →
  records (λ s, match i with PExpr d => visit_expr (pe_expr d) s | _ => s end)
    (match i with PExpr d => expr_parameters (pe_expr d) | _ => [] end).
Proof. destruct i as [| d |]; intros H; [by intros s|exact (H d eq_refl)|by intros s]. Qed.

Lemma visits_record :
  (∀ q, records (visit_query q) (query_parameters q))
  ∧ (∀ s, records (visit_set_expr s) (set_expr_parameters s))
  ∧ (∀ t, records (visit_table_with_joins t) (table_parameters t))
  ∧ (∀ r, records (visit_relation r) (relation_parameters r))
  ∧ (∀ e, records (visit_expr e) (expr_parameters e)).
Proof.
  apply Syntax_induction; try done.
  - intros node cs r body ob lim off bc Hcs Hbody Hob Hlim Hoff s. cbn [visit_query query_parameters].
    rewrite !List.fold_left_app. rewrite <- (records_each (λ c, visit_query (cte_query c))) by done.
    rewrite <- Hbody, <- (records_each (λ o, visit_expr (ob_expr o))) by done.
    by rewrite <- !(records_some visit_expr) by done.
  - intros s (Hp & Hf & Hs & Hg & Hh) s0. cbn [visit_set_expr set_expr_parameters].
    rewrite !List.fold_left_app.
    rewrite <- (records_each (λ i s, match i with PExpr d => visit_expr (pe_expr d) s | _ => s end))
      by (eapply Forall_impl; [exact Hp|]; apply records_item).
    rewrite <- (records_each visit_table_with_joins) by done.
    rewrite <- (records_some visit_expr _ (sel_selection s)) by done.
    rewrite <- (records_each visit_expr) by done. by rewrite <- (records_some visit_expr) by done.
  - intros l r node Hl Hr s. cbn [visit_set_expr set_expr_parameters]. by rewrite List.fold_left_app, <- Hl, <- Hr.
  - intros r js node Hr Hjs s. cbn [visit_table_with_joins table_parameters].
    rewrite List.fold_left_app, <- Hr. apply records_each. eapply Forall_impl; [exact Hjs|].
    intros j [Hj Hon] s'. rewrite List.fold_left_app, <- Hj. by rewrite <- (records_some visit_expr) by done.
  - intros k node H s. cbn [visit_expr expr_parameters].
    destruct k; cbn [kind_all] in H; cbn [visit_kind kind_parameters];
      repeat match goal with H : _ ∧ _ |- _ => destruct H end; rewrite ?List.fold_left_app;
      try done; try (by repeat match goal with H : records _ _ |- _ => rewrite <- (H _) end).
    + match goal with H : call_all _ _ |- _ => destruct H as (Ha & Hf & Ho) end.
      rewrite <- (records_each visit_expr) by done. rewrite <- (records_some visit_expr) by done.
      apply records_some. intros w Hw s'. destruct (Ho w Hw) as [Hp Hob].
      rewrite List.fold_left_app, <- (records_each visit_expr) by done.
      by apply (records_each (λ o, visit_expr (ob_expr o))).
    + rewrite <- (records_some visit_expr _ operand) by done.
      rewrite <- (records_each (λ pair s, visit_expr (wt_result pair) (visit_expr (wt_condition pair) s)));
        [by rewrite <- (records_some visit_expr) by done|].
      eapply Forall_impl; [eassumption|]. intros p [Hc Hr] s'. by rewrite List.fold_left_app, <- Hc, <- Hr.
    + match goal with H : records (visit_expr _) _ |- _ => rewrite <- (H s) end. by apply records_each.
    + by apply records_each.
    + by apply records_each.
Qed.

(** ** What the summary says *)

Lemma fold_record_positional l s :
  positional_count (List.fold_left (λ s r, record_parameter r s) l s)
  = List.fold_left N.max (omap (λ r, match r with Positional p => Some p | Named _ => None end) l)
      (positional_count s).
Proof. revert s. induction l as [|[p|n] l IH]; intros s; simpl; [done|by rewrite IH..]. Qed.

Lemma fold_max_bounds l a p : p ∈ l ∨ (p ≤ a)%N → (p ≤ List.fold_left N.max l a)%N.
Proof.
  revert a. induction l as [|x l IH]; intros a; [set_solver|]. rewrite elem_of_cons. simpl.
  intros H. apply IH. destruct H as [[->|]|]; [right; lia|by left|right; lia].
Qed.

Lemma fold_max_reached l a : List.fold_left N.max l a = a ∨ List.fold_left N.max l a ∈ l.
Proof.
  revert a. induction l as [|x l IH]; intros a; simpl; [by left|].
  destruct (IH (N.max a x)) as [-> |]; [|right; by apply elem_of_cons; right].
  rewrite elem_of_cons. destruct (N.max_spec a x) as [[_ ->]|[_ ->]]; auto.
Qed.

Lemma bt_from_units_keys (l : list string) x :
  x ∈ bt_keys (bt_from_list (List.map (λ n, (n, tt)) l)) ↔ x ∈ l.
Proof.
  induction l as [|y l IH] using rev_ind; [done|].
  rewrite List.map_app. simpl. rewrite bt_from_list_snoc, bt_keys_insert, IH.
  set_solver.
Qed.

Lemma fold_record_named l s :
  StronglySorted klt (named_params s) →
  StronglySorted klt (named_params (List.fold_left (λ s r, record_parameter r s) l s))
  ∧ ∀ n, n ∈ named_params (List.fold_left (λ s r, record_parameter r s) l s)
         ↔ n ∈ named_params s ∨ Named n ∈ l.
Proof.
  revert s. induction l as [|r l IH]; intros s Hs; simpl; [split; [done|set_solver]|].
  destruct (IH (record_parameter r s)) as [Hsorted Hin].
  { destruct r as [p|name]; [done|]. simpl. apply bt_wf_insert, bt_wf_from_list. }
  split; [done|]. intros n. rewrite Hin. destruct r as [p|name]; simpl; [set_solver|].
  rewrite bt_keys_insert, bt_from_units_keys. set_solver.
Qed.

(** Functional.  The summary of the parameters of a query names exactly the
    named parameters of its tree, sorted and each once, and its count is the
    largest position among the positional ones. *)
Theorem inspect_parameters_exact (parsed : ParsedQuery) :
  let summary := inspect_parameters parsed in
  let references := query_parameters (pq_syntax parsed) in
  StronglySorted klt (named_params summary)
  ∧ (∀ n, n ∈ named_params summary ↔ Named n ∈ references)
  ∧ (∀ p, Positional p ∈ references → (p ≤ positional_count summary)%N)
  ∧ (positional_count summary = 0%N ∨ Positional (positional_count summary) ∈ references).
Proof.
  intros summary references.
  assert (summary = List.fold_left (λ s r, record_parameter r s) references ParameterSummary_default) as ->
    by apply (proj1 visits_record).
  destruct (fold_record_named references ParameterSummary_default) as [Hs Hn]; [constructor|].
  split; [done|]. split; [intros n; specialize (Hn n); cbn in Hn; set_solver|].
  rewrite (fold_record_positional references ParameterSummary_default). simpl. set (ps := omap _ references).
  assert (∀ p, p ∈ ps ↔ Positional p ∈ references) as Hps.
  { intros p. unfold ps. rewrite list_elem_of_omap. split.
    - intros ([q|] & Hq & [= <-]). done.
    - intros Hp. by exists (Positional p). }
  split.
  - intros p Hp%Hps. apply fold_max_bounds. by left.
  - destruct (fold_max_reached ps 0%N) as [->|Hin]; [by left|right; by apply Hps].
Qed.

(** An anonymous placeholder has position 0 until it is bound, so a query with
    only such placeholders is said to have no positional parameter at all,
    while binding gives them the positions 1 and 2. *)
Definition two_anonymous : SyntaxExpr :=
  let node := SyntaxNode_new None "n" in
  let question := MkSyntaxExpr (SParameter (Positional 0)) node in
  MkSyntaxExpr (SBinary Eq_ question question) node.

Example anonymous_parameters_are_not_counted :
  visit_expr two_anonymous ParameterSummary_default = ParameterSummary_default
  ∧ (let '(first, s) := allocate_parameter (Positional 0) (Binder_new QueryParameters_default) in
     let '(second, _) := allocate_parameter (Positional 0) s in (first, second))
    = (Positional 1, Positional 2).
Proof. split; reflexivity. Qed.

(** ** Parameters from JSON *)

Section FromJson.
Context `{Serde : !SerdeJson}.

Lemma insert_positionals_lookup values : ∀ index start p,
  insert_positionals index values start = Ok p → (index + vec_len values < u32_modulus)%N →
  (∀ i v, values !! i = Some v → ∃ w, parameter_value_from_json v = Ok w
     ∧ lookup_parameter p (Positional (index + N.of_nat i + 1)) = Some w)
  ∧ (∀ r, (∀ i, i < length values → r ≠ Positional (index + N.of_nat i + 1)) →
       lookup_parameter p r = lookup_parameter start r).
Proof.
  induction values as [|v values IH]; intros index start p; cbn [insert_positionals].
  { intros [= <-] _. split; [done|auto]. }
  rewrite rbind_Ok. intros (w & Hw & H) Hlen. unfold vec_len in *. simpl in Hlen.
  destruct (IH _ _ _ H ltac:(lia)) as [Hin Hout]. rewrite N.mod_small in * by lia. split.
  - intros [|i] v' Hv'; simpl in Hv'.
    + injection Hv' as <-. exists w. split; [done|].
      replace (index + N.of_nat 0 + 1)%N with (index + 1)%N by lia.
      rewrite Hout; [simpl; apply bt_get_insert_eq|]. intros i _ [= E]. lia.
    + destruct (Hin i v' Hv') as (w' & Hw' & Hl). exists w'. split; [done|]. rewrite <- Hl. do 2 f_equal. lia.
  - intros r Hr. rewrite Hout.
    + destruct r as [q|name]; [|done]. simpl. apply bt_get_insert_ne.
      intros E. specialize (Hr 0 ltac:(simpl; lia)). apply Hr. rewrite <- E. f_equal. lia.
    + intros i Hi ->. apply (Hr (S i)); [simpl; lia|]. f_equal. lia.
Qed.

Lemma insert_nameds_lookup entries : ∀ start p,
  insert_nameds entries start = Ok p → NoDup entries.*1 →
  (∀ name v, (name, v) ∈ entries → ∃ w, parameter_value_from_json v = Ok w
     ∧ lookup_parameter p (Named name) = Some w)
  ∧ (∀ r, (∀ name, r = Named name → name ∉ entries.*1) → lookup_parameter p r = lookup_parameter start r).
Proof.
  induction entries as [|[name v] entries IH]; intros start p; cbn [insert_nameds].
  { intros [= <-] _. split; [intros ?? Hv; by apply elem_of_nil in Hv|auto]. }
  rewrite rbind_Ok. intros (w & Hw & H) [Hname Hnd]%NoDup_cons.
  destruct (IH _ _ H Hnd) as [Hin Hout]. split.
  - intros name' v' [[= -> ->]|Hv]%elem_of_cons; [|by apply Hin].
    exists w. split; [done|]. rewrite Hout; [simpl; apply bt_get_insert_eq|]. by intros ? [= <-].
  - intros r Hr. rewrite Hout.
    + destruct r as [q|other]; [done|]. simpl. apply bt_get_insert_ne. intros ->.
      apply (Hr other eq_refl). simpl. apply elem_of_cons. by left.
    + intros other ->. specialize (Hr other eq_refl). simpl in Hr. by apply not_elem_of_cons in Hr as [_ ?].
Qed.

(** The parameters built from JSON are those supplied, whatever
    the order in which the named ones are iterated: the [i]-th positional value
    is found under position [i + 1], a named one under its name, each converted,
    and nothing else is found; a mix of the two kinds is an error. *)
Theorem built_parameters_are_those_supplied
    (values : option (list (Json JsonNumber)))
    (entries : option (list (string * Json JsonNumber))) (parameters : QueryParameters) :
  (vec_len (default [] values) < u32_modulus)%N → NoDup (default [] entries).*1 →
  build_query_parameters values entries = Ok parameters →
  (values = None ∨ entries = None)
  ∧ (∀ i v, default [] values !! i = Some v → ∃ w, parameter_value_from_json v = Ok w
       ∧ lookup_parameter parameters (Positional (N.of_nat i + 1)) = Some w)
  ∧ (∀ name v, (name, v) ∈ default [] entries → ∃ w, parameter_value_from_json v = Ok w
       ∧ lookup_parameter parameters (Named name) = Some w)
  ∧ (∀ r, is_Some (lookup_parameter parameters r) →
       (∃ i, i < length (default [] values) ∧ r = Positional (N.of_nat i + 1))
       ∨ ∃ name, name ∈ (default [] entries).*1 ∧ r = Named name).
Proof.
  intros Hlen Hnd. unfold build_query_parameters.
  destruct values as [values|], entries as [entries|]; simpl in *; [done| | |].
  - rewrite rbind_Ok. intros (p & Hp & [= <-]).
    destruct (insert_positionals_lookup _ _ _ _ Hp Hlen) as [Hin Hout].
    split_and!; [by right|exact Hin|by intros ?? ?%elem_of_nil|].
    intros r Hr. left. destruct r as [q|name]; [|by rewrite Hout in Hr; [by destruct Hr|]].
    destruct (decide (1 ≤ q ∧ q ≤ vec_len values)%N) as [[Hlo Hhi]|Hno]; unfold vec_len in *.
    + exists (N.to_nat (q - 1)). split; [lia|]. f_equal. lia.
    + rewrite Hout in Hr; [by destruct Hr|]. intros i Hi [= E]. lia.
  - intros H. destruct (insert_nameds_lookup _ _ _ H Hnd) as [Hin Hout].
    split_and!; [by left|done|exact Hin|]. intros r Hr. right.
    destruct r as [q|name]; [by rewrite Hout in Hr; [by destruct Hr|]|].
    destruct (decide (name ∈ entries.*1)) as [|Hno]; [eauto|].
    rewrite Hout in Hr; [by destruct Hr|]. by intros ? [= <-].
  - intros [= <-]. split_and!; [by left|done|by intros ?? ?%elem_of_nil|].
    intros [q|name]; by intros [].
Qed.
End FromJson.

(** Numbers as signed integers, and no objects. *)
Definition small_json : SerdeJson :=
  {| JsonNumber := Z; number_as_i64 := Some; number_as_u64 _ := None;
     number_as_f64 _ := None; number_to_string := show_Z; object_to_string _ := "{}" |}.

Definition supplied_values : list (Json Z) :=
  [JNumber 7%Z; JString "mouse"; JString "123e4567-e89b-12d3-a456-426614174000"; JArray [JNull; JBool true]].

Lemma built_parameters_are_those_supplied_witness :
  ∃ parameters, @build_query_parameters small_json (Some supplied_values) None = Ok parameters
  ∧ lookup_parameter parameters (Positional 3) = Some (VUuid "123e4567-e89b-12d3-a456-426614174000")
  ∧ ∀ i v, supplied_values !! i = Some v → ∃ w, @parameter_value_from_json small_json v = Ok w
       ∧ lookup_parameter parameters (Positional (N.of_nat i + 1)) = Some w.
Proof.
  eexists. split; [vm_compute; reflexivity|]. split; [vm_compute; reflexivity|].
  exact (proj1 (proj2 (@built_parameters_are_those_supplied small_json (Some supplied_values) None _
    ltac:(vm_compute; reflexivity) ltac:(constructor) ltac:(vm_compute; reflexivity)))).
Defined.
