(* ===== verification/Facade.v ===== *)
(** The compiler facade: [queryfabric/src/lib.rs].

    It joins the frontends, the budgets, the binder, the pipeline of passes and
    the adapters.  The version of the package, a text the build supplies, is a
    section variable. *)
From S2P Require Import Prelude BTreeMap Types Diagnostics Syntax Bound Budget Catalog Features Cost Suggest Scope Bind Validate BindLogic Elab BindSound ParameterFacts ValidateFacts Optimizer Adapters ClickHouse SqlDialect Behaviours.
From S2P Require Import Suggest Scope Bind Validate BindLogic Elab BindSound ParameterFacts ValidateFacts.
From S2P Require Import Optimizer Adapters ClickHouse SqlDialect.
Local Open Scope result_scope.

(** ** The compiler *)

Record QueryCompiler := {
  optimization_pipeline : OptimizationPipeline;
  compiler_budget : QueryBudget
}.

Definition QueryCompiler_default : QueryCompiler :=
  {| optimization_pipeline := OptimizationPipeline_new; compiler_budget := QueryBudget_default |}.

Definition with_optimization_pass (self : QueryCompiler) (pass : OptimizationPass) : QueryCompiler :=
  {| optimization_pipeline := with_pass (optimization_pipeline self) pass;
     compiler_budget := compiler_budget self |}.

Definition with_budget (self : QueryCompiler) (budget : QueryBudget) : QueryCompiler :=
  {| optimization_pipeline := optimization_pipeline self; compiler_budget := budget |}.

Definition compiler_parse (self : QueryCompiler) (dialect : Dialect) (input : string) : Result ParsedQuery :=
  let? parsed := dialect_parse dialect input in
  let? _ := check (compiler_budget self) (usage_for_parsed parsed) in
  Ok parsed.

Section Compiler.
Context `{Blake3} `{Unicode}.
(** [env!("CARGO_PKG_VERSION")]. *)
Variable cargo_pkg_version : string.

Definition compiler_bind_and_validate (self : QueryCompiler) (parsed : ParsedQuery) (catalog : Catalog)
    (parameters : QueryParameters) : Result BoundQuery :=
  let? _ := check (compiler_budget self) (usage_for_parsed parsed) in
  let? bound :=
    match bind_and_validate catalog parsed parameters with
    | Ok bound => Ok bound
    | Err error => Err (error_with_compiler_version error cargo_pkg_version)
    end in
  let? normalized := normalize (optimization_pipeline self) bound catalog in
  let provenance := receipt_with_compiler_version (bound_provenance normalized) cargo_pkg_version in
  let? _ :=
    check (compiler_budget self)
      (usage_with_parameters (usage_for_parsed (bound_parsed normalized))
         (vec_len (bound_parameters normalized))) in
  Ok (bound_with_provenance normalized provenance).

Definition compiler_analyze (query : BoundQuery) (adapter : BackendAdapter) (catalog : Catalog) : BackendAnalysis :=
  adapter_analyze adapter query catalog.

Definition compiler_emit (query : BoundQuery) (adapter : BackendAdapter) (catalog : Catalog)
    : Result EmitArtifact :=
  adapter_emit adapter query catalog.

(** The two free functions. *)
Definition facade_bind_and_validate (parsed : ParsedQuery) (catalog : Catalog) (parameters : QueryParameters)
    : Result BoundQuery :=
  compiler_bind_and_validate QueryCompiler_default parsed catalog parameters.

Definition bind_and_validate_query (parsed : ParsedQuery) (catalog : Catalog) (parameters : QueryParameters)
    : Result BoundQuery :=
  facade_bind_and_validate parsed catalog parameters.
End Compiler.

(** ** The portable catalog and the capability manifest *)

Definition plain_column (name : string) (data_type : DataType) (nullable : bool) : ColumnSchema :=
  {| column_name := name; column_type := data_type; column_nullable := nullable;
     column_metadata := FieldMetadata_default |}.

Definition portable_catalog (snapshot_id : string) : MemoryCatalog :=
  let catalog := MemoryCatalog_default in
  let catalog := set_snapshot_id catalog snapshot_id in
  let catalog := register_relation catalog
    {| rel_namespace := None; rel_name := "records"; rel_aliases := ["r"]; rel_kind := RTable;
       rel_columns := [plain_column "record_id" TUuid false; plain_column "score" TFloat64 true];
       rel_metadata := [] |} in
  register_relation catalog
    {| rel_namespace := None; rel_name := "links"; rel_aliases := ["l"]; rel_kind := RTable;
       rel_columns := [plain_column "source_record_id" TUuid false; plain_column "target_record_id" TUuid false;
                       plain_column "weight" TFloat64 false];
       rel_metadata := [] |}.

Record BackendCapabilityManifest := {
  bcm_backend : string;
  bcm_schema_version : N;
  bcm_capabilities : CapabilitySet;
  bcm_compatibility_family : option string
}.

Definition builtin_capability_manifest : list BackendCapabilityManifest :=
  [{| bcm_backend := "clickhouse"; bcm_schema_version := 1;
      bcm_capabilities := adapter_capabilities ClickHouseAdapter; bcm_compatibility_family := Some "sql" |};
   {| bcm_backend := "postgres"; bcm_schema_version := 1;
      bcm_capabilities := adapter_capabilities PostgresAdapter; bcm_compatibility_family := Some "sql" |}].

(** ** Facts *)

(** Success, step by step. *)
Lemma compiler_bind_Ok `{Blake3} `{Unicode} version self parsed catalog parameters result :
  compiler_bind_and_validate version self parsed catalog parameters = Ok result ↔
  check (compiler_budget self) (usage_for_parsed parsed) = Ok tt
  ∧ ∃ bound normalized, bind_and_validate catalog parsed parameters = Ok bound
  ∧ normalize (optimization_pipeline self) bound catalog = Ok normalized
  ∧ check (compiler_budget self)
      (usage_with_parameters (usage_for_parsed (bound_parsed normalized))
         (vec_len (bound_parameters normalized))) = Ok tt
  ∧ result = bound_with_provenance normalized
               (receipt_with_compiler_version (bound_provenance normalized) version).
Proof.
  unfold compiler_bind_and_validate. rewrite rbind_Ok. split.
  - intros ([] & Hc & (bound & Hb & (normalized & Hn & ([] & Hc' & [= <-])%rbind_Ok)%rbind_Ok)%rbind_Ok).
    split; [done|]. exists bound, normalized. by destruct (bind_and_validate catalog parsed parameters).
  - intros (Hc & bound & normalized & Hb & Hn & Hc' & ->). exists tt. split; [done|].
    rewrite Hb. simpl. rewrite Hn. simpl. by rewrite Hc'.
Qed.

(** C7: refinement.  What a compiler without passes accepts is an elaboration of
    the query, under the rules of the judgements, within the budget in all six
    dimensions: the bytes of the text, the parameters, which are those of the
    elaboration, and, counted on the tree by the reference counts, the
    expressions, how many of them are nested in one another, the joins and the
    CTEs, in all clauses and subqueries.  The receipt names the compiler, the
    catalog's snapshot and the hash of the canonical text. *)
Theorem compiled_query_is_elaborated_within_budget `{Blake3} `{Unicode} (version : string)
    (self : QueryCompiler) (parsed : ParsedQuery) (catalog : Catalog) (parameters : QueryParameters)
    (result : BoundQuery) :
  passes (optimization_pipeline self) = [] →
  compiler_bind_and_validate version self parsed catalog parameters = Ok result →
  ∃ Γ, elab_query catalog Γ (pq_syntax parsed) (bound_plan result)
  ∧ List.map (λ p, ps_reference (pb_schema p)) (bound_parameters result) = bt_keys Γ
  ∧ (vec_len (bound_parameters result) ≤ max_parameters (compiler_budget self))%N
  ∧ (query_size (pq_syntax parsed) ≤ max_syntax_nodes (compiler_budget self))%N
  ∧ (query_height (pq_syntax parsed) ≤ max_nesting_depth (compiler_budget self))%N
  ∧ (query_joins (pq_syntax parsed) ≤ max_joins (compiler_budget self))%N
  ∧ (query_ctes (pq_syntax parsed) ≤ max_ctes (compiler_budget self))%N
  ∧ (string_len (pq_source_sql parsed) ≤ max_input_bytes (compiler_budget self))%N
  ∧ bound_parsed result = parsed
  ∧ has_error (bound_diagnostics result) = false
  ∧ compiler_version (bound_provenance result) = version
  ∧ pr_catalog_snapshot (bound_provenance result) = Some (cat_snapshot_id catalog)
  ∧ pr_query_hash (bound_provenance result) = query_hash (pq_canonical_sql parsed).
Proof.
  intros Hp (Hc & bound & normalized & Hb & Hn & Hc' & ->)%compiler_bind_Ok.
  unfold normalize in Hn. rewrite Hp in Hn. simpl in Hn. injection Hn as ->.
  apply accepted in Hb as (s & [_ Hclean Hbs Hr Hw He]). rewrite Hr in Hc'.
  apply query_within in Hc' as (Hin & Hpar & Hsize & Hheight & Hjoins & Hctes).
  exists (parameter_constraints s). split_and!; simpl; try done.
  { by apply (final_bindings_refs parameters). }
  all: by rewrite Hr.
Qed.

(** A compiler rejects a query for one of four reasons: it exceeds
    the budget, it does not bind (the error carries at least one error
    diagnostic, and its receipt, if any, the version of the compiler), a pass
    fails, or it binds too many parameters; and without passes only these
    errors are possible. *)
Theorem compiler_rejections `{Blake3} `{Unicode} (version : string) (self : QueryCompiler)
    (parsed : ParsedQuery) (catalog : Catalog) (parameters : QueryParameters) (e : QueryFabricError) :
  compiler_bind_and_validate version self parsed catalog parameters = Err e →
  (check (compiler_budget self) (usage_for_parsed parsed) = Err e)
  ∨ (∃ d, e = EBind d ∧ has_error (be_diagnostics d) = true
     ∧ opt_all (λ r, compiler_version r = version) (be_provenance d))
  ∨ (∃ bound, bind_and_validate catalog parsed parameters = Ok bound
     ∧ normalize (optimization_pipeline self) bound catalog = Err e
     ∧ passes (optimization_pipeline self) ≠ [])
  ∨ (∃ dimension limit actual, e = EBudgetExceeded dimension limit actual ∧ (limit < actual)%N).
Proof.
  unfold compiler_bind_and_validate. destruct (check _ (usage_for_parsed parsed)) as [[]|e'] eqn:Hc; simpl;
    [|intros [= ->]; by left].
  destruct (bind_and_validate catalog parsed parameters) as [bound|e'] eqn:Hb; simpl.
  - destruct (normalize _ bound catalog) as [normalized|e'] eqn:Hn; simpl.
    + destruct (check _ (usage_with_parameters _ _)) as [[]|e'] eqn:Hc'; simpl; [done|].
      intros [= ->]. do 3 right. revert Hc'. unfold check. generalize (limits (compiler_budget self)
        (usage_with_parameters (usage_for_parsed (bound_parsed normalized)) (vec_len (bound_parameters normalized)))).
      intros l. induction l as [|[[d lim] act] l IH]; simpl; [done|].
      destruct (N.ltb_spec lim act); [intros [= <-]; eauto|done].
    + intros [= ->]. do 2 right. left. exists bound. split_and!; [done|done|].
      intros Hp. unfold normalize in Hn. by rewrite Hp in Hn.
  - intros [= <-]. right. left. apply rejected in Hb. destruct (bind_query _ _ _ _) as [plan s].
    destruct Hb as [[Hd ->]|(Hd & new & Hnew & ->)]; simpl; eexists; (split; [reflexivity|]); simpl.
    + split; [done|]. by intros r [= <-].
    + split; [by rewrite has_error_app, Hnew, orb_true_r|done].
Qed.

(** What a compiler parses is within its budget. *)
Theorem parsed_query_is_within_budget (self : QueryCompiler) (dialect : Dialect) (input : string)
    (parsed : ParsedQuery) :
  compiler_parse self dialect input = Ok parsed ↔
  dialect_parse dialect input = Ok parsed ∧ check (compiler_budget self) (usage_for_parsed parsed) = Ok tt.
Proof.
  unfold compiler_parse. rewrite rbind_Ok. split.
  - by intros (p & -> & ([] & Hc & [= <-])%rbind_Ok).
  - intros (Hp & Hc). exists parsed. by rewrite Hc.
Qed.

(** The facade ([Facade]) on the portable catalog: the witnesses of its
    theorems. *)

#[local] Existing Instance ascii_unicode.
#[local] Existing Instance text_hash.

(** [SELECT record_id FROM records WHERE score > $1]. *)
Definition portable_query : ParsedQuery :=
  parsed (query [] (select [item (col "record_id")] [named_table "r"]
    (Some (binop Gt_ (col "score") (param (Positional 1))))) []).

Definition portable : Catalog := memory_catalog (portable_catalog "snapshot-1").

#[local] Abbreviation compiled self p :=
  (compiler_bind_and_validate "0.3.0" self p portable sample_parameters).

Definition portable_bound : BoundQuery :=
  bound_or_default portable_query (compiled QueryCompiler_default portable_query).

Lemma compiled_query_is_elaborated_within_budget_witness :
  compiled QueryCompiler_default portable_query = Ok portable_bound
  ∧ ∃ Γ, elab_query portable Γ (pq_syntax portable_query) (bound_plan portable_bound)
  ∧ List.map (λ p, ps_reference (pb_schema p)) (bound_parameters portable_bound) = bt_keys Γ
  ∧ (vec_len (bound_parameters portable_bound) ≤ max_parameters (compiler_budget QueryCompiler_default))%N.
Proof.
  assert (compiled QueryCompiler_default portable_query = Ok portable_bound) as H by (vm_compute; reflexivity).
  split; [exact H|].
  destruct (compiled_query_is_elaborated_within_budget "0.3.0" QueryCompiler_default portable_query portable
    sample_parameters portable_bound eq_refl H) as (Γ & He & Hb & Hn & _).
  exists Γ. split; [exact He|]. split; [exact Hb|exact Hn].
Defined.

(** A column the catalog does not have. *)
Definition unknown_column : ParsedQuery :=
  parsed (query [] (select [item (col "colour")] [named_table "records"] None) []).

Lemma compiler_rejections_witness :
  ∃ e, compiled QueryCompiler_default unknown_column = Err e
  ∧ ((check (compiler_budget QueryCompiler_default) (usage_for_parsed unknown_column) = Err e)
     ∨ (∃ d, e = EBind d ∧ has_error (be_diagnostics d) = true
        ∧ opt_all (λ r, compiler_version r = "0.3.0") (be_provenance d))
     ∨ (∃ bound, bind_and_validate portable unknown_column sample_parameters = Ok bound
        ∧ normalize (optimization_pipeline QueryCompiler_default) bound portable = Err e ∧ passes (optimization_pipeline QueryCompiler_default) ≠ [])
     ∨ (∃ dimension limit actual, e = EBudgetExceeded dimension limit actual ∧ (limit < actual)%N)).
Proof.
  eexists. assert (H : compiled QueryCompiler_default unknown_column = Err _) by (vm_compute; reflexivity).
  split; [exact H|].
  exact (compiler_rejections "0.3.0" QueryCompiler_default unknown_column portable sample_parameters _ H).
Defined.
