(* ===== verification/Numerals.v ===== *)
(** Decimal texts of integers and their parser, and which bytes are a text. *)
From Stdlib Require Import Ascii.
From S2P Require Import Prelude Catalog.

(** [str::parse] into a signed integer from [- half] to [half - 1]. *)
Definition parse_signed (half : N) (s : string) : option Z :=
  match s with
  | EmptyString => None
  | String c rest =>
      let digits := if Ascii.eqb c "-" || Ascii.eqb c "+" then rest else s in
      if String.eqb digits "" then None
      else
        match parse_digits digits 0 with
        | Some n =>
            if Ascii.eqb c "-" then if (n <=? half)%N then Some (- Z.of_N n)%Z else None
            else if (n <? half)%N then Some (Z.of_N n) else None
        | None => None
        end
  end.

Definition parse_i64 : string → option Z := parse_signed (2 ^ 63).
Definition parse_i32 : string → option Z := parse_signed (2 ^ 31).

(** ** What is written is read *)

Lemma pretty_char_digit m acc s :
  (m < 10)%N → parse_digits (String (pretty_N_char m) s) acc = parse_digits s (acc * 10 + m)%N.
Proof.
  intros Hm. assert (m ∈ [0; 1; 2; 3; 4; 5; 6; 7; 8; 9]%N) as Hin by (rewrite !elem_of_cons; lia).
  rewrite !elem_of_cons in Hin. destruct_or! Hin; [subst; reflexivity..|by apply elem_of_nil in Hin].
Qed.

Lemma parse_pretty_go n s : parse_digits (pretty_N_go n s) 0 = parse_digits s n.
Proof.
  revert s. induction (N.lt_wf_0 n) as [n _ IH]. intros s. destruct (decide (0 < n)%N) as [Hn|Hn].
  - rewrite pretty_N_go_step by done. rewrite IH by (by apply N.div_lt).
    rewrite pretty_char_digit by (by apply N.mod_lt). f_equal. rewrite (N.div_mod n 10) at 3 by done. lia.
  - replace n with 0%N by lia. by rewrite pretty_N_go_0.
Qed.

Lemma parse_show_N n : parse_digits (show_N n) 0 = Some n.
Proof.
  unfold show_N, pretty, pretty_N. destruct (decide (n = 0)%N) as [->|Hn]; [done|]. by rewrite parse_pretty_go.
Qed.

Lemma show_N_not_empty n : show_N n ≠ "".
Proof.
  intros H. pose proof (parse_show_N n) as Hp. rewrite H in Hp. injection Hp as <-. discriminate H.
Qed.

(** The first character of a decimal text is a digit. *)
Lemma show_N_first n : ∃ c rest, show_N n = String c rest ∧ (48 ≤ N_of_ascii c ≤ 57)%N.
Proof.
  pose proof (parse_show_N n) as Hp. destruct (show_N n) as [|c rest] eqn:E; [by apply show_N_not_empty in E|].
  exists c, rest. split; [done|]. cbn [parse_digits] in Hp.
  destruct (N.leb_spec 48 (N_of_ascii c)); [|done]. destruct (N.leb_spec (N_of_ascii c) 57); [|done]. done.
Qed.

Lemma parse_signed_show_N half n : (n < half)%N → parse_signed half (show_N n) = Some (Z.of_N n).
Proof.
  intros Hn. destruct (show_N_first n) as (c & rest & E & Hc). unfold parse_signed. rewrite E, <- E.
  destruct (Ascii.eqb_spec c "-") as [->|]; [vm_compute in Hc; by destruct Hc|].
  destruct (Ascii.eqb_spec c "+") as [->|]; [vm_compute in Hc; by destruct Hc|]. cbn [orb].
  destruct (String.eqb_spec (show_N n) "") as [H|_]; [by apply show_N_not_empty in H|].
  rewrite parse_show_N. by destruct (N.ltb_spec n half); [|lia].
Qed.

Lemma show_Z_cases z :
  show_Z z = if (0 <=? z)%Z then show_N (Z.to_N z) else String "-" (show_N (Z.to_N (- z))).
Proof. by destruct z. Qed.

Lemma parse_show_Z half z :
  (- Z.of_N half ≤ z < Z.of_N half)%Z → parse_signed half (show_Z z) = Some z.
Proof.
  intros Hz. rewrite show_Z_cases. destruct (Z.leb_spec 0 z).
  - rewrite parse_signed_show_N by lia. by rewrite Z2N.id.
  - unfold parse_signed. change (Ascii.eqb "-" "-") with true. cbn [orb].
    destruct (String.eqb_spec (show_N (Z.to_N (- z))) "") as [H'|_]; [by apply show_N_not_empty in H'|].
    rewrite parse_show_N. destruct (N.leb_spec (Z.to_N (- z)) half); [|lia]. f_equal. lia.
Qed.

(** ** The length of a numeral *)

Lemma pretty_go_length k n s :
  (n < 10 ^ N.of_nat k)%N → String.length (pretty_N_go n s) ≤ k + String.length s.
Proof.
  revert n s. induction k as [|k IH]; intros n s Hn.
  - replace n with 0%N by (simpl in Hn; lia). by rewrite pretty_N_go_0.
  - destruct (decide (0 < n)%N) as [Hp|Hp]; [|replace n with 0%N by lia; rewrite pretty_N_go_0; lia].
    rewrite pretty_N_go_step by done.
    rewrite IH; [simpl; lia|]. apply N.Div0.div_lt_upper_bound. rewrite Nat2N.inj_succ, N.pow_succ_r' in Hn. lia.
Qed.

Lemma show_N_length k n : (0 < k)%nat → (n < 10 ^ N.of_nat k)%N → String.length (show_N n) ≤ k.
Proof.
  intros Hk Hn. unfold show_N, pretty, pretty_N. destruct (decide (n = 0)%N) as [->|_]; [simpl; lia|].
  rewrite (pretty_go_length k) by done. simpl. lia.
Qed.

Lemma show_Z_length k z : (0 < k)%nat → (Z.abs z < 10 ^ Z.of_nat k)%Z → String.length (show_Z z) ≤ S k.
Proof.
  intros Hk Hz. rewrite show_Z_cases.
  assert (∀ y, (0 ≤ y < 10 ^ Z.of_nat k)%Z → String.length (show_N (Z.to_N y)) ≤ k) as H.
  { intros y Hy. apply show_N_length; [done|]. apply N2Z.inj_lt. rewrite N2Z.inj_pow, nat_N_Z, Z2N.id by lia. apply Hy. }
  destruct (Z.leb_spec 0 z); [rewrite H by lia; lia|]. simpl. apply le_n_S, H. lia.
Qed.

(** ** Validity of UTF-8: [str::from_utf8]

    Strings are bytes; the bytes of a Rust [String] are always valid, those of
    a file need not be. *)

Local Open Scope N_scope.

Definition in_range (lo hi : N) (c : ascii) : bool := (lo <=? N_of_ascii c) && (N_of_ascii c <=? hi).
Definition continuation : ascii → bool := in_range 128 191.

(** The sequences of two, three and four bytes: neither overlong, nor a
    surrogate, nor above the last scalar value. *)
Definition valid_2 (a b : ascii) : bool := in_range 194 223 a && continuation b.
Definition valid_3 (a b c : ascii) : bool :=
  (in_range 224 224 a && in_range 160 191 b || in_range 225 236 a && continuation b
   || in_range 237 237 a && in_range 128 159 b || in_range 238 239 a && continuation b)
  && continuation c.
Definition valid_4 (a b c d : ascii) : bool :=
  (in_range 240 240 a && in_range 144 191 b || in_range 241 243 a && continuation b
   || in_range 244 244 a && in_range 128 143 b)
  && continuation c && continuation d.

Fixpoint utf8_valid (s : string) : bool :=
  match s with
  | EmptyString => true
  | String a s1 =>
      if N_of_ascii a <? 128 then utf8_valid s1
      else
        match s1 with
        | EmptyString => false
        | String b s2 =>
            if valid_2 a b then utf8_valid s2
            else
              match s2 with
              | EmptyString => false
              | String c s3 =>
                  if valid_3 a b c then utf8_valid s3
                  else
                    match s3 with
                    | EmptyString => false
                    | String d s4 => valid_4 a b c d && utf8_valid s4
                    end
              end
        end
  end.

(** ** Facts *)

(** Induction over the characters of a valid text. *)
Lemma utf8_ind (P : string → Prop) :
  P "" →
  (∀ a s, N_of_ascii a < 128 → utf8_valid s = true → P s → P (String a s)) →
  (∀ a b s, 128 ≤ N_of_ascii a → valid_2 a b = true → utf8_valid s = true → P s →
     P (String a (String b s))) →
  (∀ a b c s, 128 ≤ N_of_ascii a → valid_2 a b = false → valid_3 a b c = true → utf8_valid s = true → P s →
     P (String a (String b (String c s)))) →
  (∀ a b c d s, 128 ≤ N_of_ascii a → valid_2 a b = false → valid_3 a b c = false → valid_4 a b c d = true →
     utf8_valid s = true → P s → P (String a (String b (String c (String d s))))) →
  ∀ s, utf8_valid s = true → P s.
Proof.
  intros H0 H1 H2 H3 H4. fix IH 1. intros [|a s1]; [intros _; exact H0|]. cbn [utf8_valid].
  destruct (N.ltb_spec (N_of_ascii a) 128) as [Ha|Ha]; [intros Hv; exact (H1 a s1 Ha Hv (IH s1 Hv))|].
  destruct s1 as [|b s2]; [discriminate|].
  destruct (valid_2 a b) eqn:E2; [intros Hv; exact (H2 a b s2 Ha E2 Hv (IH s2 Hv))|].
  destruct s2 as [|c s3]; [discriminate|].
  destruct (valid_3 a b c) eqn:E3; [intros Hv; exact (H3 a b c s3 Ha E2 E3 Hv (IH s3 Hv))|].
  destruct s3 as [|d s4]; [discriminate|].
  intros [E4 Hv]%andb_true_iff. exact (H4 a b c d s4 Ha E2 E3 E4 Hv (IH s4 Hv)).
Qed.

(** Decide the kind of a sequence that is known. *)
Ltac known_sequence :=
  repeat match goal with
  | H : valid_2 ?a ?b = _ |- context [valid_2 ?a ?b] => rewrite H
  | H : valid_3 ?a ?b ?c = _ |- context [valid_3 ?a ?b ?c] => rewrite H
  | H : valid_4 ?a ?b ?c ?d = _ |- context [valid_4 ?a ?b ?c ?d] => rewrite H
  end.

(** A one-byte character can be put before and taken away. *)
Lemma utf8_valid_cons a s : N_of_ascii a < 128 → utf8_valid (String a s) = utf8_valid s.
Proof. intros Ha. cbn [utf8_valid]. by rewrite (proj2 (N.ltb_lt _ _) Ha). Qed.

(** The text after a valid text is valid or not on its own. *)
Lemma utf8_valid_app s t : utf8_valid s = true → utf8_valid (s +:+ t) = utf8_valid t.
Proof.
  revert s. apply utf8_ind; [done|..]; intros.
  - rewrite string_app_cons, utf8_valid_cons; done.
  - rewrite !string_app_cons. cbn [utf8_valid].
    destruct (N.ltb_spec (N_of_ascii a) 128); [lia|]. by known_sequence.
  - rewrite !string_app_cons. cbn [utf8_valid]. destruct (N.ltb_spec (N_of_ascii a) 128); [lia|].
    by known_sequence.
  - rewrite !string_app_cons. cbn [utf8_valid]. destruct (N.ltb_spec (N_of_ascii a) 128); [lia|].
    by known_sequence.
Qed.

(** The bytes of the longer sequences are above 127. *)
Lemma valid_2_high a b : valid_2 a b = true → 128 ≤ N_of_ascii b.
Proof. unfold valid_2, continuation, in_range. rewrite !andb_true_iff, !N.leb_le. lia. Qed.

Ltac range_facts :=
  unfold continuation, in_range in *;
  repeat match goal with
  | H : _ && _ = true |- _ => apply andb_true_iff in H as [? ?]
  | H : _ || _ = true |- _ => apply orb_true_iff in H as [?|?]
  | H : (_ <=? _) = true |- _ => apply N.leb_le in H
  end.

Lemma valid_3_high a b c : valid_3 a b c = true → 128 ≤ N_of_ascii b ∧ 128 ≤ N_of_ascii c.
Proof. unfold valid_3. intros. range_facts; lia. Qed.

Lemma valid_4_high a b c d :
  valid_4 a b c d = true → 128 ≤ N_of_ascii b ∧ 128 ≤ N_of_ascii c ∧ 128 ≤ N_of_ascii d.
Proof. unfold valid_4. intros. range_facts; lia. Qed.

(** Replacing a one-byte character by a valid text keeps a text valid. *)
Lemma utf8_valid_replace c to s :
  N_of_ascii c < 128 → utf8_valid to = true → utf8_valid s = true → utf8_valid (replace_with c to s) = true.
Proof.
  intros Hc Hto.
  assert (∀ x s, 128 ≤ N_of_ascii x → replace_with c to (String x s) = String x (replace_with c to s)) as Hskip.
  { intros x t Hx. cbn [replace_with]. destruct (Ascii.eqb_spec x c) as [->|]; [lia|done]. }
  revert s. apply utf8_ind; [done|..]; intros.
  - cbn [replace_with]. destruct (Ascii.eqb a c); [by rewrite utf8_valid_app|by rewrite utf8_valid_cons].
  - match goal with H : valid_2 _ _ = true |- _ => pose proof (valid_2_high _ _ H) end.
    rewrite !Hskip by done. cbn [utf8_valid]. destruct (N.ltb_spec (N_of_ascii a) 128); [lia|].
    by known_sequence.
  - match goal with H : valid_3 _ _ _ = true |- _ => pose proof (valid_3_high _ _ _ H) as [? ?] end.
    rewrite !Hskip by done. cbn [utf8_valid]. destruct (N.ltb_spec (N_of_ascii a) 128); [lia|].
    by known_sequence.
  - match goal with H : valid_4 _ _ _ _ = true |- _ => pose proof (valid_4_high _ _ _ _ H) as (? & ? & ?) end.
    rewrite !Hskip by done. cbn [utf8_valid]. destruct (N.ltb_spec (N_of_ascii a) 128); [lia|].
    by known_sequence.
Qed.
