(* ===== verification/Csv.v ===== *)
(** The tabular profile of import bundles: the CSV writer and reader of
    [queryfabric-portability/src/import.rs].

    The texts of UUIDs and timestamps are parsed by the third-party crates
    [uuid] and [chrono], the class [Lexicon]; the text of a JSON number is a
    section variable.  The reader walks over characters of which it looks only
    at commas, quotes, carriage returns and line feeds; these have one byte, so
    it is defined on the bytes, which it copies. *)
From Stdlib Require Import Ascii.
From S2P Require Import Prelude Catalog Numerals Json.
Local Open Scope result_scope.

(** ** Limits, schemas, errors *)

Record ImportLimits := {
  max_bundle_bytes : N;
  max_json_depth : N;
  max_string_bytes : N;
  max_artifacts : N;
  max_artifact_bytes : N;
  max_total_artifact_bytes : N;
  max_rows : N;
  max_columns : N;
  max_extension_bytes : N
}.

Definition ImportLimits_default : ImportLimits :=
  {| max_bundle_bytes := 8 * 1024 * 1024; max_json_depth := 32; max_string_bytes := 256 * 1024;
     max_artifacts := 8; max_artifact_bytes := 512 * 1024 * 1024;
     max_total_artifact_bytes := 512 * 1024 * 1024; max_rows := 5000000; max_columns := 128;
     max_extension_bytes := 512 * 1024 |}.

Inductive TabularColumnType := CtBoolean | CtInt64 | CtFloat64 | CtString | CtUuid | CtTimestamp.

#[export] Instance TabularColumnType_eq_dec : EqDecision TabularColumnType.
Proof. solve_decision. Defined.

Record TabularColumn := { tc_name : string; tc_type : TabularColumnType }.

#[export] Instance TabularColumn_eq_dec : EqDecision TabularColumn.
Proof. solve_decision. Defined.

Record TabularSchema := { profile : string; columns : list TabularColumn }.

#[export] Instance TabularSchema_eq_dec : EqDecision TabularSchema.
Proof. solve_decision. Defined.

Definition TABULAR_CSV_PROFILE : string := "queryfabric.tabular-csv/1".

Inductive ImportError :=
| BundleTooLarge
| ArtifactTooLarge
| AggregateArtifactTooLarge
| InvalidJson (text : string)
| JsonLimits
| UnsupportedVersion (version : string)
| InvalidDigest
| DigestMismatch
| TooManyArtifacts
| DuplicateArtifact
| InvalidManifest (text : string)
| InvalidProfile (text : string)
| InvalidCsv (text : string)
| InvalidTarget (text : string)
| SchemaMismatch
| ArtifactMismatch.

Definition column_type_name (t : TabularColumnType) : string :=
  match t with
  | CtBoolean => "Boolean" | CtInt64 => "Int64" | CtFloat64 => "Float64"
  | CtString => "String" | CtUuid => "Uuid" | CtTimestamp => "Timestamp"
  end.

(** The loop over the columns; a name always ends at a character boundary. *)
Fixpoint validate_columns (cs : list TabularColumn) (names : list string) : result unit ImportError :=
  match cs with
  | [] => Ok tt
  | column :: cs =>
      if String.eqb (tc_name column) "" || (256 <? string_len (tc_name column))%N
         || bool_decide (tc_name column ∈ names) then
        Err (InvalidProfile "column names must be unique and bounded UTF-8")
      else validate_columns cs (tc_name column :: names)
  end.

Definition validate_schema (schema : TabularSchema) (max_columns : N) : result unit ImportError :=
  if negb (String.eqb (profile schema) TABULAR_CSV_PROFILE) || is_empty (columns schema) then
    Err (InvalidProfile "profile must be queryfabric.tabular-csv/1 with at least one column")
  else if (max_columns <? vec_len (columns schema))%N then Err (InvalidProfile "too many columns")
  else validate_columns (columns schema) [].

(** ** Values *)

Definition ascii_digit (c : ascii) : bool := ((48 <=? N_of_ascii c) && (N_of_ascii c <=? 57))%N.

Fixpoint all_digits (s : string) : bool :=
  match s with EmptyString => true | String c s => ascii_digit c && all_digits s end.

Definition valid_integer (value : string) : bool :=
  if String.eqb value "" || str_starts_with "+" value || negb (is_some (parse_i64 value)) then false
  else
    let digits := default value (strip_prefix "-" value) in
    (String.eqb digits "0" || negb (str_starts_with "0" digits)) && all_digits digits.

(** The digits at the start of a text, and what is after them. *)
Fixpoint span_digits (s : string) : string * string :=
  match s with
  | String c s' => if ascii_digit c then let '(digits, rest) := span_digits s' in (String c digits, rest)
                   else (EmptyString, s)
  | EmptyString => (EmptyString, EmptyString)
  end.

(** The value of a decimal literal rounds to a finite [f64] when it is below
    the middle between the greatest float and the next power of two. *)
Definition decimal_is_finite (mantissa : N) (exponent : Z) : bool :=
  if (mantissa =? 0)%N then true
  else
    let limit := (2 ^ 1024 - 2 ^ 970)%Z in
    if (0 <=? exponent)%Z then (Z.of_N mantissa * 10 ^ exponent <? limit)%Z
    else (Z.of_N mantissa <? limit * 10 ^ (- exponent))%Z.

(** The literals the scan accepts are float literals to [str::parse::<f64>],
    so its first test, that the text parses, adds nothing. *)
Definition valid_float (value : string) : bool :=
  let unsigned := default value (strip_prefix "-" value) in
  let '(integer, rest) := span_digits unsigned in
  if String.eqb integer "" || ((1 <? string_len integer)%N && str_starts_with "0" integer) then false
  else
    let fraction_ok :=
      match strip_prefix "." rest with
      | Some after => let '(fraction, rest) := span_digits after in
                      if String.eqb fraction "" then None else Some (fraction, rest)
      | None => Some (EmptyString, rest)
      end in
    match fraction_ok with
    | None => false
    | Some (fraction, rest) =>
        let exponent_ok :=
          match rest with
          | String c after =>
              if Ascii.eqb c "e" || Ascii.eqb c "E" then
                let '(negative, after) :=
                  match after with
                  | String d rest => if Ascii.eqb d "-" then (true, rest)
                                     else if Ascii.eqb d "+" then (false, rest) else (false, after)
                  | EmptyString => (false, after)
                  end in
                let '(digits, rest) := span_digits after in
                if String.eqb digits "" then None else Some (negative, digits, rest)
              else Some (false, "0", rest)
          | EmptyString => Some (false, "0", rest)
          end in
        match exponent_ok with
        | None => false
        | Some (negative, digits, rest) =>
            let magnitude := Z.of_N (default 0%N (parse_digits digits 0)) in
            let exponent := ((if negative then - magnitude else magnitude)
                             - Z.of_N (string_len fraction))%Z in
            String.eqb rest ""
            && decimal_is_finite (default 0%N (parse_digits (integer +:+ fraction) 0)) exponent
        end
    end.

Class Lexicon := {
  (** [str::parse::<Uuid>] succeeds. *)
  uuid_parses : string → bool;
  (** [DateTime::parse_from_rfc3339] succeeds. *)
  rfc3339_parses : string → bool
}.

Section Values.
Context `{!Lexicon}.

Definition valid_value (t : TabularColumnType) (value : string) : bool :=
  match t with
  | CtBoolean => String.eqb value "true" || String.eqb value "false"
  | CtInt64 => valid_integer value
  | CtFloat64 => valid_float value
  | CtString => true
  | CtUuid => uuid_parses value && String.eqb value (to_ascii_lowercase value)
  | CtTimestamp => ends_with_char "Z" value && rfc3339_parses value
  end.

(** The loop over [row.iter().zip(&schema.columns)]. *)
Fixpoint validate_zip (row : list string) (cs : list TabularColumn) : result unit ImportError :=
  match row, cs with
  | value :: row, column :: cs =>
      if valid_value (tc_type column) value then validate_zip row cs
      else Err (InvalidCsv ("invalid " +:+ column_type_name (tc_type column) +:+ " value for column '"
                            +:+ tc_name column +:+ "'"))
  | _, _ => Ok tt
  end.

Definition validate_values (row : list string) (schema : TabularSchema) : result unit ImportError :=
  validate_zip row (columns schema).

(** ** Reading *)

Definition quote : ascii := ascii_of_N 34.
Definition cr : ascii := ascii_of_N 13.
Definition lf : ascii := ascii_of_N 10.
Definition crlf : string := String cr (String lf "").

Record CsvState := {
  csv_rows : list (list string);
  csv_row : list string;
  csv_field : string;
  quoted : bool;
  field_started : bool;
  ended_record : bool;
  header_seen : bool
}.

Definition CsvState_new : CsvState :=
  {| csv_rows := []; csv_row := []; csv_field := ""; quoted := false; field_started := false;
     ended_record := false; header_seen := false |}.

(** [field.push]. *)
Definition push_char (st : CsvState) (c : ascii) : CsvState :=
  {| csv_rows := csv_rows st; csv_row := csv_row st; csv_field := csv_field st +:+ String c "";
     quoted := quoted st; field_started := field_started st; ended_record := ended_record st;
     header_seen := header_seen st |}.

Definition set_quoted (st : CsvState) (q : bool) : CsvState :=
  {| csv_rows := csv_rows st; csv_row := csv_row st; csv_field := csv_field st; quoted := q;
     field_started := field_started st; ended_record := ended_record st; header_seen := header_seen st |}.

Definition open_quote (st : CsvState) : CsvState :=
  {| csv_rows := csv_rows st; csv_row := csv_row st; csv_field := csv_field st; quoted := true;
     field_started := true; ended_record := ended_record st; header_seen := header_seen st |}.

Definition end_field (st : CsvState) : CsvState :=
  {| csv_rows := csv_rows st; csv_row := csv_row st ++ [csv_field st]; csv_field := "";
     quoted := quoted st; field_started := false; ended_record := ended_record st;
     header_seen := header_seen st |}.

(** Any other character. *)
Definition ordinary_char (st : CsvState) (c : ascii) : CsvState :=
  {| csv_rows := csv_rows st; csv_row := csv_row st; csv_field := csv_field st +:+ String c "";
     quoted := quoted st; field_started := true; ended_record := false; header_seen := header_seen st |}.

(** The record that ends at a carriage return and a line feed. *)
Definition end_record (schema : TabularSchema) (limits : ImportLimits) (st : CsvState)
    : result CsvState ImportError :=
  let row := csv_row st ++ [csv_field st] in
  if negb (length row =? length (columns schema))%nat then
    Err (InvalidCsv "field count does not match schema")
  else
    let? rows :=
      if negb (header_seen st) then
        if negb (bool_decide (row = List.map tc_name (columns schema))) then
          Err (InvalidCsv "header does not exactly match schema")
        else Ok (csv_rows st)
      else
        let? _valid := validate_values row schema in
        let rows := csv_rows st ++ [row] in
        if (max_rows limits <? vec_len rows)%N then Err (InvalidCsv "row limit exceeded") else Ok rows in
    Ok {| csv_rows := rows; csv_row := []; csv_field := ""; quoted := quoted st; field_started := false;
          ended_record := true; header_seen := true |}.

(** The loop over the characters. *)
Fixpoint csv_loop (schema : TabularSchema) (limits : ImportLimits) (s : string) (st : CsvState)
    : result CsvState ImportError :=
  match s with
  | EmptyString => Ok st
  | String c s1 =>
      if quoted st then
        if Ascii.eqb c quote then
          match s1 with
          | String d s2 =>
              if Ascii.eqb d quote then csv_loop schema limits s2 (push_char st quote)
              else csv_loop schema limits s1 (set_quoted st false)
          | EmptyString => csv_loop schema limits s1 (set_quoted st false)
          end
        else if Ascii.eqb c cr || Ascii.eqb c lf then
          Err (InvalidCsv "embedded newlines are not supported by profile 1")
        else csv_loop schema limits s1 (push_char st c)
      else if Ascii.eqb c quote then
        if field_started st then Err (InvalidCsv "quote must start a field")
        else csv_loop schema limits s1 (open_quote st)
      else if Ascii.eqb c "," then csv_loop schema limits s1 (end_field st)
      else if Ascii.eqb c cr then
        match s1 with
        | String d s2 =>
            if Ascii.eqb d lf then
              match end_record schema limits st with
              | Ok st => csv_loop schema limits s2 st
              | Err e => Err e
              end
            else csv_loop schema limits s1 (ordinary_char st c)
        | EmptyString => csv_loop schema limits s1 (ordinary_char st c)
        end
      else if Ascii.eqb c lf then Err (InvalidCsv "records must use CRLF")
      else csv_loop schema limits s1 (ordinary_char st c)
  end.

Definition bom : string := String (ascii_of_N 239) (String (ascii_of_N 187) (String (ascii_of_N 191) "")).

Definition parse_csv (bytes : string) (schema : TabularSchema) (limits : ImportLimits)
    : result (list (list string)) ImportError :=
  if str_starts_with bom bytes then Err (InvalidCsv "UTF-8 BOM is forbidden")
  else if negb (utf8_valid bytes) then Err (InvalidCsv "artifact is not UTF-8")
  else
    let? st := csv_loop schema limits bytes CsvState_new in
    if quoted st || negb (ended_record st) || negb (is_empty (csv_row st))
       || negb (String.eqb (csv_field st) "") then
      Err (InvalidCsv "CSV must end with CRLF")
    else Ok (csv_rows st).

Definition decode_tabular_csv (bytes : string) (schema : TabularSchema) (limits : ImportLimits)
    : result (list (list string)) ImportError :=
  let? _valid := validate_schema schema (max_columns limits) in
  parse_csv bytes schema limits.

(** ** Writing *)

Fixpoint any_special (s : string) : bool :=
  match s with
  | EmptyString => false
  | String c s => (Ascii.eqb c "," || Ascii.eqb c quote || Ascii.eqb c cr || Ascii.eqb c lf) || any_special s
  end.

Definition encode_csv_field (value : string) : string :=
  if any_special value then
    String quote (replace_with quote (String quote (String quote "")) value +:+ String quote "")
  else value.

Definition encode_csv_record (values : list string) : string :=
  string_join "," (List.map encode_csv_field values) +:+ crlf.

Section Writer.
Context {Number : Type} (number_text : Number → string).

Definition value_to_csv_text (value : Json Number) (column_type : TabularColumnType)
    : result string ImportError :=
  match value with
  | JString value => Ok value
  | JBool value =>
      match column_type with
      | CtBoolean => Ok (if value then "true" else "false")
      | _ => Err (InvalidCsv "row value type does not match schema")
      end
  | JNumber number =>
      match column_type with
      | CtInt64 | CtFloat64 => Ok (number_text number)
      | _ => Err (InvalidCsv "row value type does not match schema")
      end
  | JNull => Err (InvalidCsv "nulls are not allowed")
  | _ => Err (InvalidCsv "row value type does not match schema")
  end.

(** The texts of one row, in the order of the columns.  A column that is not in
    the object has been excluded before it is indexed. *)
Definition row_texts (schema : TabularSchema) (row : Json Number) : result (list string) ImportError :=
  match row with
  | JObject object =>
      if negb (length object =? length (columns schema))%nat
         || existsb (λ column, negb (is_some (json_get (tc_name column) object))) (columns schema)
         || existsb (λ entry, negb (existsb (λ column, String.eqb (tc_name column) entry.1) (columns schema)))
              object then
        Err (InvalidCsv "row fields do not exactly match schema")
      else
        rcollect (λ column,
          match json_get (tc_name column) object with
          | Some value => value_to_csv_text value (tc_type column)
          | None => Err (InvalidCsv "row fields do not exactly match schema")
          end) (columns schema)
  | _ => Err (InvalidCsv "each row must be a JSON object")
  end.

(** The loop over the rows. *)
Fixpoint write_rows (schema : TabularSchema) (rows : list (Json Number)) (output : string)
    : result string ImportError :=
  match rows with
  | [] => Ok output
  | row :: rows =>
      let? values := row_texts schema row in
      let? _valid := validate_values values schema in
      write_rows schema rows (output +:+ encode_csv_record values)
  end.

Definition write_tabular_csv (schema : TabularSchema) (rows : list (Json Number))
    : result string ImportError :=
  let? _valid := validate_schema schema (max_columns ImportLimits_default) in
  if (max_rows ImportLimits_default <? vec_len rows)%N then Err (InvalidCsv "row limit exceeded")
  else write_rows schema rows (encode_csv_record (List.map tc_name (columns schema))).
End Writer.
End Values.

(** The CSV of the tabular profile ([Csv]): what the writer writes, the reader
    reads back; what the reader accepts; and where the two disagree. *)

(** ** Texts the profile can carry *)

(** No carriage return and no line feed. *)
Fixpoint no_newline (s : string) : bool :=
  match s with
  | EmptyString => true
  | String c s => negb (Ascii.eqb c cr || Ascii.eqb c lf) && no_newline s
  end.

Definition carried (s : string) : Prop := no_newline s = true ∧ utf8_valid s = true.

Section Reader.
Context `{Lex : !Lexicon} (schema : TabularSchema) (limits : ImportLimits).

(** [end_record] on a whole row. *)
Definition finish_row (rows : list (list string)) (seen : bool) (row : list string)
    : result CsvState ImportError :=
  end_record schema limits
    {| csv_rows := rows; csv_row := removelast row; csv_field := List.last row ""; quoted := false;
       field_started := false; ended_record := false; header_seen := seen |}.

Lemma end_record_finish st :
  quoted st = false →
  end_record schema limits st = finish_row (csv_rows st) (header_seen st) (csv_row st ++ [csv_field st]).
Proof.
  intros Hq. unfold finish_row, end_record. simpl.
  rewrite removelast_last, last_last, Hq. done.
Qed.

(** Ordinary text is copied. *)
Lemma read_plain f rest st :
  any_special f = false → quoted st = false →
  ∃ started ended, csv_loop schema limits (f +:+ rest) st
    = csv_loop schema limits rest
        {| csv_rows := csv_rows st; csv_row := csv_row st; csv_field := csv_field st +:+ f;
           quoted := false; field_started := started; ended_record := ended; header_seen := header_seen st |}.
Proof.
  revert st. induction f as [|c f IH]; intros st Hs Hq.
  - rewrite string_app_nil_l. exists (field_started st), (ended_record st). destruct st; simpl in *; subst.
    by rewrite string_app_nil_r.
  - cbn [any_special] in Hs. apply orb_false_iff in Hs as [Hc Hs].
    apply orb_false_iff in Hc as [[[Hcomma Hquote]%orb_false_iff Hcr]%orb_false_iff Hlf].
    rewrite string_app_cons. cbn [csv_loop]. rewrite Hq, Hquote, Hcomma, Hcr, Hlf.
    destruct (IH (ordinary_char st c) Hs Hq) as (started & ended & ->). exists started, ended.
    simpl. by rewrite string_app_assoc.
Qed.

(** Inside quotes, doubled quotes stand for quotes. *)
Lemma read_quoted f d rest st :
  no_newline f = true → d ≠ quote → quoted st = true →
  csv_loop schema limits
    (replace_with quote (String quote (String quote "")) f +:+ String quote (String d rest)) st
  = csv_loop schema limits (String d rest)
      {| csv_rows := csv_rows st; csv_row := csv_row st; csv_field := csv_field st +:+ f; quoted := false;
         field_started := field_started st; ended_record := ended_record st; header_seen := header_seen st |}.
Proof.
  revert st. induction f as [|c f IH]; intros st Hn Hd Hq.
  - cbn [replace_with]. rewrite string_app_nil_l. cbn [csv_loop]. rewrite Hq, Ascii.eqb_refl.
    destruct (Ascii.eqb_spec d quote) as [|_]; [done|]. unfold set_quoted. by rewrite string_app_nil_r.
  - cbn [no_newline] in Hn. apply andb_true_iff in Hn as [Hc%negb_true_iff Hn]. cbn [replace_with].
    destruct (Ascii.eqb_spec c quote) as [->|Hne].
    + rewrite !string_app_cons, string_app_nil_l. cbn [csv_loop]. rewrite Hq, Ascii.eqb_refl.
      rewrite IH by done. simpl. by rewrite string_app_assoc.
    + rewrite string_app_cons. cbn [csv_loop]. rewrite Hq, Hc.
      destruct (Ascii.eqb_spec c quote) as [|_]; [done|]. rewrite IH by done. simpl. by rewrite string_app_assoc.
Qed.

(** A field is read up to the comma or the end of the record after it. *)
Lemma read_field f d rest st :
  no_newline f = true → d ≠ quote → quoted st = false → csv_field st = "" → field_started st = false →
  ∃ started ended, csv_loop schema limits (encode_csv_field f +:+ String d rest) st
    = csv_loop schema limits (String d rest)
        {| csv_rows := csv_rows st; csv_row := csv_row st; csv_field := f;
           quoted := false; field_started := started; ended_record := ended; header_seen := header_seen st |}.
Proof.
  intros Hn Hd Hq Hf Hs. unfold encode_csv_field. destruct (any_special f) eqn:Ha.
  - exists true, (ended_record st). rewrite string_app_cons, string_app_assoc, string_app_cons, string_app_nil_l.
    cbn [csv_loop]. rewrite Hq, Ascii.eqb_refl, Hs, read_quoted by done. simpl. by rewrite Hf.
  - destruct (read_plain f (String d rest) st Ha Hq) as (started & ended & ->). rewrite Hf. by eauto.
Qed.

(** A record is read, and its fields are the values. *)
Lemma read_record values rest : ∀ st,
  Forall (λ v, no_newline v = true) values → values ≠ [] →
  quoted st = false → csv_field st = "" → field_started st = false →
  csv_loop schema limits (encode_csv_record values +:+ rest) st
  = (let? st' := finish_row (csv_rows st) (header_seen st) (csv_row st ++ values) in
     csv_loop schema limits rest st').
Proof.
  unfold encode_csv_record. induction values as [|v values IH]; intros st Hv Hne Hq Hf Hs; [done|].
  apply Forall_cons in Hv as [Hv Hvs]. destruct values as [|v' values].
  - cbn [List.map string_join]. rewrite string_app_assoc. unfold crlf. rewrite string_app_cons.
    destruct (read_field v cr (String lf "" +:+ rest) st) as (started & ended & ->); [done..|].
    rewrite string_app_cons, string_app_nil_l. cbn [csv_loop quoted]. cbn [Ascii.eqb quote cr lf].
    change (Ascii.eqb cr quote) with false. change (Ascii.eqb cr ",") with false.
    change (Ascii.eqb cr cr) with true. change (Ascii.eqb lf lf) with true. cbn iota.
    rewrite end_record_finish by done. simpl.
    by destruct (finish_row _ _ _).
  - change (string_join "," (List.map encode_csv_field (v :: v' :: values)))
      with (encode_csv_field v +:+ "," +:+ string_join "," (List.map encode_csv_field (v' :: values))).
    rewrite !string_app_assoc. set (after := string_join "," (List.map encode_csv_field (v' :: values)) +:+ crlf +:+ rest).
    change ("," +:+ after) with (String "," after).
    destruct (read_field v ","%char after st)
      as (started & ended & ->); [done..|].
    cbn [csv_loop quoted]. change (Ascii.eqb "," quote) with false. change (Ascii.eqb "," ",") with true. cbn iota.
    unfold after. rewrite <- string_app_assoc, IH by done. simpl. by rewrite <- app_assoc.
Qed.

(** The header, and a row that fits. *)
Lemma finish_header rows :
  columns schema ≠ [] →
  finish_row rows false (List.map tc_name (columns schema))
  = Ok {| csv_rows := rows; csv_row := []; csv_field := ""; quoted := false; field_started := false;
          ended_record := true; header_seen := true |}.
Proof.
  intros Hne. unfold finish_row, end_record. simpl.
  assert (List.map tc_name (columns schema) ≠ []) as Hm by (by destruct (columns schema)).
  rewrite <- (app_removelast_last "" Hm), List.length_map, Nat.eqb_refl. simpl. by rewrite bool_decide_eq_true_2.
Qed.

Lemma finish_values rows row :
  columns schema ≠ [] → length row = length (columns schema) → validate_values row schema = Ok tt →
  (vec_len rows + 1 ≤ max_rows limits)%N →
  finish_row rows true row
  = Ok {| csv_rows := rows ++ [row]; csv_row := []; csv_field := ""; quoted := false; field_started := false;
          ended_record := true; header_seen := true |}.
Proof.
  intros Hne Hlen Hv Hmax. unfold finish_row, end_record. simpl.
  assert (row ≠ []) as Hr by (by destruct row, (columns schema)).
  rewrite <- (app_removelast_last "" Hr), Hlen, Nat.eqb_refl. simpl. rewrite Hv. simpl.
  destruct (N.ltb_spec (max_rows limits) (vec_len (rows ++ [row]))) as [Hlt|]; [|done].
  unfold vec_len in *. rewrite length_app in Hlt. simpl in Hlt. lia.
Qed.
End Reader.

(** ** What the reader accepts *)

Section Accepted.
Context `{Lex : !Lexicon} (schema : TabularSchema) (limits : ImportLimits).

Definition fits (row : list string) : Prop :=
  length row = length (columns schema)
  ∧ Forall2 (λ value column, valid_value (tc_type column) value = true) row (columns schema).

Definition table_fits (rows : list (list string)) : Prop :=
  Forall fits rows ∧ (vec_len rows ≤ max_rows limits)%N.

Lemma validate_zip_fits row cs :
  length row = length cs → validate_zip row cs = Ok tt →
  Forall2 (λ value column, valid_value (tc_type column) value = true) row cs.
Proof.
  revert cs. induction row as [|v row IH]; intros [|c cs]; simpl; try done.
  intros [= Hl]. destruct (valid_value (tc_type c) v) eqn:Hv; [|done]. constructor; auto.
Qed.

Lemma end_record_table st st' :
  table_fits (csv_rows st) → end_record schema limits st = Ok st' → table_fits (csv_rows st').
Proof.
  intros Hf. unfold end_record. destruct (negb _) eqn:Hl; [done|].
  apply negb_false_iff, Nat.eqb_eq in Hl. rewrite rbind_Ok. intros (rows & Hrows & [= <-]). simpl.
  destruct (negb (header_seen st)).
  - destruct (negb (bool_decide _)); by simplify_eq.
  - rewrite rbind_Ok in Hrows. destruct Hrows as ([] & Hv & Hmax).
    destruct (N.ltb_spec (max_rows limits) (vec_len (csv_rows st ++ [csv_row st ++ [csv_field st]]))); simplify_eq.
    split; [|lia]. destruct Hf as [Hf _]. apply Forall_app. split; [done|]. constructor; [|done].
    split; [done|]. by apply validate_zip_fits.
Qed.

Lemma csv_loop_table s : ∀ st st',
  table_fits (csv_rows st) → csv_loop schema limits s st = Ok st' → table_fits (csv_rows st').
Proof.
  induction s as [s IH] using (induction_ltof1 _ String.length). unfold ltof in IH.
  destruct s as [|c s1]; intros st st' Hf; cbn [csv_loop]; [by intros [= <-]|].
  assert (∀ st1, csv_rows st1 = csv_rows st → csv_loop schema limits s1 st1 = Ok st' → table_fits (csv_rows st'))
    as Hnext by (intros st1 E; apply IH; [simpl; lia|by rewrite E]).
  destruct (quoted st).
  - destruct (Ascii.eqb c quote).
    + destruct s1 as [|d s2]; [by apply Hnext|]. destruct (Ascii.eqb d quote); [|by apply Hnext].
      apply IH; [simpl; lia|done].
    + destruct (_ || _); [done|by apply Hnext].
  - destruct (Ascii.eqb c quote); [destruct (field_started st); [done|by apply Hnext]|].
    destruct (Ascii.eqb c ","); [by apply Hnext|].
    destruct (Ascii.eqb c cr).
    + destruct s1 as [|d s2]; [by apply Hnext|]. destruct (Ascii.eqb d lf); [|by apply Hnext].
      destruct (end_record schema limits st) as [st1|] eqn:E; [|done].
      apply IH; [simpl; lia|]. by eapply end_record_table.
    + destruct (Ascii.eqb c lf); [done|by apply Hnext].
Qed.
End Accepted.

Lemma validate_columns_names cs names :
  validate_columns cs names = Ok tt →
  NoDup (List.map tc_name cs) ∧ Forall (λ n, n ≠ "" ∧ n ∉ names) (List.map tc_name cs).
Proof.
  revert names. induction cs as [|c cs IH]; intros names; simpl; [by repeat constructor|].
  destruct (String.eqb_spec (tc_name c) "") as [|He]; [done|]. simpl.
  destruct (256 <? string_len (tc_name c))%N; [done|]. simpl.
  destruct (bool_decide_reflect (tc_name c ∈ names)) as [|Hn]; [done|].
  intros [Hnd Hf]%IH. split.
  - constructor; [|done]. intros Hin. rewrite Forall_forall in Hf. destruct (Hf _ Hin) as [_ H]. set_solver.
  - constructor; [done|]. eapply Forall_impl; [exact Hf|]. simpl. set_solver.
Qed.

Lemma validate_schema_Ok schema n :
  validate_schema schema n = Ok tt →
  columns schema ≠ [] ∧ (vec_len (columns schema) ≤ n)%N ∧ NoDup (List.map tc_name (columns schema)).
Proof.
  unfold validate_schema. destruct (negb _); [done|]. simpl.
  destruct (is_empty (columns schema)) eqn:E; [done|].
  destruct (N.ltb_spec n (vec_len (columns schema))); [done|]. intros [Hnd _]%validate_columns_names.
  split_and!; [by destruct (columns schema)|done|done].
Qed.

(** A table the reader accepts has, in every row, one value for
    each column of the schema, valid for the type of that column; it has no
    more rows than the limit, and the columns have distinct names. *)
Lemma accepted_table_fits `{Lex : !Lexicon} (bytes : string) (schema : TabularSchema) (limits : ImportLimits)
    (table : list (list string)) :
  decode_tabular_csv bytes schema limits = Ok table →
  Forall (fits schema) table
  ∧ (vec_len table ≤ max_rows limits)%N
  ∧ columns schema ≠ [] ∧ (vec_len (columns schema) ≤ max_columns limits)%N
  ∧ NoDup (List.map tc_name (columns schema)) ∧ utf8_valid bytes = true.
Proof.
  unfold decode_tabular_csv. rewrite rbind_Ok. intros ([] & (Hne & Hmax & Hnd)%validate_schema_Ok & H).
  unfold parse_csv in H. destruct (str_starts_with bom bytes); [done|].
  destruct (utf8_valid bytes) eqn:Hu; [|done]. simpl in H. rewrite rbind_Ok in H. destruct H as (st & Hloop & H).
  apply csv_loop_table in Hloop as [Hf Hm]; [|by split; [constructor|unfold vec_len; simpl; lia]].
  destruct (_ || _); [done|]. injection H as <-. done.
Qed.

(** ** The round trip *)

Lemma utf8_special_bytes : Forall (λ c, N_of_ascii c < 128)%N [quote; cr; lf; ","%char].
Proof. by repeat constructor. Qed.

Lemma encode_field_valid f : utf8_valid f = true → utf8_valid (encode_csv_field f) = true.
Proof.
  intros Hf. unfold encode_csv_field. destruct (any_special f); [|done].
  rewrite utf8_valid_cons by done. by rewrite utf8_valid_app by (by apply utf8_valid_replace).
Qed.

Lemma encode_record_valid values rest :
  Forall (λ v, utf8_valid v = true) values →
  utf8_valid (encode_csv_record values +:+ rest) = utf8_valid rest.
Proof.
  intros Hv. unfold encode_csv_record. rewrite string_app_assoc.
  rewrite utf8_valid_app; [done|]. induction Hv as [|v values Hv Hvs IH]; [done|].
  cbn [List.map]. destruct values as [|v' values]; [by apply encode_field_valid|].
  change (utf8_valid (encode_csv_field v +:+ "," +:+ string_join "," (List.map encode_csv_field (v' :: values))) = true).
  rewrite utf8_valid_app by (by apply encode_field_valid). exact IH.
Qed.

Definition encode_records (table : list (list string)) : string :=
  List.fold_right (λ values s, encode_csv_record values +:+ s) "" table.

Lemma encode_records_valid table :
  Forall (Forall (λ v, utf8_valid v = true)) table → utf8_valid (encode_records table) = true.
Proof. induction 1; [done|]. simpl. by rewrite encode_record_valid. Qed.

Lemma rcollect_length {A B E} (f : A → result B E) l ys : rcollect f l = Ok ys → length ys = length l.
Proof. intros H%rcollect_Ok. by eapply eq_sym, Forall2_length. Qed.

Section RoundTrip.
Context `{Lex : !Lexicon} {Number : Type} (number_text : Number → string) (schema : TabularSchema).

Lemma row_texts_length row texts : row_texts number_text schema row = Ok texts → length texts = length (columns schema).
Proof.
  destruct row as [| | | | |object]; try done. simpl. destruct (_ || _ || _); [done|]. apply rcollect_length.
Qed.

(** What the writer writes. *)
Lemma write_rows_Ok rows : ∀ output bytes,
  write_rows number_text schema rows output = Ok bytes →
  ∃ table, Forall2 (λ row texts, row_texts number_text schema row = Ok texts) rows table
  ∧ Forall (λ texts, validate_values texts schema = Ok tt) table
  ∧ bytes = output +:+ encode_records table.
Proof.
  induction rows as [|row rows IH]; intros output bytes; cbn [write_rows].
  - intros [= <-]. exists []. split_and!; [constructor..|by rewrite string_app_nil_r].
  - rewrite rbind_Ok. intros (texts & Ht & H). rewrite rbind_Ok in H. destruct H as ([] & Hv & H).
    destruct (IH _ _ H) as (table & Hrows & Hvs & ->). exists (texts :: table).
    split_and!; [by constructor..|]. simpl. by rewrite string_app_assoc.
Qed.

(** The rows are read after the header. *)
Lemma read_rows limits table : ∀ rows,
  columns schema ≠ [] →
  Forall (λ texts, validate_values texts schema = Ok tt) table →
  Forall (λ texts, length texts = length (columns schema)) table →
  Forall (Forall (λ v, no_newline v = true)) table →
  (vec_len rows + vec_len table ≤ max_rows limits)%N →
  csv_loop schema limits (encode_records table)
    {| csv_rows := rows; csv_row := []; csv_field := ""; quoted := false; field_started := false;
       ended_record := true; header_seen := true |}
  = Ok {| csv_rows := rows ++ table; csv_row := []; csv_field := ""; quoted := false; field_started := false;
          ended_record := true; header_seen := true |}.
Proof.
  unfold vec_len. intros rows Hne Hv Hl Hn. revert rows. induction table as [|texts table IH]; intros rows Hmax.
  - simpl. by rewrite app_nil_r.
  - inversion Hv; inversion Hl; inversion Hn; subst. simpl in Hmax. cbn [encode_records List.fold_right].
    rewrite read_record; try done.
    + simpl. rewrite finish_values by (done || (unfold vec_len; lia)). simpl.
      unfold encode_records in IH. rewrite IH by (done || (rewrite length_app; simpl; lia)).
      by rewrite <- app_assoc.
    + by destruct texts, (columns schema).
Qed.
End RoundTrip.

(** What is written is read. *)
Lemma written_csv_reads `{Lex : !Lexicon} {Number : Type} (number_text : Number → string) (schema : TabularSchema)
    (rows : list (Json Number)) (bytes : string) (limits : ImportLimits) :
  write_tabular_csv number_text schema rows = Ok bytes →
  Forall carried (List.map tc_name (columns schema)) →
  (∀ row texts, row ∈ rows → row_texts number_text schema row = Ok texts → Forall carried texts) →
  str_starts_with bom bytes = false →
  (vec_len (columns schema) ≤ max_columns limits)%N → (vec_len rows ≤ max_rows limits)%N →
  ∃ table, decode_tabular_csv bytes schema limits = Ok table
  ∧ Forall2 (λ row texts, row_texts number_text schema row = Ok texts) rows table.
Proof.
  unfold write_tabular_csv. rewrite rbind_Ok. intros ([] & Hschema & H) Hnames Htexts Hbom Hcols Hrows.
  destruct (max_rows ImportLimits_default <? vec_len rows)%N; [done|].
  apply write_rows_Ok in H as (table & Ht & Hv & ->). exists table. split; [|done].
  destruct (validate_schema_Ok _ _ Hschema) as (Hne & _ & _).
  assert (Forall (Forall carried) table) as Hcarried.
  { apply Forall_forall. intros texts Hin. apply list_elem_of_lookup in Hin as [i Hi].
    destruct (Forall2_lookup_r _ _ _ _ _ Ht Hi) as (row & Hrow & Hr).
    apply (Htexts row); [by eapply list_elem_of_lookup_2|done]. }
  assert (Forall (λ texts, length texts = length (columns schema)) table) as Hlen.
  { apply Forall_forall. intros texts Hin. apply list_elem_of_lookup in Hin as [i Hi].
    destruct (Forall2_lookup_r _ _ _ _ _ Ht Hi) as (row & _ & Hr). by eapply row_texts_length. }
  unfold decode_tabular_csv. assert (validate_schema schema (max_columns limits) = Ok tt) as ->.
  { revert Hschema. unfold validate_schema. destruct (negb _); [done|]. destruct (is_empty _); [done|]. simpl.
    destruct (_ <? _)%N; [done|]. by destruct (N.ltb_spec (max_columns limits) (vec_len (columns schema))); [lia|]. }
  cbn [rbind]. unfold parse_csv. rewrite Hbom.
  rewrite encode_record_valid, encode_records_valid.
  - cbn [negb]. rewrite read_record; try done.
    + simpl. rewrite finish_header by done. simpl.
      rewrite (read_rows schema limits table []); try done.
      * eapply Forall_impl; [exact Hcarried|]. intros texts H. eapply Forall_impl; [exact H|]. by intros ? [].
      * apply Forall2_length in Ht. unfold vec_len in *. simpl. lia.
    + eapply Forall_impl; [exact Hnames|]. by intros ? [].
    + by destruct (columns schema).
  - eapply Forall_impl; [exact Hcarried|]. intros texts H. eapply Forall_impl; [exact H|]. by intros ? [].
  - eapply Forall_impl; [exact Hnames|]. by intros ? [].
Qed.

(** C15: round trip.  What the writer of the tabular profile writes, the reader
    reads back: a row for each row, with the texts of its fields, under any
    limits that allow as many rows and columns; provided that the names and
    the texts are UTF-8 without carriage returns or line feeds, and that the
    first name does not start with a byte order mark. *)
Theorem csv_round_trip `{Lex : !Lexicon} {Number : Type} (number_text : Number → string) (schema : TabularSchema)
    (rows : list (Json Number)) (bytes : string) (limits : ImportLimits) :
  write_tabular_csv number_text schema rows = Ok bytes →
  Forall carried (List.map tc_name (columns schema)) →
  (∀ row texts, row ∈ rows → row_texts number_text schema row = Ok texts → Forall carried texts) →
  str_starts_with bom bytes = false →
  (vec_len (columns schema) ≤ max_columns limits)%N → (vec_len rows ≤ max_rows limits)%N →
  ∃ table, decode_tabular_csv bytes schema limits = Ok table
  ∧ Forall2 (λ row texts, row_texts number_text schema row = Ok texts) rows table.
Proof. apply written_csv_reads. Qed.

(** ** Examples *)

(** A stand-in for the crates that parse UUIDs and timestamps. *)
#[local] Instance sample_lexicon : Lexicon :=
  {| uuid_parses := λ s, (string_len s =? 36)%N; rfc3339_parses := λ s, (20 <=? string_len s)%N |}.

Definition sample_schema : TabularSchema :=
  {| profile := TABULAR_CSV_PROFILE;
     columns := [{| tc_name := "name, full"; tc_type := CtString |}; {| tc_name := "n"; tc_type := CtInt64 |};
                 {| tc_name := "at"; tc_type := CtTimestamp |}] |}.

Definition said : string := "a " +:+ String quote "b" +:+ String quote "".

Definition sample_rows : list (Json Z) :=
  [JObject [("at", JString "2026-01-02T03:04:05Z"); ("n", JNumber (-7)%Z); ("name, full", JString said)];
   JObject [("n", JNumber 12%Z); ("name, full", JString ""); ("at", JString "2026-01-02T03:04:06Z")]].

Definition sample_csv : string :=
  String quote "name, full" +:+ String quote ",n,at" +:+ crlf
  +:+ String quote "a " +:+ String quote (String quote "b") +:+ String quote (String quote (String quote ",-7,2026-01-02T03:04:05Z"))
  +:+ crlf +:+ ",12,2026-01-02T03:04:06Z" +:+ crlf.

Lemma csv_round_trip_witness :
  ∃ table, decode_tabular_csv sample_csv sample_schema ImportLimits_default = Ok table
  ∧ Forall2 (λ row texts, row_texts show_Z sample_schema row = Ok texts) sample_rows table.
Proof.
  refine (csv_round_trip show_Z sample_schema sample_rows sample_csv ImportLimits_default _ _ _ _ _ _).
  - vm_compute. reflexivity.
  - repeat constructor.
  - intros row texts Hin H. unfold sample_rows in Hin. rewrite !elem_of_cons in Hin.
    destruct Hin as [->|[->|Hin%elem_of_nil]]; [| |done]; vm_compute in H; injection H as <-; repeat constructor.
  - vm_compute. reflexivity.
  - vm_compute. discriminate.
  - vm_compute. discriminate.
Defined.

Definition one_column : TabularSchema :=
  {| profile := TABULAR_CSV_PROFILE; columns := [{| tc_name := "a"; tc_type := CtString |}] |}.

(** The writer quotes a text with a line feed, and the reader refuses it: what
    is written cannot be imported. *)
Example written_newline_is_refused :
  match write_tabular_csv show_Z one_column [JObject [("a", JString ("x" +:+ String lf "y"))]] with
  | Ok bytes => decode_tabular_csv bytes one_column ImportLimits_default
                = Err (InvalidCsv "embedded newlines are not supported by profile 1")
  | Err _ => False
  end.
Proof. vm_compute. reflexivity. Qed.

(** Quotes with nothing between them after the last record are dropped: the
    input does not end with a carriage return and a line feed. *)
Example quotes_after_the_last_record :
  decode_tabular_csv ("a" +:+ crlf +:+ "x" +:+ crlf +:+ String quote (String quote ""))
    one_column ImportLimits_default = Ok [["x"]].
Proof. vm_compute. reflexivity. Qed.

(** A carriage return of its own is text, and so is what follows the quote that
    closes a field. *)
Example lone_cr_is_text :
  decode_tabular_csv ("a" +:+ crlf +:+ "x" +:+ String cr "y" +:+ crlf
      +:+ String quote "x" +:+ String quote "y" +:+ crlf) one_column ImportLimits_default
  = Ok [["x" +:+ String cr "y"]; ["xy"]].
Proof. vm_compute. reflexivity. Qed.
