(* ===== verification/Canonical.v ===== *)
(** Canonical JSON: [queryfabric-portability/src/canonical.rs], the serializer
    of version 1.0.

    [serde_json] writes numbers and strings; their texts are section variables.
    What is relied on for the converse direction of
    [canonical_text_decides_equality]: a number is written with the characters
    of numbers, differently from any other, and a string is written so that its
    end is recognised. *)
From Stdlib Require Import Ascii.
From S2P Require Import Prelude BTreeMap Json.
From Stdlib Require Import Sorted.

Section Canonical.
Context {Number : Type} (number_text : Number → string) (string_text : string → string).

(** [keys.sort_unstable()], of distinct keys. *)
Definition sort_keys (keys : list string) : list string :=
  bt_keys (bt_from_list (List.map (λ k, (k, tt)) keys)).

(** The text pushed to [out]. *)
Fixpoint write_canonical (value : Json Number) : string :=
  match value with
  | JNull => "null"
  | JBool b => if b then "true" else "false"
  | JNumber n => number_text n
  | JString s => string_text s
  | JArray items => "[" +:+ string_join "," (List.map write_canonical items) +:+ "]"
  | JObject entries =>
      let texts := List.map (λ kv, (kv.1, write_canonical kv.2)) entries in
      let keys := sort_keys (List.map fst entries) in
      "{" +:+ string_join ","
        (List.map (λ key, string_text key +:+ ":" +:+ default "" (json_get key texts)) keys) +:+ "}"
  end.

Definition canonical_json_string (value : Json Number) : string := write_canonical value.

(** ** Sorted objects *)

Lemma sort_keys_sorted keys : StronglySorted klt (sort_keys keys).
Proof. apply bt_wf_from_list. Qed.

Lemma sort_keys_elem keys k : k ∈ sort_keys keys ↔ k ∈ keys.
Proof.
  unfold sort_keys. induction keys as [|x keys IH] using rev_ind; [done|].
  rewrite List.map_app. simpl. rewrite bt_from_list_snoc, bt_keys_insert, IH. set_solver.
Qed.

Lemma klt_sorted_NoDup (l : list string) : StronglySorted klt l → NoDup l.
Proof.
  induction 1 as [|x l _ IH Hx]; constructor; [|done]. intros Hin. rewrite Forall_forall in Hx.
  specialize (Hx x Hin). unfold klt in Hx. by rewrite cmp_refl in Hx.
Qed.

(** Sorted lists with the same elements are equal. *)
Lemma klt_sorted_unique (l m : list string) :
  StronglySorted klt l → StronglySorted klt m → (∀ k, k ∈ l ↔ k ∈ m) → l = m.
Proof.
  intros Hl Hm H.
  assert (∀ l : list string, bt_keys (List.map (λ k, (k, tt)) l) = l) as Hkeys.
  { clear. induction l as [|x l IH]; [done|]. unfold bt_keys in *. simpl. by f_equal. }
  rewrite <- (Hkeys l), <- (Hkeys m). f_equal. apply bt_ext; [by unfold bt_wf; rewrite Hkeys..|].
  intros k. destruct (bt_get k (List.map (λ k, (k, tt)) l)) as [[]|] eqn:El;
    destruct (bt_get k (List.map (λ k, (k, tt)) m)) as [[]|] eqn:Em; try done.
  - assert (k ∈ l) by (rewrite <- (Hkeys l); apply bt_get_is_Some; by rewrite El).
    apply bt_get_None in Em. rewrite Hkeys in Em. by apply H in H0.
  - assert (k ∈ m) by (rewrite <- (Hkeys m); apply bt_get_is_Some; by rewrite Em).
    apply bt_get_None in El. rewrite Hkeys in El. by apply H in H0.
Qed.

Definition entry_text (kv : string * Json Number) : string :=
  string_text kv.1 +:+ ":" +:+ write_canonical kv.2.

(** The entries of an object, in the order in which they are written. *)
Definition sorted_entries (es : list (string * Json Number)) : list (string * Json Number) :=
  omap (λ k, (λ v, (k, v)) <$> json_get k es) (sort_keys es.*1).

Lemma json_get_map (es : list (string * Json Number)) k :
  json_get k (List.map (λ kv, (kv.1, write_canonical kv.2)) es) = write_canonical <$> json_get k es.
Proof. induction es as [|[k' v] es IH]; [done|]. simpl. by destruct (String.eqb k' k). Qed.

Lemma json_get_key {V} k (es : list (string * V)) : k ∈ es.*1 → ∃ v, json_get k es = Some v.
Proof.
  induction es as [|[k' v] es IH]; [by intros ?%elem_of_nil|]. simpl. rewrite elem_of_cons.
  intros [->|H]; [exists v; by rewrite String.eqb_refl|]. destruct (String.eqb k' k); eauto.
Qed.

Lemma omap_get_keys ks (es : list (string * Json Number)) :
  (∀ k, k ∈ ks → k ∈ es.*1) → (omap (λ k, (λ v, (k, v)) <$> json_get k es) ks).*1 = ks.
Proof.
  induction ks as [|k ks IH]; intros H; [done|]. destruct (json_get_key k es) as [v Hv]; [apply H; set_solver|].
  simpl. rewrite Hv. simpl. f_equal. apply IH. set_solver.
Qed.

Lemma sorted_entries_keys es : (sorted_entries es).*1 = sort_keys es.*1.
Proof. apply omap_get_keys. intros k. apply sort_keys_elem. Qed.

Lemma sorted_entries_elem es kv : NoDup es.*1 → kv ∈ sorted_entries es ↔ kv ∈ es.
Proof.
  intros Hnd. unfold sorted_entries. rewrite list_elem_of_omap. destruct kv as [k v]. split.
  - intros (k' & _ & H). destruct (json_get k' es) eqn:E; [|done]. simpl in H. simplify_eq. by apply json_get_elem.
  - intros H. exists k. apply json_get_elem in H as Hg; [|done]. rewrite Hg. split; [|done].
    apply sort_keys_elem, list_elem_of_fmap. by exists (k, v).
Qed.

Lemma sorted_entries_perm es : NoDup es.*1 → sorted_entries es ≡ₚ es.
Proof.
  intros Hnd. apply NoDup_Permutation.
  - apply (NoDup_fmap_1 fst). rewrite sorted_entries_keys. apply klt_sorted_NoDup, sort_keys_sorted.
  - by apply (NoDup_fmap_1 fst).
  - intros kv. by apply sorted_entries_elem.
Qed.

Lemma write_object es :
  write_canonical (JObject es) = "{" +:+ string_join "," (List.map entry_text (sorted_entries es)) +:+ "}".
Proof.
  cbn [write_canonical]. do 3 f_equal. unfold sorted_entries.
  assert (∀ k, k ∈ sort_keys es.*1 → k ∈ es.*1) as H by (intros k; apply sort_keys_elem).
  change (List.map fst es) with (es.*1). revert H. generalize (sort_keys es.*1). intros ks H.
  induction ks as [|k ks IH]; [done|]. destruct (json_get_key k es) as [v Hv]; [apply H; set_solver|].
  simpl. rewrite json_get_map, Hv. simpl. f_equal. apply IH. set_solver.
Qed.
End Canonical.

(** Canonical JSON ([Canonical]) is canonical: documents have the same text
    exactly when they are equal up to the order of the entries of objects. *)

(** The characters of numbers. *)
Definition numeric (c : ascii) : bool :=
  let n := N_of_ascii c in
  ((48 <=? n) && (n <=? 57) || (n =? 45) || (n =? 43) || (n =? 46) || (n =? 69) || (n =? 101))%N.

Fixpoint all_numeric (s : string) : bool :=
  match s with EmptyString => true | String c s => numeric c && all_numeric s end.

(** What can follow a value: nothing, or the end of an item, array or object. *)
Definition ends (r : string) : Prop :=
  match r with EmptyString => True | String c _ => c = ","%char ∨ c = "]"%char ∨ c = "}"%char end.

Definition dquote : ascii := ascii_of_N 34.

(** What is documented of the texts of numbers and strings. *)
Record json_texts {Number} (number_text : Number → string) (string_text : string → string) : Prop := {
  number_numeric : ∀ n, all_numeric (number_text n) = true ∧ number_text n ≠ "";
  number_inj : ∀ n m, number_text n = number_text m → n = m;
  string_quoted : ∀ s, ∃ rest, string_text s = String dquote rest;
  string_self_delimiting : ∀ s t r r', string_text s +:+ r = string_text t +:+ r' → s = t ∧ r = r'
}.

(** ** Joined items *)

Lemma string_app_inj a b c : a +:+ b = a +:+ c → b = c.
Proof. induction a as [|x a IH]; [done|]. rewrite !string_app_cons. intros [= H]. auto. Qed.

(** Items that can be read one by one make a list that can be read: [f] writes
    an item, and never starts with the closing bracket [close]. *)
Lemma join_delimited {A} (f : A → string) (R : A → A → Prop) (close : ascii) l m r s :
  (close = "]"%char ∨ close = "}"%char) →
  (∀ x t, x ∈ l ++ m → ∀ c, f x +:+ t = String close c → False) →
  (∀ x y t u, x ∈ l → y ∈ m → ends t → ends u → f x +:+ t = f y +:+ u → R x y ∧ t = u) →
  string_join "," (List.map f l) +:+ String close r = string_join "," (List.map f m) +:+ String close s →
  Forall2 R l m ∧ r = s.
Proof.
  intros Hclose. revert m. induction l as [|x l IH]; intros m Hne Hread H.
  - destruct m as [|y m]; [simpl in H; split; [constructor|]; rewrite !string_app_nil_l in H; by injection H|].
    exfalso. symmetry in H. rewrite string_app_nil_l in H. destruct m as [|y' m].
    + cbn [List.map string_join] in H. by apply (Hne y (String close s) ltac:(set_solver) _ H).
    + cbn [List.map string_join] in H. rewrite !string_app_assoc in H.
      by apply (Hne y _ ltac:(set_solver) _ H).
  - destruct m as [|y m].
    { exfalso. rewrite string_app_nil_l in H. destruct l as [|x' l].
      - cbn [List.map string_join] in H. by apply (Hne x (String close r) ltac:(set_solver) _ H).
      - cbn [List.map string_join] in H. rewrite !string_app_assoc in H.
        by apply (Hne x _ ltac:(set_solver) _ H). }
    destruct l as [|x' l], m as [|y' m]; cbn [List.map string_join] in H; rewrite ?string_app_assoc in H.
    + apply Hread in H as [HR H]; [|set_solver..|simpl; tauto|simpl; tauto].
      injection H as ->. split; [by repeat constructor|done].
    + apply Hread in H as [_ H]; [|set_solver..|simpl; tauto|simpl; tauto].
      exfalso. injection H as E _. destruct Hclose; by subst.
    + apply Hread in H as [_ H]; [|set_solver..|simpl; tauto|simpl; tauto].
      exfalso. injection H as E _. destruct Hclose; by subst.
    + apply Hread in H as [HR H]; [|set_solver..|simpl; tauto|simpl; tauto].
      apply string_app_inj in H.
      destruct (IH (y' :: m)) as [Hl ->]; [| |exact H|split; [by constructor|done]].
      * intros z t Hz. apply Hne. revert Hz. rewrite !elem_of_app, !elem_of_cons. tauto.
      * intros z w t u Hz Hw. apply Hread; by right.
Qed.

(** Number texts end where the numeric characters end. *)
Lemma numeric_delimited a b r s :
  all_numeric a = true → all_numeric b = true → ends r → ends s → a +:+ r = b +:+ s → a = b ∧ r = s.
Proof.
  assert (∀ c t, ends (String c t) → numeric c = false) as Hend by (intros c t [->|[->| ->]]; done).
  revert b. induction a as [|c a IH]; intros [|d b] Ha Hb Hr Hs H.
  - split; [done|exact H].
  - rewrite string_app_nil_l, string_app_cons in H. subst r. simpl in Hb. apply Hend in Hr.
    by rewrite Hr in Hb.
  - rewrite string_app_nil_l, string_app_cons in H. subst s. simpl in Ha. apply Hend in Hs.
    by rewrite Hs in Ha.
  - rewrite !string_app_cons in H. injection H as -> H. simpl in Ha, Hb.
    apply andb_true_iff in Ha as [_ Ha]. apply andb_true_iff in Hb as [_ Hb].
    by destruct (IH b Ha Hb Hr Hs H) as [-> ->].
Qed.

Section Facts.
Context {Number : Type} (number_text : Number → string) (string_text : string → string).
Hypothesis texts : json_texts number_text string_text.
#[local] Abbreviation write := (write_canonical number_text string_text).
#[local] Abbreviation entry := (entry_text number_text string_text).

(** The first character of a value. *)
Definition opening (v : Json Number) (c : ascii) : Prop :=
  match v with
  | JNull => c = "n"%char
  | JBool b => c = if b then "t"%char else "f"%char
  | JNumber _ => numeric c = true
  | JString _ => c = dquote
  | JArray _ => c = "["%char
  | JObject _ => c = "{"%char
  end.

Lemma write_opening v : ∃ c rest, write v = String c rest ∧ opening v c.
Proof.
  destruct v as [|[]|n|s|vs|es]; simpl; try (by eexists _, _).
  - destruct (number_numeric _ _ texts n) as [Hn Hne]. destruct (number_text n) as [|c rest]; [done|].
    simpl in Hn. apply andb_true_iff in Hn as [Hc _]. by exists c, rest.
  - destruct (string_quoted _ _ texts s) as [rest ->]. by exists dquote, rest.
Qed.

Lemma write_not_close v t close c :
  (close = "]"%char ∨ close = "}"%char) → write v +:+ t = String close c → False.
Proof.
  intros Hclose. destruct (write_opening v) as (d & rest & -> & Hd). rewrite string_app_cons. intros [= -> _].
  destruct v as [|[]|n|s|vs|es]; simpl in Hd; destruct Hclose as [-> | ->]; done.
Qed.

Lemma entry_not_close kv t close c :
  (close = "]"%char ∨ close = "}"%char) → entry kv +:+ t = String close c → False.
Proof.
  intros Hclose. unfold entry_text. destruct (string_quoted _ _ texts kv.1) as [rest ->].
  rewrite !string_app_cons. intros [= H _]. destruct Hclose as [-> | ->]; done.
Qed.

(** Different kinds of values start differently. *)
Lemma opening_kind v w c :
  opening v c → opening w c →
  match v, w with
  | JNull, JNull | JNumber _, JNumber _ | JString _, JString _ | JArray _, JArray _ | JObject _, JObject _ => True
  | JBool b, JBool b' => b = b'
  | _, _ => False
  end.
Proof.
  destruct v as [|[]|?|?|?|?], w as [|[]|?|?|?|?]; simpl; try done;
    (intros H H'; first [subst c; done | rewrite H in H'; done | rewrite H' in H; done]).
Qed.

Definition readable (v : Json Number) : Prop :=
  ∀ w r s, json_wf v → json_wf w → ends r → ends s → write v +:+ r = write w +:+ s → json_equiv v w ∧ r = s.

Lemma readable_all v : readable v.
Proof.
  induction v as [|b|n|s0|vs IH|es IH] using Json_nested_ind; intros w r s Hv Hw Hr Hs H.
  all: destruct (write_opening w) as (c & wrest & Hwc & Hopen).
  all: match type of H with write ?v +:+ _ = _ =>
         destruct (write_opening v) as (d & vrest & Hvc & Hvopen);
         assert (c = d) as -> by (rewrite Hvc, Hwc, !string_app_cons in H; by injection H);
         pose proof (opening_kind _ _ _ Hvopen Hopen) as Hkind
       end.
  all: destruct w as [|b'|m|s'|ws|gs]; try done; clear Hwc Hvc Hopen Hvopen.
  - split; [constructor|by injection H].
  - subst b'. split; [constructor|]. destruct b; by injection H.
  - simpl in H. apply numeric_delimited in H as [E ->]; [| |apply (number_numeric _ _ texts)|done..];
      [|apply (number_numeric _ _ texts)].
    apply (number_inj _ _ texts) in E as ->. split; [constructor|done].
  - simpl in H. apply (string_self_delimiting _ _ texts) in H as [-> ->]. split; [constructor|done].
  - cbn [write_canonical] in H. rewrite !string_app_assoc in H. apply string_app_inj in H.
    inversion Hv as [| | | |? Hvs|]; inversion Hw as [| | | |? Hws|]; subst.
    apply (join_delimited write json_equiv "]") in H as [Hl ->]; [split; [by constructor|done]|by left|..].
    + intros x t _ c'. apply write_not_close. by left.
    + intros x y t u Hx Hy Ht Hu E. rewrite Forall_forall in IH, Hvs, Hws.
      by apply (IH x Hx y t u (Hvs x Hx) (Hws y Hy)).
  - inversion Hv as [| | | | |? Hnd Hes]; inversion Hw as [| | | | |? Hnd' Hgs]; subst.
    rewrite !write_object, !string_app_assoc in H. apply string_app_inj in H.
    apply (join_delimited entry (λ f g, f.1 = g.1 ∧ json_equiv f.2 g.2) "}") in H as [Hl ->]; [|by right|..].
    + split; [|done]. eapply equiv_object; [symmetry; by apply sorted_entries_perm|exact Hl|by apply sorted_entries_perm].
    + intros x t _ c'. apply entry_not_close. by right.
    + intros x y t u Hx Hy Ht Hu E. rewrite sorted_entries_elem in Hx, Hy by done.
      unfold entry_text in E. rewrite !string_app_assoc in E.
      apply (string_self_delimiting _ _ texts) in E as [Hk E]. rewrite !string_app_cons, !string_app_nil_l in E.
      injection E as E. rewrite Forall_forall in IH, Hes, Hgs.
      destruct (IH x Hx y.2 t u (Hes x Hx) (Hgs y Hy) Ht Hu E) as [? ->]. done.
Qed.
End Facts.

(** The text depends on the document up to equality only. *)
Lemma write_respects {Number} (number_text : Number → string) string_text (v w : Json Number) :
  json_wf v → json_wf w → json_equiv v w →
  write_canonical number_text string_text v = write_canonical number_text string_text w.
Proof.
  revert w. induction v as [|b|n|s0|vs IH|es IH] using Json_nested_ind; intros w Hv Hw H.
  all: inversion H as [| | | |? ws Hl|? fs gs hs Hp Hl Hq]; subst; try done.
  - cbn [write_canonical]. do 3 f_equal.
    inversion Hv as [| | | |? Hvs|]; inversion Hw as [| | | |? Hws|]; subst. clear H Hv Hw.
    induction Hl as [|v w vs ws Hvw Hl IHl]; [done|].
    apply Forall_cons in IH as [IHv IH]. apply Forall_cons in Hvs as [? ?]. apply Forall_cons in Hws as [? ?].
    simpl. f_equal; auto.
  - rewrite !write_object. do 3 f_equal.
    inversion Hv as [| | | | |? Hnd Hes]; inversion Hw as [| | | | |? Hnd' Hhs]; subst.
    assert (fs.*1 = gs.*1) as Hkeys by (clear -Hl; induction Hl as [|???? [E _] _ IH]; csimpl; [done|by f_equal]).
    assert (sort_keys es.*1 = sort_keys hs.*1) as Hsorted.
    { apply klt_sorted_unique; [apply sort_keys_sorted..|]. intros k.
      by rewrite !sort_keys_elem, Hp, Hkeys, Hq. }
    assert (∀ k v, json_get k es = Some v → ∃ w, json_get k hs = Some w ∧ json_equiv v w) as Hget.
    { intros k v Hg%json_get_elem; [|done]. rewrite Hp in Hg. apply list_elem_of_lookup in Hg as [i Hi].
      destruct (Forall2_lookup_l _ _ _ _ _ Hl Hi) as ([k' w] & Hj & E & Hvw). simpl in *. subst k'.
      exists w. split; [|done]. apply json_get_elem; [done|]. rewrite <- Hq. by eapply list_elem_of_lookup_2. }
    unfold sorted_entries. rewrite <- Hsorted.
    assert (∀ k, k ∈ sort_keys es.*1 → k ∈ es.*1) as Hin by (intros k Hk; by rewrite sort_keys_elem in Hk).
    revert Hin. generalize (sort_keys es.*1). intros ks Hin. induction ks as [|k ks IHk]; [done|].
    destruct (json_get_key k es) as [v Hv']; [apply Hin; set_solver|]. destruct (Hget k v Hv') as (w & Hw' & Hvw).
    simpl. rewrite Hv', Hw'. simpl. f_equal; [|apply IHk; set_solver]. unfold entry_text. simpl. do 2 f_equal.
    apply json_get_elem in Hv'; [|done]. apply json_get_elem in Hw'; [|done].
    rewrite Forall_forall in IH, Hes, Hhs. apply (IH _ Hv' w (Hes _ Hv') (Hhs _ Hw') Hvw).
Qed.

(** C16: equivalence.  Two documents with distinct keys have the same canonical
    text exactly when they are equal up to the order of the entries of their
    objects, wherever these are: the text depends neither on the construction
    of a document nor on the order in which its maps are iterated, and different
    documents have different texts. *)
Theorem canonical_text_decides_equality {Number : Type} (number_text : Number → string)
    (string_text : string → string) (v w : Json Number) :
  json_texts number_text string_text → json_wf v → json_wf w →
  (canonical_json_string number_text string_text v = canonical_json_string number_text string_text w
   ↔ json_equiv v w).
Proof.
  intros Htexts Hv Hw. split; [|by apply write_respects].
  intros H. apply (readable_all number_text string_text Htexts v w "" ""); try done.
  unfold canonical_json_string in H. by rewrite H.
Qed.

(** ** An instance of the hypotheses *)

(** Each character is marked; a quote without a mark ends the text. *)
Fixpoint marked (s : string) : string :=
  match s with
  | EmptyString => String dquote ""
  | String c s => String "\" (String c (marked s))
  end.

Definition marked_text (s : string) : string := String dquote (marked s).

Definition digit_text (b : bool) : string := if b then "1" else "0".

Lemma marked_self_delimiting s t r r' : marked s +:+ r = marked t +:+ r' → s = t ∧ r = r'.
Proof.
  revert t. induction s as [|c s IH]; intros [|d t]; cbn [marked]; rewrite ?string_app_cons; try done.
  - by intros [= H].
  - intros [= -> H]. by destruct (IH t H) as [-> ->].
Qed.

Lemma sample_texts : json_texts digit_text marked_text.
Proof.
  split.
  - by intros [].
  - by intros [] [].
  - intros s. by eexists.
  - intros s t r r' H. unfold marked_text in H. rewrite !string_app_cons in H. injection H as H.
    by apply marked_self_delimiting.
Qed.

Definition one_order : Json bool :=
  JObject [("b", JArray [JNull; JNumber true]); ("a", JObject [("y", JBool false); ("x", JString "t")])].
Definition other_order : Json bool :=
  JObject [("a", JObject [("x", JString "t"); ("y", JBool false)]); ("b", JArray [JNull; JNumber true])].

Lemma canonical_text_decides_equality_witness :
  canonical_json_string digit_text marked_text one_order = canonical_json_string digit_text marked_text other_order
  ↔ json_equiv one_order other_order.
Proof.
  refine (canonical_text_decides_equality digit_text marked_text one_order other_order sample_texts _ _).
  - repeat constructor; set_solver.
  - repeat constructor; set_solver.
Defined.

(** The two have one text, and it is this one. *)
Example one_text :
  canonical_json_string digit_text id one_order = "{a:{x:t,y:false},b:[null,1]}"
  ∧ canonical_json_string digit_text marked_text one_order = canonical_json_string digit_text marked_text other_order.
Proof. split; vm_compute; reflexivity. Qed.
