(* ===== verification/Citation.v ===== *)
(** Citations: [queryfabric-portability/src/citation.rs].

    [serde_json] prints CSL-JSON over several lines; that text is a section
    variable. *)
From Stdlib Require Import Ascii.
From S2P Require Import Prelude Json.

Record CitationInput := {
  cit_id : string;
  cit_title : string;
  cit_publisher : string;
  cit_year : string;
  cit_url : string;
  cit_doi : option string;
  cit_license_spdx : option string;
  cit_keywords : list string;
  cit_repository_url : option string
}.

Inductive CitationFormat := BibTeX | Ris | Apa | CslJson | Cff.

Definition content_type (format : CitationFormat) : string :=
  match format with
  | BibTeX => "application/x-bibtex"
  | Ris => "application/x-research-info-systems"
  | Apa => "text/plain"
  | CslJson => "application/vnd.citationstyles.csl+json"
  | Cff => "text/yaml"
  end.

Definition file_extension (format : CitationFormat) : string :=
  match format with BibTeX => "bib" | Ris => "ris" | Apa => "txt" | CslJson => "json" | Cff => "cff" end.

(** A line feed, and a double quote. *)
Definition nl : string := String (ascii_of_N 10) "".
Definition dq : string := String (ascii_of_N 34) "".

(** [if let Some(x) = o { out.push_str(&f(x)) }]. *)
Definition push_some (f : string → string) (o : option string) : string :=
  match o with Some x => f x | None => "" end.

(** [for x in l { out.push_str(&f(x)) }]. *)
Definition push_each (f : string → string) (l : list string) : string :=
  List.fold_left (λ out x, out +:+ f x) l "".

Definition bibtex_text (input : CitationInput) : string :=
  "@misc{" +:+ cit_id input +:+ "," +:+ nl
  +:+ "  title = {" +:+ cit_title input +:+ "}," +:+ nl
  +:+ "  publisher = {" +:+ cit_publisher input +:+ "}," +:+ nl
  +:+ "  year = {" +:+ cit_year input +:+ "}," +:+ nl
  +:+ "  url = {" +:+ cit_url input +:+ "}"
  +:+ push_some (λ license, "," +:+ nl +:+ "  license = {" +:+ license +:+ "}") (cit_license_spdx input)
  +:+ push_some (λ doi, "," +:+ nl +:+ "  doi = {" +:+ doi +:+ "}") (cit_doi input)
  +:+ nl +:+ "}".

Definition ris_text (input : CitationInput) : string :=
  "TY  - DATA" +:+ nl
  +:+ "TI  - " +:+ cit_title input +:+ nl
  +:+ "PB  - " +:+ cit_publisher input +:+ nl
  +:+ "PY  - " +:+ cit_year input +:+ nl
  +:+ "UR  - " +:+ cit_url input
  +:+ push_each (λ keyword, nl +:+ "KW  - " +:+ keyword) (cit_keywords input)
  +:+ push_some (λ doi, nl +:+ "DO  - " +:+ doi) (cit_doi input)
  +:+ nl +:+ "ER  - ".

Definition apa_text (input : CitationInput) : string :=
  let doi_part := push_some (λ doi, " https://doi.org/" +:+ doi) (cit_doi input) in
  cit_publisher input +:+ ". (" +:+ cit_year input +:+ "). " +:+ cit_title input +:+ " [Data set]. "
  +:+ cit_publisher input +:+ "." +:+ doi_part.

Definition cff_text (input : CitationInput) : string :=
  "cff-version: 1.2.0" +:+ nl
  +:+ "message: " +:+ dq +:+ "If you use this dataset, please cite it as below." +:+ dq +:+ nl
  +:+ "title: " +:+ dq +:+ cit_title input +:+ dq +:+ nl
  +:+ "type: dataset" +:+ nl
  +:+ push_some (λ license, "license: " +:+ license +:+ nl) (cit_license_spdx input)
  +:+ "url: " +:+ dq +:+ cit_url input +:+ dq +:+ nl
  +:+ push_some (λ repository, "repository: " +:+ dq +:+ repository +:+ dq +:+ nl)
        (cit_repository_url input)
  +:+ (if is_empty (cit_keywords input) then ""
       else "keywords:" +:+ nl +:+ push_each (λ keyword, "  - " +:+ keyword +:+ nl) (cit_keywords input))
  +:+ "date-released: " +:+ dq +:+ cit_year input +:+ "-01-01" +:+ dq +:+ nl
  +:+ push_some (λ doi, "identifiers:" +:+ nl +:+ "  - type: doi" +:+ nl
                        +:+ "    value: " +:+ dq +:+ doi +:+ dq +:+ nl) (cit_doi input).

Section Csl.
Context {Number : Type} `{!JsonMap Number}.

Definition csl_json_value (input : CitationInput) : Json Number :=
  let item := json_object
    [("type", JString "dataset"); ("id", JString (cit_id input)); ("title", JString (cit_title input));
     ("publisher", JString (cit_publisher input)); ("URL", JString (cit_url input));
     ("issued", JObject (json_object [("date-parts", JArray [JArray [JString (cit_year input)]])]))] in
  let item := match cit_license_spdx input with
              | Some license => map_insert "license" (JString license) item
              | None => item
              end in
  let item := match cit_doi input with
              | Some doi => map_insert "DOI" (JString doi) item
              | None => item
              end in
  JArray [JObject item].

Definition generate_citation (to_string_pretty : Json Number → string) (input : CitationInput)
    (format : CitationFormat) : string :=
  match format with
  | BibTeX => bibtex_text input
  | Ris => ris_text input
  | Apa => apa_text input
  | CslJson => to_string_pretty (csl_json_value input)
  | Cff => cff_text input
  end.
End Csl.

(** ** RIS is read line by line *)

Fixpoint has_char (c : ascii) (s : string) : bool :=
  match s with EmptyString => false | String d s => Ascii.eqb d c || has_char c s end.

Lemma has_char_app c a b : has_char c (a +:+ b) = has_char c a || has_char c b.
Proof. induction a as [|d a IH]; [done|]. rewrite string_app_cons. simpl. by rewrite IH, orb_assoc. Qed.

Lemma split_char_one sep s : has_char sep s = false → split_char sep s = [s].
Proof. induction s as [|c s IH]; [done|]. simpl. intros [-> Hs]%orb_false_iff. by rewrite IH. Qed.

Lemma split_char_first sep s rest :
  has_char sep s = false → split_char sep (s +:+ String sep "" +:+ rest) = s :: split_char sep rest.
Proof.
  induction s as [|c s IH]; intros H.
  - rewrite string_app_nil_l, string_app_cons. simpl. by rewrite Ascii.eqb_refl.
  - simpl in H. apply orb_false_iff in H as [Hc Hs]. rewrite string_app_cons. cbn [split_char]. by rewrite Hc, IH.
Qed.

Lemma split_join sep (l : list string) :
  l ≠ [] → Forall (λ s, has_char sep s = false) l → split_char sep (string_join (String sep "") l) = l.
Proof.
  intros Hne Hl. induction Hl as [|s l Hs Hl IH]; [done|]. destruct l as [|t l]; [by apply split_char_one|].
  change (string_join (String sep "") (s :: t :: l)) with (s +:+ String sep "" +:+ string_join (String sep "") (t :: l)).
  by rewrite split_char_first, IH.
Qed.

Lemma push_each_cons f x l : push_each f (x :: l) = f x +:+ push_each f l.
Proof.
  unfold push_each. simpl. rewrite string_app_nil_l. generalize (f x). clear x.
  assert (∀ out, List.fold_left (λ out x, out +:+ f x) l out = out +:+ List.fold_left (λ out x, out +:+ f x) l "") as H.
  { induction l as [|y l IH]; intros out; simpl; [by rewrite string_app_nil_r|].
    by rewrite IH, (IH ("" +:+ f y)), string_app_nil_l, string_app_assoc. }
  exact H.
Qed.

Lemma join_cons s l : l ≠ [] → string_join nl (s :: l) = s +:+ nl +:+ string_join nl l.
Proof. by destruct l. Qed.

Lemma push_each_lines tag l rest :
  rest ≠ [] →
  push_each (λ x, nl +:+ tag +:+ x) l +:+ nl +:+ string_join nl rest
  = nl +:+ string_join nl (List.map (λ x, tag +:+ x) l ++ rest).
Proof.
  intros Hr. induction l as [|x l IH]; [by rewrite string_app_nil_l|].
  rewrite push_each_cons, !string_app_assoc, IH. cbn [List.map app].
  rewrite join_cons; [by rewrite !string_app_assoc|]. by destruct l.
Qed.

(** The fields of a citation, as RIS writes them. *)
Definition ris_fields (input : CitationInput) : list string :=
  ["TY  - DATA"; "TI  - " +:+ cit_title input; "PB  - " +:+ cit_publisher input;
   "PY  - " +:+ cit_year input; "UR  - " +:+ cit_url input]
  ++ List.map (λ keyword, "KW  - " +:+ keyword) (cit_keywords input)
  ++ List.map (λ doi, "DO  - " +:+ doi) (option_list (cit_doi input)) ++ ["ER  - "].

Lemma ris_text_join input : ris_text input = string_join nl (ris_fields input).
Proof.
  unfold ris_text, ris_fields.
  assert (push_some (λ doi, nl +:+ "DO  - " +:+ doi) (cit_doi input) +:+ nl +:+ "ER  - "
    = nl +:+ string_join nl (List.map (λ doi, "DO  - " +:+ doi) (option_list (cit_doi input)) ++ ["ER  - "])) as ->.
  { destruct (cit_doi input); simpl; by rewrite ?string_app_assoc. }
  rewrite push_each_lines by (by destruct (option_list _)).
  set (rest := List.map _ (cit_keywords input) ++ _).
  assert (rest ≠ []) by (unfold rest; by destruct (List.map _ (cit_keywords input)), (List.map _ (option_list _))).
  cbn [app]. rewrite !join_cons by done. by rewrite !string_app_assoc.
Qed.

(** What the citation says is read back from its lines, when no text of the
    input has a line feed. *)
Lemma ris_lines input :
  Forall (λ s, has_char (ascii_of_N 10) s = false)
    ([cit_title input; cit_publisher input; cit_year input; cit_url input] ++ cit_keywords input
     ++ option_list (cit_doi input)) →
  split_char (ascii_of_N 10) (ris_text input) = ris_fields input.
Proof.
  rewrite !Forall_app, !Forall_cons. intros ((Ht & Hp & Hy & Hu & _) & Hk & Hd).
  rewrite ris_text_join. apply split_join; [done|]. unfold ris_fields.
  rewrite !Forall_app, !Forall_cons, !Forall_map. split_and!; rewrite ?has_char_app; try done.
Qed.

(** ** Texts of the input can break out of their fields *)

Definition sample : CitationInput :=
  {| cit_id := "d1"; cit_title := "Stars" +:+ nl +:+ "UR  - https://elsewhere"; cit_publisher := "Lab";
     cit_year := "2026"; cit_url := "https://lab"; cit_doi := None; cit_license_spdx := None;
     cit_keywords := []; cit_repository_url := None |}.

(** The title with a line feed adds a field to the RIS record. *)
Example ris_title_adds_a_field :
  split_char (ascii_of_N 10) (ris_text sample)
  = ["TY  - DATA"; "TI  - Stars"; "UR  - https://elsewhere"; "PB  - Lab"; "PY  - 2026"; "UR  - https://lab"; "ER  - "].
Proof. reflexivity. Qed.

(** A quote in the title ends the scalar of the CFF document. *)
Example cff_title_is_not_escaped :
  split_char (ascii_of_N 10)
    (cff_text {| cit_id := "d1"; cit_title := "A " +:+ dq +:+ "new" +:+ dq +:+ " star";
       cit_publisher := "Lab"; cit_year := "2026"; cit_url := "https://lab"; cit_doi := None;
       cit_license_spdx := None; cit_keywords := []; cit_repository_url := None |}) !! 2%nat
  = Some ("title: " +:+ dq +:+ "A " +:+ dq +:+ "new" +:+ dq +:+ " star" +:+ dq).
Proof. reflexivity. Qed.
