(* ===== verification/Bundle.v ===== *)
(** Export bundles: [queryfabric-portability/src/] (bundle.rs, manifest.rs).

    [serde] derives the documents of the structures: the conversion, which may
    fail, the serializer of version 2.0 ([serde_jcs]) and the texts of numbers
    and strings are the class [BundleFormat].  The provenance store is the class
    [ProvenanceStore], whose computations change a world. *)
From S2P Require Import Prelude Diagnostics Contract Provenance Access Json Canonical Citation.
Local Open Scope state_scope.

(** [content_hash_hex], which is [hash_bytes] of the content-hash crate. *)
Definition content_hash_hex `{Blake3} (bytes : string) : string := blake3_hex bytes.

Record ArtifactManifest (Number : Type) := MkArtifactManifest {
  am_kind : string;
  storage_uri : string;
  am_format : string;
  schema_fingerprint : string;
  content_hash : string;
  row_count : N;
  byte_count : option N;
  manifest_json : Json Number
}.
Arguments MkArtifactManifest {Number}. Arguments am_kind {Number}. Arguments storage_uri {Number}. Arguments am_format {Number}.
Arguments schema_fingerprint {Number}. Arguments content_hash {Number}. Arguments row_count {Number}.
Arguments byte_count {Number}. Arguments manifest_json {Number}.

Definition BUNDLE_VERSION : string := "1.0".
Definition IMPORT_BUNDLE_VERSION : string := "2.0".

Inductive BundleError :=
| BProvenance (e : ProvenanceError)
| BSerialization (text : string).

Record BundleHeader := {
  bundle_version : string;
  bundle_resource : ResourceRef;
  exported_at_unix_ms : Z
}.

Record Citations (Number : Type) := MkCitations {
  bibtex : string;
  ris : string;
  csl_json : Json Number;
  cff : string;
  apa : string;
  citation_message : string
}.
Arguments MkCitations {Number}. Arguments bibtex {Number}. Arguments ris {Number}. Arguments csl_json {Number}.
Arguments cff {Number}. Arguments apa {Number}. Arguments citation_message {Number}.

Record LicenseSection := { license_spdx_id : string; license_rights_uri : string }.

Record ExportBundle (Number : Type) := MkExportBundle {
  export_bundle : BundleHeader;
  metadata_jsonld : Json Number;
  citations : Citations Number;
  provenance : ProvenanceHistory (Json Number);
  bundle_license : option LicenseSection;
  data_use_restriction : option DataUseRestriction;
  artifacts : list (ArtifactManifest Number)
}.
Arguments MkExportBundle {Number}. Arguments export_bundle {Number}. Arguments metadata_jsonld {Number}.
Arguments citations {Number}. Arguments provenance {Number}. Arguments bundle_license {Number}.
Arguments data_use_restriction {Number}. Arguments artifacts {Number}.

Record BundleRequest (Number : Type) := MkBundleRequest {
  req_resource : ResourceRef;
  req_exported_at_unix_ms : Z;
  req_metadata_jsonld : Json Number;
  req_citation : CitationInput;
  req_policy : ResourcePolicy;
  req_artifacts : list (ArtifactManifest Number)
}.
Arguments MkBundleRequest {Number}. Arguments req_resource {Number}. Arguments req_exported_at_unix_ms {Number}.
Arguments req_metadata_jsonld {Number}. Arguments req_citation {Number}. Arguments req_policy {Number}.
Arguments req_artifacts {Number}.

(** [SealedBundle], and [ImportSealedBundle] with a typed digest: the fields of
    the two are the same. *)
Record SealedBundle (Number : Type) := MkSealedBundle {
  sealed_bundle : ExportBundle Number;
  sealed_canonical_json : string;
  sealed_content_hash : string
}.
Arguments MkSealedBundle {Number}. Arguments sealed_bundle {Number}. Arguments sealed_canonical_json {Number}.
Arguments sealed_content_hash {Number}.

Record ImportSealedBundle (Number : Type) := MkImportSealedBundle {
  import_bundle : ExportBundle Number;
  import_canonical_json : string;
  import_content_hash : string
}.
Arguments MkImportSealedBundle {Number}. Arguments import_bundle {Number}. Arguments import_canonical_json {Number}.
Arguments import_content_hash {Number}.

Class BundleFormat (Number : Type) := {
  (** [serde_json]: the texts of numbers and strings, and of a document over
      several lines. *)
  number_text : Number → string;
  string_text : string → string;
  to_string_pretty : Json Number → string;
  (** [serde_jcs::to_string]. *)
  jcs_text : Json Number → string;
  (** [serde_json::to_value] of a bundle. *)
  bundle_to_value : ExportBundle Number → result (Json Number) string
}.

Definition canonical_json_string_v2 {Number} `{!BundleFormat Number} (value : Json Number) : string := jcs_text value.

Section Build.
Context {Number World : Type} `{!BundleFormat Number} `{!JsonMap Number} `{Hash : !Blake3}
  `{!ProvenanceStore (Json Number) World}.

Definition byte_count_of (canonical_json : string) : N := string_len canonical_json.

Definition citations_of (input : CitationInput) : Citations Number :=
  MkCitations (generate_citation to_string_pretty input BibTeX) (generate_citation to_string_pretty input Ris)
    (csl_json_value input) (generate_citation to_string_pretty input Cff)
    (generate_citation to_string_pretty input Apa)
    "Please cite this resource in any publications that use it.".

Definition license_section (license : DataLicense) : LicenseSection :=
  {| license_spdx_id := spdx_id license; license_rights_uri := rights_uri license |}.

Definition bundle_of (request : BundleRequest Number) (version : string)
    (history : ProvenanceHistory (Json Number)) : ExportBundle Number :=
  MkExportBundle
    {| bundle_version := version; bundle_resource := req_resource request;
       exported_at_unix_ms := req_exported_at_unix_ms request |}
    (req_metadata_jsonld request) (citations_of (req_citation request)) history
    (license_section <$> rp_license (req_policy request)) (rp_restriction (req_policy request))
    (req_artifacts request).

(** The document, its bytes and their hash. *)
Definition seal (bundle : ExportBundle Number) (jcs : bool) : result (SealedBundle Number) BundleError :=
  match bundle_to_value bundle with
  | Err text => Err (BSerialization text)
  | Ok value =>
      let canonical_json :=
        if jcs then canonical_json_string_v2 value else canonical_json_string number_text string_text value in
      Ok (MkSealedBundle bundle canonical_json (content_hash_hex canonical_json))
  end.

Definition build_bundle_version (request : BundleRequest Number) (version : string) (jcs : bool)
    : state World (result (SealedBundle Number) BundleError) :=
  let! read := history (req_resource request) HistoryFilter_default in
  match read with
  | Err e => sret (Err (BProvenance e))
  | Ok provenance => sret (seal (bundle_of request version provenance) jcs)
  end.

Definition build_bundle (request : BundleRequest Number) : state World (result (SealedBundle Number) BundleError) :=
  build_bundle_version request BUNDLE_VERSION false.

Definition build_import_bundle (request : BundleRequest Number)
    : state World (result (ImportSealedBundle Number) BundleError) :=
  let! built := build_bundle_version request IMPORT_BUNDLE_VERSION true in
  sret (rbind built (λ bundle,
    Ok (MkImportSealedBundle (sealed_bundle bundle) (sealed_canonical_json bundle)
          ("blake3-256:" +:+ sealed_content_hash bundle)))).
End Build.

(** ** What a built bundle is *)

Section Facts.
Context {Number World : Type} `{!BundleFormat Number} `{!JsonMap Number} `{Hash : !Blake3}
  `{!ProvenanceStore (Json Number) World} `{Lawful : !LawfulStore (Json Number) World}.

(** Building reads the store and leaves its log as it is; the provenance of the
    bundle is the whole history of the resource. *)
Lemma build_bundle_version_spec request version jcs w :
  match build_bundle_version request version jcs w with
  | (Ok sealed, w') =>
      store_log w' = store_log w
      ∧ is_history (store_log w) (req_resource request) HistoryFilter_default (provenance (sealed_bundle sealed))
      ∧ sealed_bundle sealed = bundle_of request version (provenance (sealed_bundle sealed))
      ∧ seal (sealed_bundle sealed) jcs = Ok sealed
  | (Err _, w') => store_log w' = store_log w
  end.
Proof.
  unfold build_bundle_version, sbind. pose proof (history_log (req_resource request) HistoryFilter_default w) as H.
  destruct (history _ _ w) as [[h|e] w']; simpl; [|done]. destruct H as [Hlog Hh].
  destruct (seal (bundle_of request version h) jcs) as [sealed|] eqn:Hs; simpl; [|done].
  assert (sealed_bundle sealed = bundle_of request version h) as Hb.
  { revert Hs. unfold seal. destruct (bundle_to_value _); [|done]. by intros [= <-]. }
  rewrite Hb. done.
Qed.

(** Two builds of version 2.0 from the same request, from stores with the same
    log, are the same bytes with the same hash. *)
Lemma builds_agree request version jcs w1 w2 s1 s2 :
  store_log w1 = store_log w2 →
  (build_bundle_version request version jcs w1).1 = Ok s1 →
  (build_bundle_version request version jcs w2).1 = Ok s2 → s1 = s2.
Proof.
  intros Hlog H1 H2.
  pose proof (build_bundle_version_spec request version jcs w1) as S1.
  pose proof (build_bundle_version_spec request version jcs w2) as S2.
  destruct (build_bundle_version request version jcs w1) as [[|] w1'], (build_bundle_version request version jcs w2) as [[|] w2'];
    simpl in *; try done. injection H1 as ->. injection H2 as ->.
  destruct S1 as (_ & Hh1 & Hb1 & Hs1), S2 as (_ & Hh2 & Hb2 & Hs2). rewrite Hlog in Hh1.
  pose proof (is_history_unique _ _ _ _ _ Hh1 Hh2) as E. rewrite E in Hb1. rewrite <- Hb2 in Hb1.
  rewrite Hb1 in Hs1. by rewrite Hs1 in Hs2; injection Hs2.
Qed.
(** An import bundle is the bundle of its request, with the canonical text of
    its document and the typed digest of that text. *)
Lemma sealed_import_bundle request w sealed :
  (build_import_bundle request w).1 = Ok sealed →
  ∃ history value, import_bundle sealed = bundle_of request IMPORT_BUNDLE_VERSION history
  ∧ bundle_to_value (import_bundle sealed) = Ok value
  ∧ import_canonical_json sealed = canonical_json_string_v2 value
  ∧ import_content_hash sealed = "blake3-256:" +:+ content_hash_hex (canonical_json_string_v2 value).
Proof.
  unfold build_import_bundle, sbind. pose proof (build_bundle_version_spec request IMPORT_BUNDLE_VERSION true w) as H.
  destruct (build_bundle_version request IMPORT_BUNDLE_VERSION true w) as [[s|] w']; simpl; [|done].
  intros [= <-]. simpl. destruct H as (_ & _ & Hb & Hs). unfold seal in Hs.
  destruct (bundle_to_value (sealed_bundle s)) as [value|] eqn:Hv; [|done].
  exists (provenance (sealed_bundle s)), value. split_and!; try done; by injection Hs as <-.
Qed.
End Facts.
