(* ===== verification/Import.v ===== *)
(** Import of bundles: [queryfabric-portability/src/import.rs].

    The class [ImportFormat] is what the code takes from [serde]: the parser of
    JSON texts, as the document it hands to the visitor of this module, and the
    conversions of documents to and from structures, which are derived.  Sizes
    are those of a machine with words of 64 bits. *)
From Stdlib Require Import Ascii.
From S2P Require Import Prelude Diagnostics Contract Provenance Access Json Canonical Citation Bundle Csv BTreeMap Numerals.
Local Open Scope result_scope.

(** ** Documents as they are read *)

(** What the parser hands to the visitor: entries in the order of the text,
    equal keys included, and the error where the text breaks off.  [at_] is the
    position, which the parser appends to an error of the visitor. *)
Inductive RawJson (Float : Type) : Type :=
| RawNull
| RawBool (value : bool)
| RawI64 (value : Z)
| RawU64 (value : N)
| RawF64 (value : Float) (at_ : string)
| RawString (value : string)
| RawSeq (items : list (RawJson Float)) (stop : option string)
| RawMap (entries : list (string * string * RawJson Float)) (stop : option string)
| RawFailed (error : string).
Arguments RawNull {Float}. Arguments RawBool {Float}. Arguments RawI64 {Float}. Arguments RawU64 {Float}.
Arguments RawF64 {Float}. Arguments RawString {Float}. Arguments RawSeq {Float}. Arguments RawMap {Float}.
Arguments RawFailed {Float}.

Record PlanTarget := {
  target_resource : ResourceRef;
  target_relation : string;
  target_revision : string;
  expected_schema : TabularSchema;
  local_owner : Uuid
}.

Record ValidatedBundle (Number : Type) := MkValidatedBundle {
  vb_bundle : ExportBundle Number;
  vb_canonical_json : string;
  vb_bundle_digest : string;
  vb_artifacts : list (ArtifactManifest Number);
  vb_source_resource : ResourceRef
}.
Arguments MkValidatedBundle {Number}. Arguments vb_bundle {Number}. Arguments vb_canonical_json {Number}.
Arguments vb_bundle_digest {Number}. Arguments vb_artifacts {Number}. Arguments vb_source_resource {Number}.

Record ImportPlan := {
  ip_bundle_digest : string;
  ip_artifact_digest : string;
  ip_source_resource : ResourceRef;
  ip_target : PlanTarget;
  ip_column_mapping : list TabularColumn;
  ip_row_count : N;
  ip_byte_count : N;
  ip_plan_digest : string
}.

Class ImportFormat (Number : Type) := {
  Float : Type;
  (** The document of a text, and the error of [Deserializer::end], if any. *)
  raw_document : string → RawJson Float * option string;
  number_of_i64 : Z → Number;
  number_of_u64 : N → Number;
  (** [Number::from_f64]: not for infinities and NaN. *)
  number_of_f64 : Float → option Number;
  (** [serde_json::from_value]. *)
  bundle_from_value : Json Number → result (ExportBundle Number) string;
  schema_from_value : Json Number → result TabularSchema string;
  (** [serde_json::to_value]; of a schema it does not fail. *)
  schema_to_value : TabularSchema → Json Number;
  plan_to_value : ImportPlan → result (Json Number) string;
  (** The length of [serde_json::to_vec]. *)
  to_vec_len : Json Number → result N string
}.

Section ImportBundles.
Context {Number : Type} `{!BundleFormat Number} `{!JsonMap Number} `{!ImportFormat Number} `{Hash : !Blake3}
  `{Lex : !Lexicon}.

(** The loops of [visit_seq] and [visit_map]. *)
Definition visit_seq (visit : RawJson Float → result (Json Number) string) (stop : option string)
    : list (RawJson Float) → list (Json Number) → result (Json Number) string :=
  fix go items values :=
    match items with
    | [] => match stop with Some error => Err error | None => Ok (JArray values) end
    | item :: items =>
        let? value := visit item in
        go items (values ++ [value])
    end.

Definition visit_map (visit : RawJson Float → result (Json Number) string) (stop : option string)
    : list (string * string * RawJson Float) → list (string * Json Number) → result (Json Number) string :=
  fix go entries values :=
    match entries with
    | [] => match stop with Some error => Err error | None => Ok (JObject values) end
    | (key, at_, item) :: entries =>
        if is_some (json_get key values) then Err ("duplicate JSON object key '" +:+ key +:+ "'" +:+ at_)
        else
          let? value := visit item in
          go entries (map_insert key value values)
    end.

(** [StrictValueVisitor]. *)
Fixpoint strict_value (raw : RawJson Float) : result (Json Number) string :=
  match raw with
  | RawNull => Ok JNull
  | RawBool value => Ok (JBool value)
  | RawI64 value => Ok (JNumber (number_of_i64 value))
  | RawU64 value => Ok (JNumber (number_of_u64 value))
  | RawF64 value at_ =>
      match number_of_f64 value with
      | Some number => Ok (JNumber number)
      | None => Err ("non-finite JSON number" +:+ at_)
      end
  | RawString value => Ok (JString value)
  | RawSeq items stop => visit_seq strict_value stop items []
  | RawMap entries stop => visit_map strict_value stop entries []
  | RawFailed error => Err error
  end.

Definition parse_json_without_duplicate_keys (bytes : string) : result (Json Number) ImportError :=
  let '(raw, end_) := raw_document bytes in
  match strict_value raw with
  | Err error => Err (InvalidJson error)
  | Ok value =>
      match end_ with
      | Some error => Err (InvalidJson error)
      | None => Ok value
      end
  end.

(** ** Limits *)

Definition try_for_each {A} (f : A → result unit ImportError) : list A → result unit ImportError :=
  fix go l :=
    match l with
    | [] => Ok tt
    | x :: l => let? _done := f x in go l
    end.

Fixpoint enforce_json_limits (value : Json Number) (depth : N) (limits : ImportLimits) : result unit ImportError :=
  if (max_json_depth limits <? depth)%N then Err JsonLimits
  else
    match value with
    | JString text => if (max_string_bytes limits <? string_len text)%N then Err JsonLimits else Ok tt
    | JArray items => try_for_each (λ item, enforce_json_limits item (depth + 1) limits) items
    | JObject map =>
        try_for_each (λ entry : string * Json Number,
          if (max_string_bytes limits <? string_len entry.1)%N then Err JsonLimits
          else enforce_json_limits entry.2 (depth + 1) limits) map
    | _ => Ok tt
    end.

(** ** Digests *)

Definition typed_digest (bytes : string) : string := "blake3-256:" +:+ content_hash_hex bytes.

Definition is_ascii_uppercase (c : ascii) : bool := ((65 <=? N_of_ascii c) && (N_of_ascii c <=? 90))%N.

Fixpoint lower_hex (s : string) : bool :=
  match s with
  | EmptyString => true
  | String byte s => is_ascii_hexdigit byte && negb (is_ascii_uppercase byte) && lower_hex s
  end.

Definition valid_typed_digest (value : string) : bool :=
  match strip_prefix "blake3-256:" value with
  | None => false
  | Some hex => (string_len hex =? 64)%N && lower_hex hex
  end.

(** The fold over the bytes side by side. *)
Fixpoint differences (left_ right_ : string) (difference : N) : N :=
  match left_, right_ with
  | String a left_, String b right_ =>
      differences left_ right_ (N.lor difference (N.lxor (N_of_ascii a) (N_of_ascii b)))
  | _, _ => difference
  end.

Definition constant_time_eq (left_ right_ : string) : bool :=
  if negb (string_len left_ =? string_len right_)%N then false
  else (differences left_ right_ 0 =? 0)%N.

Definition schema_bytes (schema : TabularSchema) : string := canonical_json_string_v2 (schema_to_value schema).

Definition tabular_schema_fingerprint (schema : TabularSchema) : string := typed_digest (schema_bytes schema).

(** ** Validation *)

(** One turn of the loop over the artifacts, with the bytes so far and the
    artifacts seen. *)
Definition check_artifact (limits : ImportLimits) (artifact : ArtifactManifest Number)
    (st : N * list (string * string)) : result (N * list (string * string)) ImportError :=
  let '(total_bytes, seen) := st in
  if negb (String.eqb (am_kind artifact) "table_export") || negb (String.eqb (am_format artifact) "csv") then
    Err (InvalidManifest "2.0 accepts exactly one table_export CSV profile")
  else
    let? byte_count := ok_or (byte_count artifact) (InvalidManifest "byteCount is required") in
    if (max_artifact_bytes limits <? byte_count)%N then Err ArtifactTooLarge
    else if (u64_max <? total_bytes + byte_count)%N then Err AggregateArtifactTooLarge
    else
      let total_bytes := (total_bytes + byte_count)%N in
      if (max_total_artifact_bytes limits <? total_bytes)%N then Err AggregateArtifactTooLarge
      else if negb (valid_typed_digest (content_hash artifact))
           || negb (valid_typed_digest (schema_fingerprint artifact)) then
        Err (InvalidManifest "contentHash and schemaFingerprint must be typed blake3-256 digests")
      else if bool_decide ((am_kind artifact, storage_uri artifact) ∈ seen) then Err DuplicateArtifact
      else if String.eqb (storage_uri artifact) "" || str_starts_with "/" (storage_uri artifact)
           || str_contains (storage_uri artifact) ".." || str_contains (storage_uri artifact) "://" then
        Err (InvalidManifest "storageUri is metadata only and must be a bounded relative name")
      else
        match schema_from_value (manifest_json artifact) with
        | Err error => Err (InvalidProfile error)
        | Ok schema =>
            match to_vec_len (manifest_json artifact) with
            | Err error => Err (InvalidJson error)
            | Ok length =>
                if (max_extension_bytes limits <? length)%N then Err JsonLimits
                else
                  let? _valid := validate_schema schema (max_columns limits) in
                  if negb (String.eqb (typed_digest (schema_bytes schema)) (schema_fingerprint artifact)) then
                    Err SchemaMismatch
                  else Ok (total_bytes, (am_kind artifact, storage_uri artifact) :: seen)
            end
        end.

Fixpoint check_artifacts (limits : ImportLimits) (artifacts : list (ArtifactManifest Number))
    (st : N * list (string * string)) : result unit ImportError :=
  match artifacts with
  | [] => Ok tt
  | artifact :: artifacts =>
      let? st := check_artifact limits artifact st in
      check_artifacts limits artifacts st
  end.

(** The document of the bundle, up to its version. *)
Definition read_bundle (bytes : string) (limits : ImportLimits)
    : result (Json Number * ExportBundle Number) ImportError :=
  if (max_bundle_bytes limits <? string_len bytes)%N then Err BundleTooLarge
  else
    let? value := parse_json_without_duplicate_keys bytes in
    let? _limits := enforce_json_limits value 0 limits in
    match bundle_from_value value with
    | Err error => Err (InvalidJson error)
    | Ok bundle =>
        if negb (String.eqb (bundle_version (export_bundle bundle)) IMPORT_BUNDLE_VERSION) then
          Err (UnsupportedVersion (bundle_version (export_bundle bundle)))
        else Ok (value, bundle)
    end.

Definition validate_import_bundle (bytes expected_digest : string) (limits : ImportLimits)
    : result (ValidatedBundle Number) ImportError :=
  let? document := read_bundle bytes limits in
  let '(value, bundle) := document in
  let canonical_json := canonical_json_string_v2 value in
  match to_vec_len (metadata_jsonld bundle) with
  | Err error => Err (InvalidJson error)
  | Ok extension_bytes =>
      if (max_extension_bytes limits <? extension_bytes)%N then Err JsonLimits
      else
        let digest := typed_digest canonical_json in
        if negb (valid_typed_digest expected_digest) then Err InvalidDigest
        else if negb (constant_time_eq digest expected_digest) then Err DigestMismatch
        else if is_empty (artifacts bundle) || (max_artifacts limits <? vec_len (artifacts bundle))%N then
          Err TooManyArtifacts
        else
          let? _checked := check_artifacts limits (artifacts bundle) (0%N, []) in
          Ok (MkValidatedBundle bundle canonical_json digest (artifacts bundle)
                (bundle_resource (export_bundle bundle)))
  end.

(** ** Planning *)

Definition plan_tabular_import (bundle : ValidatedBundle Number) (artifact_bytes : string) (target : PlanTarget)
    (limits : ImportLimits) : result ImportPlan ImportError :=
  match vb_artifacts bundle with
  | [manifest] =>
      if (max_artifact_bytes limits <? string_len artifact_bytes)%N then Err ArtifactTooLarge
      else
        let? _valid := validate_schema (expected_schema target) (max_columns limits) in
        match schema_from_value (manifest_json manifest) with
        | Err error => Err (InvalidProfile error)
        | Ok schema =>
            if negb (bool_decide (schema = expected_schema target)) then
              Err (InvalidTarget "target schema does not equal the portable schema")
            else
              let actual_digest := typed_digest artifact_bytes in
              let actual_bytes := string_len artifact_bytes in
              if negb (String.eqb actual_digest (content_hash manifest))
                 || negb (bool_decide (Some actual_bytes = byte_count manifest)) then Err ArtifactMismatch
              else
                let? rows := parse_csv artifact_bytes schema limits in
                if negb (vec_len rows =? row_count manifest)%N then Err ArtifactMismatch
                else if String.eqb (trim (target_relation target)) ""
                     || String.eqb (trim (target_revision target)) "" then
                  Err (InvalidTarget "relation and targetRevision are required")
                else
                  let plan := {| ip_bundle_digest := vb_bundle_digest bundle; ip_artifact_digest := actual_digest;
                                 ip_source_resource := vb_source_resource bundle; ip_target := target;
                                 ip_column_mapping := columns schema; ip_row_count := vec_len rows;
                                 ip_byte_count := actual_bytes; ip_plan_digest := "" |} in
                  match plan_to_value plan with
                  | Err error => Err (InvalidJson error)
                  | Ok plan_value =>
                      Ok {| ip_bundle_digest := ip_bundle_digest plan; ip_artifact_digest := ip_artifact_digest plan;
                            ip_source_resource := ip_source_resource plan; ip_target := ip_target plan;
                            ip_column_mapping := ip_column_mapping plan; ip_row_count := ip_row_count plan;
                            ip_byte_count := ip_byte_count plan;
                            ip_plan_digest := typed_digest (canonical_json_string_v2 plan_value) |}
                  end
        end
  | _ => Err (InvalidManifest "exactly one table artifact is required")
  end.
End ImportBundles.

(** Facts of [Import]: documents are read without repeated keys, limits and
    digests are exact, a validated bundle is sound, a plan describes the table
    that is imported, and what is exported can be imported. *)

(** ** Reading documents *)

Section RawInduction.
Context {Float : Type} (P : RawJson Float → Prop).
Hypothesis HNull : P RawNull.
Hypothesis HBool : ∀ b, P (RawBool b).
Hypothesis HI64 : ∀ z, P (RawI64 z).
Hypothesis HU64 : ∀ n, P (RawU64 n).
Hypothesis HF64 : ∀ f at_, P (RawF64 f at_).
Hypothesis HString : ∀ s, P (RawString s).
Hypothesis HSeq : ∀ items stop, Forall P items → P (RawSeq items stop).
Hypothesis HMap : ∀ entries stop, Forall (λ e, P e.2) entries → P (RawMap entries stop).
Hypothesis HFailed : ∀ error, P (RawFailed error).

Fixpoint RawJson_nested_ind (raw : RawJson Float) : P raw.
Proof.
  destruct raw as [|b|z|n|f at_|s|items stop|entries stop|error];
    [apply HNull|apply HBool|apply HI64|apply HU64|apply HF64|apply HString| | |apply HFailed].
  - apply HSeq. induction items as [|item items IH]; constructor; [apply RawJson_nested_ind|exact IH].
  - apply HMap. induction entries as [|[k item] entries IH]; constructor; [apply RawJson_nested_ind|exact IH].
Qed.
End RawInduction.

Section Reading.
Context {Number : Type} `{!BundleFormat Number} `{!JsonMap Number} `{!ImportFormat Number}.

(** The document a text stands for, up to the order of entries: it does not
    break off, no key is repeated in an object, and every number is finite. *)
Inductive reads : RawJson Float → Json Number → Prop :=
| reads_null : reads RawNull JNull
| reads_bool b : reads (RawBool b) (JBool b)
| reads_i64 z : reads (RawI64 z) (JNumber (number_of_i64 z))
| reads_u64 n : reads (RawU64 n) (JNumber (number_of_u64 n))
| reads_f64 f at_ n : number_of_f64 f = Some n → reads (RawF64 f at_) (JNumber n)
| reads_string s : reads (RawString s) (JString s)
| reads_seq items vs : Forall2 reads items vs → reads (RawSeq items None) (JArray vs)
| reads_map entries fs es :
    NoDup (List.map (λ e, e.1.1) entries) →
    Forall2 (λ e f, e.1.1 = f.1 ∧ reads e.2 f.2) entries fs → es ≡ₚ fs →
    reads (RawMap entries None) (JObject es).

Lemma visit_seq_Ok visit stop items : ∀ values v,
  visit_seq visit stop items values = Ok v ↔
  stop = None ∧ ∃ vs, Forall2 (λ item v, visit item = Ok v) items vs ∧ v = JArray (Number:=Number) (values ++ vs).
Proof.
  induction items as [|item items IH]; intros values v; cbn [visit_seq].
  - destruct stop; split; try done.
    + by intros [? _].
    + intros [= <-]. split; [done|]. exists []. by rewrite app_nil_r.
    + intros (_ & vs & H%Forall2_nil_inv_l & ->). by rewrite H, app_nil_r.
  - rewrite rbind_Ok. setoid_rewrite IH. split.
    + intros (v' & Hv & -> & vs & Hvs & ->). split; [done|]. exists (v' :: vs). rewrite <- app_assoc. auto.
    + intros (-> & vs & H & ->). apply Forall2_cons_inv_l in H as (v' & vs' & Hv & Hvs & ->).
      exists v'. split; [done|]. split; [done|]. exists vs'. by rewrite <- app_assoc.
Qed.

Lemma json_get_None {V} key (entries : list (string * V)) : is_some (json_get key entries) = false ↔ key ∉ entries.*1.
Proof.
  induction entries as [|[k v] entries IH]; csimpl; [split; [intros _; by apply not_elem_of_nil|done]|].
  rewrite not_elem_of_cons. destruct (String.eqb_spec k key) as [->|Hne]; [split; [done|by intros [? _]]|].
  rewrite IH. split; [|by intros [_ ?]]. intros ?. split; [congruence|done].
Qed.

Context `{!LawfulJsonMap Number}.

Lemma visit_map_Ok visit stop entries : ∀ values v,
  NoDup values.*1 →
  visit_map visit stop entries values = Ok v →
  stop = None ∧ ∃ fs es, Forall2 (λ e f, e.1.1 = f.1 ∧ visit e.2 = Ok f.2) entries fs
    ∧ v = JObject (Number:=Number) es ∧ es ≡ₚ values ++ fs ∧ NoDup (values ++ fs).*1.
Proof.
  induction entries as [|[[key at_] item] entries IH]; intros values v Hnd; cbn [visit_map].
  - destruct stop; [done|]. intros [= <-]. split; [done|]. exists [], values. by rewrite app_nil_r.
  - destruct (is_some (json_get key values)) eqn:Hk; [done|]. apply json_get_None in Hk.
    rewrite rbind_Ok. intros (v' & Hv & H). pose proof (map_insert_new key v' values Hk) as Hp.
    apply IH in H as (-> & fs & es & Hfs & -> & Hes & Hnd'); [|by rewrite Hp; csimpl; apply NoDup_cons].
    assert (map_insert key v' values ++ fs ≡ₚ values ++ (key, v') :: fs) as Hp'
      by (rewrite Hp; simpl; by rewrite Permutation_middle).
    split; [done|]. exists ((key, v') :: fs), es. split_and!; [by constructor|done|by rewrite Hes|by rewrite <- Hp'].
Qed.

Lemma visit_map_complete visit entries fs : ∀ values,
  Forall2 (λ e f, e.1.1 = f.1 ∧ visit e.2 = Ok f.2) entries fs → NoDup (values ++ fs).*1 →
  ∃ es, visit_map visit None entries values = Ok (JObject (Number:=Number) es) ∧ es ≡ₚ values ++ fs.
Proof.
  intros values H. revert values.
  induction H as [|[[key at_] item] [key' v] entries fs [Hkey Hv] H IH]; intros values Hnd; cbn [visit_map].
  - exists values. by rewrite app_nil_r.
  - simpl in Hkey, Hv. subst key'. rewrite fmap_app in Hnd. csimpl in *.
    assert (key ∉ values.*1) as Hk.
    { intros Hin. apply NoDup_app in Hnd as (_ & Hd & _). apply (Hd key Hin). by left. }
    rewrite (proj2 (json_get_None key values) Hk), Hv. simpl.
    pose proof (map_insert_new key v values Hk) as Hp.
    assert (map_insert key v values ++ fs ≡ₚ values ++ (key, v) :: fs) as Hp'
      by (rewrite Hp; simpl; by rewrite Permutation_middle).
    destruct (IH (map_insert key v values)) as (es & He & Hes).
    + rewrite Hp', fmap_app. by csimpl.
    + exists es. split; [done|]. by rewrite Hes.
Qed.

Lemma strict_value_reads raw : ∀ v, strict_value raw = Ok v → reads raw v.
Proof.
  induction raw as [|b|z|n|f at_|s|items stop IH|entries stop IH|error] using RawJson_nested_ind; intros v;
    cbn [strict_value]; try (intros [= <-]; by constructor).
  - destruct (number_of_f64 f) eqn:E; [|done]. intros [= <-]. by constructor.
  - rewrite visit_seq_Ok. intros (-> & vs & Hvs & ->). constructor. simpl.
    induction Hvs as [|item v items vs Hv _ IHvs]; [constructor|]. apply Forall_cons in IH as [IHi IH]. constructor; auto.
  - intros (-> & fs & es & Hfs & -> & Hes & Hnd)%visit_map_Ok; [|constructor]. simpl in *.
    assert (List.map (λ e, e.1.1) entries = fs.*1) as Hkeys
      by (clear -Hfs; induction Hfs as [|e f entries fs [E _] _ IH]; csimpl; [done|by rewrite E, IH]).
    apply reads_map with (fs := fs); [by rewrite Hkeys| |done].
    clear Hes Hnd Hkeys. induction Hfs as [|e f entries fs [E Hv] _ IHfs]; [constructor|].
    apply Forall_cons in IH as [IHe IH]. constructor; auto.
Qed.

Lemma reads_wf raw : ∀ v, reads raw v → json_wf v.
Proof.
  induction raw as [|b|z|n|f at_|s|items stop IH|entries stop IH|error] using RawJson_nested_ind; intros v H;
    inversion H as [| | | | | |? vs Hvs|? fs es Hnd Hfs Hp]; subst; try by constructor.
  - constructor. clear H. induction Hvs as [|item v items vs Hv _ IHvs]; [constructor|].
    apply Forall_cons in IH as [IHi IH]. constructor; auto.
  - eapply json_wf_perm; [exact Hp|]. constructor.
    + clear -Hnd Hfs. assert (List.map (λ e, e.1.1) entries = fs.*1) as <-; [|done].
      induction Hfs as [|e f entries fs [E _] _ IH]; csimpl; [done|].
      inversion Hnd; subst. by rewrite E, IH.
    + clear H Hnd Hp. induction Hfs as [|e f entries fs [E Hv] _ IHfs]; [constructor|].
      apply Forall_cons in IH as [IHe IH]. constructor; auto.
Qed.

Lemma strict_value_complete raw : ∀ w, reads raw w → ∃ v, strict_value raw = Ok v ∧ json_equiv v w.
Proof.
  induction raw as [|b|z|n|f at_|s|items stop IH|entries stop IH|error] using RawJson_nested_ind; intros w H;
    inversion H as [| | | |? ? ? Hf| |? vs Hvs|? fs es Hnd Hfs Hp]; subst; cbn [strict_value];
    try (eexists; split; [done|by constructor]).
  - rewrite Hf. eexists; split; [done|by constructor].
  - clear H. assert (∃ us, Forall2 (λ item v, strict_value item = Ok v) items us ∧ Forall2 json_equiv us vs)
      as (us & Hus & Heq).
    { induction Hvs as [|item v items vs Hv _ IHvs]; [by exists []|]. apply Forall_cons in IH as [IHi IH].
      destruct (IHi v Hv) as (u & ? & ?), (IHvs IH) as (us & ? & ?). exists (u :: us). by split; constructor. }
    exists (JArray us). split; [|by constructor]. apply visit_seq_Ok. split; [done|]. by exists us.
  - clear H. assert (∃ gs, Forall2 (λ e g, e.1.1 = g.1 ∧ strict_value e.2 = Ok g.2) entries gs
        ∧ Forall2 (λ g f, g.1 = f.1 ∧ json_equiv g.2 f.2) gs fs ∧ gs.*1 = List.map (λ e, e.1.1) entries)
      as (gs & Hgs & Heq & Hkeys).
    { clear Hnd Hp. induction Hfs as [|e f entries fs [E Hv] _ IHfs]; [by exists []|].
      apply Forall_cons in IH as [IHe IH]. destruct (IHe f.2 Hv) as (u & Hu & Hequ), (IHfs IH) as (gs & ? & ? & Hk).
      exists ((e.1.1, u) :: gs). csimpl. rewrite Hk. by split_and!; [constructor..|]. }
    destruct (visit_map_complete strict_value entries gs [] Hgs) as (es' & He & Hes'); [by csimpl; rewrite Hkeys|].
    exists (JObject es'). split; [exact He|]. eapply equiv_object; [exact Hes'|exact Heq|by symmetry].
Qed.

(** Refinement.  Reading a document refuses texts that break off, repeat a
    key in an object, at any depth, or have a number that is not finite, and
    reads every other one: the value read is the document of the text, with
    distinct keys, and each document of the text equals it up to the order of
    entries. *)
Theorem documents_are_read_strictly (raw : RawJson Float) :
  (∀ v, strict_value raw = Ok v → reads raw v ∧ json_wf v)
  ∧ (∀ w, reads raw w → ∃ v, strict_value raw = Ok v ∧ json_equiv v w).
Proof.
  split; [|apply strict_value_complete]. intros v Hv%strict_value_reads. split; [done|]. by eapply reads_wf.
Qed.
End Reading.

(** ** Limits *)

Section Limits.
Context {Number : Type}.
Implicit Types (v w : Json Number).

(** [w] is in [v], inside of [depth] arrays and objects. *)
Inductive occurs : Json Number → N → Json Number → Prop :=
| occurs_here v : occurs v 0 v
| occurs_array vs v depth w : v ∈ vs → occurs v depth w → occurs (JArray vs) (depth + 1) w
| occurs_object es k v depth w : (k, v) ∈ es → occurs v depth w → occurs (JObject es) (depth + 1) w.

Definition texts_within (limits : ImportLimits) w : Prop :=
  match w with
  | JString text => (string_len text ≤ max_string_bytes limits)%N
  | JObject es => Forall (λ k, (string_len k ≤ max_string_bytes limits)%N) es.*1
  | _ => True
  end.

Lemma try_for_each_Ok {A} (f : A → result unit ImportError) l :
  try_for_each f l = Ok tt ↔ Forall (λ x, f x = Ok tt) l.
Proof.
  induction l as [|x l IH]; [by split; constructor|].
  change (try_for_each f (x :: l)) with (rbind (f x) (λ _, try_for_each f l)).
  rewrite Forall_cons, <- IH. destruct (f x) as [[]|]; simpl; naive_solver.
Qed.

Lemma enforce_json_limits_from limits v : ∀ depth,
  enforce_json_limits v depth limits = Ok tt
  ↔ ∀ d w, occurs v d w → (depth + d ≤ max_json_depth limits)%N ∧ texts_within limits w.
Proof.
  assert (∀ (b : bool) (r : result unit ImportError), (if b then Err JsonLimits else r) = Ok tt ↔ b = false ∧ r = Ok tt)
    as Hif by (intros [] r; naive_solver).
  induction v as [|b|n|s|vs IH|es IH] using Json_nested_ind; intros depth; cbn [enforce_json_limits];
    rewrite Hif, N.ltb_ge.
  1-3: split; [intros [Hd _] d w H; inversion H; subst; split; [lia|done]
              |intros H; destruct (H _ _ (occurs_here _)); split; [lia|done]].
  - rewrite Hif, N.ltb_ge. split.
    + intros (Hd & Hs & _) d w H. inversion H; subst. split; [lia|done].
    + intros H. destruct (H _ _ (occurs_here _)). split_and!; [lia|done|done].
  - rewrite try_for_each_Ok, !Forall_forall. rewrite Forall_forall in IH. split.
    + intros [Hd Hvs] d w H. inversion H as [|? v d' ? Hin Ho|]; subst; [split; [lia|done]|].
      apply (proj1 (IH v Hin (depth + 1)%N) (Hvs v Hin)) in Ho as [? ?]. split; [lia|done].
    + intros H. split; [destruct (H _ _ (occurs_here _)); lia|]. intros v Hin. apply IH; [done|]. intros d w Ho.
      destruct (H (d + 1)%N w) as [? ?]; [by eapply occurs_array|]. split; [lia|done].
  - rewrite try_for_each_Ok, !Forall_forall. rewrite Forall_forall in IH. split.
    + intros [Hd Hes] d w H. inversion H as [| |? k v d' ? Hin Ho]; subst.
      * split; [lia|]. cbn [texts_within]. apply Forall_forall. intros k ([k' v] & -> & Hin)%list_elem_of_fmap.
        specialize (Hes _ Hin). rewrite Hif, N.ltb_ge in Hes. by destruct Hes.
      * specialize (Hes _ Hin). rewrite Hif in Hes. destruct Hes as [_ Hes].
        apply (proj1 (IH _ Hin (depth + 1)%N) Hes) in Ho as [? ?]. split; [lia|done].
    + intros H. destruct (H _ _ (occurs_here _)) as [Hd Hk]. split; [lia|]. intros [k v] Hin.
      rewrite Hif, N.ltb_ge. cbn [texts_within] in Hk. rewrite Forall_forall in Hk. split.
      * apply Hk, list_elem_of_fmap. by exists (k, v).
      * apply (IH _ Hin). intros d w Ho. destruct (H (d + 1)%N w) as [? ?]; [by eapply occurs_object|]. split; [lia|done].
Qed.

(** The limits hold of every document inside. *)
Definition within (limits : ImportLimits) v : Prop :=
  ∀ d w, occurs v d w → (d ≤ max_json_depth limits)%N ∧ texts_within limits w.

Lemma enforce_json_limits_within limits v : enforce_json_limits v 0 limits = Ok tt ↔ within limits v.
Proof. rewrite enforce_json_limits_from. done. Qed.
End Limits.

(** ** Digests *)

Lemma differences_zero a b n :
  String.length a = String.length b → differences a b n = 0%N ↔ n = 0%N ∧ a = b.
Proof.
  revert b n. induction a as [|c a IH]; intros [|d b] n; cbn [differences]; try done; [naive_solver|].
  intros [= Hl]. rewrite IH by done. rewrite N.lor_eq_0_iff, N.lxor_eq_0_iff. split.
  - intros [[-> H] ->]. split; [done|]. by rewrite <- (ascii_N_embedding c), H, ascii_N_embedding.
  - by intros [-> [= -> ->]].
Qed.

Lemma constant_time_eq_spec a b : constant_time_eq a b = true ↔ a = b.
Proof.
  unfold constant_time_eq, string_len. destruct (N.eqb_spec (N.of_nat (String.length a)) (N.of_nat (String.length b))); simpl.
  - rewrite N.eqb_eq, differences_zero by lia. naive_solver.
  - split; [done|]. by intros ->.
Qed.

(** The hash is written with 64 lowercase digits. *)
Class LawfulBlake3 `{Blake3} := {
  blake3_hex_digits : ∀ bytes, string_len (blake3_hex bytes) = 64%N ∧ lower_hex (blake3_hex bytes) = true
}.

Lemma typed_digest_valid `{LawfulBlake3} bytes : valid_typed_digest (typed_digest bytes) = true.
Proof.
  unfold valid_typed_digest, typed_digest. rewrite strip_prefix_app. unfold content_hash_hex.
  destruct (blake3_hex_digits bytes) as [-> ->]. done.
Qed.

(** ** Artifacts *)

Section Artifacts.
Context {Number : Type} `{!BundleFormat Number} `{!JsonMap Number} `{!ImportFormat Number} `{Hash : !Blake3}.
Implicit Types (artifact : ArtifactManifest Number) (limits : ImportLimits).

Definition relative_name (name : string) : Prop :=
  name ≠ "" ∧ str_starts_with "/" name = false ∧ str_contains name ".." = false ∧ str_contains name "://" = false.

(** What an import asks of the manifest of an artifact. *)
Record acceptable limits artifact (bytes : N) (schema : TabularSchema) : Prop := {
  acceptable_kind : am_kind artifact = "table_export" ∧ am_format artifact = "csv";
  acceptable_bytes : byte_count artifact = Some bytes ∧ (bytes ≤ max_artifact_bytes limits)%N;
  acceptable_hash : valid_typed_digest (content_hash artifact) = true;
  acceptable_name : relative_name (storage_uri artifact);
  acceptable_schema : schema_from_value (manifest_json artifact) = Ok schema
    ∧ validate_schema schema (max_columns limits) = Ok tt;
  acceptable_extension : ∃ n, to_vec_len (manifest_json artifact) = Ok n ∧ (n ≤ max_extension_bytes limits)%N;
  acceptable_fingerprint : schema_fingerprint artifact = tabular_schema_fingerprint schema
    ∧ valid_typed_digest (schema_fingerprint artifact) = true
}.

Definition total_bytes (artifacts : list (ArtifactManifest Number)) : N :=
  foldr (λ a n, (default 0%N (byte_count a) + n)%N) 0%N artifacts.

Lemma if_err {A} (b : bool) (e : ImportError) (r : result A ImportError) x :
  (if b then Err e else r) = Ok x ↔ b = false ∧ r = Ok x.
Proof. destruct b; naive_solver. Qed.

Lemma check_artifact_Ok limits artifact total seen st :
  (check_artifact limits artifact (total, seen) = Ok st) ↔
  ∃ bytes schema, acceptable limits artifact bytes schema
  ∧ (total + bytes ≤ u64_max)%N ∧ (total + bytes ≤ max_total_artifact_bytes limits)%N
  ∧ ((am_kind artifact, storage_uri artifact) ∉ seen)
  ∧ st = ((total + bytes)%N, (am_kind artifact, storage_uri artifact) :: seen).
Proof.
  unfold check_artifact. rewrite if_err, rbind_Ok. setoid_rewrite ok_or_Ok. setoid_rewrite if_err.
  rewrite orb_false_iff, !negb_false_iff, !String.eqb_eq. split.
  - intros (Hkind & bytes & Hb & Hmax & H). rewrite !if_err, !orb_false_iff, !negb_false_iff in H.
    destruct H as (Hu & Ht & [Hh Hf] & Hs & [[[Hn Hslash] Hdots] Hurl] & H).
    destruct (schema_from_value _) as [schema|] eqn:Hschema; [|done].
    destruct (to_vec_len _) as [n|] eqn:Hlen; [|done]. rewrite if_err, rbind_Ok in H.
    destruct H as (Hext & [] & Hvalid & H). rewrite if_err, negb_false_iff, String.eqb_eq in H. destruct H as (Hfp & [= <-]).
    rewrite N.ltb_ge in Hmax, Hu, Ht, Hext. apply bool_decide_eq_false in Hs.
    exists bytes, schema. split_and!; try done. split; try done.
    + split_and!; try done. by apply String.eqb_neq.
    + by exists n.
  - intros (bytes & schema & [Hkind [Hb Hmax] Hh (Hn & Hslash & Hdots & Hurl) [Hschema Hvalid] (n & Hlen & Hext) [Hfp Hf]]
      & Hu & Ht & Hs & ->). split; [done|]. exists bytes. split; [done|]. split; [by apply N.ltb_ge|].
    rewrite !if_err, !orb_false_iff, !negb_false_iff, !N.ltb_ge, String.eqb_neq.
    split_and!; try done. { by apply bool_decide_eq_false. }
    rewrite Hschema, Hlen, if_err, rbind_Ok, N.ltb_ge. split; [done|]. exists tt. split; [done|].
    rewrite if_err, negb_false_iff, String.eqb_eq. split; [|done]. by rewrite Hfp.
Qed.

(** The loop accepts exactly the manifests that are acceptable, different from
    those before, and within the limits in sum. *)
Lemma check_artifacts_Ok limits artifacts : ∀ total seen,
  (total ≤ u64_max)%N → (total ≤ max_total_artifact_bytes limits)%N →
  (check_artifacts limits artifacts (total, seen) = Ok tt) ↔
  Forall (λ a, ∃ bytes schema, acceptable limits a bytes schema) artifacts
  ∧ (total + total_bytes artifacts ≤ u64_max)%N
  ∧ (total + total_bytes artifacts ≤ max_total_artifact_bytes limits)%N
  ∧ NoDup (List.map (λ a, (am_kind a, storage_uri a)) artifacts)
  ∧ Forall (λ a, (am_kind a, storage_uri a) ∉ seen) artifacts.
Proof.
  induction artifacts as [|a artifacts IH]; intros total seen Hu Ht; cbn [check_artifacts total_bytes foldr].
  - rewrite !N.add_0_r. split; [|done]. intros _. by repeat constructor.
  - rewrite rbind_Ok. setoid_rewrite check_artifact_Ok. rewrite !Forall_cons. simpl List.map. rewrite NoDup_cons. split.
    + intros (st & (bytes & schema & Ha & Hu1 & Ht1 & Hs & ->) & H). apply IH in H as (Hf & Hu2 & Ht2 & Hnd & Hseen); [|done..].
      destruct (acceptable_bytes _ _ _ _ Ha) as [Hb _]. unfold total_bytes in *. rewrite Hb. simpl.
      split_and!; [by eauto|done|lia|lia| |done|done|].
      * intros (b & Heq & Hin)%list_elem_of_fmap. rewrite Forall_forall in Hseen. apply (Hseen b Hin).
        rewrite <- Heq. by left.
      * eapply Forall_impl; [exact Hseen|]. simpl. intros b Hb' Hin. apply Hb'. by right.
    + intros ([(bytes & schema & Ha) Hf] & Hu1 & Ht1 & [Hnew Hnd] & Hs & Hseen).
      destruct (acceptable_bytes _ _ _ _ Ha) as [Hb _]. unfold total_bytes in *. rewrite Hb in Hu1, Ht1. simpl in Hu1, Ht1.
      exists ((total + bytes)%N, (am_kind a, storage_uri a) :: seen). split.
      * exists bytes, schema. split_and!; [done|lia|lia|done|done].
      * apply IH; [lia..|]. split_and!; [done|lia|lia|done|]. rewrite Forall_forall in *. intros b Hin.
        rewrite elem_of_cons. intros [Heq|Hin']; [|by apply (Hseen b Hin)].
        apply Hnew, list_elem_of_fmap. exists b. by rewrite <- Heq.
Qed.
End Artifacts.

(** ** Bundles and plans *)

Section Bundles.
Context {Number : Type} `{!BundleFormat Number} `{!JsonMap Number} `{!ImportFormat Number} `{Hash : !Blake3}
  `{Lex : !Lexicon}.
Implicit Types (limits : ImportLimits) (bundle : ExportBundle Number).

Definition artifacts_fit limits bundle : Prop :=
  artifacts bundle ≠ [] ∧ (vec_len (artifacts bundle) ≤ max_artifacts limits)%N
  ∧ Forall (λ a, ∃ bytes schema, acceptable limits a bytes schema) (artifacts bundle)
  ∧ NoDup (List.map (λ a, (am_kind a, storage_uri a)) (artifacts bundle))
  ∧ (total_bytes (artifacts bundle) ≤ u64_max)%N
  ∧ (total_bytes (artifacts bundle) ≤ max_total_artifact_bytes limits)%N.

Lemma check_artifacts_fit limits bundle :
  is_empty (artifacts bundle) || (max_artifacts limits <? vec_len (artifacts bundle))%N = false
  ∧ check_artifacts limits (artifacts bundle) (0%N, []) = Ok tt ↔ artifacts_fit limits bundle.
Proof.
  rewrite check_artifacts_Ok, orb_false_iff, N.ltb_ge, !N.add_0_l by (unfold u64_max; lia). unfold artifacts_fit.
  assert (is_empty (artifacts bundle) = false ↔ artifacts bundle ≠ []) as -> by (by destruct (artifacts bundle)).
  assert (Forall (λ a, (am_kind a, storage_uri a) ∉ ([] : list (string * string))) (artifacts bundle)) as Hnil
    by (apply Forall_forall; intros; apply not_elem_of_nil).
  tauto.
Qed.

(** The document of the text of a bundle. *)
Definition is_document (bytes : string) (raw : RawJson Float) (value : Json Number) : Prop :=
  raw_document bytes = (raw, None) ∧ strict_value raw = Ok value.

Lemma validate_import_bundle_Ok bytes expected limits vb :
  validate_import_bundle bytes expected limits = Ok vb ↔
  ∃ raw value bundle,
    (string_len bytes ≤ max_bundle_bytes limits)%N ∧ is_document bytes raw value ∧ within limits value
    ∧ bundle_from_value value = Ok bundle ∧ bundle_version (export_bundle bundle) = IMPORT_BUNDLE_VERSION
    ∧ (∃ n, to_vec_len (metadata_jsonld bundle) = Ok n ∧ (n ≤ max_extension_bytes limits)%N)
    ∧ valid_typed_digest expected = true ∧ expected = typed_digest (canonical_json_string_v2 value)
    ∧ artifacts_fit limits bundle
    ∧ vb = MkValidatedBundle bundle (canonical_json_string_v2 value) expected (artifacts bundle)
             (bundle_resource (export_bundle bundle)).
Proof.
  unfold validate_import_bundle, read_bundle, parse_json_without_duplicate_keys, is_document. split.
  - rewrite rbind_Ok. intros ([value bundle] & Hread & H).
    rewrite if_err, rbind_Ok in Hread. destruct Hread as (Hmax & v & Hparse & Hread).
    destruct (raw_document bytes) as [raw end_] eqn:Hraw. destruct (strict_value raw) as [v'|] eqn:Hv; [|done].
    destruct end_; [done|]. injection Hparse as ->. rewrite rbind_Ok in Hread. destruct Hread as ([] & Hlim & Hread).
    apply enforce_json_limits_within in Hlim. destruct (bundle_from_value v) as [b|] eqn:Hb; [|done].
    rewrite if_err, negb_false_iff, String.eqb_eq in Hread. destruct Hread as (Hver & [= -> ->]).
    destruct (to_vec_len _) as [n|] eqn:Hn; [|done]. rewrite !if_err, !negb_false_iff in H.
    destruct H as (Hext & Hdig & Heq & Hlen & H). rewrite rbind_Ok in H. destruct H as ([] & Hcheck & [= <-]).
    rewrite constant_time_eq_spec in Heq. rewrite N.ltb_ge in Hmax, Hext.
    exists raw, value, bundle. split_and!; try done; [by exists n|by apply check_artifacts_fit|by rewrite Heq].
  - intros (raw & value & bundle & Hmax & [Hraw Hv] & Hlim & Hb & Hver & (n & Hn & Hext) & Hdig & Heq & Hfit & ->).
    apply check_artifacts_fit in Hfit as [Hlen Hcheck]. apply enforce_json_limits_within in Hlim.
    rewrite rbind_Ok. exists (value, bundle). rewrite if_err, rbind_Ok, N.ltb_ge. split.
    + split; [done|]. exists value. rewrite Hraw, Hv. split; [done|]. rewrite Hlim. simpl. rewrite Hb, if_err.
      by rewrite negb_false_iff, String.eqb_eq.
    + rewrite Hn, !if_err, !negb_false_iff, N.ltb_ge, constant_time_eq_spec. split_and!; try done.
      rewrite Hcheck. simpl. by rewrite <- Heq.
Qed.

Lemma plan_tabular_import_Ok (vb : ValidatedBundle Number) artifact_bytes target limits plan :
  plan_tabular_import vb artifact_bytes target limits = Ok plan ↔
  ∃ manifest rows plan_value,
    vb_artifacts vb = [manifest] ∧ (string_len artifact_bytes ≤ max_artifact_bytes limits)%N
    ∧ schema_from_value (manifest_json manifest) = Ok (expected_schema target)
    ∧ content_hash manifest = typed_digest artifact_bytes ∧ byte_count manifest = Some (string_len artifact_bytes)
    ∧ decode_tabular_csv artifact_bytes (expected_schema target) limits = Ok rows
    ∧ row_count manifest = vec_len rows
    ∧ trim (target_relation target) ≠ "" ∧ trim (target_revision target) ≠ ""
    ∧ let proposal digest :=
        {| ip_bundle_digest := vb_bundle_digest vb; ip_artifact_digest := content_hash manifest;
           ip_source_resource := vb_source_resource vb; ip_target := target;
           ip_column_mapping := columns (expected_schema target); ip_row_count := row_count manifest;
           ip_byte_count := string_len artifact_bytes; ip_plan_digest := digest |} in
      plan_to_value (proposal "") = Ok plan_value
      ∧ plan = proposal (typed_digest (canonical_json_string_v2 plan_value)).
Proof.
  unfold plan_tabular_import, decode_tabular_csv. split.
  - destruct (vb_artifacts vb) as [|manifest [|]]; [done| |done].
    rewrite if_err, rbind_Ok, N.ltb_ge. intros (Hmax & [] & Hvalid & H).
    destruct (schema_from_value _) as [schema|] eqn:Hschema; [|done].
    rewrite !if_err, orb_false_iff, !negb_false_iff in H. destruct H as (Heq & [Hdigest Hbytes] & H).
    apply bool_decide_eq_true in Heq as ->. apply bool_decide_eq_true in Hbytes. apply String.eqb_eq in Hdigest.
    rewrite rbind_Ok in H. destruct H as (rows & Hrows & H).
    rewrite !if_err, orb_false_iff, negb_false_iff, N.eqb_eq, !String.eqb_neq in H. destruct H as (Hcount & [Hrel Hrev] & H).
    rewrite Hdigest, Hcount in H. destruct (plan_to_value _) as [plan_value|] eqn:Hp; [|done]. injection H as <-.
    exists manifest, rows, plan_value. rewrite Hvalid. split_and!; done.
  - intros (manifest & rows & plan_value & -> & Hmax & Hschema & Hdigest & Hbytes & Hrows & Hcount & Hrel & Hrev & Hp & ->).
    rewrite rbind_Ok in Hrows. destruct Hrows as ([] & Hvalid & Hrows).
    rewrite if_err, rbind_Ok, N.ltb_ge. split; [done|]. exists tt. split; [done|]. rewrite Hschema, !if_err.
    rewrite orb_false_iff, !negb_false_iff, !bool_decide_eq_true, String.eqb_eq. split_and!; try done.
    rewrite Hrows. simpl. rewrite !if_err, orb_false_iff, negb_false_iff, N.eqb_eq, !String.eqb_neq.
    split_and!; try done. rewrite <- Hdigest, <- Hcount, Hp. done.
Qed.

(** C13: safety.  A bundle that validates is one document without repeated keys,
    within the limits at every depth, whose version is 2.0 and whose canonical
    text has the digest the operator expects; it has at least one artifact and
    no more than allowed, each a CSV table with a relative name, typed digests,
    a valid schema that the fingerprint is of, and a size within the limit, no
    two with one name, and their sizes are within the limit in sum. *)
Theorem validated_bundle_is_sound `{Lawful : !LawfulJsonMap Number} (bytes expected : string) limits
    (vb : ValidatedBundle Number) :
  validate_import_bundle bytes expected limits = Ok vb →
  ∃ raw value,
    raw_document bytes = (raw, None) ∧ reads raw value ∧ json_wf value ∧ within limits value
    ∧ (string_len bytes ≤ max_bundle_bytes limits)%N
    ∧ bundle_from_value value = Ok (vb_bundle vb)
    ∧ bundle_version (export_bundle (vb_bundle vb)) = IMPORT_BUNDLE_VERSION
    ∧ vb_canonical_json vb = canonical_json_string_v2 value
    ∧ vb_bundle_digest vb = expected ∧ expected = typed_digest (vb_canonical_json vb)
    ∧ vb_artifacts vb = artifacts (vb_bundle vb)
    ∧ vb_source_resource vb = bundle_resource (export_bundle (vb_bundle vb))
    ∧ artifacts_fit limits (vb_bundle vb).
Proof.
  rewrite validate_import_bundle_Ok.
  intros (raw & value & bundle & Hmax & [Hraw Hv] & Hlim & Hb & Hver & _ & _ & Heq & Hfit & ->).
  apply strict_value_reads in Hv. exists raw, value. split_and!; try done. by eapply reads_wf.
Qed.

(** C14: safety.  A plan made for a validated bundle describes the import: the
    bytes are those of the bundle's one artifact, by their digest and their
    length; they are a table in which every row fits the schema the target
    expects, which is the schema of the artifact's fingerprint; and the plan has
    the numbers of rows and bytes, the columns, the target and the digest the
    operator expects of the bundle. *)
Theorem plan_describes_the_import (bytes expected data : string) target limits plan_limits
    (vb : ValidatedBundle Number) plan :
  validate_import_bundle bytes expected limits = Ok vb →
  plan_tabular_import vb data target plan_limits = Ok plan →
  ∃ manifest table,
    artifacts (vb_bundle vb) = [manifest]
    ∧ content_hash manifest = typed_digest data ∧ byte_count manifest = Some (string_len data)
    ∧ schema_fingerprint manifest = tabular_schema_fingerprint (expected_schema target)
    ∧ decode_tabular_csv data (expected_schema target) plan_limits = Ok table
    ∧ Forall (fits (expected_schema target)) table
    ∧ row_count manifest = vec_len table
    ∧ ip_bundle_digest plan = expected ∧ ip_artifact_digest plan = content_hash manifest
    ∧ ip_source_resource plan = bundle_resource (export_bundle (vb_bundle vb)) ∧ ip_target plan = target
    ∧ ip_column_mapping plan = columns (expected_schema target)
    ∧ ip_row_count plan = vec_len table ∧ ip_byte_count plan = string_len data.
Proof.
  rewrite validate_import_bundle_Ok. intros (raw & value & bundle & _ & _ & _ & _ & _ & _ & _ & _ & Hfit & ->).
  rewrite plan_tabular_import_Ok. simpl.
  intros (manifest & rows & plan_value & Hone & _ & Hschema & Hdigest & Hbytes & Hrows & Hcount & _ & _ & _ & ->).
  destruct Hfit as (_ & _ & Hf & _). rewrite Hone in Hf. apply Forall_cons in Hf as [(n & schema & Ha) _].
  destruct (acceptable_schema _ _ _ _ Ha) as [Hs _]. rewrite Hschema in Hs. injection Hs as <-.
  destruct (acceptable_fingerprint _ _ _ _ Ha) as [Hfp _].
  apply accepted_table_fits in Hrows as Hfits. destruct Hfits as (Hfits & _).
  exists manifest, rows. split_and!; done.
Qed.

(** ** From export to import *)

(** The manifest of a table of [rows] rows. *)
Record describes limits (manifest : ArtifactManifest Number) (schema : TabularSchema) (data : string) (rows : N)
    : Prop := {
  describes_acceptable : acceptable limits manifest (string_len data) schema;
  describes_hash : content_hash manifest = typed_digest data;
  describes_rows : row_count manifest = rows
}.

(** The canonical text of the document of a bundle is read as the document, and
    this is converted to the bundle. *)
Definition reads_back limits bundle : Prop :=
  ∀ value, bundle_to_value bundle = Ok value →
  ∃ raw, raw_document (canonical_json_string_v2 value) = (raw, None) ∧ (∃ w, reads raw w)
  ∧ ∀ w, reads raw w → bundle_from_value w = Ok bundle
      ∧ canonical_json_string_v2 w = canonical_json_string_v2 value ∧ within limits w.

(** The texts of the rows are in the language of the profile. *)
Definition portable_rows (schema : TabularSchema) (rows : list (Json Number)) : Prop :=
  Forall carried (List.map tc_name (columns schema))
  ∧ ∀ row texts, row ∈ rows → row_texts number_text schema row = Ok texts → Forall carried texts.

Context {World : Type} `{!ProvenanceStore (Json Number) World} `{!LawfulStore (Json Number) World}
  `{!LawfulJsonMap Number} `{!LawfulBlake3}.

(** C12: round trip.  What is exported can be imported: when a table is written
    and a bundle of version 2.0 is built with its manifest as the one artifact,
    then the bundle validates, from its canonical text and with its own digest,
    and is the bundle that was built; and the bytes of the table are planned for
    a target that expects its schema, with a row for each row that was written.
    The sizes have to be within the limits, the texts in the language of the
    profile, and the text of this bundle is read back by the parser. *)
Theorem exported_table_is_importable (request : BundleRequest Number) (w : World)
    (sealed : ImportSealedBundle Number) manifest schema rows data target limits :
  (build_import_bundle request w).1 = Ok sealed →
  req_artifacts request = [manifest] →
  write_tabular_csv number_text schema rows = Ok data →
  describes limits manifest schema data (vec_len rows) →
  portable_rows schema rows → str_starts_with bom data = false →
  (vec_len rows ≤ max_rows limits)%N → (1 ≤ max_artifacts limits)%N →
  (string_len data ≤ max_total_artifact_bytes limits)%N → (string_len data ≤ u64_max)%N →
  (string_len (import_canonical_json sealed) ≤ max_bundle_bytes limits)%N →
  (∃ n, to_vec_len (req_metadata_jsonld request) = Ok n ∧ (n ≤ max_extension_bytes limits)%N) →
  reads_back limits (import_bundle sealed) →
  expected_schema target = schema → trim (target_relation target) ≠ "" → trim (target_revision target) ≠ "" →
  (∀ plan, ∃ value, plan_to_value plan = Ok value) →
  ∃ vb plan table,
    validate_import_bundle (import_canonical_json sealed) (import_content_hash sealed) limits = Ok vb
    ∧ vb_bundle vb = import_bundle sealed
    ∧ plan_tabular_import vb data target limits = Ok plan
    ∧ decode_tabular_csv data schema limits = Ok table
    ∧ Forall2 (λ row texts, row_texts number_text schema row = Ok texts) rows table
    ∧ ip_row_count plan = vec_len rows.
Proof.
  intros Hbuild Hone Hwrite [Hacc Hhash Hcount] [Hnames Htexts] Hbom Hrows Hmaxa Htotal Hu64 Hbytes Hext Hback
    Hexp Hrel Hrev Hplan.
  destruct (sealed_import_bundle _ _ _ Hbuild) as (history & value & Hb & Hval & Hjson & Hdig).
  destruct (Hback value Hval) as (raw & Hraw & [d Hd] & Hreads).
  destruct (strict_value_complete raw d Hd) as (v & Hv & _). apply strict_value_reads in Hv as Hvr.
  destruct (Hreads v Hvr) as (Hfrom & Hcanon & Hwithin).
  destruct (acceptable_schema _ _ _ _ Hacc) as [Hschema Hvalid].
  destruct (written_csv_reads number_text schema rows data limits) as (table & Htable & Hf); try done.
  { by apply validate_schema_Ok in Hvalid as (_ & ? & _). }
  assert (artifacts_fit limits (import_bundle sealed)) as Hfit.
  { unfold artifacts_fit. rewrite Hb. cbn [artifacts bundle_of]. rewrite Hone. simpl. unfold total_bytes. simpl.
    destruct (acceptable_bytes _ _ _ _ Hacc) as [-> _]. simpl. rewrite N.add_0_r. unfold vec_len. simpl.
    split_and!; try done; try lia; [by repeat constructor; eauto|by apply NoDup_singleton]. }
  set (vb := MkValidatedBundle (import_bundle sealed) (canonical_json_string_v2 v) (import_content_hash sealed)
    (artifacts (import_bundle sealed)) (bundle_resource (export_bundle (import_bundle sealed)))).
  assert (import_content_hash sealed = typed_digest (canonical_json_string_v2 v)) as Hdigest by (by rewrite Hdig, Hcanon).
  destruct (Hplan {| ip_bundle_digest := vb_bundle_digest vb; ip_artifact_digest := content_hash manifest;
    ip_source_resource := vb_source_resource vb; ip_target := target;
    ip_column_mapping := columns (expected_schema target); ip_row_count := row_count manifest;
    ip_byte_count := string_len data; ip_plan_digest := "" |}) as (plan_value & Hpv).
  eexists vb, _, table. split_and!; [| |apply plan_tabular_import_Ok|exact Htable|exact Hf|].
  - apply validate_import_bundle_Ok. exists raw, v, (import_bundle sealed).
    assert (is_document (import_canonical_json sealed) raw v) by (by rewrite Hjson).
    assert (valid_typed_digest (import_content_hash sealed) = true) by (rewrite Hdigest; apply typed_digest_valid).
    split_and!; try done; by rewrite Hb.
  - done.
  - exists manifest, table, plan_value. destruct (acceptable_bytes _ _ _ _ Hacc) as [Hbc Hmaxb].
    subst schema. apply Forall2_length in Hf as Hlen. split_and!; try done; [by unfold vb; rewrite Hb|].
    rewrite Hcount. unfold vec_len. by rewrite Hlen.
  - done.
Qed.
End Bundles.
