(* ===== verification/ImportExamples.v ===== *)
(** Witnesses and examples of [Import]: a small format of documents, a
    hash and a store, and one table that is exported and imported. *)
From Stdlib Require Import Ascii.
From S2P Require Import Prelude BTreeMap Diagnostics Contract Provenance Access Json Canonical Citation Bundle Csv Import.

(** ** Stand-ins for the crates *)

(** A hash of 64 digits. *)
Definition last_digit (n : N) : ascii := ascii_of_N (48 + n mod 10).

Definition zeros : string := "000000000000000000000000000000000000000000000000000000000000000".

#[local] Instance length_hash : Blake3 := {| blake3_hex := λ s, zeros +:+ String (last_digit (string_len s)) "" |}.

#[local] Instance length_hash_lawful : LawfulBlake3.
Proof.
  split. intros bytes. unfold blake3_hex, length_hash, last_digit. split; [done|].
  assert (string_len bytes mod 10 < 10)%N as H by (by apply N.mod_lt). revert H.
  generalize (string_len bytes mod 10)%N. intros n Hn.
  assert (n ∈ [0; 1; 2; 3; 4; 5; 6; 7; 8; 9]%N) as Hin by (rewrite !elem_of_cons; lia).
  rewrite !elem_of_cons in Hin. destruct_or! Hin; [subst; reflexivity..|by apply elem_of_nil in Hin].
Defined.

Definition quoted_text (s : string) : string := String quote (s +:+ String quote "").

#[local] Instance sample_map : JsonMap Z := {| map_insert := λ key value entries, entries ++ [(key, value)] |}.

#[local] Instance sample_map_lawful : LawfulJsonMap Z.
Proof. split. intros key value entries _. simpl. by rewrite Permutation_app_comm. Defined.

Definition sample_manifest : ArtifactManifest Z :=
  {| am_kind := "table_export"; storage_uri := "stars.csv"; am_format := "csv";
     schema_fingerprint := "blake3-256:" +:+ blake3_hex (quoted_text "schema of stars");
     content_hash := "blake3-256:" +:+ blake3_hex sample_csv;
     row_count := 2; byte_count := Some (string_len sample_csv); manifest_json := JString "stars" |}.

Definition sample_request : BundleRequest Z :=
  {| req_resource := ResourceRef_new 1%N 2%N; req_exported_at_unix_ms := 0; req_metadata_jsonld := JNull;
     req_citation := sample; req_policy := ResourcePolicy_open; req_artifacts := [sample_manifest] |}.

(** The document of a bundle: its version and the number of its artifacts. *)
#[local] Instance sample_format : BundleFormat Z :=
  {| number_text := show_Z; string_text := quoted_text;
     to_string_pretty := λ _, "";
     jcs_text := canonical_json_string show_Z quoted_text;
     bundle_to_value := λ b,
       Ok (JObject [("version", JString (bundle_version (export_bundle b)));
                    ("artifacts", JNumber (Z.of_nat (length (artifacts b))))]) |}.

Definition sample_bundle : ExportBundle Z :=
  bundle_of sample_request IMPORT_BUNDLE_VERSION {| ph_resource := ResourceRef_new 1%N 2%N; ph_entries := [] |}.

Definition sample_document : Json Z := JObject [("version", JString "2.0"); ("artifacts", JNumber 1%Z)].
Definition sample_text : string := canonical_json_string show_Z quoted_text sample_document.

#[local] Instance sample_import : ImportFormat Z :=
  {| Float := unit;
     raw_document := λ text,
       if String.eqb text sample_text then
         (RawMap [(("artifacts", " at column 14"), RawI64 1); (("version", " at column 26"), RawString "2.0")] None, None)
       else (RawFailed "unexpected text", None);
     number_of_i64 := id; number_of_u64 := Z.of_N; number_of_f64 := λ _, None;
     bundle_from_value := λ v,
       match v with
       | JObject es => match json_get "version" es with
                       | Some (JString "2.0") => Ok sample_bundle
                       | _ => Err "no version"
                       end
       | _ => Err "not an object"
       end;
     schema_from_value := λ v, match v with JString _ => Ok sample_schema | _ => Err "no schema" end;
     schema_to_value := λ s, JString "schema of stars";
     plan_to_value := λ plan, Ok (JString (ip_bundle_digest plan));
     to_vec_len := λ v, Ok 4%N |}.

#[local] Existing Instance sample_lexicon.

(** ** One export and its import *)

Definition sample_sealed : ImportSealedBundle Z :=
  {| import_bundle := sample_bundle; import_canonical_json := sample_text;
     import_content_hash := typed_digest sample_text |}.

Definition sample_target : PlanTarget :=
  {| target_resource := ResourceRef_new 1%N 3%N; target_relation := "stars"; target_revision := "r1";
     expected_schema := sample_schema; local_owner := 7%N |}.

Definition sample_limits : ImportLimits := ImportLimits_default.

Definition sample_validated : ValidatedBundle Z :=
  {| vb_bundle := sample_bundle; vb_canonical_json := sample_text; vb_bundle_digest := typed_digest sample_text;
     vb_artifacts := [sample_manifest]; vb_source_resource := ResourceRef_new 1%N 2%N |}.

Example sample_validates :
  validate_import_bundle sample_text (typed_digest sample_text) sample_limits = Ok sample_validated.
Proof. vm_compute. reflexivity. Qed.

Example another_digest_is_refused :
  validate_import_bundle sample_text (typed_digest "12") sample_limits = Err DigestMismatch
  ∧ validate_import_bundle sample_text "blake3-256:00" sample_limits = Err InvalidDigest
  ∧ validate_import_bundle "{}" (typed_digest "{}") sample_limits = Err (InvalidJson "unexpected text").
Proof. vm_compute. done. Qed.

(** A repeated key is refused inside of an array. *)
Example repeated_key_is_refused :
  strict_value (RawSeq [RawMap [(("a", ""), RawBool true); (("a", " at line 1 column 12"), RawNull)] None] None)
  = Err "duplicate JSON object key 'a' at line 1 column 12".
Proof. vm_compute. reflexivity. Qed.

Lemma documents_are_read_strictly_witness :
  (∀ v, strict_value (raw_document sample_text).1 = Ok v → reads (raw_document sample_text).1 v ∧ json_wf v)
  ∧ (∀ w, reads (raw_document sample_text).1 w →
       ∃ v, strict_value (raw_document sample_text).1 = Ok v ∧ json_equiv v w).
Proof. exact (documents_are_read_strictly (Number:=Z) (raw_document sample_text).1). Defined.

Lemma validated_bundle_is_sound_witness :
  ∃ raw value,
    raw_document sample_text = (raw, None) ∧ reads raw value ∧ json_wf value ∧ within sample_limits value
    ∧ (string_len sample_text ≤ max_bundle_bytes sample_limits)%N
    ∧ bundle_from_value value = Ok (vb_bundle sample_validated)
    ∧ bundle_version (export_bundle (vb_bundle sample_validated)) = IMPORT_BUNDLE_VERSION
    ∧ vb_canonical_json sample_validated = canonical_json_string_v2 value
    ∧ vb_bundle_digest sample_validated = typed_digest sample_text
    ∧ typed_digest sample_text = typed_digest (vb_canonical_json sample_validated)
    ∧ vb_artifacts sample_validated = artifacts (vb_bundle sample_validated)
    ∧ vb_source_resource sample_validated = bundle_resource (export_bundle (vb_bundle sample_validated))
    ∧ artifacts_fit sample_limits (vb_bundle sample_validated).
Proof.
  refine (validated_bundle_is_sound sample_text (typed_digest sample_text) sample_limits sample_validated _).
  vm_compute. reflexivity.
Defined.

Definition sample_plan : ImportPlan :=
  {| ip_bundle_digest := typed_digest sample_text; ip_artifact_digest := typed_digest sample_csv;
     ip_source_resource := ResourceRef_new 1%N 2%N; ip_target := sample_target;
     ip_column_mapping := columns sample_schema; ip_row_count := 2; ip_byte_count := string_len sample_csv;
     ip_plan_digest := typed_digest (quoted_text (typed_digest sample_text)) |}.

Lemma plan_describes_the_import_witness :
  ∃ manifest table,
    artifacts (vb_bundle sample_validated) = [manifest]
    ∧ content_hash manifest = typed_digest sample_csv ∧ byte_count manifest = Some (string_len sample_csv)
    ∧ schema_fingerprint manifest = tabular_schema_fingerprint (expected_schema sample_target)
    ∧ decode_tabular_csv sample_csv (expected_schema sample_target) sample_limits = Ok table
    ∧ Forall (fits (expected_schema sample_target)) table
    ∧ row_count manifest = vec_len table
    ∧ ip_bundle_digest sample_plan = typed_digest sample_text ∧ ip_artifact_digest sample_plan = content_hash manifest
    ∧ ip_source_resource sample_plan = bundle_resource (export_bundle (vb_bundle sample_validated))
    ∧ ip_target sample_plan = sample_target
    ∧ ip_column_mapping sample_plan = columns (expected_schema sample_target)
    ∧ ip_row_count sample_plan = vec_len table ∧ ip_byte_count sample_plan = string_len sample_csv.
Proof.
  refine (plan_describes_the_import sample_text (typed_digest sample_text) sample_csv sample_target sample_limits
    sample_limits sample_validated sample_plan _ _); vm_compute; reflexivity.
Defined.

Lemma sample_reads_back : reads_back sample_limits (import_bundle sample_sealed).
Proof.
  intros value Hv. vm_compute in Hv. injection Hv as <-.
  exists (RawMap [(("artifacts", " at column 14"), RawI64 1); (("version", " at column 26"), RawString "2.0")] None).
  split; [vm_compute; reflexivity|]. split.
  - exists (JObject [("artifacts", JNumber 1%Z); ("version", JString "2.0")]).
    apply reads_map with (fs := [("artifacts", JNumber 1%Z); ("version", JString "2.0")]); [|by repeat constructor|done].
    vm_compute. repeat constructor; set_solver.
  - intros w Hw. inversion Hw as [| | | | | | |? fs es Hnd Hfs Hp]; subst. clear Hw Hnd.
    assert (fs = [("artifacts", JNumber 1%Z); ("version", JString "2.0")]) as ->.
    { inversion Hfs as [|? [k1 v1] ? fs1 [E1 R1] Hfs1]; subst. simpl in *. subst k1. inversion R1; subst.
      inversion Hfs1 as [|? [k2 v2] ? fs2 [E2 R2] Hfs2]; subst. simpl in *. subst k2. inversion R2; subst.
      inversion Hfs2; subst. done. }
    symmetry in Hp. apply Permutation_length_2_inv in Hp as [-> | ->]; split_and!;
      [vm_compute; reflexivity|vm_compute; reflexivity|apply enforce_json_limits_within; vm_compute; reflexivity
      |vm_compute; reflexivity|vm_compute; reflexivity|apply enforce_json_limits_within; vm_compute; reflexivity].
Qed.

Lemma sample_describes : describes sample_limits sample_manifest sample_schema sample_csv (vec_len sample_rows).
Proof.
  split; [|reflexivity..]. split; try done.
  - exists 4%N. done.
Qed.

Lemma sample_portable : portable_rows sample_schema sample_rows.
Proof.
  split; [repeat constructor|].
  intros row texts Hin H. unfold sample_rows in Hin. rewrite !elem_of_cons in Hin.
  destruct Hin as [->|[->|Hin%elem_of_nil]]; [| |done]; vm_compute in H; injection H as <-; repeat constructor.
Qed.

Lemma exported_table_is_importable_witness :
  ∃ vb plan table,
    validate_import_bundle (import_canonical_json sample_sealed) (import_content_hash sample_sealed) sample_limits = Ok vb
    ∧ vb_bundle vb = import_bundle sample_sealed
    ∧ plan_tabular_import vb sample_csv sample_target sample_limits = Ok plan
    ∧ decode_tabular_csv sample_csv sample_schema sample_limits = Ok table
    ∧ Forall2 (λ row texts, row_texts number_text sample_schema row = Ok texts) sample_rows table
    ∧ ip_row_count plan = vec_len sample_rows.
Proof.
  refine (exported_table_is_importable sample_request (VecProvenanceStore_new (Json Z)) sample_sealed sample_manifest
    sample_schema sample_rows sample_csv sample_target sample_limits
    _ _ _ sample_describes sample_portable _ _ _ _ _ _ _ sample_reads_back _ _ _ _).
  - vm_compute. reflexivity.
  - reflexivity.
  - vm_compute. reflexivity.
  - vm_compute. reflexivity.
  - vm_compute. discriminate.
  - vm_compute. discriminate.
  - vm_compute. discriminate.
  - vm_compute. discriminate.
  - vm_compute. discriminate.
  - exists 4%N. split; [reflexivity|vm_compute; discriminate].
  - reflexivity.
  - vm_compute. discriminate.
  - vm_compute. discriminate.
  - intros plan. by eexists.
Defined.
