(* ===== verification/Names.v ===== *)
(** Validated names, namespaced identifiers and content hashes:
    [queryfabric-types], [queryfabric-namespace-uuid] and
    [queryfabric-content-hash].

    UUIDs of version 5 and BLAKE3 come from third-party crates, the classes
    [UuidV5] and [RawBlake3]. *)
From Stdlib Require Import Ascii.
From S2P Require Import Prelude BTreeMap Contract Catalog Numerals Citation SourceMap.
From Stdlib Require Import Sorted.

(** ** [queryfabric-types]: names *)

Inductive ValidationError :=
| InvalidEmail (value : string)
| InvalidCountryCode (value : string)
| InvalidDoi (value : string)
| InvalidFormat (value : string)
| EmptyValue.

Record Email := { email_text : string }.
Record CountryCode := { country_text : string }.
Record Doi := { doi_text : string }.
Record ClusterName := { cluster_name_text : string }.
Record DatabaseName := { database_name_text : string }.
Record DatasetLabel := { dataset_label_text : string }.
Record CollectionName := { collection_name_text : string }.

Definition email_ok (s : string) : bool :=
  (3 <=? string_len s)%N && str_contains s "@" && negb (str_starts_with "@" s) && negb (ends_with_char "@" s).

Definition Email_new (s : string) : result Email ValidationError :=
  if email_ok s then Ok {| email_text := s |} else Err (InvalidEmail s).

Definition ascii_uppercase (c : ascii) : bool := ((65 <=? N_of_ascii c) && (N_of_ascii c <=? 90))%N.

Fixpoint all_uppercase (s : string) : bool :=
  match s with EmptyString => true | String c s => ascii_uppercase c && all_uppercase s end.

(** With a byte that is not ASCII the test of its character fails, and so does
    the test of the byte. *)
Definition CountryCode_new (s : string) : result CountryCode ValidationError :=
  if (string_len s =? 2)%N && all_uppercase s then Ok {| country_text := s |} else Err (InvalidCountryCode s).

Definition Doi_new (s : string) : result Doi ValidationError :=
  if str_starts_with "10." s && (4 <? string_len s)%N then Ok {| doi_text := s |} else Err (InvalidDoi s).

Definition non_empty {A} (mk : string → A) (s : string) : result A ValidationError :=
  if String.eqb s "" then Err EmptyValue else Ok (mk s).

Definition ClusterName_new : string → result ClusterName ValidationError := non_empty Build_ClusterName.
Definition DatabaseName_new : string → result DatabaseName ValidationError := non_empty Build_DatabaseName.
Definition DatasetLabel_new : string → result DatasetLabel ValidationError := non_empty Build_DatasetLabel.
Definition CollectionName_new : string → result CollectionName ValidationError := non_empty Build_CollectionName.

Inductive UserType := Human | Service.

Definition is_service (u : UserType) : bool := match u with Service => true | Human => false end.

Inductive OAuthProviderName := Github | Google | GitLab | Orcid | CiLogon.

(** [Display] of a provider. *)
Definition provider_name (p : OAuthProviderName) : string :=
  match p with
  | Github => "github" | Google => "google" | GitLab => "gitlab" | Orcid => "orcid" | CiLogon => "cilogon"
  end.

(** [str::to_lowercase] is a parameter: it is that of Unicode. *)
Definition from_name (to_lowercase : string → string) (name : string) : option OAuthProviderName :=
  let name := to_lowercase name in
  if String.eqb name "github" then Some Github
  else if String.eqb name "google" then Some Google
  else if String.eqb name "gitlab" then Some GitLab
  else if String.eqb name "orcid" then Some Orcid
  else if String.eqb name "cilogon" then Some CiLogon
  else None.

Inductive BenchmarkType := Upload | Download.

Definition benchmark_name (b : BenchmarkType) : string :=
  match b with Upload => "upload" | Download => "download" end.

Lemma provider_round_trip to_lowercase p :
  (∀ p, to_lowercase (provider_name p) = provider_name p) → from_name to_lowercase (provider_name p) = Some p.
Proof. intros H. unfold from_name. rewrite H. by destruct p. Qed.

(** ** [queryfabric-namespace-uuid] *)

Class UuidV5 := { new_v5 : Uuid → string → Uuid }.

(** The loop over the parts, with the filled part of the buffer; nothing when
    the joined text does not fit. *)
Fixpoint join_in_buffer (first : bool) (parts : list string) (buf : string) : option string :=
  match parts with
  | [] => Some buf
  | part :: parts =>
      let buf := if negb first && (string_len buf <? 256)%N then buf +:+ ":" else buf in
      if (string_len buf + string_len part <=? 256)%N then join_in_buffer false parts (buf +:+ part) else None
  end.

(** The bytes that are hashed. *)
Definition joined_name (parts : list string) : string :=
  match join_in_buffer true parts "" with
  | Some buf => buf
  | None => string_join ":" parts
  end.

Section Namespaced.
Context `{UuidV5}.

Definition joined_uuid (namespace : Uuid) (parts : list string) : Uuid := new_v5 namespace (joined_name parts).

Definition from_u64 (namespace : Uuid) (key : N) : Uuid := new_v5 namespace (show_N key).
Definition from_str_key (namespace : Uuid) (key : string) : Uuid := new_v5 namespace key.
Definition from_parts (namespace : Uuid) (parts : list string) : Uuid := joined_uuid namespace parts.

(** The text that [write!] writes, as far as the buffer goes. *)
Definition coords_text (pre post : N) (x y z : Z) : string :=
  String.substring 0 128
    (string_join ":" [show_N pre; show_N post; show_Z x; show_Z y; show_Z z]).

Definition from_coords (namespace : Uuid) (pre post : N) (x y z : Z) : Uuid :=
  new_v5 namespace (coords_text pre post x y z).
End Namespaced.

(** ** [queryfabric-content-hash] *)

Class RawBlake3 := {
  (** The digest of bytes, and its hexadecimal text. *)
  blake3_raw : string → string;
  to_hex : string → string
}.

Inductive HashError := FileNotFound (path : string) | HashIo (message : string) | EmptyDir.

(** An entry of a directory: its name, whether it is a file, and what opening
    and reading it gives: the parts its bytes come in. *)
Record DirEntry := {
  entry_name : string;
  entry_is_file : bool;
  entry_reads : result (list string) HashError
}.

Section ContentHash.
Context `{RawBlake3}.

Definition hash_bytes (bytes : string) : string := to_hex (blake3_raw bytes).

(** The loop that reads and updates, until nothing is read. *)
Fixpoint hash_reads (reads : list string) (hashed : string) : string :=
  match reads with
  | [] => blake3_raw hashed
  | part :: reads => if String.eqb part "" then blake3_raw hashed else hash_reads reads (hashed +:+ part)
  end.

Definition hash_file (entry : DirEntry) : result string HashError :=
  rbind (entry_reads entry) (λ reads, Ok (hash_reads reads "")).

(** The names are different, and sorted as bytes. *)
Definition collect_data_files (entries : list DirEntry) (metadata_prefix : string) : list DirEntry :=
  let files := List.filter (λ e, entry_is_file e && negb (str_starts_with metadata_prefix (entry_name e))) entries in
  List.map snd (bt_from_list (List.map (λ e, (entry_name e, e)) files)).

(** The loop over the files, with the bytes of the combined hasher. *)
Fixpoint hash_files (files : list DirEntry) (combined : string) : result string HashError :=
  match files with
  | [] => Ok combined
  | file :: files =>
      rbind (hash_file file) (λ file_hash, hash_files files (combined +:+ entry_name file +:+ file_hash))
  end.

Definition hash_data_dir (entries : list DirEntry) (metadata_prefix : string) : result string HashError :=
  let files := collect_data_files entries metadata_prefix in
  if is_empty files then Err EmptyDir
  else rbind (hash_files files "") (λ combined, Ok (to_hex (blake3_raw combined))).

(** The text of the sidecar file, and what is read from it. *)
Definition write_stored_hash (algo_prefix hash : string) : string := algo_prefix +:+ hash +:+ nl.

Definition read_stored_hash (algo_prefix : string) (content : option string) : option string :=
  match content with
  | Some content => strip_prefix algo_prefix (trim content)
  | None => None
  end.
End ContentHash.

(** Facts of [Names]: when joined parts are hashed as their join, coordinates
    have texts of their own, and what the content hash of a directory tells
    apart. *)

(** ** Joined parts *)

(** What is appended for the parts after the first. *)
Definition tail_text (parts : list string) : string :=
  List.fold_right (λ part s, ":" +:+ part +:+ s) "" parts.

Lemma join_tail p ps : string_join ":" (p :: ps) = p +:+ tail_text ps.
Proof.
  revert p. induction ps as [|q ps IH]; intros p; [by rewrite string_app_nil_r|].
  change (string_join ":" (p :: q :: ps)) with (p +:+ ":" +:+ string_join ":" (q :: ps)). by rewrite IH.
Qed.

Lemma tail_text_app ps qs : tail_text (ps ++ qs) = tail_text ps +:+ tail_text qs.
Proof. induction ps as [|p ps IH]; [done|]. simpl. by rewrite IH, !string_app_assoc. Qed.

Lemma tail_text_long ps : ps ≠ [] → (0 < string_len (tail_text ps))%N.
Proof. destruct ps as [|p ps]; [done|]. intros _. unfold string_len. simpl. lia. Qed.

Lemma join_in_buffer_fits parts : ∀ buf,
  (string_len (buf +:+ tail_text parts) ≤ 256)%N →
  join_in_buffer false parts buf = Some (buf +:+ tail_text parts).
Proof.
  induction parts as [|p ps IH]; intros buf Hlen; cbn [join_in_buffer].
  - by rewrite string_app_nil_r.
  - cbn [tail_text List.fold_right] in *. fold (tail_text ps) in *. rewrite !string_len_app in Hlen.
    change (string_len ":") with 1%N in Hlen. cbn [negb andb].
    destruct (N.ltb_spec (string_len buf) 256); [|lia]. rewrite string_len_app. change (string_len ":") with 1%N.
    destruct (N.leb_spec (string_len buf + 1 + string_len p) 256); [|lia].
    rewrite IH; rewrite !string_app_assoc; [done|]. rewrite !string_len_app. change (string_len ":") with 1%N. lia.
Qed.

Lemma join_in_full_buffer parts buf :
  (string_len buf = 256)%N →
  join_in_buffer false parts buf = if forallb (String.eqb "") parts then Some buf else None.
Proof.
  intros Hlen. induction parts as [|p ps IH]; [done|]. cbn [join_in_buffer forallb negb andb].
  destruct (N.ltb_spec (string_len buf) 256); [lia|].
  destruct (String.eqb_spec "" p) as [<-|Hne].
  - change (string_len "") with 0%N. destruct (N.leb_spec (string_len buf + 0) 256); [|lia].
    rewrite string_app_nil_r. exact IH.
  - destruct (N.leb_spec (string_len buf + string_len p) 256); [|done].
    destruct p; [done|]. unfold string_len in *. simpl in *. lia.
Qed.

Lemma join_in_buffer_overflows parts : ∀ buf,
  (string_len buf ≤ 256)%N → (256 < string_len (buf +:+ tail_text parts))%N →
  join_in_buffer false parts buf = None
  ∨ ∃ before after, parts = before ++ after ∧ after ≠ [] ∧ Forall (λ p, p = "") after
    ∧ (string_len (buf +:+ tail_text before) = 256)%N.
Proof.
  induction parts as [|p ps IH]; intros buf Hbuf Hlong.
  { simpl in Hlong. rewrite string_app_nil_r in Hlong. lia. }
  destruct (decide (string_len buf = 256)%N) as [Hfull|Hroom].
  - rewrite join_in_full_buffer by done. destruct (forallb _ _) eqn:Hall; [|by left]. right.
    exists [], (p :: ps). split_and!; [done|done| |by simpl; rewrite string_app_nil_r].
    apply Forall_forall. intros q Hq. rewrite forallb_forall in Hall. symmetry. apply String.eqb_eq, Hall.
    by apply list_elem_of_In.
  - cbn [join_in_buffer negb andb]. destruct (N.ltb_spec (string_len buf) 256); [|lia].
    rewrite string_len_app. change (string_len ":") with 1%N.
    destruct (N.leb_spec (string_len buf + 1 + string_len p) 256); [|by left].
    destruct (IH ((buf +:+ ":") +:+ p)) as [->|(before & after & -> & Hne & He & Hl)]; [| |by left|].
    + rewrite !string_len_app. change (string_len ":") with 1%N. lia.
    + cbn [tail_text List.fold_right] in Hlong. by rewrite !string_app_assoc.
    + right. exists (p :: before), after. split_and!; [done..|]. cbn [tail_text List.fold_right].
      by rewrite !string_app_assoc in Hl.
Qed.

(** What is hashed is the join of the parts, except when parts at the end are
    empty and those before them fill the buffer. *)
Lemma joined_name_spec parts :
  joined_name parts ≠ string_join ":" parts ↔
  ∃ before after, parts = before ++ after ∧ after ≠ [] ∧ Forall (λ p, p = "") after
    ∧ (string_len (string_join ":" before) = 256)%N.
Proof.
  unfold joined_name. destruct parts as [|p ps].
  { split; [by intros []|]. intros (before & after & H & Hne & _). by destruct before, after. }
  cbn [join_in_buffer negb andb]. change (string_len "") with 0%N. rewrite N.add_0_l, string_app_nil_l, join_tail.
  assert (∀ before after, p :: ps = before ++ after → (string_len (string_join ":" before) = 256)%N →
    ∃ qs, before = p :: qs ∧ ps = qs ++ after) as Hsplit.
  { intros before after H Hl. destruct before as [|q qs]; [done|]. injection H as -> ->. by exists qs. }
  destruct (N.leb_spec (string_len p) 256) as [Hp|Hp].
  - destruct (N.leb_spec (string_len (p +:+ tail_text ps)) 256) as [Hfits|Hlong].
    + rewrite join_in_buffer_fits by done. split; [done|]. intros (before & after & H & Hne & _ & Hl).
      destruct (Hsplit _ _ H Hl) as (qs & -> & ->). rewrite join_tail in Hl.
      rewrite tail_text_app, <- string_app_assoc, string_len_app, Hl in Hfits.
      pose proof (tail_text_long after Hne). lia.
    + split.
      * intros Hne. destruct (join_in_buffer_overflows ps p Hp Hlong) as [H|(before & after & -> & Ha & He & Hl)].
        -- by rewrite H in Hne.
        -- exists (p :: before), after. by rewrite join_tail.
      * intros (before & after & H & Hne & He & Hl). destruct (Hsplit _ _ H Hl) as (qs & -> & ->).
        rewrite join_tail in Hl. intros Heq.
        assert (join_in_buffer false (qs ++ after) p = Some (p +:+ tail_text qs)) as Hloop.
        { clear -He Hl. revert p Hl. induction qs as [|q qs IH]; intros p Hl.
          - simpl in Hl. rewrite string_app_nil_r in Hl. cbn [app]. rewrite join_in_full_buffer by done. cbn [tail_text List.fold_right].
            rewrite string_app_nil_r. assert (forallb (String.eqb "") after = true) as Hall; [|by rewrite Hall].
            apply forallb_forall. intros x Hx%list_elem_of_In. rewrite Forall_forall in He. by rewrite (He x Hx).
          - cbn [tail_text List.fold_right] in Hl. fold (tail_text qs) in Hl. pose proof Hl as Hl'.
            rewrite !string_len_app in Hl. change (string_len ":") with 1%N in Hl.
            cbn [app join_in_buffer negb andb]. destruct (N.ltb_spec (string_len p) 256); [|lia].
            rewrite string_len_app. change (string_len ":") with 1%N.
            destruct (N.leb_spec (string_len p + 1 + string_len q) 256); [|lia].
            rewrite IH; by rewrite !string_app_assoc. }
        rewrite Hloop in Heq. rewrite tail_text_app, <- string_app_assoc in Heq.
        pose proof (tail_text_long after Hne) as Hpos. apply (f_equal string_len) in Heq.
        rewrite (string_len_app (p +:+ tail_text qs)) in Heq. lia.
  - split; [done|]. intros (before & after & H & Hne & _ & Hl). destruct (Hsplit _ _ H Hl) as (qs & -> & ->).
    rewrite join_tail, string_len_app in Hl. lia.
Qed.

(** Two lists of parts with one identifier: the second has an empty part more. *)
Example full_buffer_hides_an_empty_part `{UuidV5} namespace :
  let full := String.concat "" (List.repeat "abcdefgh" 32) in
  from_parts namespace [full; ""] = from_parts namespace [full] ∧ [full; ""] ≠ [full].
Proof. split; [|done]. unfold from_parts, joined_uuid. by f_equal. Qed.

(** ** Coordinates *)

Fixpoint all_digit_chars (s : string) : bool :=
  match s with
  | EmptyString => true
  | String c s => ((48 <=? N_of_ascii c) && (N_of_ascii c <=? 57))%N && all_digit_chars s
  end.

Lemma show_N_digit_chars n : all_digit_chars (show_N n) = true.
Proof.
  assert (∀ s acc, parse_digits s acc ≠ None → all_digit_chars s = true) as H.
  { induction s as [|c s IH]; intros acc; [done|]. simpl. destruct (_ && _) eqn:E; [|done]. simpl. apply IH. }
  apply (H _ 0%N). by rewrite parse_show_N.
Qed.

Lemma digits_no_colon s : all_digit_chars s = true → has_char ":" s = false.
Proof.
  induction s as [|c s IH]; [done|]. simpl. intros [Hc Hs]%andb_true_iff. rewrite IH by done.
  destruct (Ascii.eqb_spec c ":") as [->|]; [discriminate Hc|done].
Qed.

Lemma show_Z_no_colon z : has_char ":" (show_Z z) = false.
Proof.
  rewrite show_Z_cases. destruct (_ <=? _)%Z; [apply digits_no_colon, show_N_digit_chars|].
  simpl. apply digits_no_colon, show_N_digit_chars.
Qed.

Lemma substring_all s n : String.length s ≤ n → String.substring 0 n s = s.
Proof.
  revert n. induction s as [|c s IH]; intros [|n] H; try done; simpl in *; [lia|]. f_equal. apply IH. lia.
Qed.

(** Coordinates of 64 bits fit in the buffer. *)
Lemma coords_text_complete pre post x y z :
  (pre < 2 ^ 64)%N → (post < 2 ^ 64)%N →
  (- 2 ^ 63 ≤ x < 2 ^ 63)%Z → (- 2 ^ 63 ≤ y < 2 ^ 63)%Z → (- 2 ^ 63 ≤ z < 2 ^ 63)%Z →
  coords_text pre post x y z = string_join ":" [show_N pre; show_N post; show_Z x; show_Z y; show_Z z].
Proof.
  intros Hpre Hpost Hx Hy Hz. apply substring_all.
  assert (∀ n, (n < 2 ^ 64)%N → String.length (show_N n) ≤ 20) as HN.
  { intros n Hn. apply show_N_length; [lia|]. eapply N.lt_trans; [exact Hn|]. vm_compute. reflexivity. }
  assert (∀ i, (- 2 ^ 63 ≤ i < 2 ^ 63)%Z → String.length (show_Z i) ≤ 20) as HZ.
  { intros i Hi. apply (show_Z_length 19); [lia|]. assert (2 ^ 63 < 10 ^ Z.of_nat 19)%Z by (vm_compute; reflexivity). lia. }
  cbn [string_join]. rewrite !string_length_app. change (String.length ":") with 1.
  pose proof (HN _ Hpre). pose proof (HN _ Hpost). pose proof (HZ _ Hx). pose proof (HZ _ Hy). pose proof (HZ _ Hz). lia.
Qed.

(** Different coordinates are hashed as different texts. *)
Lemma coords_text_inj pre post x y z pre' post' x' y' z' :
  (pre < 2 ^ 64)%N → (post < 2 ^ 64)%N →
  (- 2 ^ 63 ≤ x < 2 ^ 63)%Z → (- 2 ^ 63 ≤ y < 2 ^ 63)%Z → (- 2 ^ 63 ≤ z < 2 ^ 63)%Z →
  (pre' < 2 ^ 64)%N → (post' < 2 ^ 64)%N →
  (- 2 ^ 63 ≤ x' < 2 ^ 63)%Z → (- 2 ^ 63 ≤ y' < 2 ^ 63)%Z → (- 2 ^ 63 ≤ z' < 2 ^ 63)%Z →
  coords_text pre post x y z = coords_text pre' post' x' y' z' →
  (pre, post, x, y, z) = (pre', post', x', y', z').
Proof.
  intros. rewrite !coords_text_complete in * by done.
  assert (∀ a b c d e, split_char ":" (string_join ":" [show_N a; show_N b; show_Z c; show_Z d; show_Z e])
    = [show_N a; show_N b; show_Z c; show_Z d; show_Z e]) as Hsplit.
  { intros. apply (split_join ":"); [done|].
    repeat constructor; first [apply show_Z_no_colon|apply digits_no_colon, show_N_digit_chars]. }
  match goal with E : string_join _ _ = string_join _ _ |- _ => apply (f_equal (split_char ":")) in E; rewrite !Hsplit in E;
    injection E as E1 E2 E3 E4 E5 end.
  apply (inj pretty) in E1, E2, E3, E4, E5. by subst.
Qed.

(** ** Content hashes *)

Section ContentHash.
Context `{RawBlake3}.

(** How the bytes of a file are cut does not matter. *)
Lemma hash_reads_concat reads hashed :
  Forall (λ part, part ≠ "") reads → hash_reads reads hashed = blake3_raw (hashed +:+ string_join "" reads).
Proof.
  intros Hr. revert hashed. induction Hr as [|part reads Hp Hr IH]; intros hashed; cbn [hash_reads].
  - by rewrite string_app_nil_r.
  - destruct (String.eqb_spec part ""); [done|]. rewrite IH, string_app_assoc. do 2 f_equal.
    destruct reads; [by rewrite string_app_nil_r|done].
Qed.

(** A stored hash is read back. *)
Lemma stored_hash_round_trip algo_prefix hash :
  trim (algo_prefix +:+ hash +:+ nl) = algo_prefix +:+ hash →
  read_stored_hash algo_prefix (Some (write_stored_hash algo_prefix hash)) = Some hash.
Proof. intros Ht. unfold read_stored_hash, write_stored_hash. rewrite Ht. apply strip_prefix_app. Qed.

(** Whatever the hash function is, a directory with two files has the hash of a
    directory with one: its name is the first name, the first digest and the
    second name, and its content is that of the second file. *)
Example one_file_has_the_hash_of_two first second content1 content2 :
  let file name content := {| entry_name := name; entry_is_file := true; entry_reads := Ok [content] |} in
  let merged := first +:+ blake3_raw content1 +:+ second in
  content1 ≠ "" → content2 ≠ "" →
  hash_files [file first content1; file second content2] "" = hash_files [file merged content2] "".
Proof.
  intros file merged H1 H2. unfold file, merged, hash_files, hash_file. simpl.
  destruct (String.eqb_spec content1 ""), (String.eqb_spec content2 ""); try done. simpl.
  by rewrite !string_app_nil_l, !string_app_assoc.
Qed.
End ContentHash.
