(* ===== verification/Tokens.v ===== *)
(** Tokens and sessions: [queryfabric-paseto/src/] (lib.rs, typed.rs),
    [queryfabric-session] and [queryfabric-problem-details].

    The class [Paseto] is what the code takes from third-party crates: the token
    format, whose builder draws a nonce and whose parser checks the times of the
    claims, UUIDs, RFC 3339 timestamps, and JSON arrays of strings in a claim.
    Times are Unix seconds. *)
From Stdlib Require Import Ascii.
From S2P Require Import Prelude Contract Catalog Json Numerals Citation SourceMap.
Local Open Scope result_scope.

(** ** [lib.rs] *)

Inductive AuthTokenError :=
| SecretTooShort
| TokenParse (text : string)
| TokenBuild (text : string).

(** [header[..n]] panics unless [n] is at the boundary of a character. *)
Definition is_char_boundary (s : string) (n : nat) : bool :=
  (n =? 0)%nat || (n =? String.length s)%nat
  || match String.get n s with Some c => negb (continuation c) | None => false end.

(** One scheme: [None] is a panic. *)
Definition scheme_token (scheme header : string) : option (option string) :=
  let n := String.length scheme in
  if (n <=? String.length header)%nat then
    if is_char_boundary header n then
      Some (if eq_ignore_ascii_case (String.substring 0 n header) scheme then
              Some (String.substring n (String.length header - n) header)
            else None)
    else None
  else Some None.

Definition extract_bearer_token (header : string) : option (option string) :=
  match scheme_token "bearer " header with
  | None => None
  | Some (Some token) => Some (Some token)
  | Some None => scheme_token "token " header
  end.

Definition validate_paseto_secret (secret : string) : result unit AuthTokenError :=
  if (string_len secret <? 32)%N then Err SecretTooShort else Ok tt.

(** The key is the first 32 bytes. *)
Definition v4_local_key (secret : string) : result string AuthTokenError :=
  if (string_len secret <? 32)%N then Err SecretTooShort else Ok (String.substring 0 32 secret).

Class Paseto (Number : Type) := {
  (** [PasetoBuilder]: the claims, the time and the nonce. *)
  paseto_build : list (string * string) → string → Z → string → result string string;
  (** [PasetoParser]: the token, the key and the time. *)
  paseto_parse : string → string → Z → result (Json Number) string;
  (** [ExpirationClaim::try_from] and [CustomClaim::try_from]. *)
  expiration_claim : string → result (string * string) string;
  custom_claim : string * string → result (string * string) string;
  to_rfc3339 : Z → string;
  uuid_to_text : Uuid → string;
  uuid_parse : string → result Uuid string;
  strings_to_json : list string → result string string;
  strings_from_json : string → result (list string) string;
  (** The text of the error of [str::parse::<i32>]. *)
  parse_int_error : string → string;
  (** [str::to_lowercase]. *)
  unicode_lowercase : string → string
}.

Section Tokens.
Context {Number : Type} `{!Paseto Number}.
Implicit Types (claims : Json Number) (token secret : string) (now : Z).

Definition parse_paseto_v4_local token secret now : result (Json Number) AuthTokenError :=
  let? key := v4_local_key secret in
  match paseto_parse token key now with
  | Ok claims => Ok claims
  | Err text => Err (TokenParse text)
  end.

(** ** [typed.rs] *)

Record Email := { email_str : string }.

Inductive EmailParseError := EmailInvalid (value : string).

Definition Email_new (s : string) : result Email EmailParseError :=
  if (3 <=? string_len s)%N && str_contains s "@" && negb (str_starts_with "@" s) && negb (ends_with_char "@" s) then
    Ok {| email_str := s |}
  else Err (EmailInvalid s).

Definition Email_new_unchecked (s : string) : Email := {| email_str := s |}.

Inductive UserType := Human | Service.

Definition UserType_default : UserType := Human.

Definition user_type_as_str (u : UserType) : string := match u with Human => "human" | Service => "service" end.

Definition user_type_is_service (u : UserType) : bool := match u with Service => true | Human => false end.

Inductive UserTypeParseError := UserTypeInvalid (value : string).

Definition user_type_from_str (s : string) : result UserType UserTypeParseError :=
  let lower := unicode_lowercase s in
  if String.eqb lower "human" then Ok Human
  else if String.eqb lower "service" then Ok Service
  else Err (UserTypeInvalid s).

Inductive AuthError :=
| AuthSecretTooShort
| AuthTokenParse (text : string)
| MissingSub
| MissingEmail
| AuthInvalidEmail (text : string)
| InvalidUuid (text : string)
| InvalidScope (expected actual : string)
| MissingDelegationClaim (field : string)
| InvalidDelegationClaim (field reason : string).

(** [From<AuthTokenError>]. *)
Definition auth_error (e : AuthTokenError) : AuthError :=
  match e with
  | SecretTooShort => AuthSecretTooShort
  | TokenParse s | TokenBuild s => AuthTokenParse s
  end.

Record AuthUser := {
  user_id : Uuid;
  user_email : Email;
  is_active : bool;
  is_superuser : bool;
  is_verified : bool;
  user_type : UserType;
  roles : list string
}.

Definition auth_user_is_service (u : AuthUser) : bool := user_type_is_service (user_type u).

Definition has_role (u : AuthUser) (role : string) : bool := existsb (λ candidate, String.eqb candidate role) (roles u).

(** [value[key]]: null where there is no such entry. *)
Definition json_index claims (key : string) : Json Number :=
  match claims with
  | JObject entries => default JNull (json_get key entries)
  | _ => JNull
  end.

Definition as_str (value : Json Number) : option string := match value with JString s => Some s | _ => None end.
Definition as_bool (value : Json Number) : option bool := match value with JBool b => Some b | _ => None end.

(** A flag is a text or a boolean. *)
Definition bool_claim claims (key : string) (otherwise : bool) : bool :=
  default otherwise
    (option_or_else ((λ s, String.eqb s "true") <$> as_str (json_index claims key)) (as_bool (json_index claims key))).

Definition roles_from_claim (value : Json Number) : list string :=
  match value with
  | JArray items => omap as_str items
  | _ =>
      match as_str value with
      | Some raw => match strings_from_json raw with Ok roles => roles | Err _ => [] end
      | None => []
      end
  end.

Definition validate_paseto_token token secret now : result AuthUser AuthError :=
  let? claims := map_err auth_error (parse_paseto_v4_local token secret now) in
  let? id_str := ok_or (as_str (json_index claims "sub")) MissingSub in
  let? id := map_err InvalidUuid (uuid_parse id_str) in
  let? email_text := ok_or (as_str (json_index claims "email")) MissingEmail in
  let email := Email_new_unchecked email_text in
  let active := bool_claim claims "is_active" true in
  let superuser := bool_claim claims "is_superuser" false in
  let verified := bool_claim claims "is_verified" false in
  let utype :=
    match as_str (json_index claims "user_type") with
    | Some s => match user_type_from_str s with Ok u => u | Err _ => UserType_default end
    | None => UserType_default
    end in
  Ok {| user_id := id; user_email := email; is_active := active; is_superuser := superuser;
        is_verified := verified; user_type := utype; roles := roles_from_claim (json_index claims "roles") |}.

(** ** Delegation *)

Definition DELEGATION_TTL_SECS : Z := 30.

Record DelegationClaims := {
  dc_sub : Uuid;
  dc_email : Email;
  dataset_ids : list Uuid;
  table_id : Z
}.

Definition quoted (s : string) : string := String (ascii_of_N 34) (s +:+ String (ascii_of_N 34) "").

(** The claims in the order in which they are set.  A timestamp has no
    characters that its debug text escapes. *)
Definition delegation_claims (user : AuthUser) (ids : list Uuid) (table : Z) now
    : result (list (string * string)) AuthError :=
  let? dataset_ids_json :=
    map_err (InvalidDelegationClaim "dataset_ids") (strings_to_json (List.map uuid_to_text ids)) in
  let expiry := to_rfc3339 (now + DELEGATION_TTL_SECS) in
  let failed (context : string) (e : string) := AuthTokenParse (context +:+ ": " +:+ e) in
  let? expiration :=
    map_err (failed ("build delegation expiry claim from RFC3339 timestamp " +:+ quoted expiry))
      (expiration_claim expiry) in
  let? email :=
    map_err (failed ("build delegation claim 'email' from authenticated user " +:+ email_str (user_email user)))
      (custom_claim ("email", email_str (user_email user))) in
  let? scope :=
    map_err (failed ("build delegation claim 'scope' with value " +:+ quoted "delegation"))
      (custom_claim ("scope", "delegation")) in
  let? ids_claim :=
    map_err (failed ("build delegation claim 'dataset_ids' for " +:+ show_N (vec_len ids) +:+ " dataset ids"))
      (custom_claim ("dataset_ids", dataset_ids_json)) in
  let? table_claim :=
    map_err (failed ("build delegation claim 'table_id' from table discriminant " +:+ show_Z table))
      (custom_claim ("table_id", show_Z table)) in
  Ok [("sub", uuid_to_text (user_id user)); expiration; email; scope; ids_claim; table_claim].

Definition mint_delegation_token (user : AuthUser) (ids : list Uuid) (table : Z) secret now (nonce : string)
    : result string AuthError :=
  let? key := map_err auth_error (v4_local_key secret) in
  let? set_claims := delegation_claims user ids table now in
  map_err (λ e, AuthTokenParse ("build delegation PASETO token for user " +:+ uuid_to_text (user_id user) +:+ " and "
                                +:+ show_N (vec_len ids) +:+ " dataset ids: " +:+ e))
    (paseto_build set_claims key now nonce).

Definition validate_delegation_token token secret now : result DelegationClaims AuthError :=
  let? claims := map_err auth_error (parse_paseto_v4_local token secret now) in
  let? scope := ok_or (as_str (json_index claims "scope")) (MissingDelegationClaim "scope") in
  if negb (String.eqb scope "delegation") then Err (InvalidScope "delegation" scope)
  else
    let? id_str := ok_or (as_str (json_index claims "sub")) MissingSub in
    let? sub := map_err InvalidUuid (uuid_parse id_str) in
    let? email_text := ok_or (as_str (json_index claims "email")) MissingEmail in
    let email := Email_new_unchecked email_text in
    let? dataset_ids_str := ok_or (as_str (json_index claims "dataset_ids")) (MissingDelegationClaim "dataset_ids") in
    let? dataset_id_strings :=
      map_err (InvalidDelegationClaim "dataset_ids") (strings_from_json dataset_ids_str) in
    let? ids := map_err (InvalidDelegationClaim "dataset_ids") (rcollect uuid_parse dataset_id_strings) in
    let? table_id_str := ok_or (as_str (json_index claims "table_id")) (MissingDelegationClaim "table_id") in
    let? table := ok_or (parse_i32 table_id_str) (InvalidDelegationClaim "table_id" (parse_int_error table_id_str)) in
    Ok {| dc_sub := sub; dc_email := email; dataset_ids := ids; table_id := table |}.
End Tokens.

(** ** [queryfabric-session] *)

Inductive CookieSameSite := Strict | Lax | SameSiteNone.

(** [Display], in lower case. *)
Definition same_site_text (s : CookieSameSite) : string :=
  match s with Strict => "strict" | Lax => "lax" | SameSiteNone => "none" end.

(** [FromStr]. *)
Definition same_site_from_str (s : string) : option CookieSameSite :=
  if String.eqb s "strict" then Some Strict
  else if String.eqb s "lax" then Some Lax
  else if String.eqb s "none" then Some SameSiteNone
  else None.

Definition session_cookie_value (name : string) (session : option string) (max_age : Z) (same_site : CookieSameSite)
    (secure : bool) : string :=
  let parts := [name +:+ "=" +:+ default "" session; "Path=/"; "HttpOnly";
                "SameSite=" +:+ same_site_text same_site; "Max-Age=" +:+ show_Z max_age] in
  let parts := if secure then parts ++ ["Secure"] else parts in
  string_join "; " parts.

Definition clear_session_cookie_value (name : string) (same_site : CookieSameSite) (secure : bool) : string :=
  session_cookie_value name None 0 same_site secure.

(** ** [queryfabric-problem-details] *)

Definition REQUEST_ID_HEADER : string := "x-request-id".
Definition PROBLEM_JSON_CONTENT_TYPE : string := "application/problem+json".

Record ProblemDetails := { type_url : string; problem_title : string; problem_detail : string; problem_status : N }.

Definition ProblemDetails_new (title detail : string) (status : N) : ProblemDetails :=
  {| type_url := "about:blank"; problem_title := title; problem_detail := detail; problem_status := status |}.

(** Facts of [Tokens]: delegation tokens are read back, and what else accepts
    them; bearer tokens; keys; cookies. *)

(** ** What is documented of the crates *)

Class LawfulPaseto (Number : Type) `{!Paseto Number} := {
  (** Until it expires, a token is parsed with the key it was built with; its
      claims are those that were set and the times the builder adds. *)
  token_is_parsed : ∀ set_claims key t nonce token t',
    paseto_build set_claims key t nonce = Ok token → (t ≤ t')%Z →
    NoDup set_claims.*1 → (∀ text, ("exp", text) ∈ set_claims → ∃ exp, text = to_rfc3339 exp ∧ (t' < exp)%Z) →
    ∃ entries, paseto_parse token key t' = Ok (JObject entries)
    ∧ (∀ k v, (k, v) ∈ set_claims → json_get k entries = Some (JString v))
    ∧ (∀ k, k ∉ set_claims.*1 → k ∉ ["exp"; "iat"; "nbf"] → json_get k entries = None);
  expiration_is_exp : ∀ text claim, expiration_claim text = Ok claim → claim = ("exp", text);
  custom_is_kept : ∀ kv claim, custom_claim kv = Ok claim → claim = kv;
  uuid_round_trip : ∀ id, uuid_parse (uuid_to_text id) = Ok id;
  strings_round_trip : ∀ l text, strings_to_json l = Ok text → strings_from_json text = Ok l
}.

Section Delegation.
Context {Number : Type} `{!Paseto Number} `{!LawfulPaseto Number}.

Lemma map_err_Ok {A E F} (f : E → F) (r : result A E) a : map_err f r = Ok a ↔ r = Ok a.
Proof. destruct r; naive_solver. Qed.

(** The claims that are set. *)
Lemma delegation_claims_Ok user ids table now set_claims :
  delegation_claims user ids table now = Ok set_claims →
  ∃ ids_json, strings_to_json (List.map uuid_to_text ids) = Ok ids_json
  ∧ set_claims = [("sub", uuid_to_text (user_id user)); ("exp", to_rfc3339 (now + DELEGATION_TTL_SECS)%Z);
                  ("email", email_str (user_email user)); ("scope", "delegation"); ("dataset_ids", ids_json);
                  ("table_id", show_Z table)].
Proof.
  unfold delegation_claims. rewrite rbind_Ok. intros (ids_json & Hids%map_err_Ok & H). exists ids_json. split; [done|].
  rewrite rbind_Ok in H. destruct H as (expiration & He%map_err_Ok%expiration_is_exp & H).
  rewrite rbind_Ok in H. destruct H as (email & Hm%map_err_Ok%custom_is_kept & H).
  rewrite rbind_Ok in H. destruct H as (scope & Hs%map_err_Ok%custom_is_kept & H).
  rewrite rbind_Ok in H. destruct H as (idc & Hi%map_err_Ok%custom_is_kept & H).
  rewrite rbind_Ok in H. destruct H as (tc & Ht%map_err_Ok%custom_is_kept & [= <-]). by subst.
Qed.

Lemma minted_token_parses user ids table secret now nonce token t :
  mint_delegation_token user ids table secret now nonce = Ok token →
  (now ≤ t)%Z → (t < now + DELEGATION_TTL_SECS)%Z →
  ∃ entries ids_json, parse_paseto_v4_local token secret t = Ok (JObject entries)
  ∧ strings_from_json ids_json = Ok (List.map uuid_to_text ids)
  ∧ json_get "sub" entries = Some (JString (uuid_to_text (user_id user)))
  ∧ json_get "email" entries = Some (JString (email_str (user_email user)))
  ∧ json_get "scope" entries = Some (JString "delegation")
  ∧ json_get "dataset_ids" entries = Some (JString ids_json)
  ∧ json_get "table_id" entries = Some (JString (show_Z table))
  ∧ ∀ k, k ∉ ["sub"; "exp"; "email"; "scope"; "dataset_ids"; "table_id"; "iat"; "nbf"] → json_get k entries = None.
Proof.
  unfold mint_delegation_token. rewrite rbind_Ok. intros (key & Hkey%map_err_Ok & H) Hnow Ht.
  rewrite rbind_Ok in H. destruct H as (set_claims & Hset & Hbuild%map_err_Ok).
  destruct (delegation_claims_Ok _ _ _ _ _ Hset) as (ids_json & Hids & ->).
  destruct (token_is_parsed _ _ _ _ _ t Hbuild Hnow) as (entries & Hparse & Hin & Hout).
  { repeat constructor; set_solver. }
  { intros text Hin. exists (now + DELEGATION_TTL_SECS)%Z. split; [|done].
    rewrite !elem_of_cons in Hin. destruct_or! Hin; try discriminate Hin; [by injection Hin|by apply elem_of_nil in Hin]. }
  exists entries, ids_json. split_and!; try (apply Hin; set_solver).
  - unfold parse_paseto_v4_local. rewrite Hkey. simpl. by rewrite Hparse.
  - by apply strings_round_trip.
  - intros k Hk. apply Hout; csimpl; set_solver.
Qed.

Lemma parsed_uuids ids : rcollect uuid_parse (List.map uuid_to_text ids) = Ok ids.
Proof.
  apply rcollect_Ok. induction ids as [|id ids IH]; simpl; constructor; [apply uuid_round_trip|done].
Qed.

(** A delegation token as a user token. *)
Lemma minted_token_as_user (user : AuthUser) ids (table : Z) (secret nonce token : string) (now t : Z) :
  mint_delegation_token user ids table secret now nonce = Ok token →
  (now ≤ t)%Z → (t < now + DELEGATION_TTL_SECS)%Z →
  validate_paseto_token token secret t
  = Ok {| user_id := user_id user; user_email := user_email user; is_active := true; is_superuser := false;
          is_verified := false; user_type := UserType_default; roles := [] |}.
Proof.
  intros Hmint Hnow Ht.
  destruct (minted_token_parses _ _ _ _ _ _ _ _ Hmint Hnow Ht)
    as (entries & ids_json & Hparse & _ & Hsub & Hemail & _ & _ & _ & Hout).
  unfold validate_paseto_token. rewrite Hparse. cbn [map_err rbind]. unfold bool_claim, json_index.
  rewrite Hsub, Hemail, !Hout by set_solver. simpl. rewrite uuid_round_trip. simpl. by destruct (user_email user).
Qed.

(** C17: round trip.  Until it expires, a delegation token is read back as the
    user, the datasets and the table it was minted for; and the same token is
    accepted as a token of the user, active and without roles. *)
Theorem delegation_token_is_read (user : AuthUser) ids (table : Z) (secret nonce token : string) (now t : Z) :
  mint_delegation_token user ids table secret now nonce = Ok token →
  (now ≤ t)%Z → (t < now + DELEGATION_TTL_SECS)%Z → (- 2 ^ 31 ≤ table < 2 ^ 31)%Z →
  validate_delegation_token token secret t
  = Ok {| dc_sub := user_id user; dc_email := user_email user; dataset_ids := ids; table_id := table |}
  ∧ validate_paseto_token token secret t
    = Ok {| user_id := user_id user; user_email := user_email user; is_active := true; is_superuser := false;
            is_verified := false; user_type := UserType_default; roles := [] |}.
Proof.
  intros Hmint Hnow Ht Htable. split; [|by eapply minted_token_as_user].
  destruct (minted_token_parses _ _ _ _ _ _ _ _ Hmint Hnow Ht)
    as (entries & ids_json & Hparse & Hids & Hsub & Hemail & Hscope & Hds & Htid & _).
  unfold validate_delegation_token. rewrite Hparse. cbn [map_err rbind].
  unfold json_index. rewrite Hsub, Hemail, Hscope, Hds, Htid. simpl. rewrite uuid_round_trip. simpl.
  rewrite Hids. simpl. rewrite parsed_uuids. simpl.
  unfold parse_i32. rewrite parse_show_Z by done. simpl. by destruct (user_email user).
Qed.

(** A token is accepted for delegation only with its scope. *)
Lemma delegation_needs_its_scope token secret t claims :
  validate_delegation_token token secret t = Ok claims →
  ∃ parsed, parse_paseto_v4_local token secret t = Ok parsed
  ∧ as_str (json_index parsed "scope") = Some "delegation" ∧ (- 2 ^ 31 ≤ table_id claims < 2 ^ 31)%Z.
Proof.
  unfold validate_delegation_token. rewrite rbind_Ok. intros (parsed & Hp%map_err_Ok & H). exists parsed.
  rewrite rbind_Ok in H. destruct H as (scope & Hs & H). apply ok_or_Ok in Hs.
  destruct (String.eqb_spec scope "delegation") as [->|]; [|done]. simpl in H.
  repeat (rewrite rbind_Ok in H; destruct H as (? & ? & H)). injection H as <-. split_and!; [done|done|simpl..].
  all: match goal with Ht : ok_or (parse_i32 _) _ = Ok ?z |- _ => apply ok_or_Ok in Ht; revert Ht; generalize z end.
  all: intros z Hz; unfold parse_i32, parse_signed in Hz; repeat case_match; simplify_eq; try done;
    repeat match goal with
           | Hl : (_ <=? _)%N = true |- _ => apply N.leb_le in Hl
           | Hl : (_ <? _)%N = true |- _ => apply N.ltb_lt in Hl
           end; lia.
Qed.
End Delegation.

(** ** Headers, keys, cookies *)

Fixpoint ascii_text (s : string) : bool :=
  match s with EmptyString => true | String c s => (N_of_ascii c <? 128)%N && ascii_text s end.

Lemma ascii_boundary s n : ascii_text s = true → n ≤ String.length s → is_char_boundary s n = true.
Proof.
  intros Hs Hn. unfold is_char_boundary. destruct (Nat.eqb_spec n 0) as [|_]; [done|].
  destruct (Nat.eqb_spec n (String.length s)) as [|Hne]; [done|]. cbn [orb].
  assert (n < String.length s) as Hlt by lia. clear Hn Hne.
  revert n Hlt. induction s as [|c s IH]; intros n Hlt; simpl in *; [lia|].
  apply andb_true_iff in Hs as [Hc Hs]. destruct n as [|n].
  - simpl. unfold continuation, in_range. apply N.ltb_lt in Hc. destruct (N.leb_spec 128 (N_of_ascii c)); [lia|done].
  - apply IH; [done|lia].
Qed.

(** With an ASCII header nothing panics, and what is taken is what is after the
    scheme. *)
Lemma bearer_token_of_ascii header :
  ascii_text header = true → ∃ token, extract_bearer_token header = Some token.
Proof.
  intros Ha. unfold extract_bearer_token.
  assert (∀ scheme, ∃ token, scheme_token scheme header = Some token) as H.
  { intros scheme. unfold scheme_token. destruct (Nat.leb_spec (String.length scheme) (String.length header)); [|eauto].
    rewrite ascii_boundary by done. eauto. }
  destruct (H "bearer ") as [[token|] ->]; [eauto|]. apply H.
Qed.

Example bearer_schemes :
  extract_bearer_token "Bearer abc" = Some (Some "abc") ∧ extract_bearer_token "tOKEN xyz" = Some (Some "xyz")
  ∧ extract_bearer_token "Basic abc" = Some None ∧ extract_bearer_token "Bearer" = Some None.
Proof. vm_compute. done. Qed.

(** A header with a character of two bytes at the sixth byte: the slice panics. *)
Example header_slice_panics :
  extract_bearer_token ("Basic " +:+ String (ascii_of_N 195) (String (ascii_of_N 169) "")) = None.
Proof. vm_compute. reflexivity. Qed.

(** Secrets with the same first 32 bytes are one key. *)
Lemma key_is_a_prefix secret more :
  (32 ≤ string_len secret)%N → v4_local_key (secret +:+ more) = v4_local_key secret.
Proof.
  intros Hlen. unfold v4_local_key. rewrite string_len_app.
  destruct (N.ltb_spec (string_len secret + string_len more) 32); [lia|].
  destruct (N.ltb_spec (string_len secret) 32); [lia|]. f_equal.
  assert (∀ n s, n ≤ String.length s → String.substring 0 n (s +:+ more) = String.substring 0 n s) as Hsub.
  { intros n. induction n as [|n IH]; intros [|c s] Hn; try done; simpl in *; [by destruct more|lia|].
    f_equal. apply IH. lia. }
  apply Hsub. unfold string_len in Hlen. lia.
Qed.

(** The attributes of a cookie are read back when the name and the session have
    no semicolon. *)
Example cookie_attributes :
  session_cookie_value "queryfabric_session" (Some "abc") 60 Lax false
  = "queryfabric_session=abc; Path=/; HttpOnly; SameSite=lax; Max-Age=60"
  ∧ clear_session_cookie_value "queryfabric_session" SameSiteNone true
    = "queryfabric_session=; Path=/; HttpOnly; SameSite=none; Max-Age=0; Secure".
Proof. vm_compute. done. Qed.

Lemma same_site_round_trip s : same_site_from_str (same_site_text s) = Some s.
Proof. by destruct s. Qed.

(** ** A token format *)

(** The number of a value, as a text. *)
Definition coded {A} `{Countable A} (a : A) : string := show_N (Npos (encode a)).

Definition decoded {A} `{Countable A} (text : string) : option A :=
  match parse_digits text 0 with
  | Some (Npos p) => decode p
  | _ => None
  end.

Lemma decoded_coded {A} `{Countable A} (a : A) : decoded (coded a) = Some a.
Proof. unfold decoded, coded. rewrite parse_show_N. apply decode_encode. Qed.

(** Tokens that do not expire, with the claims in the clear. *)
Definition coded_paseto {Number} : Paseto Number :=
  {| paseto_build := λ set_claims key _ _, Ok (coded (key, set_claims));
     paseto_parse := λ token key _,
       match decoded token : option (string * list (string * string)) with
       | Some (key', set_claims) =>
           if String.eqb key key' then Ok (JObject (List.map (λ kv, (kv.1, JString kv.2)) set_claims))
           else Err "wrong key"
       | None => Err "not a token"
       end;
     expiration_claim := λ text, Ok ("exp", text);
     custom_claim := λ kv, Ok kv;
     to_rfc3339 := show_Z;
     uuid_to_text := show_N;
     uuid_parse := λ s, match parse_digits s 0 with Some n => Ok n | None => Err "invalid" end;
     strings_to_json := λ l, Ok (coded l);
     strings_from_json := λ s, match decoded s with Some l => Ok l | None => Err "invalid" end;
     parse_int_error := λ _, "invalid digit found in string";
     unicode_lowercase := to_ascii_lowercase |}.

#[local] Existing Instance coded_paseto.

Lemma coded_paseto_lawful {Number} : LawfulPaseto Number.
Proof.
  split.
  - intros set_claims key t nonce token t' [= <-] _ Hnd _. simpl. rewrite decoded_coded, String.eqb_refl.
    eexists. split; [done|]. split.
    + clear -Hnd. induction set_claims as [|[k' v'] l IH]; intros k v; [by intros ?%elem_of_nil|].
      csimpl in Hnd. apply NoDup_cons in Hnd as [Hk Hnd]. rewrite elem_of_cons. simpl.
      intros [[= -> ->]|Hin]; [by rewrite String.eqb_refl|].
      destruct (String.eqb_spec k' k) as [->|]; [|by apply IH].
      destruct Hk. apply list_elem_of_fmap. by exists (k, v).
    + intros k Hk _. clear -Hk. induction set_claims as [|[k' v'] l IH]; [done|]. csimpl in Hk.
      rewrite not_elem_of_cons in Hk. destruct Hk as [Hne Hk]. simpl.
      destruct (String.eqb_spec k' k); [congruence|]. by apply IH.
  - intros text claim [= <-]. done.
  - intros kv claim [= <-]. done.
  - intros id. simpl. by rewrite parse_show_N.
  - intros l text [= <-]. simpl. by rewrite decoded_coded.
Qed.

#[local] Existing Instance coded_paseto_lawful.

Definition sample_user : AuthUser :=
  {| user_id := 7%N; user_email := {| email_str := "a@b" |}; is_active := true; is_superuser := true;
     is_verified := true; user_type := Service; roles := ["admin"] |}.

Definition sample_secret : string := "0123456789abcdef0123456789abcdef".

Definition sample_token : string :=
  coded (sample_secret,
    [("sub", show_N 7); ("exp", show_Z 1030); ("email", "a@b"); ("scope", "delegation");
     ("dataset_ids", coded ["3"; "5"]); ("table_id", "-4")]).

Lemma delegation_token_is_read_witness :
  validate_delegation_token (Number:=unit) sample_token sample_secret 1010
  = Ok {| dc_sub := user_id sample_user; dc_email := user_email sample_user; dataset_ids := [3%N; 5%N];
          table_id := (-4)%Z |}
  ∧ validate_paseto_token (Number:=unit) sample_token sample_secret 1010
    = Ok {| user_id := user_id sample_user; user_email := user_email sample_user; is_active := true;
            is_superuser := false; is_verified := false; user_type := UserType_default; roles := [] |}.
Proof.
  refine (delegation_token_is_read (Number:=unit) sample_user [3%N; 5%N] (-4) sample_secret "" sample_token 1000 1010
    _ _ _ _).
  - reflexivity.
  - lia.
  - unfold DELEGATION_TTL_SECS. lia.
  - lia.
Defined.

(** The email of a token is not validated, unlike that of [Email::new]. *)
Example email_of_a_token_is_any_text :
  Email_new "x" = Err (EmailInvalid "x") ∧ Email_new_unchecked "x" = {| email_str := "x" |}.
Proof. done. Qed.
