(* ===== verification/Runtime.v ===== *)
(** The runtime: [queryfabric-runtime/src/] (mode.rs, driver.rs, error.rs,
    flight.rs, util.rs), [queryfabric-flight-pool], [queryfabric-flight-cache]
    and [queryfabric-worker].

    Streams of record batches, descriptors and channels of the Arrow Flight
    crates are types of which nothing is known; so are the errors of the
    transport.  A handler of the host is a computation that changes a world. *)
From Stdlib Require Import Ascii.
From S2P Require Import Prelude Diagnostics Bound Contract Cost.
Local Open Scope state_scope.

(** ** [mode.rs] *)

Inductive ExecutionRuntimeMode := RtInteractive | RtBatch | RtIsolated | RtFederated.

#[export] Instance ExecutionRuntimeMode_eq_dec : EqDecision ExecutionRuntimeMode.
Proof. solve_decision. Defined.

(** [From<ResultDeliveryMode>]. *)
Definition mode_of_delivery (mode : ResultDeliveryMode) : ExecutionRuntimeMode :=
  match mode with
  | InteractiveStream => RtInteractive
  | PagedResult => RtBatch
  | AsyncMaterializedExport => RtIsolated
  | RejectedOverBudget => RtInteractive
  end.

Definition runtime_mode_for_estimate (estimated : EstimatedCost) (limits : BackendExecutionLimits) : ExecutionRuntimeMode :=
  if (batch_byte_limit limits <? ec_memory_bytes estimated)%N then RtIsolated
  else if (interactive_byte_limit limits <? ec_memory_bytes estimated)%N then RtBatch
  else RtInteractive.

Definition resolve_runtime_mode (estimated : EstimatedCost) (limits : BackendExecutionLimits)
    (user_class_hint : option QueryTimeoutClass) : ExecutionRuntimeMode :=
  let estimated_mode := runtime_mode_for_estimate estimated limits in
  match user_class_hint with
  | None | Some Interactive => estimated_mode
  | Some Batch =>
      match estimated_mode with
      | RtInteractive | RtBatch => RtBatch
      | _ => estimated_mode
      end
  | Some Export => RtIsolated
  end.

(** ** [driver.rs], [error.rs] *)

Inductive ObjectStoreFormat := OsParquet | OsArrow | OsCsv.

Inductive StorageAccessMode :=
| ReplicatedReadOnly
| SnapshotClone (source_pvc snapshot_class : string)
| ObjectStore (uri : string) (format : ObjectStoreFormat).

Record ResourceRequest := {
  cpu_request : string;
  memory_request : string;
  cpu_limit : string;
  memory_limit : string
}.

(** The timeout in milliseconds. *)
Record IsolatedJobSpec := {
  job_query : BoundQuery;
  job_storage : StorageAccessMode;
  job_resources : ResourceRequest;
  job_timeout_ms : N
}.

Inductive DriverError :=
| DSpawn (message : string)
| DTimeout
| DCancelled
| DWorkerFailure (exit_code : Z) (message : string).

Inductive RuntimeError :=
| RNotImplemented
| RDriver (error : DriverError)
| RCancelled
| RAdapter (message : string).

(** ** [util.rs] *)

(** The payload of a panic, by its type. *)
Inductive PanicPayload := PStaticStr (message : string) | PString (message : string) | POther.

Definition panic_message (payload : PanicPayload) : string :=
  match payload with
  | PStaticStr message | PString message => message
  | POther => "<non-string panic payload>"
  end.

(** ** [flight.rs]: authentication, the ticket, the decision, the handler *)

Inductive Status :=
| Unimplemented (message : string)
| PermissionDenied (message : string)
| InvalidArgument (message : string)
| InternalStatus (message : string)
| OtherStatus (message : string).

Record TicketGrant := { grant_resource : ResourceRef; grant_policy : AccessPolicy }.

(** The traits of the host. *)
Class FlightHost (World Metadata Stream Descriptor Info Upload PutResult : Type) := {
  authenticate : Metadata → state World (result Subject Status);
  interpret : string → state World (result TicketGrant Status);
  decide_access : Subject → AccessPolicy → state World AccessOutcome;
  host_do_get : Subject → string → state World (result Stream Status);
  host_get_flight_info : Subject → Descriptor → state World (result Info Status);
  host_list_flights : Subject → string → state World (result (list Info) Status);
  host_do_put : Subject → Upload → state World (result (list PutResult) Status)
}.

Section FlightSkeleton.
Context {World Metadata Stream Descriptor Info Upload PutResult : Type}
  `{!FlightHost World Metadata Stream Descriptor Info Upload PutResult}.
#[local] Abbreviation M A := (state World (result A Status)).

(** [?] on an effectful result. *)
Definition and_then {A B} (m : M A) (k : A → M B) : M B :=
  let! r := m in
  match r with Ok a => k a | Err e => sret (Err e) end.

Definition authorize (metadata : Metadata) (ticket : string) : M Subject :=
  and_then (authenticate metadata) (λ subject,
    and_then (interpret ticket) (λ grant,
      let! outcome := decide_access subject (grant_policy grant) in
      match outcome with
      | Allow => sret (Ok subject)
      | Deny reason => sret (Err (PermissionDenied reason))
      end)).

Definition flight_do_get (metadata : Metadata) (ticket : string) : M Stream :=
  and_then (authorize metadata ticket) (λ subject, host_do_get subject ticket).

Definition flight_list_flights (metadata : Metadata) (expression : string) : M (list Info) :=
  and_then (authenticate metadata) (λ subject, host_list_flights subject expression).

Definition flight_get_flight_info (metadata : Metadata) (descriptor : Descriptor) : M Info :=
  and_then (authenticate metadata) (λ subject, host_get_flight_info subject descriptor).

Definition flight_do_put (metadata : Metadata) (upload : Upload) : M (list PutResult) :=
  and_then (authenticate metadata) (λ subject, host_do_put subject upload).

(** The other methods. *)
Definition flight_handshake : result Stream Status :=
  Err (Unimplemented "authenticate via bearer token in request metadata instead of handshake").
End FlightSkeleton.

(** ** [queryfabric-worker] *)

(** The worker serves one query; [shutdown] is the sender that is left, or that
    the mutex around it is poisoned. *)
Inductive Shutdown := Armed | Fired | ShutdownPoisoned.

Record WorkerFlightService := { worker_spec : IsolatedJobSpec; worker_shutdown : Shutdown }.

Definition WorkerFlightService_new (spec : IsolatedJobSpec) : WorkerFlightService :=
  {| worker_spec := spec; worker_shutdown := Armed |}.

Section Worker.
Context {Stream : Type} (ticket_is_utf8 : string → bool).

(** The executor is a function of the specification; its error is a text.  The
    boolean is that the shutdown is signalled. *)
Definition worker_do_get (execute : IsolatedJobSpec → result Stream string) (ticket : string)
    (self : WorkerFlightService) : result Stream Status * WorkerFlightService :=
  if negb (ticket_is_utf8 ticket) then (Err (InvalidArgument "ticket must be UTF-8 query hash"), self)
  else
    let spec_hash := pr_query_hash (bound_provenance (job_query (worker_spec self))) in
    if negb (String.eqb ticket spec_hash) then (Err (PermissionDenied "ticket hash mismatch"), self)
    else
      match execute (worker_spec self) with
      | Err e => (Err (InternalStatus ("execution failed: " +:+ e)), self)
      | Ok stream =>
          match worker_shutdown self with
          | ShutdownPoisoned => (Err (InternalStatus "worker shutdown mutex poisoned"), self)
          | Armed | Fired => (Ok stream, {| worker_spec := worker_spec self; worker_shutdown := Fired |})
          end
      end.
End Worker.

(** ** [queryfabric-flight-pool], by one thread at a time *)

Section Pool.
Context {K Channel ConnectError : Type} `{Countable K}.

Record FlightChannelPool := {
  channels : gmap K (Channel * N);
  connect_timeout_ms : N;
  request_timeout_ms : N
}.

Definition FlightChannelPool_new (connect_timeout : N) : FlightChannelPool :=
  {| channels := ∅; connect_timeout_ms := connect_timeout; request_timeout_ms := 300 * 1000 |}.

Definition with_request_timeout (connect_timeout request_timeout : N) : FlightChannelPool :=
  {| channels := ∅; connect_timeout_ms := connect_timeout; request_timeout_ms := request_timeout |}.

Definition set_channels (self : FlightChannelPool) (cs : gmap K (Channel * N)) : FlightChannelPool :=
  {| channels := cs; connect_timeout_ms := connect_timeout_ms self; request_timeout_ms := request_timeout_ms self |}.

Definition pool_is_empty (self : FlightChannelPool) : bool := bool_decide (channels self = ∅).

(** The connection is a parameter, which is given the URI and the timeouts;
    [None] is the panic on a text that is not a URI. *)
Definition get_client (connect : string → N → N → option (result Channel ConnectError)) (key : K) (endpoint : string)
    (tls : bool) (now : N) (self : FlightChannelPool) : option (result Channel ConnectError * FlightChannelPool) :=
  match channels self !! key with
  | Some (channel, _) => Some (Ok channel, set_channels self (<[key := (channel, now)]> (channels self)))
  | None =>
      let scheme := if tls then "https" else "http" in
      let uri := scheme +:+ "://" +:+ endpoint in
      match connect uri (connect_timeout_ms self) (request_timeout_ms self) with
      | None => None
      | Some (Err e) => Some (Err e, self)
      | Some (Ok channel) => Some (Ok channel, set_channels self (<[key := (channel, now)]> (channels self)))
      end
  end.

Definition remove_client (key : K) (self : FlightChannelPool) : FlightChannelPool :=
  set_channels self (delete key (channels self)).

(** The keys that are collected, then removed one by one. *)
Definition stale_keys (max_idle now : N) (cs : gmap K (Channel * N)) : list K :=
  omap (λ kv : K * (Channel * N), if (max_idle <? now - kv.2.2)%N then Some kv.1 else None) (map_to_list cs).

Definition reap_stale_connections (max_idle now : N) (self : FlightChannelPool) : N * FlightChannelPool :=
  let stale := stale_keys max_idle now (channels self) in
  (vec_len stale, set_channels self (List.fold_left (λ cs k, delete k cs) stale (channels self))).
End Pool.
Arguments FlightChannelPool K Channel {_ _}.

(** ** [queryfabric-flight-cache] *)

(** The hexadecimal text of an MD5 digest is a parameter. *)
Definition cache_path (md5_hex : string → string) (cache_dir query_key : string) : string :=
  cache_dir +:+ "/" +:+ query_key +:+ "_" +:+ String.substring 0 12 (md5_hex query_key) +:+ ".parquet".

(** ** Facts *)

(** How far a mode is from interactive. *)
Definition mode_rank (m : ExecutionRuntimeMode) : nat :=
  match m with RtInteractive => 0 | RtBatch => 1 | RtIsolated => 2 | RtFederated => 3 end.

Definition class_rank (c : QueryTimeoutClass) : nat := match c with Interactive => 0 | Batch => 1 | Export => 2 end.

(** A hint escalates: the mode is the greater of that of the estimate and that
    of the hint. *)
Lemma hints_escalate estimated limits hint :
  mode_rank (resolve_runtime_mode estimated limits hint)
  = Nat.max (mode_rank (runtime_mode_for_estimate estimated limits)) (default 0 (class_rank <$> hint)).
Proof.
  unfold resolve_runtime_mode. assert (runtime_mode_for_estimate estimated limits ≠ RtFederated) as Hf
    by (unfold runtime_mode_for_estimate; by repeat case_match).
  by destruct hint as [[]|], (runtime_mode_for_estimate estimated limits).
Qed.

(** More memory never gives a smaller mode, when the limits are ordered. *)
Lemma estimates_escalate e1 e2 limits :
  (ec_memory_bytes e1 ≤ ec_memory_bytes e2)%N → (interactive_byte_limit limits ≤ batch_byte_limit limits)%N →
  mode_rank (runtime_mode_for_estimate e1 limits) ≤ mode_rank (runtime_mode_for_estimate e2 limits).
Proof.
  intros He Hl. unfold runtime_mode_for_estimate.
  repeat match goal with |- context [(?a <? ?b)%N] => destruct (N.ltb_spec a b) end; simpl; lia.
Qed.

Section FlightFacts.
Context {World Metadata Stream Descriptor Info Upload PutResult : Type}
  `{!FlightHost World Metadata Stream Descriptor Info Upload PutResult}.

(** A stream comes from the handler, for a subject that was authenticated and
    allowed the policy of the ticket; in every other case the handler has not
    run. *)
Lemma flight_do_get_authorized metadata ticket w r w' :
  flight_do_get metadata ticket w = (r, w') →
  (∃ subject w1 grant w2 w3, authenticate metadata w = (Ok subject, w1) ∧ interpret ticket w1 = (Ok grant, w2)
    ∧ decide_access subject (grant_policy grant) w2 = (Allow, w3) ∧ host_do_get subject ticket w3 = (r, w'))
  ∨ (∃ e, r = Err e ∧ authorize metadata ticket w = (Err e, w')).
Proof.
  unfold flight_do_get, and_then, sbind. destruct (authorize metadata ticket w) as [[subject|e] w3] eqn:Ha.
  - intros H. left. revert Ha. unfold authorize, and_then, sbind, sret.
    destruct (authenticate metadata w) as [[s|] w1] eqn:E1; [|done].
    destruct (interpret ticket w1) as [[grant|] w2] eqn:E2; [|done].
    destruct (decide_access s (grant_policy grant) w2) as [[|] w3'] eqn:E3; intros [= -> ->]. eauto 10.
  - intros [= <- <-]. right. eauto.
Qed.
End FlightFacts.

(** Only the hash of its query opens the worker. *)
Lemma worker_serves_its_query {Stream} utf8 (execute : IsolatedJobSpec → result Stream string) ticket self stream self' :
  worker_do_get utf8 execute ticket self = (Ok stream, self') →
  ticket = pr_query_hash (bound_provenance (job_query (worker_spec self)))
  ∧ execute (worker_spec self) = Ok stream ∧ worker_shutdown self' = Fired.
Proof.
  unfold worker_do_get. destruct (negb (utf8 ticket)); [done|].
  destruct (String.eqb_spec ticket (pr_query_hash (bound_provenance (job_query (worker_spec self))))) as [->|]; [|done].
  simpl. destruct (execute (worker_spec self)); [|done]. destruct (worker_shutdown self); by intros [= -> <-].
Qed.

Section PoolFacts.
Context {K Channel ConnectError : Type} `{Countable K}.
Implicit Types (self : FlightChannelPool K Channel).

Lemma stale_keys_elem max_idle now (cs : gmap K (Channel * N)) k :
  k ∈ stale_keys max_idle now cs ↔ ∃ c last, cs !! k = Some (c, last) ∧ (max_idle < now - last)%N.
Proof.
  unfold stale_keys. rewrite list_elem_of_omap. split.
  - intros ([k' [c last]] & Hin & Hs). apply elem_of_map_to_list in Hin. simpl in Hs.
    destruct (N.ltb_spec max_idle (now - last)); [|done]. injection Hs as <-. eauto.
  - intros (c & last & Hk & Hl). exists (k, (c, last)). split; [by apply elem_of_map_to_list|]. simpl.
    by destruct (N.ltb_spec max_idle (now - last)); [|lia].
Qed.

Lemma delete_all_lookup ks (cs : gmap K (Channel * N)) k :
  List.fold_left (λ cs k, delete k cs) ks cs !! k = if bool_decide (k ∈ ks) then None else cs !! k.
Proof.
  revert cs. induction ks as [|x ks IH]; intros cs; [done|]. cbn [List.fold_left]. rewrite IH.
  destruct (bool_decide_reflect (k ∈ ks)) as [Hin|Hin], (bool_decide_reflect (k ∈ x :: ks)) as [Hin'|Hin']; try set_solver.
  - assert (k = x) as -> by set_solver. by rewrite lookup_delete_eq.
  - rewrite lookup_delete_ne; [done|]. set_solver.
Qed.

(** Reaping removes exactly the connections that have been idle for longer. *)
Lemma reaped_lookup max_idle now self k :
  channels (reap_stale_connections max_idle now self).2 !! k
  = channels self !! k ≫= λ c, if (max_idle <? now - c.2)%N then None else Some c.
Proof.
  unfold reap_stale_connections. simpl. rewrite delete_all_lookup.
  destruct (channels self !! k) as [[c last]|] eqn:Hk; simpl.
  - destruct (N.ltb_spec max_idle (now - last)) as [Hl|Hl].
    + rewrite bool_decide_eq_true_2; [done|]. apply stale_keys_elem. eauto.
    + rewrite bool_decide_eq_false_2; [done|]. rewrite stale_keys_elem. intros (? & ? & E & ?).
      rewrite Hk in E. injection E as -> ->. lia.
  - by case_bool_decide.
Qed.

(** A client that was handed out is not reaped until it has been idle again. *)
Lemma served_client_survives connect key endpoint tls now self (c : Channel) self' max_idle later :
  get_client (ConnectError:=ConnectError) connect key endpoint tls now self = Some (Ok c, self') →
  (later - now ≤ max_idle)%N →
  channels (reap_stale_connections max_idle later self').2 !! key = Some (c, now).
Proof.
  intros Hget Hidle. rewrite reaped_lookup.
  assert (channels self' !! key = Some (c, now)) as ->.
  { revert Hget. unfold get_client. destruct (channels self !! key) as [[c' last]|].
    - intros [= -> <-]. simpl. by rewrite lookup_insert_eq.
    - destruct (connect _ _ _) as [[c'|]|]; intros [=]; subst. simpl. by rewrite lookup_insert_eq. }
  simpl. by destruct (N.ltb_spec max_idle (later - now)); [lia|].
Qed.
End PoolFacts.
