(* ===== verification/Burst.v ===== *)
(** Isolated execution on Kubernetes: [queryfabric-runtime-k8s/src/]
    (job_spec.rs, storage.rs, lib.rs, stream.rs, cancel.rs, error.rs).

    Of the structures of the Kubernetes API the fields that the code sets or
    reads are kept.  The cluster, the clock, the cancellation token and the
    Flight client are the class [BurstCluster], whose operations change a world;
    [query_to_json] is [serde_json]'s text of a query. *)
From Stdlib Require Import Ascii.
From S2P Require Import Prelude BTreeMap Diagnostics Bound Suggest Runtime Syntax Behaviours.
Local Open Scope state_scope.

(** ** [storage.rs] *)

Inductive EnvValue := EnvText (value : string) | EnvSecret (secret_name secret_key : string).

Record EnvVar := { env_name : string; env_value : EnvValue }.

Definition env (name value : string) : EnvVar := {| env_name := name; env_value := EnvText value |}.

Inductive VolumeSource := EmptyDirVolume | ClaimVolume (claim_name : string) (read_only : bool).

Record Volume := { volume_name : string; volume_source : VolumeSource }.
Record VolumeMount := { mount_name : string; mount_path : string; mount_read_only : bool }.

Record StorageArtifacts := {
  artifact_env : list EnvVar;
  artifact_volumes : list Volume;
  artifact_mounts : list VolumeMount
}.

Definition StorageArtifacts_default : StorageArtifacts :=
  {| artifact_env := []; artifact_volumes := []; artifact_mounts := [] |}.

Definition object_store_format (format : ObjectStoreFormat) : string :=
  match format with OsParquet => "parquet" | OsArrow => "arrow" | OsCsv => "csv" end.

Definition object_store_artifacts (uri : string) (format : ObjectStoreFormat) : StorageArtifacts :=
  {| artifact_env := [env "SYNDB_STORAGE_MODE" "object-store"; env "SYNDB_OBJECT_STORE_URI" uri;
                      env "SYNDB_OBJECT_STORE_FORMAT" (object_store_format format)];
     artifact_volumes := []; artifact_mounts := [] |}.

(** An ASCII letter or digit. *)
Definition alphanumeric_char (c : N) : bool :=
  ((48 <=? c) && (c <=? 57) || (65 <=? c) && (c <=? 90) || (97 <=? c) && (c <=? 122))%N.

Definition dash : N := 45.

(** The loop over the characters in lower case. *)
Fixpoint sanitize_loop (cs : list N) (out : list N) (last_dash : bool) : list N :=
  match cs with
  | [] => out
  | ch :: cs =>
      if alphanumeric_char ch then sanitize_loop cs (out ++ [ch]) false
      else if negb last_dash then sanitize_loop cs (out ++ [dash]) true
      else sanitize_loop cs out last_dash
  end.

Fixpoint drop_dashes (cs : list N) : list N :=
  match cs with
  | c :: cs' => if (c =? dash)%N then drop_dashes cs' else cs
  | [] => []
  end.

(** [str::trim_matches]. *)
Definition trim_dashes (cs : list N) : list N := rev (drop_dashes (rev (drop_dashes cs))).

Definition ascii_string (cs : list N) : string := List.fold_right (λ c s, String (ascii_of_N c) s) "" cs.

Section Sanitize.
Context `{Unicode}.

Definition sanitize_dns_label (value : string) : string :=
  let out := sanitize_loop (lowercase_chars value) [] false in
  let trimmed := trim_dashes out in
  if is_empty trimmed then "volume" else ascii_string (take 45 trimmed).

Definition snapshot_clone_pvc_name (source_pvc snapshot_class : string) : string :=
  "syndb-snapshot-" +:+ sanitize_dns_label source_pvc +:+ "-" +:+ sanitize_dns_label snapshot_class.

(** The boolean is the feature [snapshot-clone]. *)
Definition snapshot_clone_artifacts (enabled : bool) (source_pvc snapshot_class : string)
    : result StorageArtifacts DriverError :=
  if negb enabled then Err (DSpawn "SnapshotClone not enabled; install with feature `snapshot-clone`")
  else
    let pvc_name := snapshot_clone_pvc_name source_pvc snapshot_class in
    Ok {| artifact_env := [env "SYNDB_STORAGE_MODE" "snapshot-clone"; env "SYNDB_SOURCE_PVC" source_pvc;
                           env "SYNDB_VOLUME_SNAPSHOT_CLASS" snapshot_class;
                           env "SYNDB_SNAPSHOT_CLONE_PVC" pvc_name];
          artifact_volumes := [{| volume_name := "clickhouse-data"; volume_source := ClaimVolume pvc_name true |}];
          artifact_mounts := [{| mount_name := "clickhouse-data"; mount_path := "/var/lib/clickhouse";
                                 mount_read_only := true |}] |}.

Definition storage_artifacts (snapshot_feature : bool) (storage : StorageAccessMode)
    : result StorageArtifacts DriverError :=
  match storage with
  | ReplicatedReadOnly => Ok StorageArtifacts_default
  | ObjectStore uri format => Ok (object_store_artifacts uri format)
  | SnapshotClone source_pvc snapshot_class => snapshot_clone_artifacts snapshot_feature source_pvc snapshot_class
  end.

(** ** [job_spec.rs] *)

Definition MANAGED_BY : string := "queryfabric-runtime-k8s".
Definition LABEL_STORAGE_MODE : string := "queryfabric.io/storage-mode".
Definition LABEL_QUERY_HASH : string := "queryfabric.io/query-hash".
Definition LABEL_ISOLATED_JOB : string := "queryfabric.io/isolated-job".
Definition JOB_NAME_PREFIX : string := "qf-isolated-".
Definition WORKER_CONTAINER : string := "burst-worker".

Record K8sDriverConfig := {
  worker_image : string;
  service_account : string;
  flight_port : N;
  job_ttl_seconds_after_finished : Z;
  pod_template_labels : BTreeMap string string;
  default_tolerations : list string;
  clickhouse_database : string;
  clickhouse_username : string;
  clickhouse_password_secret_name : string;
  clickhouse_password_secret_key : string;
  replicated_clickhouse_host : string;
  replicated_clickhouse_native_port : N
}.

Record Probe := { probe_port : N; period_seconds : N; failure_threshold : N }.

Record Container := {
  container_name : string;
  container_image : string;
  container_env : list EnvVar;
  container_port : N;
  readiness_probe : Probe;
  liveness_probe : Probe;
  resource_requests : BTreeMap string string;
  resource_limits : BTreeMap string string;
  volume_mounts : list VolumeMount
}.

Record Job := {
  job_name : string;
  job_labels : BTreeMap string string;
  job_annotations : BTreeMap string string;
  ttl_seconds_after_finished : Z;
  backoff_limit : Z;
  active_deadline_seconds : Z;
  template_labels : BTreeMap string string;
  template_annotations : BTreeMap string string;
  pod_service_account : string;
  restart_policy : string;
  pod_container : Container;
  pod_tolerations : option (list string);
  pod_volumes : list Volume
}.

Definition storage_mode (storage : StorageAccessMode) : string :=
  match storage with
  | ReplicatedReadOnly => "replicated-read-only"
  | SnapshotClone _ _ => "snapshot-clone"
  | ObjectStore _ _ => "object-store"
  end.

Definition flight_probe (port : N) : Probe := {| probe_port := port; period_seconds := 2; failure_threshold := 30 |}.

Definition resources (request : ResourceRequest) : BTreeMap string string * BTreeMap string string :=
  (bt_from_list [("cpu", cpu_request request); ("memory", memory_request request)],
   bt_from_list [("cpu", cpu_limit request); ("memory", memory_limit request)]).

Definition secret_env (name secret_name secret_key : string) : EnvVar :=
  {| env_name := name; env_value := EnvSecret secret_name secret_key |}.

Definition base_env (query_to_json : BoundQuery → result string string) (spec : IsolatedJobSpec)
    (config : K8sDriverConfig) : result (list EnvVar) DriverError :=
  match query_to_json (job_query spec) with
  | Err error => Err (DSpawn ("serialize isolated query: " +:+ error))
  | Ok query_json =>
      Ok [env "SYNDB_ISOLATED_QUERY_JSON" query_json; env "SYNDB_FLIGHT_PORT" (show_N (flight_port config));
          env "SYNDB_STORAGE_MODE" (storage_mode (job_storage spec));
          env "SYNDB_REPLICATED_CLICKHOUSE_DATABASE" (clickhouse_database config);
          env "SYNDB_REPLICATED_CLICKHOUSE_USERNAME" (clickhouse_username config);
          secret_env "SYNDB_REPLICATED_CLICKHOUSE_PASSWORD" (clickhouse_password_secret_name config)
            (clickhouse_password_secret_key config);
          env "SYNDB_REPLICATED_CLICKHOUSE_HOST" (replicated_clickhouse_host config);
          env "SYNDB_REPLICATED_CLICKHOUSE_NATIVE_PORT" (show_N (replicated_clickhouse_native_port config))]
  end.

Definition labels_for_job (name : string) (config : K8sDriverConfig) : BTreeMap string string :=
  let labels := pod_template_labels config in
  let labels := bt_insert "app.kubernetes.io/name" WORKER_CONTAINER labels in
  let labels := bt_insert "app.kubernetes.io/managed-by" MANAGED_BY labels in
  bt_insert LABEL_ISOLATED_JOB name labels.

(** [as_secs] of the timeout, cast to 64 signed bits. *)
Definition deadline_seconds (timeout_ms : N) : Z :=
  let secs := Z.of_N (timeout_ms / 1000) in
  if (secs <? 2 ^ 63)%Z then secs else (secs - 2 ^ 64)%Z.

Definition build_job (snapshot_feature : bool) (query_to_json : BoundQuery → result string string) (name : string)
    (spec : IsolatedJobSpec) (config : K8sDriverConfig) : result Job DriverError :=
  rbind (storage_artifacts snapshot_feature (job_storage spec)) (λ storage,
  let labels := labels_for_job name config in
  rbind (base_env query_to_json spec config) (λ env_vars,
  let env_vars := env_vars ++ artifact_env storage in
  let worker :=
    {| container_name := WORKER_CONTAINER; container_image := worker_image config; container_env := env_vars;
       container_port := flight_port config; readiness_probe := flight_probe (flight_port config);
       liveness_probe := flight_probe (flight_port config);
       resource_requests := (resources (job_resources spec)).1;
       resource_limits := (resources (job_resources spec)).2;
       volume_mounts := {| mount_name := "tmp"; mount_path := "/tmp"; mount_read_only := false |}
                        :: artifact_mounts storage |} in
  Ok {| job_name := name; job_labels := labels;
        job_annotations := bt_from_list [(LABEL_STORAGE_MODE, storage_mode (job_storage spec))];
        ttl_seconds_after_finished := job_ttl_seconds_after_finished config; backoff_limit := 0;
        active_deadline_seconds := deadline_seconds (job_timeout_ms spec);
        template_labels := labels;
        template_annotations :=
          bt_from_list [(LABEL_QUERY_HASH, pr_query_hash (bound_provenance (job_query spec)))];
        pod_service_account := service_account config; restart_policy := "Never"; pod_container := worker;
        pod_tolerations := if is_empty (default_tolerations config) then None else Some (default_tolerations config);
        pod_volumes := {| volume_name := "tmp"; volume_source := EmptyDirVolume |} :: artifact_volumes storage |})).
End Sanitize.

(** Twelve characters of the hash. *)
Definition job_name_for (spec : IsolatedJobSpec) : string :=
  JOB_NAME_PREFIX +:+ String.substring 0 12 (pr_query_hash (bound_provenance (job_query spec))).

Definition job_label_selector (name : string) : string :=
  "app.kubernetes.io/managed-by=" +:+ MANAGED_BY +:+ "," +:+ LABEL_ISOLATED_JOB +:+ "=" +:+ name.

(** ** [stream.rs] *)

Record PodStatus := { pod_phase : option string; pod_ip : option string; pod_conditions : option (list (string * string)) }.
Record Pod := { pod_name : option string; pod_status : option PodStatus }.

Definition pod_is_ready (pod : Pod) : bool :=
  match pod_status pod ≫= pod_conditions with
  | Some conditions => existsb (λ c, String.eqb c.1 "Ready" && String.eqb c.2 "True") conditions
  | None => false
  end.

Definition pod_is_failed (pod : Pod) : bool :=
  match pod_status pod ≫= pod_phase with Some phase => String.eqb phase "Failed" | None => false end.

Definition pod_failure_message (pod : Pod) : string :=
  default "<unknown isolated worker pod>" (pod_name pod) +:+ " entered phase "
  +:+ default "Failed" (pod_status pod ≫= pod_phase).

Definition pod_flight_endpoint (pod : Pod) (port : N) : result string DriverError :=
  match pod_status pod with
  | None => Err (DSpawn "Ready worker pod is missing status")
  | Some status =>
      match pod_ip status with
      | None => Err (DSpawn "Ready worker pod is missing pod IP")
      | Some ip => Ok (ip +:+ ":" +:+ show_N port)
      end
  end.

(** The loop over the pods of one listing. *)
Fixpoint inspect_pods (pods : list Pod) : option (result Pod DriverError) :=
  match pods with
  | [] => None
  | pod :: pods =>
      if pod_is_failed pod then Some (Err (DWorkerFailure 1 (pod_failure_message pod)))
      else if pod_is_ready pod then Some (Ok pod)
      else inspect_pods pods
  end.

Class BurstCluster (World Stream : Type) := {
  cancelled : state World bool;
  clock_ms : state World N;
  create_job : Job → state World (result unit string);
  (** [spawn_cancel_delete_task] and the clean-up of a stream: tasks in the
      background. *)
  watch_cancel : string → state World unit;
  list_pods : string → state World (result (list Pod) string);
  (** The race of the token and a timer: whether the token won. *)
  sleep_ms : N → state World bool;
  connect_flight : string → state World (result unit DriverError);
  (** The race of the token and the request. *)
  flight_get : string → string → state World (result Stream DriverError)
}.

Section Driver.
Context {World Stream : Type} `{!BurstCluster World Stream}.
#[local] Abbreviation M A := (state World (result A DriverError)).

Definition try_driver {A B} (m : M A) (k : A → M B) : M B :=
  let! r := m in
  match r with Ok a => k a | Err e => sret (Err e) end.

(** The loop; [None] when the fuel runs out. *)
Fixpoint wait_loop (fuel : nat) (selector : string) (deadline : N) : state World (option (result Pod DriverError)) :=
  match fuel with
  | O => sret None
  | S fuel =>
      let! is_cancelled := cancelled in
      if is_cancelled then sret (Some (Err DCancelled))
      else
        let! now := clock_ms in
        if (deadline <=? now)%N then sret (Some (Err DTimeout))
        else
          let! listed := list_pods selector in
          match listed with
          | Err error => sret (Some (Err (DSpawn ("list isolated worker pods: " +:+ error))))
          | Ok pods =>
              match inspect_pods pods with
              | Some found => sret (Some found)
              | None =>
                  let! won := sleep_ms 500 in
                  if won then sret (Some (Err DCancelled)) else wait_loop fuel selector deadline
              end
          end
  end.

(** Rounds that are enough: one for each 500 milliseconds, and the last. *)
Definition wait_fuel (timeout_ms : N) : nat := S (S (N.to_nat (timeout_ms / 500))).

Definition wait_for_ready_pod (name : string) (timeout_ms : N) : state World (option (result Pod DriverError)) :=
  let! start := clock_ms in
  wait_loop (wait_fuel timeout_ms) (job_label_selector name) (start + timeout_ms).

Definition connect_job_stream (query_to_json : BoundQuery → result string string) (name : string)
    (spec : IsolatedJobSpec) (port : N) : state World (option (result Stream DriverError)) :=
  let! waited := wait_for_ready_pod name (job_timeout_ms spec) in
  match waited with
  | None => sret None
  | Some pod =>
      let! r :=
        try_driver (sret pod) (λ pod,
        try_driver (sret (pod_flight_endpoint pod port)) (λ endpoint,
        try_driver (connect_flight endpoint) (λ _connected,
        match query_to_json (job_query spec) with
        | Err error =>
            sret (Err (DSpawn ("serialize isolated worker Flight ticket from query spec: " +:+ error)))
        | Ok ticket => flight_get endpoint ticket
        end))) in
      sret (Some r)
  end.

(** [IsolatedExecutionDriver::spawn].  A stream it returns is a [CleanupStream]
    of the job. *)
Definition spawn `{Unicode} (snapshot_feature has_client : bool) (query_to_json : BoundQuery → result string string)
    (config : K8sDriverConfig) (spec : IsolatedJobSpec) : state World (option (result Stream DriverError)) :=
  let! is_cancelled := cancelled in
  if is_cancelled then sret (Some (Err DCancelled))
  else if negb has_client then sret (Some (Err (DSpawn "Kubernetes client is not configured")))
  else
    let name := job_name_for spec in
    match build_job snapshot_feature query_to_json name spec config with
    | Err e => sret (Some (Err e))
    | Ok job =>
        let! created := create_job job in
        match created with
        | Err error => sret (Some (Err (DSpawn ("create isolated Job " +:+ name +:+ ": " +:+ error))))
        | Ok _ =>
            let! _watching := watch_cancel name in
            connect_job_stream query_to_json name spec (flight_port config)
        end
    end.
End Driver.

(** ** [cancel.rs] *)

(** A job that is gone counts as deleted; an API error is its code and text. *)
Inductive DeleteOutcome := Deleted | ApiFailure (code : N) (text : string) | OtherFailure (text : string).

Definition delete_job_background (outcome : DeleteOutcome) : result unit DeleteOutcome :=
  match outcome with
  | Deleted => Ok tt
  | ApiFailure code text => if (code =? 404)%N then Ok tt else Err outcome
  | OtherFailure _ => Err outcome
  end.

(** The stream around the batches: the handle to the jobs is taken at the first
    clean-up. *)
Record CleanupStream := { cleanup_pending : bool; cleanup_job : string }.

Definition schedule_cleanup (self : CleanupStream) : option string * CleanupStream :=
  if cleanup_pending self then (Some (cleanup_job self), {| cleanup_pending := false; cleanup_job := cleanup_job self |})
  else (None, self).

Inductive Poll (A : Type) := Pending | ReadyItem (a : A) | ReadyEnd.
Arguments Pending {A}. Arguments ReadyItem {A}. Arguments ReadyEnd {A}.

(** What is polled, and the job that is deleted. *)
Definition cleanup_poll {A} (next : Poll A) (self : CleanupStream) : Poll A * option string * CleanupStream :=
  match next with
  | ReadyEnd => let '(deleted, self) := schedule_cleanup self in (next, deleted, self)
  | _ => (next, None, self)
  end.

Definition cleanup_drop (self : CleanupStream) : option string := (schedule_cleanup self).1.

(** Facts of [Burst]: waiting ends, the selector finds the pods of the job, names
    of claims, and where the driver and the worker disagree. *)

(** ** Waiting *)

(** The clock of a world does not go back, and sleeping takes the time it is
    asked for. *)
Class MonotoneClock (World Stream : Type) `{!BurstCluster World Stream} := {
  time : World → N;
  cancelled_time : ∀ w, (time w ≤ time (cancelled w).2)%N;
  clock_reads : ∀ w, (clock_ms w).1 = time w ∧ (time w ≤ time (clock_ms w).2)%N;
  list_time : ∀ selector w, (time w ≤ time (list_pods selector w).2)%N;
  sleep_time : ∀ n w, (sleep_ms n w).1 = false → (time w + n ≤ time (sleep_ms n w).2)%N
}.

Section Waiting.
Context {World Stream : Type} `{!BurstCluster World Stream} `{!MonotoneClock World Stream}.

Lemma wait_loop_returns fuel selector deadline : ∀ w,
  (deadline ≤ time w + 500 * N.of_nat fuel)%N → ∃ r, (wait_loop (S fuel) selector deadline w).1 = Some r.
Proof.
  induction fuel as [|fuel IH]; intros w Hfuel; cbn [wait_loop]; unfold sbind, sret at 1.
  all: pose proof (cancelled_time w) as H1; destruct (cancelled w) as [[] w1]; [by eauto|]; simpl in H1.
  all: pose proof (clock_reads w1) as [H2 H3]; destruct (clock_ms w1) as [now w2]; simpl in H2, H3; subst now.
  all: destruct (N.leb_spec deadline (time w1)); [by eauto|]. { lia. }
  pose proof (list_time selector w2) as H4. destruct (list_pods selector w2) as [[pods|e] w3]; [|by eauto]. simpl in H4.
  destruct (inspect_pods pods); [by eauto|].
  pose proof (sleep_time 500 w3) as H5. destruct (sleep_ms 500 w3) as [[] w4]; [by eauto|]. simpl in H5.
  apply IH. specialize (H5 eq_refl). lia.
Qed.

Lemma waiting_returns name timeout_ms w : ∃ r, (wait_for_ready_pod name timeout_ms w).1 = Some r.
Proof.
  unfold wait_for_ready_pod, sbind. pose proof (clock_reads w) as [H1 H2].
  destruct (clock_ms w) as [start w1]; simpl in H1, H2; subst start.
  apply wait_loop_returns. pose proof (N.div_mod timeout_ms 500 ltac:(done)) as Hdiv.
  pose proof (N.mod_lt timeout_ms 500 ltac:(done)). lia.
Qed.

Lemma connect_returns query_to_json name spec port w :
  ∃ r, (connect_job_stream query_to_json name spec port w).1 = Some r.
Proof.
  unfold connect_job_stream, sbind. destruct (waiting_returns name (job_timeout_ms spec) w) as [r Hr].
  destruct (wait_for_ready_pod name (job_timeout_ms spec) w) as [[waited|] w1]; [|done].
  destruct (try_driver _ _ w1). by eexists.
Qed.
(** C18: termination.  The driver returns: with one round for each half second of
    the timeout and two more, the loop that waits for the pod of the job comes
    to a result, whatever the pods are and whenever the token is cancelled. *)
Theorem spawn_returns `{Uni : !Unicode} snapshot_feature has_client query_to_json config spec (w : World) :
  ∃ r, (spawn snapshot_feature has_client query_to_json config spec w).1 = Some r.
Proof.
  unfold spawn, sbind, sret. destruct (cancelled w) as [[] w1]; [by eexists|].
  destruct has_client; [simpl|by eexists]. destruct (build_job _ _ _ _ _) as [job|]; [|by eexists].
  destruct (create_job job w1) as [[[]|] w2]; [|by eexists]. destruct (watch_cancel _ w2). apply connect_returns.
Qed.
End Waiting.

(** ** The manifest *)

(** The labels the selector asks for are on the pod, whatever the labels of the
    configuration are. *)
Lemma selector_finds_the_pods `{Uni : !Unicode} snapshot_feature query_to_json name spec config job :
  build_job snapshot_feature query_to_json name spec config = Ok job →
  bt_get "app.kubernetes.io/managed-by" (template_labels job) = Some MANAGED_BY
  ∧ bt_get LABEL_ISOLATED_JOB (template_labels job) = Some name
  ∧ job_label_selector name
    = string_join "," ["app.kubernetes.io/managed-by=" +:+ MANAGED_BY; LABEL_ISOLATED_JOB +:+ "=" +:+ name].
Proof.
  unfold build_job. rewrite rbind_Ok. intros (storage & _ & H). rewrite rbind_Ok in H. destruct H as (vars & _ & [= <-]).
  simpl. unfold labels_for_job. rewrite bt_get_insert_eq, bt_get_insert_ne, bt_get_insert_eq by done.
  split_and!; [done..|]. unfold job_label_selector. by rewrite !string_app_assoc.
Qed.

(** The password is never a text of the manifest, and the variables of one name
    agree: the storage mode is set twice. *)
Lemma password_is_a_secret `{Uni : !Unicode} snapshot_feature query_to_json name spec config job :
  build_job snapshot_feature query_to_json name spec config = Ok job →
  (∀ v, v ∈ container_env (pod_container job) → env_name v = "SYNDB_REPLICATED_CLICKHOUSE_PASSWORD" →
        env_value v = EnvSecret (clickhouse_password_secret_name config) (clickhouse_password_secret_key config))
  ∧ (∀ v, v ∈ container_env (pod_container job) → env_name v = "SYNDB_STORAGE_MODE" →
        env_value v = EnvText (storage_mode (job_storage spec))).
Proof.
  unfold build_job. rewrite rbind_Ok. intros (storage & Hs & H). rewrite rbind_Ok in H. destruct H as (vars & Hv & [= <-]).
  cbn [pod_container container_env]. unfold base_env in Hv. destruct (query_to_json _); [|done]. injection Hv as <-.
  split; intros v; rewrite elem_of_app, !elem_of_cons; intros Hin Hname; destruct_or! Hin; subst; try done.
  all: try (by apply elem_of_nil in Hin).
  all: destruct (job_storage spec) as [|pvc class|uri format]; simpl in Hs.
  all: try (unfold snapshot_clone_artifacts in Hs; destruct snapshot_feature; [|done]; cbn [negb] in Hs).
  all: injection Hs as <-; cbn [artifact_env StorageArtifacts_default object_store_artifacts] in Hin;
    rewrite ?elem_of_cons in Hin; destruct_or? Hin; subst; try done; by apply elem_of_nil in Hin.
Qed.

(** A stream deletes its job once, at its end or when it is dropped. *)
Lemma cleanup_once {A} job :
  let new := {| cleanup_pending := true; cleanup_job := job |} in
  cleanup_drop new = Some job
  ∧ (cleanup_poll (@ReadyEnd A) new).1.2 = Some job
  ∧ cleanup_drop (cleanup_poll (@ReadyEnd A) new).2 = None
  ∧ cleanup_poll (@Pending A) new = (Pending, None, new).
Proof. done. Qed.

(** ** Driver and worker *)

(** The driver asks the worker with the JSON of the query; the worker serves the
    hash of the query: a driver's ticket is refused. *)
Lemma driver_ticket_is_refused {Stream} utf8 (execute : IsolatedJobSpec → result Stream string) spec json shutdown :
  str_starts_with "{" json = true → str_starts_with "{" (pr_query_hash (bound_provenance (job_query spec))) = false →
  utf8 json = true →
  (worker_do_get utf8 execute json {| worker_spec := spec; worker_shutdown := shutdown |}).1
  = Err (PermissionDenied "ticket hash mismatch").
Proof.
  intros Hj Hh Hu. unfold worker_do_get. rewrite Hu. cbn [negb worker_spec].
  destruct (String.eqb_spec json (pr_query_hash (bound_provenance (job_query spec)))) as [->|]; [|done].
  by rewrite Hj in Hh.
Qed.

(** ** Names of claims *)

Section Labels.
Context `{Uni : !Unicode}.

Definition label_char (c : N) : Prop := alphanumeric_char c = true ∨ c = dash.

Lemma sanitize_loop_chars cs : ∀ out last_dash,
  Forall label_char out → Forall label_char (sanitize_loop cs out last_dash).
Proof.
  induction cs as [|ch cs IH]; intros out last_dash Hout; [done|]. cbn [sanitize_loop].
  destruct (alphanumeric_char ch) eqn:E; [|destruct last_dash]; simpl; apply IH; try done.
  - apply Forall_app. split; [done|]. constructor; [by left|done].
  - apply Forall_app. split; [done|]. constructor; [by right|done].
Qed.

Lemma drop_dashes_suffix cs : ∃ ds, cs = ds ++ drop_dashes cs.
Proof.
  induction cs as [|c cs [ds IH]]; [by exists []|]. simpl. destruct (c =? dash)%N; [|by exists []].
  exists (c :: ds). by rewrite IH at 1.
Qed.

Lemma drop_dashes_first cs c rest : drop_dashes cs = c :: rest → c ≠ dash.
Proof. induction cs as [|d cs IH]; [done|]. simpl. destruct (N.eqb_spec d dash); [done|]. by intros [= <- <-]. Qed.

(** What is trimmed has no dash at either end. *)
Lemma trim_dashes_spec cs : Forall label_char cs →
  Forall label_char (trim_dashes cs) ∧ (∀ c rest, trim_dashes cs = c :: rest → c ≠ dash).
Proof.
  intros Hcs. unfold trim_dashes. destruct (drop_dashes_suffix cs) as [ds Hds].
  destruct (drop_dashes_suffix (rev (drop_dashes cs))) as [es Hes].
  assert (drop_dashes cs = rev (drop_dashes (rev (drop_dashes cs))) ++ rev es) as Hsplit.
  { rewrite <- rev_app_distr, <- Hes. by rewrite rev_involutive. }
  split.
  - rewrite Hds, Hsplit, !Forall_app in Hcs. apply Hcs.
  - intros c rest E. rewrite E in Hsplit. by apply (drop_dashes_first cs c (rest ++ rev es)).
Qed.

Lemma ascii_string_length cs : String.length (ascii_string cs) = length cs.
Proof. induction cs as [|c cs IH]; [done|]. simpl. by rewrite IH. Qed.

(** A label has between 1 and 45 characters, letters, digits and dashes, and does
    not start with a dash. *)
Lemma sanitized_label value :
  0 < String.length (sanitize_dns_label value) ≤ 45
  ∧ (sanitize_dns_label value = "volume"
     ∨ ∃ c cs, sanitize_dns_label value = ascii_string (c :: cs) ∧ Forall label_char (c :: cs) ∧ c ≠ dash).
Proof.
  unfold sanitize_dns_label.
  destruct (trim_dashes_spec (sanitize_loop (lowercase_chars value) [] false)) as [Hc Hf];
    [by apply sanitize_loop_chars|].
  destruct (trim_dashes _) as [|c cs]; [split; [simpl; lia|by left]|]. cbn [is_empty].
  rewrite ascii_string_length, length_take. split; [cbn [length]; lia|]. right. exists c, (take 44 cs). split_and!; [done| |by eapply Hf].
  apply Forall_cons in Hc as [? ?]. constructor; [done|]. by apply Forall_take.
Qed.
End Labels.

#[local] Existing Instance ascii_unicode.
#[local] Existing Instance text_hash.

(** The cut at 45 characters can leave a dash at the end, where the name of a
    claim must have a letter or digit. *)
Example claim_name_ends_with_a_dash :
  snapshot_clone_pvc_name "data" ("class-0123456789-0123456789-0123456789-01234" +:+ "_tail")
  = "syndb-snapshot-data-class-0123456789-0123456789-0123456789-01234-".
Proof. vm_compute. reflexivity. Qed.

(** ** A cluster *)

(** A cluster with the same pods at all times: the clock, the jobs, the pods and
    what a request gives. *)
Record Script := { script_now : N; script_jobs : list string; script_pods : list Pod;
                   script_stream : result string DriverError }.

#[local] Instance scripted : BurstCluster Script string :=
  {| cancelled := λ w, (false, w);
     clock_ms := λ w, (script_now w, w);
     create_job := λ job w,
       if bool_decide (job_name job ∈ script_jobs w) then (Err "AlreadyExists", w)
       else (Ok tt, {| script_now := script_now w; script_jobs := job_name job :: script_jobs w;
                       script_pods := script_pods w; script_stream := script_stream w |});
     watch_cancel := λ _ w, (tt, w);
     list_pods := λ _ w, (Ok (script_pods w), w);
     sleep_ms := λ n w, (false, {| script_now := script_now w + n; script_jobs := script_jobs w;
                                   script_pods := script_pods w; script_stream := script_stream w |});
     connect_flight := λ _ w, (Ok tt, w);
     flight_get := λ _ _ w, (script_stream w, w) |}.

#[local] Instance scripted_clock : MonotoneClock Script string.
Proof.
  refine {| time := script_now |}; intros; simpl; try lia; try (split; [done|lia]).
Defined.

Definition sample_spec : IsolatedJobSpec :=
  {| job_query := BoundQuery_new (ParsedQuery_new "sql" "SELECT 1" "SELECT 1"); job_storage := ReplicatedReadOnly;
     job_resources := {| cpu_request := "1"; memory_request := "1Gi"; cpu_limit := "1"; memory_limit := "1Gi" |};
     job_timeout_ms := 1200 |}.

Definition sample_config : K8sDriverConfig :=
  {| worker_image := "worker"; service_account := "burst"; flight_port := 8815; job_ttl_seconds_after_finished := 60;
     pod_template_labels := []; default_tolerations := []; clickhouse_database := "db"; clickhouse_username := "u";
     clickhouse_password_secret_name := "s"; clickhouse_password_secret_key := "k";
     replicated_clickhouse_host := "h"; replicated_clickhouse_native_port := 9000 |}.

Definition to_json (q : BoundQuery) : result string string := Ok "{}".

Definition failing_pod : Pod :=
  {| pod_name := Some "w"; pod_status := Some {| pod_phase := Some "Failed"; pod_ip := None; pod_conditions := None |} |}.

Definition with_pods (pods : list Pod) : Script :=
  {| script_now := 0; script_jobs := []; script_pods := pods; script_stream := Ok "rows" |}.

Lemma spawn_returns_witness :
  ∃ r, (spawn true true to_json sample_config sample_spec (with_pods [])).1 = Some r.
Proof. exact (spawn_returns true true to_json sample_config sample_spec (with_pods [])). Defined.

(** Without a pod the driver waits until the timeout. *)
Example no_pod_times_out :
  (spawn true true to_json sample_config sample_spec (with_pods [])).1 = Some (Err DTimeout).
Proof. vm_compute. reflexivity. Qed.

(** When the worker fails, or the wait times out, the job is not deleted; the
    same query is refused as long as it is there. *)
Example failed_job_is_left_behind :
  let '(first, w) := spawn true true to_json sample_config sample_spec (with_pods [failing_pod]) in
  first = Some (Err (DWorkerFailure 1 "w entered phase Failed"))
  ∧ script_jobs w = [job_name_for sample_spec]
  ∧ (spawn true true to_json sample_config sample_spec w).1
    = Some (Err (DSpawn ("create isolated Job " +:+ job_name_for sample_spec +:+ ": AlreadyExists"))).
Proof. vm_compute. done. Qed.
