(* ===== verification/ClickHouseDriver.v ===== *)
(** The ClickHouse client and the runtime over it
    ([queryfabric-adapter-clickhouse/src/driver.rs], [runtime.rs]).

    The HTTP client, URLs and Arrow are third-party code: classes
    [ClickHouseHttp], [UrlCrate] and [ArrowCrate].  Logging is left out, except
    for what is made of the texts that are logged. *)
From Stdlib Require Import Ascii.
From S2P Require Import Prelude Types Diagnostics Bound Catalog Suggest Cost Render SqlText RenderText Adapters ClickHouse Runtime.
Local Open Scope result_scope.

(** ** Configuration *)

Record ClickHouseConfig := {
  cfg_host : string;
  fallback_hosts : list string;
  cfg_port : N;
  username : string;
  cfg_password : string;
  cfg_database : string;
  secure : bool
}.

Definition ClickHouseConfig_default : ClickHouseConfig :=
  {| cfg_host := "localhost"; fallback_hosts := []; cfg_port := 8123; username := "default"; cfg_password := "";
     cfg_database := "default"; secure := false |}.

Definition clickhouse_url (scheme host : string) (port : N) : string :=
  scheme +:+ "://" +:+ host +:+ ":" +:+ show_N port.

Definition config_url (self : ClickHouseConfig) : string :=
  let scheme := if secure self then "https" else "http" in
  scheme +:+ "://" +:+ cfg_host self +:+ ":" +:+ show_N (cfg_port self).

(** An error of the HTTP client. *)
Record SendError := {
  se_status : option N;
  se_is_body : bool;
  se_is_decode : bool;
  se_text : string
}.

(** The errors of the [clickhouse] crate and of its serializer are never made
    by this module. *)
Inductive ClickHouseError :=
| ChClient (message : string)
| ChInvalidSchema (message : string)
| ChInvalidIdentifier (message : string)
| ChHttp (error : SendError)
| ChArrow (message : string)
| ChSerialization (message : string)
| ChOther (message : string).

Definition clickhouse_error_text (e : ClickHouseError) : string :=
  match e with
  | ChClient m => "ClickHouse client error: " +:+ m
  | ChInvalidSchema m => "Invalid schema: " +:+ m
  | ChInvalidIdentifier m => "Invalid identifier: " +:+ m
  | ChHttp e => "HTTP request failed: " +:+ se_text e
  | ChArrow m => "Arrow error: " +:+ m
  | ChSerialization m => "Serialization error: " +:+ m
  | ChOther m => m
  end.

Record DynamicClient := {
  base_url : string;
  fallback_base_urls : list string;
  user : string;
  password : string;
  database : string
}.

Definition from_config (config : ClickHouseConfig) : DynamicClient :=
  let scheme := if secure config then "https" else "http" in
  let base := clickhouse_url scheme (cfg_host config) (cfg_port config) in
  {| base_url := base;
     fallback_base_urls :=
       List.filter (λ url, negb (String.eqb url base))
         (List.map (λ host, clickhouse_url scheme host (cfg_port config))
            (List.filter (λ host, negb (String.eqb host "")) (List.map trim (fallback_hosts config))));
     user := username config; password := cfg_password config; database := cfg_database config |}.

(** ** Table names *)

Definition backtick : ascii := "`"%char.

(** An ASCII letter or underscore, then these, digits and dollars. *)
Definition simple_segment (segment : string) : bool :=
  match bytes segment with
  | [] => false
  | c :: cs =>
      (is_char "_"%char c || is_ascii_alphabetic c)
      && forallb (λ c, is_char "_"%char c || is_char "$"%char c || is_ascii_alphanumeric c) cs
  end.

Definition render_segment (segment : string) : string :=
  if simple_segment segment then segment
  else char_text backtick +:+ double_char backtick segment +:+ char_text backtick.

Definition render_table_identifier (table_fqn : string) : result string ClickHouseError :=
  if String.eqb table_fqn "" || existsb is_control (chars table_fqn) then
    Err (ChInvalidIdentifier "table names must be non-empty and contain no control characters")
  else
    let segments := split_char "."%char table_fqn in
    if existsb (λ segment, String.eqb segment "") segments then
      Err (ChInvalidIdentifier "qualified table names cannot contain empty segments")
    else Ok (string_join "." (List.map render_segment segments)).

(** ** The third-party crates *)

Record HttpResponse := {
  resp_status : N;
  resp_text : result string SendError;
  resp_bytes : result string SendError;
  (** [bytes_stream]. *)
  resp_chunks : list (result string SendError)
}.

Class ClickHouseHttp (World : Type) := {
  (** A POST: the URL, the user and the password, the content type if it is
      set, and the body. *)
  http_post : string → string → string → option string → string → state World (result HttpResponse SendError);
  (** [Display] of a status. *)
  status_text : N → string
}.

Class UrlCrate := {
  Url : Type;
  url_parse : string → option Url;
  append_pair : string → string → Url → Url;
  without_user : Url → Url;
  without_password : Url → Url;
  without_query : Url → Url;
  without_fragment : Url → Url;
  url_text : Url → string
}.

Inductive ArrowType := Utf8View | BinaryView | ArrowUtf8 | ArrowBinary | ArrowOther (name : string).

#[export] Instance ArrowType_eq_dec : EqDecision ArrowType.
Proof. solve_decision. Defined.

Record ArrowField := { af_name : string; af_type : ArrowType; af_nullable : bool }.

Class ArrowCrate := {
  Array : Type;
  (** [cast]. *)
  array_cast : Array → ArrowType → result Array string;
  (** The test of [RecordBatch::try_new]. *)
  batch_fits : list ArrowField → list Array → result unit string;
  (** [StreamWriter] on several batches, and [StreamReader] on a whole body. *)
  ipc_write : list ArrowField → list (list Array) → result string string;
  ipc_read : string → result (list (list ArrowField * list Array)) string;
  (** [StreamDecoder]: a batch, if it is complete, and what is left of the
      buffer. *)
  Decoder : Type;
  new_decoder : Decoder;
  decode : Decoder → string → result (option (list ArrowField * list Array) * string) string * Decoder;
  finish : Decoder → result unit string
}.

Record RecordBatch `{Arrow : !ArrowCrate} := { batch_schema : list ArrowField; batch_columns : list Array }.

Section Urls.
Context `{!UrlCrate}.

(** [None] is the panic of [expect]. *)
Definition with_database (base database : string) : option string :=
  match url_parse base with
  | Some url => Some (url_text (append_pair "database" database url))
  | None => None
  end.

Definition redact_endpoint (raw : string) : string :=
  match url_parse raw with
  | None => "<invalid-endpoint>"
  | Some url => url_text (without_fragment (without_query (without_password (without_user url))))
  end.

Definition option_collect {A B} (f : A → option B) : list A → option (list B) :=
  fix go l :=
    match l with
    | [] => Some []
    | a :: l => match f a, go l with Some b, Some bs => Some (b :: bs) | _, _ => None end
    end.

Definition select_base_urls (self : DynamicClient) : option (list string) :=
  option_collect (λ url, with_database url (database self)) (base_url self :: fallback_base_urls self).
End Urls.

Definition sql_fingerprint `{Blake3} (sql : string) : string := blake3_hex sql.

(** ** Views *)

Section Views.
Context `{Arrow : !ArrowCrate}.

Definition cast_target (t : ArrowType) : option ArrowType :=
  match t with Utf8View => Some ArrowUtf8 | BinaryView => Some ArrowBinary | _ => None end.

Definition downcast_field (f : ArrowField) : ArrowField :=
  match cast_target (af_type f) with
  | Some target => {| af_name := af_name f; af_type := target; af_nullable := af_nullable f |}
  | None => f
  end.

(** The columns of a batch under the fields of the first batch; a batch with
    more columns than these keeps the others, which [RecordBatch::try_new]
    refuses. *)
Fixpoint downcast_columns (fields : list ArrowField) (columns : list Array) : result (list Array) string :=
  match columns with
  | [] => Ok []
  | column :: columns =>
      let? column :=
        match fields with
        | f :: _ => match cast_target (af_type f) with Some target => array_cast column target | None => Ok column end
        | [] => Ok column
        end in
      let? columns := downcast_columns (List.tl fields) columns in
      Ok (column :: columns)
  end.

Definition downcast_view_types (batches : list RecordBatch) : result (list RecordBatch) string :=
  match batches with
  | [] => Ok batches
  | first :: _ =>
      let schema := batch_schema first in
      if negb (existsb (λ f, is_some (cast_target (af_type f))) schema) then Ok batches
      else
        let new_schema := List.map downcast_field schema in
        rcollect (λ batch,
          let? columns := downcast_columns schema (batch_columns batch) in
          let? _fits := batch_fits new_schema columns in
          Ok {| batch_schema := new_schema; batch_columns := columns |}) batches
  end.
End Views.

(** ** The client *)

Section Client.
Context {World : Type} `{Http : !ClickHouseHttp World} `{Urls : !UrlCrate} `{Arrow : !ArrowCrate}.
#[local] Abbreviation M A := (state World (result A ClickHouseError)).

Definition select_send_error_is_retryable (error : SendError) : bool :=
  negb (is_some (se_status error)) && negb (se_is_body error) && negb (se_is_decode error).

Definition is_success (status : N) : bool := (200 <=? status)%N && (status <? 300)%N.

Definition check_response (resp : HttpResponse) (context : string) : result HttpResponse ClickHouseError :=
  if is_success (resp_status resp) then Ok resp
  else
    let body := match resp_text resp with Ok body => body | Err _ => "" end in
    Err (ChInvalidSchema (context +:+ " (" +:+ status_text (resp_status resp) +:+ "): " +:+ body)).

Definition send_select_to (self : DynamicClient) (url sql : string) : state World (result HttpResponse SendError) :=
  http_post url (user self) (password self) None sql.

(** One statement for the base URL. *)
Definition send_statement (self : DynamicClient) (content_type : option string) (body context : string) : M unit :=
  λ w,
    match http_post (base_url self) (user self) (password self) content_type body w with
    | (Err error, w) => (Err (ChHttp error), w)
    | (Ok resp, w) => (match check_response resp context with Ok _ => Ok tt | Err e => Err e end, w)
    end.

Definition insert_json_each_row (self : DynamicClient) (table_fqn json_body : string) : M unit :=
  match render_table_identifier table_fqn with
  | Err e => sret (Err e)
  | Ok table =>
      send_statement self None ("INSERT INTO " +:+ table +:+ " FORMAT JSONEachRow" +:+ String (ascii_of_N 10) json_body)
        "INSERT failed"
  end.

Definition insert_arrow (self : DynamicClient) (table_fqn : string) (batches : list RecordBatch) : M unit :=
  match render_table_identifier table_fqn with
  | Err e => sret (Err e)
  | Ok table =>
      match batches with
      | [] => sret (Ok tt)
      | _ :: _ =>
          match downcast_view_types batches with
          | Err e => sret (Err (ChArrow e))
          | Ok batches =>
              let schema := match batches with first :: _ => batch_schema first | [] => [] end in
              match ipc_write schema (List.map batch_columns batches) with
              | Err e => sret (Err (ChArrow e))
              | Ok ipc =>
                  send_statement self (Some "application/octet-stream")
                    ("INSERT INTO " +:+ table +:+ " FORMAT ArrowStream" +:+ String (ascii_of_N 10) ipc) "INSERT Arrow failed"
              end
          end
      end
  end.

Definition execute (self : DynamicClient) (sql : string) : M unit := send_statement self None sql "Execute failed".

(** The loop over the URLs, with the last error. *)
Fixpoint try_urls (self : DynamicClient) (sql : string) (urls : list string) (last_error : option SendError) : M HttpResponse :=
  match urls with
  | [] =>
      sret (Err (match last_error with
                 | None => ChOther "all ClickHouse URLs exhausted with retryable errors"
                 | Some error => ChHttp error
                 end))
  | url :: urls =>
      λ w,
        match send_select_to self url sql w with
        | (Ok response, w) => (Ok response, w)
        | (Err error, w) =>
            if select_send_error_is_retryable error && negb (is_empty urls) then try_urls self sql urls (Some error) w
            else (Err (ChHttp error), w)
        end
  end.

(** A select on the first host that answers; [None] is the panic on a base URL
    that is none. *)
Definition select_response (self : DynamicClient) (sql context : string)
    : state World (option (result HttpResponse ClickHouseError)) :=
  λ w,
    match select_base_urls self with
    | None => (None, w)
    | Some urls =>
        let '(r, w) := try_urls self sql urls None w in
        (Some (rbind r (λ resp, check_response resp context)), w)
    end.

Definition query_arrow (self : DynamicClient) (sql : string) : state World (option (result (list RecordBatch) ClickHouseError)) :=
  λ w,
    let '(r, w) := select_response self (sql +:+ " FORMAT ArrowStream") "Arrow query failed" w in
    (option_map (λ r,
       let? resp := r in
       let? bytes := map_err ChHttp (resp_bytes resp) in
       if String.eqb bytes "" then Ok []
       else
         let? batches := map_err ChArrow (ipc_read bytes) in
         Ok (List.map (λ b, {| batch_schema := b.1; batch_columns := b.2 |}) batches)) r, w).

Definition query_json (self : DynamicClient) (sql : string) : state World (option (result string ClickHouseError)) :=
  λ w,
    let '(r, w) := select_response self (sql +:+ " FORMAT JSONEachRow") "Query failed" w in
    (option_map (λ r, let? resp := r in map_err ChHttp (resp_text resp)) r, w).

(** *** Streams

    What the receiver of the channel is sent; it may be dropped after some
    items, and a send to it then fails. *)

Definition Item : Type := result RecordBatch ClickHouseError.

Definition receives (takes : option nat) (sent : list Item) : bool :=
  match takes with Some n => (length sent <? n)%nat | None => true end.

(** A send that fails is ignored, before the task ends. *)
Definition send_last (takes : option nat) (sent : list Item) (item : Item) : list Item :=
  if receives takes sent then sent ++ [item] else sent.

(** What a loop left: it goes on with the decoder, or the task has ended. *)
Inductive Step := Continues (d : Decoder) (sent : list Item) | Ended (sent : list Item).

(** The loop over the buffer of one chunk; [None] when the fuel is not enough. *)
Fixpoint decode_buffer (takes : option nat) (fuel : nat) (d : Decoder) (buf : string) (sent : list Item) : option Step :=
  match buf with
  | EmptyString => Some (Continues d sent)
  | String _ _ =>
      match fuel with
      | O => None
      | S fuel =>
          match decode d buf with
          | (Ok (Some batch, rest), d) =>
              if receives takes sent then
                decode_buffer takes fuel d rest (sent ++ [Ok {| batch_schema := batch.1; batch_columns := batch.2 |}])
              else Some (Ended sent)
          | (Ok (None, rest), d) => decode_buffer takes fuel d rest sent
          | (Err e, _) => Some (Ended (send_last takes sent (Err (ChArrow e))))
          end
      end
  end.

(** The loop over the chunks. *)
Fixpoint decode_chunks (takes : option nat) (fuel : nat) (d : Decoder) (chunks : list (result string SendError)) (sent : list Item)
    : option (list Item) :=
  match chunks with
  | [] => Some (match finish d with Err e => send_last takes sent (Err (ChArrow e)) | Ok _ => sent end)
  | Err e :: _ => Some (send_last takes sent (Err (ChHttp e)))
  | Ok chunk :: chunks =>
      match decode_buffer takes fuel d chunk sent with
      | None => None
      | Some (Ended sent) => Some sent
      | Some (Continues d sent) => decode_chunks takes fuel d chunks sent
      end
  end.

(** The task; [None] is the panic, before it is spawned. *)
Definition query_arrow_stream (fuel : nat) (takes : option nat) (self : DynamicClient) (sql : string)
    : state World (option (option (list Item))) :=
  λ w,
    let '(r, w) := select_response self (sql +:+ " FORMAT ArrowStream") "Arrow query failed" w in
    (option_map (λ r,
       match r with
       | Err e => Some (send_last takes [] (Err e))
       | Ok resp => decode_chunks takes fuel new_decoder (resp_chunks resp) []
       end) r, w).
End Client.

(** ** [runtime.rs] *)

Section ArrowRuntime.
Context {Batch : Type} `{Unicode} `{Blake3}.

(** The transport: the items of the stream of a text. *)
Record ClickHouseRuntime := {
  query_stream : string → list (result Batch string);
  runtime_catalog : Catalog;
  sql_transform : option (SqlArtifact → string)
}.

Definition with_sql_transform (self : ClickHouseRuntime) (transform : SqlArtifact → string) : ClickHouseRuntime :=
  {| query_stream := query_stream self; runtime_catalog := runtime_catalog self; sql_transform := Some transform |}.

(** What is streamed: the items that are left. *)
Definition runtime_execute (self : ClickHouseRuntime) (plan : BoundQuery) (mode : ExecutionRuntimeMode) (cancelled : bool)
    : result (list (result Batch string)) RuntimeError :=
  if negb (bool_decide (mode = RtInteractive)) then Err RNotImplemented
  else if cancelled then Err RCancelled
  else
    let? artifact :=
      map_err (λ error, RAdapter ("emit ClickHouse SQL artifact from bound query plan: " +:+ query_error_text error))
        (adapter_emit ClickHouseAdapter plan (runtime_catalog self)) in
    let? artifact :=
      match artifact with
      | ASql artifact => Ok artifact
      | AOpaque _ =>
          Err (RAdapter "bound query plan did not produce a ClickHouse SQL artifact; use a ClickHouse-compatible backend adapter")
      end in
    let sql := match sql_transform self with Some transform => transform artifact | None => sql_text artifact end in
    Ok (query_stream self sql).

(** One poll, by whether the token is cancelled when it answers. *)
Definition poll_next (cancelled : bool) (batches : list (result Batch string))
    : option (result Batch RuntimeError) * list (result Batch string) :=
  if cancelled then (Some (Err RCancelled), batches)
  else
    match batches with
    | [] => (None, [])
    | Ok batch :: batches => (Some (Ok batch), batches)
    | Err error :: batches =>
        (Some (Err (RAdapter ("stream ClickHouse Arrow batches for emitted SQL: " +:+ error))), batches)
    end.

(** A stream is polled until it ends. *)
Fixpoint polls (cancelled : list bool) (batches : list (result Batch string)) : list (option (result Batch RuntimeError)) :=
  match cancelled with
  | [] => []
  | c :: cancelled =>
      match poll_next c batches with
      | (None, _) => [None]
      | (item, batches) => item :: polls cancelled batches
      end
  end.
End ArrowRuntime.


(** ** Facts: table names

    What ClickHouse reads where a table is named: a name in backticks, where a
    backslash escapes, or a word. *)

Definition read_name (s : string) : option (string * string) :=
  match s with
  | EmptyString => None
  | String c s' =>
      if Ascii.eqb c backtick then read_escaped backtick s'
      else let p := read_word s in if String.eqb p.1 "" then None else Some p
  end.

(** As many names as the fuel, with dots between them. *)
Fixpoint read_names (fuel : nat) (s : string) : option (list string * string) :=
  match fuel with
  | O => None
  | S fuel =>
      '(name, rest) ← read_name s;
      match rest with
      | String c rest' =>
          if Ascii.eqb c "." then '(names, rest) ← read_names fuel rest'; Some (name :: names, rest)
          else Some ([name], rest)
      | EmptyString => Some ([name], rest)
      end
  end.

(** What may follow a name, and what may follow the last one. *)
Definition name_ends (s : string) : bool := negb (starts_with (λ c, name_char c || Ascii.eqb c backtick) s).

Definition table_ends (s : string) : bool := name_ends s && negb (starts_with (λ c, Ascii.eqb c ".") s).

Fixpoint no_backslash (s : string) : bool :=
  match s with EmptyString => true | String c s => negb (Ascii.eqb c "\") && no_backslash s end.

Lemma read_escaped_doubled q s rest :
  Ascii.eqb q "\" = false → no_backslash s = true → starts_with (λ c, Ascii.eqb c q) rest = false →
  read_escaped q (double_char q s +:+ char_text q +:+ rest) = Some (s, rest).
Proof.
  intros Hq Hs Hr. unfold double_char, char_text. rewrite string_app_cons, string_app_nil_l.
  induction s as [|c s IH].
  - change (replace_with q (String q (String q "")) "") with "".
    rewrite string_app_nil_l, string_app_cons, string_app_nil_l. simpl. rewrite Hq, Ascii.eqb_refl.
    destruct rest as [|d rest]; [done|]. simpl in Hr. by rewrite Hr.
  - simpl in Hs. apply andb_true_iff in Hs as [Hb Hs]. apply negb_true_iff in Hb. specialize (IH Hs).
    rewrite replace_with_cons. destruct (Ascii.eqb_spec c q) as [->|Hc].
    + rewrite !string_app_cons, !string_app_nil_l in *. simpl. rewrite Hq, Ascii.eqb_refl. by rewrite IH.
    + rewrite string_app_cons. simpl. apply Ascii.eqb_neq in Hc. by rewrite Hb, Hc, IH.
Qed.

Lemma read_word_all s rest :
  forallb name_char (String.list_ascii_of_string s) = true → starts_with name_char rest = false →
  read_word (s +:+ rest) = (s, rest).
Proof.
  intros Hs Hr. induction s as [|c s IH].
  - rewrite string_app_nil_l. destruct rest as [|d rest]; [done|]. simpl in *. by rewrite Hr.
  - simpl in Hs. apply andb_true_iff in Hs as [Hc Hs]. rewrite string_app_cons. simpl. by rewrite Hc, (IH Hs).
Qed.

Lemma name_char_byte c :
  is_char "_" (byte_of c) || is_char "$" (byte_of c) || is_ascii_alphanumeric (byte_of c) = true → name_char c = true.
Proof.
  unfold name_char, word_char. intros H.
  destruct (is_char "_" (byte_of c)); [by rewrite orb_true_r|].
  destruct (is_ascii_alphanumeric (byte_of c)); [done|].
  apply orb_true_iff in H as [H|H]; [|done]. apply N.eqb_eq, (f_equal Ascii.ascii_of_N) in H. unfold byte_of in H.
  rewrite !Ascii.ascii_N_embedding in H. subst. by rewrite Ascii.eqb_refl, orb_true_r.
Qed.

Lemma name_ends_char s : name_ends s = true →
  starts_with name_char s = false ∧ starts_with (λ c, Ascii.eqb c backtick) s = false.
Proof. destruct s as [|c s]; [done|]. intros H%negb_true_iff. by apply orb_false_iff in H. Qed.

Lemma simple_segment_word s : simple_segment s = true → s ≠ "" ∧ forallb name_char (String.list_ascii_of_string s) = true.
Proof.
  unfold simple_segment, bytes. destruct s as [|c s]; [done|]. simpl. intros [Hc Hs]%andb_true_iff. split; [done|].
  apply andb_true_iff. split.
  - apply name_char_byte. unfold is_ascii_alphanumeric. unfold byte_of. destruct (is_char "_" _), (is_ascii_alphabetic _); try done.
    by rewrite orb_true_r.
  - rewrite forallb_forall in Hs |- *. intros d Hd. apply name_char_byte, Hs, in_map, Hd.
Qed.

Lemma read_segment s rest :
  s ≠ "" → no_backslash s = true → name_ends rest = true → read_name (render_segment s +:+ rest) = Some (s, rest).
Proof.
  intros Hs Hb [Hn Hq]%name_ends_char. unfold render_segment. destruct (simple_segment s) eqn:E.
  - apply simple_segment_word in E as [_ E]. destruct s as [|c s]; [done|]. rewrite string_app_cons. simpl.
    simpl in E. apply andb_true_iff in E as [Hc E]. destruct (Ascii.eqb_spec c backtick) as [->|_]; [done|].
    rewrite Hc. by rewrite read_word_all.
  - rewrite !string_app_assoc.
    change (read_escaped backtick (double_char backtick s +:+ char_text backtick +:+ rest) = Some (s, rest)).
    by apply read_escaped_doubled.
Qed.

Lemma no_backslash_split s : no_backslash s = true → Forall (λ s, no_backslash s = true) (split_char "." s).
Proof.
  induction s as [|c s IH]; [by repeat constructor|]. simpl. intros [Hc Hs]%andb_true_iff. specialize (IH Hs).
  destruct (Ascii.eqb c "."); [by constructor|]. destruct (split_char "." s) as [|w ws]; inversion IH; subst.
  - repeat constructor. simpl. by rewrite Hc.
  - constructor; [|done]. simpl. by rewrite Hc.
Qed.

Lemma read_names_dot fuel s rest :
  s ≠ "" → no_backslash s = true →
  read_names (S fuel) (render_segment s +:+ "." +:+ rest) = '(names, rest) ← read_names fuel rest; Some (s :: names, rest).
Proof. intros Hs Hb. cbn [read_names]. by rewrite read_segment. Qed.

Lemma read_segments (l : list string) rest :
  l ≠ [] → Forall (λ s, s ≠ "") l → Forall (λ s, no_backslash s = true) l → table_ends rest = true →
  read_names (length l) (string_join "." (List.map render_segment l) +:+ rest) = Some (l, rest).
Proof.
  intros Hl Hne Hb [Hr Hd]%andb_true_iff. induction l as [|s l IH]; [done|].
  inversion Hne as [|? ? Hs Hne']; inversion Hb as [|? ? Hbs Hb']; subst.
  destruct l as [|t l].
  - cbn [List.map string_join length read_names]. rewrite read_segment by done. cbn.
    destruct rest as [|c rest]; [done|]. simpl in Hd. apply negb_true_iff in Hd. by rewrite Hd.
  - cbn [List.map]. change (string_join "." (render_segment s :: render_segment t :: List.map render_segment l))
      with (render_segment s +:+ "." +:+ string_join "." (List.map render_segment (t :: l))).
    rewrite !string_app_assoc.
    change (length (s :: t :: l)) with (S (length (t :: l))). rewrite read_names_dot by done.
    rewrite (IH ltac:(done) Hne' Hb'). done.
Qed.

Lemma render_table_Ok t r :
  render_table_identifier t = Ok r →
  Forall (λ s, s ≠ "") (split_char "." t) ∧ r = string_join "." (List.map render_segment (split_char "." t)).
Proof.
  unfold render_table_identifier. destruct (_ || _); [done|]. destruct (existsb _ _) eqn:E; [done|].
  intros [= <-]. split; [|done]. apply Forall_forall. intros s Hs ->.
  assert (existsb (λ s, String.eqb s "") (split_char "." t) = true) as H; [|congruence].
  apply existsb_exists. exists "". split; [by apply list_elem_of_In|done].
Qed.

(** C27: the table an INSERT names is the one the caller named: whatever follows,
    ClickHouse reads the segments of the name back, one by one, as the caller
    wrote them, so that no text of a name becomes a part of the statement; a
    name with a backslash is left out. *)
Theorem table_names_are_contained t r rest :
  render_table_identifier t = Ok r → no_backslash t = true → table_ends rest = true →
  read_names (length (split_char "." t)) (r +:+ rest) = Some (split_char "." t, rest).
Proof.
  intros [Hne ->]%render_table_Ok Hb Hr. apply read_segments; try done; [apply split_char_cons|by apply no_backslash_split].
Qed.

Lemma table_names_are_contained_witness :
  render_table_identifier "analytics.readings; DROP TABLE `users` --"
    = Ok "analytics.`readings; DROP TABLE ``users`` --`"
  ∧ read_names 2 ("analytics.`readings; DROP TABLE ``users`` --`" +:+ " FORMAT JSONEachRow")
    = Some (["analytics"; "readings; DROP TABLE `users` --"], " FORMAT JSONEachRow").
Proof.
  split; [by vm_compute|].
  apply (table_names_are_contained "analytics.readings; DROP TABLE `users` --"); vm_compute; reflexivity.
Defined.

(** A backslash before the backtick that closes: what follows is read as a part
    of the name. *)
Example a_backslash_runs_off :
  render_table_identifier "a\" = Ok "`a\`"
  ∧ read_names 1 ("`a\`" +:+ " FORMAT JSONEachRow") = None.
Proof. by vm_compute. Qed.

(** ** Facts: fallback hosts *)

Section Failover.
Context {World : Type} `{Http : !ClickHouseHttp World}.

(** A host that does not answer is passed over. *)
Inductive passed_over (self : DynamicClient) (sql : string) : list string → World → World → Prop :=
| passed_nil w : passed_over self sql [] w w
| passed_cons url urls error w w1 w2 :
    send_select_to self url sql w = (Err error, w1) → select_send_error_is_retryable error = true →
    passed_over self sql urls w1 w2 → passed_over self sql (url :: urls) w w2.

(** Whether the next host is tried after this answer. *)
Definition tries_next (r : result HttpResponse SendError) : bool :=
  match r with Ok _ => false | Err error => select_send_error_is_retryable error end.

(** C26: a select asks the hosts in their order, the base URL first, and each at
    most once: those before the one that answers did not answer and left errors
    that allow a retry, the answer is that host's own, and the last host's error
    is returned only if every host before it failed; the error that all hosts
    are exhausted never occurs. *)
Theorem select_fails_over self sql url urls last w :
  ∃ pre host post w1,
    url :: urls = pre ++ host :: post ∧ passed_over self sql pre w w1
    ∧ (let '(r, w2) := send_select_to self host sql w1 in
       try_urls self sql (url :: urls) last w = (map_err ChHttp r, w2) ∧ (tries_next r = true → post = [])).
Proof.
  revert url last w. induction urls as [|next urls IH]; intros url last w;
    destruct (send_select_to self url sql w) as [[response|error] w1] eqn:E.
  1,2: exists [], url, [], w; split; [done|]; split; [constructor|]; simpl; rewrite E.
  1: done. 1: by rewrite andb_false_r.
  - exists [], url, (next :: urls), w. split; [done|]. split; [constructor|]. rewrite E. split; [|done].
    cbn [try_urls]. by rewrite E.
  - destruct (select_send_error_is_retryable error) eqn:R.
    + destruct (IH next (Some error) w1) as (pre & host & post & w2 & Hurls & Hpre & H).
      exists (url :: pre), host, post, w2. split; [by rewrite Hurls|]. split; [by econstructor|].
      destruct (send_select_to self host sql w2) as [r w3]. destruct H as [H Hpost]. split; [|done].
      cbn [try_urls] in *. by rewrite E, R.
    + exists [], url, (next :: urls), w. split; [done|]. split; [constructor|]. rewrite E. split; [|by simpl; rewrite R].
      cbn [try_urls]. by rewrite E, R.
Qed.

End Failover.

(** ** Facts: streams *)

Section Streams.
Context {World : Type} `{Http : !ClickHouseHttp World} `{Urls : !UrlCrate} `{Arrow : !ArrowCrate}.

(** Each call of the decoder that succeeds brings it nearer to the end of its
    buffer: it takes bytes, or leaves a state in which it took none. *)
Class DecoderProgress := {
  decoder_rank : Decoder → string → nat;
  decode_progress d buf batch rest d' :
    buf ≠ "" → decode d buf = (Ok (batch, rest), d') → (decoder_rank d' rest < decoder_rank d buf)%nat
}.

Lemma decode_buffer_ends `{!DecoderProgress} takes fuel d buf sent :
  (decoder_rank d buf < fuel)%nat → is_Some (decode_buffer takes fuel d buf sent).
Proof.
  revert d buf sent. induction fuel as [|fuel IH]; intros d buf sent Hf; [lia|].
  destruct buf as [|c buf]; [by eexists|]. cbn [decode_buffer].
  destruct (decode d (String c buf)) as [[[[batch|] rest]|e] d'] eqn:E; [| |by eexists].
  all: pose proof (decode_progress d (String c buf) _ rest d' ltac:(done) E).
  - destruct (receives takes sent); [apply IH; lia|by eexists].
  - apply IH. lia.
Qed.

Lemma decode_buffer_more takes fuel more d buf sent r :
  (fuel ≤ more)%nat → decode_buffer takes fuel d buf sent = Some r → decode_buffer takes more d buf sent = Some r.
Proof.
  revert more d buf sent. induction fuel as [|fuel IH]; intros more d buf sent Hle.
  - destruct buf; [|done]. by destruct more.
  - destruct more as [|more]; [lia|]. destruct buf as [|c buf]; [done|]. cbn [decode_buffer].
    destruct (decode d (String c buf)) as [[[[batch|] rest]|e] d']; [| |done].
    + destruct (receives takes sent); [|done]. apply IH. lia.
    + apply IH. lia.
Qed.

Lemma decode_chunks_more takes fuel more d chunks sent r :
  (fuel ≤ more)%nat → decode_chunks takes fuel d chunks sent = Some r → decode_chunks takes more d chunks sent = Some r.
Proof.
  intros Hle. revert d sent. induction chunks as [|[chunk|e] chunks IH]; intros d sent; [done| |done]. cbn [decode_chunks].
  destruct (decode_buffer takes fuel d chunk sent) as [[d' sent'|sent']|] eqn:E; [| |done];
    rewrite (decode_buffer_more _ _ more _ _ _ _ Hle E); [apply IH|done].
Qed.

(** Some fuel is enough for the chunks. *)
Lemma decode_chunks_ends `{!DecoderProgress} takes chunks d sent :
  ∃ fuel, is_Some (decode_chunks takes fuel d chunks sent).
Proof.
  revert d sent. induction chunks as [|[chunk|e] chunks IH]; intros d sent; [by exists O; eexists| |by exists O; eexists].
  destruct (decode_buffer_ends takes (S (decoder_rank d chunk)) d chunk sent) as [r Hr]; [lia|].
  destruct r as [d' sent'|sent'].
  - destruct (IH d' sent') as [fuel [out Hout]]. exists (S (decoder_rank d chunk) `max` fuel)%nat, out.
    cbn [decode_chunks].
    rewrite (decode_buffer_more _ _ _ _ _ _ _ (Nat.le_max_l _ fuel) Hr).
    by apply (decode_chunks_more _ fuel); [lia|].
  - exists (S (decoder_rank d chunk)), sent'. cbn [decode_chunks]. by rewrite Hr.
Qed.

(** What is sent: batches, and an error at most as the last item. *)
Definition well_sent (takes : option nat) (sent : list Item) : Prop :=
  (∃ batches, sent = List.map Ok batches ∨ ∃ e, sent = List.map Ok batches ++ [Err e])
  ∧ match takes with Some n => (length sent ≤ n)%nat | None => True end.

Definition all_batches (takes : option nat) (sent : list Item) : Prop :=
  (∃ batches, sent = List.map Ok batches) ∧ match takes with Some n => (length sent ≤ n)%nat | None => True end.

Lemma all_batches_well takes sent : all_batches takes sent → well_sent takes sent.
Proof. intros [[bs ->] H]. split; [|done]. exists bs. by left. Qed.

Lemma send_last_well takes sent e : all_batches takes sent → well_sent takes (send_last takes sent (Err e)).
Proof.
  intros [[bs ->] H]. unfold send_last. destruct (receives takes _) eqn:R; [|by apply all_batches_well; split; [exists bs|]].
  split; [by exists bs; right; exists e|]. destruct takes as [n|]; [|done]. unfold receives in R. apply Nat.ltb_lt in R.
  rewrite List.length_app. simpl. lia.
Qed.

Lemma send_batch_all takes sent b :
  all_batches takes sent → receives takes sent = true → all_batches takes (sent ++ [Ok b]).
Proof.
  intros [[bs ->] H] R. split; [by exists (bs ++ [b]); rewrite map_app|]. destruct takes as [n|]; [|done].
  unfold receives in R. apply Nat.ltb_lt in R. rewrite List.length_app. simpl. lia.
Qed.

Lemma decode_buffer_well takes fuel d buf sent r :
  all_batches takes sent → decode_buffer takes fuel d buf sent = Some r →
  match r with Continues _ sent' => all_batches takes sent' | Ended sent' => well_sent takes sent' end.
Proof.
  revert d buf sent. induction fuel as [|fuel IH]; intros d [|c buf] sent Hs; simpl; try (intros [= <-]; done); try done.
  destruct (decode d (String c buf)) as [[[[batch|] rest]|e] d'].
  - destruct (receives takes sent) eqn:R; [|intros [= <-]; by apply all_batches_well]. by apply IH, send_batch_all.
  - by apply IH.
  - intros [= <-]. by apply send_last_well.
Qed.

Lemma decode_chunks_well takes fuel d chunks sent out :
  all_batches takes sent → decode_chunks takes fuel d chunks sent = Some out → well_sent takes out.
Proof.
  revert d sent. induction chunks as [|[chunk|e] chunks IH]; intros d sent Hs; cbn [decode_chunks].
  - destruct (finish d); intros [= <-]; [by apply all_batches_well|by apply send_last_well].
  - destruct (decode_buffer takes fuel d chunk sent) as [[d' sent'|sent']|] eqn:E; [| |done];
      apply decode_buffer_well in E; try done; [by apply IH|by intros [= <-]].
  - intros [= <-]. by apply send_last_well.
Qed.

Lemma select_base_urls_cons self urls :
  select_base_urls self = Some urls → ∃ url rest, urls = url :: rest.
Proof. unfold select_base_urls. simpl. destruct (with_database _ _); [|done]. case_match; intros [= <-]; eauto. Qed.

(** C25: a streamed select ends, whatever the server sends and in whatever
    pieces, when the decoder makes progress: some fuel is enough and more
    changes nothing; the receiver gets batches, after them at most one error and
    nothing after it, and no more items than it takes. *)
Theorem stream_ends `{!DecoderProgress} takes self sql w :
  is_Some (select_base_urls self) →
  ∃ fuel out w', well_sent takes out ∧
    ∀ more, (fuel ≤ more)%nat → query_arrow_stream more takes self sql w = (Some (Some out), w').
Proof.
  intros [urls Hurls]. unfold query_arrow_stream, select_response. rewrite Hurls.
  destruct (try_urls _ _ urls None w) as [r w']. cbn [option_map].
  assert (all_batches takes []) as H0 by (split; [by exists []|destruct takes; simpl; [lia|done]]).
  destruct (rbind r _) as [resp|e].
  - destruct (decode_chunks_ends takes (resp_chunks resp) new_decoder []) as (fuel & out & Hout).
    exists fuel, out, w'. split; [by eapply decode_chunks_well|]. intros more Hle.
    by rewrite (decode_chunks_more _ _ _ _ _ _ _ Hle Hout).
  - exists O, (send_last takes [] (Err e)), w'. split; [by apply send_last_well|done].
Qed.

End Streams.

(** ** Facts: views *)

Section ViewFacts.
Context `{Arrow : !ArrowCrate}.

Definition has_view (fields : list ArrowField) : bool := existsb (λ f, is_some (cast_target (af_type f))) fields.

Lemma downcast_field_plain f : cast_target (af_type (downcast_field f)) = None.
Proof. unfold downcast_field. destruct f as [n t nu]. by destruct t. Qed.

Lemma downcast_fields_plain fields : has_view (List.map downcast_field fields) = false.
Proof. induction fields as [|f fields IH]; [done|]. simpl. by rewrite downcast_field_plain. Qed.

(** What is inserted has no view columns: the batches get one schema, that
    of the first batch with every view type replaced, each batch keeps its
    columns in their order with exactly the view columns cast, and a second pass
    changes nothing. *)
Theorem views_are_cast batches out :
  downcast_view_types batches = Ok out →
  match batches with
  | [] => out = []
  | first :: _ =>
      if has_view (batch_schema first) then
        Forall2 (λ b b',
          batch_schema b' = List.map downcast_field (batch_schema first)
          ∧ downcast_columns (batch_schema first) (batch_columns b) = Ok (batch_columns b')
          ∧ batch_fits (batch_schema b') (batch_columns b') = Ok tt) batches out
      else out = batches
  end
  ∧ match out with [] => batches = [] | first :: _ => has_view (batch_schema first) = false end
  ∧ downcast_view_types out = Ok out.
Proof.
  destruct batches as [|first batches]; [by intros [= <-]|]. unfold downcast_view_types. fold (has_view (batch_schema first)).
  destruct (has_view (batch_schema first)) eqn:V; cbn [negb];
    [|intros [= <-]; do 2 (split; [done|]); fold (has_view (batch_schema first)); by rewrite V].
  intros H%rcollect_Ok.
  assert (Forall2 (λ b b',
          batch_schema b' = List.map downcast_field (batch_schema first)
          ∧ downcast_columns (batch_schema first) (batch_columns b) = Ok (batch_columns b')
          ∧ batch_fits (batch_schema b') (batch_columns b') = Ok tt) (first :: batches) out) as Hout.
  { eapply Forall2_impl; [exact H|]. intros b b' Hb. cbv beta in Hb.
    destruct (downcast_columns _ _) as [cs|] eqn:C; [|done]. simpl in Hb.
    destruct (batch_fits _ _) as [[]|] eqn:B; [|done]. simpl in Hb. injection Hb as <-. simpl. by rewrite B. }
  split; [done|]. inversion Hout as [|? b' ? bs' (Hs & _ & _)]; subst.
  rewrite Hs. fold (has_view (List.map downcast_field (batch_schema first))). by rewrite downcast_fields_plain.
Qed.
End ViewFacts.

(** ** Facts: the runtime *)

Section PollFacts.
Context {Batch : Type}.

Definition wrap_item (item : result Batch string) : result Batch RuntimeError :=
  map_err (λ error, RAdapter ("stream ClickHouse Arrow batches for emitted SQL: " +:+ error)) item.

Lemma poll_cancelled m (batches : list (result Batch string)) :
  polls (List.repeat true m) batches = List.repeat (Some (Err RCancelled)) m.
Proof. induction m as [|m IH]; [done|]. simpl. by rewrite IH. Qed.

(** Until the token is cancelled a poll gives the items of the transport in
    their order, and the end after the last; from the cancellation on it gives
    the cancellation and no item, as often as it is polled: a cancelled stream
    has no end. *)
Theorem polls_of_a_stream n m (batches : list (result Batch string)) :
  polls (List.repeat false n ++ List.repeat true m) batches
  = if (n <=? length batches)%nat
    then List.map (λ item, Some (wrap_item item)) (firstn n batches) ++ List.repeat (Some (Err RCancelled)) m
    else List.map (λ item, Some (wrap_item item)) batches ++ [None].
Proof.
  revert batches. induction n as [|n IH]; intros batches; [apply poll_cancelled|].
  destruct batches as [|[b|e] batches]; [done| |]; simpl; rewrite IH; by destruct (n <=? length batches)%nat.
Qed.
End PollFacts.

(** ** A small server

    Frames are lines, a batch is a line; the host [a] is down, and [b] answers
    in three pieces. *)
Module Small.

Fixpoint take_line (s : string) : string * option string :=
  match s with
  | EmptyString => ("", None)
  | String c s => if Ascii.eqb c ";" then ("", Some s) else let p := take_line s in (String c p.1, p.2)
  end.

Definition line_decode (d buf : string) : result (option (list ArrowField * list string) * string) string * string :=
  match take_line buf with
  | (line, Some rest) => (Ok (Some ([], [d +:+ line]), rest), "")
  | (line, None) => (Ok (None, ""), d +:+ line)
  end.

#[export] Instance lines : ArrowCrate :=
  {| Array := string;
     array_cast := λ a t, if String.eqb a "bad" then Err "cast" else Ok (a +:+ "'");
     batch_fits := λ fields columns, if (length fields =? length columns)%nat then Ok tt else Err "columns";
     ipc_write := λ fields batches, Ok (string_join ";" (List.map (string_join ",") batches));
     ipc_read := λ body, Ok [([], [body])];
     Decoder := string; new_decoder := ""; decode := line_decode;
     finish := λ d, if String.eqb d "" then Ok tt else Err "unfinished" |}.

Lemma take_line_shorter s line rest : take_line s = (line, Some rest) → (String.length rest < String.length s)%nat.
Proof.
  revert line. induction s as [|c s IH]; intros line; [done|]. simpl. destruct (Ascii.eqb c ";"); [intros [= _ <-]; lia|].
  destruct (take_line s) as [line' [rest'|]]; [|done]. intros [= _ ->]. specialize (IH line' eq_refl). lia.
Qed.

Lemma line_progress d buf batch rest d' :
  buf ≠ "" → line_decode d buf = (Ok (batch, rest), d') → (String.length rest < String.length buf)%nat.
Proof.
  intros Hbuf. unfold line_decode. destruct (take_line buf) as [line [rest'|]] eqn:E.
  - intros [= _ <- _]. by apply take_line_shorter in E.
  - intros [= _ <- _]. destruct buf; [done|]. simpl. lia.
Qed.

#[export] Instance lines_progress : DecoderProgress (Arrow := lines) :=
  {| decoder_rank := λ _, String.length; decode_progress := line_progress |}.

#[export] Instance texts : UrlCrate :=
  {| Url := string; url_parse := Some; append_pair := λ k v u, u +:+ "/?" +:+ k +:+ "=" +:+ v;
     without_user := id; without_password := id; without_query := id; without_fragment := id; url_text := id |}.

Definition down : SendError := {| se_status := None; se_is_body := false; se_is_decode := false; se_text := "connection refused" |}.

Definition cut : SendError := {| se_status := None; se_is_body := true; se_is_decode := false; se_text := "reset" |}.

(** The world is the list of the URLs that are asked. *)
#[export] Instance hosts : ClickHouseHttp (list string) :=
  {| http_post := λ url _ _ _ _ w,
       (if String.eqb url "http://a:8123/?database=default" then Err down
        else Ok {| resp_status := 200; resp_text := Ok ""; resp_bytes := Ok ""; resp_chunks := [Ok "on"; Ok "e;two;t"; Ok "hree"] |},
        w ++ [url]);
     status_text := show_N |}.

Definition client : DynamicClient :=
  from_config {| cfg_host := "a"; fallback_hosts := [" b "; ""; "a"; "c"]; cfg_port := 8123; username := "default"; cfg_password := "";
                 cfg_database := "default"; secure := false |}.
End Small.
Import Small.

Definition line_batch (line : string) : RecordBatch (Arrow := Small.lines) :=
  Build_RecordBatch Small.lines [] [line].

Example small_hosts :
  query_arrow_stream (Http := Small.hosts) 10 None Small.client "SELECT 1" []
  = (Some (Some [Ok (line_batch "one"); Ok (line_batch "two"); Err (ChArrow "unfinished")]),
     ["http://a:8123/?database=default"; "http://b:8123/?database=default"])
  ∧ (query_arrow_stream (Http := Small.hosts) 10 (Some 1) Small.client "SELECT 1" []).1 = Some (Some [Ok (line_batch "one")])
  ∧ (query_arrow_stream (Http := Small.hosts) 1 None Small.client "SELECT 1" []).1 = Some None.
Proof. by vm_compute. Qed.

Lemma stream_ends_witness :
  is_Some (select_base_urls Small.client)
  ∧ ∃ fuel out w', well_sent (Arrow := Small.lines) (Some 1%nat) out ∧
    ∀ more, (fuel ≤ more)%nat →
      query_arrow_stream (Http := Small.hosts) more (Some 1%nat) Small.client "SELECT 1" [] = (Some (Some out), w').
Proof.
  split; [by eexists|].
  apply (stream_ends (Http := Small.hosts) (Arrow := Small.lines) (Some 1%nat) Small.client "SELECT 1" []). by eexists.
Defined.

Definition view_field (name : string) (t : ArrowType) : ArrowField := {| af_name := name; af_type := t; af_nullable := true |}.

Lemma views_are_cast_witness :
  let batch fields columns : RecordBatch (Arrow := Small.lines) := Build_RecordBatch Small.lines fields columns in
  let fields := [view_field "id" (ArrowOther "Int64"); view_field "name" Utf8View] in
  let plain := [view_field "id" (ArrowOther "Int64"); view_field "name" ArrowUtf8] in
  downcast_view_types [batch fields ["1"; "x"]; batch fields ["2"; "y"]] = Ok [batch plain ["1"; "x'"]; batch plain ["2"; "y'"]]
  ∧ downcast_view_types [batch plain ["1"; "x'"]; batch plain ["2"; "y'"]] = Ok [batch plain ["1"; "x'"]; batch plain ["2"; "y'"]].
Proof.
  split; [by vm_compute|].
  apply (views_are_cast
    [Build_RecordBatch Small.lines [view_field "id" (ArrowOther "Int64"); view_field "name" Utf8View] ["1"; "x"];
     Build_RecordBatch Small.lines [view_field "id" (ArrowOther "Int64"); view_field "name" Utf8View] ["2"; "y"]]).
  by vm_compute.
Defined.
