(* ===== verification/HostDb.v ===== *)
(** The database of the demonstrator host: [queryfabric-demo/src/db.rs], with
    its stations ([dataset.rs]).

    PostgreSQL is third-party code.  Of its two tables what the statements of
    the module read and write is kept ([Tables]), with the constraints of the
    module's own schema: primary keys, the unique key of receipts, the reference
    of readings to stations.  Statements can fail at any point: a [Session] says
    which of them do, and draws the identifiers of [Uuid::now_v7].  Queries are
    answered by the class [PgServer], which may change the tables as it does;
    that it does not for a select is [LawfulPgServer]; the class [Postgres] is the parsing and
    printing of values of the third-party crates. *)
From Stdlib Require Import Ascii.
From S2P Require Import Prelude Types Diagnostics Syntax Bound Bind Contract Json Names.
Local Open Scope result_scope.

(** ** [dataset.rs]: stations *)

(** Literals of floats are their texts. *)
Record StationSpec := {
  code : string;
  station_name : string;
  city : string;
  latitude : string;
  longitude : string;
  pm25_base : string;
  no2_base : string;
  ozone_base : string
}.

Definition STATIONS : list StationSpec :=
  [{| code := "lis-baixa"; station_name := "Baixa Monitoring Station"; city := "Lisbon"; latitude := "38.7100";
      longitude := "-9.1364"; pm25_base := "11.0"; no2_base := "24.0"; ozone_base := "58.0" |};
   {| code := "tll-kesklinn"; station_name := "Kesklinn Monitoring Station"; city := "Tallinn"; latitude := "59.4339";
      longitude := "24.7535"; pm25_base := "7.0"; no2_base := "16.0"; ozone_base := "62.0" |};
   {| code := "ghe-centrum"; station_name := "Centrum Monitoring Station"; city := "Ghent"; latitude := "51.0543";
      longitude := "3.7174"; pm25_base := "12.5"; no2_base := "27.0"; ozone_base := "49.0" |};
   {| code := "rkv-vesturbaer"; station_name := "Vesturbær Monitoring Station"; city := "Reykjavik";
      latitude := "64.1466"; longitude := "-21.9426"; pm25_base := "4.5"; no2_base := "9.0"; ozone_base := "71.0" |};
   {| code := "lju-center"; station_name := "Center Monitoring Station"; city := "Ljubljana"; latitude := "46.0569";
      longitude := "14.5058"; pm25_base := "14.0"; no2_base := "22.0"; ozone_base := "55.0" |}].

(** The 16 bytes of a namespace, the first the most significant. *)
Definition uuid_of_bytes (s : string) : Uuid :=
  List.fold_left (λ n c, (n * 256 + N_of_ascii c)%N) (String.list_ascii_of_string s) 0%N.

Definition DEMO_NAMESPACE : Uuid := uuid_of_bytes "qfdemo-namespace".
Definition SNAPSHOT_ID : string := "qfdemo-air-quality-v1".
Definition SEED_EPOCH_MS : Z := 1767225600000.
Definition READINGS_PER_STATION : N := 72.

Section Stations.
Context `{UuidV5}.

Definition station_id (self : StationSpec) : Uuid := from_str_key (uuid_of_bytes "qfdemo-airq-stat") (code self).

Definition station_resource (self : StationSpec) : ResourceRef :=
  {| resource_namespace := DEMO_NAMESPACE; resource_uuid := station_id self |}.

Definition reading_id_of (self : StationSpec) (hour : N) : Uuid :=
  from_parts (uuid_of_bytes "qfdemo-airq-read") [code self; show_N hour].

Definition demo_account_id (key : string) : Uuid := from_str_key (uuid_of_bytes "qfdemo-airq-acct") key.

(** A key that parses as a UUID is one, even when a station had it as code. *)
Definition find_station (parse_uuid : string → option Uuid) (key : string) : option StationSpec :=
  match parse_uuid key with
  | Some id => List.find (λ station, (station_id station =? id)%N) STATIONS
  | None => List.find (λ station, String.eqb (code station) key) STATIONS
  end.
End Stations.

(** ** Values *)

Class Postgres (Number : Type) := {
  PgFloat : Type;
  (** [NaiveDateTime], [DateTime<Utc>] and [NaiveDate]. *)
  PgTimestamp : Type;
  PgInstant : Type;
  PgDate : Type;
  float_parse : string → result PgFloat string;
  number_from_f64 : PgFloat → option Number;
  number_from_int : Z → Number;
  pg_uuid_text : Uuid → string;
  pg_uuid_parse : string → result Uuid string;
  date_parse : string → result PgDate string;
  date_text : PgDate → string;
  (** [DateTime::parse_from_rfc3339], in the two forms it is used in. *)
  rfc3339_naive : string → result PgTimestamp string;
  rfc3339_utc : string → result PgInstant string;
  timestamp_text : PgTimestamp → string;
  instant_text : PgInstant → string;
  (** The timestamp of Unix milliseconds. *)
  timestamp_of_millis : Z → PgTimestamp;
  (** The synthetic values of a station at an hour: a base and a sine, rounded. *)
  pollutants : StationSpec → N → PgFloat * PgFloat * PgFloat;
  value_from_str : string → result (Json Number) string;
  (** [PartialEq] of [serde_json::Value]; what a JSONB column gives back. *)
  value_eqb : Json Number → Json Number → bool;
  jsonb : Json Number → Json Number;
  (** [serde_json::to_vec] of an array: its length. *)
  rows_to_vec_len : list (Json Number) → result N string;
  (** [Debug] of a parameter value. *)
  debug_value : ParameterValue → string
}.

Inductive DbError :=
| DbConnect (error : string)
| DbStatement (error : string)
| InvalidImport (message : string)
| InvalidQueryParameter (message : string)
| QueryLimit (kind : string) (actual limit : N)
| QuerySerialization (error : string)
| ConflictingReplay (key : string)
| InjectedFailure (stage : string).

(** [Display]. *)
Definition db_error_text (e : DbError) : string :=
  match e with
  | DbConnect error => "postgres connection failed: " +:+ error
  | DbStatement error => "postgres statement failed: " +:+ error
  | InvalidImport m => "import row is invalid: " +:+ m
  | InvalidQueryParameter m => "query parameter is invalid: " +:+ m
  | QueryLimit kind actual limit =>
      "query result exceeds " +:+ kind +:+ " limit (" +:+ show_N actual +:+ " > " +:+ show_N limit +:+ ")"
  | QuerySerialization error => "query result serialization failed: " +:+ error
  | ConflictingReplay key => "existing import receipt does not match the requested plan (" +:+ key +:+ ")"
  | InjectedFailure stage => "import transaction failure injected at " +:+ stage
  end.

Inductive ImportFailureStage := BeforeRows | DuringRows | BeforeCommit.

#[export] Instance ImportFailureStage_eq_dec : EqDecision ImportFailureStage.
Proof. solve_decision. Defined.

(** ** Tables *)

Section Database.
Context {Number : Type} `{!Postgres Number} `{!JsonMap Number}.

Record Reading := {
  reading_uuid : Uuid;
  reading_station : Uuid;
  measured_at : PgTimestamp;
  pm25 : PgFloat;
  no2 : PgFloat;
  ozone : PgFloat
}.

Record ReceiptRow := {
  rr_receipt_id : Uuid;
  idempotency_key : string;
  rr_bundle_digest : string;
  rr_plan_digest : string;
  rr_source_resource : Json Number;
  rr_target_resource : Json Number;
  rr_target_relation : string;
  rr_target_revision : string;
  rr_local_owner : Uuid;
  rr_local_policy : Json Number;
  rr_source_evidence : Json Number;
  rr_mapping : Json Number;
  receipt_json : Json Number;
  rr_row_count : Z;
  rr_byte_count : Z
}.

(** The stations by identifier and code. *)
Record Tables := {
  stations : list (Uuid * string);
  readings : list Reading;
  receipts : list ReceiptRow
}.

Definition set_readings (self : Tables) (l : list Reading) : Tables :=
  {| stations := stations self; readings := l; receipts := receipts self |}.

(** [INSERT INTO stations ... ON CONFLICT (station_id) DO NOTHING]: [code] is
    unique as well. *)
Definition insert_station (row : Uuid * string) (t : Tables) : result Tables string :=
  if existsb (λ s, (s.1 =? row.1)%N) (stations t) then Ok t
  else if existsb (λ s, String.eqb s.2 row.2) (stations t) then
    Err "duplicate key value violates unique constraint on code"
  else Ok {| stations := stations t ++ [row]; readings := readings t; receipts := receipts t |}.

Definition has_station (id : Uuid) (t : Tables) : bool := existsb (λ s, (s.1 =? id)%N) (stations t).

(** [INSERT INTO readings ... ON CONFLICT (reading_id) DO NOTHING]. *)
Definition insert_reading (row : Reading) (t : Tables) : result Tables string :=
  if existsb (λ r, (reading_uuid r =? reading_uuid row)%N) (readings t) then Ok t
  else if has_station (reading_station row) t then
    Ok (set_readings t (readings t ++ [row]))
  else Err "insert or update on table readings violates its foreign key".

Definition insert_receipt (row : ReceiptRow) (t : Tables) : result Tables string :=
  if existsb (λ r, (rr_receipt_id r =? rr_receipt_id row)%N || String.eqb (idempotency_key r) (idempotency_key row))
       (receipts t) then
    Err "duplicate key value violates unique constraint on receipts"
  else Ok {| stations := stations t; readings := readings t; receipts := receipts t ++ [row] |}.

Definition select_receipt (key : string) (t : Tables) : option ReceiptRow :=
  List.find (λ r, String.eqb (idempotency_key r) key) (receipts t).

(** ** Import *)

Record ImportCommit := {
  ic_station_id : Uuid;
  ic_rows : list (list string);
  ic_bundle_digest : string;
  ic_plan_digest : string;
  ic_target_revision : string;
  ic_source_resource : Json Number;
  ic_target_resource : Json Number;
  ic_local_owner : Uuid;
  ic_local_policy : Json Number;
  ic_source_evidence : Json Number;
  ic_mapping : Json Number;
  ic_byte_count : N;
  ic_failure_stage : option ImportFailureStage
}.

(** The statements that fail, and the identifiers that are drawn.  A commit
    whose answer is lost may have been carried out. *)
Record Session := {
  connect_fault : option string;
  begin_fault : option string;
  select_fault : option string;
  prepare_fault : option string;
  row_fault : N → option string;
  receipt_fault : option string;
  commit_fault : option (string * bool);
  row_uuid : N → Uuid;
  receipt_uuid : Uuid
}.

(** [as i64]. *)
Definition as_i64 (n : N) : Z := if (n <? 2 ^ 63)%N then Z.of_N n else (Z.of_N n - 2 ^ 64)%Z.

Definition import_key (request : ImportCommit) : string :=
  ic_bundle_digest request +:+ ":" +:+ pg_uuid_text (ic_station_id request) +:+ ":" +:+ ic_target_revision request.

(** The comparison of a receipt with the request that has its key. *)
Definition replay_matches (request : ImportCommit) (existing : ReceiptRow) : bool :=
  negb (negb (String.eqb (rr_plan_digest existing) (ic_plan_digest request))
        || negb (String.eqb (rr_bundle_digest existing) (ic_bundle_digest request))
        || negb (rr_local_owner existing =? ic_local_owner request)%N
        || negb (value_eqb (rr_mapping existing) (ic_mapping request))
        || negb (rr_byte_count existing =? as_i64 (ic_byte_count request))%Z
        || negb (String.eqb (rr_target_revision existing) (ic_target_revision request))).

Definition statement {A} (fault : option string) (m : result A DbError) : result A DbError :=
  match fault with Some error => Err (DbStatement error) | None => m end.

Definition field {A} (name : string) (r : result A string) : result A DbError :=
  match r with Ok a => Ok a | Err error => Err (InvalidImport (name +:+ ": " +:+ error)) end.

(** One row of the artifact. *)
Definition reading_of_row (request : ImportCommit) (session : Session) (ordinal : N) (row : list string)
    : result Reading DbError :=
  match row with
  | [f0; f1; f2; f3] =>
      let? at_ := field "timestamp" (rfc3339_naive f0) in
      let? p := field "pm25" (float_parse f1) in
      let? n := field "no2" (float_parse f2) in
      let? o := field "ozone" (float_parse f3) in
      Ok {| reading_uuid := row_uuid session ordinal; reading_station := ic_station_id request;
            measured_at := at_; pm25 := p; no2 := n; ozone := o |}
  | _ => Err (InvalidImport "expected four readings fields")
  end.

(** The loop over the rows. *)
Fixpoint import_rows (request : ImportCommit) (session : Session) (ordinal : N) (rows : list (list string)) (t : Tables)
    : result Tables DbError :=
  match rows with
  | [] => Ok t
  | row :: rows =>
      let? reading := reading_of_row request session ordinal row in
      let failed (error : string) : result Tables DbError :=
        Err (InvalidImport ("row " +:+ show_N ordinal +:+ " could not be inserted: " +:+ error)) in
      let? t :=
        match row_fault session ordinal with
        | Some error => failed error
        | None => match insert_reading reading t with Ok t => Ok t | Err error => failed error end
        end in
      if bool_decide (ic_failure_stage request = Some DuringRows) && (ordinal =? 0)%N then
        Err (InjectedFailure "during-rows")
      else import_rows request session (ordinal + 1) rows t
  end.

Definition receipt_value (request : ImportCommit) (session : Session) : Json Number :=
  JObject (json_object
    [("receiptId", JString (pg_uuid_text (receipt_uuid session))); ("idempotencyKey", JString (import_key request));
     ("bundleDigest", JString (ic_bundle_digest request)); ("planDigest", JString (ic_plan_digest request));
     ("sourceResource", ic_source_resource request); ("targetResource", ic_target_resource request);
     ("targetRelation", JString "readings"); ("targetRevision", JString (ic_target_revision request));
     ("localOwner", JString (pg_uuid_text (ic_local_owner request))); ("localPolicy", ic_local_policy request);
     ("sourceEvidence", ic_source_evidence request); ("mapping", ic_mapping request);
     ("rowCount", JNumber (number_from_int (Z.of_N (vec_len (ic_rows request)))));
     ("byteCount", JNumber (number_from_int (Z.of_N (ic_byte_count request)))); ("event", JString "Imported")]).

Definition receipt_row (request : ImportCommit) (session : Session) : ReceiptRow :=
  {| rr_receipt_id := receipt_uuid session; idempotency_key := import_key request;
     rr_bundle_digest := ic_bundle_digest request; rr_plan_digest := ic_plan_digest request;
     rr_source_resource := jsonb (ic_source_resource request);
     rr_target_resource := jsonb (ic_target_resource request); rr_target_relation := "readings";
     rr_target_revision := ic_target_revision request; rr_local_owner := ic_local_owner request;
     rr_local_policy := jsonb (ic_local_policy request); rr_source_evidence := jsonb (ic_source_evidence request);
     rr_mapping := jsonb (ic_mapping request); receipt_json := jsonb (receipt_value request session);
     rr_row_count := as_i64 (vec_len (ic_rows request)); rr_byte_count := as_i64 (ic_byte_count request) |}.

(** The transaction after the look-up, up to the commit: what it has written. *)
Definition write_import (request : ImportCommit) (session : Session) (t : Tables) : result Tables DbError :=
  if bool_decide (ic_failure_stage request = Some BeforeRows) then Err (InjectedFailure "before-rows")
  else
    statement (prepare_fault session) (
    let? t := import_rows request session 0 (ic_rows request) t in
    let? t :=
      statement (receipt_fault session)
        match insert_receipt (receipt_row request session) t with
        | Ok t => Ok t
        | Err error => Err (DbStatement error)
        end in
    if bool_decide (ic_failure_stage request = Some BeforeCommit) then Err (InjectedFailure "before-commit")
    else Ok t).

(** What the look-up finds: the receipt, or that there is none. *)
Definition look_up (request : ImportCommit) (session : Session) (t : Tables) : result (option (Json Number)) DbError :=
  match connect_fault session with
  | Some error => Err (DbConnect error)
  | None =>
      statement (begin_fault session) (statement (select_fault session)
        match select_receipt (import_key request) t with
        | Some existing =>
            if replay_matches request existing then Ok (Some (receipt_json existing))
            else Err (ConflictingReplay (import_key request))
        | None => Ok None
        end)
  end.

(** The rest of the transaction on the tables at that time; what is not
    committed is rolled back. *)
Definition finish_import (request : ImportCommit) (session : Session) (t : Tables)
    : result (Json Number * bool) DbError * Tables :=
  match write_import request session t with
  | Err e => (Err e, t)
  | Ok written =>
      match commit_fault session with
      | None => (Ok (receipt_value request session, false), written)
      | Some (error, durable) => (Err (DbStatement error), if durable then written else t)
      end
  end.

Definition apply_import (request : ImportCommit) (session : Session) (t : Tables)
    : result (Json Number * bool) DbError * Tables :=
  match look_up request session t with
  | Err e => (Err e, t)
  | Ok (Some value) => (Ok (value, true), t)
  | Ok None => finish_import request session t
  end.

(** ** The schema and the demonstration data *)

Context `{V5 : !UuidV5}.

(** A loop of statements, every one of which commits by itself. *)
Definition try_each {A} (f : A → state Tables (result unit DbError)) : list A → state Tables (result unit DbError) :=
  fix go l t :=
    match l with
    | [] => (Ok tt, t)
    | x :: l => match f x t with (Ok _, t) => go l t | (Err e, t) => (Err e, t) end
    end.

Definition db_insert {A} (f : A → Tables → result Tables string) (row : A) : state Tables (result unit DbError) :=
  λ t, match f row t with Ok t => (Ok tt, t) | Err error => (Err (DbStatement error), t) end.

(** The stations are predeclared; the tables are created before. *)
Definition seed_schema : state Tables (result unit DbError) :=
  try_each (λ station, db_insert insert_station (station_id station, code station)) STATIONS.

(** [readings_for]: a reading for every hour. *)
Definition readings_for (station : StationSpec) : list Reading :=
  List.map (λ hour : nat,
      let '(p, n, o) := pollutants station (N.of_nat hour) in
      {| reading_uuid := reading_id_of station (N.of_nat hour); reading_station := station_id station;
         measured_at := timestamp_of_millis (SEED_EPOCH_MS + 3600000 * Z.of_nat hour); pm25 := p; no2 := n; ozone := o |})
    (seq 0 (N.to_nat READINGS_PER_STATION)).

Definition seed : state Tables (result unit DbError) :=
  λ t,
    match seed_schema t with
    | (Err e, t) => (Err e, t)
    | (Ok _, t) => try_each (λ station, try_each (db_insert insert_reading) (readings_for station)) STATIONS t
    end.

(** ** Queries *)

Inductive PgType :=
| PgBool | PgInt2 | PgInt4 | PgInt8 | PgFloat4 | PgFloat8 | PgUuid | PgTimestampT | PgTimestamptz | PgDateT
| PgJson | PgJsonb | PgText | PgVarchar | PgBpchar | PgName | PgOther.

(** What decoding a cell gives: a value, null, or an error. *)
Inductive PgCell :=
| CBool (cell : option bool)
| CInt (cell : option Z)
| CFloat (cell : option PgFloat)
| CUuid (cell : option Uuid)
| CTimestamp (cell : option PgTimestamp)
| CInstant (cell : option PgInstant)
| CDate (cell : option PgDate)
| CJson (cell : option (Json Number))
| CText (cell : option string)
| CFailed (error : string).

Definition float_to_json (value : PgFloat) : Json Number :=
  match number_from_f64 value with Some number => JNumber number | None => JNull end.

Definition or_null {A} (f : A → Json Number) (cell : option A) : Json Number :=
  match cell with Some value => f value | None => JNull end.

Definition cell_to_json (ty : PgType) (cell : PgCell) : Json Number :=
  match ty, cell with
  | PgBool, CBool cell => or_null JBool cell
  | (PgInt2 | PgInt4 | PgInt8), CInt cell => or_null (λ v, JNumber (number_from_int v)) cell
  | (PgFloat4 | PgFloat8), CFloat cell => or_null float_to_json cell
  | PgUuid, CUuid cell => or_null (λ v, JString (pg_uuid_text v)) cell
  | PgTimestampT, CTimestamp cell => or_null (λ v, JString (timestamp_text v)) cell
  | PgTimestamptz, CInstant cell => or_null (λ v, JString (instant_text v)) cell
  | PgDateT, CDate cell => or_null (λ v, JString (date_text v)) cell
  | (PgJson | PgJsonb), CJson cell => default JNull cell
  | (PgText | PgVarchar | PgBpchar | PgName), CText cell => or_null JString cell
  | _, _ => JNull
  end.

Inductive PgParam :=
| PBool (value : option bool)
| PInt32 (value : option Z)
| PInt64 (value : option Z)
| PFloat (value : option PgFloat)
| PText (value : option string)
| PUuid (value : option Uuid)
| PJson (value : option (Json Number))
| PDate (value : option PgDate)
| PTimestamp (value : option PgTimestamp)
| PInstant (value : option PgInstant).

Definition data_type_name (data_type : DataType) : string :=
  match data_type with
  | TBoolean => "Boolean" | TInt32 => "Int32" | TInt64 => "Int64" | TFloat64 => "Float64" | TUtf8 => "Utf8"
  | TUuid => "Uuid" | TJson => "Json" | TDate => "Date" | TDecimal _ _ => "Decimal" | TTimestamp _ => "Timestamp"
  | TList _ => "List" | TStruct _ => "Struct" | TUnknown => "Unknown"
  end.

Definition parsed_param {A} (wrap : option A → PgParam) (r : result A string) : result PgParam DbError :=
  match r with Ok a => Ok (wrap (Some a)) | Err error => Err (InvalidQueryParameter error) end.

Definition parameter_to_postgres (binding : ParameterBinding) : result PgParam DbError :=
  let reference := ParameterRef_to_string (ps_reference (pb_schema binding)) in
  let? value := ok_or (pb_value binding) (InvalidQueryParameter (reference +:+ " has no supplied value")) in
  let data_type := ps_data_type (pb_schema binding) in
  match data_type, value with
  | TBoolean, VBoolean value => Ok (PBool (Some value))
  | TInt32, VInt64 value =>
      if ((- 2 ^ 31 <=? value) && (value <? 2 ^ 31))%Z then Ok (PInt32 (Some value))
      else Err (InvalidQueryParameter (show_Z value +:+ " is outside Int32"))
  | TInt64, VInt64 value => Ok (PInt64 (Some value))
  | TFloat64, VFloat64 value => parsed_param PFloat (float_parse value)
  | TUtf8, VUtf8 value => Ok (PText (Some value))
  | TUuid, VUuid value => parsed_param PUuid (pg_uuid_parse value)
  | TJson, VJson value => parsed_param PJson (value_from_str value)
  | TDate, VUtf8 value => parsed_param PDate (date_parse value)
  | TTimestamp None, VUtf8 value => parsed_param PTimestamp (rfc3339_naive value)
  | TTimestamp (Some _), VUtf8 value => parsed_param PInstant (rfc3339_utc value)
  | TBoolean, VNull => Ok (PBool None)
  | TInt32, VNull => Ok (PInt32 None)
  | TInt64, VNull => Ok (PInt64 None)
  | TFloat64, VNull => Ok (PFloat None)
  | TUtf8, VNull => Ok (PText None)
  | TUuid, VNull => Ok (PUuid None)
  | TJson, VNull => Ok (PJson None)
  | TDate, VNull => Ok (PDate None)
  | TTimestamp None, VNull => Ok (PTimestamp None)
  | TTimestamp (Some _), VNull => Ok (PInstant None)
  | (TList _ | TDecimal _ _ | TStruct _ | TUnknown), _ =>
      Err (InvalidQueryParameter
             (reference +:+ " cannot be executed by the demonstrator PostgreSQL adapter"))
  | _, value =>
      Err (InvalidQueryParameter
             (reference +:+ " value " +:+ debug_value value +:+ " does not match " +:+ data_type_name data_type))
  end.

(** A connection, a prepared statement with its columns, and its execution,
    which answers with rows and may change the tables. *)
Class PgServer := {
  pg_connect : option string;
  pg_prepare : string → result (list (string * PgType)) string;
  pg_query : string → list PgParam → state Tables (result (list (list PgCell)) string)
}.

Context `{!PgServer}.

(** The object of a row: the cells under the names of their columns, of which
    the last one counts. *)
Definition row_to_json (cols : list (string * PgType)) (row : list PgCell) : Json Number :=
  JObject (List.fold_left
    (λ object c, map_insert c.1.1 (cell_to_json c.1.2 c.2) object) (List.combine cols row) []).

Definition execute (sql : string) : state Tables (result (list string * list (Json Number)) DbError) :=
  λ t,
    match pg_connect with
    | Some error => (Err (DbConnect error), t)
    | None =>
        match pg_prepare sql with
        | Err error => (Err (DbStatement error), t)
        | Ok cols =>
            match pg_query sql [] t with
            | (Err error, t) => (Err (DbStatement error), t)
            | (Ok rows, t) => (Ok (List.map fst cols, List.map (row_to_json cols) rows), t)
            end
        end
    end.

Definition usize_saturating_succ (n : N) : N := N.min (n + 1) u64_max.

Definition bounded_sql (sql : string) (max_rows : N) : string :=
  "SELECT * FROM (" +:+ sql +:+ ") AS queryfabric_result LIMIT " +:+ show_N (usize_saturating_succ max_rows).

(** What is answered of the rows that were fetched. *)
Definition bound_rows (cols : list (string * PgType)) (rows : list (list PgCell)) (max_rows max_bytes : N)
    : result (list string * list (Json Number) * bool) DbError :=
  let json_rows := List.map (row_to_json cols) rows in
  let truncated := (max_rows <? vec_len json_rows)%N in
  let json_rows := if truncated then take (N.to_nat max_rows) json_rows else json_rows in
  match rows_to_vec_len json_rows with
  | Err error => Err (QuerySerialization error)
  | Ok encoded =>
      if (max_bytes <? encoded)%N then Err (QueryLimit "bytes" encoded max_bytes)
      else Ok (List.map fst cols, json_rows, truncated)
  end.

Definition execute_query (sql : string) (parameters : list ParameterBinding) (max_rows max_bytes : N)
    : state Tables (result (list string * list (Json Number) * bool) DbError) :=
  λ t,
    let bounded := bounded_sql sql max_rows in
    match pg_connect with
    | Some error => (Err (DbConnect error), t)
    | None =>
        match pg_prepare bounded with
        | Err error => (Err (DbStatement error), t)
        | Ok cols =>
            match rcollect parameter_to_postgres parameters with
            | Err e => (Err e, t)
            | Ok owned_parameters =>
                match pg_query bounded owned_parameters t with
                | (Err error, t) => (Err (DbStatement error), t)
                | (Ok rows, t) => (bound_rows cols rows max_rows max_bytes, t)
                end
            end
        end
    end.
End Database.
Arguments Reading Number {_}. Arguments ReceiptRow Number : clear implicits. Arguments Tables Number {_}.
Arguments ImportCommit Number : clear implicits.

(** ** Imports are atomic, and replayed *)

Section Facts.
Context {Number : Type} `{!Postgres Number} `{!JsonMap Number}.
Implicit Types (t : Tables Number) (request : ImportCommit Number) (session : Session).

(** What a row of the artifact says: the columns [timestamp], [pm25], [no2] and
    [ozone], in this order, of a reading of the station. *)
Record row_says request (row : list string) (r : Reading Number) : Prop := {
  rs_station : reading_station r = ic_station_id request;
  rs_cells : ∃ timestamp p n o,
    row = [timestamp; p; n; o] ∧ rfc3339_naive timestamp = Ok (measured_at r)
    ∧ float_parse p = Ok (pm25 r) ∧ float_parse n = Ok (no2 r) ∧ float_parse o = Ok (ozone r)
}.

(** The table with the readings added whose identifier is not there. *)
Definition with_new (old new : list (Reading Number)) : list (Reading Number) :=
  List.fold_left (λ l r, if existsb (λ x, (reading_uuid x =? reading_uuid r)%N) l then l else l ++ [r]) new old.

(** The identifiers that are drawn for so many rows, from an ordinal on. *)
Fixpoint drawn {A} session (ordinal : N) (rows : list A) : list Uuid :=
  match rows with [] => [] | _ :: rows => row_uuid session ordinal :: drawn session (ordinal + 1) rows end.

(** What one committed import adds: a reading for every row, which says what the
    row says, and a receipt. *)
Record imported request session t (t' : Tables Number) : Prop := {
  im_stations : stations t' = stations t;
  im_receipts : receipts t' = receipts t ++ [receipt_row request session];
  im_readings : ∃ new, Forall2 (row_says request) (ic_rows request) new
                       ∧ List.map reading_uuid new = drawn session 0 (ic_rows request)
                       ∧ readings t' = with_new (readings t) new;
  im_new_key : select_receipt (import_key request) t = None;
  im_new_id : Forall (λ r, rr_receipt_id r ≠ receipt_uuid session) (receipts t)
}.

Lemma insert_reading_Ok (row : Reading Number) t t' :
  insert_reading row t = Ok t' → t' = set_readings t (with_new (readings t) [row]).
Proof. unfold insert_reading, with_new. simpl. intros H. repeat case_match; simplify_eq; [by destruct t'|done]. Qed.

Lemma reading_of_row_Ok request session ordinal row r :
  reading_of_row request session ordinal row = Ok r →
  row_says request row r ∧ reading_uuid r = row_uuid session ordinal.
Proof.
  unfold reading_of_row, field. intros H. do 5 (destruct row as [|? row]; try done).
  do 4 (apply rbind_Ok in H as (? & ? & H)). injection H as <-. repeat case_match; simplify_eq.
  split; [|done]. constructor; [done|]. by eexists _, _, _, _.
Qed.

Lemma insert_receipt_Ok (row : ReceiptRow Number) t t' :
  insert_receipt row t = Ok t' →
  stations t' = stations t ∧ readings t' = readings t ∧ receipts t' = receipts t ++ [row]
  ∧ Forall (λ r, rr_receipt_id r ≠ rr_receipt_id row ∧ idempotency_key r ≠ idempotency_key row) (receipts t).
Proof.
  unfold insert_receipt. intros H. case_match eqn:He; [done|]. injection H as <-. split_and!; [done..|].
  apply Forall_forall. intros r Hr%list_elem_of_In. apply not_true_iff_false in He. split; intros Heq; apply He;
    apply existsb_exists; exists r; (split; [done|]); apply orb_true_iff; [left; by apply N.eqb_eq|right; by apply String.eqb_eq].
Qed.

Lemma import_rows_Ok request session rows : ∀ ordinal t t',
  import_rows request session ordinal rows t = Ok t' →
  stations t' = stations t ∧ receipts t' = receipts t
  ∧ ∃ new, Forall2 (row_says request) rows new ∧ List.map reading_uuid new = drawn session ordinal rows
           ∧ readings t' = with_new (readings t) new.
Proof.
  induction rows as [|row rows IH]; intros ordinal t t' H; simpl in H.
  { injection H as <-. split_and!; [done..|]. exists []. split_and!; [constructor|done..]. }
  rewrite rbind_Ok in H. destruct H as (reading & [Hsays Hu]%reading_of_row_Ok & H).
  rewrite rbind_Ok in H. destruct H as (t1 & Ht1 & H).
  destruct (_ && _); [done|]. apply IH in H as (Hs & Hrc & new & Hf & Hd & Hn).
  destruct (row_fault session ordinal); [done|].
  destruct (insert_reading reading t) as [t2|] eqn:Hi; [|done]. injection Ht1 as <-.
  apply insert_reading_Ok in Hi as ->. split_and!; [done..|].
  exists (reading :: new). split_and!; [by constructor|simpl; by rewrite Hu, Hd|exact Hn].
Qed.

Lemma write_import_Ok request session t t' :
  write_import request session t = Ok t' → imported request session t t'.
Proof.
  unfold write_import, statement. destruct (bool_decide _); [done|]. destruct (prepare_fault session); [done|].
  rewrite rbind_Ok. intros (t1 & (Hs & Hrc & Hrd)%import_rows_Ok & H). rewrite rbind_Ok in H.
  destruct H as (t2 & H2 & H). destruct (bool_decide _); [done|]. injection H as <-.
  destruct (receipt_fault session); [done|].
  destruct (insert_receipt _ t1) as [t3|] eqn:Hi; [|done]. injection H2 as <-.
  apply insert_receipt_Ok in Hi as (Hs3 & Hr3 & Hc3 & Hf). rewrite Hrc in Hc3, Hf.
  constructor; [congruence|done|by rewrite Hr3| |].
  - unfold select_receipt. destruct (List.find _ (receipts t)) as [r|] eqn:Hfind; [|done].
    apply find_some in Hfind as [Hin%list_elem_of_In Heq%String.eqb_eq].
    rewrite Forall_forall in Hf. by destruct (Hf _ Hin) as [_ []].
  - eapply Forall_impl; [exact Hf|]. by intros r [Hr _].
Qed.

(** All or nothing: an import leaves the tables as they are, or adds its rows
    and its receipt; it answers with a new receipt when it added one and the
    commit was acknowledged, with an old one when nothing was added. *)
Lemma apply_import_cases request session t :
  match apply_import request session t with
  | (Ok (value, false), t') => imported request session t t' ∧ value = receipt_value request session
  | (Ok (value, true), t') =>
      t' = t ∧ ∃ r, select_receipt (import_key request) t = Some r ∧ replay_matches request r = true
                    ∧ value = receipt_json r
  | (Err e, t') =>
      t' = t ∨ imported request session t t' ∧ ∃ error, commit_fault session = Some (error, true) ∧ e = DbStatement error
  end.
Proof.
  unfold apply_import. destruct (look_up request session t) as [[value|]|e] eqn:Hl; [| |by left].
  - split; [done|]. unfold look_up, statement in Hl. repeat case_match; try done. injection Hl as <-. eauto.
  - unfold finish_import. destruct (write_import request session t) as [t'|e] eqn:Hw; [|by left].
    apply write_import_Ok in Hw. destruct (commit_fault session) as [[error []]|]; [by right; eauto|by left|done].
Qed.

(** The receipts have different keys and identifiers. *)
Definition keyed t : Prop := NoDup (List.map idempotency_key (receipts t)) ∧ NoDup (List.map rr_receipt_id (receipts t)).

Lemma select_in t key r : select_receipt key t = Some r → r ∈ receipts t ∧ idempotency_key r = key.
Proof.
  intros [Hin Hk]%find_some. split; [by apply list_elem_of_In|by apply String.eqb_eq].
Qed.

Lemma select_none t key : select_receipt key t = None ↔ key ∉ List.map idempotency_key (receipts t).
Proof.
  unfold select_receipt. split.
  - intros H (r & -> & Hin)%list_elem_of_fmap. apply list_elem_of_In in Hin.
    apply (find_none _ _ H) in Hin. by rewrite String.eqb_refl in Hin.
  - intros H. destruct (List.find _ _) as [r|] eqn:Hf; [|done]. apply select_in in Hf as [Hin Hk].
    destruct H. apply list_elem_of_fmap. eauto.
Qed.

Lemma select_elem t r : keyed t → r ∈ receipts t → select_receipt (idempotency_key r) t = Some r.
Proof.
  intros [Hk _] Hin. unfold select_receipt. revert Hk Hin. generalize (receipts t). induction l as [|x l IH]; [by intros _ ?%elem_of_nil|].
  simpl. intros [Hx Hl]%NoDup_cons [->|Hin]%elem_of_cons; [by rewrite String.eqb_refl|].
  destruct (String.eqb_spec (idempotency_key x) (idempotency_key r)) as [He|]; [|by apply IH].
  destruct Hx. rewrite He. apply list_elem_of_fmap. eauto.
Qed.

Lemma imported_keyed request session t t' : keyed t → imported request session t t' → keyed t'.
Proof.
  intros [Hk Hi] [_ Hr _ Hn Hd]. split; rewrite Hr, List.map_app; simpl; apply NoDup_app; split_and!; try done.
  1, 3: intros x Hx ->%list_elem_of_singleton.
  - by apply select_none in Hn.
  - apply list_elem_of_fmap in Hx as (r & He & Hin). rewrite Forall_forall in Hd. by apply (Hd r Hin).
  - apply NoDup_singleton.
  - apply NoDup_singleton.
Qed.

(** ** The rows of an import *)

(** The readings of the rows from an ordinal on. *)
Fixpoint readings_from request session (ordinal : N) (rows : list (list string)) : list (Reading Number) :=
  match rows with
  | [] => []
  | row :: rows =>
      match reading_of_row request session ordinal row with
      | Ok reading => reading :: readings_from request session (ordinal + 1) rows
      | Err _ => readings_from request session (ordinal + 1) rows
      end
  end.

Definition readings_of (d : ImportCommit Number * Session) : list (Reading Number) :=
  readings_from d.1 d.2 0 (ic_rows d.1).

(** [Uuid::now_v7] draws identifiers that are new, from an ordinal on. *)
Definition fresh_from (ordinal : N) session t : Prop :=
  ∀ i, (ordinal ≤ i)%N →
    ¬ (row_uuid session i ∈ List.map reading_uuid (readings t))
    ∧ (∀ j, row_uuid session i = row_uuid session j → i = j).

Lemma fresh_next ordinal session t r :
  fresh_from ordinal session t → reading_uuid r = row_uuid session ordinal →
  with_new (readings t) [r] = readings t ++ [r]
  ∧ fresh_from (ordinal + 1) session (set_readings t (readings t ++ [r])).
Proof.
  intros Hf Hu. split.
  - unfold with_new. simpl. case_match eqn:He; [|done]. apply existsb_exists in He as (x & Hin & Heq%N.eqb_eq).
    destruct (Hf ordinal) as [Hnew _]; [lia|]. destruct Hnew. rewrite <- Hu, <- Heq. apply list_elem_of_fmap.
    exists x. by rewrite list_elem_of_In.
  - intros i Hi. destruct (Hf i) as [Hnew Hinj]; [lia|]. split; [|done]. simpl. rewrite List.map_app, elem_of_app.
    intros [?|Hx%list_elem_of_singleton]; [done|]. rewrite Hu in Hx. apply Hinj in Hx. lia.
Qed.

Lemma with_new_fresh {A} session (rows : list A) : ∀ ordinal t new,
  fresh_from ordinal session t → List.map reading_uuid new = drawn session ordinal rows →
  with_new (readings t) new = readings t ++ new.
Proof.
  induction rows as [|row rows IH]; intros ordinal t new Hf H; destruct new as [|r new]; try done.
  { by rewrite app_nil_r. }
  injection H as Hu H. destruct (fresh_next _ _ _ _ Hf Hu) as [Hr Hf'].
  change (with_new (with_new (readings t) [r]) new = readings t ++ r :: new). rewrite Hr.
  pose proof (IH _ _ new Hf' H) as E. simpl in E. by rewrite E, <- app_assoc.
Qed.

(** Of identifiers that are new, every row is added. *)
Lemma fresh_rows_are_added request session t t' :
  fresh_from 0 session t → imported request session t t' →
  ∃ new, Forall2 (row_says request) (ic_rows request) new ∧ readings t' = readings t ++ new.
Proof.
  intros Hf [_ _ (new & Hsays & Hd & Hr) _ _]. exists new. split; [done|]. rewrite Hr. by eapply with_new_fresh.
Qed.

Lemma import_rows_exact request session rows : ∀ ordinal t t',
  fresh_from ordinal session t → import_rows request session ordinal rows t = Ok t' →
  readings t' = readings t ++ readings_from request session ordinal rows
  ∧ length (readings_from request session ordinal rows) = length rows.
Proof.
  induction rows as [|row rows IH]; intros ordinal t t' Hf H; simpl in H |- *.
  { injection H as <-. by rewrite app_nil_r. }
  rewrite rbind_Ok in H. destruct H as (reading & Hr & H). rewrite rbind_Ok in H. destruct H as (t1 & Ht1 & H).
  destruct (_ && _); [done|]. destruct (row_fault session ordinal); [done|].
  destruct (insert_reading reading t) as [t2|] eqn:Hi; [|done]. injection Ht1 as ->. rewrite Hr.
  destruct (reading_of_row_Ok _ _ _ _ _ Hr) as [_ Hu]. destruct (fresh_next _ _ _ _ Hf Hu) as [Hnew Hf'].
  apply insert_reading_Ok in Hi as ->. rewrite Hnew in H.
  destruct (IH _ _ _ Hf' H) as [Hrd Hl]. simpl in Hrd. rewrite Hrd, <- app_assoc. split; [done|simpl; lia].
Qed.

Lemma finish_exact request session t v t' :
  fresh_from 0 session t → finish_import request session t = (v, t') →
  t' = t ∨ imported request session t t' ∧ readings t' = readings t ++ readings_of (request, session)
           ∧ length (readings_of (request, session)) = length (ic_rows request).
Proof.
  unfold finish_import. intros Hf H. destruct (write_import request session t) as [written|] eqn:Hw; [|left; congruence].
  assert (imported request session t written ∧ readings written = readings t ++ readings_of (request, session)
          ∧ length (readings_of (request, session)) = length (ic_rows request)) as Hx.
  { split; [by apply write_import_Ok|]. unfold write_import, statement in Hw. destruct (bool_decide _) in Hw; [done|].
    destruct (prepare_fault session); [done|]. rewrite rbind_Ok in Hw. destruct Hw as (t1 & H1 & Hw).
    apply import_rows_exact in H1 as [H1 Hl]; [|done]. split; [|done]. change (readings written = readings t ++ readings_from request session 0 (ic_rows request)).
    rewrite <- H1. rewrite rbind_Ok in Hw. destruct Hw as (t2 & H2 & Hw).
    destruct (bool_decide _) in Hw; [done|]. injection Hw as <-. destruct (receipt_fault session); [done|].
    destruct (insert_receipt _ t1) eqn:Hi; [|done]. injection H2 as <-. by apply insert_receipt_Ok in Hi as (_ & -> & _). }
  destruct (commit_fault session) as [[error []]|]; injection H as _ <-; auto.
Qed.

Lemma apply_import_exact request session t v t' :
  fresh_from 0 session t → apply_import request session t = (Ok (v, false), t') →
  readings t' = readings t ++ readings_of (request, session)
  ∧ length (readings_of (request, session)) = length (ic_rows request).
Proof.
  intros Hf H. pose proof (apply_import_cases request session t) as Hcases. rewrite H in Hcases.
  destruct Hcases as [Him _]. unfold apply_import in H. destruct (look_up request session t) as [[]|]; [done| |done].
  apply finish_exact in H as [->|(_ & ? & ?)]; [|done..]. pose proof (im_receipts _ _ _ _ Him) as Hr.
  apply (f_equal length) in Hr. rewrite length_app in Hr. simpl in Hr. lia.
Qed.

(** No statement fails. *)
Record undisturbed session : Prop := {
  un_look_up : connect_fault session = None ∧ begin_fault session = None ∧ select_fault session = None;
  un_prepare : prepare_fault session = None;
  un_rows : ∀ i, row_fault session i = None;
  un_receipt : receipt_fault session = None;
  un_commit : commit_fault session = None
}.

Lemma import_rows_total request session rows : ∀ ordinal t,
  undisturbed session → ic_failure_stage request = None → has_station (ic_station_id request) t = true →
  Forall (λ row, ∀ i, ∃ reading, reading_of_row request session i row = Ok reading) rows →
  ∃ t', import_rows request session ordinal rows t = Ok t'.
Proof.
  intros ordinal t Hu Hstage Hs Hrows. revert ordinal t Hs. induction Hrows as [|row rows Hrow _ IH]; intros ordinal t Hs; simpl; [by eexists|].
  destruct (Hrow ordinal) as [reading Hr]. rewrite Hr. simpl. rewrite (un_rows _ Hu), Hstage. simpl.
  destruct (reading_of_row_Ok _ _ _ _ _ Hr) as [[Hst _] _].
  assert (∃ t1, insert_reading reading t = Ok t1 ∧ stations t1 = stations t) as (t1 & -> & Hs1).
  { unfold insert_reading. rewrite Hst, Hs. case_match; by eexists. }
  simpl. apply IH. unfold has_station. by rewrite Hs1.
Qed.

Lemma insert_receipt_total (row : ReceiptRow Number) t :
  select_receipt (idempotency_key row) t = None → Forall (λ r, rr_receipt_id r ≠ rr_receipt_id row) (receipts t) →
  ∃ t', insert_receipt row t = Ok t'.
Proof.
  intros Hk%select_none Hid. unfold insert_receipt. case_match eqn:He; [|by eexists]. exfalso.
  apply existsb_exists in He as (r & Hin%list_elem_of_In & Hor). rewrite Forall_forall in Hid.
  apply orb_true_iff in Hor as [Hx%N.eqb_eq|Hx%String.eqb_eq]; [by apply (Hid r)|].
  destruct Hk. apply list_elem_of_fmap. by exists r.
Qed.

Lemma apply_import_total request session t :
  undisturbed session → ic_failure_stage request = None → has_station (ic_station_id request) t = true →
  Forall (λ row, ∀ i, ∃ reading, reading_of_row request session i row = Ok reading) (ic_rows request) →
  select_receipt (import_key request) t = None → Forall (λ r, rr_receipt_id r ≠ receipt_uuid session) (receipts t) →
  ∃ t', apply_import request session t = (Ok (receipt_value request session, false), t').
Proof.
  intros Hu Hstage Hs Hrows Hk Hid. unfold apply_import, look_up, finish_import, write_import, statement.
  destruct (un_look_up _ Hu) as (-> & -> & ->). rewrite Hk, Hstage, (un_prepare _ Hu). simpl.
  destruct (import_rows_total _ _ _ 0%N _ Hu Hstage Hs Hrows) as [t1 H1]. rewrite H1. simpl. rewrite (un_receipt _ Hu).
  apply import_rows_Ok in H1 as (_ & Hr & _).
  destruct (insert_receipt_total (receipt_row request session) t1) as [t2 ->].
  - cbn [receipt_row idempotency_key]. unfold select_receipt. by rewrite Hr.
  - by rewrite Hr.
  - simpl. rewrite (un_commit _ Hu). by eexists.
Qed.

(** ** Imports side by side *)

(** The committed tables, and the transactions that have found no receipt. *)
Record ImportWorld := { committed : Tables Number; pending : list (ImportCommit Number * Session) }.

Inductive import_step : ImportWorld → ImportWorld → Prop :=
| step_look_up w request session :
    look_up request session (committed w) = Ok None →
    import_step w {| committed := committed w; pending := (request, session) :: pending w |}
| step_finish w before request session after v t' :
    pending w = before ++ (request, session) :: after →
    fresh_from 0 session (committed w) →
    finish_import request session (committed w) = (v, t') →
    import_step w {| committed := t'; pending := before ++ after |}
| step_lost w before d after :
    pending w = before ++ d :: after →
    import_step w {| committed := committed w; pending := before ++ after |}.

(** What the imports that were carried out have added. *)
Definition has_imported t (ds : list (ImportCommit Number * Session)) (t' : Tables Number) : Prop :=
  keyed t' ∧ stations t' = stations t ∧ receipts t' = receipts t ++ List.map (λ d, receipt_row d.1 d.2) ds
  ∧ readings t' = readings t ++ mjoin (List.map readings_of ds)
  ∧ Forall (λ d, length (readings_of d) = length (ic_rows d.1)) ds.

Lemma step_has_imported t ds w w' :
  has_imported t ds (committed w) → import_step w w' → ∃ ds', has_imported t (ds ++ ds') (committed w').
Proof.
  intros (Hk & Hs & Hr & Hd & Hl) Hstep. destruct Hstep as [w request session _|w before request session after v t' _ Hf Hfin|w].
  1, 3: exists []; rewrite app_nil_r; done.
  apply finish_exact in Hfin as [->|(Him & Hrd & Hlen)]; [exists []; by rewrite app_nil_r| |done].
  exists [(request, session)]. split_and!; simpl.
  - by eapply imported_keyed.
  - rewrite <- Hs. by apply Him.
  - rewrite List.map_app, app_assoc, <- Hr. apply Him.
  - rewrite Hrd, Hd, List.map_app, join_app. simpl. by rewrite app_nil_r, app_assoc.
  - apply Forall_app. split; [done|]. by constructor.
Qed.

Lemma reachable_has_imported t w w' :
  rtc import_step w w' → ∀ ds, has_imported t ds (committed w) → ∃ ds', has_imported t (ds ++ ds') (committed w').
Proof.
  induction 1 as [w|w w1 w2 Hstep _ IH]; intros ds H; [exists []; by rewrite app_nil_r|].
  destruct (step_has_imported _ _ _ _ H Hstep) as [ds1 H1]. destruct (IH _ H1) as [ds2 H2]. exists (ds1 ++ ds2).
  by rewrite app_assoc.
Qed.

(** A JSONB column gives back an equal value. *)
Class LawfulPostgres := { jsonb_equal : ∀ v : Json Number, value_eqb (jsonb v) v = true }.

(** No statement up to the look-up fails. *)
Definition looks_up session : Prop := connect_fault session = None ∧ begin_fault session = None ∧ select_fault session = None.

Lemma receipt_replays `{!LawfulPostgres} request session session' t :
  keyed t → receipt_row request session ∈ receipts t → looks_up session' →
  apply_import request session' t = (Ok (jsonb (receipt_value request session), true), t).
Proof.
  intros Hk Hin (Hc & Hb & Hs). unfold apply_import, look_up. rewrite Hc, Hb, Hs. simpl.
  pose proof (select_elem _ _ Hk Hin) as Hsel. cbn [receipt_row idempotency_key] in Hsel. rewrite Hsel.
  unfold replay_matches. simpl. by rewrite !String.eqb_refl, N.eqb_refl, Z.eqb_refl, jsonb_equal.
Qed.

(** C11: exactly once.  Whatever transactions run side by side, and whatever
    statements of theirs fail, the tables are those at the start with the rows
    and the receipt of some of the imports, each of them in full and under a key
    of its own; and any import among them, applied again, adds nothing and
    answers with the receipt it has. *)
Theorem imports_are_exactly_once `{!LawfulPostgres} t w' :
  keyed t → rtc import_step {| committed := t; pending := [] |} w' →
  ∃ ds, receipts (committed w') = receipts t ++ List.map (λ d, receipt_row d.1 d.2) ds
        ∧ readings (committed w') = readings t ++ mjoin (List.map readings_of ds)
        ∧ Forall (λ d, length (readings_of d) = length (ic_rows d.1)) ds
        ∧ NoDup (List.map (λ d, import_key d.1) ds)
        ∧ ∀ request session session', (request, session) ∈ ds → looks_up session' →
            apply_import request session' (committed w')
            = (Ok (jsonb (receipt_value request session), true), committed w').
Proof.
  intros Hk Hr. destruct (reachable_has_imported t _ _ Hr []) as [ds (Hk' & _ & Hrc & Hrd & Hl)].
  { split_and!; simpl; [done|done|by rewrite app_nil_r|by rewrite app_nil_r|constructor]. }
  simpl in *. exists ds. split_and!; [done..| |].
  - destruct Hk' as [Hkey _]. rewrite Hrc, List.map_app, List.map_map in Hkey. apply NoDup_app in Hkey. apply Hkey.
  - intros request session session' Hin Hs. apply receipt_replays; [done| |done]. rewrite Hrc. apply elem_of_app. right.
    apply list_elem_of_fmap. by exists (request, session).
Qed.
End Facts.

(** ** Seeding twice *)

Section Seeding.
Context {Number : Type} `{!Postgres Number} `{!JsonMap Number} `{V5 : !UuidV5}.
Implicit Types (t : Tables Number).

(** A statement that establishes what makes it do nothing, which all the
    statements keep. *)
Record settles {A} (f : A → state (Tables Number) (result unit DbError)) (P : A → Tables Number → Prop)
    (Inv : Tables Number → Tables Number → Prop) : Prop := {
  se_done : ∀ x t t', f x t = (Ok tt, t') → P x t' ∧ Inv t t';
  se_kept : ∀ x t t', Inv t t' → P x t → P x t';
  se_again : ∀ x t, P x t → f x t = (Ok tt, t)
}.

Lemma try_each_settles {A} (f : A → state (Tables Number) (result unit DbError)) P Inv :
  PreOrder Inv → settles f P Inv →
  settles (try_each f) (λ l t, Forall (λ x, P x t) l) Inv.
Proof.
  intros Hpre [Hd Hk Ha]. constructor.
  - intros l. induction l as [|x l IH]; intros t t' H; simpl in H.
    { injection H as <-. split; [constructor|reflexivity]. }
    destruct (f x t) as [[[]|e] t1] eqn:Hf; [|done]. apply Hd in Hf as [Hx Hi]. apply IH in H as [Hl Hi'].
    split; [|by transitivity t1]. constructor; [by eapply Hk|done].
  - intros l t t' Hi H. eapply Forall_impl; [exact H|]. intros x. by apply Hk.
  - intros l t H. induction H as [|x l Hx Hl IH]; simpl; [done|]. by rewrite (Ha _ _ Hx).
Qed.

(** Rows are only added. *)
Definition grows t t' : Prop :=
  (∃ new, stations t' = stations t ++ new) ∧ (∃ new, readings t' = readings t ++ new) ∧ receipts t' = receipts t.

#[local] Instance grows_pre_order : PreOrder grows.
Proof.
  split.
  - intros t. split_and!; [exists []|exists []|done]; by rewrite app_nil_r.
  - intros t1 t2 t3 ((a & Ha) & (b & Hb) & Hc) ((a' & Ha') & (b' & Hb') & Hc'). split_and!.
    + exists (a ++ a'). by rewrite Ha', Ha, app_assoc.
    + exists (b ++ b'). by rewrite Hb', Hb, app_assoc.
    + congruence.
Qed.

Lemma existsb_grows {A} (f : A → bool) l new : existsb f l = true → existsb f (l ++ new) = true.
Proof. intros H. by rewrite existsb_app, H. Qed.

Lemma insert_station_settles :
  settles (db_insert insert_station) (λ row t, existsb (λ s : Uuid * string, (s.1 =? row.1)%N) (stations t) = true) grows.
Proof.
  constructor.
  - intros row t t'. unfold db_insert. destruct (insert_station row t) as [t1|] eqn:Hi; [|done]. intros [= <-].
    unfold insert_station in Hi. case_match eqn:He; [injection Hi as <-; split; [done|reflexivity]|].
    case_match; [done|]. injection Hi as <-. simpl. split.
    + rewrite existsb_app. simpl. by rewrite N.eqb_refl, orb_true_r.
    + split_and!; [by eexists|exists []; by rewrite app_nil_r|done].
  - intros row t t' ((new & ->) & _) H. by apply existsb_grows.
  - intros row t H. unfold db_insert, insert_station.
    match goal with |- context [if ?b then _ else _] => assert (b = true) as -> by exact H end. done.
Qed.

Lemma insert_reading_settles :
  settles (db_insert insert_reading)
    (λ row t, existsb (λ r : Reading Number, (reading_uuid r =? reading_uuid row)%N) (readings t) = true) grows.
Proof.
  constructor.
  - intros row t t'. unfold db_insert. destruct (insert_reading row t) as [t1|] eqn:Hi; [|done]. intros [= <-].
    unfold insert_reading in Hi. case_match eqn:He; [injection Hi as <-; split; [done|reflexivity]|].
    case_match; [|done]. injection Hi as <-. simpl. split.
    + rewrite existsb_app. simpl. by rewrite N.eqb_refl, orb_true_r.
    + split_and!; [exists []; by rewrite app_nil_r|by eexists|done].
  - intros row t t' (_ & (new & ->) & _) H. by apply existsb_grows.
  - intros row t H. unfold db_insert, insert_reading.
    match goal with |- context [if ?b then _ else _] => assert (b = true) as -> by exact H end. done.
Qed.

(** Settling through a function of the statement. *)
Lemma settles_map {A B} (g : B → A) (f : A → state (Tables Number) (result unit DbError)) P Inv :
  settles f P Inv → settles (λ x, f (g x)) (λ x, P (g x)) Inv.
Proof. intros [Hd Hk Ha]. constructor; intros x; [apply Hd|apply Hk|apply Ha]. Qed.

(** Seeding is idempotent: a second run changes nothing and does not fail. *)
Theorem seed_is_idempotent t t' : seed t = (Ok tt, t') → seed t' = (Ok tt, t').
Proof.
  unfold seed. intros H.
  pose proof (try_each_settles _ _ _ grows_pre_order
    (settles_map (λ station, (station_id station, code station)) _ _ _ insert_station_settles)) as [Hd1 Hk1 Ha1].
  pose proof (try_each_settles _ _ _ grows_pre_order
    (settles_map readings_for _ _ _ (try_each_settles _ _ _ grows_pre_order insert_reading_settles))) as [Hd2 _ Ha2].
  destruct (seed_schema t) as [[[]|e] t1] eqn:H1; [|done]. apply Hd1 in H1 as [Hs _]. apply Hd2 in H as [Hr Hg].
  assert (seed_schema t' = (Ok tt, t')) as -> by (apply Ha1; by eapply Hk1).
  by apply Ha2.
Qed.
End Seeding.

(** ** Queries are bounded *)

Section Queries.
Context {Number : Type} `{!Postgres Number} `{!JsonMap Number} `{Server : !PgServer}.

(** What is answered is the beginning of what the server answers to the bounded
    text: at most so many rows, of at most so many bytes, and marked as
    truncated exactly when the server had more. *)
Lemma execute_query_bounded sql parameters max_rows max_bytes cols rows truncated t t' :
  execute_query sql parameters max_rows max_bytes t = (Ok (cols, rows, truncated), t') →
  (vec_len rows ≤ max_rows)%N
  ∧ (∃ encoded, rows_to_vec_len rows = Ok encoded ∧ (encoded ≤ max_bytes)%N)
  ∧ ∃ types params all,
      pg_prepare (bounded_sql sql max_rows) = Ok types ∧ rcollect parameter_to_postgres parameters = Ok params
      ∧ pg_query (bounded_sql sql max_rows) params t = (Ok all, t')
      ∧ cols = List.map fst types ∧ rows = take (N.to_nat max_rows) (List.map (row_to_json types) all)
      ∧ (truncated = true ↔ (max_rows < vec_len all)%N).
Proof.
  unfold execute_query. destruct pg_connect; [done|]. destruct (pg_prepare _) as [types|] eqn:Hp; [|done].
  destruct (rcollect _ _) as [params|] eqn:Hparams; [|done].
  destruct (pg_query _ params t) as [[all|] t1] eqn:Hq; [|done]. intros [= H <-]. unfold bound_rows in H.
  set (json := List.map (row_to_json types) all) in *.
  assert (vec_len json = vec_len all) as Hlen by (unfold vec_len, json; by rewrite length_map).
  assert ((if (max_rows <? vec_len json)%N then take (N.to_nat max_rows) json else json)
          = take (N.to_nat max_rows) json) as Hrows.
  { destruct (N.ltb_spec max_rows (vec_len json)) as [|Hle]; [done|]. symmetry. apply take_ge. unfold vec_len in Hle. lia. }
  rewrite Hrows in H. destruct (rows_to_vec_len _) as [encoded|] eqn:He; [|done].
  destruct (N.ltb_spec max_bytes encoded) as [|Hle]; [done|]. injection H as <- <- <-. split_and!.
  - unfold vec_len. rewrite length_take. lia.
  - eauto.
  - exists types, params, all. split_and!; [done..|]. rewrite N.ltb_lt. by rewrite Hlen.
Qed.

(** *** Selects only read

    A prepared text is one statement, and one that begins with [SELECT] changes
    no table: statements that modify data stand at the top, or in a [WITH] that
    does, and no function of the server writes to a table of the host, whose
    schema defines no functions. *)
Class LawfulPgServer : Prop := {
  select_reads : ∀ rest params types t,
    pg_prepare ("SELECT " +:+ rest) = Ok types → (pg_query ("SELECT " +:+ rest) params t).2 = t
}.

Lemma execute_query_reads `{Laws : !LawfulPgServer} sql parameters max_rows max_bytes t :
  (execute_query sql parameters max_rows max_bytes t).2 = t.
Proof.
  unfold execute_query. destruct pg_connect; [done|].
  destruct (pg_prepare (bounded_sql sql max_rows)) as [types|] eqn:Hp; [|done].
  destruct (rcollect _ _) as [params|]; [|done].
  pose proof (select_reads _ params types t Hp) as Hr. change (_ +:+ _) with (bounded_sql sql max_rows) in Hr.
  by destruct (pg_query _ params t) as [[rows|] t'].
Qed.

Lemma execute_reads `{Laws : !LawfulPgServer} rest t : (execute ("SELECT " +:+ rest) t).2 = t.
Proof.
  unfold execute. destruct pg_connect; [done|]. destruct (pg_prepare _) as [types|] eqn:Hp; [|done].
  pose proof (select_reads _ [] types t Hp) as Hr. by destruct (pg_query _ [] t) as [[rows|] t'].
Qed.

(** A value that fits its schema can be sent, unless its type is not supported,
    its text is refused, or an integer is too large for its 32 bits. *)
Lemma fitting_parameter_is_sent binding value :
  pb_value binding = Some value → parameter_value_matches_schema value (pb_schema binding) = true →
  (∃ param, parameter_to_postgres binding = Ok param)
  ∨ match ps_data_type (pb_schema binding), value with
    | (TList _ | TDecimal _ _ | TStruct _ | TUnknown), _ => True
    | TInt32, VInt64 i => ¬ (- 2 ^ 31 ≤ i < 2 ^ 31)%Z
    | TFloat64, VFloat64 text => ∃ error, float_parse text = Err error
    | TUuid, VUuid text => ∃ error, pg_uuid_parse text = Err error
    | TJson, VJson text => ∃ error, value_from_str text = Err error
    | _, _ => False
    end.
Proof.
  unfold parameter_value_matches_schema, parameter_to_postgres. intros ->. simpl.
  destruct (ps_data_type (pb_schema binding)) as [| | | | | | | | |[]| | |], value as [| |i|text|text|text|text|]; simpl;
    try done; intros _; try (by left; eexists); try (by right).
  - destruct (Z.leb_spec (- 2 ^ 31) i), (Z.ltb_spec i (2 ^ 31)); simpl; [left; by eexists|right; lia..].
  - unfold parsed_param. destruct (float_parse text); [left|right]; by eexists.
  - unfold parsed_param. destruct (pg_uuid_parse text); [left|right]; by eexists.
  - unfold parsed_param. destruct (value_from_str text); [left|right]; by eexists.
Qed.
End Queries.
