(* ===== verification/HostConfig.v ===== *)
(** The configuration of the demonstrator host: [queryfabric-demo/src/config.rs].

    The environment and the files are functions of their names; the parser of
    socket addresses and the escapes of [Debug], which need tables of Unicode,
    are the class [HostPlatform]. *)
From Stdlib Require Import Ascii.
From S2P Require Import Prelude Contract Catalog Json Numerals Citation SourceMap Tokens HostDb.
Local Open Scope result_scope.

Inductive ConfigError :=
| Missing (name : string)
| Invalid (name value expected : string)
| Unreadable (name path source : string)
| MissingCredential (path key : string).

Inductive StoreConfig :=
| StoreMemory
| StoreS3 (endpoint bucket region credentials_file : string).

Definition backend_label (self : StoreConfig) : string :=
  match self with StoreMemory => "memory" | StoreS3 _ _ _ _ => "s3" end.

Record FederationConfig := {
  federation_enable : bool;
  node_name : string;
  hub_multiaddrs : list string;
  federation_flight_port : N
}.

Record S3Credentials := { access_key_id : string; secret_access_key : string }.

Class HostPlatform := {
  SocketAddr : Type;
  parse_addr : string → option SocketAddr;
  addr_text : SocketAddr → string;
  addr_ip_text : SocketAddr → string;
  (** [Debug] of a string. *)
  debug_str : string → string
}.

Section Config.
Context `{Platform : !HostPlatform}.
(** [std::env::var] and [std::fs::read_to_string]. *)
Context (environment : string → option string) (read_file : string → result string string).

Record DemoConfig := {
  listen_addr : SocketAddr;
  database_migration_url : string;
  database_query_url : string;
  database_import_url : string;
  auth_secret : string;
  db_wait_secs : N;
  public_base_url : string;
  seed_demo_data : bool;
  store_config : StoreConfig;
  federation : FederationConfig;
  import_failure : option ImportFailureStage
}.

Definition env_var (name : string) : option string :=
  match environment name with
  | Some value => if String.eqb value "" then None else Some value
  | None => None
  end.

(** The file wins. *)
Definition env_or_file (name file_name : string) : result (option string) ConfigError :=
  match env_var file_name with
  | Some path =>
      match read_file path with
      | Ok contents => Ok (Some (trim contents))
      | Err source => Err (Unreadable file_name path source)
      end
  | None => Ok (env_var name)
  end.

(** [str::lines]: without the line ends, and without a last line that is empty. *)
Definition strip_cr (s : string) : string :=
  match String.rev s with
  | String c rest => if Ascii.eqb c (ascii_of_N 13) then String.rev rest else s
  | EmptyString => s
  end.

Fixpoint lines_from (s : string) (line : string) : list string :=
  match s with
  | EmptyString => if String.eqb line "" then [] else [line]
  | String c s =>
      if Ascii.eqb c (ascii_of_N 10) then strip_cr line :: lines_from s ""
      else lines_from s (line +:+ String c "")
  end.

Definition lines (s : string) : list string := lines_from s "".

(** The loop over the lines of a credentials file; the last of equal keys counts. *)
Fixpoint read_credentials (ls : list string) (access secret : option string) : option string * option string :=
  match ls with
  | [] => (access, secret)
  | l :: ls =>
      let line := trim l in
      if String.eqb line "" || str_starts_with "#" line then read_credentials ls access secret
      else
        match split_first "=" line with
        | Some (key, value) =>
            if String.eqb (trim key) "QFDEMO_STORE_ACCESS_KEY" then read_credentials ls (Some (trim value)) secret
            else if String.eqb (trim key) "QFDEMO_STORE_SECRET_KEY" then read_credentials ls access (Some (trim value))
            else read_credentials ls access secret
        | None => read_credentials ls access secret
        end
  end.

Definition parse_credentials_file (path : string) : result S3Credentials ConfigError :=
  match read_file path with
  | Err source => Err (Unreadable "QFDEMO_STORE_CREDENTIALS_FILE" path source)
  | Ok contents =>
      let '(access, secret) := read_credentials (lines contents) None None in
      let? access := ok_or access (MissingCredential path "QFDEMO_STORE_ACCESS_KEY") in
      let? secret := ok_or secret (MissingCredential path "QFDEMO_STORE_SECRET_KEY") in
      Ok {| access_key_id := access; secret_access_key := secret |}
  end.

(** [str::parse] into an unsigned integer below a modulus. *)
Definition parse_unsigned (modulus : N) (s : string) : option N :=
  let digits := default s (strip_prefix "+" s) in
  if String.eqb digits "" then None
  else
    match parse_digits digits 0 with
    | Some n => if (n <? modulus)%N then Some n else None
    | None => None
    end.

(** A variable that parses, or a value where it is not set. *)
Definition parsed_env {A} (name expected : string) (parse : string → option A) (otherwise : A) : result A ConfigError :=
  match env_var name with
  | None => Ok otherwise
  | Some raw => ok_or (parse raw) (Invalid name raw expected)
  end.

Definition parse_bool (raw : string) : option bool :=
  if String.eqb raw "true" || String.eqb raw "1" then Some true
  else if String.eqb raw "false" || String.eqb raw "0" then Some false
  else None.

Definition store_from_env : result StoreConfig ConfigError :=
  let backend := default "memory" (env_var "QFDEMO_STORE_BACKEND") in
  if String.eqb backend "memory" then Ok StoreMemory
  else if String.eqb backend "s3" then
    let? endpoint := ok_or (env_var "QFDEMO_STORE_ENDPOINT") (Missing "QFDEMO_STORE_ENDPOINT") in
    let? bucket := ok_or (env_var "QFDEMO_STORE_BUCKET") (Missing "QFDEMO_STORE_BUCKET") in
    let region := default "us-east-1" (env_var "QFDEMO_STORE_REGION") in
    let? credentials_file := ok_or (env_var "QFDEMO_STORE_CREDENTIALS_FILE") (Missing "QFDEMO_STORE_CREDENTIALS_FILE") in
    Ok (StoreS3 endpoint bucket region credentials_file)
  else Err (Invalid "QFDEMO_STORE_BACKEND" backend "'memory' or 's3'").

(** [str::split] at commas. *)
Fixpoint split_commas (s : string) (part : string) : list string :=
  match s with
  | EmptyString => [part]
  | String c s => if Ascii.eqb c "," then part :: split_commas s "" else split_commas s (part +:+ String c "")
  end.

Definition federation_from_env : result FederationConfig ConfigError :=
  let? enable := parsed_env "QFDEMO_FEDERATION_ENABLE" "'true' or 'false'" parse_bool false in
  let? port := parsed_env "QFDEMO_FEDERATION_FLIGHT_PORT" "a TCP port number" (parse_unsigned (2 ^ 16)) 50051%N in
  Ok {| federation_enable := enable;
        node_name := default "queryfabric-demo" (env_var "QFDEMO_FEDERATION_NODE_NAME");
        hub_multiaddrs :=
          match env_var "QFDEMO_FEDERATION_HUB_MULTIADDRS" with
          | Some raw => List.filter (λ addr, negb (String.eqb addr "")) (List.map trim (split_commas raw ""))
          | None => []
          end;
        federation_flight_port := port |}.

Definition import_failure_from_env : result (option ImportFailureStage) ConfigError :=
  match env_var "QFDEMO_IMPORT_FAILURE" with
  | None => Ok None
  | Some raw =>
      if negb (bool_decide (env_var "QFDEMO_ENABLE_FAILURE_INJECTION" = Some "1")) then
        Err (Invalid "QFDEMO_IMPORT_FAILURE" raw "unset unless QFDEMO_ENABLE_FAILURE_INJECTION=1")
      else if String.eqb raw "before-rows" then Ok (Some BeforeRows)
      else if String.eqb raw "during-rows" then Ok (Some DuringRows)
      else if String.eqb raw "before-commit" then Ok (Some BeforeCommit)
      else Err (Invalid "QFDEMO_IMPORT_FAILURE" raw "before-rows, during-rows, or before-commit")
  end.

Definition from_env : result DemoConfig ConfigError :=
  let listen_raw := default "127.0.0.1:8780" (env_var "QFDEMO_LISTEN_ADDR") in
  let? listen :=
    ok_or (parse_addr listen_raw) (Invalid "QFDEMO_LISTEN_ADDR" listen_raw "a socket address such as 127.0.0.1:8780") in
  let? url := env_or_file "QFDEMO_DATABASE_URL" "QFDEMO_DATABASE_URL_FILE" in
  let? database_url := ok_or url (Missing "QFDEMO_DATABASE_URL") in
  let? secret := env_or_file "QFDEMO_AUTH_SECRET" "QFDEMO_AUTH_SECRET_FILE" in
  let? secret := ok_or secret (Missing "QFDEMO_AUTH_SECRET") in
  let? _valid :=
    map_err (λ error, Invalid "QFDEMO_AUTH_SECRET" "<redacted>"
               match error with
               | SecretTooShort => "a secret of at least 32 bytes"
               | _ => "a valid PASETO secret"
               end) (validate_paseto_secret secret) in
  let? migration := env_or_file "QFDEMO_DATABASE_MIGRATION_URL" "QFDEMO_DATABASE_MIGRATION_URL_FILE" in
  let? query := env_or_file "QFDEMO_DATABASE_QUERY_URL" "QFDEMO_DATABASE_QUERY_URL_FILE" in
  let? import := env_or_file "QFDEMO_DATABASE_IMPORT_URL" "QFDEMO_DATABASE_IMPORT_URL_FILE" in
  let? wait :=
    parsed_env "QFDEMO_DB_WAIT_SECS" "a non-negative integer number of seconds" (parse_unsigned (2 ^ 64)) 60%N in
  let base_url := default ("http://" +:+ addr_text listen) (env_var "QFDEMO_PUBLIC_BASE_URL") in
  let? seed_data := parsed_env "QFDEMO_SEED_DATA" "'true' or 'false'" parse_bool true in
  let? store := store_from_env in
  let? federation := federation_from_env in
  let? failure := import_failure_from_env in
  Ok {| listen_addr := listen; database_migration_url := default database_url migration;
        database_query_url := default database_url query; database_import_url := default database_url import;
        auth_secret := secret; db_wait_secs := wait; public_base_url := base_url; seed_demo_data := seed_data;
        store_config := store; federation := federation; import_failure := failure |}.

(** ** What is logged *)

(** [debug_struct]: the fields with their texts. *)
Definition debug_struct (name : string) (fields : list (string * string)) : string :=
  name +:+ " { " +:+ string_join ", " (List.map (λ f, f.1 +:+ ": " +:+ f.2) fields) +:+ " }".

Definition debug_bool (b : bool) : string := if b then "true" else "false".

Definition debug_store (self : StoreConfig) : string :=
  match self with
  | StoreMemory => "Memory"
  | StoreS3 endpoint bucket region credentials_file =>
      debug_struct "S3" [("endpoint", debug_str endpoint); ("bucket", debug_str bucket);
                         ("region", debug_str region); ("credentials_file", debug_str credentials_file)]
  end.

Definition debug_federation (self : FederationConfig) : string :=
  debug_struct "FederationConfig"
    [("enable", debug_bool (federation_enable self)); ("node_name", debug_str (node_name self));
     ("hub_multiaddrs", "[" +:+ string_join ", " (List.map debug_str (hub_multiaddrs self)) +:+ "]");
     ("flight_port", show_N (federation_flight_port self))].

Definition debug_failure (self : option ImportFailureStage) : string :=
  match self with
  | None => "None"
  | Some BeforeRows => "Some(BeforeRows)"
  | Some DuringRows => "Some(DuringRows)"
  | Some BeforeCommit => "Some(BeforeCommit)"
  end.

Definition debug_credentials (self : S3Credentials) : string :=
  debug_struct "S3Credentials"
    [("access_key_id", debug_str (access_key_id self)); ("secret_access_key", debug_str "<redacted>")].

Definition debug_config (self : DemoConfig) : string :=
  debug_struct "DemoConfig"
    [("listen_addr", addr_text (listen_addr self)); ("database_migration_url", debug_str "<redacted>");
     ("database_query_url", debug_str "<redacted>"); ("database_import_url", debug_str "<redacted>");
     ("auth_secret", debug_str "<redacted>"); ("db_wait_secs", show_N (db_wait_secs self));
     ("public_base_url", debug_str (public_base_url self)); ("seed_demo_data", debug_bool (seed_demo_data self));
     ("store", debug_store (store_config self)); ("federation", debug_federation (federation self));
     ("import_failure", debug_failure (import_failure self))].
End Config.

(** ** What a configuration satisfies *)

Section Facts.
Context `{Platform : !HostPlatform}.
Implicit Types (environment : string → option string) (read_file : string → result string string).

(** The fields that are kept out of the log may be anything. *)
Lemma log_reveals_no_secret (c : DemoConfig) migration query import secret :
  debug_config {| listen_addr := listen_addr c; database_migration_url := migration; database_query_url := query;
                  database_import_url := import; auth_secret := secret; db_wait_secs := db_wait_secs c;
                  public_base_url := public_base_url c; seed_demo_data := seed_demo_data c;
                  store_config := store_config c; federation := federation c; import_failure := import_failure c |}
  = debug_config c.
Proof. done. Qed.

Lemma parse_unsigned_bound modulus s n : parse_unsigned modulus s = Some n → (n < modulus)%N.
Proof.
  unfold parse_unsigned. case_match; [done|]. case_match; [|done]. case_match eqn:Hlt; [|done]. intros [= <-].
  by apply N.ltb_lt.
Qed.

Lemma parsed_env_unsigned environment name expected modulus otherwise n :
  (otherwise < modulus)%N → parsed_env environment name expected (parse_unsigned modulus) otherwise = Ok n → (n < modulus)%N.
Proof.
  unfold parsed_env. intros Ho. destruct (env_var environment name); [|by intros [= <-]].
  intros H%ok_or_Ok. by eapply parse_unsigned_bound.
Qed.

Record config_ok environment (c : DemoConfig) : Prop := {
  ok_secret : (32 ≤ string_len (auth_secret c))%N;
  ok_wait : (db_wait_secs c < 2 ^ 64)%N;
  ok_port : (federation_flight_port (federation c) < 2 ^ 16)%N;
  ok_hubs : Forall (λ addr, addr ≠ "") (hub_multiaddrs (federation c));
  ok_failure : import_failure c ≠ None → environment "QFDEMO_ENABLE_FAILURE_INJECTION" = Some "1"
}.

Lemma federation_from_env_ok environment f :
  federation_from_env environment = Ok f →
  (federation_flight_port f < 2 ^ 16)%N ∧ Forall (λ addr, addr ≠ "") (hub_multiaddrs f).
Proof.
  unfold federation_from_env. rewrite rbind_Ok. intros (enable & _ & H). rewrite rbind_Ok in H.
  destruct H as (port & Hport & [= <-]). simpl. split.
  - by eapply parsed_env_unsigned; [|exact Hport].
  - destruct (env_var environment "QFDEMO_FEDERATION_HUB_MULTIADDRS"); [|constructor]. apply Forall_forall.
    intros addr [_ Ha]%list_elem_of_In%filter_In. apply negb_true_iff, String.eqb_neq in Ha. done.
Qed.

(** A configuration that is read has a secret that PASETO takes, numbers of
    their widths, and fails imports only where failures were enabled. *)
Lemma configuration_is_valid environment read_file c :
  from_env environment read_file = Ok c → config_ok environment c.
Proof.
  unfold from_env. rewrite rbind_Ok. intros (listen & _ & H). rewrite rbind_Ok in H. destruct H as (url & _ & H).
  rewrite rbind_Ok in H. destruct H as (database_url & _ & H). rewrite rbind_Ok in H. destruct H as (found & _ & H).
  rewrite rbind_Ok in H. destruct H as (secret & _ & H). rewrite rbind_Ok in H. destruct H as (? & Hs%map_err_Ok & H).
  rewrite rbind_Ok in H. destruct H as (migration & _ & H). rewrite rbind_Ok in H. destruct H as (query & _ & H).
  rewrite rbind_Ok in H. destruct H as (import & _ & H). rewrite rbind_Ok in H. destruct H as (wait & Hw & H).
  rewrite rbind_Ok in H. destruct H as (seed_data & _ & H). rewrite rbind_Ok in H. destruct H as (store & _ & H).
  rewrite rbind_Ok in H. destruct H as (fed & [Hp Hh]%federation_from_env_ok & H). rewrite rbind_Ok in H.
  destruct H as (failure & Hf & [= <-]). constructor; simpl; [|by eapply parsed_env_unsigned; [|exact Hw]|done|done|].
  - unfold validate_paseto_secret in Hs. destruct (N.ltb_spec (string_len secret) 32); [done|lia].
  - unfold import_failure_from_env in Hf. destruct (env_var environment "QFDEMO_IMPORT_FAILURE"); [|by injection Hf as <-].
    destruct (bool_decide_reflect (env_var environment "QFDEMO_ENABLE_FAILURE_INJECTION" = Some "1")) as [He|]; [|done].
    intros _. unfold env_var in He. destruct (environment "QFDEMO_ENABLE_FAILURE_INJECTION") as [v|]; [|done].
    destruct (String.eqb v ""); [done|]. congruence.
Qed.

(** The side-car file wins over the variable. *)
Lemma file_wins environment read_file name file_name path contents :
  environment file_name = Some path → path ≠ "" → read_file path = Ok contents →
  env_or_file environment read_file name file_name = Ok (Some (trim contents)).
Proof.
  intros He Hp Hr. unfold env_or_file, env_var. rewrite He. apply String.eqb_neq in Hp. by rewrite Hp, Hr.
Qed.
End Facts.

(** The files of the tests of the module. *)
Example credentials_are_read :
  parse_credentials_file
    (λ _, Ok ("# demo credentials" +:+ nl +:+ "QFDEMO_STORE_ACCESS_KEY=minio" +:+ nl
              +:+ "QFDEMO_STORE_SECRET_KEY = hunter2 " +:+ nl)) "creds-ok"
  = Ok {| access_key_id := "minio"; secret_access_key := "hunter2" |}
  ∧ parse_credentials_file (λ _, Ok ("QFDEMO_STORE_ACCESS_KEY=minio" +:+ nl)) "creds-partial"
    = Err (MissingCredential "creds-partial" "QFDEMO_STORE_SECRET_KEY").
Proof. vm_compute. done. Qed.
