(* ===== verification/Doi.v ===== *)
(** DOI minting: [queryfabric-portability/src/datacite.rs] and [doi.rs].

    The fields of the metadata are written with the names and the omissions of
    their derived serializers.  The transport that posts a document is a
    parameter, as it is in the code. *)
From Stdlib Require Import Ascii.
From S2P Require Import Prelude Contract Access Json Tokens.
Local Open Scope result_scope.

(** ** [datacite.rs] *)

Inductive IdentifierType := DOI | URL | URN.

Record DataCiteIdentifier := { identifier : string; identifier_type : IdentifierType }.

Record NameIdentifier := {
  name_identifier_value : string;
  name_identifier_scheme : string;
  name_scheme_uri : option string
}.

Record DataCiteCreator := {
  creator_name : string;
  given_name : option string;
  family_name : option string;
  name_identifier : option NameIdentifier;
  affiliation : list string
}.

Inductive TitleType := AlternativeTitle | Subtitle | TranslatedTitle | OtherTitle.

Record DataCiteTitle := { title : string; title_type : option TitleType }.

Record DataCiteSubject := {
  subject : string;
  subject_scheme : option string;
  subject_scheme_uri : option string;
  value_uri : option string
}.

Record DataCiteRights := {
  rights : string;
  dc_rights_uri : option string;
  rights_identifier : option string;
  rights_identifier_scheme : option string
}.

Definition from_license (license : DataLicense) : DataCiteRights :=
  {| rights := license_display_name license; dc_rights_uri := Some (rights_uri license);
     rights_identifier := Some (spdx_id license); rights_identifier_scheme := Some "SPDX" |}.

Inductive RelationType :=
| IsCitedBy | Cites | IsSupplementTo | IsSupplementedBy | IsPartOf | HasPart | IsReferencedBy | References
| IsDerivedFrom | IsSourceOf | IsDescribedBy | Describes | IsVersionOf | HasVersion.

Inductive RelationTypeParseError := RelationInvalid (value allowed : string).

Definition ALLOWED_DISPLAY : string :=
  "IsCitedBy, Cites, IsSupplementTo, IsSupplementedBy, IsPartOf, HasPart, IsReferencedBy, References, IsDerivedFrom, IsSourceOf, IsDescribedBy, Describes, IsVersionOf, HasVersion".

Definition RelationType_ALL : list RelationType :=
  [IsCitedBy; Cites; IsSupplementTo; IsSupplementedBy; IsPartOf; HasPart; IsReferencedBy; References; IsDerivedFrom;
   IsSourceOf; IsDescribedBy; Describes; IsVersionOf; HasVersion].

Definition relation_type_as_str (self : RelationType) : string :=
  match self with
  | IsCitedBy => "IsCitedBy" | Cites => "Cites" | IsSupplementTo => "IsSupplementTo"
  | IsSupplementedBy => "IsSupplementedBy" | IsPartOf => "IsPartOf" | HasPart => "HasPart"
  | IsReferencedBy => "IsReferencedBy" | References => "References" | IsDerivedFrom => "IsDerivedFrom"
  | IsSourceOf => "IsSourceOf" | IsDescribedBy => "IsDescribedBy" | Describes => "Describes"
  | IsVersionOf => "IsVersionOf" | HasVersion => "HasVersion"
  end.

Definition allowed_values : list string := List.map relation_type_as_str RelationType_ALL.

Definition relation_type_from_str (value : string) : result RelationType RelationTypeParseError :=
  ok_or (List.find (λ relation, String.eqb (relation_type_as_str relation) value) RelationType_ALL)
    (RelationInvalid value ALLOWED_DISPLAY).

Record DataCiteRelatedIdentifier := {
  related_identifier : string;
  related_identifier_type : IdentifierType;
  relation_type : RelationType
}.

Inductive ResourceTypeGeneral :=
| Audiovisual | CollectionType | DataPaper | DatasetType | Event | Image | Model | PhysicalObject | ServiceType | Software
| Sound | TextType | Workflow | OtherResource.

Record DataCiteResourceType := { resource_type_general : ResourceTypeGeneral; resource_type_text : option string }.

Inductive DescriptionType := Abstract | Methods | SeriesInformation | TableOfContents | TechnicalInfo | OtherDescription.

Record DataCiteDescription := { description : string; description_type : DescriptionType }.

Inductive DateType :=
| Accepted | Available | Collected | Copyrighted | CreatedDate | Issued | Submitted | Updated | ValidDate | Withdrawn
| OtherDate.

Record DataCiteDate := { date : string; date_type : DateType }.

Record DataCiteMetadata := {
  dc_identifier : DataCiteIdentifier;
  creators : list DataCiteCreator;
  titles : list DataCiteTitle;
  dc_publisher : string;
  publication_year : Z;
  dc_resource_type : DataCiteResourceType;
  subjects : list DataCiteSubject;
  rights_list : list DataCiteRights;
  related_identifiers : list DataCiteRelatedIdentifier;
  descriptions : list DataCiteDescription;
  dates : list DataCiteDate;
  dc_schema_version : string
}.

(** The names of the variants, which the derived serializers write. *)
Definition identifier_type_name (t : IdentifierType) : string :=
  match t with DOI => "DOI" | URL => "URL" | URN => "URN" end.

Definition title_type_name (t : TitleType) : string :=
  match t with
  | AlternativeTitle => "AlternativeTitle" | Subtitle => "Subtitle" | TranslatedTitle => "TranslatedTitle"
  | OtherTitle => "Other"
  end.

Definition resource_type_general_name (t : ResourceTypeGeneral) : string :=
  match t with
  | Audiovisual => "Audiovisual" | CollectionType => "Collection" | DataPaper => "DataPaper" | DatasetType => "Dataset"
  | Event => "Event" | Image => "Image" | Model => "Model" | PhysicalObject => "PhysicalObject"
  | ServiceType => "Service" | Software => "Software" | Sound => "Sound" | TextType => "Text" | Workflow => "Workflow"
  | OtherResource => "Other"
  end.

Definition description_type_name (t : DescriptionType) : string :=
  match t with
  | Abstract => "Abstract" | Methods => "Methods" | SeriesInformation => "SeriesInformation"
  | TableOfContents => "TableOfContents" | TechnicalInfo => "TechnicalInfo" | OtherDescription => "Other"
  end.

Definition date_type_name (t : DateType) : string :=
  match t with
  | Accepted => "Accepted" | Available => "Available" | Collected => "Collected" | Copyrighted => "Copyrighted"
  | CreatedDate => "Created" | Issued => "Issued" | Submitted => "Submitted" | Updated => "Updated" | ValidDate => "Valid"
  | Withdrawn => "Withdrawn" | OtherDate => "Other"
  end.

Section Serialize.
Context {Number : Type} `{!JsonMap Number}.

(** [skip_serializing_if]. *)
Definition some_field (key : string) (o : option (Json Number)) : list (string * Json Number) :=
  match o with Some v => [(key, v)] | None => [] end.

Definition object (fields : list (string * Json Number)) : Json Number := JObject (json_object fields).

Definition name_identifier_value_json (i : NameIdentifier) : Json Number :=
  object ([("nameIdentifier", JString (name_identifier_value i));
           ("nameIdentifierScheme", JString (name_identifier_scheme i))]
          ++ some_field "schemeUri" (JString <$> name_scheme_uri i)).

Definition creator_value (c : DataCiteCreator) : Json Number :=
  object ([("name", JString (creator_name c))] ++ some_field "givenName" (JString <$> given_name c)
          ++ some_field "familyName" (JString <$> family_name c)
          ++ some_field "nameIdentifier" (name_identifier_value_json <$> name_identifier c)
          ++ (if is_empty (affiliation c) then [] else [("affiliation", JArray (List.map JString (affiliation c)))])).

Definition title_value (t : DataCiteTitle) : Json Number :=
  object ([("title", JString (title t))] ++ some_field "titleType" ((λ t, JString (title_type_name t)) <$> title_type t)).

Definition subject_value (s : DataCiteSubject) : Json Number :=
  object ([("subject", JString (subject s))] ++ some_field "subjectScheme" (JString <$> subject_scheme s)
          ++ some_field "schemeUri" (JString <$> subject_scheme_uri s) ++ some_field "valueUri" (JString <$> value_uri s)).

Definition rights_value (r : DataCiteRights) : Json Number :=
  object ([("rights", JString (rights r))] ++ some_field "rightsUri" (JString <$> dc_rights_uri r)
          ++ some_field "rightsIdentifier" (JString <$> rights_identifier r)
          ++ some_field "rightsIdentifierScheme" (JString <$> rights_identifier_scheme r)).

Definition related_identifier_value (r : DataCiteRelatedIdentifier) : Json Number :=
  object [("relatedIdentifier", JString (related_identifier r));
          ("relatedIdentifierType", JString (identifier_type_name (related_identifier_type r)));
          ("relationType", JString (relation_type_as_str (relation_type r)))].

Definition description_value (d : DataCiteDescription) : Json Number :=
  object [("description", JString (description d));
          ("descriptionType", JString (description_type_name (description_type d)))].

Definition date_value (d : DataCiteDate) : Json Number :=
  object [("date", JString (date d)); ("dateType", JString (date_type_name (date_type d)))].

(** ** [doi.rs] *)

Inductive DoiStatus := DoiPending | DoiRegistered | DoiFailed.

Record DoiRecord := {
  doi_resource : ResourceRef;
  doi_text : option string;
  doi_provider : string;
  doi_status : DoiStatus;
  doi_response : option (Json Number);
  last_error : option string
}.

Inductive DoiError := DoiTransport (message : string) | MalformedResponse (message : string).

Definition doi_error_text (e : DoiError) : string :=
  match e with
  | DoiTransport message => "DOI transport failed: " +:+ message
  | MalformedResponse message => "DOI registrar response malformed: " +:+ message
  end.

Record DataCiteProvider := { api_base : string; repository_id : string; password : string; doi_prefix : string }.

(** [number_from_i32] is [serde_json]'s number of an integer. *)
Context (number_from_i32 : Z → Number).

Definition request_body (self : DataCiteProvider) (metadata : DataCiteMetadata) (landing_url : string) : Json Number :=
  let types :=
    object [("resourceTypeGeneral", JString (resource_type_general_name (resource_type_general (dc_resource_type metadata))));
            ("resourceType",
             match resource_type_text (dc_resource_type metadata) with Some t => JString t | None => JNull end)] in
  let attributes := json_object
    [("event", JString "publish"); ("url", JString landing_url);
     ("creators", JArray (List.map creator_value (creators metadata)));
     ("titles", JArray (List.map title_value (titles metadata))); ("publisher", JString (dc_publisher metadata));
     ("publicationYear", JNumber (number_from_i32 (publication_year metadata))); ("types", types);
     ("subjects", JArray (List.map subject_value (subjects metadata)));
     ("rightsList", JArray (List.map rights_value (rights_list metadata)));
     ("relatedIdentifiers", JArray (List.map related_identifier_value (related_identifiers metadata)));
     ("descriptions", JArray (List.map description_value (descriptions metadata)));
     ("dates", JArray (List.map date_value (dates metadata)));
     ("schemaVersion", JString ("http://datacite.org/schema/kernel-" +:+ dc_schema_version metadata))] in
  let attributes :=
    if String.eqb (identifier (dc_identifier metadata)) "" then map_insert "prefix" (JString (doi_prefix self)) attributes
    else map_insert "doi" (JString (identifier (dc_identifier metadata))) attributes in
  object [("data", object [("type", JString "dois"); ("attributes", JObject attributes)])].

(** [value[index]]. *)
Definition array_index (value : Json Number) (index : nat) : Json Number :=
  match value with JArray items => default JNull (items !! index) | _ => JNull end.

(** [str::trim_end_matches] of a slash. *)
Fixpoint trim_slashes (s : string) : string :=
  match s with
  | EmptyString => EmptyString
  | String c s =>
      let rest := trim_slashes s in
      if Ascii.eqb c "/" && String.eqb rest "" then "" else String c rest
  end.

(** The transport: the URL, the credentials and the body, and the status and
    the document of the response. *)
Definition mint (post_json : string → string * string → Json Number → result (N * Json Number) DoiError)
    (self : DataCiteProvider) (resource : ResourceRef) (metadata : DataCiteMetadata) (landing_url : string)
    : result DoiRecord DoiError :=
  let url := trim_slashes (api_base self) +:+ "/dois" in
  let? answer := post_json url (repository_id self, password self) (request_body self metadata landing_url) in
  let '(status, response) := answer in
  if ((200 <=? status) && (status <? 300))%N then
    let? doi :=
      ok_or (as_str (json_index (json_index (json_index response "data") "attributes") "doi"))
        (MalformedResponse "registrar accepted the DOI but the response carries no data.attributes.doi") in
    Ok {| doi_resource := resource; doi_text := Some doi; doi_provider := "datacite"; doi_status := DoiRegistered;
          doi_response := Some response; last_error := None |}
  else
    let error :=
      match as_str (json_index (array_index (json_index response "errors") 0) "title") with
      | Some title => title
      | None => "HTTP " +:+ show_N status
      end in
    Ok {| doi_resource := resource; doi_text := None; doi_provider := "datacite"; doi_status := DoiFailed;
          doi_response := Some response; last_error := Some error |}.
End Serialize.
Arguments DoiRecord Number : clear implicits.

(** ** Facts *)

Lemma relation_type_round_trip r : relation_type_from_str (relation_type_as_str r) = Ok r.
Proof. by destruct r. Qed.

(** The message lists exactly the spellings that are parsed. *)
Lemma allowed_spellings : ALLOWED_DISPLAY = string_join ", " allowed_values.
Proof. reflexivity. Qed.

Lemma relation_type_from_str_iff value r :
  relation_type_from_str value = Ok r ↔ value = relation_type_as_str r.
Proof.
  split; [|intros ->; apply relation_type_round_trip]. unfold relation_type_from_str. intros [_ H]%ok_or_Ok%find_some.
  by apply String.eqb_eq in H.
Qed.

Section Minting.
Context {Number : Type} `{!JsonMap Number} (number_from_i32 : Z → Number).

(** A record that is returned is registered with a DOI or failed with an error,
    and never both; the response is kept. *)
Lemma minted_record post_json self resource metadata landing_url r :
  mint number_from_i32 post_json self resource metadata landing_url = Ok r →
  doi_resource r = resource ∧ doi_provider r = "datacite" ∧ is_Some (doi_response r)
  ∧ (doi_status r = DoiRegistered ∧ is_Some (doi_text r) ∧ last_error r = None
     ∨ doi_status r = DoiFailed ∧ doi_text r = None ∧ is_Some (last_error r)).
Proof.
  unfold mint. rewrite rbind_Ok. intros ([status response] & _ & H). destruct (_ && _).
  - rewrite rbind_Ok in H. destruct H as (doi & _ & [= <-]). simpl. split_and!; [done|done|by eexists|left]. by eauto.
  - injection H as <-. simpl. split_and!; [done|done|by eexists|right]. by eauto.
Qed.

(** The attributes of a request name a DOI or a prefix, not both. *)
Lemma request_names_one `{!LawfulJsonMap Number} self metadata landing_url :
  ∃ attributes, request_body number_from_i32 self metadata landing_url
                = object [("data", object [("type", JString "dois"); ("attributes", JObject attributes)])]
  ∧ json_wf (JObject (List.map (λ kv, (kv.1, @JNull Number)) attributes))
  ∧ if String.eqb (identifier (dc_identifier metadata)) "" then
      ("prefix", JString (doi_prefix self)) ∈ attributes ∧ "doi" ∉ attributes.*1
    else
      ("doi", JString (identifier (dc_identifier metadata))) ∈ attributes ∧ "prefix" ∉ attributes.*1.
Proof.
  eexists. split; [reflexivity|].
  match goal with |- context [json_object ?l] => pose proof (json_object_perm l) as Hp; set (fields := json_object l) in * end.
  assert (fields.*1 ≡ₚ ["event"; "url"; "creators"; "titles"; "publisher"; "publicationYear"; "types"; "subjects";
                        "rightsList"; "relatedIdentifiers"; "descriptions"; "dates"; "schemaVersion"]) as Hk.
  { rewrite Hp; [reflexivity|]. csimpl. apply (bool_decide_unpack _); vm_compute; exact I. }
  assert (∀ key v, key ∉ fields.*1 → key ∈ ["prefix"; "doi"] →
    json_wf (JObject (List.map (λ kv, (kv.1, @JNull Number)) (map_insert key v fields)))) as Hwf.
  { intros key v Hn _. constructor.
    - rewrite List.map_map. change (NoDup ((map_insert key v fields).*1)).
      assert ((map_insert key v fields).*1 ≡ₚ key :: fields.*1) as -> by (by rewrite map_insert_new).
      constructor; [done|]. rewrite Hk. apply (bool_decide_unpack _); vm_compute; exact I.
    - apply Forall_forall. intros x (kv & -> & _)%list_elem_of_fmap. constructor. }
  assert (¬ ("prefix" ∈ fields.*1) ∧ ¬ ("doi" ∈ fields.*1)) as [Hn1 Hn2]
    by (rewrite !Hk; split; apply (bool_decide_unpack _); vm_compute; exact I).
  destruct (String.eqb_spec (identifier (dc_identifier metadata)) ""); split_and!;
    try (apply Hwf; [done|set_solver]); rewrite map_insert_new by done; csimpl; set_solver.
Qed.
End Minting.
