(* ===== verification/Host.v ===== *)
(** The demonstrator host: [queryfabric-store/src/lib.rs] and, of
    [queryfabric-demo/src/], the catalog of [dataset.rs], the exports of
    [sovereignty.rs], the start in [main.rs], and the handlers and routes of
    [http.rs].

    A handler is a computation over what the host keeps ([HostWorld]: objects,
    tables, the provenance log); it answers, refuses, or panics ([None]).  The
    object store's operator is the class [Opendal]; conversions of structures to
    JSON, lower case, simple texts of UUIDs and the text of a header are the
    class [HostFormat]. *)
From Stdlib Require Import Ascii.
From S2P Require Import Prelude BTreeMap Types Diagnostics Bound Catalog Cost Suggest Validate Contract Provenance Access Tenancy SqlDialect Adapters Json Numerals Csv Citation Bundle Import Inspect Facade Names Tokens HostDb HostConfig Doi.

(** ** [queryfabric-store] *)

Inductive StoreError :=
| EmptyPath
| PresignUnsupported (scheme : string)
| StoreBackend (path source : string)
| StoreConfiguration (source : string).

Definition store_error_text (e : StoreError) : string :=
  match e with
  | EmptyPath => "object path must not be empty"
  | PresignUnsupported scheme =>
      "backend '" +:+ scheme +:+ "' does not support presigned URLs; use an S3-compatible backend (AWS S3, MinIO, Garage)"
  | StoreBackend path source => "object store operation failed on '" +:+ path +:+ "': " +:+ source
  | StoreConfiguration source => "object store configuration rejected: " +:+ source
  end.

Class Opendal (Store : Type) := {
  op_write : string → string → state Store (result unit string);
  op_read : string → state Store (result string string);
  op_delete : string → state Store (result unit string);
  op_presign_write : string → N → state Store (result string string);
  op_presign_read : string → N → state Store (result string string);
  can_presign_write : Store → bool;
  can_presign_read : Store → bool;
  op_scheme : Store → string
}.

Section ObjectStore.
Context {Store : Type} `{!Opendal Store}.

Definition backend {A} (path : string) (m : state Store (result A string)) : state Store (result A StoreError) :=
  λ s, let '(r, s) := m s in (match r with Ok a => Ok a | Err source => Err (StoreBackend path source) end, s).

Definition validated {A} (path : string) (m : state Store (result A StoreError)) : state Store (result A StoreError) :=
  if String.eqb path "" then sret (Err EmptyPath) else m.

Definition require_presign {A} (supported : Store → bool) (m : state Store (result A StoreError))
    : state Store (result A StoreError) :=
  λ s, if supported s then m s else (Err (PresignUnsupported (op_scheme s)), s).

Definition presigned_upload (path : string) (ttl : N) : state Store (result string StoreError) :=
  validated path (require_presign can_presign_write (backend path (op_presign_write path ttl))).

Definition presigned_download (path : string) (ttl : N) : state Store (result string StoreError) :=
  validated path (require_presign can_presign_read (backend path (op_presign_read path ttl))).

Definition store_put (path bytes : string) : state Store (result unit StoreError) :=
  validated path (backend path (op_write path bytes)).

Definition store_get (path : string) : state Store (result string StoreError) := validated path (backend path (op_read path)).

Definition store_delete (path : string) : state Store (result unit StoreError) :=
  validated path (backend path (op_delete path)).
End ObjectStore.

(** *** The construction of a store *)

Record S3Config := {
  s3_bucket : string;
  s3_endpoint : option string;
  s3_region : option string;
  s3_access_key_id : string;
  s3_secret_access_key : string;
  s3_root : option string
}.

Definition debug_s3 `{!HostPlatform} (self : S3Config) : string :=
  let debug_option (o : option string) := match o with Some s => "Some(" +:+ debug_str s +:+ ")" | None => "None" end in
  debug_struct "S3Config"
    [("bucket", debug_str (s3_bucket self)); ("endpoint", debug_option (s3_endpoint self));
     ("region", debug_option (s3_region self)); ("access_key_id", debug_str (s3_access_key_id self));
     ("secret_access_key", debug_str "<redacted>"); ("root", debug_option (s3_root self))].

(** [Operator::new] of the two services; the builder of S3 is the settings that
    were made, in their order. *)
Class OpendalServices (Store : Type) := {
  op_memory : result Store string;
  op_s3 : list (string * string) → result Store string
}.

Section Construction.
Context {Store : Type} `{!OpendalServices Store}.

(** [None] is the panic of [expect]. *)
Definition store_memory : option Store := match op_memory with Ok op => Some op | Err _ => None end.

Definition store_s3 (config : S3Config) : result Store StoreError :=
  let builder :=
    [("bucket", s3_bucket config); ("access_key_id", s3_access_key_id config);
     ("secret_access_key", s3_secret_access_key config)] in
  let builder := match s3_endpoint config with Some endpoint => builder ++ [("endpoint", endpoint)] | None => builder end in
  let builder := match s3_region config with Some region => builder ++ [("region", region)] | None => builder end in
  let builder := match s3_root config with Some root => builder ++ [("root", root)] | None => builder end in
  match op_s3 builder with Ok op => Ok op | Err source => Err (StoreConfiguration source) end.
End Construction.

(** ** [dataset.rs]: the catalog *)

Definition dataset_column (name : string) (data_type : DataType) (nullable : bool) : ColumnSchema :=
  {| column_name := name; column_type := data_type; column_nullable := nullable; column_metadata := FieldMetadata_default |}.

Definition dataset_relation (name : string) (columns : list ColumnSchema) : RelationSchema :=
  {| rel_namespace := None; rel_name := name; rel_aliases := []; rel_kind := RTable; rel_columns := columns;
     rel_metadata := [] |}.

Definition build_catalog : MemoryCatalog :=
  let catalog := set_snapshot_id MemoryCatalog_default SNAPSHOT_ID in
  let catalog :=
    register_relation catalog
      (dataset_relation "stations"
         [dataset_column "station_id" TUuid false; dataset_column "code" TUtf8 false; dataset_column "name" TUtf8 false;
          dataset_column "city" TUtf8 false; dataset_column "latitude" TFloat64 false;
          dataset_column "longitude" TFloat64 false]) in
  register_relation catalog
    (dataset_relation "readings"
       [dataset_column "reading_id" TUuid false; dataset_column "station_id" TUuid false;
        dataset_column "measured_at" (TTimestamp None) false; dataset_column "pm25" TFloat64 false;
        dataset_column "no2" TFloat64 false; dataset_column "ozone" TFloat64 false]).

(** ** Errors and their texts *)

Inductive ApiError :=
| BadRequest (message : string)
| NotFound (message : string)
| Forbidden (message : string)
| Dependency (message : string)
| Unauthorized (message : string)
| Conflict (message : string).

Definition api_status (e : ApiError) : N :=
  match e with
  | BadRequest _ => 400 | NotFound _ => 404 | Forbidden _ => 403 | Dependency _ => 502 | Unauthorized _ => 401
  | Conflict _ => 409
  end.

Definition api_error_text (e : ApiError) : string :=
  match e with
  | BadRequest m | NotFound m | Forbidden m => m
  | Dependency m => "service dependency failed: " +:+ m
  | Unauthorized m => "authentication required: " +:+ m
  | Conflict m => "import replay conflicts with the existing receipt: " +:+ m
  end.

Definition provenance_error_text (e : ProvenanceError) : string :=
  match e with
  | PStorage m => "provenance storage failed: " +:+ m
  | PSerialization m => "provenance serialization failed: " +:+ m
  end.

Definition bundle_error_text (e : BundleError) : string :=
  match e with
  | BProvenance e => "bundle provenance lookup failed: " +:+ provenance_error_text e
  | BSerialization m => "bundle serialization failed: " +:+ m
  end.

Definition import_error_text (e : ImportError) : string :=
  match e with
  | BundleTooLarge => "bundle exceeds configured byte limit"
  | ArtifactTooLarge => "artifact exceeds configured byte limit"
  | AggregateArtifactTooLarge => "aggregate artifact bytes exceed configured limit"
  | InvalidJson m => "bundle JSON is invalid: " +:+ m
  | JsonLimits => "bundle JSON exceeds configured nesting or string limits"
  | UnsupportedVersion v => "unsupported bundle version '" +:+ v +:+ "'"
  | InvalidDigest => "bundle digest must use blake3-256:<64 lowercase hex>"
  | DigestMismatch => "bundle digest does not match expected digest"
  | TooManyArtifacts => "bundle contains too many artifacts"
  | DuplicateArtifact => "duplicate or conflicting artifact entry"
  | InvalidManifest m => "artifact manifest is invalid: " +:+ m
  | InvalidProfile m => "tabular profile is invalid: " +:+ m
  | InvalidCsv m => "CSV artifact is invalid: " +:+ m
  | InvalidTarget m => "target mapping is invalid: " +:+ m
  | SchemaMismatch => "schema fingerprint does not match the typed schema"
  | ArtifactMismatch => "declared row or byte count does not match the staged artifact"
  end.

(** The [From] instances. *)
Definition of_db_error (e : DbError) : ApiError :=
  match e with ConflictingReplay message => Conflict message | other => Dependency (db_error_text other) end.
Definition of_store_error (e : StoreError) : ApiError := Dependency (store_error_text e).
Definition of_provenance_error (e : ProvenanceError) : ApiError := Dependency (provenance_error_text e).
Definition of_query_error (e : QueryFabricError) : ApiError := BadRequest (query_error_text e).
Definition of_import_error (e : ImportError) : ApiError := BadRequest (import_error_text e).

Inductive ExportError :=
| ExportBundleFailed (e : BundleError)
| ExportProvenanceFailed (e : ProvenanceError)
| ExportStoreFailed (e : StoreError).

Definition of_export_error (e : ExportError) : ApiError :=
  Dependency
    match e with
    | ExportBundleFailed e => bundle_error_text e
    | ExportProvenanceFailed e => provenance_error_text e
    | ExportStoreFailed e => store_error_text e
    end.

Class HostFormat (Number : Type) := {
  (** [serde_json::to_value]. *)
  resource_to_value : ResourceRef → result (Json Number) string;
  history_to_value : ProvenanceHistory (Json Number) → result (Json Number) string;
  mapping_to_value : list TabularColumn → result (Json Number) string;
  policy_to_value : ResourcePolicy → result (Json Number) string;
  (** The JSON number of a literal. *)
  literal_number : string → Number;
  (** [Uuid::simple]. *)
  uuid_simple : Uuid → string;
  to_lowercase : string → string;
  (** [HeaderValue::to_str]. *)
  header_to_str : string → option string
}.

Section Host.
Context `{!SerdeJson}.
#[local] Abbreviation Number := JsonNumber.
Context {Store : Type} `{!Opendal Store} `{!Postgres Number} `{!JsonMap Number} `{V5 : !UuidV5} `{Hash : !Blake3}
  `{Lex : !Lexicon} `{!BundleFormat Number} `{!ImportFormat Number} `{!HostFormat Number} `{!Paseto Number}
  `{Platform : !HostPlatform} `{Server : !PgServer} `{Uni : !Unicode} `{Parser : !SqlParser}.

(** ** [sovereignty.rs] *)

Definition DEMO_LICENSE : DataLicense := CcBy.
Definition DEMO_DOI_PREFIX : string := "10.5072".

Definition station_policy : ResourcePolicy :=
  {| rp_policy := Open_; rp_license := Some DEMO_LICENSE; rp_restriction := None |}.

Definition station_metadata_jsonld (station : StationSpec) : Json Number :=
  object
    [("@context", JString "https://schema.org/"); ("@type", JString "Dataset");
     ("identifier", JString (pg_uuid_text (station_id station)));
     ("name", JString (station_name station +:+ " air-quality readings"));
     ("description",
      JString ("Hourly PM2.5, NO2, and ozone readings from the " +:+ station_name station +:+ " station in "
               +:+ city station +:+ "."));
     ("spatialCoverage",
      object
        [("@type", JString "Place");
         ("geo", object [("@type", JString "GeoCoordinates"); ("latitude", JNumber (literal_number (latitude station)));
                         ("longitude", JNumber (literal_number (longitude station)))]);
         ("name", JString (city station))]);
     ("variableMeasured", JArray [JString "PM2.5"; JString "NO2"; JString "O3"]);
     ("license", JString (rights_uri DEMO_LICENSE))].

Definition station_citation (station : StationSpec) (base_url : string) (doi : option string) : CitationInput :=
  {| cit_id := uuid_simple (station_id station); cit_title := station_name station +:+ " air-quality readings";
     cit_publisher := "QueryFabric Demonstrator"; cit_year := "2026";
     cit_url := base_url +:+ "/resources/" +:+ code station; cit_doi := doi;
     cit_license_spdx := Some (spdx_id DEMO_LICENSE); cit_keywords := ["air-quality"; to_lowercase (city station)];
     cit_repository_url := None |}.

Definition readings_schema : TabularSchema :=
  {| profile := TABULAR_CSV_PROFILE;
     columns := [{| tc_name := "measured_at"; tc_type := CtTimestamp |}; {| tc_name := "pm25"; tc_type := CtFloat64 |};
                 {| tc_name := "no2"; tc_type := CtFloat64 |}; {| tc_name := "ozone"; tc_type := CtFloat64 |}] |}.

(** [None] is the panic of [expect]. *)
Definition readings_csv (rows : list (Json Number)) : option string :=
  match write_tabular_csv number_text readings_schema rows with Ok bytes => Some bytes | Err _ => None end.

Definition export_csv_path (station : StationSpec) : string := "exports/" +:+ code station +:+ "/readings.csv".
Definition bundle_path (station : StationSpec) : string := "bundles/" +:+ code station +:+ ".json".

Record HostWorld := {
  objects : Store;
  tables : Tables Number;
  log : VecProvenanceStore (Json Number)
}.

Definition on_objects {A} (m : state Store A) : state HostWorld A :=
  λ w, let '(a, s) := m (objects w) in (a, {| objects := s; tables := tables w; log := log w |}).
Definition on_log {A} (m : state (VecProvenanceStore (Json Number)) A) : state HostWorld A :=
  λ w, let '(a, s) := m (log w) in (a, {| objects := objects w; tables := tables w; log := s |}).
Definition on_tables {A} (m : Tables Number → A * Tables Number) : state HostWorld A :=
  λ w, let '(a, t) := m (tables w) in (a, {| objects := objects w; tables := t; log := log w |}).

(** An answer, a refusal, or a panic. *)
Definition M (A : Type) : Type := state HostWorld (option (result A ApiError)).

Definition answer {A} (a : A) : M A := sret (Some (Ok a)).
Definition refuse {A} (e : ApiError) : M A := sret (Some (Err e)).

Definition bind_host {A B} (m : M A) (k : A → M B) : M B :=
  λ w, match m w with
       | (Some (Ok a), w) => k a w
       | (Some (Err e), w) => (Some (Err e), w)
       | (None, w) => (None, w)
       end.

(** [?] with the conversion of the error. *)
Definition lift {A E} (f : E → ApiError) (m : state HostWorld (result A E)) : M A :=
  λ w, let '(r, w) := m w in (Some (match r with Ok a => Ok a | Err e => Err (f e) end), w).

Definition pure {A E} (f : E → ApiError) (r : result A E) : M A := lift f (sret r).
#[local] Notation "'let*' x ':=' m 'in' k" := (bind_host m (λ x, k)) (at level 10, x binder, m at level 100, k at level 200).

(** The inputs of an export, apart from the station. *)
Definition export_station (now_v7 : Uuid) (station : StationSpec) (csv : string) (row_count : N) (base_url : string)
    (actor : option Subject) (now_ms : Z) : state HostWorld (result (ImportSealedBundle Number * ArtifactManifest Number) ExportError) :=
  let resource := station_resource station in
  let csv_path := export_csv_path station in
  let manifest (m : Json Number) : ArtifactManifest Number :=
    MkArtifactManifest "table_export" csv_path "csv" (tabular_schema_fingerprint readings_schema)
      ("blake3-256:" +:+ content_hash_hex csv) row_count (Some (string_len csv)) m in
  λ w,
    match on_objects (store_put csv_path csv) w with
    | (Err e, w) => (Err (ExportStoreFailed e), w)
    | (Ok _, w) =>
        match on_log (build_import_bundle
                        (MkBundleRequest resource now_ms (station_metadata_jsonld station)
                           (station_citation station base_url None) station_policy
                           [manifest (schema_to_value readings_schema)])) w with
        | (Err e, w) => (Err (ExportBundleFailed e), w)
        | (Ok sealed, w) =>
            let path := bundle_path station in
            match on_objects (store_put path (import_canonical_json sealed)) w with
            | (Err e, w) => (Err (ExportStoreFailed e), w)
            | (Ok _, w) =>
                match on_log (append {| pe_id := now_v7; pe_resource := resource; pe_actor := actor;
                                        pe_activity := Core (ABackupAnchor path (import_content_hash sealed));
                                        pe_description := Some "portable export bundle written to object store";
                                        occurred_at_unix_ms := now_ms |}) w with
                | (Err e, w) => (Err (ExportProvenanceFailed e), w)
                | (Ok _, w) => (Ok (sealed, manifest JNull), w)
                end
            end
        end
    end.

(** Two entries for every station that has none. *)
Fixpoint seed_stations (stations : list StationSpec) : state (VecProvenanceStore (Json Number)) (result unit ProvenanceError) :=
  match stations with
  | [] => sret (Ok tt)
  | station :: stations =>
      let resource := station_resource station in
      try (history resource HistoryFilter_default) (λ existing,
      if negb (is_empty (ph_entries existing)) then seed_stations stations
      else
        try (append {| pe_id := from_parts (uuid_of_bytes "qfdemo-airq-prov") [code station; "created"];
                       pe_resource := resource; pe_actor := None; pe_activity := Core ACreated;
                       pe_description := Some (station_name station +:+ " registered in " +:+ city station);
                       occurred_at_unix_ms := SEED_EPOCH_MS |}) (λ _,
        try (append {| pe_id := from_parts (uuid_of_bytes "qfdemo-airq-prov") [code station; "calibration"];
                       pe_resource := resource; pe_actor := None;
                       pe_activity :=
                         Domain "sensor_calibration"
                           (object [("method", JString "reference-gas");
                                    ("pollutants", JArray [JString "pm25"; JString "no2"; JString "ozone"])]);
                       pe_description := None; occurred_at_unix_ms := SEED_EPOCH_MS + 3600000 |}) (λ _,
        seed_stations stations)))
  end.

Definition seed_provenance : state (VecProvenanceStore (Json Number)) (result unit ProvenanceError) := seed_stations STATIONS.

Definition station_datacite (station : StationSpec) (doi : string) : DataCiteMetadata :=
  {| dc_identifier := {| identifier := doi; identifier_type := DOI |};
     creators := [{| creator_name := "QueryFabric Demonstrator"; given_name := None; family_name := None;
                     name_identifier := None; affiliation := [] |}];
     titles := [{| title := station_name station +:+ " air-quality readings"; title_type := None |}];
     dc_publisher := "QueryFabric Demonstrator"; publication_year := 2026;
     dc_resource_type := {| resource_type_general := DatasetType; resource_type_text := Some "Time series" |};
     subjects := []; rights_list := []; related_identifiers := []; descriptions := []; dates := [];
     dc_schema_version := "4.5" |}.

(** [LocalDoiProvider]. *)
Definition local_mint (resource : ResourceRef) (landing_url : string) : DoiRecord Number :=
  {| doi_resource := resource;
     doi_text := Some (DEMO_DOI_PREFIX +:+ "/qfdemo." +:+ String.substring 0 12 (uuid_simple (resource_uuid resource)));
     doi_provider := "demo-local"; doi_status := DoiRegistered;
     doi_response :=
       Some (object
         [("note", JString "locally fabricated demonstration DOI (DataCite test prefix); configure a registrar account for real minting");
          ("landingUrl", JString landing_url)]);
     last_error := None |}.

(** ** [main.rs]: ownership *)

Definition seed_ownership : Ownership * Uuid :=
  let operator := demo_account_id "operator" in
  let account := {| account_id := operator; email := "operator@example.org"; active := true; verified := true;
                    account_kind := Tenancy.Human |} in
  (List.fold_left (λ o station, set_owner (station_resource station) operator o) STATIONS
     (add_account account InMemoryOwnership_new), operator).

(** ** [main.rs]: the start *)

(** [Database::ping], with the faults of its two calls. *)
Definition ping (connect select : option string) : result unit DbError :=
  match connect with Some error => Err (DbConnect error) | None => statement select (Ok tt) end.

Inductive StartError :=
| StartConfig (e : ConfigError)
| StartDb (e : DbError)
| StartStore (e : StoreError)
| StartProvenance (e : ProvenanceError)
| StartListen (error : string).

(** What the start comes to; [StartWaits] when the fuel is used up. *)
Inductive Start (A : Type) :=
| Running (a : A)
| StartFailed (e : StartError)
| StartPanicked
| StartWaits.
#[global] Arguments Running {A}.
#[global] Arguments StartFailed {A}.
#[global] Arguments StartPanicked {A}.
#[global] Arguments StartWaits {A}.

Definition bind_start {A B} (m : Start A) (k : A → Start B) : Start B :=
  match m with
  | Running a => k a
  | StartFailed e => StartFailed e
  | StartPanicked => StartPanicked
  | StartWaits => StartWaits
  end.

Definition try_start {A E} (f : E → StartError) (r : result A E) : Start A :=
  match r with Ok a => Running a | Err e => StartFailed (f e) end.

(** An [Instant] in nanoseconds; [Instant + Duration] panics past the last one. *)
Definition instant_add (limit now : Z) (secs : N) : option Z :=
  let later := (now + 1000000000 * Z.of_N secs)%Z in
  if (later <=? limit)%Z then Some later else None.

(** The loop: [pings i] is the answer to the [i]-th ping, [clock i] the instant
    that is read after it. *)
Fixpoint ping_until (pings : nat → result unit DbError) (clock : nat → Z) (deadline : Z) (fuel i : nat) : Start unit :=
  match fuel with
  | O => StartWaits
  | S fuel =>
      match pings i with
      | Ok _ => Running tt
      | Err error =>
          if (clock i <? deadline)%Z then ping_until pings clock deadline fuel (S i) else StartFailed (StartDb error)
      end
  end.

Definition wait_for_database (pings : nat → result unit DbError) (clock : nat → Z) (limit now : Z) (wait_secs : N)
    (fuel : nat) : Start unit :=
  match instant_add limit now wait_secs with
  | None => StartPanicked
  | Some deadline => ping_until pings clock deadline fuel 0
  end.

Definition init_store `{!OpendalServices Store} (read_file : string → result string string) (config : StoreConfig)
    : Start Store :=
  match config with
  | StoreMemory => match store_memory with Some store => Running store | None => StartPanicked end
  | StoreS3 endpoint bucket region credentials_file =>
      bind_start (try_start StartConfig (parse_credentials_file read_file credentials_file)) (λ credentials,
      try_start StartStore
        (store_s3 {| s3_bucket := bucket; s3_endpoint := Some endpoint; s3_region := Some region;
                     s3_access_key_id := access_key_id credentials;
                     s3_secret_access_key := secret_access_key credentials; s3_root := None |}))
  end.

(** What outlives [main], with the parts that do not change. *)
Record AppState := {
  as_config : DemoConfig;
  as_world : HostWorld;
  as_catalog : MemoryCatalog;
  as_ownership : Ownership;
  as_operator : Uuid
}.

(** After the tables are seeded; [listen] is the fault of binding the address. *)
Definition assemble `{!OpendalServices Store} (read_file : string → result string string) (listen : option string)
    (config : DemoConfig) (t : Tables Number) : Start AppState :=
  bind_start (init_store read_file (store_config config)) (λ store,
  let '(seeded, log) :=
    if seed_demo_data config then seed_provenance (VecProvenanceStore_new (Json Number))
    else (Ok tt, VecProvenanceStore_new (Json Number)) in
  bind_start (try_start StartProvenance seeded) (λ _,
  let '(ownership, operator) := seed_ownership in
  match listen with
  | Some error => StartFailed (StartListen error)
  | None =>
      Running {| as_config := config; as_world := {| objects := store; tables := t; log := log |};
                 as_catalog := build_catalog; as_ownership := ownership; as_operator := operator |}
  end)).

(** [main] up to serving, and the tables after it: what is seeded stays when a
    later step fails.  After the wait the database can be connected to. *)
Definition host_start `{!OpendalServices Store} (environment : string → option string)
    (read_file : string → result string string) (pings : nat → result unit DbError) (clock : nat → Z) (limit now : Z)
    (fuel : nat) (listen : option string) (t : Tables Number) : Start AppState * Tables Number :=
  match bind_start (try_start StartConfig (from_env environment read_file)) (λ config,
        bind_start (wait_for_database pings clock limit now (db_wait_secs config) fuel) (λ _, Running config)) with
  | Running config =>
      match (if seed_demo_data config then seed else seed_schema) t with
      | (Err e, t) => (StartFailed (StartDb e), t)
      | (Ok _, t) => (assemble read_file listen config t, t)
      end
  | StartFailed e => (StartFailed e, t)
  | StartPanicked => (StartPanicked, t)
  | StartWaits => (StartWaits, t)
  end.

(** ** [http.rs] *)

(** The parts of the state that do not change. *)
Context (config : DemoConfig) (catalog : Catalog) (ownership : Ownership) (operator : Uuid)
  (cargo_pkg_version : string).

(** The value of the header, the time and the role. *)
Definition authenticated_subject (authorization : option string) (now : Z) (required_role : string) : M Subject :=
  let* header :=
    pure id (ok_or (authorization ≫= header_to_str) (Unauthorized "missing Authorization header")) in
  let* found := match extract_bearer_token header with Some found => answer found | None => sret None end in
  let* token := pure id (ok_or found (Unauthorized "expected a Bearer token")) in
  let* user := pure (λ _, Unauthorized "invalid bearer credential") (validate_paseto_token token (auth_secret config) now) in
  if negb (is_active user) || negb (is_verified user) then
    refuse (Forbidden "the authenticated account is inactive or unverified")
  else if negb (is_superuser user) && negb (has_role user required_role) then
    refuse (Forbidden ("authenticated subject lacks required role '" +:+ required_role +:+ "'"))
  else
    answer {| subject_id := user_id user; registered := true;
              attributes := bt_insert "email" (email_str (user_email user)) [] |}.

Definition lookup_station (id : string) : M StationSpec :=
  match find_station (λ key, match pg_uuid_parse key with Ok u => Some u | Err _ => None end) id with
  | Some station => answer station
  | None => refuse (NotFound ("no station '" +:+ id +:+ "': use a station UUID or code from GET /resources"))
  end.

(** *** Queries *)

Record QueryRequest := {
  rq_sql : string;
  rq_dialect : option string;
  rq_positional : option (list (Json Number));
  rq_named : option (list (string * Json Number));
  rq_expected_catalog_snapshot_id : option string;
  rq_requested_backend : option string
}.

Definition MAX_QUERY_ROWS : N := 1000.
Definition MAX_QUERY_BYTES : N := 4 * 1024 * 1024.

Record QueryResponse := {
  qr_requested_sql : string;
  qr_backend : SqlArtifact;
  qr_result_schema : ResultSchema;
  qr_columns : list string;
  qr_rows : list (Json Number);
  qr_truncated : bool
}.

Definition compile_query (request : QueryRequest) : Result (BoundQuery * EmitArtifact) :=
  rbind (compiler_parse QueryCompiler_default GenericSqlDialect (rq_sql request)) (λ parsed,
  rbind (build_query_parameters (rq_positional request) (rq_named request)) (λ parameters,
  rbind (compiler_bind_and_validate cargo_pkg_version QueryCompiler_default parsed catalog parameters) (λ bound,
  rbind (compiler_emit bound PostgresAdapter catalog) (λ artifact, Ok (bound, artifact))))).

Definition query_handler (request : QueryRequest) : M QueryResponse :=
  let dialect := default "sql" (rq_dialect request) in
  if negb (String.eqb dialect "sql") then
    refuse (BadRequest ("unsupported query dialect '" +:+ dialect +:+ "'; this host supports 'sql'"))
  else
    let* _snapshot :=
      match rq_expected_catalog_snapshot_id request with
      | Some expected =>
          if negb (String.eqb expected SNAPSHOT_ID) then
            refuse (Conflict ("catalog snapshot mismatch: expected '" +:+ expected +:+ "', current '" +:+ SNAPSHOT_ID +:+ "'"))
          else answer tt
      | None => answer tt
      end in
    let* _backend :=
      match rq_requested_backend request with
      | Some requested =>
          if negb (String.eqb requested "postgres") then
            refuse (BadRequest ("requested backend '" +:+ requested +:+ "' is unavailable; this host supports 'postgres'"))
          else answer tt
      | None => answer tt
      end in
    let* compiled := pure of_query_error (compile_query request) in
    match compiled.2 with
    | AOpaque _ => refuse (Dependency "postgres adapter emitted a non-SQL artifact")
    | ASql sql =>
        let* result :=
          lift of_db_error
            (on_tables (execute_query (sql_text sql) (bound_parameters compiled.1) MAX_QUERY_ROWS MAX_QUERY_BYTES)) in
        let '(cols, rows, truncated) := result in
        answer {| qr_requested_sql := rq_sql request; qr_backend := sql;
                  qr_result_schema := bound_result_schema compiled.1; qr_columns := cols; qr_rows := rows;
                  qr_truncated := truncated |}
    end.

(** *** Exports *)

Definition readings_sql (station : StationSpec) : string :=
  "SELECT to_char(measured_at, 'YYYY-MM-DD" +:+ dq +:+ "T" +:+ dq +:+ "HH24:MI:SS" +:+ dq +:+ "Z" +:+ dq
  +:+ "') AS measured_at, pm25, no2, ozone FROM readings WHERE station_id = '" +:+ pg_uuid_text (station_id station)
  +:+ "' ORDER BY measured_at".

Record ExportResponse := {
  er_resource : ResourceRef;
  er_storage_backend : string;
  er_bundle_path : string;
  er_artifact : ArtifactManifest Number;
  er_sealed : ImportSealedBundle Number
}.

Definition export_handler (now_v7 : Uuid) (now_ms now : Z) (authorization : option string) (id : string) : M ExportResponse :=
  let* subject := authenticated_subject authorization now "operator" in
  let* station := lookup_station id in
  let* executed := lift of_db_error (on_tables (execute (readings_sql station))) in
  let rows := executed.2 in
  let* csv := match readings_csv rows with Some csv => answer csv | None => sret None end in
  let* exported :=
    lift of_export_error
      (export_station now_v7 station csv (vec_len rows) (public_base_url config) (Some subject) now_ms) in
  answer {| er_resource := station_resource station; er_storage_backend := backend_label (store_config config);
            er_bundle_path := bundle_path station; er_artifact := exported.2; er_sealed := exported.1 |}.

Definition bundle_handler (id : string) : M string :=
  let* station := lookup_station id in
  lift (λ _, NotFound ("no bundle stored for '" +:+ code station +:+ "': POST /resources/" +:+ code station
                       +:+ "/export first"))
    (on_objects (store_get (bundle_path station))).

(** *** Imports *)

Record ImportRequest := {
  ir_bundle : string;
  ir_artifact : string;
  ir_expected_bundle_digest : string;
  ir_target : string;
  ir_target_revision : option string;
  ir_plan_digest : option string;
  ir_staged_object : option string
}.

Record Prepared := {
  pr_validated : ValidatedBundle Number;
  pr_rows : list (list string);
  pr_plan : ImportPlan;
  pr_station : StationSpec;
  pr_staged_path : string
}.

(** [str::replace] of colons by dashes. *)
Fixpoint colons_to_dashes (s : string) : string :=
  match s with
  | EmptyString => EmptyString
  | String c s => String (if Ascii.eqb c ":" then "-"%char else c) (colons_to_dashes s)
  end.

Definition staged_path_of (plan : ImportPlan) : string :=
  "imports/staging/" +:+ colons_to_dashes (ip_artifact_digest plan) +:+ "/" +:+ colons_to_dashes (ip_plan_digest plan)
  +:+ "/artifact.csv".

Definition plan_target (station : StationSpec) (revision : option string) : PlanTarget :=
  {| target_resource := station_resource station; target_relation := "readings";
     target_revision := default SNAPSHOT_ID revision; expected_schema := readings_schema; local_owner := operator |}.

Definition prepare_import (request : ImportRequest) : M Prepared :=
  let* station := lookup_station (ir_target request) in
  let* validated :=
    pure of_import_error
      (validate_import_bundle (ir_bundle request) (ir_expected_bundle_digest request) ImportLimits_default) in
  let artifact_bytes := ir_artifact request in
  let* plan :=
    pure of_import_error
      (plan_tabular_import validated artifact_bytes (plan_target station (ir_target_revision request)) ImportLimits_default) in
  let* rows := pure of_import_error (decode_tabular_csv artifact_bytes readings_schema ImportLimits_default) in
  answer {| pr_validated := validated; pr_rows := rows; pr_plan := plan; pr_station := station;
            pr_staged_path := staged_path_of plan |}.

(** What a dry run answers: the digests, the staged object and the plan. *)
Record DryRunResponse := {
  dr_bundle_digest : string;
  dr_source_resource : ResourceRef;
  dr_target_resource : ResourceRef;
  dr_target_revision : string;
  dr_staged_object : string;
  dr_plan_digest : string;
  dr_row_count : N;
  dr_plan : ImportPlan
}.

Definition stage (path bytes : string) : M unit :=
  λ w,
    match on_objects (store_get path) w with
    | (Ok existing, w) =>
        if negb (String.eqb existing bytes) then
          refuse (Conflict "content-addressed staging object already contains different bytes") w
        else answer tt w
    | (Err _, w) => lift of_store_error (on_objects (store_put path bytes)) w
    end.

Definition import_dry_run (now : Z) (authorization : option string) (request : ImportRequest) : M DryRunResponse :=
  let* _subject := authenticated_subject authorization now "import" in
  let* prepared := prepare_import request in
  let* _staged := stage (pr_staged_path prepared) (ir_artifact request) in
  let plan := pr_plan prepared in
  answer {| dr_bundle_digest := vb_bundle_digest (pr_validated prepared);
            dr_source_resource := vb_source_resource (pr_validated prepared);
            dr_target_resource := station_resource (pr_station prepared);
            dr_target_revision := target_revision (ip_target plan); dr_staged_object := pr_staged_path prepared;
            dr_plan_digest := ip_plan_digest plan; dr_row_count := vec_len (pr_rows prepared); dr_plan := plan |}.

Record ApplyResponse := { ar_receipt : Json Number; ar_staged_object : string; ar_replayed : bool }.

(** The structures as JSON, and the commit they are part of. *)
Definition commit_of (request : ImportRequest) (prepared : Prepared) : result (ImportCommit Number) string :=
  rbind (resource_to_value (vb_source_resource (pr_validated prepared))) (λ source_resource,
  rbind (resource_to_value (station_resource (pr_station prepared))) (λ target_resource,
  rbind (history_to_value (provenance (vb_bundle (pr_validated prepared)))) (λ source_evidence,
  rbind (mapping_to_value (ip_column_mapping (pr_plan prepared))) (λ mapping,
  rbind (policy_to_value station_policy) (λ local_policy,
  Ok {| ic_station_id := station_id (pr_station prepared); ic_rows := pr_rows prepared;
        ic_bundle_digest := vb_bundle_digest (pr_validated prepared);
        ic_plan_digest := ip_plan_digest (pr_plan prepared);
        ic_target_revision := target_revision (ip_target (pr_plan prepared));
        ic_source_resource := source_resource; ic_target_resource := target_resource; ic_local_owner := operator;
        ic_local_policy := local_policy; ic_source_evidence := source_evidence; ic_mapping := mapping;
        ic_byte_count := string_len (ir_artifact request); ic_failure_stage := import_failure config |}))))).

(** The transaction; when it fails, the staged object is removed, and an error
    of that is only logged. *)
Definition commit_import (commit : ImportCommit Number) (session : Session) (staged_path : string)
    : M (Json Number * bool) :=
  λ w,
    match on_tables (apply_import commit session) w with
    | (Ok receipt, w) => answer receipt w
    | (Err error, w) =>
        let '(_, w) := on_objects (store_delete staged_path) w in
        refuse (of_db_error error) w
    end.

Definition import_apply (now : Z) (session : Session) (authorization : option string) (request : ImportRequest)
    : M ApplyResponse :=
  let* _subject := authenticated_subject authorization now "import" in
  let* expected_plan_digest :=
    pure id (ok_or (ir_plan_digest request) (BadRequest "apply requires the planDigest returned by dry-run")) in
  let* expected_staged_object :=
    pure id (ok_or (ir_staged_object request) (BadRequest "apply requires the stagedObject returned by dry-run")) in
  let* prepared := prepare_import request in
  let staged_path := pr_staged_path prepared in
  if negb (String.eqb expected_plan_digest (ip_plan_digest (pr_plan prepared))) then
    refuse (Conflict "planDigest does not match the current validated import plan")
  else if negb (String.eqb expected_staged_object staged_path) then
    refuse (Conflict "stagedObject does not match the content-addressed artifact")
  else
    let* staged_bytes :=
      lift (λ _, BadRequest "the dry-run staging object is no longer available") (on_objects (store_get staged_path)) in
    if negb (String.eqb staged_bytes (ir_artifact request)) then
      refuse (Conflict "staged bytes differ from the apply request")
    else
      let* commit := pure Dependency (commit_of request prepared) in
      let* receipt := commit_import commit session staged_path in
      answer {| ar_receipt := receipt.1; ar_staged_object := staged_path; ar_replayed := receipt.2 |}.

(** *** Data rights *)

Definition access_export_handler (now_v7 : Uuid) (now_ms now : Z) (authorization : option string) (id : string)
    : M (AccessExportRecord (Json Number)) :=
  let* subject := authenticated_subject authorization now "operator" in
  let* station := lookup_station id in
  lift of_provenance_error (on_log (access_export now_v7 (station_resource station) subject station_policy now_ms)).

Definition erase_handler (now_v7 : Uuid) (now_ms now : Z) (authorization : option string) (id reason : string)
    : M SoftDeletion :=
  let* subject := authenticated_subject authorization now "operator" in
  let* station := lookup_station id in
  match (evaluate_access subject (station_resource station) (Restricted []) ownership).1 with
  | Deny reason => refuse (Forbidden ("erasure requires resource ownership: " +:+ reason))
  | Allow =>
      lift of_provenance_error
        (on_log (soft_delete now_v7 (station_resource station) (Some subject) reason now_ms))
  end.

(** *** DOIs and federation *)

Definition mint_doi_handler (now : Z) (authorization : option string) (id : string)
    : M (DoiRecord Number * DataCiteMetadata) :=
  let* _subject := authenticated_subject authorization now "operator" in
  let* station := lookup_station id in
  let landing_url := public_base_url config +:+ "/resources/" +:+ code station in
  let metadata := station_datacite station (DEMO_DOI_PREFIX +:+ "/qfdemo.pending") in
  answer (local_mint (station_resource station) landing_url, metadata).

(** Nothing when federation is off. *)
Definition federation_status : option (string * string * N * list string) :=
  let f := federation config in
  if negb (federation_enable f) then None
  else Some (node_name f, addr_ip_text (listen_addr config), federation_flight_port f, hub_multiaddrs f).
End Host.

(** ** The routes *)

(** What the extractors of axum make of a request: the text of a captured
    segment and the typed bodies, or the status of the rejection; and
    [serde_json::to_value] of the document of a catalog. *)
Record HttpRequest := {
  hr_method : string;
  hr_path : string;
  hr_authorization : option string;
  hr_content_type : option string;
  hr_body : string
}.

Class Extractors `{Serde : !SerdeJson} := {
  path_parameter : string → result string N;
  query_body : HttpRequest → result QueryRequest N;
  import_body : HttpRequest → result ImportRequest N;
  erase_body : HttpRequest → result string N;
  document_to_value : CatalogDocument → result (Json JsonNumber) string
}.

Inductive Endpoint :=
| EIndex | EHealthz | ECatalog | EResources | EQuery | EExport | EBundle | EAccessExport | EErase | EMintDoi
| EImportDryRun | EImportApply | EFederationStatus.

Inductive Segment := Lit (text : string) | Capture.

(** [get] answers [HEAD] as well. *)
Inductive Verb := VGet | VPost.

Definition verb_takes (verb : Verb) (http_method : string) : bool :=
  match verb with
  | VGet => String.eqb http_method "GET" || String.eqb http_method "HEAD"
  | VPost => String.eqb http_method "POST"
  end.

Definition routes : list (list Segment * (Verb * Endpoint)) :=
  [([Lit ""], (VGet, EIndex));
   ([Lit "healthz"], (VGet, EHealthz));
   ([Lit "catalog"], (VGet, ECatalog));
   ([Lit "resources"], (VGet, EResources));
   ([Lit "query"], (VPost, EQuery));
   ([Lit "resources"; Capture; Lit "export"], (VPost, EExport));
   ([Lit "resources"; Capture; Lit "bundle"], (VGet, EBundle));
   ([Lit "resources"; Capture; Lit "access-export"], (VGet, EAccessExport));
   ([Lit "resources"; Capture; Lit "erase"], (VPost, EErase));
   ([Lit "resources"; Capture; Lit "doi"], (VPost, EMintDoi));
   ([Lit "imports"; Lit "dry-run"], (VPost, EImportDryRun));
   ([Lit "imports"; Lit "apply"], (VPost, EImportApply));
   ([Lit "federation"; Lit "status"], (VGet, EFederationStatus))].

(** The captured segments of a path that has the form of a pattern; a captured
    segment is not empty. *)
Fixpoint match_segments (pattern : list Segment) (path : list string) : option (list string) :=
  match pattern, path with
  | [], [] => Some []
  | Lit text :: pattern, segment :: path => if String.eqb text segment then match_segments pattern path else None
  | Capture :: pattern, segment :: path =>
      if String.eqb segment "" then None else option_map (cons segment) (match_segments pattern path)
  | _, _ => None
  end.

Definition path_segments (path : string) : option (list string) :=
  match path with
  | String c rest => if Ascii.eqb c "/" then Some (split_char "/" rest) else None
  | EmptyString => None
  end.

(** The route of a path: what it takes, and what it captured. *)
Definition find_route (path : string) : option ((Verb * Endpoint) * list string) :=
  path_segments path ≫= λ segments,
  (fix go (l : list (list Segment * (Verb * Endpoint))) :=
     match l with
     | [] => None
     | (pattern, target) :: l =>
         match match_segments pattern segments with Some captured => Some (target, captured) | None => go l end
     end) routes.

Section Server.
Context `{Serde : !SerdeJson}.
#[local] Abbreviation Number := JsonNumber.
Context {Store : Type} `{Dal : !Opendal Store} `{Pg : !Postgres Number} `{JMap : !JsonMap Number} `{V5 : !UuidV5} `{Hash : !Blake3}
  `{Lex : !Lexicon} `{Fmt : !BundleFormat Number} `{IFmt : !ImportFormat Number} `{HFmt : !HostFormat Number}
  `{Pas : !Paseto Number} `{Platform : !HostPlatform} `{Server : !PgServer} `{Uni : !Unicode} `{Parser : !SqlParser}
  `{Ext : !Extractors}.
Context (config : DemoConfig) (catalog : MemoryCatalog) (ownership : Ownership) (operator : Uuid)
  (cargo_pkg_version : string).
#[local] Abbreviation World := (HostWorld (Store:=Store)).
#[local] Abbreviation M := (Host.M (Store:=Store)).

Definition healthz_handler (select : option string) : M unit := pure of_db_error (ping pg_connect select).

Definition catalog_handler : Json Number :=
  match document_to_value (to_document catalog) with Ok value => value | Err _ => object [] end.

(** [json!] panics when a part has no value. *)
Definition resource_entry (station : StationSpec) : option (Json Number) :=
  match resource_to_value (station_resource station), policy_to_value station_policy with
  | Ok resource, Ok policy =>
      Some (object
        [("id", JString (pg_uuid_text (station_id station))); ("code", JString (code station));
         ("name", JString (station_name station)); ("city", JString (city station)); ("resource", resource);
         ("policy", policy)])
  | _, _ => None
  end.

Definition resources_handler : option (Json Number) :=
  option_map (λ entries, object [("namespace", JString (pg_uuid_text DEMO_NAMESPACE)); ("resources", JArray entries)])
    (mapM resource_entry STATIONS).

Inductive Answer :=
| AnIndex
| AnHealthy
| AnCatalog (document : Json Number)
| AnResources (resources : Json Number)
| AnQuery (response : QueryResponse)
| AnExport (response : ExportResponse)
| AnBundle (bytes : string)
| AnAccessExport (record : AccessExportRecord (Json Number))
| AnErasure (deletion : SoftDeletion)
| AnDoi (record : DoiRecord Number * DataCiteMetadata)
| AnDryRun (response : DryRunResponse)
| AnApply (response : ApplyResponse)
| AnFederation (status : option (string * string * N * list string)).

(** A rejection of the router or of an extractor, or the result of the handler. *)
Inductive Served :=
| Rejected (status : N)
| Handled (result : result Answer ApiError).

(** What a request meets: identifiers, times, and the faults of the database. *)
Record Ambient := {
  am_now_v7 : Uuid;
  am_now_ms : Z;
  am_now : Z;
  am_session : Session;
  am_select : option string
}.

Definition handled {A} (f : A → Answer) (m : M A) : state World (option Served) :=
  λ w,
    match m w with
    | (Some (Ok a), w) => (Some (Handled (Ok (f a))), w)
    | (Some (Err e), w) => (Some (Handled (Err e)), w)
    | (None, w) => (None, w)
    end.

Definition extracted {A} (r : result A N) (k : A → state World (option Served)) : state World (option Served) :=
  match r with Ok a => k a | Err status => sret (Some (Rejected status)) end.

(** The parameters of a handler are extracted in their order. *)
Definition with_id (captured : list string) (k : string → state World (option Served)) : state World (option Served) :=
  match captured with [segment] => extracted (path_parameter segment) k | _ => sret (Some (Rejected 500)) end.

Definition serve_endpoint (ambient : Ambient) (endpoint : Endpoint) (captured : list string) (request : HttpRequest)
    : state World (option Served) :=
  let authorization := hr_authorization request in
  let v7 := am_now_v7 ambient in
  let now_ms := am_now_ms ambient in
  let now := am_now ambient in
  match endpoint with
  | EIndex => handled (λ _, AnIndex) (answer tt)
  | EHealthz => handled (λ _, AnHealthy) (healthz_handler (am_select ambient))
  | ECatalog => handled AnCatalog (answer catalog_handler)
  | EResources => handled AnResources (match resources_handler with Some v => answer v | None => sret None end)
  | EQuery =>
      extracted (query_body request) (λ q,
      handled AnQuery (query_handler (memory_catalog catalog) cargo_pkg_version q))
  | EExport => with_id captured (λ id, handled AnExport (export_handler config v7 now_ms now authorization id))
  | EBundle => with_id captured (λ id, handled AnBundle (bundle_handler id))
  | EAccessExport =>
      with_id captured (λ id, handled AnAccessExport (access_export_handler config v7 now_ms now authorization id))
  | EErase =>
      with_id captured (λ id,
      extracted (erase_body request) (λ reason,
      handled AnErasure (erase_handler config ownership v7 now_ms now authorization id reason)))
  | EMintDoi => with_id captured (λ id, handled AnDoi (mint_doi_handler config now authorization id))
  | EImportDryRun =>
      extracted (import_body request) (λ r, handled AnDryRun (import_dry_run config operator now authorization r))
  | EImportApply =>
      extracted (import_body request) (λ r,
      handled AnApply (import_apply config operator now (am_session ambient) authorization r))
  | EFederationStatus => handled AnFederation (answer (federation_status config))
  end.

Definition serve (ambient : Ambient) (request : HttpRequest) : state World (option Served) :=
  match find_route (hr_path request) with
  | None => sret (Some (Rejected 404))
  | Some ((verb, endpoint), captured) =>
      if verb_takes verb (hr_method request) then serve_endpoint ambient endpoint captured request
      else sret (Some (Rejected 405))
  end.
End Server.
