(* ===== verification/HostFacts.v ===== *)
(** Facts of [Host]: who is let in, what is committed, that a dry run can be
    applied, how the host starts, and what its routes answer to strangers. *)
From Stdlib Require Import Ascii.
From S2P Require Import Prelude BTreeMap Types Diagnostics Bound Catalog CatalogFacts Cost Suggest Contract Provenance Access Tenancy SqlDialect Adapters SourceMap Json Csv Citation Bundle Import Inspect Facade Names Tokens HostDb HostConfig Doi Host.

Section Facts.
Context `{Serde : !SerdeJson}.
#[local] Abbreviation Number := JsonNumber.
Context {Store : Type} `{Dal : !Opendal Store} `{Pg : !Postgres Number} `{JMap : !JsonMap Number} `{V5 : !UuidV5} `{Hash : !Blake3}
  `{Lex : !Lexicon} `{Fmt : !BundleFormat Number} `{IFmt : !ImportFormat Number} `{HFmt : !HostFormat Number}
  `{Pas : !Paseto Number} `{Platform : !HostPlatform} `{Server : !PgServer} `{Uni : !Unicode} `{Parser : !SqlParser}.
Context (config : DemoConfig) (ownership : Ownership) (operator : Uuid).
#[local] Abbreviation World := (HostWorld (Store:=Store)).
#[local] Abbreviation M := (Host.M (Store:=Store)).
Implicit Types (w : World) (request : ImportRequest) (session : Session).

(** ** The monad *)

Lemma bind_host_Ok {A B} (m : M A) (k : A → M B) w r w' :
  bind_host m k w = (Some (Ok r), w') ↔ ∃ a w1, m w = (Some (Ok a), w1) ∧ k a w1 = (Some (Ok r), w').
Proof.
  unfold bind_host. destruct (m w) as [[[a|e]|] w1]; split; [by eauto|..].
  - by intros (? & ? & [= -> ->] & ?).
  - done.
  - by intros (? & ? & ? & ?).
  - done.
  - by intros (? & ? & ? & ?).
Qed.

Lemma pure_Ok {A E} (f : E → ApiError) (r : result A E) w a w' :
  pure f r w = (Some (Ok a), w') ↔ r = Ok a ∧ w' = w.
Proof. unfold pure, lift, sret. destruct r; split; [by intros [= -> ->]|by intros [[= ->] ->]|done|by intros [? _]]. Qed.

(** A run of the database that leaves the tables leaves the world. *)
Lemma lift_read {A E} (f : E → ApiError) (m : state (Tables Number) (result A E)) w :
  (m (tables w)).2 = tables w →
  lift f (on_tables m) w = (Some (match (m (tables w)).1 with Ok a => Ok a | Err e => Err (f e) end), w).
Proof. unfold lift, on_tables. intros H. destruct (m (tables w)) as [r t]. simpl in *. subst t. by destruct w, r. Qed.

(** ** Who is let in *)

(** A bearer token of an active and verified user who has the role. *)
Definition admits (authorization : option string) (now : Z) (role : string) (subject : Subject) : Prop :=
  ∃ header token user,
    authorization ≫= header_to_str = Some header ∧ extract_bearer_token header = Some (Some token)
    ∧ validate_paseto_token token (auth_secret config) now = Ok user
    ∧ is_active user = true ∧ is_verified user = true ∧ (is_superuser user = true ∨ has_role user role = true)
    ∧ subject = {| subject_id := user_id user; registered := true;
                   attributes := bt_insert "email" (email_str (user_email user)) [] |}.

Lemma authenticated_subject_Ok authorization now role w subject w' :
  authenticated_subject config authorization now role w = (Some (Ok subject), w')
  ↔ w' = w ∧ admits authorization now role subject.
Proof.
  unfold authenticated_subject. rewrite bind_host_Ok. setoid_rewrite bind_host_Ok. setoid_rewrite bind_host_Ok.
  setoid_rewrite bind_host_Ok. setoid_rewrite pure_Ok. split.
  - intros (header & ? & [Hh%ok_or_Ok ->] & found & ? & Hf & token & ? & [Ht%ok_or_Ok ->] & user & ? & [Hu ->] & H).
    destruct (extract_bearer_token header) as [found'|] eqn:He; [|done]. injection Hf as -> ->. subst found.
    destruct (is_active user) eqn:Ha; [|done]. destruct (is_verified user) eqn:Hv; [|done].
    unfold map_err in Hu. simpl in H. destruct (is_superuser user) eqn:Hs; simpl in H.
    + injection H as <- <-. split; [done|]. exists header, token, user. split_and!; auto.
    + destruct (has_role user role) eqn:Hr; [|done]. injection H as <- <-. split; [done|].
      exists header, token, user. split_and!; auto.
  - intros (-> & header & token & user & Hh & He & Hu & Ha & Hv & Hr & ->).
    exists header, w. rewrite Hh. split; [done|]. exists (Some token), w. rewrite He. split; [done|].
    exists token, w. split; [done|]. exists user, w. rewrite Hu. split; [done|]. rewrite Ha, Hv. simpl.
    destruct Hr as [-> | ->]; [done|]. by rewrite andb_false_r.
Qed.

(** A refusal leaves everything as it is and says 401 or 403; with headers that
    are texts of visible ASCII nothing panics. *)
Lemma authenticated_subject_refuses authorization now role w :
  (∀ raw header, header_to_str raw = Some header → ascii_text header = true) →
  (¬ ∃ subject, admits authorization now role subject) →
  ∃ e, authenticated_subject config authorization now role w = (Some (Err e), w) ∧ api_status e ∈ [401; 403]%N.
Proof.
  intros Hascii Hno. destruct (authenticated_subject config authorization now role w) as [[[subject|e]|] w'] eqn:Hr.
  - apply authenticated_subject_Ok in Hr as [_ Ha]. destruct Hno. by exists subject.
  - exists e. revert Hr. unfold authenticated_subject, bind_host, pure, lift, sret, answer, refuse, id.
    destruct (authorization ≫= header_to_str) as [header|]; simpl; [|intros [= <- <-]; split; [done|set_solver]].
    destruct (extract_bearer_token header) as [[token|]|]; simpl; [|intros [= <- <-]; split; [done|set_solver]|done].
    destruct (validate_paseto_token _ _ _) as [user|]; simpl; [|intros [= <- <-]; split; [done|set_solver]].
    destruct (_ || _); [intros [= <- <-]; split; [done|set_solver]|].
    destruct (_ && _); [intros [= <- <-]; split; [done|set_solver]|done].
  - exfalso. revert Hr. unfold authenticated_subject, bind_host, pure, lift, sret, answer, refuse, id.
    destruct (authorization ≫= header_to_str) as [header|] eqn:Hh; simpl; [|done].
    destruct authorization as [raw|]; [|done]. simpl in Hh. apply Hascii in Hh.
    destruct (bearer_token_of_ascii _ Hh) as [[token|] ->]; simpl; [|done].
    destruct (validate_paseto_token _ _ _); [|done]. by repeat case_match.
Qed.

(** ** Delegation tokens *)

Lemma bearer_token_is_extracted token :
  ascii_text ("Bearer " +:+ token) = true → extract_bearer_token ("Bearer " +:+ token) = Some (Some token).
Proof.
  intros Ha. unfold extract_bearer_token, scheme_token. rewrite string_length_app.
  assert (∀ n, (String.length "Bearer " + n - 7 = n)%nat) as Hsub by (intros n; simpl; lia).
  change (String.length "bearer ") with 7%nat. rewrite ascii_boundary by (try done; rewrite string_length_app; simpl; lia).
  rewrite Hsub. destruct (Nat.leb_spec 7 (String.length "Bearer " + String.length token)); [|simpl in *; lia].
  replace (String.substring 0 7 ("Bearer " +:+ token)) with "Bearer "
    by (cbn; by destruct token). simpl.
  assert (String.substring 0 (String.length token) token = token) as Hall.
  { clear. induction token as [|c token IH]; simpl; [done|by f_equal]. }
  change ("" +:+ token) with token. by rewrite Hall.
Qed.

(** The host does not take a delegation token for its user: it says that the
    user is not verified. *)
Lemma delegation_is_not_admitted `{!LawfulPaseto Number} user ids table nonce token issued now role raw :
  mint_delegation_token user ids table (auth_secret config) issued nonce = Ok token →
  (issued ≤ now)%Z → (now < issued + DELEGATION_TTL_SECS)%Z →
  header_to_str raw = Some ("Bearer " +:+ token) → ascii_text ("Bearer " +:+ token) = true →
  ¬ ∃ subject, admits (Some raw) now role subject.
Proof.
  intros Hm Hi Hn Hraw Ha (subject & header & found & u & Hh & He & Hu & _ & Hv & _). simpl in Hh. rewrite Hraw in Hh.
  injection Hh as <-. rewrite (bearer_token_is_extracted _ Ha) in He. injection He as <-.
  rewrite (minted_token_as_user _ _ _ _ _ _ _ _ Hm Hi Hn) in Hu. injection Hu as <-. done.
Qed.

(** ** Imports *)

(** What a request is prepared to: the station, the validated bundle, the plan
    of its table and the rows of the artifact. *)
Record prepared request (p : Prepared) : Prop := {
  pp_station :
    find_station (λ key, match pg_uuid_parse key with Ok u => Some u | Err _ => None end) (ir_target request)
    = Some (pr_station p);
  pp_bundle :
    validate_import_bundle (ir_bundle request) (ir_expected_bundle_digest request) ImportLimits_default
    = Ok (pr_validated p);
  pp_plan :
    plan_tabular_import (pr_validated p) (ir_artifact request)
      (plan_target operator (pr_station p) (ir_target_revision request)) ImportLimits_default = Ok (pr_plan p);
  pp_rows : decode_tabular_csv (ir_artifact request) readings_schema ImportLimits_default = Ok (pr_rows p);
  pp_path : pr_staged_path p = staged_path_of (pr_plan p)
}.

Lemma prepare_import_Ok request w p w' :
  prepare_import operator request w = (Some (Ok p), w') ↔ w' = w ∧ prepared request p.
Proof.
  unfold prepare_import, lookup_station. rewrite bind_host_Ok. setoid_rewrite bind_host_Ok. setoid_rewrite bind_host_Ok.
  setoid_rewrite bind_host_Ok. setoid_rewrite pure_Ok. unfold of_import_error. split.
  - intros (station & w1 & Hs & vb & w2 & [Hv ->] & plan & w3 & [Hp ->] & rows & w4 & [Hr ->] & H). injection H as <- <-.
    destruct (find_station _ _) as [station'|] eqn:Hf; [|done]. injection Hs as -> ->. split; [done|]. by constructor.
  - intros [-> [Hs Hv Hp Hr Hpath]]. exists (pr_station p), w. rewrite Hs. split; [done|].
    exists (pr_validated p), w. split; [done|]. exists (pr_plan p), w. split; [done|]. exists (pr_rows p), w.
    split; [done|]. destruct p; simpl in *. by subst.
Qed.

(** The preparation is a function of the request. *)
Lemma prepared_unique request p q : prepared request p → prepared request q → p = q.
Proof.
  intros [Hs Hv Hp Hr Hx] [Hs' Hv' Hp' Hr' Hx']. rewrite Hs in Hs'. injection Hs' as Hst. rewrite Hv in Hv'.
  injection Hv' as Hvb. rewrite Hr in Hr'. injection Hr' as Hrows. rewrite <- Hst, <- Hvb, Hp in Hp'. injection Hp' as Hplan.
  destruct p, q; simpl in *. congruence.
Qed.

(** Nothing but the objects changes. *)
Definition same_but_objects w w' : Prop := tables w' = tables w ∧ log w' = log w.

Definition keeps {A} (m : M A) : Prop := ∀ w, same_but_objects w (m w).2.

Lemma keeps_pure {A E} (f : E → ApiError) (r : result A E) : keeps (pure f r).
Proof. by destruct r. Qed.

Lemma keeps_lift_objects {A E} (f : E → ApiError) (m : state Store (result A E)) : keeps (lift f (on_objects m)).
Proof. intros w. unfold lift, on_objects. by destruct (m (objects w)) as [[]]. Qed.

Lemma keeps_bind {A B} (m : M A) (k : A → M B) : keeps m → (∀ a, keeps (k a)) → keeps (bind_host m k).
Proof.
  intros Hm Hk w. unfold bind_host. specialize (Hm w). destruct (m w) as [[[a|e]|] w1]; [|done|done].
  destruct Hm as [Ht Hl], (Hk a w1) as [Ht' Hl']. simpl in *. split; congruence.
Qed.

Lemma keeps_subject authorization now role : keeps (authenticated_subject config authorization now role).
Proof.
  unfold authenticated_subject. apply keeps_bind; [apply keeps_pure|intros header].
  apply keeps_bind; [by destruct (extract_bearer_token header)|intros found]. apply keeps_bind; [apply keeps_pure|intros token].
  apply keeps_bind; [apply keeps_pure|intros user]. by repeat case_match.
Qed.

Lemma keeps_prepare request : keeps (prepare_import operator request).
Proof.
  unfold prepare_import, lookup_station. apply keeps_bind; [by case_match|intros station].
  repeat (apply keeps_bind; [apply keeps_pure|intros ?]). done.
Qed.

(** What is true of a sequence of which the first part only touches objects. *)
Lemma bind_host_post {A B} (m : M A) (k : A → M B) w (Q : option (result B ApiError) * World → Prop) :
  keeps m → (∀ r w', same_but_objects w w' → Q (r, w')) →
  (∀ a w1, m w = (Some (Ok a), w1) → Q (k a w1)) → Q (bind_host m k w).
Proof.
  intros Hm Hq Hk. unfold bind_host. specialize (Hm w). destruct (m w) as [[[a|e]|] w1]; [by apply Hk|by apply Hq..].
Qed.

#[local] Opaque authenticated_subject prepare_import.

(** What a dry run promises: nothing is imported, the artifact is staged, and
    the answer is the plan. *)
Lemma import_dry_run_Ok now authorization request w d w' :
  import_dry_run config operator now authorization request w = (Some (Ok d), w') →
  same_but_objects w w' ∧ (∃ subject, admits authorization now "import" subject)
  ∧ ∃ p, prepared request p
    ∧ dr_bundle_digest d = vb_bundle_digest (pr_validated p) ∧ dr_plan d = pr_plan p
    ∧ dr_plan_digest d = ip_plan_digest (pr_plan p) ∧ dr_staged_object d = pr_staged_path p
    ∧ dr_row_count d = vec_len (pr_rows p)
    ∧ dr_target_resource d = station_resource (pr_station p)
    ∧ dr_target_revision d = target_revision (ip_target (pr_plan p))
    ∧ (store_get (pr_staged_path p) (objects w) = (Ok (ir_artifact request), objects w')
       ∨ ∃ e s, store_get (pr_staged_path p) (objects w) = (Err e, s)
                ∧ store_put (pr_staged_path p) (ir_artifact request) s = (Ok tt, objects w')).
Proof.
  unfold import_dry_run. rewrite bind_host_Ok. setoid_rewrite bind_host_Ok. setoid_rewrite bind_host_Ok.
  intros (subject & w1 & [-> Ha]%authenticated_subject_Ok & p & w2 & [-> Hp]%prepare_import_Ok & [] & w3 & Hst & H).
  injection H as <- <-. unfold stage, on_objects in Hst.
  destruct (store_get (pr_staged_path p) (objects w)) as [[existing|e] s] eqn:Hg.
  - destruct (String.eqb_spec existing (ir_artifact request)) as [->|]; [|done]. injection Hst as <-.
    split; [done|]. split; [by exists subject|]. exists p. split_and!; auto.
  - unfold lift in Hst. simpl in Hst. destruct (store_put _ _ s) as [[[]|] s'] eqn:Hput; [|done]. injection Hst as <-.
    split; [done|]. split; [by exists subject|]. exists p. split_and!; auto. right. by exists e, s.
Qed.

Lemma import_apply_Ok now session authorization request w r w' :
  import_apply config operator now session authorization request w = (Some (Ok r), w')
  ↔ ∃ subject p commit s,
      admits authorization now "import" subject ∧ prepared request p
      ∧ ir_plan_digest request = Some (ip_plan_digest (pr_plan p))
      ∧ ir_staged_object request = Some (pr_staged_path p)
      ∧ store_get (pr_staged_path p) (objects w) = (Ok (ir_artifact request), s)
      ∧ commit_of config operator request p = Ok commit
      ∧ apply_import commit session (tables w) = (Ok (ar_receipt r, ar_replayed r), tables w')
      ∧ ar_staged_object r = pr_staged_path p ∧ log w' = log w ∧ objects w' = s.
Proof.
  unfold import_apply. rewrite bind_host_Ok. setoid_rewrite bind_host_Ok. setoid_rewrite bind_host_Ok.
  setoid_rewrite bind_host_Ok. setoid_rewrite pure_Ok. split.
  - intros (subject & w1 & [-> Ha]%authenticated_subject_Ok & digest & w2 & [Hd%ok_or_Ok ->] & path & w3
      & [Hp%ok_or_Ok ->] & p & w4 & [-> Hprep]%prepare_import_Ok & H).
    destruct (String.eqb_spec digest (ip_plan_digest (pr_plan p))) as [->|]; [|done]. simpl in H.
    destruct (String.eqb_spec path (pr_staged_path p)) as [->|]; [|done]. simpl in H.
    rewrite bind_host_Ok in H. destruct H as (bytes & w5 & Hg & H). unfold lift, on_objects in Hg.
    destruct (store_get _ (objects w)) as [[b|] s] eqn:Hget; [|done]. injection Hg as -> <-.
    destruct (String.eqb_spec bytes (ir_artifact request)) as [->|]; [|done]. simpl in H.
    rewrite bind_host_Ok in H. destruct H as (commit & w6 & [Hc ->]%pure_Ok & H).
    rewrite bind_host_Ok in H. destruct H as (receipt & w7 & Hcommit & H). injection H as <- <-.
    unfold commit_import, on_tables in Hcommit. simpl in Hcommit.
    destruct (apply_import commit session (tables w)) as [[rc|e] t] eqn:Happly;
      [|by destruct (on_objects _ _)]. injection Hcommit as -> <-. destruct receipt as [value replayed].
    exists subject, p, commit, s. split_and!; done.
  - intros (subject & p & commit & s & Ha & Hprep & Hd & Hp & Hget & Hc & Happly & Hpath & Hl & Ho).
    exists subject, w. split; [by apply authenticated_subject_Ok|]. rewrite Hd, Hp. eexists _, w. split; [done|].
    eexists _, w. split; [done|]. exists p, w. split; [by apply prepare_import_Ok|]. rewrite !String.eqb_refl. simpl.
    rewrite bind_host_Ok. exists (ir_artifact request), {| objects := s; tables := tables w; log := log w |}.
    split; [unfold lift, on_objects; by rewrite Hget|]. rewrite String.eqb_refl. simpl. rewrite bind_host_Ok.
    eexists commit, _. split; [by apply pure_Ok|]. rewrite bind_host_Ok.
    exists (ar_receipt r, ar_replayed r), w'. unfold commit_import, on_tables. simpl. rewrite Happly.
    destruct r, w'; simpl in *; subst. done.
Qed.

(** The tables are as before, or the transaction of the prepared request was
    run on them; when nothing is answered, it failed. *)
Definition apply_framed session request w (x : option (result (ApplyResponse) ApiError) * World) : Prop :=
  log x.2 = log w
  ∧ (tables x.2 = tables w
     ∨ ∃ p commit, prepared request p ∧ commit_of config operator request p = Ok commit
                   ∧ match x.1 with
                     | Some (Ok _) => True
                     | _ => ∃ e, apply_import commit session (tables w) = (Err e, tables x.2)
                     end).

Lemma import_apply_frame now session authorization request w :
  apply_framed session request w (import_apply config operator now session authorization request w).
Proof.
  assert (∀ r w', same_but_objects w w' → apply_framed session request w (r, w')) as Hq
    by (intros r w' [Ht Hl]; split; [done|by left]).
  unfold import_apply. apply bind_host_post; [apply keeps_subject|done|]. intros subject ? [-> _]%authenticated_subject_Ok.
  apply bind_host_post; [apply keeps_pure|done|]. intros digest ? [_ ->]%pure_Ok.
  apply bind_host_post; [apply keeps_pure|done|]. intros path ? [_ ->]%pure_Ok.
  apply bind_host_post; [apply keeps_prepare|done|]. intros p ? [-> Hp]%prepare_import_Ok.
  destruct (negb _); [by apply Hq|]. destruct (negb _); [by apply Hq|].
  apply bind_host_post; [apply keeps_lift_objects|done|]. intros bytes w1 Hg.
  assert (same_but_objects w w1) as Hw1
    by (pose proof (keeps_lift_objects (λ _, BadRequest "the dry-run staging object is no longer available")
          (store_get (pr_staged_path p)) w) as Hk; by rewrite Hg in Hk).
  destruct (negb _); [by apply Hq|]. unfold bind_host at 1. destruct (pure _ _ w1) as [[[commit|e]|] w2] eqn:Hc.
  - apply pure_Ok in Hc as [Hc ->]. destruct Hw1 as [Ht Hl]. unfold bind_host, commit_import, on_tables.
    rewrite Ht. destruct (apply_import commit session (tables w)) as [[receipt|e] t] eqn:Happly; simpl.
    + split; [done|]. right. exists p, commit. done.
    + unfold on_objects. destruct (store_delete _ _). simpl. split; [done|]. right. exists p, commit.
      split_and!; [done..|]. by exists e.
  - unfold pure, lift, sret in Hc. destruct (commit_of _ _ _ _); [done|]. injection Hc as _ <-. by apply Hq.
  - unfold pure, lift, sret in Hc. by destruct (commit_of _ _ _ _).
Qed.

Lemma commit_of_prepared request p commit :
  commit_of config operator request p = Ok commit →
  ic_rows commit = pr_rows p ∧ ic_bundle_digest commit = vb_bundle_digest (pr_validated p)
  ∧ ic_station_id commit = station_id (pr_station p) ∧ ic_failure_stage commit = import_failure config
  ∧ ic_target_revision commit = target_revision (ip_target (pr_plan p)).
Proof. intros H. unfold commit_of in H. do 5 (rewrite rbind_Ok in H; destruct H as (? & _ & H)). by injection H as <-. Qed.

(** C9: what is committed was validated.  An import is applied only for a token
    of an active, verified user with the role, with the digest and the staged
    object of the plan that the bundle, the artifact and the target give; then
    one receipt is added and, under the identifiers that were drawn for them, a
    reading of the station for every row of that artifact, which has the time
    and the three values that the columns of the row say: all of them, if the
    identifiers are new.  For a receipt that is there, nothing is added.
    Whatever else is answered, nothing is added, except when the database
    carried out a commit that it did not acknowledge; and provenance is never
    touched. *)
Theorem what_is_committed_was_validated now session authorization request w :
  match import_apply config operator now session authorization request w with
  | (Some (Ok r), w') =>
      log w' = log w
      ∧ ∃ subject p commit,
          admits authorization now "import" subject ∧ prepared request p
          ∧ ir_plan_digest request = Some (ip_plan_digest (pr_plan p))
          ∧ ir_staged_object request = Some (staged_path_of (pr_plan p))
          ∧ ic_rows commit = pr_rows p ∧ ic_bundle_digest commit = vb_bundle_digest (pr_validated p)
          ∧ ic_station_id commit = station_id (pr_station p)
          ∧ if ar_replayed r then
              tables w' = tables w
              ∧ ∃ row, select_receipt (import_key commit) (tables w) = Some row ∧ replay_matches commit row = true
                       ∧ ar_receipt r = receipt_json row
            else
              imported commit session (tables w) (tables w') ∧ ar_receipt r = receipt_value commit session
              ∧ (fresh_from 0 session (tables w) →
                 ∃ new, Forall2 (row_says commit) (pr_rows p) new
                        ∧ readings (tables w') = readings (tables w) ++ new)
  | (_, w') =>
      log w' = log w
      ∧ (tables w' = tables w
         ∨ ∃ p commit error, prepared request p ∧ ic_rows commit = pr_rows p
             ∧ commit_fault session = Some (error, true) ∧ imported commit session (tables w) (tables w'))
  end.
Proof.
  pose proof (import_apply_frame now session authorization request w) as [Hl Hframe].
  assert (∀ p commit e t', prepared request p → commit_of config operator request p = Ok commit →
    apply_import commit session (tables w) = (Err e, t') →
    t' = tables w
    ∨ ∃ p commit error, prepared request p ∧ ic_rows commit = pr_rows p
        ∧ commit_fault session = Some (error, true) ∧ imported commit session (tables w) t') as Hfailed.
  { intros p commit e t' Hp Hc H. pose proof (apply_import_cases commit session (tables w)) as Hcases. rewrite H in Hcases.
    destruct (commit_of_prepared _ _ _ Hc) as [Hr _].
    destruct Hcases as [->|(Him & error & He & _)]; [by left|right]. by exists p, commit, error. }
  destruct (import_apply _ _ _ _ _ _ w) as [[[r|e]|] w'] eqn:H; simpl in *; (split; [done|]).
  - apply import_apply_Ok in H as (subject & p & commit & s & Ha & Hp & Hd & Hs & _ & Hc & Happly & _).
    exists subject, p, commit. destruct (commit_of_prepared _ _ _ Hc) as (Hr & Hb & Hst & _). rewrite (pp_path _ _ Hp) in Hs.
    split_and!; [done..|]. pose proof (apply_import_cases commit session (tables w)) as Hcases. rewrite Happly in Hcases.
    destruct (ar_replayed r); [done|]. destruct Hcases as [Him ->]. split_and!; [done..|]. intros Hfresh. rewrite <- Hr.
    by apply (fresh_rows_are_added _ session).
  - destruct Hframe as [?|(p & commit & Hp & Hc & e' & Ht)]; [by left|]. by eapply Hfailed.
  - destruct Hframe as [?|(p & commit & Hp & Hc & e' & Ht)]; [by left|]. by eapply Hfailed.
Qed.

(** ** A dry run can be applied *)

(** The request with the answer of its dry run. *)
Definition applying request (d : DryRunResponse) : ImportRequest :=
  {| ir_bundle := ir_bundle request; ir_artifact := ir_artifact request;
     ir_expected_bundle_digest := ir_expected_bundle_digest request; ir_target := ir_target request;
     ir_target_revision := ir_target_revision request; ir_plan_digest := Some (dr_plan_digest d);
     ir_staged_object := Some (dr_staged_object d) |}.

Lemma prepared_applying request d p : prepared request p → prepared (applying request d) p.
Proof. by intros []; constructor. Qed.

(** An object that was written or read can be read. *)
Class LawfulOpendal : Prop := {
  written_object : ∀ path bytes s s', op_write path bytes s = (Ok tt, s') → (op_read path s').1 = Ok bytes;
  read_object : ∀ path bytes s s', op_read path s = (Ok bytes, s') → (op_read path s').1 = Ok bytes
}.

(** Structures without maps can be converted to JSON, and the readers of the
    database accept what the profile accepts. *)
Class LawfulHostFormat : Prop := {
  resource_has_value : ∀ r, ∃ v, resource_to_value r = Ok v;
  history_has_value : ∀ h, ∃ v, history_to_value h = Ok v;
  mapping_has_value : ∀ m, ∃ v, mapping_to_value m = Ok v;
  policy_has_value : ∀ p, ∃ v, policy_to_value p = Ok v;
  float_parses : ∀ text, valid_float text = true → ∃ f, float_parse text = Ok f;
  timestamp_parses : ∀ text, rfc3339_parses text = true → ∃ t, rfc3339_naive text = Ok t
}.
Context `{Dal_ok : !LawfulOpendal} `{Fmt_ok : !LawfulHostFormat}.

Lemma store_get_again path bytes s s' :
  store_get path s = (Ok bytes, s') → ∃ s'', store_get path s' = (Ok bytes, s'').
Proof.
  unfold store_get, validated, backend. destruct (String.eqb path ""); [done|].
  destruct (op_read path s) as [[b|] s1] eqn:H; [|done]. intros [= -> ->]. apply read_object in H.
  destruct (op_read path s') as [r s'']. simpl in H. subst r. by exists s''.
Qed.

Lemma store_put_get path bytes s s' :
  store_put path bytes s = (Ok tt, s') → ∃ s'', store_get path s' = (Ok bytes, s'').
Proof.
  unfold store_put, store_get, validated, backend. destruct (String.eqb path ""); [done|].
  destruct (op_write path bytes s) as [[[]|] s1] eqn:H; [|done]. intros [= ->]. apply written_object in H.
  destruct (op_read path s') as [r s'']. simpl in H. subst r. by exists s''.
Qed.

Lemma commit_of_total request p : ∃ commit, commit_of config operator request p = Ok commit.
Proof.
  unfold commit_of. destruct (resource_has_value (vb_source_resource (pr_validated p))) as [? ->].
  destruct (resource_has_value (station_resource (pr_station p))) as [? ->].
  destruct (history_has_value (provenance (vb_bundle (pr_validated p)))) as [? ->].
  destruct (mapping_has_value (ip_column_mapping (pr_plan p))) as [? ->].
  destruct (policy_has_value station_policy) as [? ->]. by eexists.
Qed.

Lemma fitting_row_is_a_reading commit session row :
  fits readings_schema row → ∀ i, ∃ reading, reading_of_row commit session i row = Ok reading.
Proof.
  intros [_ Hf] i. simpl in Hf.
  inversion Hf as [|f0 c0 r0 cs0 H0 Hf0]; subst. inversion Hf0 as [|f1 c1 r1 cs1 H1 Hf1]; subst.
  inversion Hf1 as [|f2 c2 r2 cs2 H2 Hf2]; subst. inversion Hf2 as [|f3 c3 r3 cs3 H3 Hf3]; subst.
  inversion Hf3; subst. simpl in *. apply andb_true_iff in H0 as [_ H0].
  destruct (timestamp_parses _ H0) as [? ->], (float_parses _ H1) as [? ->], (float_parses _ H2) as [? ->],
    (float_parses _ H3) as [? ->]. by eexists.
Qed.

Lemma find_station_in parse key station : find_station parse key = Some station → station ∈ STATIONS.
Proof.
  unfold find_station. intros H. apply list_elem_of_In. by case_match; apply find_some in H as [H _].
Qed.

(** What a dry run leaves: the artifact can be read. *)
Lemma dry_run_is_staged now authorization request w d w1 :
  import_dry_run config operator now authorization request w = (Some (Ok d), w1) →
  tables w1 = tables w ∧ log w1 = log w
  ∧ ∃ p s, prepared request p ∧ dr_plan_digest d = ip_plan_digest (pr_plan p) ∧ dr_staged_object d = pr_staged_path p
           ∧ dr_bundle_digest d = vb_bundle_digest (pr_validated p)
           ∧ dr_target_resource d = station_resource (pr_station p)
           ∧ dr_target_revision d = target_revision (ip_target (pr_plan p))
           ∧ store_get (pr_staged_path p) (objects w1) = (Ok (ir_artifact request), s).
Proof.
  intros ([Ht Hl] & _ & p & Hp & Hb & _ & Hd & Hs & _ & Hr & Hv & Hstaged)%import_dry_run_Ok. split_and!; [done..|].
  assert (∃ s, store_get (pr_staged_path p) (objects w1) = (Ok (ir_artifact request), s)) as [s Hg].
  { destruct Hstaged as [Hg|(e & s & _ & Hput)]; [by eapply store_get_again|by eapply store_put_get]. }
  exists p, s. done.
Qed.

(** An application of a prepared request with its plan and its staged object. *)
Lemma apply_prepared now session authorization request w p commit subject s value replayed t' :
  admits authorization now "import" subject → prepared request p →
  ir_plan_digest request = Some (ip_plan_digest (pr_plan p)) → ir_staged_object request = Some (pr_staged_path p) →
  store_get (pr_staged_path p) (objects w) = (Ok (ir_artifact request), s) →
  commit_of config operator request p = Ok commit →
  apply_import commit session (tables w) = (Ok (value, replayed), t') →
  import_apply config operator now session authorization request w
  = (Some (Ok {| ar_receipt := value; ar_staged_object := pr_staged_path p; ar_replayed := replayed |}),
     {| objects := s; tables := t'; log := log w |}).
Proof. intros. apply import_apply_Ok. by exists subject, p, commit, s. Qed.

(** The key of the receipt that a dry run announces. *)
Definition announced_key (d : DryRunResponse) : string :=
  dr_bundle_digest d +:+ ":" +:+ pg_uuid_text (resource_uuid (dr_target_resource d)) +:+ ":" +:+ dr_target_revision d.

(** C10: a dry run can be applied, once.  When a dry run has answered, the same
    request with the digest and the object it answered is carried out for
    whoever is let in, on a database that has the stations and no receipt of
    the import, and whose statements do not fail: every row of the artifact is
    added, and one receipt.  Applied again, it answers with that receipt and
    changes no table. *)
Theorem dry_run_can_be_applied `{Pg_ok : !LawfulPostgres (Number:=Number)}
    now authorization request w d w1 now2 session authorization2 now3 session' authorization3 :
  import_dry_run config operator now authorization request w = (Some (Ok d), w1) →
  (∃ subject, admits authorization2 now2 "import" subject) → (∃ subject, admits authorization3 now3 "import" subject) →
  keyed (tables w) → select_receipt (announced_key d) (tables w) = None →
  Forall (λ station, has_station (station_id station) (tables w) = true) STATIONS →
  import_failure config = None → undisturbed session → fresh_from 0 session (tables w) →
  Forall (λ r, rr_receipt_id r ≠ receipt_uuid session) (receipts (tables w)) → looks_up session' →
  ∃ receipt w2 w3,
    import_apply config operator now2 session authorization2 (applying request d) w1
    = (Some (Ok {| ar_receipt := receipt; ar_staged_object := dr_staged_object d; ar_replayed := false |}), w2)
    ∧ import_apply config operator now3 session' authorization3 (applying request d) w2
      = (Some (Ok {| ar_receipt := jsonb receipt; ar_staged_object := dr_staged_object d; ar_replayed := true |}), w3)
    ∧ tables w3 = tables w2 ∧ log w3 = log w
    ∧ N.of_nat (length (readings (tables w2))) = (N.of_nat (length (readings (tables w))) + dr_row_count d)%N
    ∧ length (receipts (tables w2)) = S (length (receipts (tables w))).
Proof.
  intros Hdry [subject2 Ha2] [subject3 Ha3] Hk Hnone Hstations Hstage Hu Hfresh Hid Hlook.
  pose proof (import_dry_run_Ok _ _ _ _ _ _ Hdry) as (_ & _ & p' & Hp' & _ & _ & _ & _ & Hcount & _).
  apply dry_run_is_staged in Hdry as (Ht & Hl & p & s & Hp & Hd & Hs & Hb & Hr & Hv & Hg).
  rewrite (prepared_unique _ _ _ Hp' Hp) in Hcount. clear p' Hp'.
  destruct (commit_of_total (applying request d) p) as [commit Hc].
  destruct (commit_of_prepared _ _ _ Hc) as (Hrows & Hbd & Hst & Hfs & Hrev).
  assert (import_key commit = announced_key d) as Hkey.
  { unfold import_key, announced_key. by rewrite Hbd, Hst, Hrev, Hb, Hr, Hv. }
  assert (Forall (λ row, ∀ i, ∃ reading, reading_of_row commit session i row = Ok reading) (ic_rows commit)) as Hreadings.
  { rewrite Hrows. pose proof (pp_rows _ _ Hp) as [Hf _]%accepted_table_fits. eapply Forall_impl; [exact Hf|].
    intros row. apply fitting_row_is_a_reading. }
  assert (has_station (ic_station_id commit) (tables w) = true) as Hhas.
  { rewrite Hst. rewrite Forall_forall in Hstations. eapply Hstations, find_station_in, (pp_station _ _ Hp). }
  destruct (apply_import_total commit session (tables w) Hu (eq_trans Hfs Hstage) Hhas Hreadings) as [t2 Happly];
    [by rewrite Hkey|done|].
  pose proof (apply_import_cases commit session (tables w)) as Hcases. rewrite Happly in Hcases. destruct Hcases as [Him _].
  destruct (apply_import_exact _ _ _ _ _ Hfresh Happly) as [Hrd Hlen].
  destruct (store_get_again _ _ _ _ Hg) as [s' Hg'].
  eexists _, _, _. split_and!.
  - rewrite Hs. eapply (apply_prepared now2 session authorization2 (applying request d) w1);
      [exact Ha2|by apply prepared_applying|by rewrite <- Hd|by rewrite <- Hs|exact Hg|exact Hc|by rewrite Ht].
  - rewrite Hs. eapply (apply_prepared now3 session' authorization3 (applying request d));
      [exact Ha3|by apply prepared_applying|by rewrite <- Hd|by rewrite <- Hs|exact Hg'|exact Hc|].
    apply receipt_replays; [by eapply imported_keyed| |done]. cbn. rewrite (im_receipts _ _ _ _ Him). set_solver.
  - done.
  - done.
  - cbn. rewrite Hrd, length_app, Hlen, Hrows, Hcount. unfold vec_len. lia.
  - cbn. rewrite (im_receipts _ _ _ _ Him), length_app. simpl. lia.
Qed.
End Facts.

(** ** Strangers, erasure and queries *)

Section Handlers.
Context `{Serde : !SerdeJson}.
#[local] Abbreviation Number := JsonNumber.
Context {Store : Type} `{Dal : !Opendal Store} `{Pg : !Postgres Number} `{JMap : !JsonMap Number} `{V5 : !UuidV5} `{Hash : !Blake3}
  `{Lex : !Lexicon} `{Fmt : !BundleFormat Number} `{IFmt : !ImportFormat Number} `{HFmt : !HostFormat Number}
  `{Pas : !Paseto Number} `{Platform : !HostPlatform} `{Server : !PgServer} `{Uni : !Unicode} `{Parser : !SqlParser}.
Context (config : DemoConfig).
#[local] Abbreviation World := (HostWorld (Store:=Store)).
#[local] Abbreviation M := (Host.M (Store:=Store)).
Implicit Types (w : World).
#[local] Opaque authenticated_subject.

(** A handler that asks for a role. *)
Definition guarded {A} (now : Z) (authorization : option string) (role : string) (handler : M A) : Prop :=
  ∃ k, handler = bind_host (authenticated_subject config authorization now role) k.

Lemma guarded_refuses {A} now authorization role (handler : M A) w :
  guarded now authorization role handler →
  (∀ raw header, header_to_str raw = Some header → ascii_text header = true) →
  (¬ ∃ subject, admits config authorization now role subject) →
  ∃ e, handler w = (Some (Err e), w) ∧ api_status e ∈ [401; 403]%N.
Proof.
  intros [k ->] Hascii Hno. destruct (authenticated_subject_refuses config _ now role w Hascii Hno) as (e & He & Hs).
  exists e. unfold bind_host. by rewrite He.
Qed.

(** What a caller can ask for that changes something, or tells more than what is
    published. *)
Inductive ProtectedCall :=
| CallExport (now_v7 : Uuid) (now_ms : Z) (id : string)
| CallDryRun (request : ImportRequest)
| CallApply (session : Session) (request : ImportRequest)
| CallAccessExport (now_v7 : Uuid) (now_ms : Z) (id : string)
| CallErase (now_v7 : Uuid) (now_ms : Z) (id reason : string)
| CallMint (id : string).

Definition required_role (call : ProtectedCall) : string :=
  match call with CallDryRun _ | CallApply _ _ => "import" | _ => "operator" end.

(** The error of the call, if any, and the world after it; [None] for a panic. *)
Definition error_of {A} (x : option (result A ApiError) * World) : option (option ApiError) * World :=
  (match x.1 with Some (Ok _) => Some None | Some (Err e) => Some (Some e) | None => None end, x.2).

Definition protected_call (ownership : Ownership) (operator : Uuid) (now : Z) (authorization : option string)
    (call : ProtectedCall) w : option (option ApiError) * World :=
  match call with
  | CallExport now_v7 now_ms id => error_of (export_handler config now_v7 now_ms now authorization id w)
  | CallDryRun request => error_of (import_dry_run config operator now authorization request w)
  | CallApply session request => error_of (import_apply config operator now session authorization request w)
  | CallAccessExport now_v7 now_ms id => error_of (access_export_handler config now_v7 now_ms now authorization id w)
  | CallErase now_v7 now_ms id reason => error_of (erase_handler config ownership now_v7 now_ms now authorization id reason w)
  | CallMint id => error_of (mint_doi_handler config now authorization id w)
  end.

(** Strangers are refused.  Without a bearer token of an active, verified
    user with the role that is asked for, whatever the call says, the answer is
    401 or 403, nothing is read or written, and nothing panics. *)
Theorem strangers_are_refused ownership operator now authorization call w :
  (∀ raw header, header_to_str raw = Some header → ascii_text header = true) →
  (¬ ∃ subject, admits config authorization now (required_role call) subject) →
  ∃ e, protected_call ownership operator now authorization call w = (Some (Some e), w) ∧ api_status e ∈ [401; 403]%N.
Proof.
  intros Hascii Hno. unfold protected_call, error_of.
  destruct call as [v7 ms id|request|session request|v7 ms id|v7 ms id reason|id]; simpl in Hno;
    match goal with |- context [(?h w).1] =>
      destruct (guarded_refuses _ _ _ h w (ex_intro _ _ eq_refl) Hascii Hno) as (e & -> & He)
    end; by exists e.
Qed.

(** *** Erasure *)

Implicit Types (station : StationSpec).

Definition own (operator : Uuid) (o : Ownership) (stations : list StationSpec) : Ownership :=
  List.fold_left (λ o station, set_owner (station_resource station) operator o) stations o.

Lemma own_frame operator stations : ∀ o,
  accounts (own operator o stations) = accounts o ∧ groups (own operator o stations) = groups o
  ∧ agreements (own operator o stations) = agreements o.
Proof. induction stations as [|x stations IH]; intros o; simpl; [done|]. by destruct (IH (set_owner (station_resource x) operator o)). Qed.

Lemma own_owner operator stations resource : ∀ o,
  resource ∈ List.map station_resource stations ∨ resource_owner o !! resource = Some operator →
  resource_owner (own operator o stations) !! resource = Some operator.
Proof.
  induction stations as [|x stations IH]; intros o H; simpl in *; [by destruct H as [?%elem_of_nil|]|].
  apply IH. simpl. destruct (decide (station_resource x = resource)) as [->|Hne]; [right; by rewrite lookup_insert_eq|].
  rewrite lookup_insert_ne by done. rewrite elem_of_cons in H. naive_solver.
Qed.

#[local] Opaque own.

(** Of the registry the host starts with, the operator has the stations. *)
Lemma seeded_access subject station :
  station ∈ STATIONS →
  (evaluate_access subject (station_resource station) (Restricted []) (seed_ownership).1).1 = Allow
  ↔ subject_id subject = (seed_ownership).2.
Proof.
  intros Hin. unfold seed_ownership. set (operator := demo_account_id "operator"). cbv zeta. cbn [fst snd].
  set (o := add_account _ _). change (List.fold_left _ STATIONS o) with (own operator o STATIONS). destruct (own_frame operator STATIONS o) as (Ha & Hg & Hagree).
  pose proof (own_owner operator STATIONS (station_resource station) o (or_introl (list_elem_of_fmap_2 station_resource _ _ Hin))) as Ho.
  unfold evaluate_access, snapshot_for, sbind, sret. simpl. unfold tenancy_owner. rewrite Ho. simpl. rewrite Ha.
  unfold o at 1. simpl. rewrite lookup_insert_eq. simpl.
  case_bool_decide as Hid; simpl; [by split; [|done]|].
  unfold tenancy_groups_for. rewrite Hg. simpl. rewrite map_to_list_empty. simpl. unfold tenancy_has_agreement. rewrite Hagree.
  rewrite bool_decide_false by set_solver. simpl. split; [done|congruence].
Qed.

(** C37: only the operator erases.  On the registry the host starts with, an
    erasure is answered exactly when the caller is let in as an operator, is the
    account that owns the stations, names one of them, and the log can be
    written; and then it has added one entry, in the name of the caller, that
    says so: no table and no object has changed, and no entry is gone. *)
Theorem only_the_operator_erases now_v7 now_ms now authorization id reason w d w' :
  erase_handler config (seed_ownership).1 now_v7 now_ms now authorization id reason w = (Some (Ok d), w')
  ↔ ∃ subject station,
      admits config authorization now "operator" subject ∧ subject_id subject = (seed_ownership).2
      ∧ find_station (λ key, match pg_uuid_parse key with Ok u => Some u | Err _ => None end) id = Some station
      ∧ poisoned (log w) = false
      ∧ d = {| deleted_resource := station_resource station; deletion_reason := reason; deleted_at_unix_ms := now_ms |}
      ∧ objects w' = objects w ∧ tables w' = tables w ∧ poisoned (log w') = false
      ∧ log_entries (log w') = log_entries (log w)
          ++ [activity_entry now_v7 (station_resource station) (Some subject) (ADeleted reason) now_ms].
Proof.
  unfold erase_handler, lookup_station. rewrite bind_host_Ok. setoid_rewrite bind_host_Ok. split.
  - intros (subject & w1 & [-> Ha]%authenticated_subject_Ok & station & w2 & Hs & H).
    destruct (find_station _ id) as [station'|] eqn:Hf; [|done]. injection Hs as -> <-.
    pose proof (find_station_in _ _ _ Hf) as Hin. pose proof (seeded_access subject station Hin) as Hacc.
    destruct (evaluate_access _ _ _ _).1 as [|why]; [|done]. apply proj1 in Hacc. specialize (Hacc eq_refl).
    exists subject, station. revert H. unfold lift, on_log, soft_delete, try, record, append, vec_store, vec_append, vec_lock, sbind, sret.
    destruct (poisoned (log w)) eqn:Hp; [done|]. simpl. intros [= <- <-]. simpl. split_and!; done.
  - intros (subject & station & Ha & Hid & Hf & Hp & -> & Ho & Ht & Hp' & Hlog).
    exists subject, w. split; [by apply authenticated_subject_Ok|]. exists station, w. rewrite Hf. split; [done|].
    pose proof (find_station_in _ _ _ Hf) as Hin. apply (seeded_access subject station Hin) in Hid. rewrite Hid.
    unfold lift, on_log, soft_delete, try, record, append, vec_store, vec_append, vec_lock, sbind, sret. rewrite Hp. simpl.
    destruct w' as [ob tb [es po]]; simpl in *. by subst.
Qed.

(** *** Queries *)

(** A field of the request that, if given, has to be what the host has. *)
Definition ask (given : option string) (expected : string) (e : string → ApiError) : M unit :=
  match given with
  | Some x => if negb (String.eqb x expected) then refuse (e x) else answer tt
  | None => answer tt
  end.

Lemma ask_cases given expected e w :
  (default expected given = expected ∧ ask given expected e w = (Some (Ok tt), w))
  ∨ ∃ x, ask given expected e w = (Some (Err (e x)), w).
Proof.
  unfold ask. destruct given as [x|]; [|by left]. destruct (String.eqb_spec x expected) as [->|]; [by left|right; by exists x].
Qed.

(** Query answers are bounded.  A query changes nothing; what is answered is
    the compiled text's answer, of at most 1000 rows and 4 MiB, the first rows
    the server has, and marked as truncated when it has more; and the catalogue
    and the backend are those that the caller asked for. *)
Theorem query_answers_are_bounded `{Reads : !LawfulPgServer} catalog version request w :
  match query_handler catalog version request w with
  | (Some (Ok r), w') =>
      w' = w
      ∧ default "sql" (rq_dialect request) = "sql"
      ∧ default SNAPSHOT_ID (rq_expected_catalog_snapshot_id request) = SNAPSHOT_ID
      ∧ default "postgres" (rq_requested_backend request) = "postgres"
      ∧ (vec_len (qr_rows r) ≤ 1000)%N
      ∧ (∃ encoded, rows_to_vec_len (qr_rows r) = Ok encoded ∧ (encoded ≤ 4194304)%N)
      ∧ ∃ bound sql types params all,
          compile_query catalog version request = Ok (bound, ASql sql)
          ∧ qr_backend r = sql ∧ qr_result_schema r = bound_result_schema bound
          ∧ pg_prepare (bounded_sql (sql_text sql) MAX_QUERY_ROWS) = Ok types
          ∧ rcollect parameter_to_postgres (bound_parameters bound) = Ok params
          ∧ pg_query (bounded_sql (sql_text sql) MAX_QUERY_ROWS) params (tables w) = (Ok all, tables w)
          ∧ qr_rows r = take 1000 (List.map (row_to_json types) all)
          ∧ (qr_truncated r = true ↔ (1000 < vec_len all)%N)
  | (_, w') => w' = w
  end.
Proof.
  unfold query_handler. destruct (String.eqb_spec (default "sql" (rq_dialect request)) "sql") as [Hd|]; [|done]. simpl.
  unfold bind_host.
  destruct (ask_cases (rq_expected_catalog_snapshot_id request) SNAPSHOT_ID (λ expected,
     Conflict ("catalog snapshot mismatch: expected '" +:+ expected +:+ "', current '" +:+ SNAPSHOT_ID +:+ "'")) w)
    as [[Hs Hx]|[x Hx]]; unfold ask in Hx; rewrite Hx; [|done].
  destruct (ask_cases (rq_requested_backend request) "postgres" (λ requested,
     BadRequest ("requested backend '" +:+ requested +:+ "' is unavailable; this host supports 'postgres'")) w)
    as [[Hb Hy]|[y Hy]]; unfold ask in Hy; rewrite Hy; [|done].
  destruct (compile_query _ _ _) as [[bound [sql|]]|e]; [|done|done]. simpl.
  pose proof (execute_query_reads (sql_text sql) (bound_parameters bound) MAX_QUERY_ROWS MAX_QUERY_BYTES (tables w)) as Hreads.
  rewrite lift_read by done.
  destruct (execute_query _ _ _ _ (tables w)) as [[[[cols rows] tr]|e] t] eqn:Hq; [|done]. simpl in Hreads. subst t.
  apply execute_query_bounded in Hq as (Hlen & Hbytes & types & params & all & Hp & Hparams & Hall & _ & Hrows & Htr).
  simpl. split_and!; [done..|].
  exists bound, sql, types, params, all. done.
Qed.

(** *** Exports *)

(** A station with more readings than the profile's limit of rows cannot be
    exported: the handler panics. *)
Lemma readings_sql_selects station : ∃ rest, readings_sql station = "SELECT " +:+ rest.
Proof. by eexists. Qed.

Lemma export_of_a_long_table_panics now_v7 now_ms now authorization id w subject station cols rows :
  admits config authorization now "operator" subject →
  find_station (λ key, match pg_uuid_parse key with Ok u => Some u | Err _ => None end) id = Some station →
  execute (readings_sql station) (tables w) = (Ok (cols, rows), tables w) → (max_rows ImportLimits_default < vec_len rows)%N →
  export_handler config now_v7 now_ms now authorization id w = (None, w).
Proof.
  intros Ha Hf Hx Hlong. unfold export_handler, lookup_station, bind_host.
  pose proof (proj2 (authenticated_subject_Ok config authorization now "operator" w subject w)) as ->; [|done].
  rewrite Hf. unfold answer, sret. cbv beta iota. rewrite lift_read by (by rewrite Hx). rewrite Hx. cbn [fst]. cbv beta iota. unfold readings_csv, write_tabular_csv. cbn [snd].
  change (validate_schema readings_schema (max_columns ImportLimits_default)) with (Ok (E:=ImportError) tt). cbn [rbind].
  replace (max_rows ImportLimits_default <? vec_len rows)%N with true by (symmetry; by apply N.ltb_lt). done.
Qed.

Lemma build_reads_only request (l : VecProvenanceStore (Json Number)) : (build_import_bundle request l).2 = l.
Proof.
  unfold build_import_bundle, build_bundle_version, sbind, history, vec_store, vec_history, vec_lock.
  by destruct (poisoned l).
Qed.

Lemma vec_append_Ok (entry : ProvenanceEntry (Json Number)) l l' :
  vec_append entry l = (Ok tt, l') → log_entries l' = log_entries l ++ [entry].
Proof. unfold vec_append, vec_lock. destruct (poisoned l); [done|]. by intros [= <-]. Qed.

(** What is served was exported.  After an export that was answered, the
    bundle of the station is served to everybody, byte for byte as it was sealed,
    under the digest that was answered; and the last entry of the log, in the
    name of the caller, has that digest and the path. *)
Theorem exported_bundle_is_served `{Dal_ok : !LawfulOpendal (Store:=Store)} `{Reads : !LawfulPgServer} now_v7 now_ms now authorization id w er w' :
  export_handler config now_v7 now_ms now authorization id w = (Some (Ok er), w') →
  ∃ subject station s,
    admits config authorization now "operator" subject
    ∧ find_station (λ key, match pg_uuid_parse key with Ok u => Some u | Err _ => None end) id = Some station
    ∧ bundle_handler id w' = (Some (Ok (import_canonical_json (er_sealed er))), {| objects := s; tables := tables w'; log := log w' |})
    ∧ import_content_hash (er_sealed er) = typed_digest (import_canonical_json (er_sealed er))
    ∧ tables w' = tables w
    ∧ log_entries (log w') = log_entries (log w)
        ++ [{| pe_id := now_v7; pe_resource := station_resource station; pe_actor := Some subject;
               pe_activity := Core (ABackupAnchor (er_bundle_path er) (import_content_hash (er_sealed er)));
               pe_description := Some "portable export bundle written to object store";
               occurred_at_unix_ms := now_ms |}].
Proof.
  unfold export_handler, bundle_handler, lookup_station. rewrite bind_host_Ok. setoid_rewrite bind_host_Ok.
  setoid_rewrite bind_host_Ok. setoid_rewrite bind_host_Ok. setoid_rewrite bind_host_Ok.
  intros (subject & w1 & [-> Ha]%authenticated_subject_Ok & station & w2 & Hs & executed & w3 & Hx & csv & w4 & Hcsv
    & exported & w5 & Hex & H).
  destruct (find_station _ id) as [station'|] eqn:Hf; [|done]. injection Hs as -> <-.
  rewrite lift_read in Hx by (destruct (readings_sql_selects station) as [rest ->]; apply execute_reads).
  injection Hx as _ <-.
  assert (w4 = w) as -> by (destruct (readings_csv _); [by injection Hcsv as _ ->|done]). injection H as <- <-. simpl.
  exists subject, station. unfold lift, export_station, on_objects, on_log in Hex.
  destruct (store_put (export_csv_path station) csv (objects w)) as [[[]|] s1] eqn:Hput1; [|done]. simpl in Hex.
  destruct (build_import_bundle _ (log w)) as [[sealed|] l1] eqn:Hb; [|done]. simpl in Hex.
  destruct (store_put (bundle_path station) _ s1) as [[[]|] s2] eqn:Hput2; [|done]. simpl in Hex.
  destruct (vec_append _ l1) as [[[]|] l2] eqn:Happ; [|done]. simpl in Hex. injection Hex as <- <-. simpl.
  pose proof (build_reads_only (MkBundleRequest (station_resource station) now_ms (station_metadata_jsonld station)
    (station_citation station (public_base_url config) None) station_policy
    [MkArtifactManifest "table_export" (export_csv_path station) "csv" (tabular_schema_fingerprint readings_schema)
       ("blake3-256:" +:+ content_hash_hex csv) (vec_len executed.2) (Some (string_len csv)) (schema_to_value readings_schema)])
    (log w)) as Hl1. rewrite Hb in Hl1. simpl in Hl1. subst l1.
  apply vec_append_Ok in Happ. destruct (store_put_get _ _ _ _ Hput2) as [s Hg]. exists s.
  split_and!; [done|done| |..].
  - eexists station, _. split; [done|]. unfold lift, on_objects. simpl. by rewrite Hg.
  - eapply (f_equal fst) in Hb. apply sealed_import_bundle in Hb as (h & v & _ & _ & -> & ->). done.
  - done.
  - done.
Qed.
End Handlers.

(** ** The start *)

Section Starting.
Context `{Serde : !SerdeJson}.
#[local] Abbreviation Number := JsonNumber.
Context {Store : Type} `{Services : !OpendalServices Store} `{Pg : !Postgres Number} `{JMap : !JsonMap Number} `{V5 : !UuidV5}
  `{Platform : !HostPlatform}.
Implicit Types (t : Tables Number) (l : VecProvenanceStore (Json Number)).

(** What the wait has seen before its [n]-th ping: failures, all before the
    deadline. *)
Definition waited (pings : nat → result unit DbError) (clock : nat → Z) (deadline : Z) (n : nat) : Prop :=
  ∀ j, (j < n)%nat → (∃ error, pings j = Err error) ∧ (clock j < deadline)%Z.

Lemma wait_loop_ends pings clock deadline last : (deadline ≤ clock last)%Z →
  ∀ fuel i, waited pings clock deadline i → (i ≤ last)%nat → (last < i + fuel)%nat →
  match ping_until pings clock deadline fuel i with
  | Running _ => ∃ n, (n ≤ last)%nat ∧ waited pings clock deadline n ∧ pings n = Ok tt
  | StartFailed e => ∃ n error, (n ≤ last)%nat ∧ waited pings clock deadline n ∧ pings n = Err error
                       ∧ (deadline ≤ clock n)%Z ∧ e = StartDb error
  | StartPanicked | StartWaits => False
  end.
Proof.
  intros Hlast fuel. induction fuel as [|fuel IH]; intros i Hw Hi Hf; [lia|]. simpl.
  destruct (pings i) as [[]|error] eqn:Hp; [by exists i|].
  destruct (Z.ltb_spec (clock i) deadline) as [Hc|Hc]; [|by exists i, error].
  assert (i ≠ last) by (intros ->; lia).
  apply IH; [|lia|lia]. intros j Hj. destruct (decide (j = i)) as [->|]; [by eauto|]. apply Hw. lia.
Qed.

(** The wait for the database ends: with a clock that advances by the second
    that is slept, it pings at most once a second; it succeeds at the first ping
    that succeeds, and fails with the error of the first ping past the deadline.
    It panics where the deadline is not an instant. *)
Theorem database_wait_ends pings clock limit now wait_secs fuel :
  (∀ i, now + 1000000000 * Z.of_nat i ≤ clock i)%Z → (N.to_nat wait_secs < fuel)%nat →
  let deadline := (now + 1000000000 * Z.of_N wait_secs)%Z in
  match wait_for_database pings clock limit now wait_secs fuel with
  | Running _ => ∃ n, (n ≤ N.to_nat wait_secs)%nat ∧ waited pings clock deadline n ∧ pings n = Ok tt
  | StartFailed e => ∃ n error, (n ≤ N.to_nat wait_secs)%nat ∧ waited pings clock deadline n ∧ pings n = Err error
                       ∧ (deadline ≤ clock n)%Z ∧ e = StartDb error
  | StartPanicked => (limit < deadline)%Z
  | StartWaits => False
  end.
Proof.
  intros Hclock Hfuel deadline. unfold wait_for_database, instant_add. fold deadline.
  destruct (Z.leb_spec deadline limit); [|done].
  assert (Hlast : (deadline ≤ clock (N.to_nat wait_secs))%Z) by (specialize (Hclock (N.to_nat wait_secs)); lia).
  assert (Hw : waited pings clock deadline 0) by (intros j Hj; lia).
  pose proof (wait_loop_ends pings clock deadline _ Hlast fuel 0 Hw ltac:(lia) ltac:(lia)) as H0.
  by destruct (ping_until _ _ _ _ _).
Qed.

(** *** Provenance *)

Definition has_history l (station : StationSpec) : Prop :=
  ∃ entry, entry ∈ log_entries l ∧ pe_resource entry = station_resource station.

(** Whatever the log, after seeding it has its entries, and some of every
    station. *)
Lemma seed_stations_settles stations : ∀ l l',
  seed_stations stations l = (Ok tt, l') →
  (∃ new, log_entries l' = log_entries l ++ new) ∧ Forall (has_history l') stations.
Proof.
  induction stations as [|station stations IH]; intros l l'.
  { intros [= <-]. split; [exists []; by rewrite app_nil_r|constructor]. }
  assert (Hkeep : ∀ l1, has_history l1 station → (∃ new, log_entries l' = log_entries l1 ++ new) → has_history l' station).
  { intros l1 (e & He & Hr) [new Hn]. exists e. rewrite Hn, elem_of_app. by split; [left|]. }
  cbn [seed_stations]. unfold try, sbind. cbn [history append vec_store]. unfold vec_history, vec_append, vec_lock.
  destruct (poisoned l) eqn:Hp; [done|]. cbn [ph_entries]. set (found := sort_by_key _ _).
  destruct (is_empty found) eqn:Hf; cbn [negb].
  - rewrite Hp. cbn [poisoned log_entries]. set (l2 := {| log_entries := _; poisoned := _ |}).
    intros H. apply IH in H as [[new Hn] Hs]. split.
    + exists (List.skipn (length (log_entries l)) (log_entries l2) ++ new). rewrite Hn, app_assoc. f_equal.
      subst l2. cbn [log_entries]. by rewrite <-app_assoc, drop_app_length.
    + constructor; [|done]. apply (Hkeep l2); [|by exists new]. eexists. subst l2. cbn [log_entries].
      rewrite elem_of_app. split; [right; by apply list_elem_of_singleton|done].
  - intros H. apply IH in H as [Hn Hs]. split; [done|]. constructor; [|done]. apply (Hkeep l); [|done].
    pose proof (sorted_selection_is_history (log_entries l) (station_resource station) HistoryFilter_default) as Hh.
    destruct found as [|e es] eqn:Hfound; [done|]. subst found.
    exists e. apply (is_history_elem _ _ _ _ e) in Hh. cbn [ph_entries] in Hh.
    rewrite Hfound in Hh. destruct Hh as [[Hin [Hr _]] _]; [by apply elem_of_cons; left|]. done.
Qed.
(** *** Tables *)

#[local] Existing Instance grows_pre_order.

Definition has_reading t (reading : Reading Number) : bool :=
  existsb (λ r, (reading_uuid r =? reading_uuid reading)%N) (readings t).

Lemma schema_settles :
  settles (λ _ : unit, seed_schema) (λ _ t, Forall (λ station, has_station (station_id station) t = true) STATIONS) grows.
Proof.
  destruct (try_each_settles _ _ _ grows_pre_order
    (settles_map (λ station, (station_id station, code station)) _ _ _ insert_station_settles)) as [Hd Hk Ha].
  constructor; intros []; [apply Hd|apply Hk|apply Ha].
Qed.

Lemma seed_settles t t' :
  seed t = (Ok tt, t') →
  grows t t' ∧ Forall (λ station, has_station (station_id station) t' = true) STATIONS
  ∧ Forall (λ station, Forall (λ reading, has_reading t' reading = true) (readings_for station)) STATIONS.
Proof.
  unfold seed. destruct (seed_schema t) as [[[]|] t1] eqn:H1; [|done]. intros H2.
  destruct schema_settles as [Hd1 Hk1 _]. apply (Hd1 tt) in H1 as [Hs Hg].
  destruct (try_each_settles _ _ _ grows_pre_order
    (settles_map readings_for _ _ _ (try_each_settles _ _ _ grows_pre_order insert_reading_settles))) as [Hd2 _ _].
  apply Hd2 in H2 as [Hr Hg']. split_and!; [by transitivity t1| |done].
  by apply (Hk1 tt t1).
Qed.

Lemma seeding_settles (all : bool) t t' :
  (if all then seed else seed_schema) t = (Ok tt, t') →
  grows t t' ∧ Forall (λ station, has_station (station_id station) t' = true) STATIONS
  ∧ (all = true → Forall (λ station, Forall (λ reading, has_reading t' reading = true) (readings_for station)) STATIONS)
  ∧ (if all then seed else seed_schema) t' = (Ok tt, t').
Proof.
  destruct all; intros H.
  - destruct (seed_settles _ _ H) as (? & ? & ?). split_and!; [done..|]. by eapply seed_is_idempotent.
  - destruct schema_settles as [Hd _ Ha]. destruct (Hd tt _ _ H) as [Hs ?]. split_and!; [done..|]. exact (Ha tt _ Hs).
Qed.

(** A host that starts is ready.  It has read its configuration and reached
    the database; its tables keep every row that was there, and have the
    stations, and the demonstration readings when it is told to seed them; then
    every station has a provenance, and otherwise the log is empty; its catalog
    and the owner of its stations are the fixed ones; and started again on these
    tables it comes to the same and adds nothing. *)
Theorem started_host_is_ready environment read_file pings clock limit now fuel listen t s t' :
  host_start environment read_file pings clock limit now fuel listen t = (Running s, t') →
  from_env environment read_file = Ok (as_config s)
  ∧ (∃ n, pings n = Ok tt)
  ∧ tables (as_world s) = t' ∧ grows t t'
  ∧ Forall (λ station, has_station (station_id station) t' = true) STATIONS
  ∧ (if seed_demo_data (as_config s)
     then Forall (λ station, Forall (λ reading, has_reading t' reading = true) (readings_for station)) STATIONS
          ∧ Forall (has_history (log (as_world s))) STATIONS
     else log_entries (log (as_world s)) = [])
  ∧ as_catalog s = build_catalog ∧ (as_ownership s, as_operator s) = seed_ownership
  ∧ host_start environment read_file pings clock limit now fuel listen t' = (Running s, t').
Proof.
  unfold host_start. destruct (from_env environment read_file) as [config|]; [|done]. cbn [try_start bind_start].
  destruct (wait_for_database _ _ _ _ _ _) as [[]| | |] eqn:Hwait; try done. cbn [bind_start].
  destruct ((if seed_demo_data config then seed else seed_schema) t) as [[[]|] t1] eqn:Hseed; [|done].
  intros [= Hasm ->]. apply seeding_settles in Hseed as (Hg & Hs & Hr & Hagain). rewrite Hagain.
  assert (Hping : ∃ n, pings n = Ok tt).
  { unfold wait_for_database in Hwait. destruct (instant_add _ _ _); [|done].
    revert Hwait. generalize 0%nat. induction fuel as [|fuel IH]; intros i; simpl; [done|].
    destruct (pings i) as [[]|] eqn:Hp; [by exists i|]. destruct (_ <? _)%Z; [apply IH|done]. }
  assert (Hlog : config = as_config s ∧ tables (as_world s) = t'
    ∧ (if seed_demo_data config then Forall (has_history (log (as_world s))) STATIONS
       else log_entries (log (as_world s)) = [])
    ∧ as_catalog s = build_catalog ∧ (as_ownership s, as_operator s) = seed_ownership).
  { revert Hasm. unfold assemble. destruct (init_store _ _) as [store| | |]; try done. cbn [bind_start].
    set (seeded := if seed_demo_data config then _ else _).
    destruct seeded as [r l1] eqn:Hl. destruct r as [[]|]; [|done]. cbn [try_start bind_start].
    destruct seed_ownership as [o op]. destruct listen; [done|]. intros [= <-]. simpl. split_and!; try done.
    subst seeded. destruct (seed_demo_data config); [|by injection Hl as <-].
    by apply seed_stations_settles in Hl as [_ Hh]. }
  destruct Hlog as (<- & Htables & Hlog & Hcat & Hown). split_and!; try done.
  - destruct (seed_demo_data config); [split; [by apply Hr|done]|done].
  - by rewrite Hasm.
Qed.
End Starting.

(** ** The catalog *)

(** The catalog of the host resolves the names of its two relations, in any
    case; the namespace is not looked at. *)
Lemma catalog_has_two_relations namespace name relation :
  resolve_relation (memory_catalog build_catalog) namespace name = Some relation →
  to_ascii_lowercase name ∈ ["stations"; "readings"].
Proof.
  change (resolve_relation (memory_catalog build_catalog) namespace name) with (mc_resolve_relation build_catalog namespace name).
  unfold mc_resolve_relation.
  assert (Hkeys : List.map (λ kv, kv.1.2) (mc_relations build_catalog) = ["readings"; "stations"]) by reflexivity.
  assert (Hvalues : List.map (λ r, (to_ascii_lowercase (rel_name r), rel_aliases r)) (bt_values (mc_relations build_catalog))
                    = [("readings", []); ("stations", [])]) by reflexivity.
  destruct (bt_get _ _) as [r|] eqn:Hg.
  - intros _. apply bt_get_Some_elem, list_elem_of_In, (List.in_map (λ kv, kv.1.2)) in Hg. rewrite Hkeys in Hg.
    simpl in Hg. destruct Hg as [<-|[<-|[]]]; set_solver.
  - intros [Hin Hm]%List.find_some.
    apply (List.in_map (λ r, (to_ascii_lowercase (rel_name r), rel_aliases r))) in Hin. rewrite Hvalues in Hin.
    apply orb_true_iff in Hm as [Hm%eq_ignore_ascii_case_true|Hm].
    + rewrite Hm in Hin. destruct Hin as [[= <- _]|[[= <- _]|[]]]; set_solver.
    + destruct Hin as [[= _ Ha]|[[= _ Ha]|[]]]; by rewrite <-Ha in Hm.
Qed.

(** ** The routes *)

(** Whether some path matches both patterns. *)
Fixpoint compatible (p q : list Segment) : bool :=
  match p, q with
  | [], [] => true
  | x :: p, y :: q =>
      match x, y with
      | Lit a, Lit b => String.eqb a b
      | Capture, Lit b | Lit b, Capture => negb (String.eqb b "")
      | Capture, Capture => true
      end && compatible p q
  | _, _ => false
  end.

Lemma compatible_match p : ∀ q path cp cq,
  match_segments p path = Some cp → match_segments q path = Some cq → compatible p q = true.
Proof.
  induction p as [|x p IH]; intros [|y q] [|s path] cp cq Hp Hq;
    try destruct x as [a|]; try destruct y as [b|]; simpl in *; try done.
  - destruct (String.eqb_spec a s) as [<-|]; [|done]. destruct (String.eqb_spec b a) as [<-|]; [|done].
    rewrite String.eqb_refl. by eapply IH.
  - destruct (String.eqb_spec a s) as [<-|]; [|done]. destruct (String.eqb a ""); [done|].
    destruct (match_segments q path) as [cq'|] eqn:Hq'; [|done]. by eapply IH.
  - destruct (String.eqb_spec b s) as [<-|]; [|done]. destruct (String.eqb b ""); [done|].
    destruct (match_segments p path) as [cp'|] eqn:Hp'; [|done]. by eapply IH.
  - destruct (String.eqb s ""); [done|]. destruct (match_segments p path) as [cp'|] eqn:Hp'; [|done].
    destruct (match_segments q path) as [cq'|] eqn:Hq'; [|done]. by eapply IH.
Qed.

Fixpoint disjoint_from (p : list Segment) (l : list (list Segment * (Verb * Endpoint))) : bool :=
  match l with [] => true | (q, _) :: l => negb (compatible p q) && disjoint_from p l end.

Lemma disjoint_from_elem p l q target : disjoint_from p l = true → (q, target) ∈ l → compatible p q = false.
Proof.
  induction l as [|[q' t'] l IH]; simpl; [by intros _ ?%elem_of_nil|].
  intros [Hc Hd]%andb_true_iff [[= <- <-]|Hin]%elem_of_cons; [by apply negb_true_iff|by apply IH].
Qed.

Fixpoint all_disjoint (l : list (list Segment * (Verb * Endpoint))) : bool :=
  match l with [] => true | (p, _) :: l => disjoint_from p l && all_disjoint l end.

(** A path has a route exactly when it has the form of one of the patterns, and
    then the route of that one: the order of the routes does not matter. *)
Theorem routes_do_not_overlap path target captured :
  find_route path = Some (target, captured) ↔
  ∃ segments pattern, path_segments path = Some segments ∧ (pattern, target) ∈ routes
    ∧ match_segments pattern segments = Some captured.
Proof.
  unfold find_route. destruct (path_segments path) as [segments|]; [|by split; [|intros (? & ? & ? & _)]].
  assert (Hd : all_disjoint routes = true) by done. revert Hd. unfold mbind, option_bind. generalize routes as l. clear.
  induction l as [|[p t] l IH]; intros Hd.
  { split; [done|]. by intros (? & ? & _ & ?%elem_of_nil & _). }
  simpl in Hd. apply andb_true_iff in Hd as [Hp Hd]. specialize (IH Hd).
  destruct (match_segments p segments) as [c|] eqn:Hm.
  - split.
    + intros [= <- <-]. exists segments, p. split_and!; [done|by apply elem_of_cons; left|done].
    + intros (? & q & [= <-] & [[= -> ->]|Hin]%elem_of_cons & Hq); [congruence|].
      pose proof (disjoint_from_elem _ _ _ _ Hp Hin) as Hno. by rewrite (compatible_match _ _ _ _ _ Hm Hq) in Hno.
  - rewrite IH. split; intros (sg & q & Hs & Hin & Hq).
    + exists sg, q. split_and!; [done|by apply elem_of_cons; right|done].
    + exists sg, q. apply elem_of_cons in Hin as [[= -> ->]|Hin]; [|done]. injection Hs as <-. congruence.
Qed.

Section Serving.
Context `{Serde : !SerdeJson}.
#[local] Abbreviation Number := JsonNumber.
Context {Store : Type} `{Dal : !Opendal Store} `{Pg : !Postgres Number} `{JMap : !JsonMap Number} `{V5 : !UuidV5} `{Hash : !Blake3}
  `{Lex : !Lexicon} `{Fmt : !BundleFormat Number} `{IFmt : !ImportFormat Number} `{HFmt : !HostFormat Number}
  `{Pas : !Paseto Number} `{Platform : !HostPlatform} `{Server : !PgServer} `{Uni : !Unicode} `{Parser : !SqlParser}
  `{Ext : !Extractors}.
Context (config : DemoConfig) (catalog : MemoryCatalog) (ownership : Ownership) (operator : Uuid) (version : string).
#[local] Abbreviation World := (HostWorld (Store:=Store)).
#[local] Abbreviation M := (Host.M (Store:=Store)).
Implicit Types (w : World) (request : HttpRequest).

(** What is published: these routes ask for no credentials. *)
Definition published (endpoint : Endpoint) : bool :=
  match endpoint with
  | EIndex | EHealthz | ECatalog | EResources | EQuery | EBundle | EFederationStatus => true
  | _ => false
  end.

(** Refused by the router, an extractor, or the check of the credentials. *)
Definition refused (served : Served) : Prop :=
  match served with
  | Rejected _ => True
  | Handled (Ok _) => False
  | Handled (Err e) => api_status e ∈ [401; 403]%N
  end.

(** A step that answers and leaves the world as it is. *)
Definition reads (P : Served → Prop) (m : state World (option Served)) : Prop :=
  ∀ w, ∃ served, m w = (Some served, w) ∧ P served.

Lemma reads_extracted {A} (P : Served → Prop) (r : result A N) k :
  (∀ status, P (Rejected status)) → (∀ a, reads P (k a)) → reads P (extracted r k).
Proof. intros Hr Hk w. destruct r as [a|status]; [apply Hk|by exists (Rejected status)]. Qed.

Lemma reads_with_id (P : Served → Prop) captured k :
  (∀ status, P (Rejected status)) → (∀ id, reads P (k id)) → reads P (with_id captured k).
Proof.
  intros Hr Hk. destruct captured as [|segment [|? ?]]; simpl; try (by intros w; exists (Rejected 500)).
  by apply reads_extracted.
Qed.

Lemma reads_handled {A} (f : A → Answer) (m : M A) :
  (∀ w, ∃ r, m w = (Some r, w)) → reads (λ _, True) (handled f m).
Proof. intros Hm w. destruct (Hm w) as [r Hr]. unfold handled. rewrite Hr. destruct r; by eexists. Qed.

Lemma reads_query `{Reads : !LawfulPgServer} q w : ∃ r, query_handler (memory_catalog catalog) version q w = (Some r, w).
Proof.
  unfold query_handler. destruct (negb _); [by eexists|]. unfold bind_host.
  destruct (ask_cases (rq_expected_catalog_snapshot_id q) SNAPSHOT_ID (λ expected,
     Conflict ("catalog snapshot mismatch: expected '" +:+ expected +:+ "', current '" +:+ SNAPSHOT_ID +:+ "'")) w)
    as [[_ Hx]|[x Hx]]; unfold ask in Hx; rewrite Hx; [|by eexists].
  destruct (ask_cases (rq_requested_backend q) "postgres" (λ requested,
     BadRequest ("requested backend '" +:+ requested +:+ "' is unavailable; this host supports 'postgres'")) w)
    as [[_ Hy]|[y Hy]]; unfold ask in Hy; rewrite Hy; [|by eexists].
  destruct (compile_query _ _ _) as [[bound [sql|]]|e]; [|by eexists..]. cbn [snd fst pure lift sret].
  rewrite lift_read by apply execute_query_reads. destruct (execute_query _ _ _ _ _).1 as [[[cols rows] tr]|e]; by eexists.
Qed.

Lemma resources_are_listed `{HFmt_ok : !LawfulHostFormat} : ∃ v, resources_handler = Some v.
Proof.
  unfold resources_handler.
  assert (Hentry : ∀ station, ∃ entry, resource_entry station = Some entry).
  { intros station. unfold resource_entry. destruct (resource_has_value (station_resource station)) as [r ->].
    destruct (policy_has_value station_policy) as [p ->]. by eexists. }
  assert (H : ∃ entries, mapM resource_entry STATIONS = Some entries).
  { generalize STATIONS as l. induction l as [|station l [entries IH]]; [by eexists|]. simpl. rewrite IH.
    destruct (Hentry station) as [entry ->]. by eexists. }
  destruct H as [entries ->]. by eexists.
Qed.
Lemma reads_bundle id w :
  (∀ path s, (op_read path s).2 = s) → ∃ r, bundle_handler id w = (Some r, w).
Proof.
  intros Hread. unfold bundle_handler, lookup_station. destruct (find_station _ id) as [station|]; [|by eexists].
  unfold bind_host, answer, sret, lift, on_objects, store_get, validated, backend.
  destruct (String.eqb _ _); [by destruct w; eexists|]. specialize (Hread (bundle_path station) (objects w)).
  destruct (op_read _ _) as [[bytes|e] s]; simpl in *; subst; destruct w; by eexists.
Qed.

(** C36: strangers change nothing.  Without a bearer token of an active, verified
    user with the role of operator or importer, whatever the request, nothing
    panics and objects, tables and log stay as they are, although the database
    runs a text for every query that is accepted: of the texts of the host, it
    is given only selects.  A route that is not published refuses, and what has
    no route gets 404. *)
Theorem strangers_change_nothing `{HFmt_ok : !LawfulHostFormat} `{Reads : !LawfulPgServer} ambient request w :
  (∀ raw header, header_to_str raw = Some header → ascii_text header = true) →
  (∀ path s, (op_read path s).2 = s) →
  (∀ role, role ∈ ["operator"; "import"] →
     ¬ ∃ subject, admits config (hr_authorization request) (am_now ambient) role subject) →
  ∃ served,
    serve config catalog ownership operator version ambient request w = (Some served, w)
    ∧ match find_route (hr_path request) with
      | None => served = Rejected 404
      | Some ((_, endpoint), _) => published endpoint = false → refused served
      end.
Proof.
  intros Hascii Hread Hno. unfold serve. destruct (find_route (hr_path request)) as [[[verb endpoint] captured]|];
    [|by eexists].
  destruct (verb_takes _ _); [|by eexists].
  assert (Hguard : ∀ {A} role (f : A → Answer) (m : M A),
            guarded config (am_now ambient) (hr_authorization request) role m → role ∈ ["operator"; "import"] →
            reads refused (handled f m)).
  { intros A role f m Hg Hr w0. destruct (guarded_refuses config _ _ _ _ w0 Hg Hascii (Hno _ Hr)) as (e & He & Hs).
    unfold handled. rewrite He. by eexists. }
  assert (Hgoal : ∀ P : Served → Prop, (∀ s, P s → published endpoint = false → refused s) →
            reads P (serve_endpoint config catalog ownership operator version ambient endpoint captured request) →
            ∃ served, serve_endpoint config catalog ownership operator version ambient endpoint captured request w
                      = (Some served, w) ∧ (published endpoint = false → refused served)).
  { intros P HP Hr. destruct (Hr w) as (s & Hs & Ps). exists s. split; [done|]. by apply HP. }
  assert (Hpub : reads (λ _, True) (serve_endpoint config catalog ownership operator version ambient endpoint captured request)
                 → published endpoint = true → ∃ served,
            serve_endpoint config catalog ownership operator version ambient endpoint captured request w
            = (Some served, w) ∧ (published endpoint = false → refused served)).
  { intros Hr Hp. apply (Hgoal (λ _, True)); [|done]. by rewrite Hp. }
  destruct (published endpoint) eqn:Hp.
  - apply Hpub; [|done]. clear Hpub Hgoal Hguard. destruct endpoint; try done; simpl.
    + apply reads_handled. by eexists.
    + apply reads_handled. intros w0. by eexists.
    + apply reads_handled. by eexists.
    + destruct resources_are_listed as [v ->]. apply reads_handled. by eexists.
    + apply reads_extracted; [done|]. intros q. apply reads_handled. intros w0. apply reads_query.
    + apply reads_with_id; [done|]. intros id. apply reads_handled. intros w0. by apply reads_bundle.
    + apply reads_handled. by eexists.
  - apply (Hgoal refused); [done|]. clear Hpub Hgoal. destruct endpoint; try done; simpl;
      try (apply reads_with_id; [done|]; intros id); try (apply reads_extracted; [done|]; intros r);
      eapply Hguard; try (eexists; reflexivity); set_solver.
Qed.
End Serving.
