(* ===== verification/HostExamples.v ===== *)
(** Witnesses of the theorems of [HostDb] and [HostFacts]: small stand-ins for
    the crates, a token, a table of readings that is imported, a start, and some
    requests. *)
From Stdlib Require Import Ascii.
From S2P Require Import Syntax Cost Suggest Validate Render Behaviours Emission SqlDialect.
From S2P Require Import Prelude BTreeMap Types Diagnostics Bound Catalog Contract Provenance Access Tenancy Json Canonical Citation Csv Bundle Import ImportExamples Inspect Numerals Names Tokens HostDb HostConfig Doi Host HostFacts.

(** ** Stand-ins for the crates *)

#[local] Existing Instance small_json.
#[local] Existing Instance length_hash.
#[local] Existing Instance sample_map.
#[local] Existing Instance sample_format.
#[local] Existing Instance sample_lexicon.
#[local] Existing Instance coded_paseto.

#[local] Instance reading_uuids : UuidV5 := {| new_v5 namespace name := uuid_of_bytes name |}.

(** Values are their texts. *)
#[local] Instance text_postgres : Postgres Z :=
  {| PgFloat := string; PgTimestamp := string; PgInstant := string; PgDate := string;
     float_parse := λ s, if valid_float s then Ok s else Err "invalid float literal";
     number_from_f64 := λ _, None; number_from_int := id;
     pg_uuid_text := show_N;
     pg_uuid_parse := λ s, match parse_digits s 0 with Some n => Ok n | None => Err "invalid" end;
     date_parse := Ok; date_text := id;
     rfc3339_naive := λ s, if rfc3339_parses s then Ok s else Err "invalid"; rfc3339_utc := Ok;
     timestamp_text := id; instant_text := id; timestamp_of_millis := show_Z;
     pollutants := λ station hour, (pm25_base station, no2_base station, ozone_base station);
     value_from_str := λ s, Ok (JString s);
     value_eqb := λ a b, String.eqb (canonical_json_string show_Z quoted_text a) (canonical_json_string show_Z quoted_text b);
     jsonb := id; rows_to_vec_len := λ rows, Ok (vec_len rows); debug_value := λ _, "" |}.

Lemma text_postgres_lawful : LawfulPostgres (Number:=Z).
Proof. split. intros v. simpl. by rewrite String.eqb_refl. Qed.
#[local] Existing Instance text_postgres_lawful.

(** Objects under their paths. *)
#[local] Instance objects_in_a_map : Opendal (gmap string string) :=
  {| op_write path bytes s := (Ok tt, <[path := bytes]> s);
     op_read path s := (match s !! path with Some bytes => Ok bytes | None => Err "not found" end, s);
     op_delete path s := (Ok tt, delete path s);
     op_presign_write path ttl s := (Err "unsupported", s); op_presign_read path ttl s := (Err "unsupported", s);
     can_presign_write s := false; can_presign_read s := false; op_scheme s := "memory" |}.

Lemma objects_in_a_map_lawful : LawfulOpendal (Store:=gmap string string).
Proof.
  split; simpl.
  - intros path bytes s s' [= <-]. by rewrite lookup_insert_eq.
  - intros path bytes s s'. destruct (s !! path) as [b|] eqn:H; [|done]. intros [= -> <-]. by rewrite H.
Qed.
#[local] Existing Instance objects_in_a_map_lawful.

#[local] Instance text_format : HostFormat Z :=
  {| resource_to_value := λ r, Ok (JString (show_N (resource_uuid r)));
     history_to_value := λ h, Ok (JNumber (Z.of_nat (length (ph_entries h))));
     mapping_to_value := λ m, Ok (JArray (List.map (λ c, JString (tc_name c)) m));
     policy_to_value := λ p, Ok JNull; literal_number := λ s, 0%Z; uuid_simple := show_N;
     to_lowercase := to_ascii_lowercase;
     header_to_str := λ raw, if ascii_text raw then Some raw else None |}.

Lemma text_format_lawful : LawfulHostFormat.
Proof.
  split; simpl; [by eexists..| |]; intros text H; simpl in *.
  - rewrite H. by eexists.
  - rewrite H. by eexists.
Qed.
#[local] Existing Instance text_format_lawful.

#[local] Instance text_platform : HostPlatform :=
  {| SocketAddr := string; parse_addr := Some; addr_text := id; addr_ip_text := id; debug_str := quoted_text |}.

(** ** Transactions *)

Definition station_tables : Tables Z :=
  {| stations := List.map (λ station, (station_id station, code station)) STATIONS; readings := []; receipts := [] |}.

Definition quiet_session (receipt : Uuid) : Session :=
  {| connect_fault := None; begin_fault := None; select_fault := None; prepare_fault := None; row_fault := λ _, None;
     receipt_fault := None; commit_fault := None; row_uuid := λ i, (1000 * receipt + i)%N; receipt_uuid := receipt |}.

Definition baixa : StationSpec :=
  {| code := "lis-baixa"; station_name := "Baixa Monitoring Station"; city := "Lisbon"; latitude := "38.7100";
     longitude := "-9.1364"; pm25_base := "11.0"; no2_base := "24.0"; ozone_base := "58.0" |}.

Definition sample_commit : ImportCommit Z :=
  {| ic_station_id := station_id baixa; ic_rows := [["2026-01-02T03:04:05Z"; "1.5"; "2"; "3e1"]];
     ic_bundle_digest := "b"; ic_plan_digest := "p"; ic_target_revision := "r"; ic_source_resource := JNull;
     ic_target_resource := JNull; ic_local_owner := 7%N; ic_local_policy := JNull; ic_source_evidence := JNull;
     ic_mapping := JNull; ic_byte_count := 40; ic_failure_stage := None |}.

Lemma quiet_session_is_fresh receipt (t : Tables Z) : readings t = [] → fresh_from 0 (quiet_session receipt) t.
Proof. intros Ht i _. rewrite Ht. split; [apply not_elem_of_nil|]. intros j. simpl. lia. Qed.

(** Of two transactions of the same import that have found no receipt, one is
    carried out, and the other is refused by the key of the receipts. *)
Example second_import_is_refused :
  (finish_import sample_commit (quiet_session 8%N) (finish_import sample_commit (quiet_session 9%N) station_tables).2).1
  = Err (DbStatement "duplicate key value violates unique constraint on receipts").
Proof. vm_compute. reflexivity. Qed.

Lemma imports_are_exactly_once_witness :
  ∃ w', rtc import_step {| committed := station_tables; pending := [] |} w'
  ∧ length (receipts (committed w')) = 1%nat ∧ length (readings (committed w')) = 1%nat
  ∧ ∃ ds, receipts (committed w') = receipts station_tables ++ List.map (λ d, receipt_row d.1 d.2) ds
        ∧ readings (committed w') = readings station_tables ++ mjoin (List.map readings_of ds)
        ∧ Forall (λ d, length (readings_of d) = length (ic_rows d.1)) ds
        ∧ NoDup (List.map (λ d, import_key d.1) ds)
        ∧ ∀ request session session', (request, session) ∈ ds → looks_up session' →
            apply_import request session' (committed w')
            = (Ok (jsonb (receipt_value request session), true), committed w').
Proof.
  assert (rtc import_step {| committed := station_tables; pending := [] |}
    {| committed := (finish_import sample_commit (quiet_session 9%N) station_tables).2;
       pending := [(sample_commit, quiet_session 8%N)] |}) as Hrun.
  { eapply rtc_l; [apply (step_look_up _ sample_commit (quiet_session 8%N)); vm_compute; reflexivity|].
    eapply rtc_l; [apply (step_look_up _ sample_commit (quiet_session 9%N)); vm_compute; reflexivity|].
    apply rtc_once. simpl. eapply (step_finish _ [] sample_commit (quiet_session 9%N)); [reflexivity| |].
    - by apply quiet_session_is_fresh.
    - apply surjective_pairing. }
  eexists. split; [exact Hrun|]. split; [vm_compute; reflexivity|]. split; [vm_compute; reflexivity|].
  apply (imports_are_exactly_once station_tables); [|exact Hrun]. split; constructor.
Defined.

(** ** A table of readings *)

Definition readings_text : string :=
  "measured_at,pm25,no2,ozone" +:+ crlf +:+ "2026-01-02T03:04:05Z,1.5,2,3e1" +:+ crlf
  +:+ "2026-01-02T04:04:05Z,-0.5,0,12.25" +:+ crlf.

Definition readings_manifest : ArtifactManifest Z :=
  {| am_kind := "table_export"; storage_uri := "readings.csv"; am_format := "csv";
     schema_fingerprint := "blake3-256:" +:+ blake3_hex (quoted_text "schema of readings");
     content_hash := "blake3-256:" +:+ blake3_hex readings_text;
     row_count := 2; byte_count := Some (string_len readings_text); manifest_json := JString "readings" |}.

Definition readings_bundle : ExportBundle Z :=
  bundle_of {| req_resource := ResourceRef_new 1%N 2%N; req_exported_at_unix_ms := 0; req_metadata_jsonld := JNull;
               req_citation := Citation.sample; req_policy := ResourcePolicy_open; req_artifacts := [readings_manifest] |}
    IMPORT_BUNDLE_VERSION {| ph_resource := ResourceRef_new 1%N 2%N; ph_entries := [] |}.

(** One document is read, that of [readings_bundle]. *)
#[local] Instance readings_import : ImportFormat Z :=
  {| Float := unit;
     raw_document := λ text,
       if String.eqb text sample_text then
         (RawMap [(("artifacts", " at column 14"), RawI64 1); (("version", " at column 26"), RawString "2.0")] None, None)
       else (RawFailed "unexpected text", None);
     number_of_i64 := id; number_of_u64 := Z.of_N; number_of_f64 := λ _, None;
     bundle_from_value := λ v, Ok readings_bundle;
     schema_from_value := λ v, match v with JString _ => Ok readings_schema | _ => Err "no schema" end;
     schema_to_value := λ s, JString "schema of readings";
     plan_to_value := λ plan, Ok (JString (ip_bundle_digest plan +:+ target_revision (ip_target plan)));
     to_vec_len := λ v, Ok 4%N |}.

Definition host_config : DemoConfig :=
  {| listen_addr := "0.0.0.0:8080"; database_migration_url := ""; database_query_url := ""; database_import_url := "";
     auth_secret := sample_secret; db_wait_secs := 1; public_base_url := "http://host"; seed_demo_data := true;
     store_config := StoreMemory;
     federation := {| federation_enable := false; node_name := ""; hub_multiaddrs := []; federation_flight_port := 0 |};
     import_failure := None |}.

Definition importer_header : string :=
  "Bearer " +:+ coded (sample_secret,
    [("sub", show_N 7); ("email", "a@b"); ("is_verified", "true"); ("roles", coded ["import"])]).

Definition readings_request : ImportRequest :=
  {| ir_bundle := sample_text; ir_artifact := readings_text; ir_expected_bundle_digest := typed_digest sample_text;
     ir_target := "lis-baixa"; ir_target_revision := None; ir_plan_digest := None; ir_staged_object := None |}.

Definition host_world : HostWorld :=
  {| objects := ∅ : gmap string string; tables := station_tables; log := VecProvenanceStore_new (Json Z) |}.

Lemma importer_is_admitted : ∃ subject, admits host_config (Some importer_header) 1000 "import" subject.
Proof.
  eexists. exists importer_header. do 2 eexists. split_and!; [vm_compute; reflexivity..| | | |].
  all: try reflexivity. by right.
Qed.

Lemma readings_dry_run :
  match (import_dry_run host_config 7%N 1000 (Some importer_header) readings_request host_world).1 with
  | Some (Ok d) => true
  | _ => false
  end = true.
Proof. vm_compute. reflexivity. Qed.

Lemma dry_run_can_be_applied_witness :
  ∃ d w1 receipt w2 w3,
    import_dry_run host_config 7%N 1000 (Some importer_header) readings_request host_world = (Some (Ok d), w1)
    ∧ import_apply host_config 7%N 1000 (quiet_session 9%N) (Some importer_header) (applying readings_request d) w1
      = (Some (Ok {| ar_receipt := receipt; ar_staged_object := dr_staged_object d; ar_replayed := false |}), w2)
    ∧ import_apply host_config 7%N 1000 (quiet_session 8%N) (Some importer_header) (applying readings_request d) w2
      = (Some (Ok {| ar_receipt := jsonb receipt; ar_staged_object := dr_staged_object d; ar_replayed := true |}), w3)
    ∧ tables w3 = tables w2 ∧ log w3 = log host_world
    ∧ N.of_nat (length (readings (tables w2))) = (N.of_nat (length (readings (tables host_world))) + dr_row_count d)%N
    ∧ length (receipts (tables w2)) = S (length (receipts (tables host_world))).
Proof.
  pose proof readings_dry_run as Hok.
  destruct (import_dry_run host_config 7%N 1000 (Some importer_header) readings_request host_world) as [[[d|]|] w1] eqn:Hdry;
    [|done|done]. clear Hok.
  exists d, w1.
  destruct (dry_run_can_be_applied host_config 7%N 1000 (Some importer_header) readings_request host_world d w1
    1000 (quiet_session 9%N) (Some importer_header) 1000 (quiet_session 8%N) (Some importer_header) Hdry
    importer_is_admitted importer_is_admitted)
    as (receipt & w2 & w3 & H).
  - split; constructor.
  - reflexivity.
  - repeat constructor.
  - reflexivity.
  - by repeat split.
  - by apply quiet_session_is_fresh.
  - constructor.
  - by repeat split.
  - exists receipt, w2, w3. split; [reflexivity|exact H].
Defined.

(** A server that answers a select with one row, and loses its readings by any
    other statement. *)
#[local] Instance one_row_server : PgServer :=
  {| pg_connect := None; pg_prepare := λ sql, Ok [("n", PgInt4)];
     pg_query := λ sql params t,
       if is_some (strip_prefix "SELECT " sql) then (Ok [[CInt (Some 1%Z)]], t) else (Ok [], set_readings t []) |}.

#[local] Instance one_row_server_reads : LawfulPgServer (Server := one_row_server).
Proof. constructor. intros rest params types t _. unfold pg_query, one_row_server. by rewrite strip_prefix_app. Qed.

Lemma strangers_are_refused_witness :
  ∃ e, protected_call (Store:=gmap string string) host_config InMemoryOwnership_new 7%N 1000 None
         (CallApply (quiet_session 9%N) readings_request) host_world = (Some (Some e), host_world) ∧ api_status e ∈ [401; 403]%N.
Proof.
  refine (strangers_are_refused host_config InMemoryOwnership_new 7%N 1000 None
    (CallApply (quiet_session 9%N) readings_request) host_world _ _).
  - intros raw header. cbn. destruct (ascii_text raw) eqn:Ha; [|done]. by intros [= <-].
  - by intros (subject & header & token & user & H & _).
Defined.

(** ** The start and the routes *)

#[local] Instance memory_service : OpendalServices (gmap string string) :=
  {| op_memory := Ok ∅; op_s3 := λ settings, if bool_decide ("bucket" ∈ List.map fst settings) then Ok ∅ else Err "no bucket" |}.

(** A database that is reached at the third ping. *)
Definition third_ping (i : nat) : result unit DbError :=
  if (i <? 2)%nat then Err (DbConnect "connection refused") else Ok tt.

Definition whole_seconds (i : nat) : Z := (1000000000 * Z.of_nat i)%Z.

Lemma database_wait_ends_witness :
  (∀ i, 0 + 1000000000 * Z.of_nat i ≤ whole_seconds i)%Z ∧ (N.to_nat 5 < 6)%nat
  ∧ match wait_for_database third_ping whole_seconds (2 ^ 63) 0 5 6 with
    | Running _ => ∃ n, (n ≤ 5)%nat ∧ waited third_ping whole_seconds 5000000000 n ∧ third_ping n = Ok tt
    | _ => False
    end.
Proof.
  assert (Hc : ∀ i, (0 + 1000000000 * Z.of_nat i ≤ whole_seconds i)%Z) by (intros i; unfold whole_seconds; lia).
  assert (Hf : (N.to_nat 5 < 6)%nat) by lia. split; [exact Hc|]. split; [exact Hf|].
  exact (database_wait_ends third_ping whole_seconds (2 ^ 63) 0 5 6 Hc Hf).
Defined.

Definition demo_environment (name : string) : option string :=
  if String.eqb name "QFDEMO_DATABASE_URL" then Some "postgres://demo"
  else if String.eqb name "QFDEMO_AUTH_SECRET" then Some sample_secret
  else None.

Definition no_files (path : string) : result string string := Err "not found".

Definition empty_tables : Tables Z := {| stations := []; readings := []; receipts := [] |}.

Definition running {A} (m : Start A) : bool := match m with Running _ => true | _ => false end.

Definition demo_start (t : Tables Z) :=
  host_start (Store:=gmap string string) demo_environment no_files third_ping whole_seconds (2 ^ 63) 0 6 None t.

Example the_host_starts : running (demo_start empty_tables).1 = true.
Proof. vm_compute. reflexivity. Qed.

Lemma started_host_is_ready_witness :
  ∃ s t', demo_start empty_tables = (Running s, t') ∧ tables (as_world s) = t'
    ∧ Forall (has_history (log (as_world s))) STATIONS ∧ demo_start t' = (Running s, t').
Proof.
  pose proof the_host_starts as Hok. destruct (demo_start empty_tables) as [[s|e| |] t'] eqn:Hs; [|discriminate Hok..].
  exists s, t'.
  destruct (started_host_is_ready (Serde:=small_json) _ _ _ _ _ _ _ _ _ _ _ Hs)
    as (Hc & _ & Ht & _ & _ & Hseed & _ & _ & Hagain).
  assert (Htrue : seed_demo_data (as_config s) = true).
  { assert (Hd : match from_env demo_environment no_files with Ok c => seed_demo_data c | Err _ => false end = true)
      by (vm_compute; reflexivity).
    rewrite Hc in Hd. exact Hd. }
  rewrite Htrue in Hseed. destruct Hseed as [_ Hh]. repeat split; assumption.
Defined.

#[local] Instance no_parser : SqlParser :=
  {| AstQuery := Empty_set; AstOther := Empty_set; Parser_parse_sql := λ _, Err "no parser";
     ast_to_string := λ q, match q with end; lower_query := λ _ q, match q with end |}.
#[local] Existing Instance ascii_unicode.

(** Texts as they are; the body of an import is one known document. *)
#[local] Instance plain_extractors : Extractors :=
  {| path_parameter := Ok; query_body := λ r, Err 422%N;
     import_body := λ r, if String.eqb (hr_body r) "import" then Ok readings_request else Err 422%N;
     erase_body := λ r, Ok (hr_body r); document_to_value := λ d, Ok (JString (snapshot_text (doc_snapshot_id d))) |}.

Definition quiet_ambient : Ambient :=
  {| am_now_v7 := 1%N; am_now_ms := 0; am_now := 1000; am_session := quiet_session 9%N; am_select := None |}.

Definition post (path body : string) : HttpRequest :=
  {| hr_method := "POST"; hr_path := path; hr_authorization := None; hr_content_type := Some "application/json";
     hr_body := body |}.

Definition host_serve (request : HttpRequest) : option Served * HostWorld :=
  serve host_config build_catalog (seed_ownership).1 (seed_ownership).2 "0" quiet_ambient request host_world.

Lemma strangers_change_nothing_witness :
  ∃ served, host_serve (post "/imports/apply" "import") = (Some served, host_world) ∧ refused served.
Proof.
  destruct (strangers_change_nothing host_config build_catalog (seed_ownership).1 (seed_ownership).2 "0" quiet_ambient
    (post "/imports/apply" "import") host_world) as (served & Hs & Hr).
  - intros raw header. cbn. destruct (ascii_text raw) eqn:Ha; [|done]. by intros [= <-].
  - reflexivity.
  - intros role _. by intros (subject & header & token & user & H & _).
  - exists served. split; [exact Hs|]. apply Hr. reflexivity.
Defined.

Definition status_of (request : HttpRequest) : option N :=
  match (host_serve request).1 with
  | Some (Rejected status) => Some status
  | Some (Handled (Ok _)) => Some 200%N
  | Some (Handled (Err e)) => Some (api_status e)
  | None => None
  end.

Example statuses :
  status_of (post "/resources/lis-baixa/erase" "no reason") = Some 401%N
  ∧ status_of (post "/resources//erase" "no reason") = Some 404%N
  ∧ status_of (post "/resources" "") = Some 405%N
  ∧ status_of (post "/imports/apply" "{}") = Some 422%N
  ∧ status_of {| hr_method := "HEAD"; hr_path := "/healthz"; hr_authorization := None; hr_content_type := None; hr_body := "" |}
    = Some 200%N.
Proof. vm_compute. repeat split. Qed.

(** The comment of the query handler says that only the two relations are
    reachable: a table of that name in another schema is reachable too. *)
Definition foreign_query : ParsedQuery :=
  parsed (Behaviours.query [] (select [item (col "pm25")]
    [MkSyntaxTableWithJoins (STable {| nr_namespace := Some "secret"; nr_name := "readings" |} None n0) [] n0] None) []).

Example another_schema_is_reached :
  match bind_and_validate (memory_catalog build_catalog) foreign_query QueryParameters_default with
  | Ok bound => text_of (emit_sql_artifact bound (memory_catalog build_catalog) Render.Postgres)
  | Err _ => None
  end = Some "SELECT readings.pm25 FROM secret.readings".
Proof. vm_compute. reflexivity. Qed.
