(* ===== verification/Web.v ===== *)
(** What web front ends share ([queryfabric-web/src/lib.rs]), the settings and
    the client of a server-side renderer ([ssr/settings.rs], [ssr/backend.rs]),
    and the downloader ([queryfabric-fetch/src/lib.rs]).

    Percent-encoding is a third-party crate (class [UrlEncoding]), so are the
    HTTP clients ([ApiHttp], [FetchHttp]); the environment and the file system
    are arguments.  Progress bars and logs are left out. *)
From Stdlib Require Import Ascii.
From stdpp Require Import gmap.
From S2P Require Import Prelude Types Diagnostics Bound Catalog Suggest Render SqlText SqlDialect Syql Inspect Facade Numerals Citation Tokens HostConfig Doi ClickHouseDriver.
Local Open Scope result_scope.

(** ** [lib.rs] *)

Inductive FlashKind := FlashInfo | FlashSuccess | FlashWarning | FlashError.

Record Flash := { flash_kind : FlashKind; flash_message : string }.

Definition class_name (self : Flash) : string :=
  match flash_kind self with
  | FlashInfo => "alert-info" | FlashSuccess => "alert-success" | FlashWarning => "alert-warning" | FlashError => "alert-danger"
  end.

(** [decode] fails where the bytes are no UTF-8. *)
Class UrlEncoding := { url_encode : string → string; url_decode : string → option string }.

Section Queries.
Context `{Enc : !UrlEncoding}.

Definition next_pair (pair : string) : option string :=
  match split_first "=" pair with
  | None => None
  | Some (key, value) =>
      if String.eqb key "next" || String.eqb key "next_url" then Some (default value (url_decode value)) else None
  end.

Definition next_query_value (query : string) : option string := find_map next_pair (split_char "&"%char query).

Definition append_query (path key value : string) : string :=
  let separator := if has_char "?"%char path then "&" else "?" in
  path +:+ separator +:+ key +:+ "=" +:+ url_encode value.
End Queries.

Definition safe_local_redirect (candidate : option string) (fallback : string) : string :=
  match candidate with
  | None => fallback
  | Some candidate =>
      let candidate := trim candidate in
      if String.eqb candidate "" || negb (str_starts_with "/" candidate) || str_starts_with "//" candidate
         || has_char "\"%char candidate || has_char (ascii_of_N 10) candidate || has_char (ascii_of_N 13) candidate
      then fallback
      else candidate
  end.

Record SyqlValidateResponse := {
  sv_valid : bool;
  sv_error : option string;
  sv_table : option string;
  sv_predicate_count : N
}.

Definition validate_syql `{Blake3} `{Unicode} `{!SqlParser} (cargo_pkg_version query : string) (catalog : Catalog)
    : SyqlValidateResponse :=
  match parse_syql query with
  | Err error =>
      {| sv_valid := false; sv_error := Some (query_error_text error); sv_table := None; sv_predicate_count := 0 |}
  | Ok parsed =>
      let summary := inspect_query parsed None in
      match facade_bind_and_validate cargo_pkg_version parsed catalog QueryParameters_default with
      | Err error =>
          {| sv_valid := false; sv_error := Some (query_error_text error);
             sv_table := primary_relation summary; sv_predicate_count := predicate_count summary |}
      | Ok _ =>
          {| sv_valid := true; sv_error := None;
             sv_table := primary_relation summary; sv_predicate_count := predicate_count summary |}
      end
  end.

(** ** [ssr/settings.rs] *)

(** [Path::join]. *)
Definition path_join (base child : string) : string :=
  if str_starts_with "/" child then child
  else if String.eqb base "" || str_starts_with "/" (String.rev base) then base +:+ child
  else base +:+ "/" +:+ child.

Definition normalize_prefix (value : string) : string :=
  let trimmed := trim value in
  if String.eqb trimmed "" || String.eqb trimmed "/" then ""
  else if str_starts_with "/" trimmed then trim_slashes trimmed
  else "/" +:+ trim_slashes trimmed.

Section Settings.
Context `{Platform : !HostPlatform}.

Record SsrSettings := {
  ui_addr : SocketAddr;
  api_url : string;
  api_prefix : string;
  (** Seconds. *)
  api_timeout : N;
  site_root : string;
  public_root : string
}.

Record SsrDefaults := {
  d_ui_addr : SocketAddr;
  d_api_url : string;
  d_api_prefix : string;
  d_api_timeout_secs : N;
  d_site_root : string;
  d_public_root : string
}.

(** [None] is the panic of [expect]. *)
Definition SsrDefaults_default : option SsrDefaults :=
  match parse_addr "0.0.0.0:8090" with
  | None => None
  | Some addr =>
      Some {| d_ui_addr := addr; d_api_url := "http://localhost:8080"; d_api_prefix := "/v1"; d_api_timeout_secs := 10;
              d_site_root := "target/site"; d_public_root := "public" |}
  end.

(** [std::env::var]. *)
Context (environment : string → option string).

(** The first name that is set decides. *)
Fixpoint env_var_or {A} (parse : string → result A string) (names : list string) (otherwise : A) : result A string :=
  match names with
  | [] => Ok otherwise
  | name :: names =>
      match environment name with
      | Some val => map_err (λ e, "failed to parse " +:+ name +:+ ": " +:+ e) (parse val)
      | None => env_var_or parse names otherwise
      end
  end.

Definition parse_text (s : string) : result string string := Ok s.

(** The text of the error is dropped by the only caller. *)
Definition parse_u64 (s : string) : result N string :=
  ok_or (HostConfig.parse_unsigned (2 ^ 64) s) "invalid digit found in string".

Definition unwrap_or {A E} (r : result A E) (a : A) : A := match r with Ok a => a | Err _ => a end.

Definition settings_from_env (prefix : string) (defaults : SsrDefaults) : result SsrSettings string :=
  let? ui_addr :=
    env_var_or (λ s, ok_or (parse_addr s) "invalid socket address syntax") [prefix +:+ "_UI_ADDR"] (d_ui_addr defaults) in
  Ok {| ui_addr := ui_addr;
        api_url :=
          trim_slashes (unwrap_or (env_var_or parse_text [prefix +:+ "_API_URL"] (d_api_url defaults)) (d_api_url defaults));
        api_prefix :=
          normalize_prefix
            (unwrap_or (env_var_or parse_text [prefix +:+ "_API_PREFIX"] (d_api_prefix defaults)) (d_api_prefix defaults));
        api_timeout :=
          unwrap_or (env_var_or parse_u64 [prefix +:+ "_API_TIMEOUT_SECS"] (d_api_timeout_secs defaults))
            (d_api_timeout_secs defaults);
        site_root :=
          unwrap_or (env_var_or parse_text [prefix +:+ "_SITE_ROOT"; "LEPTOS_SITE_ROOT"] (d_site_root defaults))
            (d_site_root defaults);
        public_root :=
          match environment "CARGO_MANIFEST_DIR" with
          | Some d => path_join d "public"
          | None => d_public_root defaults
          end |}.

Definition rooted (path : string) : string := if str_starts_with "/" path then path else "/" +:+ path.

Definition api_endpoint (self : SsrSettings) (path : string) : string :=
  let path := rooted path in
  if str_starts_with (api_prefix self) path then api_url self +:+ path
  else api_url self +:+ api_prefix self +:+ path.

Definition api_origin_endpoint (self : SsrSettings) (path : string) : string := api_url self +:+ rooted path.

Definition static_root (is_dir : string → bool) (self : SsrSettings) : string :=
  let built_static := path_join (site_root self) "static" in
  if is_dir built_static then built_static else path_join (public_root self) "static".

Definition pkg_root (self : SsrSettings) : string := path_join (site_root self) "pkg".
End Settings.

(** ** [ssr/backend.rs] *)

Inductive Method := GET | POST.

(** Header names are in lower case; a header that is added again is sent twice. *)
Record ApiRequest := {
  req_method : Method;
  req_url : string;
  req_headers : list (string * string);
  req_body : option string
}.

Record ApiResponse := { api_resp_status : N; api_resp_body : result string string }.

Class ApiHttp (World : Type) := { api_send : ApiRequest → state World (result ApiResponse string) }.

Inductive ClientError := ApiHttpError (error : string) | ApiStatus (status : N).

Definition user_message (e : ClientError) : string :=
  match e with
  | ApiHttpError error => "API request failed: " +:+ error
  | ApiStatus status => "API returned HTTP " +:+ show_N status
  end.

Section ApiClient.
Context {World : Type} `{Platform : !HostPlatform} `{Http : !ApiHttp World}.
#[local] Abbreviation M A := (state World (result A ClientError)).

Record ApiClient := {
  client_settings : SsrSettings;
  request_id_header : string;
  form_boundary_prefix : string
}.

(** [HeaderMap::get]: the first value. *)
Fixpoint header_get (name : string) (headers : list (string * string)) : option string :=
  match headers with
  | [] => None
  | (n, v) :: headers => if String.eqb n name then Some v else header_get name headers
  end.

Definition add_header (name value : string) (req : ApiRequest) : ApiRequest :=
  {| req_method := req_method req; req_url := req_url req; req_headers := req_headers req ++ [(name, value)];
     req_body := req_body req |}.

Definition set_body (body : string) (req : ApiRequest) : ApiRequest :=
  {| req_method := req_method req; req_url := req_url req; req_headers := req_headers req; req_body := Some body |}.

Definition forward_headers (self : ApiClient) (req : ApiRequest) (headers : list (string * string)) : ApiRequest :=
  let req := match header_get "cookie" headers with Some cookie => add_header "cookie" cookie req | None => req end in
  match header_get (request_id_header self) headers with
  | Some request_id => add_header (request_id_header self) request_id req
  | None => req
  end.

Definition api_request (self : ApiClient) (method : Method) (path : string) : ApiRequest :=
  {| req_method := method; req_url := api_endpoint (client_settings self) path; req_headers := []; req_body := None |}.

Definition send (req : ApiRequest) : M ApiResponse :=
  λ w, let '(r, w) := api_send req w in (map_err ApiHttpError r, w).

(** The document of a response. *)
Definition response_json {T} (from_json : string → result T string) (resp : ApiResponse) : result T ClientError :=
  let? body := map_err ApiHttpError (api_resp_body resp) in
  map_err ApiHttpError (from_json body).

Definition on_response {T} (m : M ApiResponse) (f : ApiResponse → result T ClientError) : M T :=
  λ w, let '(r, w) := m w in (rbind r f, w).

Definition get_json {T} (from_json : string → result T string) (self : ApiClient) (path : string)
    (headers : list (string * string)) : M (option T) :=
  on_response (send (forward_headers self (api_request self GET path) headers)) (λ resp,
    let status := api_resp_status resp in
    if (status =? 401)%N || (status =? 403)%N || (status =? 404)%N then Ok None
    else if negb (is_success status) then Err (ApiStatus status)
    else let? value := response_json from_json resp in Ok (Some value)).

Definition get_json_required {T} (from_json : string → result T string) (self : ApiClient) (path : string)
    (headers : list (string * string)) : M T :=
  on_response (send (forward_headers self (api_request self GET path) headers)) (λ resp,
    if negb (is_success (api_resp_status resp)) then Err (ApiStatus (api_resp_status resp))
    else response_json from_json resp).

(** The body is the text of the document. *)
Definition post_json (self : ApiClient) (path body : string) (headers : list (string * string)) : M ApiResponse :=
  send (forward_headers self (set_body body (add_header "content-type" "application/json" (api_request self POST path))) headers).

Definition post_empty_bearer (self : ApiClient) (path token : string) (headers : list (string * string)) : M ApiResponse :=
  send (add_header "authorization" ("Bearer " +:+ token) (forward_headers self (api_request self POST path) headers)).

Definition crlf : string := String (ascii_of_N 13) (String (ascii_of_N 10) "").

Definition multipart_body (boundary field_name filename bytes : string) : string :=
  "--" +:+ boundary +:+ crlf
  +:+ "Content-Disposition: form-data; name=" +:+ char_text dquote +:+ field_name +:+ char_text dquote
  +:+ "; filename=" +:+ char_text dquote +:+ replace_char dquote "_"%char filename +:+ char_text dquote +:+ crlf
  +:+ "Content-Type: application/octet-stream" +:+ crlf +:+ crlf
  +:+ bytes
  +:+ crlf +:+ "--" +:+ boundary +:+ "--" +:+ crlf.

(** [nanos] since the epoch, if the clock is not before it. *)
Definition post_multipart_bytes (nanos : option N) (self : ApiClient) (path field_name filename bytes : string)
    (headers : list (string * string)) : M ApiResponse :=
  let nonce := default 0%N nanos in
  let boundary := form_boundary_prefix self +:+ show_N nonce in
  send (set_body (multipart_body boundary field_name filename bytes)
    (add_header "content-type" ("multipart/form-data; boundary=" +:+ boundary)
      (forward_headers self (api_request self POST path) headers))).

Definition get_raw (self : ApiClient) (path : string) (headers : list (string * string)) : M ApiResponse :=
  send (forward_headers self (api_request self GET path) headers).

Definition api_health (self : ApiClient) : M ApiResponse :=
  send {| req_method := GET; req_url := api_origin_endpoint (client_settings self) "/health"; req_headers := [];
          req_body := None |}.
End ApiClient.

(** ** The downloader: [queryfabric-fetch/src/lib.rs] *)

Inductive FetchError := FetchHttpError (error : string) | FetchDownload (message : string) | FetchIo (error : string).

Definition fetch_error_text (e : FetchError) : string :=
  match e with
  | FetchHttpError e => "HTTP error: " +:+ e
  | FetchDownload m => "download failed: " +:+ m
  | FetchIo e => "I/O error: " +:+ e
  end.

Record DownloadFile := { df_url : string; df_filename : string; df_description : string }.

Definition DEFAULT_CONCURRENCY : N := 4.
Definition MAX_RETRIES : nat := 3.
Definition TRANSIENT_STATUS_CODES : list N := [429; 500; 502; 503; 504]%N.

Record DownloadManager := { concurrency : N }.

(** [None] is the panic of [assert]. *)
Definition DownloadManager_new (concurrency : N) : option DownloadManager :=
  if (0 <? concurrency)%N then Some {| concurrency := concurrency |} else None.

Record FetchResponse := {
  fr_status : N;
  (** The content type, where it is text. *)
  fr_content_type : option string;
  fr_chunks : list (result string string)
}.

Class FetchHttp (Net : Type) := {
  fetch_get : string → state Net (result FetchResponse string);
  (** [rand::random::<u64>]. *)
  random_u64 : state Net N;
  (** [Display] of a status. *)
  fetch_status_text : N → string
}.

(** The errors of the file system, by the path and what is written to it:
    [create_dir_all], [File::create], [write_all] and [flush]. *)
Class DiskFaults := {
  dir_error : string → option string;
  (** [create_dir_all] of the directory of a file. *)
  parent_error : string → option string;
  create_error : string → option string;
  (** [write_all] of a text after this one. *)
  write_error : string → string → string → option string;
  flush_error : string → option string
}.

Section Fetch.
Context {Net : Type} `{Http : !FetchHttp Net} `{Urls : !UrlCrate} `{Faults : !DiskFaults}.

Definition redact_url (raw : string) : string :=
  match url_parse raw with
  | None => "<invalid-url>"
  | Some url => url_text (without_fragment (without_query (without_password (without_user url))))
  end.

(** The network, the files, and the pauses in milliseconds. *)
Record FetchWorld := { net : Net; disk : gmap string string; pauses : list N }.

Definition on_net {A} (m : state Net A) : state FetchWorld A :=
  λ w, let '(a, n) := m (net w) in (a, {| net := n; disk := disk w; pauses := pauses w |}).

Definition pause (millis : N) (w : FetchWorld) : FetchWorld :=
  {| net := net w; disk := disk w; pauses := pauses w ++ [millis] |}.

Definition set_file (path content : string) (w : FetchWorld) : FetchWorld :=
  {| net := net w; disk := <[path := content]> (disk w); pauses := pauses w |}.

#[local] Abbreviation M A := (state FetchWorld (result A FetchError)).

Definition is_transient (status : N) : bool := existsb (N.eqb status) TRANSIENT_STATUS_CODES.

(** [1 << attempt] seconds, and less than one more. *)
Definition backoff_millis (attempt : nat) (random : N) : N := (2 ^ N.of_nat attempt * 1000 + random mod 1000)%N.

(** The attempts from this one on; [more] of them after it. *)
Fixpoint attempts (url : string) (attempt more : nat) : M FetchResponse :=
  λ w,
    match on_net (fetch_get url) w with
    | (Err error, w) => (Err (FetchHttpError error), w)
    | (Ok resp, w) =>
        let status := fr_status resp in
        if is_success status then (Ok resp, w)
        else if negb (is_transient status) || (attempt =? MAX_RETRIES)%nat then
          (Err (FetchDownload ("HTTP " +:+ fetch_status_text status +:+ " downloading " +:+ redact_url url
                               +:+ " (after " +:+ show_N (N.of_nat attempt) +:+ " retries)")), w)
        else
          let '(random, w) := on_net random_u64 w in
          let w := pause (backoff_millis attempt random) w in
          match more with
          | O => (Err (FetchDownload ("retry loop exhausted unexpectedly for " +:+ redact_url url)), w)
          | S more => attempts url (S attempt) more w
          end
    end.

Definition send_with_retry (url : string) : M FetchResponse := attempts url 0 MAX_RETRIES.

(** The loop over the chunks; the content so far is the file's. *)
Fixpoint write_chunks (path : string) (chunks : list (result string string)) (downloaded : N) : M N :=
  λ w,
    match chunks with
    | [] => match flush_error path with Some e => (Err (FetchIo e), w) | None => (Ok downloaded, w) end
    | Err e :: _ => (Err (FetchHttpError e), w)
    | Ok chunk :: chunks =>
        let content := default "" (disk w !! path) in
        match write_error path content chunk with
        | Some e => (Err (FetchIo e), w)
        | None =>
            write_chunks path chunks (downloaded + N.of_nat (String.length chunk)) (set_file path (content +:+ chunk) w)
        end
    end.

Definition is_html (resp : FetchResponse) : option string :=
  match fr_content_type resp with
  | Some ct => if str_contains ct "text/html" then Some ct else None
  | None => None
  end.

Definition save_response (path : string) (resp : FetchResponse) : M N :=
  λ w,
    match parent_error path with
    | Some e => (Err (FetchIo e), w)
    | None =>
        match create_error path with
        | Some e => (Err (FetchIo e), w)
        | None => write_chunks path (fr_chunks resp) 0 (set_file path "" w)
        end
    end.

Definition download_file (url output_path : string) (overwrite : bool) : M N :=
  λ w,
    match disk w !! output_path, overwrite with
    | Some content, false => (Ok (N.of_nat (String.length content)), w)
    | _, _ =>
        let safe_url := redact_url url in
        match send_with_retry url w with
        | (Err e, w) => (Err e, w)
        | (Ok resp, w) =>
            match is_html resp with
            | Some ct =>
                (Err (FetchDownload ("Server returned HTML instead of data for " +:+ safe_url +:+ " (content-type: " +:+ ct
                   +:+ "). The URL may require authentication or has changed.")), w)
            | None => save_response output_path resp w
            end
        end
    end.

(** The downloads of a manifest one after the other, in the order in which
    they finish. *)
Fixpoint download_each (files : list DownloadFile) (output_dir : string) (overwrite : bool) : state FetchWorld (list (result string FetchError)) :=
  λ w,
    match files with
    | [] => ([], w)
    | file :: files =>
        let output_path := path_join output_dir (df_filename file) in
        let '(r, w) := download_file (df_url file) output_path overwrite w in
        let '(rs, w) := download_each files output_dir overwrite w in
        ((let? _n := r in Ok output_path) :: rs, w)
    end.

(** [finishing]: the files in that order. *)
Definition download_manifest (finishing : list DownloadFile) (output_dir : string) (overwrite : bool) : M (list string) :=
  λ w,
    match dir_error output_dir with
    | Some e => (Err (FetchIo e), w)
    | None =>
        let '(results, w) := download_each finishing output_dir overwrite w in
        (rcollect id results, w)
    end.
End Fetch.

(** ** Facts: queries and redirects *)

(** The documented behaviour of the encoder: its text decodes to the value, and
    the characters that separate parameters are encoded. *)
Class UrlEncodingLaws `{Enc : !UrlEncoding} := {
  decode_encode v : url_decode (url_encode v) = Some v;
  encode_plain v : has_char "&"%char (url_encode v) = false
}.

Lemma split_char_app sep a b :
  split_char sep (a +:+ String sep b) = split_char sep a ++ split_char sep b.
Proof.
  induction a as [|c a IH].
  - rewrite string_app_nil_l. simpl. by rewrite Ascii.eqb_refl.
  - rewrite string_app_cons. cbn [split_char]. rewrite IH. destruct (Ascii.eqb c sep); [done|].
    pose proof (RenderText.split_char_cons sep a). by destruct (split_char sep a).
Qed.

Lemma find_map_app {A B} (f : A → option B) l1 l2 :
  find_map f (l1 ++ l2) = match find_map f l1 with Some b => Some b | None => find_map f l2 end.
Proof. induction l1 as [|a l1 IH]; [done|]. simpl. by destruct (f a). Qed.

Section NextValue.
Context `{Enc : !UrlEncoding} `{Laws : !UrlEncodingLaws}.

Lemma next_pair_encoded key v : In key ["next"; "next_url"] → next_pair (key +:+ "=" +:+ url_encode v) = Some v.
Proof. intros [<-|[<-|[]]]; unfold next_pair; simpl; by rewrite string_app_nil_l, decode_encode. Qed.

Lemma encoded_pair_plain key v : In key ["next"; "next_url"] → has_char "&"%char (key +:+ "=" +:+ url_encode v) = false.
Proof. intros [<-|[<-|[]]]; rewrite !has_char_app; by rewrite encode_plain. Qed.

(** The address to return to survives the query: what [append_query] adds
    to a path under [next] or [next_url] is what [next_query_value] reads back,
    whatever characters it has, unless the query named an address before. *)
Theorem next_survives path query key v :
  In key ["next"; "next_url"] → has_char "?"%char path = false →
  (∃ q, append_query path key v = path +:+ "?" +:+ q ∧ next_query_value q = Some v)
  ∧ ∃ q, append_query (path +:+ "?" +:+ query) key v = path +:+ "?" +:+ q
         ∧ next_query_value q = match next_query_value query with Some first => Some first | None => Some v end.
Proof.
  intros Hkey Hp. pose proof (next_pair_encoded key v Hkey) as Hn. pose proof (encoded_pair_plain key v Hkey) as Ha.
  set (pair := key +:+ "=" +:+ url_encode v) in *. split; unfold append_query; fold pair.
  - rewrite Hp. exists pair. split; [done|]. unfold next_query_value. rewrite split_char_one by done. simpl. by rewrite Hn.
  - rewrite !has_char_app, Hp. simpl. exists (query +:+ "&" +:+ pair).
    split; [by rewrite !string_app_assoc|]. unfold next_query_value.
    change ("&" +:+ pair) with (String "&" pair). rewrite split_char_app, find_map_app, (split_char_one _ pair) by done.
    simpl. rewrite Hn. done.
Qed.
End NextValue.

(** What a browser makes of a location: leading and trailing controls and
    spaces are dropped, tabs and line ends everywhere, and a backslash is a
    slash. *)
Definition control_or_space (c : ascii) : bool := (byte_of c <=? 32)%N.

Fixpoint drop_leading (s : string) : string :=
  match s with String c rest => if control_or_space c then drop_leading rest else s | EmptyString => "" end.

Fixpoint drop_trailing (s : string) : string :=
  match s with
  | EmptyString => ""
  | String c s => let rest := drop_trailing s in if control_or_space c && String.eqb rest "" then "" else String c rest
  end.

Definition tab_or_line_end (c : ascii) : bool := (byte_of c =? 9)%N || (byte_of c =? 10)%N || (byte_of c =? 13)%N.

Fixpoint without_tabs (s : string) : string :=
  match s with EmptyString => "" | String c s => if tab_or_line_end c then without_tabs s else String c (without_tabs s) end.

Definition browser_text (s : string) : string :=
  replace_char "\"%char "/"%char (without_tabs (drop_trailing (drop_leading s))).

(** One slash: a path on the same host. *)
Definition stays_on_host (s : string) : Prop :=
  ∃ path, browser_text s = String "/" path ∧ starts_with (λ c, Ascii.eqb c "/") path = false.

Lemma plain_char c :
  Ascii.eqb c (ascii_of_N 9) = false → Ascii.eqb c (ascii_of_N 10) = false → Ascii.eqb c (ascii_of_N 13) = false →
  tab_or_line_end c = false.
Proof.
  intros H1 H2 H3. unfold tab_or_line_end.
  assert (∀ n, (n < 256)%N → Ascii.eqb c (ascii_of_N n) = false → (byte_of c =? n)%N = false) as H.
  { intros n Hn Hc. apply N.eqb_neq. intros <-. unfold byte_of in Hc. rewrite ascii_N_embedding, Ascii.eqb_refl in Hc. done. }
  by rewrite !H.
Qed.

Lemma second_char s rest : drop_trailing s = rest → starts_with (λ c, Ascii.eqb c "/") s = false →
  starts_with (λ c, Ascii.eqb c "/") rest = false.
Proof. intros <-. destruct s as [|c s]; [done|]. simpl. by destruct (control_or_space c && _). Qed.

Lemma drop_trailing_char c s : has_char c s = false → has_char c (drop_trailing s) = false.
Proof.
  induction s as [|d s IH]; [done|]. simpl. intros [Hd Hs]%orb_false_iff.
  destruct (control_or_space d && _); [done|]. simpl. by rewrite Hd, IH.
Qed.

Lemma without_tabs_plain s :
  has_char (ascii_of_N 9) s = false → has_char (ascii_of_N 10) s = false → has_char (ascii_of_N 13) s = false →
  without_tabs s = s.
Proof.
  induction s as [|c s IH]; [done|]. simpl.
  intros [H1 H1']%orb_false_iff [H2 H2']%orb_false_iff [H3 H3']%orb_false_iff. rewrite plain_char by done. by rewrite IH.
Qed.

Lemma replace_char_plain from to s : has_char from s = false → replace_char from to s = s.
Proof. induction s as [|c s IH]; [done|]. simpl. intros [-> Hs]%orb_false_iff. by rewrite IH. Qed.

(** C40: a redirect stays on the host: what [safe_local_redirect] returns is the
    fallback, or a text that a browser takes for a path on the same host, unless
    it has a tab. *)
Theorem redirects_stay_local candidate fallback :
  let r := safe_local_redirect candidate fallback in
  r = fallback ∨ has_char (ascii_of_N 9) r = true ∨ stays_on_host r.
Proof.
  destruct candidate as [c|]; cbn [safe_local_redirect]; [|by left]. generalize (trim c) as t. intros t.
  destruct (String.eqb t "" || _ || _ || _ || _ || _) eqn:E; [by left|]. right.
  repeat match goal with H : _ || _ = false |- _ => apply orb_false_iff in H as [? ?] end.
  destruct (has_char (ascii_of_N 9) t) eqn:Htab; [by left|]. right.
  destruct t as [|d t]; [done|].
  assert (d = "/"%char) as ->.
  { match goal with H : negb _ = false |- _ => apply negb_false_iff in H; unfold str_starts_with in H; cbn [strip_prefix] in H end.
    destruct (Ascii.eqb_spec "/" d); [done|by destruct (Ascii.eqb d "/")]. }
  assert (starts_with (λ c, Ascii.eqb c "/") t = false) as Hsecond.
  { destruct t as [|e t]; [done|]. match goal with H : str_starts_with "//" _ = false |- _ => unfold str_starts_with in H; simpl in H end.
    simpl. by destruct (Ascii.eqb_spec e "/") as [->|]. }
  exists (drop_trailing t). split; [|by eapply second_char].
  unfold browser_text. change (drop_leading (String "/" t)) with (String "/" t).
  change (drop_trailing (String "/" t)) with (String "/" (drop_trailing t)).
  assert (∀ c, has_char c (String "/" t) = false → has_char c (String "/" (drop_trailing t)) = false) as Hkeep.
  { intros e. simpl. intros [-> He]%orb_false_iff. by apply drop_trailing_char. }
  rewrite without_tabs_plain by (apply Hkeep; assumption). by rewrite replace_char_plain by (apply Hkeep; assumption).
Qed.

(** A tab after the first slash passes, and the browser goes to another host. *)
Example a_tab_leaves_the_host :
  let r := safe_local_redirect (Some ("/" +:+ String (ascii_of_N 9) "/evil.test")) "/" in
  r = "/" +:+ String (ascii_of_N 9) "/evil.test" ∧ browser_text r = "//evil.test".
Proof. by vm_compute. Qed.

(** A concrete encoder: a percent sign and two digits for every byte. *)
Definition hex_digit (n : N) : ascii := ascii_of_N (if (n <? 10)%N then 48 + n else 55 + n).
Definition unhex (c : ascii) : N := let n := byte_of c in (if n <? 58 then n - 48 else n - 55)%N.

Fixpoint percent_encode (s : string) : string :=
  match s with
  | EmptyString => ""
  | String c s => String "%" (String (hex_digit (byte_of c / 16)) (String (hex_digit (byte_of c mod 16)) (percent_encode s)))
  end.

Fixpoint percent_decode (s : string) : string :=
  match s with
  | EmptyString => ""
  | String c rest =>
      if Ascii.eqb c "%" then
        match rest with
        | String a (String b rest) => String (ascii_of_N (unhex a * 16 + unhex b)) (percent_decode rest)
        | _ => s
        end
      else String c (percent_decode rest)
  end.

#[export] Instance percent_encoding : UrlEncoding := {|
  url_encode := percent_encode; url_decode := λ s, Some (percent_decode s) |}.

Lemma hex_byte c : ascii_of_N (unhex (hex_digit (byte_of c / 16)) * 16 + unhex (hex_digit (byte_of c mod 16))) = c.
Proof. by destruct c as [[] [] [] [] [] [] [] []]. Qed.

Lemma hex_plain c : Ascii.eqb (hex_digit (byte_of c / 16)) "&" = false ∧ Ascii.eqb (hex_digit (byte_of c mod 16)) "&" = false.
Proof. by destruct c as [[] [] [] [] [] [] [] []]. Qed.

#[export] Instance percent_laws : UrlEncodingLaws.
Proof.
  split; intros v; cbn [url_encode url_decode percent_encoding].
  - f_equal. induction v as [|c v IH]; [done|]. cbn [percent_encode percent_decode].
    change (Ascii.eqb "%" "%") with true. cbv iota. by rewrite hex_byte, IH.
  - induction v as [|c v IH]; [done|]. cbn [percent_encode has_char]. destruct (hex_plain c) as [-> ->]. by rewrite IH.
Qed.

Lemma next_survives_witness :
  In "next" ["next"; "next_url"] ∧ has_char "?"%char "/login" = false
  ∧ (∃ q, append_query "/login" "next" "/a?b=1&c" = "/login" +:+ "?" +:+ q ∧ next_query_value q = Some "/a?b=1&c")
  ∧ ∃ q, append_query ("/login" +:+ "?" +:+ "error=Bad") "next" "/a?b=1&c" = "/login" +:+ "?" +:+ q
         ∧ next_query_value q = Some "/a?b=1&c".
Proof.
  split; [by left|]. split; [done|].
  apply (next_survives "/login" "error=Bad" "next" "/a?b=1&c"); [by left|done].
Defined.

(** ** Facts: the client *)

Section ClientFacts.
Context `{Platform : !HostPlatform}.

(** Every request of the API goes below the prefix; a path that begins with the
    text of the prefix is taken as it is. *)
Lemma endpoint_has_the_prefix (self : SsrSettings) path :
  ∃ rest, api_endpoint self path = api_url self +:+ api_prefix self +:+ rest
    ∧ (str_starts_with (api_prefix self) (rooted path) = false → rest = rooted path).
Proof.
  unfold api_endpoint. destruct (str_starts_with _ _) eqn:E; [|by eexists].
  unfold str_starts_with in E. destruct (strip_prefix _ _) as [rest|] eqn:S; [|done].
  apply strip_prefix_Some in S. exists rest. by rewrite S.
Qed.

(** Of the headers of the page request only the cookie and the identifier
    of the request are sent on; each is the first value of its header. *)
Lemma forwarded (self : ApiClient) req headers :
  req_headers (forward_headers self req headers)
  = req_headers req
    ++ match header_get "cookie" headers with Some c => [("cookie", c)] | None => [] end
    ++ match header_get (request_id_header self) headers with Some i => [(request_id_header self, i)] | None => [] end.
Proof.
  unfold forward_headers. destruct (header_get "cookie" headers), (header_get (request_id_header self) headers); simpl;
    by rewrite <- ?app_assoc, ?app_nil_r.
Qed.
End ClientFacts.

(** A receiver of a form with one part: the lines of its head, and its body. *)
Definition read_multipart (boundary s : string) : option (string * string) :=
  rest ← strip_prefix ("--" +:+ boundary +:+ crlf) s;
  '(head, rest) ← split_first (crlf +:+ crlf) rest;
  '(body, _) ← split_first (crlf +:+ "--" +:+ boundary +:+ "--") rest;
  Some (head, body).

Lemma strip_prefix_short p s t :
  strip_prefix p s = None → (String.length p ≤ String.length s)%nat → strip_prefix p (s +:+ t) = None.
Proof.
  revert s. induction p as [|c p IH]; intros s; [by destruct s|]. destruct s as [|d s]; simpl; [lia|].
  destruct (Ascii.eqb c d); [|done]. intros H Hle. apply IH; [done|lia].
Qed.

Lemma split_first_length p s a b :
  split_first p s = Some (a, b) → (String.length p ≤ String.length s)%nat.
Proof.
  revert a b. induction s as [|c s IH]; intros a b; cbn [split_first].
  - destruct p; [simpl; lia|done].
  - destruct (strip_prefix p (String c s)) as [rest|] eqn:E.
    + intros _. apply strip_prefix_Some in E. rewrite E, SourceMap.string_length_app. lia.
    + destruct (split_first p s) as [[x y]|] eqn:F; [|done]. intros _. specialize (IH _ _ eq_refl). simpl. lia.
Qed.

Lemma split_first_more p s t a b :
  split_first p s = Some (a, b) → split_first p (s +:+ t) = Some (a, b +:+ t).
Proof.
  revert a b. induction s as [|c s IH]; intros a b H.
  - cbn [split_first] in H. destruct p; [|done]. injection H as <- <-. rewrite string_app_nil_l. by destruct t.
  - pose proof (split_first_length _ _ _ _ H) as Hlen. cbn [split_first] in H.
    rewrite string_app_cons. cbn [split_first]. rewrite <- string_app_cons.
    destruct (strip_prefix p (String c s)) as [rest|] eqn:E.
    + injection H as <- <-. apply strip_prefix_Some in E. by rewrite E, string_app_assoc, strip_prefix_app.
    + rewrite (strip_prefix_short _ _ _ E) by done.
      destruct (split_first p s) as [[x y]|] eqn:F; [|done]. injection H as <- <-. by rewrite (IH _ _ eq_refl).
Qed.

(** A text without the first character of the pattern is passed over. *)
Lemma split_first_skip c p a s :
  has_char c a = false →
  split_first (String c p) (a +:+ s) = match split_first (String c p) s with Some (x, y) => Some (a +:+ x, y) | None => None end.
Proof.
  induction a as [|d a IH]; intros H.
  - rewrite string_app_nil_l. by destruct (split_first _ s) as [[x y]|].
  - simpl in H. apply orb_false_iff in H as [Hd Ha]. rewrite string_app_cons. cbn [split_first strip_prefix].
    rewrite Ascii.eqb_sym, Hd, (IH Ha). by destruct (split_first _ s) as [[x y]|].
Qed.

Definition disposition (field_name filename : string) : string :=
  "Content-Disposition: form-data; name=" +:+ char_text dquote +:+ field_name +:+ char_text dquote
  +:+ "; filename=" +:+ char_text dquote +:+ replace_char dquote "_"%char filename +:+ char_text dquote.

Definition octet_stream : string := "Content-Type: application/octet-stream".

Lemma has_char_replace c from to s : Ascii.eqb to c = false → has_char c s = false → has_char c (replace_char from to s) = false.
Proof.
  intros Hto. induction s as [|d s IH]; [done|]. simpl. intros [Hd Hs]%orb_false_iff. rewrite (IH Hs).
  destruct (Ascii.eqb d from); [by rewrite Hto|by rewrite Hd].
Qed.

(** An upload arrives as it was sent: a receiver of the form finds the two
    lines of its head and exactly the bytes of the file, when neither name has a
    carriage return and the bytes do not have the delimiter. *)
Theorem upload_arrives boundary field_name filename bytes :
  has_char (ascii_of_N 13) field_name = false → has_char (ascii_of_N 13) filename = false →
  split_first (crlf +:+ "--" +:+ boundary +:+ "--") (bytes +:+ crlf +:+ "--" +:+ boundary +:+ "--") = Some (bytes, "") →
  read_multipart boundary (multipart_body boundary field_name filename bytes)
  = Some (disposition field_name filename +:+ crlf +:+ octet_stream, bytes).
Proof.
  intros Hfield Hfile Hbytes. unfold read_multipart.
  assert (multipart_body boundary field_name filename bytes
    = ("--" +:+ boundary +:+ crlf)
      +:+ (disposition field_name filename +:+ (crlf +:+ octet_stream +:+ crlf +:+ crlf +:+ bytes +:+ crlf +:+ "--" +:+ boundary +:+ "--" +:+ crlf)))
    as ->.
  { unfold multipart_body, disposition, octet_stream. by rewrite !string_app_assoc. }
  rewrite strip_prefix_app. cbn [mbind option_bind].
  change (crlf +:+ crlf) with (String (ascii_of_N 13) (String (ascii_of_N 10) crlf)) at 1.
  rewrite split_first_skip; [|unfold disposition; rewrite !has_char_app, Hfield, has_char_replace by done; done].
  assert (∀ s, split_first (String (ascii_of_N 13) (String (ascii_of_N 10) crlf)) (crlf +:+ octet_stream +:+ crlf +:+ crlf +:+ s)
    = Some (crlf +:+ octet_stream, s)) as -> by done.
  cbn [mbind option_bind].
  replace (bytes +:+ crlf +:+ "--" +:+ boundary +:+ "--" +:+ crlf)
    with ((bytes +:+ crlf +:+ "--" +:+ boundary +:+ "--") +:+ crlf) by (by rewrite !string_app_assoc).
  by rewrite (split_first_more _ _ _ _ _ Hbytes).
Qed.

Lemma upload_arrives_witness :
  let body := "a" +:+ crlf +:+ "--b" in
  read_multipart "x7" (multipart_body "x7" "file" ("r" +:+ char_text dquote +:+ ".csv") body)
  = Some (disposition "file" "r_.csv" +:+ crlf +:+ octet_stream, body).
Proof. apply (upload_arrives "x7" "file" ("r" +:+ char_text dquote +:+ ".csv") ("a" +:+ crlf +:+ "--b")); by vm_compute. Defined.

(** A line end in the name of the file ends its header. *)
Example a_file_name_adds_a_header :
  read_multipart "x7" (multipart_body "x7" "file" ("r" +:+ crlf +:+ "X: y" +:+ crlf +:+ crlf +:+ "forged") "bytes")
  = Some ("Content-Disposition: form-data; name=" +:+ char_text dquote +:+ "file" +:+ char_text dquote +:+ "; filename="
          +:+ char_text dquote +:+ "r" +:+ crlf +:+ "X: y",
          "forged" +:+ char_text dquote +:+ crlf +:+ octet_stream +:+ crlf +:+ crlf +:+ "bytes").
Proof. by vm_compute. Qed.

(** ** Facts: downloads *)

Section FetchFacts.
Context {Net : Type} `{Http : !FetchHttp Net} `{Urls : !UrlCrate} `{Faults : !DiskFaults}.

(** Attempts that end with a transient status, from the attempt of the first
    number to the one of the second, and what they leave. *)
Inductive retries (url : string) : nat → FetchWorld → nat → FetchWorld → Prop :=
| retries_none n w : retries url n w n w
| retries_one n w resp w1 random w2 m w3 :
    on_net (fetch_get url) w = (Ok resp, w1) → is_success (fr_status resp) = false → is_transient (fr_status resp) = true →
    on_net random_u64 w1 = (random, w2) → retries url (S n) (pause (backoff_millis n random) w2) m w3 →
    retries url n w m w3.

Lemma attempts_spec url attempt more w :
  (attempt + more)%nat = MAX_RETRIES →
  ∃ n w1, retries url attempt w n w1 ∧ (n ≤ MAX_RETRIES)%nat
    ∧ let '(r, w2) := on_net (fetch_get url) w1 in
      match r with
      | Err e => attempts url attempt more w = (Err (FetchHttpError e), w2)
      | Ok resp =>
          if is_success (fr_status resp) then attempts url attempt more w = (Ok resp, w2)
          else
            (is_transient (fr_status resp) = false ∨ n = MAX_RETRIES)
            ∧ attempts url attempt more w
              = (Err (FetchDownload ("HTTP " +:+ fetch_status_text (fr_status resp) +:+ " downloading " +:+ redact_url url
                   +:+ " (after " +:+ show_N (N.of_nat n) +:+ " retries)")), w2)
      end.
Proof.
  revert attempt w. induction more as [|more IH]; intros attempt w Hn; cbn [attempts];
    destruct (on_net (fetch_get url) w) as [[resp|e] w2] eqn:G.
  2,4: exists attempt, w; split; [constructor|]; rewrite G; split; [lia|done].
  all: destruct (is_success (fr_status resp)) eqn:S;
    [exists attempt, w; split; [constructor|]; rewrite G, S; split; [lia|done]|].
  - replace (attempt =? MAX_RETRIES)%nat with true by (symmetry; apply Nat.eqb_eq; lia). rewrite orb_true_r.
    exists attempt, w. split; [constructor|]. rewrite G, S. split; [lia|]. split; [right; lia|done].
  - destruct (is_transient (fr_status resp)) eqn:T.
    + replace (attempt =? MAX_RETRIES)%nat with false by (symmetry; apply Nat.eqb_neq; lia). cbn [negb orb].
      destruct (on_net random_u64 w2) as [random w3] eqn:R.
      destruct (IH (Datatypes.S attempt) (pause (backoff_millis attempt random) w3) ltac:(lia)) as (n & w4 & Hr & Hle & H).
      exists n, w4. split; [by econstructor|done].
    + exists attempt, w. split; [constructor|]. rewrite G, S. split; [lia|]. split; [by left|done].
Qed.

(** A request is repeated after a transient status only and at most three
    times; the answer is the last attempt's own: its response if that is a
    success, and an error that names its status otherwise; the error of a loop
    that ran out never occurs. *)
Theorem retries_are_bounded url w :
  ∃ n w1, retries url 0 w n w1 ∧ (n ≤ 3)%nat
    ∧ let '(r, w2) := on_net (fetch_get url) w1 in
      match r with
      | Err e => send_with_retry url w = (Err (FetchHttpError e), w2)
      | Ok resp =>
          if is_success (fr_status resp) then send_with_retry url w = (Ok resp, w2)
          else
            (is_transient (fr_status resp) = false ∨ n = 3%nat)
            ∧ send_with_retry url w
              = (Err (FetchDownload ("HTTP " +:+ fetch_status_text (fr_status resp) +:+ " downloading " +:+ redact_url url
                   +:+ " (after " +:+ show_N (N.of_nat n) +:+ " retries)")), w2)
      end.
Proof. exact (attempts_spec url 0 MAX_RETRIES w eq_refl). Qed.

(** The pauses double, and have less than a second of noise. *)
Lemma retries_pauses url n w m w' :
  retries url n w m w' →
  (n ≤ m)%nat ∧ disk w' = disk w
  ∧ ∃ ps, pauses w' = pauses w ++ ps
      ∧ Forall2 (λ k p, 2 ^ N.of_nat k * 1000 ≤ p < 2 ^ N.of_nat k * 1000 + 1000)%N (seq n (m - n)) ps.
Proof.
  induction 1 as [n w|n w resp w1 random w2 m w3 G _ _ R _ (Hle & Hdisk & ps & Hps & Hall)].
  - split; [done|]. split; [done|]. exists []. rewrite Nat.sub_diag, app_nil_r. by repeat constructor.
  - unfold on_net in G, R. destruct (fetch_get url (net w)) as [? ?], (random_u64 (net w1)) as [? ?].
    injection G as -> <-. injection R as -> <-. cbn [disk pauses pause] in *.
    split; [lia|]. split; [done|]. exists (backoff_millis n random :: ps).
    split; [by rewrite Hps, <- app_assoc|]. replace (m - n)%nat with (Datatypes.S (m - Datatypes.S n)) by lia.
    cbn [seq]. constructor; [|done]. unfold backoff_millis. pose proof (N.mod_lt random 1000 ltac:(done)) as Hm. revert Hm.
    generalize (2 ^ N.of_nat n)%N, (random mod 1000)%N. intros. lia.
Qed.

Lemma send_keeps_files url w : disk (send_with_retry url w).2 = disk w.
Proof.
  destruct (attempts_spec url 0 MAX_RETRIES w eq_refl) as (n & w1 & Hr & _ & H).
  apply retries_pauses in Hr as (_ & <- & _). unfold send_with_retry, on_net in *.
  destruct (fetch_get url (net w1)) as [[resp|e] net'].
  - destruct (is_success (fr_status resp)); [by rewrite H|destruct H as [_ H]; by rewrite H].
  - by rewrite H.
Qed.

(** What a write leaves: the file grows by the chunks that were written. *)
Lemma write_chunks_spec path chunks n (w : FetchWorld (Net := Net)) content :
  disk w !! path = Some content →
  let '(r, w') := write_chunks path chunks n w in
  (∀ p, p ≠ path → disk w' !! p = disk w !! p)
  ∧ is_Some (disk w' !! path)
  ∧ match r with
    | Ok m => ∃ texts, chunks = List.map Ok texts
        ∧ disk w' !! path = Some (content +:+ string_join "" texts)
        ∧ m = (n + N.of_nat (String.length (string_join "" texts)))%N
    | Err _ => True
    end.
Proof.
  revert n w content. induction chunks as [|[chunk|e] chunks IH]; intros n w content Hc; cbn [write_chunks].
  - destruct (flush_error path); [by split_and!|]. split; [done|]. split; [done|]. exists []. simpl.
    rewrite string_app_nil_r. split_and!; [done|done|lia].
  - rewrite Hc. cbn [default id from_option]. destruct (write_error path content chunk); [by split_and!|].
    specialize (IH (n + N.of_nat (String.length chunk))%N (set_file path (content +:+ chunk) w) (content +:+ chunk)).
    cbn [set_file disk] in IH. specialize (IH (lookup_insert_eq _ _ _)).
    destruct (write_chunks path chunks _ _) as [r w']. destruct IH as (Hother & Hsome & Hr). split.
    { intros p Hp. rewrite Hother by done. by rewrite lookup_insert_ne. }
    split; [done|]. destruct r as [m|]; [|done]. destruct Hr as (texts & -> & Hf & ->). exists (chunk :: texts).
    assert (string_join "" (chunk :: texts) = chunk +:+ string_join "" texts) as ->.
    { destruct texts; [by rewrite string_app_nil_r|done]. }
    split; [done|]. rewrite Hf, string_app_assoc, SourceMap.string_length_app. split; [done|lia].
  - by split_and!.
Qed.
(** What a download promises of the file it names. *)
Definition file_is_here (path : string) (r : result N FetchError) (before after : gmap string string) : Prop :=
  (∀ p, p ≠ path → after !! p = before !! p)
  ∧ (is_Some (before !! path) → is_Some (after !! path))
  ∧ match r with
    | Ok n => ∃ content, after !! path = Some content ∧ n = N.of_nat (String.length content)
    | Err _ => True
    end.

Lemma save_response_spec path resp (w : FetchWorld (Net := Net)) :
  let '(r, w') := save_response path resp w in
  file_is_here path r (disk w) (disk w')
  ∧ match r with
    | Ok n => ∃ texts, fr_chunks resp = List.map Ok texts ∧ disk w' !! path = Some (string_join "" texts)
    | Err _ => True
    end.
Proof.
  unfold save_response. destruct (parent_error path); [by split_and!|]. destruct (create_error path); [by split_and!|].
  pose proof (write_chunks_spec path (fr_chunks resp) 0 (set_file path "" w) "") as H.
  cbn [set_file disk] in H. specialize (H (lookup_insert_eq _ _ _)).
  destruct (write_chunks path (fr_chunks resp) 0 (set_file path "" w)) as [r w']. destruct H as (Hother & Hsome & Hr).
  assert (∀ p, p ≠ path → disk w' !! p = disk w !! p) as Hkeep.
  { intros p Hp. rewrite Hother by done. by rewrite lookup_insert_ne. }
  destruct r as [n|]; [|by split_and!]. destruct Hr as (texts & Ht & Hf & Hn). rewrite string_app_nil_l in Hf.
  split; [split_and!; [done|done|exists (string_join "" texts); split; [done|lia]]|by exists texts].
Qed.

Lemma download_file_here url path overwrite (w : FetchWorld (Net := Net)) :
  let '(r, w') := download_file url path overwrite w in file_is_here path r (disk w) (disk w').
Proof.
  assert (∀ r : result N FetchError, (∀ n, r ≠ Ok n) →
    file_is_here path r (disk w) (disk (send_with_retry url w).2)) as Hfail.
  { intros r Hr. rewrite send_keeps_files. split_and!; [done|done|]. by destruct r as [n|]; [destruct (Hr n)|]. }
  assert (let '(r, w') :=
      match send_with_retry url w with
      | (Err e, w) => (Err e, w)
      | (Ok resp, w) =>
          match is_html resp with
          | Some ct => (Err (FetchDownload ("Server returned HTML instead of data for " +:+ redact_url url +:+ " (content-type: " +:+ ct
                   +:+ "). The URL may require authentication or has changed.")), w)
          | None => save_response path resp w
          end
      end in file_is_here path r (disk w) (disk w')) as Hnew.
  { destruct (send_with_retry url w) as [[resp|e] w1] eqn:E; [|by apply Hfail].
    destruct (is_html resp); [by apply Hfail|].
    pose proof (save_response_spec path resp w1) as H. destruct (save_response path resp w1) as [r w2].
    assert (disk w1 = disk w) as <- by (pose proof (send_keeps_files url w) as Hk; by rewrite E in Hk). apply H. }
  unfold download_file. destruct (disk w !! path) as [content|] eqn:F; [|exact Hnew]. destruct overwrite; [exact Hnew|].
  split_and!; [done|done|by exists content].
Qed.

Definition paths_of (output_dir : string) (files : list DownloadFile) : list string :=
  List.map (λ file, path_join output_dir (df_filename file)) files.

Lemma download_each_spec files output_dir overwrite (w : FetchWorld (Net := Net)) :
  let '(rs, w') := download_each files output_dir overwrite w in
  (∀ p, is_Some (disk w !! p) → is_Some (disk w' !! p))
  ∧ (∀ p, p ∉ paths_of output_dir files → disk w' !! p = disk w !! p)
  ∧ Forall2 (λ path r, ∀ p, r = Ok p → p = path ∧ is_Some (disk w' !! p)) (paths_of output_dir files) rs.
Proof.
  revert w. induction files as [|file files IH]; intros w; cbn [download_each]; [split_and!; [done|done|constructor]|].
  set (path := path_join output_dir (df_filename file)).
  pose proof (download_file_here (df_url file) path overwrite w) as H.
  destruct (download_file (df_url file) path overwrite w) as [r w1]. destruct H as (Hother & Hhere & Hr).
  specialize (IH w1). destruct (download_each files output_dir overwrite w1) as [rs w2]. destruct IH as (Hkeep & Hout & Hall).
  assert (∀ p, is_Some (disk w !! p) → is_Some (disk w1 !! p)) as Hkeep1.
  { intros p Hp. destruct (decide (p = path)) as [->|Hne]; [by apply Hhere|by rewrite Hother]. }
  split; [by intros p Hp; apply Hkeep, Hkeep1|]. split.
  { intros p Hp. cbn [paths_of List.map] in Hp. apply not_elem_of_cons in Hp as [Hp1 Hp2].
    rewrite Hout by done. by apply Hother. }
  constructor; [|done]. intros p. destruct r as [n|e]; simpl; [|done]. intros [= <-]. split; [done|]. apply Hkeep.
  destruct Hr as (content & -> & _). by eexists.
Qed.

(** A manifest that is downloaded is complete: the paths are those of all
    its files, in the order in which they finished, each is a file at the end,
    and whatever the outcome no other file changed. *)
Theorem manifest_is_complete finishing output_dir overwrite (w : FetchWorld (Net := Net)) :
  let '(r, w') := download_manifest finishing output_dir overwrite w in
  (∀ p, p ∉ paths_of output_dir finishing → disk w' !! p = disk w !! p)
  ∧ match r with
    | Ok paths => paths = paths_of output_dir finishing ∧ Forall (λ p, is_Some (disk w' !! p)) paths
    | Err _ => True
    end.
Proof.
  unfold download_manifest. destruct (dir_error output_dir); [done|].
  pose proof (download_each_spec finishing output_dir overwrite w) as H.
  destruct (download_each finishing output_dir overwrite w) as [rs w']. destruct H as (_ & Hout & Hall). split; [done|].
  destruct (rcollect id rs) as [paths|] eqn:E; [|done]. apply rcollect_Ok in E. unfold id in E.
  clear Hout. generalize dependent paths. induction Hall as [|path r l rs Hr _ IH]; intros paths E; inversion E; subst; [done|].
  destruct (Hr _ eq_refl) as [-> Hp]. destruct (IH _ ltac:(eassumption)) as [-> Hps]. split; [done|by constructor].
Qed.

End FetchFacts.

(** ** A small network

    It answers with the responses of a list, and knows no randomness. *)
#[export] Instance scripted : FetchHttp (list FetchResponse) :=
  {| fetch_get := λ _ net, match net with [] => (Err "no route", []) | r :: net => (Ok r, net) end;
     random_u64 := λ net, (250%N, net); fetch_status_text := show_N |}.

#[export] Instance sound_disk : DiskFaults :=
  {| dir_error := λ _, None; parent_error := λ _, None; create_error := λ _, None; write_error := λ _ _ _, None;
     flush_error := λ _, None |}.

Definition busy : FetchResponse := {| fr_status := 503; fr_content_type := None; fr_chunks := [] |}.
Definition good (chunks : list (result string string)) : FetchResponse :=
  {| fr_status := 200; fr_content_type := Some "text/csv"; fr_chunks := chunks |}.

Definition fresh_world (net : list FetchResponse) : FetchWorld := {| net := net; disk := ∅; pauses := [] |}.

Definition run_download (net : list FetchResponse) : result N FetchError * option string * list N :=
  let '(r, w) := download_file (Urls := Small.texts) "http://x/f" "out/f" false (fresh_world net) in
  (r, disk w !! "out/f", pauses w).

Example two_retries :
  run_download [busy; busy; good [Ok "ab"; Ok "c"]] = (Ok 3%N, Some "abc", [1250; 2250]%N).
Proof. by vm_compute. Qed.

Example retries_run_out : (run_download [busy; busy; busy; busy; good []]).1.1
  = Err (FetchDownload "HTTP 503 downloading http://x/f (after 3 retries)").
Proof. by vm_compute. Qed.

(** A transfer that breaks leaves its first part, which the next call takes for
    the file. *)
Example an_interrupted_download_is_taken_for_the_file :
  let '(r1, w1) := download_file (Urls := Small.texts) "http://x/f" "out/f" false
                     (fresh_world [good [Ok "ab"; Err "reset"]; good [Ok "abc"]]) in
  let '(r2, w2) := download_file (Urls := Small.texts) "http://x/f" "out/f" false w1 in
  r1 = Err (FetchHttpError "reset") ∧ r2 = Ok 2%N ∧ disk w2 !! "out/f" = Some "ab".
Proof. by vm_compute. Qed.
