(* ===== verification/Tools.v ===== *)
(** The tools around the repository: the order and the steps of a release
    ([queryfabric-release]), command lines ([queryfabric-cli-toolbelt],
    [queryfabric-cmd-runner]) and the changelog ([queryfabric-changelog]).

    Subprocesses are the class [Commands]: a program, its arguments, and what it
    leaves.  Printing is left out.  The parsers of JSON documents into records
    are arguments. *)
From Stdlib Require Import Ascii QArith.
From stdpp Require Import gmap.
From S2P Require Import Prelude Types BTreeMap Json Suggest Render SqlText Numerals Citation Tokens HostConfig ClickHouseDriver Web.
Local Open Scope result_scope.

(** ** Subprocesses *)

Record Output := {
  out_success : bool;
  out_stdout : string;
  out_stderr : string;
  (** [Display] of the status, and [Debug] of its code. *)
  out_status_text : string;
  out_code : string
}.

(** The directory, the program, its arguments and its input. *)
Class Commands (World : Type) := {
  command : option string → string → list string → option string → state World (result Output string);
  sleep_secs : N → World → World;
  (** Whether an error is one of the wait, and not of the spawn. *)
  is_wait_error : string → bool;
  (** [String::from_utf8_lossy]. *)
  lossy : string → string;
  from_utf8_error : string
}.

(** ** [queryfabric-release/src/main.rs] *)

Section Release.
Context {World Number : Type} `{Cmd : !Commands World}.
#[local] Abbreviation M A := (state World (result A string)).

Record Package := { pk_id : string; pk_name : string; pk_publish : option (list string) }.
Record ResolveNode := { rn_id : string; rn_dependencies : list (Json Number) }.
Record CargoMetadata := { packages : list Package; resolve : list ResolveNode; workspace_members : list string }.

(** [collect] into a [BTreeSet]. *)
Definition bt_set (l : list string) : list string := bt_keys (bt_from_list (List.map (λ x, (x, tt)) l)).

Definition bt_contains (set : list string) (x : string) : bool := existsb (String.eqb x) set.

Definition is_publishable (metadata : CargoMetadata) (package : Package) : bool :=
  bt_contains (bt_set (workspace_members metadata)) (pk_id package)
  && match pk_publish package with None => true | Some registries => negb (is_empty registries) end.

Definition publishable (metadata : CargoMetadata) : list string :=
  bt_set (List.map pk_id (List.filter (is_publishable metadata) (packages metadata))).

Definition package_names (metadata : CargoMetadata) : BTreeMap string string :=
  bt_from_list (List.map (λ package, (pk_id package, pk_name package)) (packages metadata)).

(** The identifier is a text or a field of an object. *)
Definition dependency_id (dependency : Json Number) : option string :=
  option_or_else (as_str dependency) (as_str (json_index dependency "pkg")).

Definition package_dependencies (metadata : CargoMetadata) : BTreeMap string (list string) :=
  bt_from_list (List.map (λ node, (rn_id node, bt_set (omap dependency_id (rn_dependencies node)))) (resolve metadata)).

Definition dependencies_of (dependencies : BTreeMap string (list string)) (package : string) : list string :=
  default [] (bt_get package dependencies).

(** The packages none of whose dependencies remain. *)
Definition ready_of (dependencies : BTreeMap string (list string)) (remaining : list string) : list string :=
  List.filter (λ package,
    (length (List.filter (bt_contains remaining) (dependencies_of dependencies package)) =? 0)%nat) remaining.

Definition bt_remove (set : list string) (x : string) : list string := List.filter (λ y, negb (String.eqb x y)) set.

(** The loop over the packages that are ready: what remains, and the names. *)
Fixpoint take_ready (names : BTreeMap string string) (ready remaining ordered : list string)
    : result (list string * list string) string :=
  match ready with
  | [] => Ok (remaining, ordered)
  | package :: ready =>
      let remaining := bt_remove remaining package in
      let? name := ok_or (bt_get package names) ("missing package name for `" +:+ package +:+ "`") in
      take_ready names ready remaining (ordered ++ [name])
  end.

(** The rounds; [None] when the fuel is not enough. *)
Fixpoint order_packages (fuel : nat) (dependencies : BTreeMap string (list string)) (names : BTreeMap string string)
    (remaining ordered : list string) : option (result (list string) string) :=
  match remaining with
  | [] => Some (Ok ordered)
  | _ :: _ =>
      match fuel with
      | O => None
      | S fuel =>
          let ready := ready_of dependencies remaining in
          if is_empty ready then Some (Err "publishable Cargo packages contain a dependency cycle")
          else
            match take_ready names ready remaining ordered with
            | Err e => Some (Err e)
            | Ok (remaining, ordered) => order_packages fuel dependencies names remaining ordered
            end
      end
  end.

(** What the metadata give; a round for each package is enough. *)
Definition publish_order (metadata : CargoMetadata) : option (result (list string) string) :=
  order_packages (length (publishable metadata)) (package_dependencies metadata) (package_names metadata)
    (publishable metadata) [].

(** [Context::context]: the message, and what caused it. *)
Definition context {A} (message : string) (r : result A string) : result A string :=
  map_err (λ e, message +:+ ": " +:+ e) r.

Context (parse_metadata : string → result CargoMetadata string).

(** [None]: the fuel is not enough, which never happens. *)
Definition publishable_crates (root : string) : state World (option (result (list string) string)) :=
  λ w,
    match command (Some root) "cargo" ["metadata"; "--format-version"; "1"; "--locked"] None w with
    | (Err e, w) => (Some (context "reading Cargo metadata" (Err e)), w)
    | (Ok output, w) =>
        (if negb (out_success output) then
           Some (Err ("cargo metadata failed: " +:+ trim (lossy (out_stderr output))))
         else
           match context "parsing Cargo metadata" (parse_metadata (out_stdout output)) with
           | Err e => Some (Err e)
           | Ok metadata => publish_order metadata
           end, w)
    end.

Definition workspace_root : M string :=
  λ w,
    match command None "git" ["rev-parse"; "--show-toplevel"] None w with
    | (Err e, w) => (context "finding workspace root" (Err e), w)
    | (Ok output, w) => (Ok (trim (lossy (out_stdout output))), w)
    end.

(** A program that must succeed. *)
Definition must_run (root program : string) (args : list string) (failure : string) : M unit :=
  λ w,
    match command (Some root) program args None w with
    | (Err e, w) => (Err e, w)
    | (Ok output, w) => (if out_success output then Ok tt else Err failure, w)
    end.

Definition check_steps : list (string * string * list string) :=
  [("cargo fmt --all --check", "cargo", ["fmt"; "--all"; "--check"]);
   ("cargo clippy --workspace", "cargo", ["clippy"; "--workspace"; "--all-targets"; "--"; "-D"; "warnings"]);
   ("cargo test --workspace", "cargo", ["test"; "--workspace"; "--all-targets"; "--exclude"; "queryfabric-python"])].

Fixpoint run_steps (root : string) (steps : list (string * string * list string)) : M unit :=
  match steps with
  | [] => sret (Ok tt)
  | (step, program, args) :: steps =>
      λ w,
        match must_run root program args (step +:+ " failed") w with
        | (Err e, w) => (Err e, w)
        | (Ok _, w) => run_steps root steps w
        end
  end.

Definition run_check : M unit :=
  λ w, match workspace_root w with (Err e, w) => (Err e, w) | (Ok root, w) => run_steps root check_steps w end.

(** The attempts that are left; ten seconds after each that fails. *)
Fixpoint wait_attempts (left_attempts : nat) (url failure : string) : M unit :=
  match left_attempts with
  | O => sret (Err failure)
  | S n =>
      λ w,
        let '(r, w) := command None "curl" ["--fail"; "--silent"; "--show-error"; url] None w in
        if match r with Ok output => out_success output | Err _ => false end then (Ok tt, w)
        else wait_attempts n url failure (sleep_secs 10 w)
  end.

Definition wait_for_crates_io (crate_name version : string) : M unit :=
  wait_attempts 60 ("https://crates.io/api/v1/crates/" +:+ crate_name +:+ "/" +:+ version)
    (crate_name +:+ " " +:+ version +:+ " did not appear on crates.io in time").

Fixpoint position (x : string) (l : list string) : option nat :=
  match l with
  | [] => None
  | y :: l => if String.eqb y x then Some O else option_map S (position x l)
  end.

Definition manifest_of (root crate_name : string) : string := path_join (path_join (path_join root "crates") crate_name) "Cargo.toml".

(** Publishes each crate and waits for it. *)
Fixpoint publish_each (root version : string) (plan : list string) : M unit :=
  match plan with
  | [] => sret (Ok tt)
  | crate_name :: plan =>
      λ w,
        match must_run root "cargo" ["publish"; "--manifest-path"; manifest_of root crate_name]
                ("publish " +:+ crate_name +:+ " failed") w with
        | (Err e, w) => (Err e, w)
        | (Ok _, w) =>
            match wait_for_crates_io crate_name version w with
            | (Err e, w) => (Err e, w)
            | (Ok _, w) => publish_each root version plan w
            end
        end
  end.

(** [None] is the panic on [plan[0]]; or the fuel, which is enough. *)
Definition run_publish (version : string) (from : option string) (execute : bool) : state World (option (result unit string)) :=
  λ w,
    match workspace_root w with
    | (Err e, w) => (Some (Err e), w)
    | (Ok root, w) =>
        match publishable_crates root w with
        | (None, w) => (None, w)
        | (Some (Err e), w) => (Some (Err e), w)
        | (Some (Ok crates), w) =>
            match match from with
                  | None => Ok O
                  | Some c => ok_or (position c crates) ("unknown crate '" +:+ c +:+ "'")
                  end with
            | Err e => (Some (Err e), w)
            | Ok start_idx =>
                let plan := skipn start_idx crates in
                if execute then let '(r, w) := publish_each root version plan w in (Some r, w)
                else
                  match plan with
                  | [] => (None, w)
                  | crate_name :: _ =>
                      match command (Some root) "cargo"
                              ["publish"; "--manifest-path"; manifest_of root crate_name; "--dry-run"; "--allow-dirty"] None w with
                      | (Err e, w) => (Some (Err e), w)
                      | (Ok _, w) => (Some (Ok tt), w)
                      end
                  end
            end
        end
    end.

Definition run_tag (version : string) : M unit :=
  λ w,
    match workspace_root w with
    | (Err e, w) => (Err e, w)
    | (Ok root, w) => must_run root "git" ["tag"; "-a"; "v" +:+ version; "-m"; "queryfabric " +:+ version] "git tag failed" w
    end.
End Release.

(** ** [queryfabric-cli-toolbelt/src/process.rs] *)

Section Process.
Context {World : Type} `{Cmd : !Commands World}.
#[local] Abbreviation M A := (state World (result A string)).

Definition output_detail (output : Output) : string :=
  let stderr := trim (lossy (out_stderr output)) in
  let stdout := trim (lossy (out_stdout output)) in
  if negb (String.eqb stderr "") then stderr
  else if negb (String.eqb stdout "") then stdout
  else out_status_text output.

(** [run] and [run_refs]. *)
Definition run (root program : string) (args : list string) : M unit :=
  λ w,
    match command (Some root) program args None w with
    | (Err e, w) => (Err e, w)
    | (Ok output, w) =>
        (if out_success output then Ok tt else Err (program +:+ " failed with exit code " +:+ out_code output), w)
    end.

(** [output]; the error is the detail of the failure. *)
Definition output (root program : string) (args : list string) : M string :=
  λ w,
    match command (Some root) program args None w with
    | (Err e, w) => (Err e, w)
    | (Ok output, w) => (if out_success output then Ok (lossy (out_stdout output)) else Err (output_detail output), w)
    end.

Definition output_refs (root program : string) (args : list string) : M string :=
  λ w,
    match command (Some root) program args None w with
    | (Err e, w) => (Err e, w)
    | (Ok output, w) =>
        (if negb (out_success output) then Err (program +:+ " failed: " +:+ output_detail output)
         else if utf8_valid (out_stdout output) then Ok (out_stdout output) else Err from_utf8_error, w)
    end.

Definition run_with_stdin (root program : string) (args : list string) (stdin : string) : M unit :=
  λ w,
    match command (Some root) program args (Some stdin) w with
    | (Err e, w) => (Err e, w)
    | (Ok output, w) =>
        (if out_success output then Ok tt else Err (program +:+ " failed with " +:+ out_status_text output), w)
    end.
End Process.

(** ** [queryfabric-cli-toolbelt/src/repo.rs]

    A directory is the list of its components from the root on, in reverse. *)

Section Repo.
Context (exists_in : list string → string → bool) (display : list string → string).

(** The loop; [pop] fails where no component is left. *)
Fixpoint find_root (markers : list string) (dir : list string) : option (list string) :=
  if forallb (exists_in dir) markers then Some dir
  else match dir with [] => None | _ :: parent => find_root markers parent end.

Definition find_repo_root_from (start : list string) (required_markers : list string) : result (list string) string :=
  ok_or (find_root required_markers start)
    ("Could not find repository root from " +:+ display start +:+ " using markers: " +:+ string_join ", " required_markers).

Definition find_repo_root (current_dir : result (list string) string) (required_markers : list string)
    : result (list string) string :=
  let? cwd := current_dir in find_repo_root_from cwd required_markers.
End Repo.

(** ** [queryfabric-cli-toolbelt/src/k8s.rs] *)

Record ObjectMeta := {
  om_name : option string; om_namespace : option string; om_labels : option (BTreeMap string string); om_uid : option string
}.
Record JobCondition := { jc_type : string; jc_status : string; jc_reason : option string; jc_message : option string }.
Record JobStatus := {
  js_active : option Z; js_succeeded : option Z; js_failed : option Z; js_conditions : option (list JobCondition)
}.
Record Job := { job_metadata : ObjectMeta; job_status : option JobStatus }.
Record ContainerTerminated := { ct_exit_code : Z; ct_reason : option string; ct_message : option string }.
Record ContainerWaiting := { cw_reason : option string; cw_message : option string }.
Record ContainerStateValue {Number : Type} := {
  cs_running : option (Json Number); cs_terminated : option ContainerTerminated; cs_waiting : option ContainerWaiting
}.
Arguments ContainerStateValue : clear implicits.
Record ContainerStatus {Number : Type} := { cst_name : string; cst_ready : bool; cst_state : ContainerStateValue Number }.
Arguments ContainerStatus : clear implicits.
Record PodStatus {Number : Type} := { ps_phase : option string; ps_container_statuses : option (list (ContainerStatus Number)) }.
Arguments PodStatus : clear implicits.
Record Pod {Number : Type} := { pod_metadata : ObjectMeta; pod_status : option (PodStatus Number) }.
Arguments Pod : clear implicits.
Record Secret := { secret_data : option (BTreeMap string string) }.

(** The derived readers of the records, [serde_json], and [base64]. *)
Class K8sFormats (Number : Type) := {
  k8s_json : string → result (Json Number) string;
  jobs_from_value : Json Number → result (list Job) string;
  pods_from_value : Json Number → result (list (Pod Number)) string;
  secret_from_value : Json Number → result Secret string;
  base64_decode : string → result string string
}.

Section K8s.
Context {World Number : Type} `{Cmd : !Commands World} `{Formats : !K8sFormats Number}.
#[local] Abbreviation M A := (state World (result A string)).

Definition kubectl_json (args : list string) : M (Json Number) :=
  λ w,
    match command None "kubectl" args None w with
    | (Err e, w) => (Err ("kubectl not found: " +:+ e), w)
    | (Ok output, w) =>
        (if negb (out_success output) then
           Err ("kubectl " +:+ string_join " " args +:+ " failed: " +:+ lossy (out_stderr output))
         else map_err (λ e, "kubectl JSON parse error: " +:+ e) (k8s_json (out_stdout output)), w)
    end.

(** The items of a list; none where they do not read. *)
Definition items_of {A} (from_value : Json Number → result (list A) string) (args : list string) : M (list A) :=
  λ w,
    let '(r, w) := kubectl_json args w in
    ((let? list := r in Ok (match from_value (json_index list "items") with Ok items => items | Err _ => [] end)), w).

Definition list_jobs (namespace label_selector : string) : M (list Job) :=
  items_of jobs_from_value ["get"; "jobs"; "-n"; namespace; "-l"; label_selector; "-o"; "json"].

Definition delete_jobs (namespace label_selector : string) : M unit :=
  λ w,
    let '(r, w) := kubectl_json ["delete"; "jobs"; "-n"; namespace; "-l"; label_selector; "--ignore-not-found"] w in
    ((let? _value := r in Ok tt), w).

Definition list_pods (namespace job_name : string) : M (list (Pod Number)) :=
  items_of pods_from_value ["get"; "pods"; "-n"; namespace; "-l"; "job-name=" +:+ job_name; "-o"; "json"].

Definition secret_field (name key : string) (value : Json Number) : result string string :=
  let? secret := map_err (λ e, "Secret JSON parse error: " +:+ e) (secret_from_value value) in
  let? data := ok_or (secret_data secret) ("Secret " +:+ name +:+ " has no data") in
  let? encoded := ok_or (bt_get key data) ("Secret " +:+ name +:+ " has no key " +:+ key) in
  let? bytes := map_err (λ e, "base64 decode error: " +:+ e) (base64_decode encoded) in
  if utf8_valid bytes then Ok bytes else Err ("UTF-8 decode error: " +:+ from_utf8_error).

Definition read_secret (namespace name key : string) : M string :=
  λ w,
    let '(r, w) := kubectl_json ["get"; "secret"; "-n"; namespace; name; "-o"; "json"] w in
    (rbind r (secret_field name key), w).
End K8s.

(** 64-bit floats: [parse], a decimal literal, the product, and [as u64]. *)
Class Floats := {
  F64 : Type;
  f64_parse : string → option F64;
  f64_of_Q : Q → F64;
  f64_mul : F64 → F64 → F64;
  f64_as_u64 : F64 → N
}.

(** [str::strip_suffix]. *)
Definition strip_suffix (suffix s : string) : option string :=
  option_map String.rev (strip_prefix (String.rev suffix) (String.rev s)).

Fixpoint split_suffix (suffixes : list string) (value : string) : string * string :=
  match suffixes with
  | [] => (value, "")
  | suffix :: suffixes =>
      match strip_suffix suffix value with Some rest => (rest, suffix) | None => split_suffix suffixes value end
  end.

Definition split_quantity_suffix (value : string) : string * string :=
  split_suffix ["Ti"; "Gi"; "Mi"; "Ki"; "m"; "T"; "G"; "M"; "K"] value.

Definition quantity_multiplier (suffix : string) : option Q :=
  if String.eqb suffix "Ki" then Some (inject_Z 1024)
  else if String.eqb suffix "Mi" then Some (inject_Z (1024 * 1024))
  else if String.eqb suffix "Gi" then Some (inject_Z (1024 * 1024 * 1024))
  else if String.eqb suffix "Ti" then Some (inject_Z (1024 * 1024 * 1024 * 1024))
  else if String.eqb suffix "m" then Some (1 # 1000)%Q
  else if String.eqb suffix "K" then Some (inject_Z 1000)
  else if String.eqb suffix "M" then Some (inject_Z 1000000)
  else if String.eqb suffix "G" then Some (inject_Z 1000000000)
  else if String.eqb suffix "T" then Some (inject_Z 1000000000000)
  else if String.eqb suffix "" then Some (inject_Z 1)
  else None.

Definition parse_quantity `{Fl : !Floats} (value : string) : option N :=
  let value := trim value in
  if String.eqb value "" then None
  else
    let '(num_str, suffix) := split_quantity_suffix value in
    match f64_parse num_str, quantity_multiplier suffix with
    | Some num, Some multiplier => Some (f64_as_u64 (f64_mul num (f64_of_Q multiplier)))
    | _, _ => None
    end.

(** ** [queryfabric-cli-toolbelt/src/auth.rs] *)

Record AuthStore := { auth_token : string; auth_email : string; auth_refresh_token : option string }.

(** [serde_json] of an [AuthStore]. *)
Class AuthFormat := {
  auth_from_str : string → result AuthStore string;
  auth_to_string_pretty : AuthStore → string
}.

Section Auth.
Context `{Auth : !AuthFormat}.
(** The directory of the user's configuration, and the failures of the file system. *)
Context (user_config_dir : option string) (create_dir_failure write_failure remove_failure : string → option string).

Definition config_dir (name : string) : option string := option_map (λ d, path_join d name) user_config_dir.

Definition auth_path (app_name : string) : result string string :=
  let? dir := ok_or (config_dir app_name) "Could not determine config directory" in Ok (path_join dir "auth.json").

Definition load_auth (files : gmap string string) (app_name : string) : result AuthStore string :=
  let? path := auth_path app_name in
  let? data := ok_or (files !! path) ("Not logged in. Run `" +:+ app_name +:+ " auth login` first.") in
  map_err (λ e, "Failed to parse auth.json: " +:+ e) (auth_from_str data).

Definition load_auth_token (environment : string → option string) (files : gmap string string) (app_name env_prefix : string)
    : result string string :=
  match env_var environment (env_prefix +:+ "_AUTH_TOKEN") with
  | Some token => Ok token
  | None => let? a := load_auth files app_name in Ok (auth_token a)
  end.

Definition save_auth (app_name : string) (store : AuthStore) (files : gmap string string)
    : result unit string * gmap string string :=
  match config_dir app_name with
  | None => (Err "Could not determine config directory", files)
  | Some dir =>
      match create_dir_failure dir with
      | Some e => (Err ("Failed to create config dir: " +:+ e), files)
      | None =>
          let path := path_join dir "auth.json" in
          match write_failure path with
          | Some e => (Err ("Failed to write auth.json: " +:+ e), files)
          | None => (Ok tt, <[path := auth_to_string_pretty store]> files)
          end
      end
  end.

Definition remove_auth (app_name : string) (files : gmap string string) : result unit string * gmap string string :=
  match auth_path app_name with
  | Err e => (Err e, files)
  | Ok path =>
      match files !! path with
      | None => (Ok tt, files)
      | Some _ =>
          match remove_failure path with
          | Some e => (Err ("Failed to remove auth.json: " +:+ e), files)
          | None => (Ok tt, delete path files)
          end
      end
  end.
End Auth.

(** ** [queryfabric-cli-toolbelt/src/clickhouse.rs] *)

Record ClickHouseConnArgs := { conn_host : string; conn_port : N; conn_user : string; conn_password : string }.

Definition ClickHouseConnArgs_default : ClickHouseConnArgs :=
  {| conn_host := "localhost"; conn_port := 8123; conn_user := "default"; conn_password := "" |}.

Definition into_url (self : ClickHouseConnArgs) : string :=
  "http://" +:+ conn_host self +:+ ":" +:+ show_N (conn_port self).

Definition conn_from_env (environment : string → option string) : ClickHouseConnArgs :=
  {| conn_host := default "localhost" (environment "CLICKHOUSE_HOST");
     conn_port :=
       default 8123%N
         (match environment "CLICKHOUSE_PORT" with Some v => HostConfig.parse_unsigned (2 ^ 16) v | None => None end);
     conn_user := default "default" (environment "CLICKHOUSE_USER");
     conn_password := default "" (environment "CLICKHOUSE_PASSWORD") |}.

(** ** [queryfabric-cli-toolbelt/src/http.rs] and [flight.rs] *)

Record HttpClient := { hc_user_agent : string; hc_default_headers : list (string * string) }.

(** [build] of a client, and [HeaderValue::from_str]. *)
Class ClientCrates := {
  client_build : HttpClient → result HttpClient string;
  bearer_header : string → result string string;
  debug_text : string → string
}.

Definition http_client_for `{Crates : !ClientCrates} (user_agent : string) : result HttpClient string :=
  map_err (λ e, "build reqwest client for user-agent " +:+ debug_text user_agent +:+ ": " +:+ e)
    (client_build {| hc_user_agent := user_agent; hc_default_headers := [] |}).

Definition auth_client `{Crates : !ClientCrates} (user_agent token : string) : result HttpClient string :=
  let? val :=
    map_err (λ e, "build Authorization header from bearer token: " +:+ e +:+ "; remove control characters from the token")
      (bearer_header ("Bearer " +:+ token)) in
  map_err (λ e, "build authenticated reqwest client for user-agent " +:+ debug_text user_agent +:+ ": " +:+ e)
    (client_build {| hc_user_agent := user_agent; hc_default_headers := [("authorization", val)] |}).

Inductive FlightClientError := FlightTransport (error : string) | FlightGrpc (status : string) | FlightUri (error : string).

Definition flight_client_error_text (e : FlightClientError) : string :=
  match e with
  | FlightTransport e => "Transport error: " +:+ e
  | FlightGrpc e => "gRPC error: " +:+ e
  | FlightUri e => "URI error: " +:+ e
  end.

(** The channel, the limits of the messages in bytes, and the metadata that are
    sent with a request. *)
Record FlightClient {Channel : Type} := {
  fc_channel : Channel;
  fc_max_decoding : option N;
  fc_max_encoding : option N
}.
Arguments FlightClient : clear implicits.

Class FlightCrate (World Channel Frames : Type) := {
  parse_uri : string → result unit string;
  channel_connect : string → state World (result Channel string);
  (** DoGet: the client, the metadata of the request and the ticket. *)
  grpc_do_get : FlightClient Channel → list (string * string) → string → state World (result Frames string)
}.

Section FlightClients.
Context {World Channel Frames : Type} `{Flight : !FlightCrate World Channel Frames}.
#[local] Abbreviation M A := (state World (result A FlightClientError)).

Definition flight_connect (flight_url : string) : M (FlightClient Channel) :=
  λ w,
    match parse_uri flight_url with
    | Err e => (Err (FlightUri e), w)
    | Ok _ =>
        let '(r, w) := channel_connect flight_url w in
        ((let? channel := map_err FlightTransport r in
          Ok {| fc_channel := channel; fc_max_decoding := None; fc_max_encoding := None |}), w)
    end.

Definition connect_with_timeout (flight_url : string) (timeout : N) : M (FlightClient Channel) := flight_connect flight_url.

Definition with_auth (self : FlightClient Channel) (token : string) : FlightClient Channel :=
  {| fc_channel := fc_channel self; fc_max_decoding := Some (64 * 1024 * 1024)%N; fc_max_encoding := Some (64 * 1024 * 1024)%N |}.

Definition do_get (self : FlightClient Channel) (ticket : string) : M Frames :=
  λ w, let '(r, w) := grpc_do_get self [] ticket w in (map_err FlightGrpc r, w).
End FlightClients.

(** ** [queryfabric-cmd-runner/src/lib.rs] and [mcp.rs] *)

Definition DEFAULT_MAX_LINES : nat := 200.

Inductive CmdError :=
| CmdWorkingDirectory (source : string)
| CmdSpawn (program source : string)
| CmdWait (program source : string).

Definition cmd_error_text (e : CmdError) : string :=
  match e with
  | CmdWorkingDirectory _ => "cannot determine working directory"
  | CmdSpawn program _ => "failed to spawn `" +:+ program +:+ "`"
  | CmdWait program _ => "`" +:+ program +:+ "` wait failed"
  end.

(** The duration is the text of the seconds. *)
Record CmdResult := { cmd_success : bool; cmd_duration : string; cmd_output : string; cmd_truncated : bool }.

Definition newline_text : string := String (ascii_of_N 10) "".

Definition combine_output (stdout stderr : string) : string :=
  if String.eqb stderr "" then stdout
  else if String.eqb stdout "" then stderr
  else stdout +:+ newline_text +:+ stderr.

(** The last lines: whether some were dropped, and the text that is kept. *)
Definition keep_tail (max_lines : nat) (combined : string) : bool * string :=
  let ls := HostConfig.lines combined in
  if (max_lines <? length ls)%nat then (true, string_join newline_text (skipn (length ls - max_lines) ls))
  else (false, combined).

Definition run_cmd_with_limit {World} `{Cmd : !Commands World} (current_dir : result string string) (elapsed : string)
    (program : string) (args : list string) (max_lines : nat) : state World (result CmdResult CmdError) :=
  λ w,
    match current_dir with
    | Err source => (Err (CmdWorkingDirectory source), w)
    | Ok root =>
        match command (Some root) program args None w with
        | (Err source, w) =>
            (Err (if is_wait_error source then CmdWait program source else CmdSpawn program source), w)
        | (Ok output, w) =>
            let combined := combine_output (lossy (out_stdout output)) (lossy (out_stderr output)) in
            let '(truncated, kept) := keep_tail max_lines combined in
            (Ok {| cmd_success := out_success output; cmd_duration := elapsed; cmd_output := kept; cmd_truncated := truncated |}, w)
        end
    end.

Definition run_cmd {World} `{Cmd : !Commands World} (current_dir : result string string) (elapsed : string)
    (program : string) (args : list string) : state World (result CmdResult CmdError) :=
  run_cmd_with_limit current_dir elapsed program args DEFAULT_MAX_LINES.

(** Whether it is an error, and the text. *)
Definition format_result (name : string) (result : CmdResult) : bool * string :=
  let status := if cmd_success result then "PASS" else "FAIL" in
  let trunc_note := if cmd_truncated result then " (output truncated to last 200 lines)" else "" in
  let text :=
    "## " +:+ name +:+ ": " +:+ status +:+ "  (" +:+ cmd_duration result +:+ "s)" +:+ trunc_note +:+ newline_text
    +:+ newline_text +:+ "```" +:+ newline_text +:+ cmd_output result +:+ newline_text +:+ "```" in
  (negb (cmd_success result), text).

(** ** [queryfabric-changelog/src] *)

Record VersionBump := { vb_name : string; vb_from : string; vb_to : string }.
Record ImageTagDiff := { it_image : string; it_from : string; it_to : string }.

(** The [regex] crate: a pattern that compiles, and the named groups of each
    match. *)
Class RegexCrate := {
  Regex : Type;
  regex_new : string → option Regex;
  captures_iter : Regex → string → list (string → string)
}.

Section Changelog.
Context {World : Type} `{Cmd : !Commands World} `{Re : !RegexCrate}.

#[local] Abbreviation quote := (char_text dquote).

Definition cargo_pattern : string :=
  "(?-m)^-\s*(?:\w+\.)?(?<name>\w[\w-]*)\s*=\s*" +:+ quote +:+ "(?<from>[^" +:+ quote +:+ "]+)" +:+ quote
  +:+ "\n\+\s*(?:\w+\.)?\k<name>\s*=\s*" +:+ quote +:+ "(?<to>[^" +:+ quote +:+ "]+)" +:+ quote.

Definition uv_pattern : string :=
  "(?m)^-version\s*=\s*" +:+ quote +:+ "(?<from>[^" +:+ quote +:+ "]+)" +:+ quote
  +:+ "\n\+version\s*=\s*" +:+ quote +:+ "(?<to>[^" +:+ quote +:+ "]+)" +:+ quote.

Definition image_pattern : string :=
  "(?m)^-\s*(?:\w+\.)?(?<name>\w+)\s*=\s*" +:+ quote +:+ "(?<from>[^" +:+ quote +:+ "]+)" +:+ quote
  +:+ "\n\+\s*(?:\w+\.)?\k<name>\s*=\s*" +:+ quote +:+ "(?<to>[^" +:+ quote +:+ "]+)" +:+ quote.

(** [None] is the panic of [expect]. *)
Definition scan_diff {A} (pattern : string) (make : (string → string) → A) (diff : string) : option (list A) :=
  match regex_new pattern with
  | None => None
  | Some re => Some (List.map make (captures_iter re diff))
  end.

Definition cargo_version_bumps (diff : string) : option (list VersionBump) :=
  scan_diff cargo_pattern (λ cap, {| vb_name := cap "name"; vb_from := cap "from"; vb_to := cap "to" |}) diff.

Definition uv_version_bumps (diff : string) : option (list VersionBump) :=
  scan_diff uv_pattern (λ cap, {| vb_name := "package"; vb_from := cap "from"; vb_to := cap "to" |}) diff.

Definition image_tag_diffs (diff : string) : option (list ImageTagDiff) :=
  scan_diff image_pattern (λ cap, {| it_image := cap "name"; it_from := cap "from"; it_to := cap "to" |}) diff.

Record ChangelogConfig := {
  versions_nix_path : option string;
  image_repo_url : string → option string
}.

Definition arrow_text : string := " " +:+ String (ascii_of_N 226) (String (ascii_of_N 134) (String (ascii_of_N 146) " ")).

Definition format_bumps (ecosystem : string) (bumps : list VersionBump) : string :=
  string_join newline_text
    (("## " +:+ ecosystem) :: ""
       :: List.map (λ bump, "- `" +:+ vb_name bump +:+ "`: " +:+ vb_from bump +:+ arrow_text +:+ vb_to bump) bumps).

Definition format_images (diffs : list ImageTagDiff) (config : ChangelogConfig) : string :=
  string_join newline_text
    ("## Infrastructure" :: ""
       :: List.map (λ diff,
            let repo := default "" (image_repo_url config (it_image diff)) in
            let repo_note := if String.eqb repo "" then "" else " (" +:+ repo +:+ ")" in
            "- `" +:+ it_image diff +:+ "`: " +:+ it_from diff +:+ arrow_text +:+ it_to diff +:+ repo_note) diffs).

(** [git diff]; its status is not looked at. *)
Definition git_diff (failure bad_text : string) (args : list string) : state World (result string string) :=
  λ w,
    match command None "git" ("diff" :: args) None w with
    | (Err e, w) => (Err (failure +:+ e), w)
    | (Ok output, w) =>
        (if utf8_valid (out_stdout output) then Ok (out_stdout output) else Err (bad_text +:+ from_utf8_error), w)
    end.

(** The section of the changes that were found, if there are some. *)
Definition section_of {A} (format : list A → string) (found : list A) : list string :=
  if is_empty found then [] else [format found].

Definition report_text (sections : list string) : string :=
  if is_empty sections then "No dependency changes detected."
  else string_join (newline_text +:+ newline_text) sections.

(** [None] is the panic. *)
Definition compile_report (config : ChangelogConfig) (base_ref head_ref : string) : state World (option (result string string)) :=
  λ w,
    match git_diff "git diff failed: " "git diff output: " [base_ref; head_ref] w with
    | (Err e, w) => (Some (Err e), w)
    | (Ok diff, w) =>
        match cargo_version_bumps diff with
        | None => (None, w)
        | Some cargo_bumps =>
            match uv_version_bumps diff with
            | None => (None, w)
            | Some uv_bumps =>
                let sections := section_of (format_bumps "Cargo") cargo_bumps ++ section_of (format_bumps "uv/Python") uv_bumps in
                match versions_nix_path config with
                | None => (Some (Ok (report_text sections)), w)
                | Some versions_path =>
                    match git_diff "git diff file failed: " "git diff file output: " [base_ref; head_ref; "--"; versions_path] w with
                    | (Err e, w) => (Some (Err e), w)
                    | (Ok versions_diff, w) =>
                        match image_tag_diffs versions_diff with
                        | None => (None, w)
                        | Some image_diffs =>
                            (Some (Ok (report_text
                               (sections ++ section_of (λ diffs, format_images diffs config) image_diffs))), w)
                        end
                    end
                end
            end
        end
    end.
End Changelog.

(** A GET of a document: the status, and the document of the body. *)
Class JsonHttp (World Number : Type) := {
  http_client : option string;
  http_get_json : string → state World (result (N * result (Json Number) string) string)
}.

Section Resolve.
Context {World Number : Type} `{Http : !JsonHttp World Number}.
#[local] Abbreviation M A := (state World (result A string)).

Definition on_github (url : string) : bool := str_contains url "github.com".

(** The document of a successful response, and what is made of it. *)
Definition resolve_repo (service url : string) (read : Json Number → option string) : M (option string) :=
  λ w,
    match http_client with
    | Some e => (Err ("HTTP client: " +:+ e), w)
    | None =>
        match http_get_json url w with
        | (Err e, w) => (Err (service +:+ " API: " +:+ e), w)
        | (Ok (status, body), w) =>
            (if negb (is_success status) then Ok None
             else let? body := map_err (λ e, service +:+ " JSON: " +:+ e) body in Ok (read body), w)
        end
    end.

Definition github_text (value : Json Number) : option string :=
  match as_str value with Some url => if on_github url then Some url else None | None => None end.

Definition crate_repo (body : Json Number) : option string := github_text (json_index (json_index body "crate") "repository").

Definition resolve_crate_repo (crate_name : string) : M (option string) :=
  resolve_repo "crates.io" ("https://crates.io/api/v1/crates/" +:+ crate_name) crate_repo.

Fixpoint first_github (urls : list (string * Json Number)) : option string :=
  match urls with
  | [] => None
  | (_, value) :: urls => option_or_else (github_text value) (first_github urls)
  end.

Definition pypi_repo (body : Json Number) : option string :=
  let info := json_index body "info" in
  option_or_else
    (match json_index info "project_urls" with JObject urls => first_github urls | _ => None end)
    (github_text (json_index info "home_page")).

Definition resolve_pypi_repo (package_name : string) : M (option string) :=
  resolve_repo "PyPI" ("https://pypi.org/pypi/" +:+ package_name +:+ "/json") pypi_repo.
End Resolve.

Definition image_repo_map : gmap string string :=
  list_to_map
    [("postgres", "https://github.com/docker-library/postgres");
     ("clickhouse", "https://github.com/ClickHouse/ClickHouse");
     ("minio", "https://github.com/minio/minio")].

(** ** Facts: the order of a release *)

Section ReleaseFacts.
Context {Number : Type}.

Lemma bt_contains_elem set x : bt_contains set x = true ↔ x ∈ set.
Proof.
  unfold bt_contains. rewrite existsb_exists. split.
  - intros (y & Hy & Heq). apply String.eqb_eq in Heq as ->. by apply list_elem_of_In.
  - intros Hx. exists x. split; [by apply list_elem_of_In|apply String.eqb_refl].
Qed.

Lemma bt_set_elem l x : x ∈ bt_set l ↔ x ∈ l.
Proof.
  unfold bt_set. induction l as [|y l IH] using rev_ind; [done|].
  rewrite List.map_app. simpl. rewrite bt_from_list_snoc, bt_keys_insert, IH. set_solver.
Qed.

Definition no_dependency (dependencies : BTreeMap string (list string)) (remaining : list string) (package : string) : Prop :=
  Forall (λ d, d ∉ remaining) (dependencies_of dependencies package).

Lemma ready_elem dependencies remaining p :
  p ∈ ready_of dependencies remaining ↔ p ∈ remaining ∧ no_dependency dependencies remaining p.
Proof.
  unfold ready_of, no_dependency. rewrite !list_elem_of_In, filter_In, Nat.eqb_eq. f_equiv.
  induction (dependencies_of dependencies p) as [|d ds IH]; simpl; [done|].
  rewrite Forall_cons, <- IH, <- bt_contains_elem. destruct (bt_contains remaining d); simpl; naive_solver.
Qed.

Definition removes (remaining ready : list string) : list string := foldl bt_remove remaining ready.

Lemma removes_elem remaining ready x : x ∈ removes remaining ready ↔ x ∈ remaining ∧ x ∉ ready.
Proof.
  unfold removes. revert remaining. induction ready as [|y ready IH]; intros remaining; simpl; [set_solver|].
  rewrite IH, not_elem_of_cons. unfold bt_remove. rewrite !list_elem_of_In, filter_In, negb_true_iff, String.eqb_neq.
  naive_solver.
Qed.

Lemma removes_perm remaining ready :
  NoDup ready → (∀ x, x ∈ ready → x ∈ remaining) → NoDup remaining → remaining ≡ₚ ready ++ removes remaining ready.
Proof.
  intros Hr Hsub Hn. apply NoDup_Permutation; [done| |].
  - apply NoDup_app. split; [done|]. split; [intros x Hx Hx'; by apply removes_elem in Hx' as [_ ?]|].
    unfold removes. clear Hr Hsub. revert remaining Hn. induction ready as [|y ready IH]; intros remaining Hn; [done|].
    apply IH. unfold bt_remove. by apply NoDup_ListNoDup, List.NoDup_filter, NoDup_ListNoDup.
  - intros x. rewrite elem_of_app, removes_elem. destruct (decide (x ∈ ready)) as [H|H]; [|naive_solver].
    specialize (Hsub x H). naive_solver.
Qed.

Lemma removes_nodup remaining ready : NoDup remaining → NoDup (removes remaining ready).
Proof.
  unfold removes. revert remaining. induction ready as [|y ready IH]; intros remaining Hn; [done|].
  apply IH. unfold bt_remove. by apply NoDup_ListNoDup, List.NoDup_filter, NoDup_ListNoDup.
Qed.

(** The names of the packages. *)
Definition named (names : BTreeMap string string) (ids ns : list string) : Prop :=
  Forall2 (λ id n, bt_get id names = Some n) ids ns.

Lemma take_ready_spec names ready remaining ordered :
  match take_ready names ready remaining ordered with
  | Ok (rest, out) => ∃ ns, named names ready ns ∧ out = ordered ++ ns ∧ rest = removes remaining ready
  | Err _ => ∃ p, p ∈ ready ∧ bt_get p names = None
  end.
Proof.
  revert remaining ordered. induction ready as [|p ready IH]; intros remaining ordered; cbn [take_ready].
  { exists []. rewrite app_nil_r. by split; [constructor|]. }
  destruct (bt_get p names) as [n|] eqn:E; simpl; [|exists p; set_solver].
  specialize (IH (bt_remove remaining p) (ordered ++ [n])).
  destruct (take_ready names ready _ _) as [[rest out]|e].
  - destruct IH as (ns & Hns & -> & ->). exists (n :: ns). rewrite <- app_assoc. split; [by constructor|done].
  - destruct IH as (q & Hq & H). exists q. set_solver.
Qed.

(** Every package comes after those of its dependencies that are released. *)
Definition dependencies_first (dependencies : BTreeMap string (list string)) (released ids : list string) : Prop :=
  ∀ before p after, ids = before ++ p :: after →
    ∀ d, d ∈ dependencies_of dependencies p → d ∈ released → d ∈ before.

Definition cyclic (dependencies : BTreeMap string (list string)) (released : list string) : Prop :=
  ∃ cycle, cycle ≠ [] ∧ (∀ p, p ∈ cycle → p ∈ released)
    ∧ ∀ p, p ∈ cycle → ∃ d, d ∈ dependencies_of dependencies p ∧ d ∈ cycle.

Lemma ready_first dependencies remaining ids :
  dependencies_first dependencies (removes remaining (ready_of dependencies remaining)) ids →
  dependencies_first dependencies remaining (ready_of dependencies remaining ++ ids).
Proof.
  intros Hids before p after Heq d Hd Hr.
  assert (¬ no_dependency dependencies remaining p) as Hnot.
  { intros Hno. by eapply (proj1 (Forall_forall _ _) Hno). }
  apply app_eq_inv in Heq as [(k & Hready & Htail)|(k & -> & Htail)].
  - destruct k as [|q k]; simpl in Htail.
    + assert (d ∈ ready_of dependencies remaining ∨ d ∈ ([] : list string)) as [H|H]; [|by rewrite app_nil_r in Hready; subst|set_solver].
      destruct (decide (d ∈ ready_of dependencies remaining)) as [H|H]; [by left|right].
      apply (Hids [] p after); [by symmetry|done|by apply removes_elem].
    + injection Htail as <- _. destruct Hnot. apply (ready_elem dependencies remaining p). rewrite Hready. set_solver.
  - destruct (decide (d ∈ ready_of dependencies remaining)) as [H|H]; [set_solver|].
    apply elem_of_app. right. apply (Hids k p after); [done|done|by apply removes_elem].
Qed.

Lemma no_ready_cyclic dependencies remaining :
  remaining ≠ [] → ready_of dependencies remaining = [] → cyclic dependencies remaining.
Proof.
  intros Hne Hready. exists remaining. split; [done|]. split; [done|]. intros p Hp.
  destruct (decide (Forall (λ d, d ∉ remaining) (dependencies_of dependencies p))) as [H|H].
  - assert (p ∈ ready_of dependencies remaining) as Hin by (by apply ready_elem). rewrite Hready in Hin. set_solver.
  - apply not_Forall_Exists in H; [|tc_solve]. apply Exists_exists in H as (d & Hd & Hin). exists d. split; [done|].
    by destruct (decide (d ∈ remaining)).
Qed.

Lemma cyclic_weaken dependencies small large :
  (∀ p, p ∈ small → p ∈ large) → cyclic dependencies small → cyclic dependencies large.
Proof. intros Hsub (c & Hne & Hc & H). exists c. naive_solver. Qed.

Lemma ready_nodup dependencies remaining : NoDup remaining → NoDup (ready_of dependencies remaining).
Proof. intros H. by apply NoDup_ListNoDup, List.NoDup_filter, NoDup_ListNoDup. Qed.

Lemma order_packages_spec fuel dependencies names remaining ordered :
  NoDup remaining → (length remaining ≤ fuel)%nat →
  match order_packages fuel dependencies names remaining ordered with
  | Some (Ok out) =>
      ∃ ids ns, out = ordered ++ ns ∧ named names ids ns ∧ ids ≡ₚ remaining ∧ dependencies_first dependencies remaining ids
  | Some (Err e) =>
      (e = "publishable Cargo packages contain a dependency cycle" ∧ cyclic dependencies remaining)
      ∨ ∃ p, p ∈ remaining ∧ bt_get p names = None
  | None => False
  end.
Proof.
  revert remaining ordered. induction fuel as [|fuel IH]; intros remaining ordered Hn Hf.
  - destruct remaining; [|simpl in Hf; lia]. exists [], []. rewrite app_nil_r.
    split_and!; [done|constructor|done|]. intros before p after H. by destruct before.
  - destruct remaining as [|x xs] eqn:Hrem; cbn [order_packages].
    { exists [], []. rewrite app_nil_r. split_and!; [done|constructor|done|]. intros before p after H. by destruct before. }
    rewrite <- Hrem in *. destruct (is_empty (ready_of dependencies remaining)) eqn:R.
    { left. split; [done|]. apply no_ready_cyclic; [by rewrite Hrem|by destruct (ready_of dependencies remaining)]. }
    pose proof (take_ready_spec names (ready_of dependencies remaining) remaining ordered) as H.
    destruct (take_ready names _ remaining ordered) as [[rest out]|e].
    + destruct H as (ns & Hns & -> & ->).
      pose proof (removes_perm remaining (ready_of dependencies remaining) (ready_nodup _ _ Hn)
                    (λ x Hx, proj1 (proj1 (ready_elem _ _ _) Hx)) Hn) as Hperm.
      assert (length (removes remaining (ready_of dependencies remaining)) ≤ fuel)%nat as Hlen.
      { pose proof (Permutation_length Hperm) as Hl. rewrite length_app in Hl.
        assert (0 < length (ready_of dependencies remaining))%nat by (destruct (ready_of _ _); [done|apply Nat.lt_0_succ]). lia. }
      specialize (IH (removes remaining (ready_of dependencies remaining)) (ordered ++ ns) (removes_nodup _ _ Hn) Hlen).
      destruct (order_packages fuel dependencies names _ _) as [[out|e]|].
      * destruct IH as (ids & ns' & -> & Hnamed & Hids & Hfirst).
        exists (ready_of dependencies remaining ++ ids), (ns ++ ns'). rewrite app_assoc.
        split_and!; [done|by apply Forall2_app|by rewrite Hids|by apply ready_first].
      * destruct IH as [[-> Hc]|(p & Hp & Hnone)].
        -- left. split; [done|]. eapply cyclic_weaken; [|done]. intros p Hp. by apply removes_elem in Hp as [].
        -- right. exists p. split; [by apply removes_elem in Hp as []|done].
      * exact IH.
    + destruct H as (p & Hp & Hnone). right. exists p. split; [by apply ready_elem in Hp as []|done].
Qed.

Lemma bt_set_nodup l : NoDup (bt_set l).
Proof.
  pose proof (bt_wf_from_list (List.map (λ x : string, (x, tt)) l)) as H. unfold bt_wf in H. fold (bt_set l) in H.
  induction H as [|x l' _ IH Hx]; constructor; [|done]. intros Hin. eapply Forall_forall in Hx; [|exact Hin].
  by apply cmp_lt_neq in Hx.
Qed.

(** Every package of the workspace has a name. *)
Lemma publishable_named (metadata : CargoMetadata (Number := Number)) p :
  p ∈ publishable metadata → is_Some (bt_get p (package_names metadata)).
Proof.
  unfold publishable. rewrite bt_set_elem. intros (package & -> & Hin%list_elem_of_In)%list_elem_of_fmap.
  apply filter_In in Hin as [Hin _]. apply bt_get_is_Some. unfold package_names. clear -Hin.
  induction (packages metadata) as [|q l IH] using rev_ind; [done|].
  rewrite List.map_app. simpl. rewrite bt_from_list_snoc, bt_keys_insert. apply in_app_or in Hin as [Hin|[->|[]]]; [right; by apply IH|by left].
Qed.

(** C38: the release order exists exactly where it can: every publishable
    package of the workspace is named once, after all publishable packages it
    depends on, or the error says that some of them depend on each other in a
    cycle, and they do; the loop ends within as many rounds as there are
    packages, and no name is ever missing. *)
Theorem release_order_is_topological (metadata : CargoMetadata (Number := Number)) :
  match publish_order metadata with
  | Some (Ok out) =>
      ∃ ids, named (package_names metadata) ids out ∧ ids ≡ₚ publishable metadata
        ∧ dependencies_first (package_dependencies metadata) (publishable metadata) ids
  | Some (Err e) =>
      e = "publishable Cargo packages contain a dependency cycle"
      ∧ cyclic (package_dependencies metadata) (publishable metadata)
  | None => False
  end.
Proof.
  unfold publish_order.
  pose proof (order_packages_spec (length (publishable metadata)) (package_dependencies metadata) (package_names metadata)
    (publishable metadata) [] (bt_set_nodup _) (le_n _)) as H.
  destruct (order_packages _ _ _ _ _) as [[out|e]|]; [|destruct H as [H|(p & Hp & Hnone)]; [done|]|done].
  - destruct H as (ids & ns & -> & H). by exists ids.
  - apply publishable_named in Hp as [n Hn]. congruence.
Qed.

(** Packages in a cycle are never released. *)
Lemma cyclic_no_order dependencies released ids :
  ids ≡ₚ released → dependencies_first dependencies released ids → ¬ cyclic dependencies released.
Proof.
  intros Hperm Hfirst (cycle & Hne & Hsub & Hdep).
  assert (∀ before after, ids = before ++ after → ∀ p, p ∈ before → p ∉ cycle) as H.
  { induction before as [|q before IH] using rev_ind; [set_solver|]. intros after Heq p.
    rewrite <- app_assoc in Heq. specialize (IH _ Heq). rewrite elem_of_app, list_elem_of_singleton.
    intros [Hp|Hp]; [by apply IH|subst p]. intros Hq.
    destruct (Hdep q Hq) as (d & Hd & Hdc). apply (IH d); [|done]. by apply (Hfirst before q after Heq d Hd), Hsub. }
  destruct cycle as [|p cycle]; [done|]. apply (H ids [] (eq_sym (app_nil_r ids)) p); [|by left]. rewrite Hperm. apply Hsub. by left.
Qed.

End ReleaseFacts.

Definition package (id name : string) (publish : option (list string)) : Package := {| pk_id := id; pk_name := name; pk_publish := publish |}.

Definition node (id : string) (dependencies : list string) : ResolveNode (Number := unit) :=
  {| rn_id := id; rn_dependencies := List.map JString dependencies |}.

Definition small_workspace (extra : list (ResolveNode (Number := unit))) : CargoMetadata (Number := unit) :=
  {| packages := [package "#c" "c" None; package "#a" "a" None; package "#b" "b" None; package "#x" "x" (Some []); package "#o" "o" None];
     resolve := [node "#a" ["#b"; "#x"]; node "#b" ["#c"; "#o"]] ++ extra;
     workspace_members := ["#a"; "#b"; "#c"; "#x"] |}.

Example small_order : publish_order (small_workspace []) = Some (Ok ["c"; "b"; "a"]).
Proof. by vm_compute. Qed.

Example small_cycle :
  publish_order (small_workspace [node "#c" ["#a"]]) = Some (Err "publishable Cargo packages contain a dependency cycle").
Proof. by vm_compute. Qed.

(** ** Facts: the steps of a release *)

Section PublishFacts.
Context {World : Type} `{Cmd : !Commands World}.

(** Crates that are published, each visible before the next is. *)
Inductive published (root version : string) : list string → World → World → Prop :=
| published_nil w : published root version [] w w
| published_cons crate_name crates w w1 w2 w3 :
    must_run root "cargo" ["publish"; "--manifest-path"; manifest_of root crate_name] ("publish " +:+ crate_name +:+ " failed") w
      = (Ok tt, w1) →
    wait_for_crates_io crate_name version w1 = (Ok tt, w2) →
    published root version crates w2 w3 → published root version (crate_name :: crates) w w3.

(** A crate is published only after all before it in the order are
    published and visible: the release stops at the first crate that fails or
    does not appear, and succeeds only with the last one visible. *)
Theorem releases_stop_at_the_first_failure root version plan w :
  let '(r, w') := publish_each root version plan w in
  ∃ done rest w1, plan = done ++ rest ∧ published root version done w w1
    ∧ match r with
      | Ok _ => rest = [] ∧ w' = w1
      | Err e => ∃ crate_name rest', rest = crate_name :: rest'
          ∧ let '(r1, w2) := must_run root "cargo" ["publish"; "--manifest-path"; manifest_of root crate_name]
                               ("publish " +:+ crate_name +:+ " failed") w1 in
            match r1 with
            | Err e1 => e = e1 ∧ w' = w2
            | Ok _ => wait_for_crates_io crate_name version w2 = (Err e, w')
            end
      end.
Proof.
  revert w. induction plan as [|crate_name plan IH]; intros w; cbn [publish_each].
  { exists [], [], w. repeat split; constructor. }
  destruct (must_run root "cargo" _ _ w) as [[[]|e] w1] eqn:P.
  - destruct (wait_for_crates_io crate_name version w1) as [[[]|e] w2] eqn:V.
    + specialize (IH w2). destruct (publish_each root version plan w2) as [r w'].
      destruct IH as (dn & rest & w3 & -> & Hdn & H). exists (crate_name :: dn), rest, w3.
      split; [done|]. split; [by econstructor|done].
    + exists [], (crate_name :: plan), w. split; [done|]. split; [constructor|]. exists crate_name, plan. split; [done|].
      by rewrite P.
  - exists [], (crate_name :: plan), w. split; [done|]. split; [constructor|]. exists crate_name, plan. split; [done|].
    by rewrite P.
Qed.

(** The wait ends: at most as many requests as attempts, ten seconds apart. *)
Lemma wait_attempts_end n url failure w :
  (wait_attempts n url failure w).1 = Ok tt ∨ (wait_attempts n url failure w).1 = Err failure.
Proof.
  revert w. induction n as [|n IH]; intros w; [by right|]. cbn [wait_attempts].
  destruct (command None "curl" _ None w) as [r w1]. destruct (match r with Ok o => out_success o | Err _ => false end); [by left|].
  apply IH.
Qed.
End PublishFacts.

(** ** Facts: the root of a repository *)

Section RepoFacts.
Context (exists_in : list string → string → bool) (display : list string → string).

(** The root that is found is the nearest one: it has all markers, and no
    directory between it and the start has them all; where there is an error no
    directory up to the root of the file system has. *)
Theorem nearest_root_is_found start markers :
  match find_repo_root_from exists_in display start markers with
  | Ok root =>
      ∃ below, start = below ++ root ∧ forallb (exists_in root) markers = true
        ∧ ∀ a b, below = a ++ b → b ≠ [] → forallb (exists_in (b ++ root)) markers = false
  | Err _ => ∀ a b, start = a ++ b → forallb (exists_in b) markers = false
  end.
Proof.
  unfold find_repo_root_from. generalize ("Could not find repository root from " +:+ display start +:+ " using markers: "
    +:+ string_join ", " markers) as message. intros message.
  induction start as [|c start IH]; cbn [find_root]; destruct (forallb (exists_in _) markers) eqn:E; cbn [ok_or] in *.
  - exists []. split_and!; [done|done|]. intros a b H. by destruct a, b.
  - intros a b H. by destruct a, b.
  - exists []. split_and!; [done|done|]. intros a b H. by destruct a, b.
  - destruct (find_root exists_in markers start) as [root|]; cbn [ok_or] in *.
    + destruct IH as (below & -> & Hroot & Hnear). exists (c :: below). split_and!; [done|done|].
      intros [|d a] b H Hb; simplify_eq/=; [done|by eapply Hnear].
    + intros [|d a] b H; simplify_eq/=; [done|by eapply IH].
Qed.
End RepoFacts.

(** ** Facts: credentials *)

Section AuthFacts.
Context `{Auth : !AuthFormat}.
Context (user_config_dir : option string) (create_dir_failure write_failure remove_failure : string → option string).

(** Credentials that are saved are the ones that are loaded, a token of the
    environment that is not empty goes first, and after a removal nobody is
    logged in. *)
Theorem saved_credentials_are_loaded (environment : string → option string) app_name prefix store files files1 :
  auth_from_str (auth_to_string_pretty store) = Ok store →
  save_auth user_config_dir create_dir_failure write_failure app_name store files = (Ok tt, files1) →
  load_auth user_config_dir files1 app_name = Ok store
  ∧ load_auth_token user_config_dir environment files1 app_name prefix
    = Ok (default (auth_token store) (env_var environment (prefix +:+ "_AUTH_TOKEN")))
  ∧ let '(r, files2) := remove_auth user_config_dir remove_failure app_name files1 in
    match r with
    | Ok _ => load_auth user_config_dir files2 app_name = Err ("Not logged in. Run `" +:+ app_name +:+ " auth login` first.")
    | Err _ => files2 = files1
    end.
Proof.
  intros Hlaw. unfold save_auth, load_auth_token, load_auth, remove_auth, auth_path.
  destruct (config_dir user_config_dir app_name) as [dir|]; [|done].
  destruct (create_dir_failure dir); [done|]. destruct (write_failure (path_join dir "auth.json")); [done|].
  intros [= <-]. simpl. rewrite lookup_insert_eq. simpl. rewrite Hlaw. split; [done|]. split.
  { by destruct (env_var environment _). }
  destruct (remove_failure (path_join dir "auth.json")); [done|]. by rewrite lookup_delete_eq.
Qed.
End AuthFacts.

Definition auth_text : AuthFormat :=
  {| auth_to_string_pretty := λ a, auth_token a +:+ " " +:+ auth_email a;
     auth_from_str := λ s,
       match split_first " " s with
       | Some (t, e) => Ok {| auth_token := t; auth_email := e; auth_refresh_token := None |}
       | None => Err "expected value at line 1 column 1"
       end |}.

Lemma saved_credentials_are_loaded_witness :
  let store := {| auth_token := "t"; auth_email := "a@b"; auth_refresh_token := None |} in
  let files1 : gmap string string := (<["/home/u/.config/app/auth.json" := "t a@b"]> ∅) in
  auth_from_str (AuthFormat := auth_text) (auth_to_string_pretty (AuthFormat := auth_text) store) = Ok store
  ∧ save_auth (Auth := auth_text) (Some "/home/u/.config") (λ _, None) (λ _, None) "app" store ∅ = (Ok tt, files1)
  ∧ load_auth (Auth := auth_text) (Some "/home/u/.config") files1 "app" = Ok store.
Proof.
  split; [reflexivity|]. split; [reflexivity|].
  apply (saved_credentials_are_loaded (Auth := auth_text) (Some "/home/u/.config") (λ _, None) (λ _, None) (λ _, None)
    (λ _, None) "app" "APP" {| auth_token := "t"; auth_email := "a@b"; auth_refresh_token := None |} ∅
    (<["/home/u/.config/app/auth.json" := "t a@b"]> ∅)); reflexivity.
Defined.

(** ** Facts: the changelog *)

Section ChangelogFacts.
Context {World : Type} `{Cmd : !Commands World} `{Re : !RegexCrate}.

(** The documented syntax of the crate has no references back to a group. *)
Class NoBackreferences := { backreference_fails p : str_contains p "\k<" = true → regex_new p = None }.

Lemma cargo_bumps_panic `{!NoBackreferences} diff : cargo_version_bumps diff = None.
Proof. unfold cargo_version_bumps, scan_diff. by rewrite backreference_fails by (by vm_compute). Qed.

(** No report is ever made: the pattern for the changes of Cargo refers back
    to a group, which the crate of regular expressions refuses, so that a report
    is an error of git, or the panic. *)
Theorem reports_always_panic `{Laws : !NoBackreferences} config base_ref head_ref w :
  match (compile_report config base_ref head_ref w).1 with
  | Some (Ok _) => False
  | Some (Err e) => ∃ w', git_diff "git diff failed: " "git diff output: " [base_ref; head_ref] w = (Err e, w')
  | None => True
  end.
Proof.
  unfold compile_report. destruct (git_diff _ _ _ w) as [[diff|e] w1]; [|by exists w1].
  by rewrite cargo_bumps_panic.
Qed.
End ChangelogFacts.

(** ** A small machine

    Every program succeeds with this text. *)
Definition says (stdout : string) : Commands unit :=
  {| command := λ _ _ _ _ w,
       (Ok {| out_success := true; out_stdout := stdout; out_stderr := ""; out_status_text := "exit status: 0"; out_code := "Some(0)" |}, w);
     sleep_secs := λ _ w, w; is_wait_error := λ _, false; lossy := λ s, s; from_utf8_error := "invalid utf-8 sequence" |}.

Definition plain_regex : RegexCrate :=
  {| Regex := string; regex_new := λ p, if str_contains p "\k<" then None else Some p; captures_iter := λ _ _, [] |}.

Lemma plain_no_backreferences : NoBackreferences (Re := plain_regex).
Proof. split. intros p H. cbn [regex_new plain_regex]. by rewrite H. Qed.

Lemma reports_always_panic_witness :
  let config := {| versions_nix_path := None; image_repo_url := λ _, None |} in
  (compile_report (Cmd := says "diff --git a/Cargo.toml") (Re := plain_regex) config "v1" "v2" tt).1 = None
  ∧ match (compile_report (Cmd := says "diff --git a/Cargo.toml") (Re := plain_regex) config "v1" "v2" tt).1 with
    | Some (Ok _) => False
    | Some (Err e) => ∃ w', git_diff (Cmd := says "diff --git a/Cargo.toml") "git diff failed: " "git diff output: " ["v1"; "v2"] tt = (Err e, w')
    | None => True
    end.
Proof.
  split; [by vm_compute|].
  apply (reports_always_panic (Cmd := says "diff --git a/Cargo.toml") (Re := plain_regex)
    (Laws := plain_no_backreferences)).
Defined.

(** What [kubectl delete] prints is no JSON document: the jobs are deleted, and
    the call fails. *)
Definition strict_json : K8sFormats unit :=
  {| k8s_json := λ s, if str_starts_with "{" s then Ok (JObject []) else Err "expected value at line 1 column 1";
     jobs_from_value := λ _, Err "missing"; pods_from_value := λ _, Err "missing"; secret_from_value := λ _, Err "missing";
     base64_decode := λ s, Ok s |}.

Example a_deletion_fails_after_it_succeeded :
  (delete_jobs (Cmd := says "job.batch deleted") (Formats := strict_json) "ns" "app=x" tt).1
  = Err "kubectl JSON parse error: expected value at line 1 column 1".
Proof. by vm_compute. Qed.

(** Rational numbers for floats. *)
Definition rationals : Floats :=
  {| F64 := Q; f64_parse := λ s, option_map (λ n, inject_Z (Z.of_N n)) (HostConfig.parse_unsigned (2 ^ 53) s);
     f64_of_Q := λ q, q; f64_mul := Qmult; f64_as_u64 := λ q, Z.to_N (Qnum q / Zpos (Qden q)) |}.

(** Half a core is no millicores, a mebibyte is not one, and a small [k] is no
    suffix. *)
Example quantities :
  parse_quantity (Fl := rationals) "500m" = Some 0%N
  ∧ parse_quantity (Fl := rationals) "64Mi" = Some 67108864%N
  ∧ parse_quantity (Fl := rationals) "2" = Some 2%N
  ∧ parse_quantity (Fl := rationals) "128k" = None.
Proof. by vm_compute. Qed.
