(* ===== verification/Metrics.v ===== *)
(** What services share: the metrics ([queryfabric-prom]), the HTTP routes of
    the job queue ([queryfabric-job-queue/src/router.rs]), the keys of
    [queryfabric-cluster/src/fernet.rs], the start of the swarm ([swarm.rs]) and
    the listener of [queryfabric-tcp-tuned].

    The registry of metrics, its text format, encryption, the swarm and sockets
    are third-party code. *)
From Stdlib Require Import Ascii QArith.
From stdpp Require Import gmap.
From S2P Require Import Prelude Types Render SqlText Json Numerals Tokens JobQueue.
Local Open Scope result_scope.

(** ** Labels: [metrics.rs], [query.rs] *)

(** The derived encoding: the names of the fields and their values. *)
Definition Labels : Type := list (string * string).

Definition HttpLabels (method route status : string) : Labels := [("method", method); ("route", route); ("status", status)].
Definition FlightLabels (operation status : string) : Labels := [("operation", operation); ("status", status)].
Definition TableLabels (operation table : string) : Labels := [("operation", operation); ("table", table)].
Definition OutcomeLabels (outcome : string) : Labels := [("outcome", outcome)].
Definition JobLabels (kind status : string) : Labels := [("kind", kind); ("status", status)].
Definition ProvenanceLabels (activity source status : string) : Labels :=
  [("activity", activity); ("source", source); ("status", status)].
Definition DependencyLabels (dependency : string) : Labels := [("dependency", dependency)].
Definition ClusterHealthLabels (status : string) : Labels := [("status", status)].
Definition ShardCapacityLabels (shard table_family : string) : Labels := [("shard", shard); ("table_family", table_family)].
Definition BuildInfoLabels (service version : string) : Labels := [("service", service); ("version", version)].

Inductive PlanKind := PlanDirect | PlanScatterGather | PlanIsolated.
Inductive Outcome := OutcomeOk | OutcomeError | OutcomeCancelled.

Definition plan_kind_as_str (self : PlanKind) : string :=
  match self with PlanDirect => "direct" | PlanScatterGather => "scatter_gather" | PlanIsolated => "isolated" end.

Definition outcome_as_str (self : Outcome) : string :=
  match self with OutcomeOk => "ok" | OutcomeError => "error" | OutcomeCancelled => "cancelled" end.

Definition QueryLabels (plan_kind : PlanKind) (outcome : Outcome) : Labels :=
  [("plan_kind", plan_kind_as_str plan_kind); ("outcome", outcome_as_str outcome)].

(** ** Families *)

(** [exponential_buckets]: the first bound, the factor and the number. *)
Record Buckets := { bucket_start : Q; bucket_factor : Q; bucket_length : nat }.

Definition latency_histogram : Buckets := {| bucket_start := 1 # 1000; bucket_factor := 2; bucket_length := 18 |}.
Definition job_duration_histogram : Buckets := {| bucket_start := 1 # 10; bucket_factor := 2; bucket_length := 20 |}.
Definition bytes_histogram : Buckets := {| bucket_start := 1024; bucket_factor := 2; bucket_length := 24 |}.
Definition query_duration_histogram : Buckets := {| bucket_start := 1 # 1000; bucket_factor := 5 # 2; bucket_length := 17 |}.
Definition query_memory_histogram : Buckets := {| bucket_start := 1024; bucket_factor := 4; bucket_length := 13 |}.
Definition query_rows_histogram : Buckets := {| bucket_start := 1; bucket_factor := 10; bucket_length := 10 |}.

Fixpoint bounds_from (bound factor : Q) (n : nat) : list Q :=
  match n with O => [] | S n => bound :: bounds_from (bound * factor)%Q factor n end.

Definition bucket_bounds (b : Buckets) : list Q := bounds_from (bucket_start b) (bucket_factor b) (bucket_length b).

Inductive MetricKind := MCounter | MGauge | MFloatGauge | MHistogram (buckets : Buckets).

(** A registry: its prefix, and what is registered. *)
Record MetricsRegistry := { registry_prefix : string; registered : list (string * MetricKind * string) }.

Definition with_prefix (prefix : string) : MetricsRegistry := {| registry_prefix := prefix; registered := [] |}.

Definition register (name help : string) (metric : MetricKind) (self : MetricsRegistry) : MetricsRegistry :=
  {| registry_prefix := registry_prefix self; registered := registered self ++ [(name, metric, help)] |}.

Definition QueryMetrics_register (registry : MetricsRegistry) : MetricsRegistry :=
  let registry := register "query_duration_seconds" "Query wall-clock by plan kind and outcome." (MHistogram query_duration_histogram) registry in
  let registry := register "query_memory_bytes" "Query peak memory by plan kind and outcome." (MHistogram query_memory_histogram) registry in
  register "query_rows_read" "Rows scanned/read by plan kind and outcome." (MHistogram query_rows_histogram) registry.

Definition service_metrics : list (string * MetricKind * string) :=
  [("http_requests_total", MCounter, "HTTP requests handled by the API.");
   ("http_request_duration_seconds", MHistogram latency_histogram, "HTTP request duration.");
   ("http_rate_limited_total", MCounter, "HTTP requests rejected by the per-IP rate limiter.");
   ("http_timeouts_total", MCounter, "HTTP requests that returned a timeout response.");
   ("flight_requests_total", MCounter, "Arrow Flight requests handled by operation and status.");
   ("flight_request_duration_seconds", MHistogram latency_histogram, "Arrow Flight request duration by operation and status.");
   ("flight_active_streams", MGauge, "Active Arrow Flight streams by operation.");
   ("flight_rows_total", MCounter, "Rows moved through Arrow Flight by operation and table.");
   ("flight_bytes_total", MCounter, "Approximate bytes moved through Arrow Flight by operation and table.");
   ("flight_failures_total", MCounter, "Arrow Flight data-plane failures by coarse outcome.");
   ("federation_delegations_total", MCounter, "Federation delegation attempts by outcome.");
   ("federation_delegation_duration_seconds", MHistogram latency_histogram, "Federation delegation duration by outcome.");
   ("federation_remote_rows_total", MCounter, "Rows returned by successful federation delegations.");
   ("federation_contributing_clusters_total", MCounter, "Total contributing cluster observations across federation reads.");
   ("federation_cluster_health", MGauge, "Federation cluster health cache counts by status.");
   ("job_events_total", MCounter, "Query job lifecycle events by kind and status.");
   ("job_state", MGauge, "Current query job state gauges by kind and status.");
   ("job_duration_seconds", MHistogram job_duration_histogram, "Query job duration by kind and final status.");
   ("job_result_bytes", MHistogram bytes_histogram, "Query job result bytes by kind and final status.");
   ("provenance_writes_total", MCounter, "Operational provenance writes by activity, source, and status.");
   ("provenance_last_success_unixtime", MGauge, "Unix timestamp of the latest successful operational provenance write.");
   ("dependency_up", MGauge, "Cached dependency health probe result.");
   ("dependency_probe_duration_seconds", MFloatGauge, "Cached dependency health probe duration.");
   ("dependency_last_success_unixtime", MGauge, "Unix timestamp of latest successful dependency probe.");
   ("shard_capacity_utilization_ratio", MFloatGauge, "Latest shard-capacity utilization ratio by shard and table family.");
   ("build_info", MGauge, "QueryFabric service build information.")].

Definition QueryFabricMetrics_new : MetricsRegistry :=
  let registry := QueryMetrics_register (with_prefix "queryfabric") in
  foldl (λ registry m, register m.1.1 m.2 m.1.2 registry) registry service_metrics.

(** ** Recording

    A family is known by its name; an entry that is not there yet is zero, and
    a histogram is the list of what it observed. *)

Section Recording.
Context {F : Type} (f64_of_u64 : N → F).

Record MetricsState := {
  counters : gmap (string * Labels) N;
  gauges : gmap (string * Labels) Z;
  float_gauges : gmap (string * Labels) F;
  histograms : gmap (string * Labels) (list F)
}.

Definition MetricsState_new : MetricsState := {| counters := ∅; gauges := ∅; float_gauges := ∅; histograms := ∅ |}.

Definition counter_at (s : MetricsState) (name : string) (labels : Labels) : N := default 0%N (counters s !! (name, labels)).
Definition gauge_at (s : MetricsState) (name : string) (labels : Labels) : Z := default 0%Z (gauges s !! (name, labels)).
Definition observed_at (s : MetricsState) (name : string) (labels : Labels) : list F := default [] (histograms s !! (name, labels)).

(** An [AtomicU64] and an [AtomicI64] wrap around. *)
Definition inc_by (name : string) (labels : Labels) (n : N) (s : MetricsState) : MetricsState :=
  {| counters := <[(name, labels) := u64_wrapping_add (counter_at s name labels) n]> (counters s);
     gauges := gauges s; float_gauges := float_gauges s; histograms := histograms s |}.

Definition i64_wrap (z : Z) : Z := ((z + 2 ^ 63) mod 2 ^ 64 - 2 ^ 63)%Z.

Definition set_gauge (name : string) (labels : Labels) (z : Z) (s : MetricsState) : MetricsState :=
  {| counters := counters s; gauges := <[(name, labels) := z]> (gauges s); float_gauges := float_gauges s;
     histograms := histograms s |}.

Definition add_gauge (name : string) (labels : Labels) (z : Z) (s : MetricsState) : MetricsState :=
  set_gauge name labels (i64_wrap (gauge_at s name labels + z)) s.

Definition set_float (name : string) (labels : Labels) (x : F) (s : MetricsState) : MetricsState :=
  {| counters := counters s; gauges := gauges s; float_gauges := <[(name, labels) := x]> (float_gauges s);
     histograms := histograms s |}.

Definition observe (name : string) (labels : Labels) (x : F) (s : MetricsState) : MetricsState :=
  {| counters := counters s; gauges := gauges s; float_gauges := float_gauges s;
     histograms := <[(name, labels) := observed_at s name labels ++ [x]]> (histograms s) |}.

(** Seconds since the epoch, if the clock is not before it. *)
Definition unix_timestamp_seconds (clock : option N) : N := default 0%N clock.

Definition unix_timestamp_seconds_i64 (clock : option N) : Z :=
  let n := unix_timestamp_seconds clock in if (n <? 2 ^ 63)%N then Z.of_N n else (2 ^ 63 - 1)%Z.

Definition record_build_info (service version : string) : MetricsState → MetricsState :=
  set_gauge "build_info" (BuildInfoLabels service version) 1.

Definition record_http_request (method route : string) (status : N) (duration_seconds : F) (s : MetricsState) : MetricsState :=
  let labels := HttpLabels method route (show_N status) in
  let s := inc_by "http_requests_total" labels 1 s in
  let s := observe "http_request_duration_seconds" labels duration_seconds s in
  if (status =? 408)%N then inc_by "http_timeouts_total" [] 1 s else s.

Definition record_rate_limited : MetricsState → MetricsState := inc_by "http_rate_limited_total" [] 1.

Definition record_flight_request (operation status : string) (duration_seconds : F) (s : MetricsState) : MetricsState :=
  let labels := FlightLabels operation status in
  let s := inc_by "flight_requests_total" labels 1 s in
  observe "flight_request_duration_seconds" labels duration_seconds s.

Definition inc_flight_active (operation : string) : MetricsState → MetricsState :=
  add_gauge "flight_active_streams" (FlightLabels operation "active") 1.

Definition dec_flight_active (operation : string) : MetricsState → MetricsState :=
  add_gauge "flight_active_streams" (FlightLabels operation "active") (-1).

Definition add_flight_rows (operation table : string) (rows : N) : MetricsState → MetricsState :=
  inc_by "flight_rows_total" (TableLabels operation table) rows.

Definition add_flight_bytes (operation table : string) (bytes : N) : MetricsState → MetricsState :=
  inc_by "flight_bytes_total" (TableLabels operation table) bytes.

Definition record_flight_failure (outcome : string) : MetricsState → MetricsState :=
  inc_by "flight_failures_total" (OutcomeLabels outcome) 1.

Definition record_federation_delegation (outcome : string) (duration_seconds : F) (s : MetricsState) : MetricsState :=
  let labels := OutcomeLabels outcome in
  let s := inc_by "federation_delegations_total" labels 1 s in
  observe "federation_delegation_duration_seconds" labels duration_seconds s.

Definition add_federation_remote_rows (rows : N) : MetricsState → MetricsState := inc_by "federation_remote_rows_total" [] rows.

Definition add_federation_contributing_clusters (count : N) : MetricsState → MetricsState :=
  inc_by "federation_contributing_clusters_total" [] count.

Definition set_cluster_health (status : string) (count : Z) : MetricsState → MetricsState :=
  set_gauge "federation_cluster_health" (ClusterHealthLabels status) count.

Definition record_job_event (kind status : string) : MetricsState → MetricsState :=
  inc_by "job_events_total" (JobLabels kind status) 1.

Definition set_job_state (kind status : string) (count : Z) : MetricsState → MetricsState :=
  set_gauge "job_state" (JobLabels kind status) count.

Definition observe_job_duration (kind status : string) (duration_seconds : F) : MetricsState → MetricsState :=
  observe "job_duration_seconds" (JobLabels kind status) duration_seconds.

Definition observe_job_result_bytes (kind status : string) (bytes : N) : MetricsState → MetricsState :=
  observe "job_result_bytes" (JobLabels kind status) (f64_of_u64 bytes).

Definition record_provenance_write (clock : option N) (activity source : string) (success : bool) (s : MetricsState) : MetricsState :=
  let status := if success then "success" else "failure" in
  let s := inc_by "provenance_writes_total" (ProvenanceLabels activity source status) 1 s in
  if success then set_gauge "provenance_last_success_unixtime" [] (unix_timestamp_seconds_i64 clock) s else s.

Definition set_dependency_probe (clock : option N) (dependency : string) (up : bool) (duration_seconds : F) (s : MetricsState) : MetricsState :=
  let labels := DependencyLabels dependency in
  let s := set_gauge "dependency_up" labels (if up then 1 else 0) s in
  let s := set_float "dependency_probe_duration_seconds" labels duration_seconds s in
  if up then set_gauge "dependency_last_success_unixtime" labels (unix_timestamp_seconds_i64 clock) s else s.

Definition set_shard_capacity_utilization_ratio (shard table_family : string) (utilization_ratio : F) : MetricsState → MetricsState :=
  set_float "shard_capacity_utilization_ratio" (ShardCapacityLabels shard table_family) utilization_ratio.
End Recording.

(** ** The routes of the job queue: [router.rs], [schema.rs] *)

Record ListJobsQuery := { ljq_status : option JobStatus; ljq_limit : option N; ljq_offset : option N }.
Record ListJobsResponse {T : Type} := { ljr_data : list T; ljr_total : N }.
Arguments ListJobsResponse : clear implicits.
Record ResultContent := { rc_bytes : string; rc_content_type : string; rc_filename : string }.

(** The application behind the routes; [json] is the derived encoding of what
    it returns. *)
Class JobApi (World Uuid Context SubmitRequest SubmitResponse StatusResponse Manifest : Type) := {
  api_submit : Context → SubmitRequest → state World (result SubmitResponse JobQueueError);
  api_list : Context → ListJobsQuery → state World (result (ListJobsResponse StatusResponse) JobQueueError);
  api_job_status : Context → Uuid → state World (result StatusResponse JobQueueError);
  api_cancel : Context → Uuid → state World (result unit JobQueueError);
  api_manifest : Context → Uuid → state World (result Manifest JobQueueError);
  api_result : Context → Uuid → state World (result ResultContent JobQueueError);
  submit_json : SubmitResponse → string;
  list_json : ListJobsResponse StatusResponse → string;
  status_json : StatusResponse → string;
  manifest_json : Manifest → string;
  (** The object of an error: its message and its status. *)
  error_json : string → N → string
}.

Section Routes.
Context {World Uuid Ctx SubmitRequest SubmitResponse StatusResponse Manifest : Type}.
Context `{Api : !JobApi World Uuid Ctx SubmitRequest SubmitResponse StatusResponse Manifest}.
(** [HeaderValue::try_from]. *)
Context (header_value : string → result unit string).

Record Response := { rs_status : N; rs_headers : list (string * string); rs_body : string }.

Definition json_response (status : N) (body : string) : Response :=
  {| rs_status := status; rs_headers := [("content-type", "application/json")]; rs_body := body |}.

Definition into_response (e : JobQueueError) : Response :=
  let status := error_status e in json_response status (error_json (error_message e) status).

(** The requests that reach a handler. *)
Inductive JobRequest :=
| SubmitRoute (body : SubmitRequest)
| ListRoute (query : ListJobsQuery)
| StatusRoute (job_id : Uuid)
| CancelRoute (job_id : Uuid)
| ManifestRoute (job_id : Uuid)
| ResultRoute (job_id : Uuid).

(** A call of the application, and the response to what it returns. *)
Definition respond {A} (m : state World (result A JobQueueError)) (k : A → result Response JobQueueError) : state World Response :=
  λ w, let '(r, w) := m w in (match rbind r k with Ok response => response | Err e => into_response e end, w).

Definition result_response (content : ResultContent) : result Response JobQueueError :=
  let disposition :=
    "attachment; filename=" +:+ char_text dquote +:+ rc_filename content +:+ char_text dquote in
  match (let? _type := header_value (rc_content_type content) in header_value disposition) with
  | Ok _ =>
      Ok {| rs_status := 200;
            rs_headers := [("content-type", rc_content_type content); ("content-disposition", disposition)];
            rs_body := rc_bytes content |}
  | Err e => Err (internal ("failed to build result response: " +:+ e))
  end.

Definition job_routes (context : Ctx) (request : JobRequest) : state World Response :=
  match request with
  | SubmitRoute body => respond (api_submit context body) (λ r, Ok (json_response 201 (submit_json r)))
  | ListRoute query => respond (api_list context query) (λ r, Ok (json_response 200 (list_json r)))
  | StatusRoute job_id => respond (api_job_status context job_id) (λ r, Ok (json_response 200 (status_json r)))
  | CancelRoute job_id => respond (api_cancel context job_id) (λ _, Ok {| rs_status := 204; rs_headers := []; rs_body := "" |})
  | ManifestRoute job_id => respond (api_manifest context job_id) (λ r, Ok (json_response 200 (manifest_json r)))
  | ResultRoute job_id => respond (api_result context job_id) result_response
  end.
End Routes.

(** ** Keys: [fernet.rs] *)

Inductive FernetError :=
| EnvMissing (name : string)
| InvalidJson (var source : string)
| NoKeys (var : string)
| InvalidKey (var : string) (index : nat)
| DecryptionFailed
| NotUtf8 (source : string).

Definition fernet_error_text (e : FernetError) : string :=
  match e with
  | EnvMissing name => "env var " +:+ name +:+ " is not set"
  | InvalidJson var source => "env var " +:+ var +:+ " is not valid JSON: " +:+ source
  | NoKeys var => "env var " +:+ var +:+ " must contain at least one key"
  | InvalidKey var index => var +:+ "[" +:+ show_N (N.of_nat index) +:+ "] is not a valid Fernet key"
  | DecryptionFailed => "decryption failed (token may be from a rotated-out key)"
  | NotUtf8 source => "decrypted plaintext is not valid UTF-8: " +:+ source
  end.

(** The crate: a key, and [MultiFernet] over some; encryption draws on the
    clock and on randomness. *)
Class FernetCrate (Entropy : Type) := {
  Fernet : Type;
  fernet_new : string → option Fernet;
  multi_encrypt : list Fernet → string → state Entropy string;
  multi_decrypt : list Fernet → string → option string;
  (** [serde_json] of a list of texts. *)
  keys_from_str : string → result (list string) string;
  utf8_error : string
}.

Section Keys.
Context {Entropy : Type} `{Crate : !FernetCrate Entropy}.
Context (environment : string → option string).

Fixpoint fernet_keys (env_var : string) (index : nat) (keys : list string) : result (list Fernet) FernetError :=
  match keys with
  | [] => Ok []
  | k :: keys =>
      let? key := ok_or (fernet_new k) (InvalidKey env_var index) in
      let? keys := fernet_keys env_var (S index) keys in
      Ok (key :: keys)
  end.

Definition parse_multi_fernet (env_var keys_json : string) : result (list Fernet) FernetError :=
  let? keys := map_err (InvalidJson env_var) (keys_from_str keys_json) in
  if is_empty keys then Err (NoKeys env_var) else fernet_keys env_var 0 keys.

Definition load_multi_fernet (env_var : string) : result (list Fernet) FernetError :=
  let? keys_json := ok_or (environment env_var) (EnvMissing env_var) in
  parse_multi_fernet env_var keys_json.

Definition encrypt (env_var plaintext : string) : state Entropy (result string FernetError) :=
  match load_multi_fernet env_var with
  | Err e => sret (Err e)
  | Ok mf => λ s, let '(token, s) := multi_encrypt mf plaintext s in (Ok token, s)
  end.

Definition decrypt (env_var token : string) : result string FernetError :=
  let? mf := load_multi_fernet env_var in
  let? plaintext := ok_or (multi_decrypt mf token) DecryptionFailed in
  if utf8_valid plaintext then Ok plaintext else Err (NotUtf8 utf8_error).
End Keys.

(** ** The swarm: [swarm.rs] *)

Record SwarmConfig := { listen_address : option string; bootstrap_multiaddrs : list string; enable_mdns : bool }.

Definition SwarmConfig_default : SwarmConfig := {| listen_address := None; bootstrap_multiaddrs := []; enable_mdns := true |}.

Class SwarmCrate (World : Type) := {
  PeerId : Type;
  swarm_bootstrap : state World (result PeerId string);
  swarm_bootstrap_on : string → state World (result PeerId string)
}.

Definition bootstrap_swarm {World} `{Swarm : !SwarmCrate World} (role : string) (config : SwarmConfig)
    : state World (result PeerId string) :=
  match listen_address config with
  | Some addr => swarm_bootstrap_on addr
  | None => swarm_bootstrap
  end.

(** ** The listener: [queryfabric-tcp-tuned/src/lib.rs] *)

Inductive SocketCall :=
| SocketNew (ipv6 : bool)
| SetReuseAddress (on : bool)
| SetNonblocking (on : bool)
| SetTcpNodelay (on : bool)
| SetSendBufferSize (bytes : N)
| SetRecvBufferSize (bytes : N)
| SocketBind (addr : string)
| SocketListen (backlog : N).

(** The calls one after the other, up to the first that fails. *)
Fixpoint socket_calls {World} (call : SocketCall → state World (result unit string)) (calls : list SocketCall)
    : state World (result unit string) :=
  match calls with
  | [] => sret (Ok tt)
  | c :: calls => λ w, match call c w with (Ok _, w) => socket_calls call calls w | (Err e, w) => (Err e, w) end
  end.

Definition tuned_tcp_listener {World} (call : SocketCall → state World (result unit string)) (is_ipv6 : string → bool)
    (addr : string) : state World (result unit string) :=
  socket_calls call
    [SocketNew (is_ipv6 addr); SetReuseAddress true; SetNonblocking true; SetTcpNodelay true;
     SetSendBufferSize (2 * 1024 * 1024); SetRecvBufferSize (2 * 1024 * 1024); SocketBind addr; SocketListen 1024].

(** ** Facts: what is counted *)

Section Counts.
Context {F : Type} (f64_of_u64 : N → F).

(** The calls that record something. *)
Inductive Event :=
| EvBuildInfo (service version : string)
| EvHttp (method route : string) (status : N) (seconds : F)
| EvRateLimited
| EvFlight (operation status : string) (seconds : F)
| EvIncActive (operation : string)
| EvDecActive (operation : string)
| EvFlightRows (operation table : string) (rows : N)
| EvFlightBytes (operation table : string) (bytes : N)
| EvFlightFailure (outcome : string)
| EvDelegation (outcome : string) (seconds : F)
| EvRemoteRows (rows : N)
| EvContributing (count : N)
| EvClusterHealth (status : string) (count : Z)
| EvJob (kind status : string)
| EvJobState (kind status : string) (count : Z)
| EvJobDuration (kind status : string) (seconds : F)
| EvJobBytes (kind status : string) (bytes : N)
| EvProvenance (clock : option N) (activity source : string) (success : bool)
| EvDependency (clock : option N) (dependency : string) (up : bool) (seconds : F)
| EvShard (shard table_family : string) (ratio : F).

Definition record_event (s : MetricsState (F := F)) (e : Event) : MetricsState (F := F) :=
  match e with
  | EvBuildInfo a b => record_build_info a b s
  | EvHttp m r st d => record_http_request m r st d s
  | EvRateLimited => record_rate_limited s
  | EvFlight o st d => record_flight_request o st d s
  | EvIncActive o => inc_flight_active o s
  | EvDecActive o => dec_flight_active o s
  | EvFlightRows o t n => add_flight_rows o t n s
  | EvFlightBytes o t n => add_flight_bytes o t n s
  | EvFlightFailure o => record_flight_failure o s
  | EvDelegation o d => record_federation_delegation o d s
  | EvRemoteRows n => add_federation_remote_rows n s
  | EvContributing n => add_federation_contributing_clusters n s
  | EvClusterHealth st c => set_cluster_health st c s
  | EvJob k st => record_job_event k st s
  | EvJobState k st c => set_job_state k st c s
  | EvJobDuration k st d => observe_job_duration k st d s
  | EvJobBytes k st n => observe_job_result_bytes f64_of_u64 k st n s
  | EvProvenance c a so ok => record_provenance_write c a so ok s
  | EvDependency c d up x => set_dependency_probe c d up x s
  | EvShard sh t x => set_shard_capacity_utilization_ratio sh t x s
  end.

Definition record_events (events : list Event) : MetricsState (F := F) := foldl record_event MetricsState_new events.

Lemma record_events_snoc events e : record_events (events ++ [e]) = record_event (record_events events) e.
Proof. unfold record_events. by rewrite foldl_app. Qed.

Lemma counter_at_inc name labels n (s : MetricsState (F := F)) name' labels' :
  counter_at (inc_by name labels n s) name' labels'
  = if decide ((name, labels) = (name', labels')) then u64_wrapping_add (counter_at s name labels) n
    else counter_at s name' labels'.
Proof. unfold counter_at at 1. simpl. case_decide as E; [by rewrite E, lookup_insert_eq|by rewrite lookup_insert_ne]. Qed.

Lemma observed_at_observe name labels x (s : MetricsState (F := F)) name' labels' :
  observed_at (observe name labels x s) name' labels'
  = if decide ((name, labels) = (name', labels')) then observed_at s name labels ++ [x] else observed_at s name' labels'.
Proof. unfold observed_at at 1. simpl. case_decide as E; [by rewrite E, lookup_insert_eq|by rewrite lookup_insert_ne]. Qed.

Lemma gauge_at_set name labels z (s : MetricsState (F := F)) name' labels' :
  gauge_at (set_gauge name labels z s) name' labels'
  = if decide ((name, labels) = (name', labels')) then z else gauge_at s name' labels'.
Proof. unfold gauge_at at 1. simpl. case_decide as E; [by rewrite E, lookup_insert_eq|by rewrite lookup_insert_ne]. Qed.

(** The other tables of the state are not touched. *)
Lemma counter_at_observe name labels x (s : MetricsState (F := F)) n l : counter_at (observe name labels x s) n l = counter_at s n l.
Proof. done. Qed.
Lemma counter_at_gauge name labels z (s : MetricsState (F := F)) n l : counter_at (set_gauge name labels z s) n l = counter_at s n l.
Proof. done. Qed.
Lemma counter_at_float name labels x (s : MetricsState (F := F)) n l : counter_at (set_float name labels x s) n l = counter_at s n l.
Proof. done. Qed.
Lemma observed_at_inc name labels x (s : MetricsState (F := F)) n l : observed_at (inc_by name labels x s) n l = observed_at s n l.
Proof. done. Qed.
Lemma observed_at_gauge name labels z (s : MetricsState (F := F)) n l : observed_at (set_gauge name labels z s) n l = observed_at s n l.
Proof. done. Qed.
Lemma observed_at_float name labels x (s : MetricsState (F := F)) n l : observed_at (set_float name labels x s) n l = observed_at s n l.
Proof. done. Qed.
Lemma gauge_at_inc name labels x (s : MetricsState (F := F)) n l : gauge_at (inc_by name labels x s) n l = gauge_at s n l.
Proof. done. Qed.
Lemma gauge_at_observe name labels x (s : MetricsState (F := F)) n l : gauge_at (observe name labels x s) n l = gauge_at s n l.
Proof. done. Qed.
Lemma gauge_at_float name labels x (s : MetricsState (F := F)) n l : gauge_at (set_float name labels x s) n l = gauge_at s n l.
Proof. done. Qed.

(** The durations of the requests with these labels. *)
Definition http_durations (labels : Labels) (events : list Event) : list F :=
  omap (λ e, match e with
             | EvHttp m r st d => if decide (HttpLabels m r (show_N st) = labels) then Some d else None
             | _ => None
             end) events.

Definition timeouts (events : list Event) : N :=
  N.of_nat (length (List.filter (λ e, match e with EvHttp _ _ st _ => (st =? 408)%N | _ => false end) events)).

End Counts.

Create Rewrite HintDb metrics.
#[export] Hint Rewrite @counter_at_inc @observed_at_observe @gauge_at_set @counter_at_observe @counter_at_gauge @counter_at_float
  @observed_at_inc @observed_at_gauge @observed_at_float @gauge_at_inc @gauge_at_observe @gauge_at_float : metrics.

(** One event, at one entry. *)
Ltac entry := autorewrite with metrics; repeat case_decide; simplify_eq/=.

Section CountFacts.
Context {F : Type} (f64_of_u64 : N → F).
#[local] Abbreviation after := (record_events f64_of_u64).

Ltac one_event :=
  cbv [record_event record_build_info record_http_request record_rate_limited record_flight_request inc_flight_active
    dec_flight_active add_flight_rows add_flight_bytes record_flight_failure record_federation_delegation
    add_federation_remote_rows add_federation_contributing_clusters set_cluster_health record_job_event set_job_state
    observe_job_duration observe_job_result_bytes record_provenance_write set_dependency_probe
    set_shard_capacity_utilization_ratio add_gauge];
  repeat match goal with |- context [if ?b then _ else _] => first [is_var b | match b with (_ =? 408)%N => idtac end]; destruct b end;
  cbv beta zeta.

Lemma wrapping_add_mod a n : u64_wrapping_add (a mod 2 ^ 64) n = ((a + n) mod 2 ^ 64)%N.
Proof. unfold u64_wrapping_add. by rewrite N.Div0.add_mod_idemp_l. Qed.

Lemma http_durations_recorded m r st d (s : MetricsState (F := F)) labels :
  observed_at (record_http_request m r st d s) "http_request_duration_seconds" labels
  = if decide (HttpLabels m r (show_N st) = labels) then observed_at s "http_request_duration_seconds" labels ++ [d]
    else observed_at s "http_request_duration_seconds" labels.
Proof. unfold record_http_request. destruct (st =? 408)%N; entry; congruence. Qed.

Lemma http_requests_counted m r st d (s : MetricsState (F := F)) labels :
  counter_at (record_http_request m r st d s) "http_requests_total" labels
  = if decide (HttpLabels m r (show_N st) = labels) then u64_wrapping_add (counter_at s "http_requests_total" labels) 1
    else counter_at s "http_requests_total" labels.
Proof. unfold record_http_request. destruct (st =? 408)%N; entry; congruence. Qed.

Lemma http_timeouts_counted m r st d (s : MetricsState (F := F)) :
  counter_at (record_http_request m r st d s) "http_timeouts_total" []
  = if (st =? 408)%N then u64_wrapping_add (counter_at s "http_timeouts_total" []) 1 else counter_at s "http_timeouts_total" [].
Proof. unfold record_http_request. destruct (st =? 408)%N; by entry. Qed.

Lemma count_wraps c n : c = (N.of_nat n mod 2 ^ 64)%N → u64_wrapping_add c 1 = (N.of_nat (n + 1) mod 2 ^ 64)%N.
Proof. intros ->. rewrite wrapping_add_mod. f_equal. lia. Qed.

Lemma http_event_agrees events labels m r st d :
  observed_at (after events) "http_request_duration_seconds" labels = http_durations labels events →
  counter_at (after events) "http_requests_total" labels = (N.of_nat (length (http_durations labels events)) mod 2 ^ 64)%N →
  counter_at (after events) "http_timeouts_total" [] = (timeouts events mod 2 ^ 64)%N →
  let s := record_http_request m r st d (after events) in
  observed_at s "http_request_duration_seconds" labels = http_durations labels (events ++ [EvHttp m r st d])
  ∧ counter_at s "http_requests_total" labels
    = (N.of_nat (length (http_durations labels (events ++ [EvHttp m r st d]))) mod 2 ^ 64)%N
  ∧ counter_at s "http_timeouts_total" [] = (timeouts (events ++ [EvHttp m r st d]) mod 2 ^ 64)%N.
Proof.
  intros IHo IHc IHt s. subst s. rewrite http_durations_recorded, http_requests_counted, http_timeouts_counted, IHo.
  unfold http_durations, timeouts in *. rewrite omap_app, List.filter_app, !List.length_app. cbn [omap list_omap List.filter].
  split_and!.
  - case_decide; simpl; by rewrite ?app_nil_r.
  - case_decide; cbn [length]; [by apply count_wraps|by rewrite Nat.add_0_r].
  - destruct (st =? 408)%N; cbn [length]; [by apply count_wraps|by rewrite Nat.add_0_r].
Qed.

(** C39: the metrics of HTTP agree with the requests: after any calls, for every
    method, route and status, the histogram has the durations of exactly these
    requests, in their order, the counter their number, and the counter of
    timeouts the number of requests that ended with 408, both modulo 2^64. *)
Theorem http_metrics_agree events labels :
  observed_at (after events) "http_request_duration_seconds" labels = http_durations labels events
  ∧ counter_at (after events) "http_requests_total" labels
    = (N.of_nat (length (http_durations labels events)) mod 2 ^ 64)%N
  ∧ counter_at (after events) "http_timeouts_total" [] = (timeouts events mod 2 ^ 64)%N.
Proof.
  induction events as [|e events (IHo & IHc & IHt)] using rev_ind; [done|]. rewrite record_events_snoc.
  destruct e as [| m r st d | | | | | | | | | | | | | | | | | | ];
    [|by apply http_event_agrees|..];
    unfold http_durations, timeouts in *; rewrite omap_app, List.filter_app; simpl; rewrite !app_nil_r; one_event; by entry.
Qed.

(** The streams that were begun, less those that were ended. *)
Definition active_delta (operation : string) (e : Event (F := F)) : Z :=
  match e with
  | EvIncActive o => if String.eqb o operation then 1 else 0
  | EvDecActive o => if String.eqb o operation then -1 else 0
  | _ => 0
  end.

Definition active_balance (operation : string) (events : list Event) : Z :=
  foldl (λ n e, n + active_delta operation e)%Z 0%Z events.

Lemma i64_wrap_add a z : i64_wrap (i64_wrap a + z) = i64_wrap (a + z).
Proof.
  unfold i64_wrap. replace (((a + 2 ^ 63) mod 2 ^ 64 - 2 ^ 63 + z + 2 ^ 63))%Z with ((a + 2 ^ 63) mod 2 ^ 64 + z)%Z by lia.
  rewrite Z.add_mod_idemp_l by done. f_equal. f_equal. lia.
Qed.

Lemma active_gauge_moved operation o z (s : MetricsState (F := F)) :
  gauge_at (add_gauge "flight_active_streams" (FlightLabels o "active") z s) "flight_active_streams" (FlightLabels operation "active")
  = if String.eqb o operation
    then i64_wrap (gauge_at s "flight_active_streams" (FlightLabels operation "active") + z)
    else gauge_at s "flight_active_streams" (FlightLabels operation "active").
Proof. unfold add_gauge. rewrite gauge_at_set. destruct (String.eqb_spec o operation) as [->|Hne].
  - by rewrite decide_True.
  - rewrite decide_False; [done|]. unfold FlightLabels. congruence.
Qed.

(** The gauge of active streams is the balance of the streams that were begun
    and ended, and no other call moves it. *)
Lemma active_streams_balance events operation :
  gauge_at (after events) "flight_active_streams" (FlightLabels operation "active") = i64_wrap (active_balance operation events).
Proof.
  induction events as [|e events IH] using rev_ind; [done|]. rewrite record_events_snoc.
  unfold active_balance in *. rewrite foldl_app. cbn [foldl].
  destruct e; cbn [active_delta record_event]; rewrite ?Z.add_0_r;
    try (unfold inc_flight_active, dec_flight_active; rewrite active_gauge_moved; destruct (String.eqb _ _); rewrite ?Z.add_0_r;
         [rewrite IH; apply i64_wrap_add|exact IH]);
    rewrite <- IH; clear IH; one_event; by entry.
Qed.
End CountFacts.

(** No two families have one name, so that an entry belongs to one family. *)
Lemma metric_names_distinct : NoDup (List.map (λ m, m.1.1) (registered QueryFabricMetrics_new)).
Proof. apply (bool_decide_unpack _). by vm_compute. Qed.

(** ** Facts: keys *)

Section KeyFacts.
Context {Entropy : Type} `{Crate : !FernetCrate Entropy}.

(** The documented behaviour of [MultiFernet]: the first key encrypts, and any
    of the keys decrypts. *)
Class FernetLaws := {
  decrypts k ks ks' plaintext s : k ∈ ks' → multi_decrypt ks' (multi_encrypt (k :: ks) plaintext s).1 = Some plaintext
}.

Lemma fernet_keys_spec var index keys :
  match fernet_keys var index keys with
  | Ok ks => Forall2 (λ k key, fernet_new k = Some key) keys ks
  | Err e => ∃ i k, e = InvalidKey var (index + i) ∧ keys !! i = Some k ∧ fernet_new k = None
      ∧ Forall (λ k, is_Some (fernet_new k)) (firstn i keys)
  end.
Proof.
  revert index. induction keys as [|k keys IH]; intros index; cbn [fernet_keys]; [constructor|].
  destruct (fernet_new k) as [key|] eqn:K; simpl.
  - specialize (IH (S index)). destruct (fernet_keys var (S index) keys) as [ks|e]; simpl; [by constructor|].
    destruct IH as (i & k' & -> & Hi & Hk & Hall). exists (S i), k'. rewrite Nat.add_succ_comm.
    split_and!; [done|done|done|]. simpl. constructor; [by eexists|done].
  - exists O, k. rewrite Nat.add_0_r. split_and!; [done|done|done|constructor].
Qed.

(** A token outlives the rotation of its key: what is encrypted under one
    setting of the keys decrypts to the same text under any later setting that
    still has its first key, wherever that key stands and whatever the others
    are. *)
Theorem tokens_survive_rotation `{Laws : !FernetLaws} (old_env new_env : string → option string) var k ks ks' plaintext s :
  load_multi_fernet old_env var = Ok (k :: ks) → load_multi_fernet new_env var = Ok ks' → k ∈ ks' → utf8_valid plaintext = true →
  ∃ token s', encrypt old_env var plaintext s = (Ok token, s') ∧ decrypt new_env var token = Ok plaintext.
Proof.
  intros Hold Hnew Hin Hutf. unfold encrypt, decrypt. rewrite Hold, Hnew. simpl.
  pose proof (decrypts k ks ks' plaintext s Hin) as Hd.
  destruct (multi_encrypt (k :: ks) plaintext s) as [token s']. exists token, s'. split; [done|]. simpl in Hd. rewrite Hd. simpl.
  by rewrite Hutf.
Qed.
End KeyFacts.

(** Keys of one character, which is the first of a token. *)
Definition letter_keys : FernetCrate unit :=
  {| Fernet := ascii;
     fernet_new := λ s, match s with String c EmptyString => Some c | _ => None end;
     multi_encrypt := λ ks p s, (match ks with c :: _ => String c p | [] => p end, s);
     multi_decrypt := λ ks token, match token with String c p => if bool_decide (c ∈ ks) then Some p else None | EmptyString => None end;
     keys_from_str := λ s, Ok (split_char ","%char s);
     utf8_error := "invalid utf-8 sequence" |}.

Lemma letter_laws : FernetLaws (Crate := letter_keys).
Proof. split. intros k ks ks' p s H. simpl. by rewrite bool_decide_true. Qed.

Lemma tokens_survive_rotation_witness :
  load_multi_fernet (Crate := letter_keys) (λ _, Some "a") "KEYS" = Ok ["a"%char]
  ∧ load_multi_fernet (Crate := letter_keys) (λ _, Some "b,a") "KEYS" = Ok ["b"%char; "a"%char]
  ∧ ∃ token s', encrypt (Crate := letter_keys) (λ _, Some "a") "KEYS" "secret" tt = (Ok token, s')
      ∧ decrypt (Crate := letter_keys) (λ _, Some "b,a") "KEYS" token = Ok "secret".
Proof.
  split; [done|]. split; [done|].
  apply (tokens_survive_rotation (Crate := letter_keys) (Laws := letter_laws) (λ _, Some "a") (λ _, Some "b,a") "KEYS"
    "a"%char [] ["b"%char; "a"%char] "secret" tt); [done|done|set_solver|done].
Defined.

(** ** Facts: responses *)

Section RouteFacts.
Context {World Uuid Ctx SubmitRequest SubmitResponse StatusResponse Manifest : Type}.
Context `{Api : !JobApi World Uuid Ctx SubmitRequest SubmitResponse StatusResponse Manifest}.
Context (header_value : string → result unit string).

Definition success_status (request : JobRequest (Uuid := Uuid) (SubmitRequest := SubmitRequest)) : N :=
  match request with SubmitRoute _ => 201 | CancelRoute _ => 204 | _ => 200 end.

(** Every request is answered: with the status of its route, or the one of an
    error, and then the body is the object of this error. *)
Lemma every_request_is_answered (context : Ctx) (request : JobRequest (Uuid := Uuid) (SubmitRequest := SubmitRequest)) w :
  let response := (job_routes header_value context request w).1 in
  rs_status response = success_status request
  ∨ ∃ e, response = into_response e ∧ rs_status response = error_status e ∧ rs_body response = error_json (error_message e) (error_status e).
Proof.
  destruct request; cbn [job_routes success_status]; unfold respond;
    [destruct (api_submit _ _ w) as [[r|e] w1]|destruct (api_list _ _ w) as [[r|e] w1]|destruct (api_job_status _ _ w) as [[r|e] w1]
    |destruct (api_cancel _ _ w) as [[r|e] w1]|destruct (api_manifest _ _ w) as [[r|e] w1]|destruct (api_result _ _ w) as [[r|e] w1]];
    simpl; try (by left); try (by right; exists e).
  unfold result_response. destruct (let? _type := header_value (rc_content_type r) in header_value _) as [u|e]; [by left|].
  by right; eexists.
Qed.
End RouteFacts.

(** A quotation mark in the name of a file ends it, and what follows is a
    parameter of the header. *)
Example a_file_name_adds_a_parameter :
  match result_response (λ _, Ok tt) {| rc_bytes := ""; rc_content_type := "text/csv";
          rc_filename := "a" +:+ char_text dquote +:+ "; filename*=UTF-8''b.exe; x=" +:+ char_text dquote |} with
  | Ok r => rs_headers r !! 1%nat
      = Some ("content-disposition", "attachment; filename=" +:+ char_text dquote +:+ "a" +:+ char_text dquote
              +:+ "; filename*=UTF-8''b.exe; x=" +:+ char_text dquote +:+ char_text dquote)
  | Err _ => False
  end.
Proof. by vm_compute. Qed.
