(* ===== verification/TestRig.v ===== *)
(** The test rig: crate [queryfabric-test-rig].

    Containers and networks of Docker, the services of a rig with their waits
    and their roll-back, credentials of registries, probes, and the helpers for
    ClickHouse.  Docker, the sockets and the databases are the classes
    [DockerApi] and [RigNetwork]; [docker] as a subprocess is the class
    [Commands] of [Tools].  A wait takes fuel, and [poll_ends] says how much is
    enough. *)
From Stdlib Require Import Ascii.
From stdpp Require Import gmap.
From S2P Require Import Prelude Types BTreeMap Json Suggest Render SqlText RenderText Numerals HostConfig Tokens Web Tools.
Local Open Scope result_scope.

(** ** Docker and what is around it *)

Record ContainerCreateBody := {
  cc_image : string;
  cc_env : list string;
  cc_cmd : option (list string);
  cc_exposed_ports : option (list string);
  cc_network_mode : string;
  (** The address and the port of the host for a port of the container. *)
  cc_port_bindings : option (gmap string (string * string))
}.

(** A stream is the list of its items. *)
Class DockerApi (World : Type) := {
  dk_inspect_network : string → state World (result (option (list string)) string);
  dk_create_network : string → state World (result unit string);
  dk_remove_network : string → state World (result unit string);
  dk_create_container : string → ContainerCreateBody → state World (result string string);
  dk_start_container : string → state World (result unit string);
  (** With [force]. *)
  dk_remove_container : string → state World (result unit string);
  dk_wait_container : string → state World (list (result Z string));
  dk_logs : string → state World (list (result string string));
  dk_inspect_image : string → state World (result unit string);
  dk_create_image : string → state World (list (result unit string));
  dk_upload : string → string → string → state World (result unit string);
  dk_tag_image : string → string → string → state World (result unit string);
  (** The error detail of an item, with its message. *)
  dk_push_image : string → string → state World (list (result (option (option string)) string))
}.

Inductive ConnectError := ConnectionRefused (text : string) | TimedOut (text : string) | OtherConnectError (text : string).

Class RigNetwork (World : Type) := {
  (** Nanoseconds, and a sleep of milliseconds. *)
  rig_clock : World → Z;
  rig_sleep : Z → World → World;
  tcp_connect : string → state World bool;
  (** [None] for no answer, and whether the status is a success. *)
  http_get_status : string → state World (option bool);
  (** Whether the status is a success, its text and the body; or whether the connection failed, and the error. *)
  http_post : string → state World (result (bool * string * string) (bool * string));
  (** The port of a listener on port 0, which is dropped. *)
  bind_ephemeral : state World (result N string);
  to_socket_addrs : string → result (list string) string;
  connect_timeout : string → state World (result unit ConnectError);
  (** The client of PostgreSQL for a URL: connection, tables, batch, and the end of the connection. *)
  pgc_connect : string → state World (result unit string);
  pgc_tables : string → state World (result (list string) string);
  pgc_batch : string → string → state World (result unit string);
  pgc_finish : string → state World (result unit string);
  (** The client of ClickHouse for a URL and a database. *)
  chc_tables : string → string → state World (result (list string) string);
  chc_execute : string → string → string → state World (result unit string);
  (** An archive with one file. *)
  tar_of : string → string → result string string;
  debug_duration : Z → string
}.

Section Docker.
Context {World : Type} `{Docker : !DockerApi World} `{Net : !RigNetwork World} `{Cmd : !Commands World}.
(** The rounds of a wait. *)
Context (fuel : nat).

(** [None]: the fuel of a wait is used up. *)
Definition RM (A : Type) : Type := state World (option (result A string)).

Definition rig_ret {A} (a : A) : RM A := sret (Some (Ok a)).
Definition rig_fail {A} (e : string) : RM A := sret (Some (Err e)).

(** The question mark. *)
Definition rig_bind {A B} (m : RM A) (k : A → RM B) : RM B :=
  λ w,
    match m w with
    | (Some (Ok a), w) => k a w
    | (Some (Err e), w) => (Some (Err e), w)
    | (None, w) => (None, w)
    end.

Definition rig_lift {A} (m : state World (result A string)) : RM A := λ w, let '(r, w) := m w in (Some r, w).
#[local] Notation "'let*' x ':=' m 'in' k" := (rig_bind m (λ x, k)) (at level 10, x binder, m at level 100, k at level 200).

(** *** Networks *)

Definition ensure_network (name : string) : RM unit :=
  λ w,
    match dk_inspect_network name w with
    | (Ok _, w) => rig_ret tt w
    | (Err _, w) => rig_lift (dk_create_network name) w
    end.

Fixpoint remove_containers (ids : list string) : World → World :=
  match ids with
  | [] => λ w, w
  | id :: ids => λ w, remove_containers ids (dk_remove_container id w).2
  end.

(** Errors of the removals are dropped. *)
Definition cleanup_network (network_name : string) : RM unit :=
  λ w,
    let '(info, w) := dk_inspect_network network_name w in
    let w := match info with Ok (Some containers) => remove_containers containers w | _ => w end in
    rig_ret tt (dk_remove_network network_name w).2.

(** *** Waits *)

(** [while Instant::now() < deadline], with half a second between two probes. *)
Fixpoint poll (probe : state World bool) (deadline : Z) (failure : string) (rounds : nat) : RM unit :=
  match rounds with
  | O => sret None
  | S rounds =>
      λ w,
        if (rig_clock w <? deadline)%Z then
          match probe w with
          | (true, w) => rig_ret tt w
          | (false, w) => poll probe deadline failure rounds (rig_sleep 500 w)
          end
        else rig_fail failure w
  end.

Definition seconds (n : Z) : Z := (1000000000 * n)%Z.

Definition wait_for_port (host : string) (port : N) (timeout : Z) : RM unit :=
  λ w,
    let addr := host +:+ ":" +:+ show_N port in
    poll (tcp_connect addr) (rig_clock w + timeout)%Z
      ("tcp endpoint " +:+ addr +:+ " did not become reachable within " +:+ debug_duration timeout
       +:+ "; confirm the container started and bound the expected port") fuel w.

Definition get_succeeds (url : string) : state World bool :=
  λ w, let '(status, w) := http_get_status url w in (default false status, w).

Definition wait_for_clickhouse_http (host_port : N) : RM unit :=
  λ w,
    poll (get_succeeds ("http://127.0.0.1:" +:+ show_N host_port +:+ "/?query=SELECT%201")) (rig_clock w + seconds 30)%Z
      ("ClickHouse on 127.0.0.1:" +:+ show_N host_port +:+ " did not become query-ready") fuel w.

Definition wait_for_meilisearch_http (host_port : N) : RM unit :=
  λ w,
    poll (get_succeeds ("http://127.0.0.1:" +:+ show_N host_port +:+ "/health")) (rig_clock w + seconds 30)%Z
      ("Meilisearch on 127.0.0.1:" +:+ show_N host_port +:+ " did not become healthy") fuel w.

(** *** Containers *)

Definition create_and_start (name : string) (config : ContainerCreateBody) : RM string :=
  let* id := rig_lift (dk_create_container name config) in
  let* _started := rig_lift (dk_start_container id) in
  rig_ret id.

Definition start_container (name network image : string) (env : list string) (cmd : option (list string)) : RM string :=
  create_and_start name
    {| cc_image := image; cc_env := env; cc_cmd := cmd; cc_exposed_ports := None; cc_network_mode := network;
       cc_port_bindings := None |}.

Definition port_key (container_port : N) : string := show_N container_port +:+ "/tcp".

(** The port of the container, that of the host, and the address of the host. *)
Definition start_container_with_port_bindings (name network image : string) (env : list string)
    (cmd : option (list string)) (ports : list (N * N * string)) : RM string :=
  let exposed_ports := if is_empty ports then None else Some (List.map (λ p, port_key p.1.1) ports) in
  let port_bindings :=
    if is_empty ports then None
    else Some (foldl (λ bindings p, <[port_key p.1.1 := (p.2, show_N p.1.2)]> bindings) ∅ ports) in
  create_and_start name
    {| cc_image := image; cc_env := env; cc_cmd := cmd; cc_exposed_ports := exposed_ports; cc_network_mode := network;
       cc_port_bindings := port_bindings |}.

Definition start_container_with_ports (name network image : string) (env : list string) (cmd : option (list string))
    (ports : list (N * N)) : RM string :=
  start_container_with_port_bindings name network image env cmd (List.map (λ p, (p.1, p.2, "127.0.0.1")) ports).

(** The last status of the stream, or its first error. *)
Fixpoint exit_code_of (exit_code : Z) (items : list (result Z string)) : result Z string :=
  match items with
  | [] => Ok exit_code
  | Ok status_code :: items => exit_code_of status_code items
  | Err e :: _ => Err e
  end.

(** The chunks before the first error. *)
Fixpoint logs_of (items : list (result string string)) : string :=
  match items with Ok chunk :: items => chunk +:+ logs_of items | _ => "" end.

Definition run_container_to_completion (name network image : string) (env cmd : list string) : RM string :=
  let* id := start_container name network image env (Some cmd) in
  let* exit_code := rig_lift (λ w, let '(items, w) := dk_wait_container id w in (exit_code_of 0 items, w)) in
  λ w,
    let '(items, w) := dk_logs id w in
    let logs := logs_of items in
    let '(_, w) := dk_remove_container id w in
    if (exit_code =? 0)%Z then rig_ret logs w
    else
      rig_fail ("container " +:+ name +:+ " exited with code " +:+ show_Z exit_code
                +:+ "; inspect the captured logs for the failing process:" +:+ newline_text +:+ logs) w.

(** *** Images *)

Fixpoint drain (items : list (result unit string)) : result unit string :=
  match items with [] => Ok tt | Ok _ :: items => drain items | Err e :: _ => Err e end.

Definition ensure_image (image : string) : RM unit :=
  λ w,
    match dk_inspect_image image w with
    | (Ok _, w) => rig_ret tt w
    | (Err _, w) => rig_lift (λ w, let '(items, w) := dk_create_image image w in (drain items, w)) w
    end.

Definition docker_cp_out (container_name container_path host_path : string) : RM unit :=
  λ w,
    match command None "docker" ["cp"; container_name +:+ ":" +:+ container_path; host_path] None w with
    | (Err e, w) => rig_fail e w
    | (Ok output, w) =>
        if out_success output then rig_ret tt w
        else
          rig_fail ("docker cp from " +:+ container_name +:+ ":" +:+ container_path +:+ " to " +:+ host_path
                    +:+ " failed; verify the source path exists in the container and the destination path is writable") w
    end.

Fixpoint loaded_image (output_lines : list string) : option string :=
  match output_lines with
  | [] => None
  | l :: output_lines =>
      option_or_else (option_or_else (strip_prefix "Loaded image: " l) (strip_prefix "Loaded image ID: " l))
        (loaded_image output_lines)
  end.

Definition docker_load (tarball_path : string) : RM string :=
  λ w,
    match command None "docker" ["load"; "-i"; tarball_path] None w with
    | (Err e, w) => rig_fail e w
    | (Ok output, w) =>
        if out_success output then rig_ret (trim (default "unknown" (loaded_image (HostConfig.lines (lossy (out_stdout output)))))) w
        else
          rig_fail ("docker load -i " +:+ tarball_path +:+ " failed with stderr: " +:+ lossy (out_stderr output)
                    +:+ "; confirm the tarball is a valid OCI archive") w
    end.

Definition upload_tar_to_container (container_id path tar_bytes : string) : RM unit :=
  rig_lift (dk_upload container_id path tar_bytes).

(** *** Publishing: [publish.rs] *)

Fixpoint drain_push_items (repo tag : string) (items : list (result (option (option string)) string)) : result unit string :=
  match items with
  | [] => Ok tt
  | Ok None :: items => drain_push_items repo tag items
  | Ok (Some detail) :: _ => Err ("Push error for " +:+ repo +:+ ":" +:+ tag +:+ ": " +:+ default "" detail)
  | Err e :: _ => Err e
  end.

Definition drain_push (repo tag : string) : RM unit :=
  rig_lift (λ w, let '(items, w) := dk_push_image repo tag w in (drain_push_items repo tag items, w)).

(** The two pushes run side by side; [latest_first] says which one ends first,
    and its error ends the other. *)
Definition tag_and_push_image (latest_first : bool) (local_image remote_repo version : string) : RM (list string) :=
  let* _v := rig_lift (dk_tag_image local_image remote_repo version) in
  let* _l := rig_lift (dk_tag_image local_image remote_repo "latest") in
  let '(first, second) := if latest_first then ("latest", version) else (version, "latest") in
  let* _one := drain_push remote_repo first in
  let* _two := drain_push remote_repo second in
  rig_ret ["Published " +:+ remote_repo +:+ ":" +:+ version; "Published " +:+ remote_repo +:+ ":latest"].
End Docker.

(** ** The rig: [rig.rs] *)

Definition RIG_POSTGRES_IMAGE : string := "docker.io/library/postgres:17".
Definition RIG_CLICKHOUSE_IMAGE : string := "docker.io/clickhouse/clickhouse-server:25.8".
Definition RIG_MINIO_IMAGE : string := "docker.io/minio/minio:RELEASE.2025-02-28T09-55-16Z".
Definition RIG_MEILISEARCH_IMAGE : string := "docker.io/getmeili/meilisearch:v1.12.8".

Definition CH_JSON_USERS_XML : string :=
  string_join newline_text
    ["<clickhouse>"; "    <profiles>"; "        <default>"; "            <enable_json_type>1</enable_json_type>";
     "        </default>"; "    </profiles>"; "</clickhouse>"; ""].

Record PostgresService := { pgs_host_port : N; pgs_user : string; pgs_password : string; pgs_database : string }.

Definition postgres_url (self : PostgresService) : string :=
  "postgres://" +:+ pgs_user self +:+ ":" +:+ pgs_password self +:+ "@127.0.0.1:" +:+ show_N (pgs_host_port self)
  +:+ "/" +:+ pgs_database self.

Record ClickHouseService := { chs_name : string; chs_host_port : N; chs_native_host_port : option N }.

(** [url] and [endpoint] of the services that are reached by HTTP. *)
Definition service_url (host_port : N) : string := "http://127.0.0.1:" +:+ show_N host_port.

Record MinioService := { mis_host_port : N }.
Record MeilisearchService := { mes_host_port : N }.

Record ClickHouseSpec := { spec_name : string; spec_host_port : option N; spec_native_host_port : option N }.

Record TestRigBuilder := {
  tb_postgres_port : option N;
  tb_clickhouse_specs : list ClickHouseSpec;
  tb_minio_port : option N;
  tb_meilisearch_port : option N
}.

Definition TestRigBuilder_default : TestRigBuilder :=
  {| tb_postgres_port := None; tb_clickhouse_specs := []; tb_minio_port := None; tb_meilisearch_port := None |}.

Definition set_specs (self : TestRigBuilder) (specs : list ClickHouseSpec) : TestRigBuilder :=
  {| tb_postgres_port := tb_postgres_port self; tb_clickhouse_specs := specs; tb_minio_port := tb_minio_port self;
     tb_meilisearch_port := tb_meilisearch_port self |}.

(** The three services that are there once; [with_..._on_port] gives a port. *)
Inductive SingleService := SPostgres | SMinio | SMeilisearch.

Definition with_service_on_port (service : SingleService) (port : N) (self : TestRigBuilder) : TestRigBuilder :=
  {| tb_postgres_port := match service with SPostgres => Some port | _ => tb_postgres_port self end;
     tb_clickhouse_specs := tb_clickhouse_specs self;
     tb_minio_port := match service with SMinio => Some port | _ => tb_minio_port self end;
     tb_meilisearch_port := match service with SMeilisearch => Some port | _ => tb_meilisearch_port self end |}.

Definition service_port (service : SingleService) (self : TestRigBuilder) : option N :=
  match service with
  | SPostgres => tb_postgres_port self | SMinio => tb_minio_port self | SMeilisearch => tb_meilisearch_port self
  end.

Definition with_service (service : SingleService) (self : TestRigBuilder) : TestRigBuilder :=
  match service_port service self with None => with_service_on_port service 0 self | Some _ => self end.

Definition with_clickhouse_named (name : string) (self : TestRigBuilder) : TestRigBuilder :=
  if negb (existsb (λ spec, String.eqb (spec_name spec) name) (tb_clickhouse_specs self)) then
    set_specs self
      (tb_clickhouse_specs self ++ [{| spec_name := name; spec_host_port := None; spec_native_host_port := None |}])
  else self.

Definition with_clickhouse (self : TestRigBuilder) : TestRigBuilder := with_clickhouse_named "clickhouse" self.

Definition with_clickhouse_on_port (port : N) (self : TestRigBuilder) : TestRigBuilder :=
  match tb_clickhouse_specs self with
  | [] => set_specs self [{| spec_name := "clickhouse"; spec_host_port := Some port; spec_native_host_port := None |}]
  | spec :: specs =>
      set_specs self
        ({| spec_name := spec_name spec; spec_host_port := Some port; spec_native_host_port := spec_native_host_port spec |}
         :: specs)
  end.

Definition with_clickhouse_named_native (name : string) (http_port native_port : option N) (self : TestRigBuilder)
    : TestRigBuilder :=
  set_specs self
    (tb_clickhouse_specs self
     ++ [{| spec_name := name; spec_host_port := http_port; spec_native_host_port := native_port |}]).

Record TestRig := {
  tr_network : string;
  tr_postgres : option PostgresService;
  tr_clickhouse : gmap string ClickHouseService;
  tr_minio : option MinioService;
  tr_meilisearch : option MeilisearchService
}.

Section Rig.
Context {World : Type} `{Docker : !DockerApi World} `{Net : !RigNetwork World}.
Context (fuel : nat).
#[local] Abbreviation M := (RM (World := World)).
#[local] Notation "'let*' x ':=' m 'in' k" := (rig_bind m (λ x, k)) (at level 10, x binder, m at level 100, k at level 200).

Definition reserve_local_port : M N := rig_lift bind_ephemeral.

(** Port 0 stands for any. *)
Definition port_or_reserved (configured_port : N) : M N :=
  if (configured_port =? 0)%N then reserve_local_port else rig_ret configured_port.

Definition local_host : string := "127.0.0.1".

Definition start_postgres (network prefix : string) (configured_port : N) : M PostgresService :=
  let* host_port := port_or_reserved configured_port in
  let* _image := ensure_image RIG_POSTGRES_IMAGE in
  let* _id := start_container_with_ports (prefix +:+ "-postgres") network RIG_POSTGRES_IMAGE
                ["POSTGRES_USER=postgres"; "POSTGRES_PASSWORD=postgres"; "POSTGRES_DB=syndb"] None [(5432%N, host_port)] in
  let* _ready := wait_for_port fuel local_host host_port (seconds 30) in
  rig_ret {| pgs_host_port := host_port; pgs_user := "postgres"; pgs_password := "postgres"; pgs_database := "syndb" |}.

Definition upload_clickhouse_config (container_id target_dir file_name xml : string) : M unit :=
  let* tar_bytes := sret (Some (tar_of file_name xml)) in
  upload_tar_to_container container_id target_dir tar_bytes.

Definition clickhouse_env : list string :=
  ["CLICKHOUSE_DB=syndb"; "CLICKHOUSE_DEFAULT_ACCESS_MANAGEMENT=1"; "CLICKHOUSE_LISTEN_HOST=0.0.0.0"].

Definition start_clickhouse (network prefix : string) (spec : ClickHouseSpec) : M ClickHouseService :=
  let* http_port := port_or_reserved (default 0%N (spec_host_port spec)) in
  let* native_port :=
    match spec_native_host_port spec with
    | Some port => let* port := port_or_reserved port in rig_ret (Some port)
    | None => rig_ret None
    end in
  let* _image := ensure_image RIG_CLICKHOUSE_IMAGE in
  let name := prefix +:+ "-" +:+ spec_name spec in
  let* id :=
    match native_port with
    | Some native_host_port =>
        start_container_with_port_bindings name network RIG_CLICKHOUSE_IMAGE clickhouse_env None
          [(8123%N, http_port, "127.0.0.1"); (9000%N, native_host_port, "0.0.0.0")]
    | None => start_container_with_ports name network RIG_CLICKHOUSE_IMAGE clickhouse_env None [(8123%N, http_port)]
    end in
  let* _config := upload_clickhouse_config id "/etc/clickhouse-server/users.d/" "json.xml" CH_JSON_USERS_XML in
  let* _port := wait_for_port fuel local_host http_port (seconds 30) in
  let* _native :=
    match native_port with
    | Some native_host_port => wait_for_port fuel local_host native_host_port (seconds 30)
    | None => rig_ret tt
    end in
  let* _ready := wait_for_clickhouse_http fuel http_port in
  rig_ret {| chs_name := spec_name spec; chs_host_port := http_port; chs_native_host_port := native_port |}.

Definition start_minio (network prefix : string) (configured_port : N) : M MinioService :=
  let* host_port := port_or_reserved configured_port in
  let* _image := ensure_image RIG_MINIO_IMAGE in
  let* _id := start_container_with_ports (prefix +:+ "-minio") network RIG_MINIO_IMAGE
                ["MINIO_ROOT_USER=minioadmin"; "MINIO_ROOT_PASSWORD=minioadmin"; "MINIO_BROWSER=off"]
                (Some ["minio"; "server"; "/data"]) [(9000%N, host_port)] in
  let* _ready := wait_for_port fuel local_host host_port (seconds 30) in
  rig_ret {| mis_host_port := host_port |}.

Definition start_meilisearch (network prefix : string) (configured_port : N) : M MeilisearchService :=
  let* host_port := port_or_reserved configured_port in
  let* _image := ensure_image RIG_MEILISEARCH_IMAGE in
  let* _id := start_container_with_ports (prefix +:+ "-meilisearch") network RIG_MEILISEARCH_IMAGE [] None
                [(7700%N, host_port)] in
  let* _ready := wait_for_port fuel local_host host_port (seconds 30) in
  let* _health := wait_for_meilisearch_http fuel host_port in
  rig_ret {| mes_host_port := host_port |}.

Definition start_optional {A} (start : N → M A) (port : option N) : M (option A) :=
  match port with
  | Some port => let* service := start port in rig_ret (Some service)
  | None => rig_ret None
  end.

(** The loop over the specifications. *)
Fixpoint start_all_clickhouse (network prefix : string) (specs : list ClickHouseSpec)
    (clickhouse : gmap string ClickHouseService) : M (gmap string ClickHouseService) :=
  match specs with
  | [] => rig_ret clickhouse
  | spec :: specs =>
      let* service := start_clickhouse network prefix spec in
      start_all_clickhouse network prefix specs (<[chs_name service := service]> clickhouse)
  end.

Definition start_services (network prefix : string) (builder : TestRigBuilder) : M TestRig :=
  let* postgres := start_optional (start_postgres network prefix) (tb_postgres_port builder) in
  let* clickhouse := start_all_clickhouse network prefix (tb_clickhouse_specs builder) ∅ in
  let* minio := start_optional (start_minio network prefix) (tb_minio_port builder) in
  let* meilisearch := start_optional (start_meilisearch network prefix) (tb_meilisearch_port builder) in
  rig_ret {| tr_network := network; tr_postgres := postgres; tr_clickhouse := clickhouse; tr_minio := minio;
             tr_meilisearch := meilisearch |}.

Definition rig_network (uuid : string) : string := "syndb-test-rig-" +:+ uuid.

(** Docker is reached, or not; [uuid] is the simple text of a fresh identifier. *)
Definition build_rig (reached : result unit string) (uuid : string) (builder : TestRigBuilder) : M TestRig :=
  let* _docker := sret (Some reached) in
  let network := rig_network uuid in
  let* _network := ensure_network network in
  λ w,
    match start_services network (replace_char "_" "-" network) builder w with
    | (Some (Err error), w) => (Some (Err error), (cleanup_network network w).2)
    | started => started
    end.

Definition shutdown (self : TestRig) : M unit := cleanup_network (tr_network self).

(** The accessors; without a node of the name [clickhouse] any one is taken,
    which the order of iteration decides. *)
Definition rig_postgres (self : TestRig) : result PostgresService string := ok_or (tr_postgres self) "TestRig missing postgres".
Definition rig_minio (self : TestRig) : result MinioService string := ok_or (tr_minio self) "TestRig missing minio".
Definition rig_meilisearch (self : TestRig) : result MeilisearchService string :=
  ok_or (tr_meilisearch self) "TestRig missing meilisearch".
Definition rig_clickhouse_named (self : TestRig) (name : string) : result ClickHouseService string :=
  ok_or (tr_clickhouse self !! name) ("TestRig missing clickhouse node " +:+ name).
Definition rig_clickhouse (self : TestRig) (first : gmap string ClickHouseService → option ClickHouseService)
    : result ClickHouseService string :=
  ok_or (option_or_else (tr_clickhouse self !! "clickhouse") (first (tr_clickhouse self))) "TestRig missing clickhouse".

(** *** Resets *)

Definition quoted_table (name : string) : string := char_text dquote +:+ double_char dquote name +:+ char_text dquote.

Definition truncate_statement (tables : list string) : string :=
  "TRUNCATE TABLE " +:+ string_join ", " (List.map (λ name, "public." +:+ quoted_table name) tables)
  +:+ " RESTART IDENTITY CASCADE".

Definition truncate_all (self : PostgresService) : M unit :=
  let url := postgres_url self in
  let* _client := rig_lift (pgc_connect url) in
  λ w,
    let '(result, w) :=
      match pgc_tables url w with
      | (Ok [], w) => (Ok tt, w)
      | (Ok tables, w) => pgc_batch url (truncate_statement tables) w
      | (Err error, w) => (Err error, w)
      end in
    let '(finished, w) := pgc_finish url w in
    (Some (match result with Err error => Err error | Ok _ => finished end), w).

Fixpoint truncate_each (url database : string) (tables : list string) : M unit :=
  match tables with
  | [] => rig_ret tt
  | name :: tables =>
      let* _row := rig_lift (chc_execute url database ("TRUNCATE TABLE IF EXISTS " +:+ quoted_table name)) in
      truncate_each url database tables
  end.

Definition reset_database (self : ClickHouseService) (database : string) : M unit :=
  let url := service_url (chs_host_port self) in
  let* tables := rig_lift (chc_tables url database) in
  truncate_each url database tables.
End Rig.

(** ** Probes: [probe.rs] *)

Section Probe.
Context {World : Type} `{Net : !RigNetwork World}.

Record WaitConfig := { poll_interval : Z; max_attempts : N }.

Definition WaitConfig_default : WaitConfig := {| poll_interval := 1000; max_attempts := 30 |}.

(** The attempts that are left after [attempt - 1]. *)
Fixpoint probe_attempts (config : WaitConfig) (addr : string) (attempt : N) (left_attempts : nat)
    : state World (result unit string) :=
  match left_attempts with
  | O => sret (Ok tt)
  | S left_attempts =>
      λ w,
        match connect_timeout addr w with
        | (Ok _, w) => (Ok tt, w)
        | (Err (ConnectionRefused _ | TimedOut _), w) =>
            if (attempt =? max_attempts config)%N then
              (Err ("Timed out waiting for TCP port " +:+ addr +:+ " after " +:+ show_N attempt +:+ " attempts"), w)
            else probe_attempts config addr (attempt + 1) left_attempts (rig_sleep (poll_interval config) w)
        | (Err (OtherConnectError e), w) => (Err ("TCP connect error: " +:+ e), w)
        end
  end.

Definition wait_for_tcp_port (addr : string) (config : WaitConfig) : state World (result unit string) :=
  match to_socket_addrs addr with
  | Err e => sret (Err ("DNS resolution failed: " +:+ e))
  | Ok [] => sret (Err "No address resolved")
  | Ok (addr :: _) => probe_attempts config addr 1 (N.to_nat (max_attempts config))
  end.
End Probe.

(** ** Credentials of registries: [docker_auth.rs] *)

Inductive Auth := AuthBasic (user password : string) | AuthBearer (token : string).

(** The document of the configuration, as the derived reader takes it: the keys
    are the names of the fields. *)
Record DockerConfig := {
  dc_auths : option (list (string * option string));
  dc_creds_store : option string;
  dc_cred_helpers : option (list (string * string))
}.

Class AuthCrates := {
  to_uppercase : string → string;
  auth_base64_decode : string → result string string;
  auth_utf8_error : string;
  (** The text of a mismatch between a document and a type. *)
  mismatch : string
}.

Section DockerAuth.
Context {World Number : Type} `{Cmd : !Commands World} `{Crates : !AuthCrates}.
Context (environment : string → option string) (read_file : string → result string string)
  (parse_json : string → result (Json Number) string).
#[local] Abbreviation M A := (state World (result A string)).

(** The derived readers of an optional text, of an optional map, and of the
    records. *)
Definition read_text (value : Json Number) : result string string :=
  match value with JString text => Ok text | _ => Err mismatch end.

Definition read_optional {A} (read : Json Number → result A string) (value : Json Number) : result (option A) string :=
  match value with JNull => Ok None | _ => let? a := read value in Ok (Some a) end.

Definition read_map {A} (read : Json Number → result A string) (value : Json Number) : result (list (string * A)) string :=
  match value with
  | JObject entries => rcollect (λ e, let? a := read e.2 in Ok (e.1, a)) entries
  | _ => Err mismatch
  end.

Definition read_auth_entry (value : Json Number) : result (option string) string :=
  match value with
  | JObject _ => read_optional read_text (json_index value "auth")
  | _ => Err mismatch
  end.

Definition read_docker_config (value : Json Number) : result DockerConfig string :=
  match value with
  | JObject _ =>
      let? auths := read_optional (read_map read_auth_entry) (json_index value "auths") in
      let? creds_store := read_optional read_text (json_index value "creds_store") in
      let? cred_helpers := read_optional (read_map read_text) (json_index value "cred_helpers") in
      Ok {| dc_auths := auths; dc_creds_store := creds_store; dc_cred_helpers := cred_helpers |}
  | _ => Err mismatch
  end.

Definition get_docker_config_path : result string string :=
  let? home := ok_or (environment "HOME") "HOME not set" in
  let config_dir := default (path_join home ".docker") (environment "DOCKER_CONFIG") in
  Ok (path_join config_dir "config.json").

Definition parse_helper_response (output : string) : option (string * string) :=
  match parse_json output with
  | Err _ => None
  | Ok value =>
      match as_str (json_index value "Username"), as_str (json_index value "Secret") with
      | Some user, Some secret => Some (user, secret)
      | _, _ => None
      end
  end.

Definition resolve_via_credential_helper (helper registry : string) : M (option Auth) :=
  λ w,
    match command None ("docker-credential-" +:+ helper) ["get"; registry] None w with
    | (Err e, w) => (Err ("credential helper " +:+ helper +:+ ": " +:+ e), w)
    | (Ok output, w) =>
        (Ok (if out_success output then
               option_map (λ c, AuthBasic c.1 c.2) (parse_helper_response (lossy (out_stdout output)))
             else None), w)
    end.

(** The credentials of the entry, if it has some; a text without a colon has none. *)
Definition auth_of_entry (config : DockerConfig) (registry : string) : result (option Auth) string :=
  match dc_auths config ≫= json_get registry with
  | Some (Some auth) =>
      let? decoded := map_err (λ e, "base64 decode auth: " +:+ e) (auth_base64_decode auth) in
      if utf8_valid decoded then
        Ok (option_map (λ c, AuthBasic c.1 c.2) (split_first ":" decoded))
      else Err ("UTF-8: " +:+ auth_utf8_error)
  | _ => Ok None
  end.

Definition load_docker_config : result DockerConfig string :=
  let? config_path := get_docker_config_path in
  let? config_content := map_err (λ e, "Read config.json: " +:+ e) (read_file config_path) in
  map_err (λ e, "Parse config.json: " +:+ e) (rbind (parse_json config_content) read_docker_config).

Definition resolve_registry_auth (registry env_prefix : string) : M (option Auth) :=
  let pat_var := env_prefix +:+ "_" +:+ to_uppercase registry +:+ "_PAT" in
  match env_var environment pat_var with
  | Some token => sret (Ok (Some (AuthBearer token)))
  | None =>
      match (let? config := load_docker_config in let? auth := auth_of_entry config registry in Ok (config, auth)) with
      | Err e => sret (Err e)
      | Ok (_, Some auth) => sret (Ok (Some auth))
      | Ok (config, None) =>
          match dc_cred_helpers config ≫= json_get registry with
          | Some helper => resolve_via_credential_helper helper registry
          | None =>
              match dc_creds_store config with
              | Some helper => resolve_via_credential_helper helper registry
              | None => sret (Ok None)
              end
          end
      end
  end.
End DockerAuth.

(** ** Helpers for ClickHouse: [clickhouse.rs] *)

Definition cluster_xml (cluster : string) (nodes : list (string * N)) : string :=
  "<clickhouse><remote_servers><" +:+ cluster +:+ "><shard><internal_replication>true</internal_replication>"
  +:+ string_join "" (List.map (λ n, "<replica><host>" +:+ n.1 +:+ "</host><port>" +:+ show_N n.2 +:+ "</port></replica>") nodes)
  +:+ "</shard></" +:+ cluster +:+ "></remote_servers></clickhouse>".

Definition ddl_backtick : ascii := ascii_of_N 96.

(** What is left between two semicolons, without the white space around it. *)
Definition push_trimmed (current : string) : list string :=
  let trimmed := trim current in if String.eqb trimmed "" then [] else [trimmed].

(** The loop over the characters. *)
Fixpoint split_ddl (sql current : string) (in_single_quote in_backtick : bool) : list string :=
  match sql with
  | EmptyString => push_trimmed current
  | String ch sql =>
      let pushed := current +:+ char_text ch in
      if Ascii.eqb ch squote && negb in_backtick then split_ddl sql pushed (negb in_single_quote) in_backtick
      else if Ascii.eqb ch ddl_backtick && negb in_single_quote then split_ddl sql pushed in_single_quote (negb in_backtick)
      else if Ascii.eqb ch ";" && negb in_single_quote && negb in_backtick then
        push_trimmed current ++ split_ddl sql "" in_single_quote in_backtick
      else split_ddl sql pushed in_single_quote in_backtick
  end.

Definition split_ddl_statements (sql : string) : list string := split_ddl sql "" false false.

Definition encode_char (c : ascii) : string :=
  if Ascii.eqb c " " then "%20" else if Ascii.eqb c (ascii_of_N 10) then "%0A"
  else if Ascii.eqb c (ascii_of_N 9) then "%09" else if Ascii.eqb c "&" then "%26"
  else if Ascii.eqb c "=" then "%3D" else if Ascii.eqb c "?" then "%3F"
  else if Ascii.eqb c ";" then "%3B" else if Ascii.eqb c "#" then "%23" else char_text c.

(** [url_encode]. *)
Fixpoint encode_query (s : string) : string :=
  match s with EmptyString => "" | String c s => encode_char c +:+ encode_query s end.

Section ClickHouseHelpers.
Context {World : Type} `{Net : !RigNetwork World}.
(** Whether a client can be built, and the text of a number that does not parse. *)
Context (client : result unit string) (parse_int_error : string → string).

Definition execute_ch (port : N) (sql : string) : state World (result string string) :=
  let url := "http://localhost:" +:+ show_N port +:+ "/?query=" +:+ encode_query sql in
  match client with
  | Err e => sret (Err ("HTTP client: " +:+ e))
  | Ok _ =>
      λ w,
        match http_post url w with
        | (Err (is_connect, e), w) =>
            (Err (if is_connect : bool then "ClickHouse not reachable on port " +:+ show_N port
                  else "ClickHouse query failed: " +:+ e), w)
        | (Ok (success, status, body), w) =>
            (if success : bool then Ok body else Err ("ClickHouse error (" +:+ status +:+ "): " +:+ body), w)
        end
  end.

Definition query_u64 (port : N) (sql : string) : state World (result N string) :=
  λ w,
    match execute_ch port sql w with
    | (Err e, w) => (Err e, w)
    | (Ok body, w) =>
        (ok_or (HostConfig.parse_unsigned (2 ^ 64) (trim body))
           ("Parse u64 from ClickHouse response '" +:+ body +:+ "': " +:+ parse_int_error (trim body)), w)
    end.

(** [None] when the fuel is used up. *)
Fixpoint wait_node_loop (port : N) (start : Z) (timeout_secs : N) (fuel : nat) : state World (option (result unit string)) :=
  match fuel with
  | O => sret None
  | S fuel =>
      λ w,
        if (Z.of_N timeout_secs <? (rig_clock w - start) / 1000000000)%Z then
          (Some (Err ("ClickHouse node on port " +:+ show_N port +:+ " not ready within " +:+ show_N timeout_secs +:+ "s")), w)
        else
          match connect_timeout ("127.0.0.1:" +:+ show_N port) w with
          | (Ok _, w) =>
              match execute_ch port "SELECT 1" w with
              | (Ok _, w) => (Some (Ok tt), w)
              | (Err _, w) => wait_node_loop port start timeout_secs fuel (rig_sleep 500 w)
              end
          | (Err _, w) => wait_node_loop port start timeout_secs fuel (rig_sleep 500 w)
          end
  end.

Definition wait_node (port timeout_secs : N) (fuel : nat) : state World (option (result unit string)) :=
  λ w, wait_node_loop port (rig_clock w) timeout_secs fuel w.
End ClickHouseHelpers.

(** ** Waits end *)

Section WaitFacts.
Context {World : Type} `{Docker : !DockerApi World} `{Net : !RigNetwork World}.
#[local] Abbreviation M := (RM (World := World)).
Implicit Types (w : World).

(** Time passes: a probe does not turn the clock back, and a sleep advances it. *)
Class SteadyClock : Prop := {
  sleep_advances : ∀ ms w, (rig_clock w + 1000000 * ms ≤ rig_clock (rig_sleep ms w))%Z;
  tcp_takes_time : ∀ addr w, (rig_clock w ≤ rig_clock (tcp_connect addr w).2)%Z;
  get_takes_time : ∀ url w, (rig_clock w ≤ rig_clock (http_get_status url w).2)%Z
}.

(** The fuel lasts. *)
Definition total {A} (m : M A) : Prop := ∀ w, (m w).1 ≠ None.

Lemma total_ret {A} (r : result A string) : total (sret (Some r)).
Proof. by intros w. Qed.

Lemma total_lift {A} (m : state World (result A string)) : total (rig_lift m).
Proof. intros w. unfold rig_lift. by destruct (m w). Qed.

Lemma total_bind {A B} (m : M A) (k : A → M B) : total m → (∀ a, total (k a)) → total (rig_bind m k).
Proof.
  intros Hm Hk w. unfold rig_bind. specialize (Hm w). destruct (m w) as [[[a|e]|] w1]; simpl in *; [apply Hk|done..].
Qed.

(** So many rounds are enough: half a second each, and the last look at the
    clock. *)
Lemma poll_ends probe deadline failure :
  (∀ ms w, (rig_clock w + 1000000 * ms ≤ rig_clock (rig_sleep ms w))%Z) →
  (∀ w, (rig_clock w ≤ rig_clock (probe w).2)%Z) →
  ∀ rounds w, (0 < rounds)%nat → (deadline ≤ rig_clock w + 500000000 * (Z.of_nat rounds - 1))%Z →
  (poll probe deadline failure rounds w).1 ≠ None.
Proof.
  intros Hsleep Hprobe rounds. induction rounds as [|rounds IH]; intros w Hr Hw; [lia|]. cbn [poll].
  destruct (Z.ltb_spec (rig_clock w) deadline) as [Hlt|]; [|done].
  specialize (Hprobe w). destruct (probe w) as [[] w1]; [done|]. simpl in Hprobe. apply IH; [lia|].
  pose proof (Hsleep 500%Z w1). lia.
Qed.

(** A wait that succeeds has had a probe that did. *)
Lemma poll_succeeds probe deadline failure : ∀ rounds w w',
  poll probe deadline failure rounds w = (Some (Ok tt), w') → ∃ w1, probe w1 = (true, w').
Proof.
  induction rounds as [|rounds IH]; intros w w'; cbn [poll]; [done|].
  destruct (_ <? _)%Z; [|done]. destruct (probe w) as [[] w1] eqn:Hp; [|by apply IH].
  intros [= <-]. by exists w.
Qed.

Context `{Clock : !SteadyClock}.
(** Thirty seconds. *)
Context (fuel : nat) (Hfuel : (61 ≤ fuel)%nat).

Lemma poll_30_ends probe failure w :
  (∀ w, (rig_clock w ≤ rig_clock (probe w).2)%Z) →
  (poll probe (rig_clock w + seconds 30) failure fuel w).1 ≠ None.
Proof. intros Hp. apply poll_ends; [apply sleep_advances|done|lia|unfold seconds; lia]. Qed.

Lemma total_port host port : total (wait_for_port fuel host port (seconds 30)).
Proof. intros w. apply poll_30_ends. apply tcp_takes_time. Qed.

Lemma get_probe_steady url w : (rig_clock w ≤ rig_clock (get_succeeds url w).2)%Z.
Proof. unfold get_succeeds. pose proof (get_takes_time url w). by destruct (http_get_status url w). Qed.

Lemma total_clickhouse_http port : total (wait_for_clickhouse_http fuel port).
Proof. intros w. apply poll_30_ends. apply get_probe_steady. Qed.

Lemma total_meilisearch_http port : total (wait_for_meilisearch_http fuel port).
Proof. intros w. apply poll_30_ends. apply get_probe_steady. Qed.

Lemma total_ensure_network name : total (ensure_network name).
Proof. intros w. unfold ensure_network. destruct (dk_inspect_network name w) as [[|] w1]; [done|apply total_lift]. Qed.

Lemma total_ensure_image image : total (ensure_image image).
Proof. intros w. unfold ensure_image. destruct (dk_inspect_image image w) as [[|] w1]; [done|apply total_lift]. Qed.

Lemma total_port_or_reserved port : total (port_or_reserved port).
Proof. unfold port_or_reserved. destruct (_ =? _)%N; [apply total_lift|apply total_ret]. Qed.

Lemma total_create_and_start name config : total (create_and_start name config).
Proof. repeat (apply total_bind; [apply total_lift|intros ?]). apply total_ret. Qed.

Lemma total_start_optional {A} (start : N → M A) port : (∀ port, total (start port)) → total (start_optional start port).
Proof. intros Hs. destruct port; [apply total_bind; [done|intros ?]|]; apply total_ret. Qed.

Create HintDb rig.
#[local] Hint Resolve total_ret total_lift total_port total_clickhouse_http total_meilisearch_http total_ensure_network
  total_ensure_image total_port_or_reserved total_create_and_start total_start_optional : rig.

(** Step by step through a composition. *)
Ltac total_steps :=
  repeat first [progress intros | apply total_bind | apply total_ret | solve [eauto with rig] | case_match].

Lemma total_start_postgres network prefix port : total (start_postgres fuel network prefix port).
Proof. unfold start_postgres, start_container_with_ports, start_container_with_port_bindings, rig_ret. total_steps. Qed.

Lemma total_start_minio network prefix port : total (start_minio fuel network prefix port).
Proof. unfold start_minio, start_container_with_ports, start_container_with_port_bindings, rig_ret. total_steps. Qed.

Lemma total_start_meilisearch network prefix port : total (start_meilisearch fuel network prefix port).
Proof. unfold start_meilisearch, start_container_with_ports, start_container_with_port_bindings, rig_ret. total_steps. Qed.

Lemma total_start_clickhouse network prefix spec : total (start_clickhouse fuel network prefix spec).
Proof.
  unfold start_clickhouse, start_container_with_ports, start_container_with_port_bindings, upload_clickhouse_config,
    upload_tar_to_container, rig_ret. total_steps.
Qed.

Lemma total_start_all network prefix specs : ∀ clickhouse, total (start_all_clickhouse fuel network prefix specs clickhouse).
Proof.
  induction specs as [|spec specs IH]; intros clickhouse; [apply total_ret|].
  apply total_bind; [apply total_start_clickhouse|intros ?; apply IH].
Qed.

(** The build of a rig ends: the waits of half a minute take 61 rounds at most. *)
Theorem build_ends reached uuid builder w : (build_rig fuel reached uuid builder w).1 ≠ None.
Proof.
  revert w. change (total (build_rig fuel reached uuid builder)). unfold build_rig.
  apply total_bind; [apply total_ret|intros _]. apply total_bind; [apply total_ensure_network|intros _]. intros w.
  assert (Hs : total (start_services fuel (rig_network uuid) (replace_char "_" "-" (rig_network uuid)) builder)).
  { unfold start_services, rig_ret.
    repeat first [apply total_bind; [|intros ?] | apply total_start_all | apply total_ret
      | apply total_start_optional; intros; auto using total_start_postgres, total_start_minio, total_start_meilisearch]. }
  specialize (Hs w). destruct (start_services _ _ _ _ w) as [[[|]|] w1]; done.
Qed.
End WaitFacts.

(** ** A failed build is rolled back *)

Section Rollback.
Context {World : Type} `{Docker : !DockerApi World} `{Net : !RigNetwork World}.
Implicit Types (w : World).

(** Which running containers are attached to a network, and what the calls of
    Docker do to it: an inspection lists them, a removal detaches, and neither
    networks nor inspections attach anything. *)
Class LawfulDocker : Type := {
  attached : World → string → string → Prop;
  inspect_lists : ∀ network w r w', dk_inspect_network network w = (r, w') →
    (∀ n id, attached w' n id → attached w n id)
    ∧ ∀ ids, r = Ok (Some ids) → ∀ id, attached w network id → id ∈ ids;
  removal_detaches : ∀ id w r w', dk_remove_container id w = (r, w') →
    (∀ n i, attached w' n i → attached w n i) ∧ (r = Ok tt → ∀ n, ¬ attached w' n id);
  network_removal_attaches_nothing : ∀ network w r w', dk_remove_network network w = (r, w') →
    ∀ n id, attached w' n id → attached w n id;
  network_creation_attaches_nothing : ∀ network w r w', dk_create_network network w = (r, w') →
    ∀ n id, attached w' n id → attached w n id
}.
Context `{Laws : !LawfulDocker}.

Definition clear w (network : string) : Prop := ∀ id, ¬ attached w network id.

Lemma remove_containers_detaches ids : (∀ id w, (dk_remove_container id w).1 = Ok tt) → ∀ w,
  (∀ n i, attached (remove_containers ids w) n i → attached w n i)
  ∧ ∀ id n, id ∈ ids → ¬ attached (remove_containers ids w) n id.
Proof.
  intros Hok. induction ids as [|id ids IH]; intros w; simpl; [split; [done|by intros ? ? ?%elem_of_nil]|].
  specialize (Hok id w). destruct (dk_remove_container id w) as [r w1] eqn:Hr. simpl in *. subst r.
  destruct (removal_detaches _ _ _ _ Hr) as [Hsub Hgone]. destruct (IH w1) as [Hsub' Hgone']. split; [eauto|].
  intros i n [->|Hin]%elem_of_cons; [|by apply Hgone']. intros Ha. by apply (Hgone eq_refl n), Hsub'.
Qed.

(** Docker removes what it is told to, and inspects a network that has
    something attached. *)
Record responsive (network : string) : Prop := {
  removes : ∀ id w, (dk_remove_container id w).1 = Ok tt;
  inspects : ∀ w, clear w network ∨ ∃ ids, (dk_inspect_network network w).1 = Ok (Some ids)
}.

Lemma cleanup_clears network w : responsive network → clear (cleanup_network network w).2 network.
Proof.
  intros [Hremove Hinspect]. unfold cleanup_network.
  destruct (dk_inspect_network network w) as [info w1] eqn:Hi. destruct (inspect_lists _ _ _ _ Hi) as [Hsub Hlist].
  assert (Hw2 : clear (match info with Ok (Some ids) => remove_containers ids w1 | _ => w1 end) network).
  { destruct (Hinspect w) as [Hclear|[ids Hids]].
    - intros id Ha. apply (Hclear id), Hsub. destruct info as [[ids|]|]; [|done..].
      by apply (proj1 (remove_containers_detaches ids Hremove w1)).
    - rewrite Hi in Hids. simpl in Hids. subst info.
      destruct (remove_containers_detaches ids Hremove w1) as [Hsub' Hgone]. intros id Ha.
      apply (Hgone id network); [|done]. apply (Hlist ids eq_refl). by apply Hsub, Hsub'. }
  simpl. destruct (dk_remove_network network _) as [r w3] eqn:Hn. intros id Ha.
  apply (Hw2 id). by apply (network_removal_attaches_nothing _ _ _ _ Hn).
Qed.

(** A failed build leaves nothing running: whatever fails, no running container
    is attached to the network of the rig afterwards, when Docker lists what is
    attached and removes what it is told to. *)
Theorem failed_builds_leave_nothing_running fuel reached uuid builder w e w' :
  clear w (rig_network uuid) → responsive (rig_network uuid) →
  build_rig fuel reached uuid builder w = (Some (Err e), w') → clear w' (rig_network uuid).
Proof.
  intros Hfresh Hr. unfold build_rig, rig_bind, sret. destruct reached as [u|]; [|by intros [= _ <-]].
  assert (Hservices : ∀ w1, match start_services fuel (rig_network uuid) (replace_char "_" "-" (rig_network uuid)) builder w1 with
                            | (Some (Err error), w) => (Some (Err error), (cleanup_network (rig_network uuid) w).2)
                            | started => started
                            end = (Some (Err e), w') → clear w' (rig_network uuid)).
  { intros w1. destruct (start_services _ _ _ _ w1) as [[[rig|error]|] w2]; [done| |done]. intros [= _ <-].
    by apply cleanup_clears. }
  unfold ensure_network, rig_ret, sret, rig_lift.
  destruct (dk_inspect_network (rig_network uuid) w) as [[|] w1] eqn:Hi; [apply Hservices|].
  destruct (inspect_lists _ _ _ _ Hi) as [Hsub _].
  destruct (dk_create_network (rig_network uuid) w1) as [[|] w2] eqn:Hc; [apply Hservices|].
  intros [= _ <-] id Ha. apply (Hfresh id), Hsub. by apply (network_creation_attaches_nothing _ _ _ _ Hc).
Qed.

(** So does a shutdown. *)
Lemma shutdown_clears rig w : responsive (tr_network rig) → clear (shutdown rig w).2 (tr_network rig).
Proof. apply cleanup_clears. Qed.
End Rollback.

(** ** A rig has what was asked for *)

Section Contents.
Context {World : Type} `{Docker : !DockerApi World} `{Net : !RigNetwork World}.
#[local] Abbreviation M := (RM (World := World)).
Implicit Types (w : World).

Lemma rig_bind_Ok {A B} (m : M A) (k : A → M B) w b w' :
  rig_bind m k w = (Some (Ok b), w') ↔ ∃ a w1, m w = (Some (Ok a), w1) ∧ k a w1 = (Some (Ok b), w').
Proof.
  unfold rig_bind. destruct (m w) as [[[a|e]|] w1]; split; try done.
  - by eauto.
  - by intros (a' & w2 & [= <- <-] & H).
  - by intros (a' & w2 & H & _).
  - by intros (a' & w2 & H & _).
Qed.

(** A port that is given is used. *)
Definition uses (configured actual : N) : Prop := configured = 0%N ∨ actual = configured.

Lemma port_or_reserved_Ok configured w port w' :
  port_or_reserved configured w = (Some (Ok port), w') → uses configured port.
Proof. unfold port_or_reserved. destruct (N.eqb_spec configured 0); [by left|]. intros [= <- _]. by right. Qed.

Ltac ran := repeat match goal with H : rig_bind _ _ _ = (Some (Ok _), _) |- _ => apply rig_bind_Ok in H as (? & ? & ? & ?) end;
  unfold rig_ret, sret in *; simplify_eq/=.

Lemma start_postgres_Ok fuel network prefix port w service w' :
  start_postgres fuel network prefix port w = (Some (Ok service), w') → uses port (pgs_host_port service).
Proof. intros H. unfold start_postgres in H. ran. eauto using port_or_reserved_Ok. Qed.

Lemma start_minio_Ok fuel network prefix port w service w' :
  start_minio fuel network prefix port w = (Some (Ok service), w') → uses port (mis_host_port service).
Proof. intros H. unfold start_minio in H. ran. eauto using port_or_reserved_Ok. Qed.

Lemma start_meilisearch_Ok fuel network prefix port w service w' :
  start_meilisearch fuel network prefix port w = (Some (Ok service), w') → uses port (mes_host_port service).
Proof. intros H. unfold start_meilisearch in H. ran. eauto using port_or_reserved_Ok. Qed.

(** A node as its specification says. *)
Definition serves (spec : ClickHouseSpec) (service : ClickHouseService) : Prop :=
  chs_name service = spec_name spec ∧ uses (default 0%N (spec_host_port spec)) (chs_host_port service)
  ∧ (is_some (chs_native_host_port service) = is_some (spec_native_host_port spec)).

Lemma start_clickhouse_Ok fuel network prefix spec w service w' :
  start_clickhouse fuel network prefix spec w = (Some (Ok service), w') → serves spec service.
Proof.
  intros H. unfold start_clickhouse in H. apply rig_bind_Ok in H as (port & w1 & Hp & H).
  apply rig_bind_Ok in H as (native & w2 & Hn & H). apply port_or_reserved_Ok in Hp. ran.
  split_and!; [done|done|]. destruct (spec_native_host_port spec); by ran.
Qed.

Lemma start_all_clickhouse_Ok fuel network prefix specs : ∀ found w nodes w',
  NoDup (List.map spec_name specs) →
  start_all_clickhouse fuel network prefix specs found w = (Some (Ok nodes), w') →
  (∀ spec, spec ∈ specs → ∃ service, nodes !! spec_name spec = Some service ∧ serves spec service)
  ∧ ∀ name, name ∉ List.map spec_name specs → nodes !! name = found !! name.
Proof.
  induction specs as [|spec specs IH]; intros found w nodes w' Hd H; simpl in H.
  { injection H as <- _. split; [by intros ? ?%elem_of_nil|done]. }
  simpl in Hd. apply NoDup_cons in Hd as [Hnew Hd]. apply rig_bind_Ok in H as (service & w1 & Hs & H).
  apply start_clickhouse_Ok in Hs. pose proof Hs as (Hname & _). destruct (IH _ _ _ _ Hd H) as [Hin Hout]. split.
  - intros s [->|Hs']%elem_of_cons; [|by apply Hin]. exists service. split; [|done].
    rewrite Hout by done. by rewrite Hname, lookup_insert_eq.
  - intros name Hn. simpl in Hn. apply not_elem_of_cons in Hn as [Hne Hn]. rewrite Hout by done.
    rewrite lookup_insert_ne; [done|]. by rewrite Hname.
Qed.

Definition option_uses {A} (port_of : A → N) (configured : option N) (service : option A) : Prop :=
  match configured, service with
  | Some port, Some service => uses port (port_of service)
  | None, None => True
  | _, _ => False
  end.

Lemma start_optional_Ok {A} (start : N → M A) port_of configured w service w' :
  (∀ port w a w', start port w = (Some (Ok a), w') → uses port (port_of a)) →
  start_optional start configured w = (Some (Ok service), w') → option_uses port_of configured service.
Proof.
  intros Hs H. unfold start_optional in H. destruct configured as [port|]; [|by injection H as <- _].
  apply rig_bind_Ok in H as (a & w1 & Ha & H). injection H as <- _. simpl. by eapply Hs.
Qed.

(** A rig that is built has exactly the services that were asked for, each on
    its port where one was given, and every node under its name, when the names
    of the nodes are distinct. *)
Theorem rigs_have_what_was_asked_for fuel reached uuid builder w rig w' :
  NoDup (List.map spec_name (tb_clickhouse_specs builder)) →
  build_rig fuel reached uuid builder w = (Some (Ok rig), w') →
  tr_network rig = rig_network uuid
  ∧ option_uses pgs_host_port (tb_postgres_port builder) (tr_postgres rig)
  ∧ option_uses mis_host_port (tb_minio_port builder) (tr_minio rig)
  ∧ option_uses mes_host_port (tb_meilisearch_port builder) (tr_meilisearch rig)
  ∧ (∀ spec, spec ∈ tb_clickhouse_specs builder →
       ∃ service, rig_clickhouse_named rig (spec_name spec) = Ok service ∧ serves spec service)
  ∧ ∀ name service, rig_clickhouse_named rig name = Ok service → name ∈ List.map spec_name (tb_clickhouse_specs builder).
Proof.
  intros Hd H. unfold build_rig in H. apply rig_bind_Ok in H as (? & ? & _ & H). apply rig_bind_Ok in H as (? & w1 & _ & H).
  destruct (start_services _ _ _ _ w1) as [[[rig'|]|] w2] eqn:Hs; [|done..]. injection H as -> ->.
  unfold start_services in Hs. apply rig_bind_Ok in Hs as (postgres & w3 & Hp & Hs).
  apply rig_bind_Ok in Hs as (nodes & w4 & Hn & Hs). apply rig_bind_Ok in Hs as (minio & w5 & Hm & Hs).
  apply rig_bind_Ok in Hs as (meili & w6 & Hme & Hs). injection Hs as <- _. simpl.
  destruct (start_all_clickhouse_Ok _ _ _ _ _ _ _ _ Hd Hn) as [Hin Hout]. split_and!.
  - done.
  - eapply start_optional_Ok; [|exact Hp]. intros. by eapply start_postgres_Ok.
  - eapply start_optional_Ok; [|exact Hm]. intros. by eapply start_minio_Ok.
  - eapply start_optional_Ok; [|exact Hme]. intros. by eapply start_meilisearch_Ok.
  - intros spec Hspec. destruct (Hin spec Hspec) as (service & Hs & Hserves). exists service. split; [|done].
    unfold rig_clickhouse_named. simpl. by rewrite Hs.
  - intros name service. unfold rig_clickhouse_named. simpl. rewrite ok_or_Ok. intros Hs.
    destruct (decide (name ∈ List.map spec_name (tb_clickhouse_specs builder))) as [|Hno]; [done|].
    rewrite Hout, lookup_empty in Hs by done. done.
Qed.
End Contents.

(** ** Scripts *)

(** The quotes at the end of a text without a semicolon outside them. *)
Fixpoint ddl_state (s : string) (in_single_quote in_backtick : bool) : option (bool * bool) :=
  match s with
  | EmptyString => Some (in_single_quote, in_backtick)
  | String ch s =>
      if Ascii.eqb ch squote && negb in_backtick then ddl_state s (negb in_single_quote) in_backtick
      else if Ascii.eqb ch ddl_backtick && negb in_single_quote then ddl_state s in_single_quote (negb in_backtick)
      else if Ascii.eqb ch ";" && negb in_single_quote && negb in_backtick then None
      else ddl_state s in_single_quote in_backtick
  end.

(** A statement: trimmed, not empty, its quotes closed, its semicolons inside
    quotes. *)
Definition ddl_statement (s : string) : Prop := trim s = s ∧ s ≠ "" ∧ ddl_state s false false = Some (false, false).

Lemma split_ddl_piece s : ∀ rest current sq bt sq' bt',
  ddl_state s sq bt = Some (sq', bt') → split_ddl (s +:+ rest) current sq bt = split_ddl rest (current +:+ s) sq' bt'.
Proof.
  induction s as [|ch s IH]; intros rest current sq bt sq' bt' H.
  { injection H as -> ->. by rewrite string_app_nil_l, string_app_nil_r. }
  assert (Hpush : current +:+ String ch s = (current +:+ char_text ch) +:+ s) by (by rewrite string_app_assoc).
  rewrite string_app_cons, Hpush. simpl in *. destruct (_ && negb bt); [by apply IH|]. destruct (_ && negb sq); [by apply IH|].
  destruct (_ && negb bt); [done|]. by apply IH.
Qed.

Lemma trim_newline s : trim (newline_text +:+ s) = trim s.
Proof. done. Qed.

Lemma push_statement s : ddl_statement s → push_trimmed s = [s] ∧ push_trimmed (newline_text +:+ s) = [s].
Proof.
  intros (Ht & Hne & _). unfold push_trimmed. rewrite trim_newline, Ht. by destruct (String.eqb_spec s "").
Qed.

(** A script of statements, one after another, is split into them: what is in
    quotes does not split. *)
Theorem scripts_are_split (statements : list string) :
  Forall ddl_statement statements → split_ddl_statements (string_join (";" +:+ newline_text) statements) = statements.
Proof.
  intros Hall. unfold split_ddl_statements.
  assert (Hgo : ∀ current, current = "" ∨ current = newline_text →
            split_ddl (string_join (";" +:+ newline_text) statements) current false false = statements); [|by apply Hgo; left].
  induction Hall as [|s statements Hs Hall IH]; intros current Hc.
  { by destruct Hc as [->| ->]. }
  pose proof (push_statement s Hs) as [Hp Hp']. destruct Hs as (_ & _ & Hq).
  assert (Hcur : push_trimmed (current +:+ s) = [s]) by (by destruct Hc as [->| ->]).
  destruct statements as [|s' statements].
  - simpl. rewrite <-(string_app_nil_r s) at 1. rewrite (split_ddl_piece _ _ _ _ _ _ _ Hq). simpl. by rewrite Hcur.
  - change (string_join (";" +:+ newline_text) (s :: s' :: statements))
      with (s +:+ (";" +:+ newline_text) +:+ string_join (";" +:+ newline_text) (s' :: statements)).
    rewrite (split_ddl_piece _ _ _ _ _ _ _ Hq), string_app_assoc.
    change (split_ddl (";" +:+ newline_text +:+ string_join (";" +:+ newline_text) (s' :: statements)) (current +:+ s) false false)
      with (push_trimmed (current +:+ s)
              ++ split_ddl (string_join (";" +:+ newline_text) (s' :: statements)) newline_text false false).
    rewrite Hcur, IH by (by right). done.
Qed.

Lemma scripts_are_split_witness :
  Forall ddl_statement ["CREATE TABLE a (x String DEFAULT ';')"; "DROP TABLE `b;`"]
  ∧ split_ddl_statements (string_join (";" +:+ newline_text) ["CREATE TABLE a (x String DEFAULT ';')"; "DROP TABLE `b;`"])
    = ["CREATE TABLE a (x String DEFAULT ';')"; "DROP TABLE `b;`"].
Proof.
  assert (H : Forall ddl_statement ["CREATE TABLE a (x String DEFAULT ';')"; "DROP TABLE `b;`"])
    by (repeat constructor; by vm_compute).
  split; [exact H|]. exact (scripts_are_split _ H).
Defined.

(** A quote in a comment opens a string, and so does one after a backslash:
    the statements after it are not split. *)
Example quotes_in_comments :
  split_ddl_statements ("-- don't" +:+ newline_text +:+ "CREATE TABLE a; CREATE TABLE b")
  = ["-- don't" +:+ newline_text +:+ "CREATE TABLE a; CREATE TABLE b"]
  ∧ split_ddl_statements "SELECT 'it\'s'; SELECT 2" = ["SELECT 'it\'s'; SELECT 2"].
Proof. by vm_compute. Qed.

(** ** Queries in a URL *)

Lemma decode_encoded c rest : Ascii.eqb c "%" = false →
  percent_decode (encode_char c +:+ rest) = String c (percent_decode rest).
Proof.
  intros Hc. unfold encode_char. repeat (match goal with |- context [Ascii.eqb c ?d] => destruct (Ascii.eqb_spec c d) as [->|] end; [done|]).
  unfold char_text. rewrite string_app_cons, string_app_nil_l. cbn [percent_decode]. by rewrite Hc.
Qed.

(** A query without a percent sign arrives as it was. *)
Theorem queries_arrive s : find_char "%" s = None → percent_decode (encode_query s) = s.
Proof.
  induction s as [|c s IH]; intros H; [done|]. simpl in H. destruct (Ascii.eqb c "%") eqn:Hc; [done|].
  cbn [encode_query]. rewrite decode_encoded by done. rewrite IH; [done|]. by destruct (find_char "%" s).
Qed.

Lemma queries_arrive_witness : find_char "%" "SELECT 1; -- a&b" = None ∧ percent_decode (encode_query "SELECT 1; -- a&b") = "SELECT 1; -- a&b".
Proof. split; [reflexivity|]. apply queries_arrive. reflexivity. Defined.

(** One with a percent sign need not. *)
Example a_percent_sign_is_lost : percent_decode (encode_query "SELECT 'a%41'") = "SELECT 'aA'".
Proof. by vm_compute. Qed.

(** ** Probes *)

Section ProbeFacts.
Context {World : Type} `{Net : !RigNetwork World}.

Lemma probe_attempts_Ok config addr : ∀ left_attempts attempt w w',
  (N.to_nat (max_attempts config) = N.to_nat attempt + left_attempts - 1)%nat → (0 < attempt)%N → (0 < left_attempts)%nat →
  probe_attempts config addr attempt left_attempts w = (Ok tt, w') → ∃ w1, connect_timeout addr w1 = (Ok tt, w').
Proof.
  induction left_attempts as [|n IH]; intros attempt w w' Hmax Hpos Hn; [lia|]. cbn [probe_attempts].
  destruct (connect_timeout addr w) as [[[]|[e|e|e]] w1] eqn:Hc; [by intros [= <-]; exists w| | |done].
  all: destruct (N.eqb_spec attempt (max_attempts config)) as [|Hne]; [done|]; apply IH; lia.
Qed.

(** A probe that says that the port is open has reached it, when it may try at
    all. *)
Theorem probes_reach_the_port addr config w w' :
  (0 < max_attempts config)%N → wait_for_tcp_port addr config w = (Ok tt, w') →
  ∃ a w1, to_socket_addrs addr = Ok a ∧ match a with a :: _ => connect_timeout a w1 = (Ok tt, w') | [] => False end.
Proof.
  intros Hmax. unfold wait_for_tcp_port. destruct (to_socket_addrs addr) as [[|a l]|] eqn:Ha; [done| |done].
  intros H. destruct (probe_attempts_Ok config a (N.to_nat (max_attempts config)) 1 w w' ltac:(lia) ltac:(lia) ltac:(lia) H) as [w1 H1].
  by exists (a :: l), w1.
Qed.

(** With no attempts it says so without a look. *)
Lemma no_attempts_succeed addr a config w :
  max_attempts config = 0%N → to_socket_addrs addr = Ok [a] → wait_for_tcp_port addr config w = (Ok tt, w).
Proof. intros Hz Ha. unfold wait_for_tcp_port. by rewrite Ha, Hz. Qed.
End ProbeFacts.

(** ** Builders *)

(** Nodes that are added by name alone have distinct names. *)
Lemma named_nodes_are_distinct name builder :
  NoDup (List.map spec_name (tb_clickhouse_specs builder)) →
  NoDup (List.map spec_name (tb_clickhouse_specs (with_clickhouse_named name builder))).
Proof.
  intros Hd. unfold with_clickhouse_named. destruct (existsb _ _) eqn:He; [done|]. simpl. rewrite List.map_app.
  apply NoDup_app. split_and!; [done| |apply NoDup_singleton]. intros x Hx ->%list_elem_of_singleton.
  apply list_elem_of_fmap in Hx as (spec & Heq & Hin). simpl in Heq.
  assert (existsb (λ spec, String.eqb (spec_name spec) name) (tb_clickhouse_specs builder) = true); [|congruence].
  apply existsb_exists. exists spec. split; [by apply list_elem_of_In|]. by apply String.eqb_eq.
Qed.

(** A node with a native port is added under a name that is taken, and the port
    of the default node goes to the first one. *)
Example nodes_with_one_name :
  List.map spec_name (tb_clickhouse_specs (with_clickhouse_named_native "a" None (Some 0%N) (with_clickhouse_named "a" TestRigBuilder_default)))
  = ["a"; "a"]
  ∧ tb_clickhouse_specs (with_clickhouse_on_port 8124 (with_clickhouse_named "clickhouse" (with_clickhouse_named "ch2" TestRigBuilder_default)))
    = [{| spec_name := "ch2"; spec_host_port := Some 8124%N; spec_native_host_port := None |};
       {| spec_name := "clickhouse"; spec_host_port := None; spec_native_host_port := None |}].
Proof. by vm_compute. Qed.

(** ** Resets *)

(** The name of a table in a reset reads back, whatever follows. *)
Lemma table_reads_back name rest :
  starts_with (λ c, Ascii.eqb c dquote) rest = false → read_identifier (quoted_table name +:+ rest) = Some (name, rest).
Proof.
  intros Hr. unfold quoted_table. rewrite !string_app_assoc.
  change (char_text dquote +:+ ?s) with (String dquote s). cbn [read_identifier].
  change (Ascii.eqb dquote dquote) with true. cbv iota. by apply read_doubled.
Qed.

(** ** Credentials *)

Section AuthOrder.
Context {World Number : Type} `{Cmd : !Commands World} `{Crates : !AuthCrates}.
Context (environment : string → option string) (read_file : string → result string string)
  (parse_json : string → result (Json Number) string).

(** The order of the sources: the variable, the entry of the file, the helper of
    the registry, the store of all registries; the helpers are asked exactly
    when the file has no entry that reads. *)
Theorem sources_in_order registry env_prefix w :
  resolve_registry_auth environment read_file parse_json registry env_prefix w =
  match env_var environment (env_prefix +:+ "_" +:+ to_uppercase registry +:+ "_PAT") with
  | Some token => (Ok (Some (AuthBearer token)), w)
  | None =>
      match load_docker_config environment read_file parse_json with
      | Err e => (Err e, w)
      | Ok config =>
          match auth_of_entry config registry with
          | Err e => (Err e, w)
          | Ok (Some auth) => (Ok (Some auth), w)
          | Ok None =>
              match option_or_else (dc_cred_helpers config ≫= json_get registry) (dc_creds_store config) with
              | Some helper => resolve_via_credential_helper parse_json helper registry w
              | None => (Ok None, w)
              end
          end
      end
  end.
Proof.
  unfold resolve_registry_auth. destruct (env_var _ _); [done|].
  destruct (load_docker_config _ _ _) as [config|e]; [|done]. cbn [rbind].
  destruct (auth_of_entry config registry) as [[auth|]|e]; [done| |done]. cbn [rbind].
  destruct (dc_cred_helpers config ≫= json_get registry) as [helper|]; [done|]. by destruct (dc_creds_store config).
Qed.
End AuthOrder.

(** ** A small Docker

    Containers under their names, with their network and whether they run; a
    container that is bound to the port 5432 of the host does not start, and
    every port answers. *)
Record SmallDocker := { sd_networks : list string; sd_containers : list (string * (string * bool * bool)); sd_clock : Z }.

Definition set_containers (w : SmallDocker) (l : list (string * (string * bool * bool))) : SmallDocker :=
  {| sd_networks := sd_networks w; sd_containers := l; sd_clock := sd_clock w |}.

Definition set_networks (w : SmallDocker) (l : list string) : SmallDocker :=
  {| sd_networks := l; sd_containers := sd_containers w; sd_clock := sd_clock w |}.

Definition runs_on (network : string) (c : string * (string * bool * bool)) : bool := String.eqb c.2.1.1 network && c.2.1.2.

Definition is_taken (config : ContainerCreateBody) : bool :=
  match cc_port_bindings config with
  | Some bindings => existsb (λ b, String.eqb b.2.2 "5432") (map_to_list bindings)
  | None => false
  end.

#[local] Instance small_docker : DockerApi SmallDocker :=
  {| dk_inspect_network n w :=
       (if existsb (String.eqb n) (sd_networks w) || existsb (runs_on n) (sd_containers w) then Ok (Some (List.map fst (List.filter (runs_on n) (sd_containers w))))
        else Err "no such network", w);
     dk_create_network n w := (Ok tt, set_networks w (n :: sd_networks w));
     dk_remove_network n w := (Ok tt, set_networks w (List.filter (λ m, negb (String.eqb m n)) (sd_networks w)));
     dk_create_container name config w :=
       (Ok name, set_containers w (sd_containers w ++ [(name, (cc_network_mode config, false, is_taken config))]));
     dk_start_container id w :=
       if existsb (λ c, String.eqb c.1 id && c.2.2) (sd_containers w) then (Err "port is already allocated", w)
       else (Ok tt, set_containers w (List.map (λ c, if String.eqb c.1 id then (c.1, (c.2.1.1, true, c.2.2)) else c) (sd_containers w)));
     dk_remove_container id w := (Ok tt, set_containers w (List.filter (λ c, negb (String.eqb c.1 id)) (sd_containers w)));
     dk_wait_container id w := ([Err "exited with 3"], w); dk_logs id w := ([Ok "done"], w);
     dk_inspect_image image w := (Ok tt, w); dk_create_image image w := ([], w); dk_upload id path tar w := (Ok tt, w);
     dk_tag_image image repo tag w := (Ok tt, w); dk_push_image repo tag w := ([], w) |}.

#[local] Instance small_network : RigNetwork SmallDocker :=
  {| rig_clock := sd_clock;
     rig_sleep ms w := {| sd_networks := sd_networks w; sd_containers := sd_containers w; sd_clock := sd_clock w + 1000000 * ms |};
     tcp_connect addr w := (true, w); http_get_status url w := (Some true, w); http_post url w := (Ok (true, "200 OK", "1"), w);
     bind_ephemeral w := (Ok 40000%N, w); to_socket_addrs addr := Ok [addr]; connect_timeout addr w := (Err (TimedOut "timed out"), w);
     pgc_connect url w := (Ok tt, w); pgc_tables url w := (Ok [], w); pgc_batch url sql w := (Ok tt, w); pgc_finish url w := (Ok tt, w);
     chc_tables url db w := (Ok [], w); chc_execute url db sql w := (Ok tt, w); tar_of name data := Ok data;
     debug_duration ns := show_Z (ns / 1000000000) +:+ "s" |}.

Lemma small_clock : SteadyClock.
Proof. split; simpl; intros; lia. Qed.

Definition small_attached (w : SmallDocker) (network id : string) : Prop :=
  ∃ c, c ∈ sd_containers w ∧ c.1 = id ∧ runs_on network c = true.

Lemma small_filter (f : string * (string * bool * bool) → bool) w n id :
  small_attached (set_containers w (List.filter f (sd_containers w))) n id → small_attached w n id.
Proof.
  intros (c & Hin & H). exists c. split; [|done]. simpl in Hin. apply list_elem_of_In, List.filter_In in Hin as [Hin _].
  by apply list_elem_of_In.
Qed.

Definition small_laws : LawfulDocker (World := SmallDocker).
Proof.
  refine {| attached := small_attached |}.
  - intros network w r w' [= <- <-]. split; [done|]. destruct (_ || _); [|done]. intros ids [= <-] id (c & Hin & <- & Hr).
    apply list_elem_of_In, List.in_map, List.filter_In. by split; [apply list_elem_of_In|].
  - intros id w r w' [= <- <-]. split; [intros n i; apply small_filter|].
    intros _ n (c & Hin & Hid & _). simpl in Hin. apply list_elem_of_In, List.filter_In in Hin as [_ Hne].
    rewrite Hid, String.eqb_refl in Hne. done.
  - intros network w r w' [= <- <-]. done.
  - intros network w r w' [= <- <-]. done.
Defined.

Definition no_containers : SmallDocker := {| sd_networks := []; sd_containers := []; sd_clock := 0 |}.

(** MinIO runs, and PostgreSQL does not start on a port that is taken. *)
Definition taken_port : TestRigBuilder := with_service_on_port SPostgres 5432 (with_service SMinio TestRigBuilder_default).
Definition two_nodes : TestRigBuilder :=
  with_clickhouse_named_native "b" None (Some 9001%N) (with_clickhouse_on_port 8124 (with_clickhouse TestRigBuilder_default)).

Lemma build_ends_witness :
  (61 ≤ 61)%nat ∧ (build_rig (World := SmallDocker) 61 (Ok tt) "0" taken_port no_containers).1 ≠ None.
Proof. split; [lia|]. apply (build_ends (Clock := small_clock)). lia. Defined.

Definition two_nodes_run := build_rig (World := SmallDocker) 61 (Ok tt) "0" two_nodes no_containers.

Lemma two_nodes_are_built : match two_nodes_run.1 with Some (Ok _) => true | _ => false end = true.
Proof. vm_compute. reflexivity. Qed.

Lemma rigs_have_what_was_asked_for_witness :
  ∃ rig w', two_nodes_run = (Some (Ok rig), w')
    ∧ ∃ service, rig_clickhouse_named rig "b" = Ok service ∧ is_some (chs_native_host_port service) = true.
Proof.
  pose proof two_nodes_are_built as Hok. destruct two_nodes_run as [[[rig|]|] w'] eqn:Hb; [|discriminate Hok..].
  exists rig, w'. split; [reflexivity|].
  destruct (rigs_have_what_was_asked_for 61 (Ok tt) "0" two_nodes no_containers rig w') as (_ & _ & _ & _ & Hn & _).
  - apply (bool_decide_unpack _). reflexivity.
  - exact Hb.
  - destruct (Hn {| spec_name := "b"; spec_host_port := None; spec_native_host_port := Some 9001%N |}) as (service & Hs & _ & _ & Hp).
    + apply elem_of_cons. right. apply elem_of_cons. by left.
    + exists service. split; [exact Hs|exact Hp].
Defined.

Definition taken_run := build_rig (World := SmallDocker) 61 (Ok tt) "0" taken_port no_containers.

Lemma taken_port_fails : match taken_run.1 with Some (Err e) => e | _ => "" end = "port is already allocated".
Proof. vm_compute. reflexivity. Qed.

Lemma small_responsive network : responsive (Laws := small_laws) network.
Proof.
  split; [reflexivity|]. intros w. simpl.
  destruct (existsb (runs_on network) (sd_containers w)) eqn:He; [right; rewrite orb_true_r; by eexists|].
  left. intros id (c & Hin & _ & Hr). assert (Htrue : existsb (runs_on network) (sd_containers w) = true); [|congruence].
  apply existsb_exists. exists c. split; [by apply list_elem_of_In|done].
Qed.

Lemma failed_builds_leave_nothing_running_witness :
  ∃ w', taken_run = (Some (Err "port is already allocated"), w') ∧ clear (Laws := small_laws) w' (rig_network "0").
Proof.
  pose proof taken_port_fails as Hok. destruct taken_run as [[[rig|e]|] w'] eqn:Hb; [discriminate Hok| |discriminate Hok].
  cbn in Hok. subst e. exists w'. split; [reflexivity|].
  apply (failed_builds_leave_nothing_running (Laws := small_laws) 61 (Ok tt) "0" taken_port no_containers "port is already allocated" w').
  - intros id (c & Hin & _). exact (proj1 (elem_of_nil c) Hin).
  - apply small_responsive.
  - exact Hb.
Defined.

(** The container that did not start is attached to no network: it is left. *)
Example a_container_that_did_not_start_is_left :
  List.map fst (sd_containers taken_run.2) = ["syndb-test-rig-0-postgres"].
Proof. vm_compute. reflexivity. Qed.

(** So is one whose wait ends with an error, with what it has written. *)
Example a_failed_wait_leaves_its_container :
  let '(r, w) := run_container_to_completion (World := SmallDocker) "job" "net" "image" [] ["run"] no_containers in
  r = Some (Err "exited with 3") ∧ List.map fst (sd_containers w) = ["job"].
Proof. vm_compute. split; reflexivity. Qed.

(** ** Credentials of Docker *)

Definition plain_crates : AuthCrates :=
  {| to_uppercase := to_ascii_uppercase; auth_base64_decode := Ok; auth_utf8_error := "invalid utf-8"; mismatch := "invalid type" |}.

(** Docker writes [credsStore] and [credHelpers], which are not the names of
    the fields: no helper is asked. *)
Example helpers_are_not_found :
  (resolve_registry_auth (World := unit) (Number := unit) (Cmd := says "{}") (Crates := plain_crates)
     (λ name, if String.eqb name "HOME" then Some "/home/u" else None) (λ _, Ok "config")
     (λ _, Ok (JObject [("credsStore", JString "desktop"); ("credHelpers", JObject [("ghcr.io", JString "gh")])]))
     "ghcr.io" "CI" tt).1 = Ok None.
Proof. vm_compute. reflexivity. Qed.
