(* ===== verification/Bindings.v ===== *)
(** The bindings of the library: Python ([queryfabric-python]), the editor as a
    component of two web frameworks ([queryfabric-leptos],
    [queryfabric-dioxus]), and the types of an ORM ([queryfabric-seaorm-ext]).

    What PyO3 extracts from a Python object is the class [PyO3]; an error is the
    message of the exception.  An object is read with fuel, since a list may
    contain itself; [python_values_arrive] says how much is enough.  The classes
    of the module wrap the values of the library, and are those values here;
    their conversions to dictionaries and texts are made by other crates. *)
From Stdlib Require Import Ascii.
From S2P Require Import Prelude Types BTreeMap Diagnostics Syntax Bound Catalog CatalogFacts Cost Suggest Render Adapters ClickHouse SqlDialect Syql Json Inspect Facade HostConfig.
Local Open Scope result_scope.

(** ** Python: [queryfabric-python/src/lib.rs] *)

Class PyO3 `{!SerdeJson} := {
  PyObject : Type;
  PyFloat : Type;
  py_is_none : PyObject → bool;
  extract_bool : PyObject → option bool;
  extract_i64 : PyObject → option Z;
  extract_f64 : PyObject → option PyFloat;
  extract_string : PyObject → option string;
  extract_list : PyObject → option (list PyObject);
  cast_dict : PyObject → option (list (PyObject * PyObject));
  type_name : PyObject → option string;
  number_of_i64 : Z → JsonNumber;
  (** None for what is not finite. *)
  number_of_f64 : PyFloat → option JsonNumber
}.

Section Python.
Context `{!SerdeJson} `{Py : !PyO3} `{!JsonMap JsonNumber}.

(** [None]: the object is nested too deeply for the fuel. *)
Definition PyResult (A : Type) : Type := option (result A string).

Definition py_bind {A B} (m : PyResult A) (k : A → PyResult B) : PyResult B :=
  match m with Some (Ok a) => k a | Some (Err e) => Some (Err e) | None => None end.

(** [collect] of the elements. *)
Definition py_collect {A B} (f : A → PyResult B) : list A → PyResult (list B) :=
  fix go l :=
    match l with
    | [] => Some (Ok [])
    | x :: l => py_bind (f x) (λ y, py_bind (go l) (λ ys, Some (Ok (y :: ys))))
    end.

(** The loop over the entries of a dictionary. *)
Definition py_entries (read : PyObject → PyResult (Json JsonNumber))
    : list (PyObject * PyObject) → list (string * Json JsonNumber) → PyResult (list (string * Json JsonNumber)) :=
  fix go entries map :=
    match entries with
    | [] => Some (Ok map)
    | (key, value) :: entries =>
        match extract_string key with
        | None => Some (Err "parameter objects require string keys")
        | Some key => py_bind (read value) (λ value, go entries (map_insert key value map))
        end
    end.

Fixpoint json_value_from_py (fuel : nat) (value : PyObject) : PyResult (Json JsonNumber) :=
  match fuel with
  | O => None
  | S fuel =>
      if py_is_none value then Some (Ok JNull)
      else
        match extract_bool value with
        | Some boolean => Some (Ok (JBool boolean))
        | None =>
        match extract_i64 value with
        | Some integer => Some (Ok (JNumber (number_of_i64 integer)))
        | None =>
        match extract_f64 value with
        | Some float =>
            Some (let? number := ok_or (number_of_f64 float) "unsupported non-finite float value" in Ok (JNumber number))
        | None =>
        match extract_string value with
        | Some text => Some (Ok (JString text))
        | None =>
        match extract_list value with
        | Some list => py_bind (py_collect (json_value_from_py fuel) list) (λ values, Some (Ok (JArray values)))
        | None =>
        match cast_dict value with
        | Some dict => py_bind (py_entries (json_value_from_py fuel) dict []) (λ map, Some (Ok (JObject map)))
        | None =>
            Some (Err ("unsupported parameter value type `" +:+ default "unknown" (type_name value) +:+ "`"))
        end end end end end end
  end.

(** [to_py_err]. *)
Definition to_py {A} (r : Result A) : result A string := map_err query_error_text r.

Definition parameter_value_from_py (fuel : nat) (value : PyObject) : PyResult ParameterValue :=
  py_bind (json_value_from_py fuel value) (λ json, Some (to_py (parameter_value_from_json json))).

(** *** [QueryParameters]: a failed insertion changes nothing *)

Definition py_insert_positional (fuel : nat) (position : N) (value : PyObject) (self : QueryParameters)
    : PyResult unit * QueryParameters :=
  match parameter_value_from_py fuel value with
  | Some (Ok value) => (Some (Ok tt), insert_positional self position value)
  | Some (Err e) => (Some (Err e), self)
  | None => (None, self)
  end.

Definition py_insert_named (fuel : nat) (name : string) (value : PyObject) (self : QueryParameters)
    : PyResult unit * QueryParameters :=
  match parameter_value_from_py fuel value with
  | Some (Ok value) => (Some (Ok tt), insert_named self name value)
  | Some (Err e) => (Some (Err e), self)
  | None => (None, self)
  end.

(** *** Types, kinds and schemas *)

Definition data_type_from_name (name : string) : result DataType string :=
  let lower := to_ascii_lowercase name in
  let among := List.existsb (String.eqb lower) in
  if among ["boolean"; "bool"] then Ok TBoolean
  else if among ["int32"] then Ok TInt32
  else if among ["int64"; "int"; "integer"] then Ok TInt64
  else if among ["float64"; "float"; "double"] then Ok TFloat64
  else if among ["utf8"; "string"; "text"] then Ok TUtf8
  else if among ["uuid"] then Ok TUuid
  else if among ["json"] then Ok TJson
  else if among ["date"] then Ok TDate
  else if among ["unknown"] then Ok TUnknown
  else Err ("unsupported data type `" +:+ lower +:+ "`").

Definition relation_kind_from_name (name : string) : result RelationKind string :=
  let lower := to_ascii_lowercase name in
  let among := List.existsb (String.eqb lower) in
  if among ["table"] then Ok RTable
  else if among ["view"] then Ok RView
  else if among ["materialized_view"; "materialized-view"; "materializedview"] then Ok RMaterializedView
  else Err ("unsupported relation kind `" +:+ lower +:+ "`").

(** A [HashMap] is the list of its entries. *)
Definition py_field_metadata (metadata : option (list (string * string))) : FieldMetadata :=
  match metadata with
  | Some metadata =>
      {| unit_ := None; coordinate_reference_system := None; ontology_id := None; modality := None; provenance_ := None;
         measurement_scale := None; shape := []; extensions := bt_from_list metadata |}
  | None => FieldMetadata_default
  end.

Definition py_column_schema (name : string) (data_type : DataType) (nullable : option bool)
    (metadata : option (list (string * string))) : ColumnSchema :=
  {| column_name := name; column_type := data_type; column_nullable := default true nullable;
     column_metadata := py_field_metadata metadata |}.

Definition py_relation_schema (name : string) (columns : list ColumnSchema) (namespace : option string)
    (aliases : option (list string)) (kind : option RelationKind) (metadata : option (list (string * string)))
    : RelationSchema :=
  {| rel_namespace := namespace; rel_name := name; rel_aliases := default [] aliases;
     rel_kind := default RTable kind; rel_columns := columns; rel_metadata := bt_from_list (default [] metadata) |}.

(** *** Catalogs *)

Section Documents.
(** [serde_json::from_value] and [from_str] of a document. *)
Context (document_from_value : Json JsonNumber → result CatalogDocument string)
  (document_from_str : string → result CatalogDocument string).

Definition py_catalog_from_dict (fuel : nat) (document : PyObject) : PyResult MemoryCatalog :=
  py_bind (json_value_from_py fuel document) (λ value,
  Some (let? document := document_from_value value in Ok (from_document document))).

Definition py_catalog_from_json (document : string) : result MemoryCatalog string :=
  let? document := document_from_str document in Ok (from_document document).
End Documents.

(** *** The functions of the module *)

Context `{!Blake3} `{!Unicode} `{!SqlParser} `{!HostPlatform}.
Context (cargo_pkg_version : string).

Definition py_parse_sql (text : string) : result ParsedQuery string :=
  to_py (compiler_parse QueryCompiler_default GenericSqlDialect text).

Definition py_parse_syql (text : string) : result ParsedQuery string :=
  to_py (compiler_parse QueryCompiler_default SyqlDialect text).

Definition py_bind_and_validate (parsed : ParsedQuery) (catalog : MemoryCatalog) (params : option QueryParameters)
    : result BoundQuery string :=
  to_py (compiler_bind_and_validate cargo_pkg_version QueryCompiler_default parsed (memory_catalog catalog)
           (default QueryParameters_default params)).

Definition py_analyze (adapter : BackendAdapter) (bound : BoundQuery) (catalog : MemoryCatalog) : BackendAnalysis :=
  compiler_analyze bound adapter (memory_catalog catalog).
Definition analyze_clickhouse : BoundQuery → MemoryCatalog → BackendAnalysis := py_analyze ClickHouseAdapter.
Definition analyze_postgres : BoundQuery → MemoryCatalog → BackendAnalysis := py_analyze PostgresAdapter.

Definition py_emit (adapter : BackendAdapter) (bound : BoundQuery) (catalog : MemoryCatalog) : result SqlArtifact string :=
  let? artifact := to_py (compiler_emit bound adapter (memory_catalog catalog)) in
  ok_or (as_sql artifact) "expected SQL artifact".
Definition emit_clickhouse_sql : BoundQuery → MemoryCatalog → result SqlArtifact string := py_emit ClickHouseAdapter.
Definition emit_postgres_sql : BoundQuery → MemoryCatalog → result SqlArtifact string := py_emit PostgresAdapter.

(** The getters of a parsed query, and the texts of the objects. *)
Definition py_table (self : ParsedQuery) : string := default "<query>" (primary_relation (inspect_query self None)).
Definition py_columns (self : ParsedQuery) : option (list string) := projected_columns (inspect_query self None).
Definition py_predicate_count (self : ParsedQuery) : N := predicate_count (inspect_query self None).
Definition py_limit (self : ParsedQuery) : option N := row_limit (inspect_query self None).
Definition py_scope (self : ParsedQuery) : string := sum_scope (inspect_query self None).
Definition py_output_format (self : ParsedQuery) : string := output_format (inspect_query self None).

Definition py_parsed_repr (self : ParsedQuery) : string :=
  "ParsedQuery(dialect=" +:+ debug_str (pq_dialect self) +:+ ", sql=" +:+ debug_str (pq_canonical_sql self) +:+ ")".
Definition py_bound_repr (self : BoundQuery) : string :=
  "BoundQuery(sql=" +:+ debug_str (pq_canonical_sql (bound_parsed self)) +:+ ")".
End Python.

(** ** The editor: [queryfabric-leptos], [queryfabric-dioxus]

    A component is the attributes of its element, in their order, and its
    content; a property that is not given has its default. *)

Record SyqlEditorProps := {
  ed_class : option string;
  ed_id : option string;
  ed_name : option string;
  ed_value : option string;
  ed_rows : option N;
  (** Only of Dioxus. *)
  ed_required : option bool;
  ed_catalog_url : option string;
  ed_validate_url : option string
}.

Inductive Attribute := AText (value : string) | ANumber (value : N) | AFlag (value : bool).

Record Element := { el_tag : string; el_attributes : list (string * Attribute); el_content : string }.

Definition DEFAULT_CLASS : string := "form-control syql-editor".
Definition DEFAULT_ID : string := "syql-query".
Definition DEFAULT_NAME : string := "query".
Definition DEFAULT_VALUE : string := "FROM records LIMIT 10".
Definition DEFAULT_CATALOG_URL : string := "/static/queryfabric_catalog.json".
Definition DEFAULT_VALIDATE_URL : string := "/_ui/query/syql/validate".

Definition leptos_editor (props : SyqlEditorProps) : Element :=
  {| el_tag := "textarea";
     el_attributes :=
       [("id", AText (default "syql-query" (ed_id props))); ("name", AText (default "query" (ed_name props)));
        ("class", AText (default "form-control syql-editor" (ed_class props))); ("rows", ANumber (default 12%N (ed_rows props)));
        ("spellcheck", AText "false"); ("data-queryfabric-syql-editor", AText "true");
        ("data-queryfabric-catalog-url", AText (default "/static/queryfabric_catalog.json" (ed_catalog_url props)));
        ("data-queryfabric-validate-url", AText (default "/_ui/query/syql/validate" (ed_validate_url props)))];
     el_content := default "FROM records LIMIT 10" (ed_value props) |}.

Definition dioxus_editor (props : SyqlEditorProps) : Element :=
  {| el_tag := "textarea";
     el_attributes :=
       [("id", AText (default DEFAULT_ID (ed_id props))); ("name", AText (default DEFAULT_NAME (ed_name props)));
        ("class", AText (default DEFAULT_CLASS (ed_class props))); ("rows", ANumber (default 12%N (ed_rows props)));
        ("required", AFlag (default false (ed_required props)));
        ("spellcheck", AText "false"); ("data-queryfabric-syql-editor", AText "true");
        ("data-queryfabric-catalog-url", AText (default DEFAULT_CATALOG_URL (ed_catalog_url props)));
        ("data-queryfabric-validate-url", AText (default DEFAULT_VALIDATE_URL (ed_validate_url props)));
        ("value", AText (default DEFAULT_VALUE (ed_value props)))];
     el_content := "" |}.

(** Both frameworks. *)
Definition editor_script : Element :=
  {| el_tag := "script"; el_attributes := [("type", AText "module"); ("src", AText "/static/queryfabric_syql_editor.js")];
     el_content := "" |}.

(** ** The ORM: [queryfabric-seaorm-ext/src/lib.rs] *)

(** A shared connection forwards every call to the one it wraps. *)
Class ConnectionTrait (Connection World : Type) := {
  DbBackend : Type;
  Statement : Type;
  ExecResult : Type;
  QueryResult : Type;
  get_database_backend : Connection → DbBackend;
  execute_raw : Connection → Statement → state World (result ExecResult string);
  execute_unprepared : Connection → string → state World (result ExecResult string);
  query_one_raw : Connection → Statement → state World (result (option QueryResult) string);
  query_all_raw : Connection → Statement → state World (result (list QueryResult) string)
}.

Record SharedDatabaseConnection (Connection : Type) := { shared : Connection }.
#[global] Arguments shared {Connection}.

#[export] Instance shared_connection {Connection World} `{!ConnectionTrait Connection World}
    : ConnectionTrait (SharedDatabaseConnection Connection) World :=
  {| get_database_backend self := get_database_backend (shared self);
     execute_raw self stmt := execute_raw (shared self) stmt;
     execute_unprepared self sql := execute_unprepared (shared self) sql;
     query_one_raw self stmt := query_one_raw (shared self) stmt;
     query_all_raw self stmt := query_all_raw (shared self) stmt |}.

(** ** Facts: Python *)

Section PythonFacts.
Context `{Serde : !SerdeJson} `{Py : !PyO3} `{JMap : !JsonMap JsonNumber} `{JMap_ok : !LawfulJsonMap JsonNumber}.
Implicit Types (v : Json JsonNumber).

(** What Python objects made of JSON documents are like: a truth value is one,
    an integer of 64 bits is extracted as it is, a float as its number, a text is
    a text and no list, and dictionaries have texts as their keys. *)
Class PythonLaws := {
  py_of_json : Json JsonNumber → PyObject;
  none_of_json v : py_is_none (py_of_json v) = match v with JNull => true | _ => false end;
  bool_of_json v : extract_bool (py_of_json v) = match v with JBool b => Some b | _ => None end;
  i64_of_json v z : extract_i64 (py_of_json v) = Some z →
    match v with JNumber n => number_of_i64 z = n | JBool _ => True | _ => False end;
  f64_of_json v f : extract_f64 (py_of_json v) = Some f →
    match v with JNumber n => extract_i64 (py_of_json v) = None → number_as_u64 n = None → number_of_f64 f = Some n
    | JBool _ => True | _ => False end;
  number_of_json n : extract_i64 (py_of_json (JNumber n)) = None → extract_f64 (py_of_json (JNumber n)) ≠ None;
  string_of_json v : extract_string (py_of_json v) = match v with JString s => Some s | _ => None end;
  list_of_json v : extract_list (py_of_json v) = match v with JArray l => Some (List.map py_of_json l) | _ => None end;
  dict_of_json v : cast_dict (py_of_json v) =
    match v with JObject es => Some (List.map (λ e, (py_of_json (JString e.1), py_of_json e.2)) es) | _ => None end
}.
Context `{Laws : !PythonLaws}.

(** No number is an integer beyond 64 bits with a sign. *)
Inductive numbers_fit : Json JsonNumber → Prop :=
| fit_null : numbers_fit JNull
| fit_bool b : numbers_fit (JBool b)
| fit_number n : extract_i64 (py_of_json (JNumber n)) ≠ None ∨ number_as_u64 n = None → numbers_fit (JNumber n)
| fit_string s : numbers_fit (JString s)
| fit_array vs : Forall numbers_fit vs → numbers_fit (JArray vs)
| fit_object es : Forall (λ e, numbers_fit e.2) es → numbers_fit (JObject es).

Fixpoint depth (v : Json JsonNumber) : nat :=
  match v with
  | JArray vs => S (List.list_max (List.map depth vs))
  | JObject es => S (List.list_max (List.map (λ e, depth e.2) es))
  | _ => O
  end.

Lemma list_max_below {A} (f : A → nat) (l : list A) n : (List.list_max (List.map f l) < n)%nat → Forall (λ x, (f x < n)%nat) l.
Proof. induction l as [|x l IH]; simpl; intros H; constructor; [lia|]. apply IH. lia. Qed.

Lemma py_collect_arrives (read : PyObject → PyResult (Json JsonNumber)) vs :
  Forall (λ v, ∃ w, read (py_of_json v) = Some (Ok w) ∧ json_equiv v w) vs →
  ∃ ws, py_collect read (List.map py_of_json vs) = Some (Ok ws) ∧ Forall2 json_equiv vs ws.
Proof.
  induction 1 as [|v vs (w & Hw & He) _ (ws & Hws & Hes)]; [by exists []|].
  exists (w :: ws). split; [|by constructor].
  change (py_collect read (List.map py_of_json (v :: vs)))
    with (py_bind (read (py_of_json v)) (λ y, py_bind (py_collect read (List.map py_of_json vs)) (λ ys, Some (Ok (y :: ys))))).
  rewrite Hw. cbn [py_bind]. by rewrite Hws.
Qed.

Lemma py_entries_arrive (read : PyObject → PyResult (Json JsonNumber)) es :
  Forall (λ e, ∃ w, read (py_of_json e.2) = Some (Ok w) ∧ json_equiv e.2 w) es → ∀ found,
  ∃ ws, py_entries read (List.map (λ e, (py_of_json (JString e.1), py_of_json e.2)) es) found
        = Some (Ok (List.fold_left (λ es e, map_insert e.1 e.2 es) ws found))
      ∧ Forall2 (λ f g, f.1 = g.1 ∧ json_equiv f.2 g.2) es ws.
Proof.
  induction 1 as [|[k v] es (w & Hw & He) _ IH]; intros found; [by exists []|].
  destruct (IH (map_insert k w found)) as (ws & Hws & Hes). exists ((k, w) :: ws). split; [|by constructor].
  simpl. rewrite string_of_json. simpl in Hw. rewrite Hw. simpl. exact Hws.
Qed.

(** A document that comes from Python is the one that went there: objects made
    of it are read back as a document that is equal up to the order of entries,
    when its integers have 64 bits and the fuel exceeds its depth. *)
Theorem python_values_arrive fuel v :
  (depth v < fuel)%nat → json_wf v → numbers_fit v →
  ∃ w, json_value_from_py fuel (py_of_json v) = Some (Ok w) ∧ json_equiv v w.
Proof.
  revert v. induction fuel as [|fuel IH]; intros v Hd Hwf Hfit; [lia|]. cbn [json_value_from_py].
  rewrite none_of_json, bool_of_json. pose proof (i64_of_json v) as Hi. pose proof (f64_of_json v) as Hf.
  destruct v as [|b|n|s|vs|es].
  - exists JNull. split; [done|constructor].
  - exists (JBool b). split; [done|constructor].
  - inversion Hfit as [| |? Hn| | |]; subst. destruct (extract_i64 (py_of_json (JNumber n))) as [z|] eqn:Hz.
    + exists (JNumber n). rewrite (Hi z eq_refl). split; [done|constructor].
    + pose proof (number_of_json n Hz) as Hsome. destruct (extract_f64 (py_of_json (JNumber n))) as [f|]; [|done].
      destruct Hn as [|Hn]; [done|]. rewrite (Hf f eq_refl eq_refl Hn). exists (JNumber n). split; [done|constructor].
  - destruct (extract_i64 _) as [z|]; [by destruct (Hi z eq_refl)|]. destruct (extract_f64 _) as [f|]; [by destruct (Hf f eq_refl)|].
    rewrite string_of_json. exists (JString s). split; [done|constructor].
  - destruct (extract_i64 _) as [z|]; [by destruct (Hi z eq_refl)|]. destruct (extract_f64 _) as [f|]; [by destruct (Hf f eq_refl)|].
    rewrite string_of_json, list_of_json. inversion Hwf as [| | | |? Hw|]; subst. inversion Hfit as [| | | |? Hn|]; subst.
    simpl in Hd. apply Nat.succ_lt_mono, list_max_below in Hd.
    destruct (py_collect_arrives (json_value_from_py fuel) vs) as (ws & Hws & He).
    { apply Forall_forall. intros v Hin. rewrite Forall_forall in Hd, Hw, Hn. apply IH; auto. }
    exists (JArray ws). rewrite Hws. split; [done|by constructor].
  - destruct (extract_i64 _) as [z|]; [by destruct (Hi z eq_refl)|]. destruct (extract_f64 _) as [f|]; [by destruct (Hf f eq_refl)|].
    rewrite string_of_json, list_of_json, dict_of_json. inversion Hwf as [| | | | |? Hnd Hw]; subst.
    inversion Hfit as [| | | | |? Hn]; subst. simpl in Hd. apply Nat.succ_lt_mono, list_max_below in Hd.
    destruct (py_entries_arrive (json_value_from_py fuel) es) with (found := @nil (string * Json JsonNumber)) as (ws & Hws & He).
    { apply Forall_forall. intros e Hin. rewrite Forall_forall in Hd, Hw, Hn. apply IH; auto. }
    exists (JObject (json_object ws)). rewrite Hws. split; [done|].
    apply (equiv_object es es ws); [done|done|]. symmetry. apply json_object_perm.
    assert (ws.*1 = es.*1) as ->; [|done]. clear -He. induction He as [|e w es ws [Hk _] _ IH]; csimpl; [done|]. by rewrite Hk, IH.
Qed.
End PythonFacts.

(** ** Small Python objects

    Numbers are natural, negative, or floats that are whole; a large integer is
    extracted as the nearest float. *)
Inductive PyNumber := PosInt (n : N) | NegInt (z : Z) | WholeFloat (z : Z).

Definition fits_i64 (z : Z) : bool := ((- 2 ^ 63 <=? z) && (z <? 2 ^ 63))%Z.

#[local] Instance py_numbers : SerdeJson :=
  {| JsonNumber := PyNumber;
     number_as_i64 n :=
       match n with
       | PosInt n => if fits_i64 (Z.of_N n) then Some (Z.of_N n) else None
       | NegInt z => Some z
       | WholeFloat _ => None
       end;
     number_as_u64 n := match n with PosInt n => Some n | _ => None end;
     number_as_f64 n := match n with PosInt n => Some (show_N n) | NegInt z => Some (show_Z z) | WholeFloat z => Some (show_Z z +:+ ".0") end;
     number_to_string n := match n with PosInt n => show_N n | NegInt z | WholeFloat z => show_Z z end;
     object_to_string _ := "{}" |}.

Inductive PyValue :=
| PyNone
| PyBool (b : bool)
| PyInt (z : Z)
| PyNum (n : PyNumber)
| PyStr (s : string)
| PyList (l : list PyValue)
| PyDict (es : list (PyValue * PyValue))
| PyOther (type_name : string).

Definition nearest_float (z : Z) : Z :=
  if (Z.abs z <? 2 ^ 53)%Z then z
  else let k := (Z.log2 (Z.abs z) - 52)%Z in ((z + 2 ^ (k - 1)) / 2 ^ k * 2 ^ k)%Z.

#[local] Instance small_python : PyO3 :=
  {| PyObject := PyValue; PyFloat := PyNumber;
     py_is_none v := match v with PyNone => true | _ => false end;
     extract_bool v := match v with PyBool b => Some b | _ => None end;
     extract_i64 v :=
       match v with PyInt z => if fits_i64 z then Some z else None | PyBool b => Some (if b then 1 else 0)%Z | _ => None end;
     extract_f64 v :=
       match v with
       | PyInt z => Some (WholeFloat (nearest_float z))
       | PyNum n => Some n
       | PyBool b => Some (WholeFloat (if b then 1 else 0))
       | _ => None
       end;
     extract_string v := match v with PyStr s => Some s | _ => None end;
     extract_list v := match v with PyList l => Some l | _ => None end;
     cast_dict v := match v with PyDict es => Some es | _ => None end;
     type_name v := match v with PyOther name => Some name | _ => None end;
     number_of_i64 z := if (z <? 0)%Z then NegInt z else PosInt (Z.to_N z); number_of_f64 := Some |}.

#[local] Instance append_map : JsonMap PyNumber := {| map_insert key value entries := entries ++ [(key, value)] |}.
#[local] Instance append_map_lawful : LawfulJsonMap PyNumber.
Proof. split. intros key value entries _. simpl. by rewrite Permutation_app_comm. Qed.

Definition py_of_number (n : PyNumber) : PyValue :=
  match n with
  | PosInt n => PyInt (Z.of_N n)
  | NegInt z => if fits_i64 z && (z <? 0)%Z then PyInt z else PyNum (NegInt z)
  | WholeFloat z => PyNum (WholeFloat z)
  end.

Fixpoint small_py_of_json (v : Json PyNumber) : PyValue :=
  match v with
  | JNull => PyNone
  | JBool b => PyBool b
  | JNumber n => py_of_number n
  | JString s => PyStr s
  | JArray l => PyList (List.map small_py_of_json l)
  | JObject es => PyDict (List.map (λ e, (PyStr e.1, small_py_of_json e.2)) es)
  end.

Lemma py_of_number_cases n :
  (∃ z, py_of_number n = PyInt z ∧ (fits_i64 z = true → number_of_i64 z = n) ∧ (fits_i64 z = false → number_as_u64 n ≠ None))
  ∨ py_of_number n = PyNum n.
Proof.
  destruct n as [n|z|z]; simpl.
  - left. exists (Z.of_N n). split_and!; [done| |done]. intros _. destruct (Z.ltb_spec (Z.of_N n) 0); [lia|]. by rewrite N2Z.id.
  - destruct (fits_i64 z) eqn:Hf; [|by right]. destruct (Z.ltb_spec z 0) as [Hz|]; [|by right]. left. exists z. simpl.
    split_and!; [done| |congruence]. intros _. by apply Z.ltb_lt in Hz as ->.
  - by right.
Qed.

Definition small_python_laws : PythonLaws.
Proof.
  refine {| py_of_json := small_py_of_json : Json JsonNumber → PyObject |}.
  - intros [|b|n|s|l|es]; simpl; try done. by destruct (py_of_number_cases n) as [(z & -> & _)| ->].
  - intros [|b|n|s|l|es]; simpl; try done. by destruct (py_of_number_cases n) as [(z & -> & _)| ->].
  - intros [|b|n|s|l|es] i; simpl; try done. destruct (py_of_number_cases n) as [(z & -> & Hz & _)| ->]; [|done].
    destruct (fits_i64 z); [|done]. intros [= <-]. by apply Hz.
  - intros [|b|n|s|l|es] f; simpl; try done. destruct (py_of_number_cases n) as [(z & -> & _ & Hz)| ->].
    + intros _ Hi Hu. destruct (fits_i64 z); [done|]. by destruct (Hz eq_refl).
    + by intros [= ->].
  - intros n. simpl. by destruct (py_of_number_cases n) as [(z & -> & _)| ->].
  - intros [|b|n|s|l|es]; simpl; try done. by destruct (py_of_number_cases n) as [(z & -> & _)| ->].
  - intros [|b|n|s|l|es]; simpl; try done. by destruct (py_of_number_cases n) as [(z & -> & _)| ->].
  - intros [|b|n|s|l|es]; simpl; try done. by destruct (py_of_number_cases n) as [(z & -> & _)| ->].
Defined.

Definition python_document : Json PyNumber :=
  JObject [("name", JString "mouse"); ("scores", JArray [JNumber (NegInt (-1)); JNumber (WholeFloat 2); JNull; JBool true])].

Lemma python_values_arrive_witness :
  (depth python_document < 3)%nat ∧ ∃ w, json_value_from_py 3 (small_py_of_json python_document) = Some (Ok w) ∧ json_equiv python_document w.
Proof.
  split; [vm_compute; lia|]. apply (python_values_arrive (Laws := small_python_laws) 3 python_document).
  - vm_compute; lia.
  - repeat constructor; simpl; set_solver.
  - repeat match goal with |- Forall _ _ => constructor | |- numbers_fit _ => constructor end; first [by left|by right].
Defined.

(** An integer beyond 64 bits with a sign becomes the nearest float, without an
    error. *)
Example a_large_integer_is_rounded :
  parameter_value_from_py 1 (PyInt (2 ^ 63 + 1)) = Some (Ok (VFloat64 "9223372036854775808.0"))
  ∧ parameter_value_from_py 1 (PyInt (2 ^ 63 - 1)) = Some (Ok (VInt64 9223372036854775807)).
Proof. vm_compute. split; reflexivity. Qed.

(** The other types are refused by their name, and keys that are no texts. *)
Example other_types_are_refused :
  json_value_from_py 2 (PyList [PyOther "datetime"]) = Some (Err "unsupported parameter value type `datetime`")
  ∧ json_value_from_py 2 (PyDict [(PyInt 1, PyNone)]) = Some (Err "parameter objects require string keys").
Proof. vm_compute. split; reflexivity. Qed.

(** ** Facts: names of types *)

(** The names that are understood, and the types they are of; none has
    parameters. *)
Definition type_names : list (string * DataType) :=
  [("boolean", TBoolean); ("bool", TBoolean); ("int32", TInt32); ("int64", TInt64); ("int", TInt64); ("integer", TInt64);
   ("float64", TFloat64); ("float", TFloat64); ("double", TFloat64); ("utf8", TUtf8); ("string", TUtf8); ("text", TUtf8);
   ("uuid", TUuid); ("json", TJson); ("date", TDate); ("unknown", TUnknown)].

Theorem type_names_are_understood name :
  data_type_from_name name =
  match json_get (to_ascii_lowercase name) type_names with
  | Some t => Ok t
  | None => Err ("unsupported data type `" +:+ to_ascii_lowercase name +:+ "`")
  end.
Proof.
  unfold data_type_from_name, type_names. generalize (to_ascii_lowercase name) as lower. intros lower.
  cbn [existsb json_get].
  repeat match goal with |- context [String.eqb lower ?k] => rewrite (String.eqb_sym lower k); destruct (String.eqb k lower); [done|] end.
  done.
Qed.

(** ** Facts: the two editors *)

(** Without a requirement both components have the same attributes, apart from
    the value, which Dioxus writes as an attribute and Leptos as the content. *)
Theorem editors_agree props :
  ed_required props = None →
  List.filter (λ a, negb (String.eqb a.1 "required" || String.eqb a.1 "value")) (el_attributes (dioxus_editor props))
  = el_attributes (leptos_editor props)
  ∧ ("value", AText (el_content (leptos_editor props))) ∈ el_attributes (dioxus_editor props)
  ∧ ("required", AFlag false) ∈ el_attributes (dioxus_editor props)
  ∧ el_content (dioxus_editor props) = "".
Proof.
  intros Hr. split_and!; [reflexivity| | |reflexivity]; simpl; rewrite ?Hr; rewrite !elem_of_cons; simpl; naive_solver.
Qed.
